(* ===== verification/_CoqProject ===== *)
-Q . S2P
Prelude.v
Words.v
Memory.v
Double.v
Single.v
Buffers.v
History.v
Queues.v
Reassembler.v
Seq.v
Congestion.v
Link.v
MessageThread.v
Streams.v
Net.v
Socks.v
Json.v
JsonSafety.v
JsonText.v
Config.v
Wire.v
Packet.v
Cursor.v
Jitter.v
RingBuffer.v
Spl.v
Vec.v
Resample.v
Vad.v
Samples.v
Decoder.v
Encoder.v
Pipeline.v
Devices.v
Ini.v
Settings.v
Env.v
Sip.v
Machine.v
Gateway.v
Endpoints.v
Posix.v
Selecting.v
Controller.v
Setup.v
Incoming.v
Timers.v
Api.v
CallSafety.v
ReceiveSafety.v
SetupSafety.v
TimerSafety.v
CallRun.v
CallTypes.v
CallErrors.v
TgClient.v
Group.v
GroupSafety.v
GroupBytes.v
Video.v
