(* ===== verification/Prelude.v ===== *)
(** * tg2sip / libtgvoip: a verification library

    tg2sip is a gateway between Telegram voice calls and SIP.  [src/tg2sip]
    is the gateway (TDLib on one side, PJSIP on the other, a state machine
    for every call), [src/include] has the settings-file reader and the
    state-machine library it uses, [src/libtgvoip] is the VoIP library that
    carries the audio of Telegram calls, and
    [src/libtgvoip/webrtc_dsp] the signal processing that library takes from
    WebRTC.  This library models the core logic of these four parts and
    proves what makes it correct.

    ** The parts, their files here, and how they interact

    Foundations.  [Prelude]: the outcome monad [M] (a value, a C++ exception
    with the state at the throw, or the end of the process), its weakest
    precondition [wp], runs that move the state along a preorder ([along]),
    reachability ([star]), lists indexed by [Z].  [Words]: machine integers
    as [Z] with their wrap-around, bytes in little-endian order.  [Memory]:
    copies inside arrays.  [Double] and [Single]: IEEE binary64 and
    binary32.

    Data structures of libtgvoip.  [Buffers] and [Streams] ([Buffers.cpp],
    [Buffers.h]: byte streams, owned buffers, the pool of packet buffers),
    [Cursor] (what each read does at a place of a message), [History] ([HistoricBuffer]), [Queues] ([BlockingQueue.h] and the event
    queue [tg2sip/queue.h]), [Reassembler] ([PacketReassembler.cpp]),
    [Congestion] ([CongestionControl.cpp]), [Jitter] ([JitterBuffer.cpp]),
    [MessageThread] ([MessageThread.cpp]), [Net] and [Socks]
    ([NetworkSocket.cpp]: addresses, the obfuscated TCP transport, the
    SOCKS5 client), [Posix] and [Selecting] ([os/posix]: sockets, with the
    kernel's answers as arguments, and the wait for several of them, for any
    type with the methods of the class [Socket]).

    The controller of a call ([VoIPController.cpp]).  [Seq] and [Link]: the
    numbers of packets, the window of received packets, acknowledgements,
    reliable packets and extra data.  [Wire]: encryption under MTProto 1 and
    2.  [Packet]: the three formats of the header.  [Endpoints]: the map of
    relays and peers.  [Controller]: the state of a call and what sends
    packets, changes the state, starts audio.  [Incoming]:
    [ProcessIncomingPacket] and [ProcessExtraData] as the receive thread
    calls them.  [Setup]: the constructor, the calls of the gateway, the
    send thread up to [PKT_INIT].  [Timers] (Module [Call]): what the
    message thread runs and [HandleAudioInput].  [Api]: what the program may
    ask of a call that runs.  [Video]: frames cut into packets, the frames
    that were lost, the frames that arrive.  [Controller.t] has [Link.t], [Wire.config] and
    [Endpoints.t] as fields, its streams hold a [JitterBuffer.t] or a
    [PacketReassembler.t], and [Call.t] has a [Controller.t]; an operation
    of a part runs on the whole by [zoom] (Controller.on_link,
    Controller.on_routes, Call.on_base), a message that is parsed or built
    by [Streams.with_stream].

    Group calls ([VoIPGroupController.cpp]).  [Group] is the controller of a
    call with participants: its state has a [Controller.t] (Group.on_base),
    and the functions that are virtual in the source are defined again where
    a group call overrides them.

    Audio.  [Samples] (the frames that are stretched and squeezed, the
    conversions between 44.1 and 48 kHz, volume, mixer, level), [Decoder] ([OpusDecoder.cpp]), [Encoder]
    ([OpusEncoder.cpp], [EchoCanceller.cpp]), [Pipeline] (the threads of
    both with their queues, pools and semaphore, as steps that interleave),
    [Devices] (the frames of tg2sip's conference bridge).  The Opus library,
    the audio processing module and the exponential are the classes [Opus],
    [OpusEnc], [Apm] and [Libm].

    Configuration.  [Json] ([json11.cpp]: values, printing, the parser) and
    [Config] (the configuration the server sends, the state a call saves,
    the set-up of a proxy for UDP).  The values of the configuration reach
    the other parts through the class [ServerConfig].

    The gateway.  [Ini] ([include/INIReader.h]) and [Settings]
    ([settings.cpp]); [Env]: TDLib, PJSIP and the clock as a class of
    operations; [Sip] ([sip.cpp]), [TgClient] ([tg.cpp]), [Machine] (the
    guards, actions and transition tables of [gateway.cpp], run as
    [boost/sml.hpp] runs them), [Gateway] (the bridges and the main loop).

    Signal processing ([webrtc_dsp/common_audio]).  [RingBuffer], [Spl]
    (scalar fixed-point arithmetic), [Vec] (vector operations), [Resample]
    (resamplers and the QMF filter bank), [Vad] (the voice activity
    detector).

    ** What the theorems show

    Properties of whole components are theorems named in the manifest, each
    with its id in its comment.  In groups:
    - a call never does what it must not ([CallSafety], [ReceiveSafety],
      [SetupSafety], [TimerSafety], [CallRun]): the invariant [call_ok] of
      the state of a call, that setting up establishes it and that every
      datagram, timer, frame of audio and request keeps it, with the only
      ways a call can end the process; [CallTypes]: counters in their types;
      [CallErrors]: requests the protocol code cannot carry out;
    - a group call ([GroupSafety], [GroupBytes]): its invariant in every
      reachable state, what removing a user does, the way of a frame from
      one participant to the jitter buffer of another, lists of streams that
      are read as they were written, the packets that end the process;
    - audio: decoding and encoding never leave their buffers and every
      sample is used once; in every interleaving of the audio threads blocks
      are played and recorded in order and none is lost, and stopping ends;
    - video ([Video]): a frame arrives whatever the order of its packets, a
      key frame is requested exactly when one was lost, and 256 packets are
      too many;
    - JSON ([JsonSafety], [JsonText]): the parser ends on every text and
      reads back what is printed; the saved state and the admission of a
      proxy ([Config]);
    - what travels arrives: round trips of streams, headers, encryption, TCP
      framing, SOCKS5, settings; a connection keeps its bytes unless the
      kernel takes a part of a packet, answers come from the address a
      datagram went to, sockets that failed are always reported; the receive window refines a set of numbers
      and the mask of acknowledgements is off by one; extra data is forgotten
      only when it was received;
    - the jitter buffer, the buffer pool, the blocking queue, the message
      thread, the congestion control and the reassembler under any sequence
      or interleaving of their operations;
    - the gateway: every reachable state of its main loop, tear-down on both
      sides, promises completed by their responses only;
    - signal processing: exactness against reference definitions, streaming
      equivalence of the resamplers, totality of the detector.

    ** Conventions and bounds

    Integers are [Z] in the range of their type, with [u8] ... [s64] where
    the source converts.  Doubles are binary64, correctly rounded.  An
    exception is a value of [exn]; [crash] is the end of the process by a
    failed assertion, [abort], an uncaught exception, or behaviour the
    language leaves undefined.  Loops over lists are structural; where a
    loop is not, its fuel is the length of what it consumes ([Ini.lines_of],
    [Net.read_body]: every round takes at least one byte; [Vec]: every round
    advances the index; [Json]: a round of the parser takes at least one
    character and the depth is at most 200; [Group.read_ints]: a round takes
    four bytes) and the theorems show that it suffices: running out of it is
    the crash [Diverged], which they exclude.  Proofs
    about messages assume less than 1 MiB of data, far above what a datagram
    carries.  The steps of the threads of a call are taken one at a time, as
    the locks of the source intend.

    TDLib, PJSIP, the resolver, the kernel's sockets, the cryptographic
    callbacks, the clock and random bytes are parameters (classes), with the
    documented behaviour the code relies on as laws ([CryptoLaws]).

    ** Not modelled, and why

    - [main.cpp], [logging.cpp], [gen_db.cpp], build files, tests: start-up,
      text output and tools, no logic to state.
    - the rest of [src/libtgvoip/os], [audio] drivers, the bindings for
      Android, Windows and Darwin, [go]: calls into the platform.
    - the rest of [boost/sml.hpp], a third-party library the sources only
      call (the part of its dispatch that the gateway relies on is in
      [Machine]); of json11 the comparison of values, [has_shape] and
      [parse_multi], which nothing calls.
    - the acoustic echo cancellers, noise suppression, gain control, iSAC
      and the FFTs of [webrtc_dsp]: third-party signal processing behind
      [EchoCanceller], reached through one interface and not used for the
      decisions of the call; the configuration [EchoCanceller] passes to it.
    - of the controller: the select loop around the sockets, debug strings,
      the log, the choice of devices; of group calls the debug string; the
      thread of the mixer, which hands its blocks over as the decoder of
      [Pipeline] does. *)

From Stdlib Require Import ZArith Lia.
From stdpp Require Export base tactics list numbers option.
From stdpp Require Import strings gmap.

#[export] Set Default Goal Selector "!".

(* ------------------------------------------------------------------ *)
(** ** Scope and arithmetic automation *)

Declare Scope tg_scope.
Delimit Scope tg_scope with tg.
#[global] Open Scope Z_scope.
#[global] Open Scope tg_scope.

(** [lia] that also knows the characteristic equations of division,
    modulo and of C's truncating [Z.quot]/[Z.rem]. *)
Ltac dlia := Z.to_euclidean_division_equations; lia.

(** Modulo by a variable, within one period of the range. *)
Lemma mod_neg x n : - n ≤ x < 0 → x mod n = x + n.
Proof. intros. symmetry. apply Z.mod_unique with (-1); lia. Qed.

Lemma mod_once x n : n ≤ x < 2 * n → x mod n = x - n.
Proof. intros. symmetry. apply Z.mod_unique with 1; lia. Qed.

(** The shared rewriting and resolution databases of the library. *)
Create HintDb tg discriminated.
Create HintDb tg_len discriminated. 

(* ------------------------------------------------------------------ *)
(** ** Outcomes: the ways a C++ operation can end

    A call returns a value, throws one of the exceptions the source
    throws, or stops the process: a failed [assert], a call to [abort],
    an uncaught exception, or behaviour the language leaves undefined
    (an access outside an object).  The state is kept on both regular and
    exceptional exits, because a catch block sees the effects that
    happened before the throw. *)

Inductive exn :=
| OutOfRange        (** std::out_of_range *)
| InvalidArgument   (** std::invalid_argument *)
| RuntimeError (what : string)  (** std::runtime_error *)
| PjError (reason : string).    (** pj::Error *)

Inductive crash :=
| AssertFailed
| AbortCalled
| UncaughtException
| BadCast            (** a double cast to an integer type it does not fit *)
| UndefinedBehaviour (** any other undefined behaviour: out-of-bounds access, NULL *)
| Diverged           (** a loop took more rounds than its model allows *).

#[export] Instance exn_eq_dec : EqDecision exn.
Proof. solve_decision. Defined.
#[export] Instance crash_eq_dec : EqDecision crash.
Proof. solve_decision. Defined.

Inductive outcome (S A : Type) :=
| Ret (a : A) (s : S)
| Throw (e : exn) (s : S)
| Crash (c : crash).
Arguments Ret {S A}.
Arguments Throw {S A}.
Arguments Crash {S A}.

(** The state-and-exceptions monad of the stateful components. *)
Definition M (S A : Type) : Type := S → outcome S A.

#[export] Instance M_ret {S} : MRet (M S) := λ A a s, Ret a s.
#[export] Instance M_bind {S} : MBind (M S) := λ A B f m s,
  match m s with
  | Ret a s' => f a s'
  | Throw e s' => Throw e s'
  | Crash c => Crash c
  end.

#[export] Instance M_fmap {S} : FMap (M S) := λ A B f m s,
  match m s with
  | Ret a s' => Ret (f a) s'
  | Throw e s' => Throw e s'
  | Crash c => Crash c
  end.

Definition get {S} : M S S := λ s, Ret s s.
Definition gets {S A} (f : S → A) : M S A := λ s, Ret (f s) s.
Definition put {S} (s : S) : M S unit := λ _, Ret tt s.
Definition modify {S} (f : S → S) : M S unit := λ s, Ret tt (f s).
Definition throw {S A} (e : exn) : M S A := λ s, Throw e s.
Definition crash_with {S A} (c : crash) : M S A := λ _, Crash c.
(** [assert(b)]. *)
Definition assert_ {S} (b : bool) : M S unit :=
  λ s, if b then Ret tt s else Crash AssertFailed.
(** A value that is there, or undefined behaviour. *)
Definition defined {S A} (o : option A) : M S A :=
  λ s, match o with Some a => Ret a s | None => Crash UndefinedBehaviour end.
(** [try m catch (e) h e]. *)
Definition try_catch {S A} (m : M S A) (h : exn → M S A) : M S A := λ s,
  match m s with
  | Throw e s' => h e s'
  | r => r
  end.

(** Did the call return, and with what? *)
Definition ret_value {S A} (o : outcome S A) : option A :=
  match o with Ret a _ => Some a | _ => None end.
Definition end_state {S A} (o : outcome S A) : option S :=
  match o with Ret _ s | Throw _ s => Some s | Crash _ => None end.

Section monad_laws.
Context {S A B C : Type}.
  Implicit Types (m : M S A) (f : A → M S B) (g : B → M S C).

Lemma bind_Ret m f s a s' :
    m s = Ret a s' → (m ≫= f) s = f a s'.
  Proof. unfold mbind, M_bind. by intros ->. Qed.

Lemma fmap_Ret (h : A → B) m s a s' :
    m s = Ret a s' → (h <$> m) s = Ret (h a) s'.
  Proof. unfold fmap, M_fmap. by intros ->. Qed.

Lemma bind_Throw m f s e s' :
    m s = Throw e s' → (m ≫= f) s = Throw e s'.
  Proof. unfold mbind, M_bind. by intros ->. Qed.

Lemma bind_Ret_inv m f s b s' :
    (m ≫= f) s = Ret b s' → ∃ a s1, m s = Ret a s1 ∧ f a s1 = Ret b s'.
  Proof.
    unfold mbind, M_bind. destruct (m s) as [a s1| |] eqn:E; intros H; try done.
    by exists a, s1.
  Qed.
End monad_laws.

(** Invert a run of a monadic program that returned. *)
Ltac run_inv :=
  repeat match goal with
  | H : (_ ≫= _) _ = Ret _ _ |- _ =>
      let a := fresh "a" in let s := fresh "s" in
      let E := fresh "E" in let E' := fresh "E" in
      apply bind_Ret_inv in H as (a & s & E & E')
  | H : mret _ _ = Ret _ _ |- _ => injection H as; subst
  | H : Ret _ _ = Ret _ _ |- _ => injection H as; subst
  end.

(* ------------------------------------------------------------------ *)
(** ** Postconditions

    [wp m s Q T C]: running [m] from [s] ends in [Q] when it returns, in [T]
    when it throws, and only crashes in the ways [C] allows. *)

Definition wp {S A} (m : M S A) (s : S) (Q : A → S → Prop)
    (T : exn → S → Prop) (C : crash → Prop) : Prop :=
  match m s with
  | Ret a s' => Q a s'
  | Throw e s' => T e s'
  | Crash c => C c
  end.

Section wp.
Context {S : Type} (T : exn → S → Prop) (C : crash → Prop).

Lemma wp_bind {A B} (m : M S A) (f : A → M S B) s Q :
  wp m s (λ a s', wp (f a) s' Q T C) T C → wp (m ≫= f) s Q T C.
Proof. unfold wp, mbind, M_bind. by destruct (m s). Qed.

Lemma wp_ret {A} (a : A) s (Q : A → S → Prop) : Q a s → wp (mret a) s Q T C.
Proof. done. Qed.

Lemma wp_get s (Q : S → S → Prop) : Q s s → wp get s Q T C.
Proof. done. Qed.

Lemma wp_modify f s (Q : unit → S → Prop) : Q tt (f s) → wp (modify f) s Q T C.
Proof. done. Qed.

Lemma wp_crash {A} c s (Q : A → S → Prop) : C c → wp (crash_with c) s Q T C.
Proof. done. Qed.

Lemma wp_defined {A} (o : option A) a s (Q : A → S → Prop) :
  o = Some a → Q a s → wp (defined o) s Q T C.
Proof. intros -> ?. done. Qed.

Lemma wp_if {A} (b : bool) (m1 m2 : M S A) s Q :
  (b = true → wp m1 s Q T C) → (b = false → wp m2 s Q T C) →
  wp (if b then m1 else m2) s Q T C.
Proof. destruct b; auto. Qed.

Lemma wp_mono {A} (m : M S A) s (Q Q' : A → S → Prop) :
  wp m s Q' T C → (∀ a s', Q' a s' → Q a s') → wp m s Q T C.
Proof. unfold wp. destruct (m s); auto. Qed.

Lemma wp_and {A} (m : M S A) s (Q Q' : A → S → Prop) :
  wp m s Q T C → wp m s Q' T C → wp m s (λ a s', Q a s' ∧ Q' a s') T C.
Proof. unfold wp. destruct (m s); auto. Qed.
End wp.

(** [along R m]: every run of [m] that returns or throws moves the state
    along [R].  For a preorder this is compositional. *)
Definition along {S A} (R : S → S → Prop) (m : M S A) : Prop :=
  ∀ s, wp m s (λ _, R s) (λ _, R s) (λ _, True).

Section along.
Context {S : Type} (R : S → S → Prop) `{!PreOrder R}.

Lemma along_bind {A B} (m : M S A) (f : A → M S B) :
  along R m → (∀ a, along R (f a)) → along R (m ≫= f).
Proof.
  intros Hm Hf s. specialize (Hm s). unfold wp, mbind, M_bind in *.
  destruct (m s) as [a s1|e s1|]; [|done..]. specialize (Hf a s1). unfold wp in Hf.
  destruct (f a s1); [by etransitivity..|done].
Qed.
Lemma along_ret {A} (a : A) : along R (mret a).
Proof. intros s. by apply wp_ret. Qed.
Lemma along_get : along R get.
Proof. intros s. by apply wp_get. Qed.
Lemma along_crash {A} c : along (A := A) R (crash_with c).
Proof. by intros s. Qed.
Lemma along_defined {A} (o : option A) : along R (defined o).
Proof. intros s. unfold wp, defined. by destruct o. Qed.
Lemma along_modify f : (∀ s, R s (f s)) → along R (modify f).
Proof. intros Hf s. apply wp_modify, Hf. Qed.
Lemma along_if {A} (b : bool) (m m' : M S A) : along R m → along R m' → along R (if b then m else m').
Proof. by destruct b. Qed.
End along.

(** Split a program along its structure, leaving the [modify]s and the calls. *)
Ltac along_step :=
  lazymatch goal with
  | |- along _ (_ ≫= _) => apply along_bind; [exact _| |intros ?]
  | |- along _ (mret _) => apply along_ret; exact _
  | |- along _ get => apply along_get; exact _
  | |- along _ (crash_with _) => apply along_crash
  | |- along _ (defined _) => apply along_defined; exact _
  | |- along _ (if ?b then _ else _) => first [apply along_if | destruct b]
  | |- along _ (match ?x with _ => _ end) => destruct x
  | |- along _ (let _ := _ in _) => cbv zeta
  | |- along _ (modify _) => apply along_modify; intros ?
  end.

(** Step through a straight-line program. *)
Ltac wp_step :=
  match goal with
  | |- wp (_ ≫= _) _ _ _ _ => apply wp_bind
  | |- wp (mret _) _ _ _ _ => apply wp_ret
  | |- wp get _ _ _ _ => apply wp_get
  | |- wp (modify _) _ _ _ _ => apply wp_modify
  | |- wp (crash_with _) _ _ _ _ => apply wp_crash
  | |- wp (if _ then _ else _) _ _ _ _ => apply wp_if; intros ?
  | |- wp (λ s, ?m s) _ _ _ _ => change (wp m)
  end; cbv beta.

Lemma wp_weaken {S X} (m : M S X) (s : S) (Q Q' : X → S → Prop) (T T' : exn → S → Prop) (D D' : crash → Prop) :
  wp m s Q' T' D' → (∀ x s', Q' x s' → Q x s') → (∀ e s', T' e s' → T e s') → (∀ c, D' c → D c) → wp m s Q T D.
Proof. unfold wp. destruct (m s); auto. Qed.

Lemma wp_gets {S X} (f : S → X) (s : S) (Q : X → S → Prop) T D : Q (f s) s → wp (gets f) s Q T D.
Proof. done. Qed.
Lemma wp_put {S} (x s : S) (Q : unit → S → Prop) T D : Q tt x → wp (put x) s Q T D.
Proof. done. Qed.

(** ** An operation of a part of the state *)

Definition map_state {S1 S2 A} (f : S1 → S2) (o : outcome S1 A) : outcome S2 A :=
  match o with
  | Ret a s => Ret a (f s)
  | Throw e s => Throw e (f s)
  | Crash c => Crash c
  end.

Definition zoom {S A X} (proj : S → A) (upd : A → S → S) (m : M A X) : M S X :=
  λ s, map_state (λ a, upd a s) (m (proj s)).

Lemma wp_zoom {S P X} (proj : S → P) (upd : P → S → S) (m : M P X) (s : S) Q T D :
  wp m (proj s) (λ x p, Q x (upd p s)) (λ e p, T e (upd p s)) D → wp (zoom proj upd m) s Q T D.
Proof. unfold wp, zoom. by destruct (m (proj s)). Qed.
Lemma along_zoom {S P X} (R : S → S → Prop) (proj : S → P) upd (m : M P X) :
  (∀ p s, R s (upd p s)) → along R (zoom proj upd m).
Proof. intros HR s. unfold wp, zoom. destruct (m (proj s)); simpl; auto. Qed.

(* ------------------------------------------------------------------ *)
(** ** Record update

    [s <| f := v |>] is [s] with field [f] set to [v], and
    [s <| f ::= g |>] applies [g] to the field.  A record type declares the
    instance [Eta] that rebuilds a value from its fields; the updater of a
    field is then found by abstracting that field's projection. *)

Class Eta (R : Type) := eta : R → R.
Class Updater {R A : Type} (field : R → A) := updater : (A → A) → R → R.
Arguments updater {R A} field {_} _ _.

Ltac find_updater :=
  match goal with
  | |- @Updater ?R ?A ?field =>
      let e := constr:(_ : Eta R) in
      let body := eval hnf in e in
      let abst := eval pattern field in body in
      match abst with
      | ?P _ => exact (fun (g : A → A) => P (fun r : R => g (field r)))
      end
  end.
#[export] Hint Extern 0 (Updater _) => find_updater : typeclass_instances.

Notation "s '<|' f '::=' g '|>'" := (updater f g s)
  (at level 12, f at next level, left associativity) : tg_scope.
Notation "s '<|' f ':=' v '|>'" := (updater f (λ _, v) s)
  (at level 12, f at next level, left associativity) : tg_scope.

(* ------------------------------------------------------------------ *)
(** ** Reachability *)

Section star.
Context {A : Type} (R : A → A → Prop).

Inductive star : A → A → Prop :=
  | star_refl a : star a a
  | star_step a b c : R a b → star b c → star a c.

Lemma star_invariant (P : A → Prop) :
    (∀ a b, R a b → P a → P b) →
    ∀ a b, star a b → P a → P b.
  Proof. intros HP a b. induction 1; eauto. Qed.

Lemma star_trans a b c : star a b → star b c → star a c.
  Proof. induction 1; [done|]. intros. econstructor; eauto. Qed.

Lemma star_one a b : R a b → star a b.
  Proof. intros. eapply star_step; [done|constructor]. Qed.
End star.

(* ------------------------------------------------------------------ *)
(** ** Lists indexed by Z, sums *)

Section zlist.
Context {A : Type}.
  Implicit Types l : list A.

  (** A C array access: [None] outside the bounds (negative included). *)
Definition znth l (i : Z) : option A :=
    if decide (0 ≤ i) then l !! Z.to_nat i else None.

  (** A C array store: [None] outside the bounds. *)
Definition zset l (i : Z) (x : A) : option (list A) :=
    if decide (0 ≤ i < Z.of_nat (length l)) then Some (<[Z.to_nat i := x]> l) else None.

Definition zlen l : Z := Z.of_nat (length l).

Lemma znth_Some l i : 0 ≤ i < zlen l → ∃ x, znth l i = Some x.
  Proof.
    intros Hi. unfold znth, zlen in *. rewrite decide_True by lia.
    apply lookup_lt_is_Some. lia.
  Qed.

Lemma znth_of_nat l (i : nat) : znth l (Z.of_nat i) = l !! i.
  Proof. unfold znth. rewrite decide_True by lia. by rewrite Nat2Z.id. Qed.

Lemma znth_bound l i x : znth l i = Some x → 0 ≤ i < zlen l.
  Proof.
    unfold znth, zlen. case_decide; [|done]. intros Hl%lookup_lt_Some. lia.
  Qed.

Lemma znth_None l i : znth l i = None ↔ ¬ 0 ≤ i < zlen l.
  Proof.
    unfold znth, zlen. case_decide.
    - rewrite lookup_ge_None. lia.
    - split; [lia|done].
  Qed.

Lemma zset_Some l i x : 0 ≤ i < zlen l → zset l i x = Some (<[Z.to_nat i := x]> l).
  Proof. intros Hi. unfold zset, zlen in *. by rewrite decide_True. Qed.

Lemma zset_inv l i x l' :
    zset l i x = Some l' → 0 ≤ i < zlen l ∧ l' = <[Z.to_nat i := x]> l.
  Proof. unfold zset, zlen. case_decide; naive_solver. Qed.

Lemma zlen_insert l i x : zlen (<[i := x]> l) = zlen l.
  Proof. unfold zlen. by rewrite length_insert. Qed.

Lemma zlen_app l l' : zlen (l ++ l') = zlen l + zlen l'.
  Proof. unfold zlen. rewrite length_app. lia. Qed.

Lemma zlen_nil : zlen (@nil A) = 0.
  Proof. done. Qed.

Lemma zlen_cons x l : zlen (x :: l) = 1 + zlen l.
  Proof. unfold zlen. simpl. lia. Qed.

Lemma zlen_nonneg l : 0 ≤ zlen l.
  Proof. unfold zlen. lia. Qed.

Lemma Forall_insert_same (P : A → Prop) l i x :
    Forall P l → P x → Forall P (<[i := x]> l).
  Proof. intros Hl Hx. by apply Forall_insert. Qed.
End zlist.

Lemma zlen_fmap {A B} (f : A → B) l : zlen (f <$> l) = zlen l.
Proof. unfold zlen. by rewrite length_fmap. Qed.
Lemma zlen_seq m n : zlen (seq m n) = Z.of_nat n.
Proof. unfold zlen. by rewrite length_seq. Qed.
Lemma zlen_replicate {A} n (x : A) : zlen (replicate n x) = Z.of_nat n.
Proof. unfold zlen. by rewrite length_replicate. Qed.

(** The sum of a list of integers. *)
Definition zsum (l : list Z) : Z := foldr Z.add 0 l.

Lemma zsum_cons x l : zsum (x :: l) = x + zsum l.
Proof. done. Qed.

Lemma zsum_nonneg l : Forall (λ x, 0 ≤ x) l → 0 ≤ zsum l.
Proof. induction 1; [done|]. rewrite zsum_cons. lia. Qed.

Lemma zsum_le l b : Forall (λ x, x ≤ b) l → zsum l ≤ zlen l * b.
Proof. induction 1; [done|]. rewrite zsum_cons, zlen_cons. lia. Qed.

Lemma zsum_app l l' : zsum (l ++ l') = zsum l + zsum l'.
Proof. induction l; simpl in *; lia. Qed.

Lemma zsum_insert l i x y :
  l !! i = Some y → zsum (<[i := x]> l) = zsum l - y + x.
Proof.
  revert i. induction l as [|z l IH]; intros [|i] H; simplify_eq/=; [lia|].
  rewrite (IH i) by done. lia.
Qed.

Lemma zsum_replicate n x : zsum (replicate n x) = Z.of_nat n * x.
Proof. induction n; simpl; lia. Qed.

(** Index of the first element that satisfies a test: the shape of every
    [for (i = 0; i < N; i++) if (...) break;] loop of the source. *)
Fixpoint find_index {A} (p : A → bool) (l : list A) : option nat :=
  match l with
  | [] => None
  | x :: l' => if p x then Some 0%nat else S <$> find_index p l'
  end.

Section find_index.
Context {A : Type} (p : A → bool).
  Implicit Types l : list A.

Lemma find_index_Some l i :
    find_index p l = Some i →
    ∃ x, l !! i = Some x ∧ p x = true ∧
         ∀ j y, (j < i)%nat → l !! j = Some y → p y = false.
  Proof.
    revert i. induction l as [|x l IH]; intros i H; simpl in H; [done|].
    destruct (p x) eqn:Hp.
    - simplify_eq. exists x. split_and!; [done..|]. intros j y Hj. lia.
    - destruct (find_index p l) as [k|] eqn:E; simplify_eq/=.
      destruct (IH k eq_refl) as (y & Hy & Hpy & Hmin).
      exists y. split_and!; [done..|].
      intros [|j] z Hj Hz; simplify_eq/=; [done|]. eapply Hmin; [|done]. lia.
  Qed.

Lemma find_index_None l : find_index p l = None ↔ Forall (λ x, p x = false) l.
  Proof.
    induction l as [|x l IH]; simpl; [by split|].
    rewrite Forall_cons. destruct (p x).
    - naive_solver.
    - rewrite fmap_None, IH. naive_solver.
  Qed.

Lemma find_index_lt l i : find_index p l = Some i → (i < length l)%nat.
  Proof. intros (x & H & _)%find_index_Some. by eapply lookup_lt_Some. Qed.
End find_index.

#[export] Hint Rewrite @zlen_insert @zlen_app @zlen_nil @zlen_cons
  @zlen_fmap @zlen_seq @zlen_replicate : tg_len.
#[export] Hint Rewrite @length_insert @length_app @length_replicate @length_take
  @length_drop @length_fmap @length_seq : tg_len.
#[export] Hint Resolve zlen_nonneg : tg.
