(* ===== verification/Words.v ===== *)
(** * Machine integers and byte strings

    Fixed-width integers are [Z] with the wrap-around written out: [uN x]
    is the value of [x] converted to an unsigned N-bit type, [sN x] its
    value converted to a signed one (two's complement, as every compiler
    the project builds with does).  Bytes are [Z] in [0, 256).  The byte
    order of every stream of the program is little endian. *)

From Stdlib Require Import ZArith Lia.
From stdpp Require Import base tactics list numbers option.
From S2P Require Import Prelude.

Definition u8  (x : Z) : Z := x mod 256.
Definition u16 (x : Z) : Z := x mod 65536.
Definition u32 (x : Z) : Z := x mod 4294967296.
Definition u64 (x : Z) : Z := x mod 18446744073709551616.
Definition s8  (x : Z) : Z := (x + 128) mod 256 - 128.
Definition s16 (x : Z) : Z := (x + 32768) mod 65536 - 32768.
Definition s32 (x : Z) : Z := (x + 2147483648) mod 4294967296 - 2147483648.
Definition s64 (x : Z) : Z :=
  (x + 9223372036854775808) mod 18446744073709551616 - 9223372036854775808.

Abbreviation is_u8 x  := (0 ≤ x < 256).
Abbreviation is_u16 x := (0 ≤ x < 65536).
Abbreviation is_u32 x := (0 ≤ x < 4294967296).
Abbreviation is_u64 x := (0 ≤ x < 18446744073709551616).
Abbreviation is_s16 x := (-32768 ≤ x < 32768).
Abbreviation is_s32 x := (-2147483648 ≤ x < 2147483648).
Abbreviation is_s64 x := (-9223372036854775808 ≤ x < 9223372036854775808).

Ltac unfold_words :=
  unfold u8, u16, u32, u64, s8, s16, s32, s64 in *.
Ltac word_lia := unfold_words; dlia.

Lemma u8_range x : is_u8 (u8 x).     Proof. apply Z.mod_pos_bound; lia. Qed.
Lemma u16_range x : is_u16 (u16 x).  Proof. apply Z.mod_pos_bound; lia. Qed.
Lemma u32_range x : is_u32 (u32 x).  Proof. apply Z.mod_pos_bound; lia. Qed.
Lemma u64_range x : is_u64 (u64 x).  Proof. apply Z.mod_pos_bound; lia. Qed.
Lemma s16_range x : is_s16 (s16 x).  Proof. word_lia. Qed.
Lemma s32_range x : is_s32 (s32 x).  Proof. word_lia. Qed.
Lemma s64_range x : is_s64 (s64 x).  Proof. word_lia. Qed.

Lemma u8_small x : is_u8 x → u8 x = x.     Proof. apply Z.mod_small. Qed.
Lemma u16_small x : is_u16 x → u16 x = x.  Proof. apply Z.mod_small. Qed.
Lemma u32_small x : is_u32 x → u32 x = x.  Proof. apply Z.mod_small. Qed.
Lemma u64_small x : is_u64 x → u64 x = x.  Proof. apply Z.mod_small. Qed.
Lemma s16_small x : is_s16 x → s16 x = x.  Proof. word_lia. Qed.
Lemma s32_small x : is_s32 x → s32 x = x.  Proof. word_lia. Qed.
Lemma s64_small x : is_s64 x → s64 x = x.  Proof. word_lia. Qed.

#[export] Hint Resolve u8_range u16_range u32_range u64_range
  s16_range s32_range s64_range : tg.

Lemma u32_add_l x y : u32 (u32 x + y) = u32 (x + y).
Proof. unfold u32. by rewrite Zplus_mod_idemp_l. Qed.
Lemma u32_sub_l x y : u32 (u32 x - y) = u32 (x - y).
Proof. unfold u32. by rewrite Zminus_mod_idemp_l. Qed.
Lemma u32_add x y : u32 (u32 x + u32 y) = u32 (x + y).
Proof. unfold u32. by rewrite <- Zplus_mod. Qed.
Lemma u32_sub x y : u32 (u32 x - u32 y) = u32 (x - y).
Proof. unfold u32. by rewrite <- Zminus_mod. Qed.
Lemma s32_u32 x : s32 (u32 x) = s32 x.
Proof. unfold s32, u32. by rewrite Zplus_mod_idemp_l. Qed.
Lemma u32_s32 x : u32 (s32 x) = u32 x.
Proof. word_lia. Qed.
Lemma u64_add_l x y : u64 (u64 x + y) = u64 (x + y).
Proof. unfold u64. by rewrite Zplus_mod_idemp_l. Qed.
Lemma u64_sub_l x y : u64 (u64 x - y) = u64 (x - y).
Proof. unfold u64. by rewrite Zminus_mod_idemp_l. Qed.

(** ** Bit fields *)

Lemma land_mask x n : 0 ≤ n → Z.land x (Z.ones n) = x mod 2 ^ n.
Proof. apply Z.land_ones. Qed.

Lemma land_255 x : Z.land x 255 = x mod 256.
Proof. exact (Z.land_ones x 8 ltac:(done)). Qed.

(** [a | (b << n)] adds, when [a] fits in the low [n] bits. *)
Lemma lor_shiftl_add a b n :
  0 ≤ n → 0 ≤ a < 2 ^ n → Z.lor a (Z.shiftl b n) = a + b * 2 ^ n.
Proof.
  intros Hn Ha. rewrite <- Z.shiftl_mul_pow2 by done.
  rewrite <- Z.add_lor_land.
  replace (Z.land a (Z.shiftl b n)) with 0; [lia|].
  symmetry. apply Z.bits_inj'. intros i Hi.
  rewrite Z.land_spec, Z.bits_0, Z.shiftl_spec by done.
  destruct (decide (i < n)).
  - rewrite (Z.testbit_neg_r b) by lia. apply andb_false_r.
  - rewrite <- (Z.mod_small a (2 ^ n)) by done.
    by rewrite Z.mod_pow2_bits_high by lia.
Qed.

(** ** Byte strings *)

Abbreviation bytes := (list Z).
Definition wf_bytes (l : bytes) : Prop := Forall (λ b, is_u8 b) l.

(** The [n] little-endian bytes of [z]: byte [i] is [(z >> 8 i) & 0xFF]. *)
Fixpoint le_bytes (n : nat) (z : Z) : bytes :=
  match n with
  | O => []
  | S n' => Z.land z 255 :: le_bytes n' (Z.shiftr z 8)
  end.

(** The unsigned value of a little-endian byte string. *)
Fixpoint le_val (l : bytes) : Z :=
  match l with
  | [] => 0
  | b :: l' => Z.lor (Z.land b 255) (Z.shiftl (le_val l') 8)
  end.

Lemma length_le_bytes n z : length (le_bytes n z) = n.
Proof. revert z. induction n; intros; simpl; [done|]. by f_equal. Qed.

Lemma le_bytes_wf n z : wf_bytes (le_bytes n z).
Proof.
  revert z. induction n; intros z; simpl; constructor; [|apply IHn].
  rewrite land_255. apply Z.mod_pos_bound; lia.
Qed.

Lemma le_val_cons b l : le_val (b :: l) = b mod 256 + le_val l * 256.
Proof.
  simpl. rewrite land_255, lor_shiftl_add; [done|lia|].
  apply Z.mod_pos_bound; lia.
Qed.

Lemma le_val_range l : 0 ≤ le_val l < 256 ^ zlen l.
Proof.
  induction l as [|b l IH]; [done|].
  rewrite le_val_cons, zlen_cons, Z.pow_add_r by auto with tg lia.
  pose proof (Z.mod_pos_bound b 256 ltac:(lia)). lia.
Qed.

Lemma le_val_le_bytes n z : le_val (le_bytes n z) = z mod 256 ^ Z.of_nat n.
Proof.
  revert z. induction n as [|n IH]; intros z; [by rewrite Z.mod_1_r|].
  cbn [le_bytes]. rewrite le_val_cons, IH, land_255.
  rewrite Z.mod_mod, Z.shiftr_div_pow2 by lia. change (2 ^ 8) with 256.
  replace (Z.of_nat (S n)) with (1 + Z.of_nat n) by lia.
  rewrite Z.pow_add_r, Z.pow_1_r by lia.
  rewrite Z.rem_mul_r by lia. lia.
Qed.

Lemma le_bytes_le_val l : wf_bytes l → le_bytes (length l) (le_val l) = l.
Proof.
  induction 1 as [|b l Hb Hl IH]; [done|].
  cbn [length le_bytes]. rewrite le_val_cons.
  rewrite land_255, Z.shiftr_div_pow2 by lia. change (2 ^ 8) with 256.
  rewrite Z.div_add, Z.mod_add by lia.
  rewrite Z.mod_mod, (Z.mod_small b) by lia.
  rewrite (Z.div_small b) by lia. by rewrite Z.add_0_l, IH.
Qed.

Lemma le_bytes_mod n z : le_bytes n (z mod 256 ^ Z.of_nat n) = le_bytes n z.
Proof.
  rewrite <- le_val_le_bytes.
  rewrite <- (length_le_bytes n z) at 1.
  apply le_bytes_le_val, le_bytes_wf.
Qed.

#[export] Hint Resolve le_bytes_wf : tg.
#[export] Hint Rewrite length_le_bytes : tg_len.
