(* ===== verification/Memory.v ===== *)
(** * Arrays in memory

    What the signal-processing code does to its arrays: copying a block to a
    position ([memcpy], a loop that stores consecutive elements) and reading a
    block.  A block that does not fit is outside the array; the lemmas say
    when it fits. *)

From Stdlib Require Import ZArith Lia.
From stdpp Require Import base tactics list numbers option.
From S2P Require Import Prelude.
From stdpp Require Import list.

Section memory.
Context {A : Type}.
Implicit Types (l xs ys : list A).
#[local] Open Scope nat_scope.

(** [xs] stored from position [p] on. *)
Definition overwrite l (p : nat) xs : list A := take p l ++ xs ++ drop (p + length xs) l.

(** The [n] elements from position [p] on. *)
Definition slice l (p n : nat) : list A := take n (drop p l).

Lemma lookup_overwrite l p xs i :
  p + length xs ≤ length l →
  overwrite l p xs !! i = if bool_decide (p ≤ i < p + length xs) then xs !! (i - p) else l !! i.
Proof.
  intros Hp. unfold overwrite. assert (length (take p l) = p) as Ht by (rewrite length_take; lia).
  case_bool_decide as Hi.
  - rewrite lookup_app_r, lookup_app_l by lia. f_equal. lia.
  - destruct (decide (i < p)).
    + rewrite lookup_app_l, lookup_take_lt by lia. done.
    + rewrite !lookup_app_r, lookup_drop by lia. f_equal. lia.
Qed.

Lemma length_overwrite l p xs : p + length xs ≤ length l → length (overwrite l p xs) = length l.
Proof. intros Hp. unfold overwrite. rewrite !length_app, length_take, length_drop. lia. Qed.

Lemma zlen_overwrite l p xs : p + length xs ≤ length l → zlen (overwrite l p xs) = zlen l.
Proof. intros Hp. unfold zlen. by rewrite length_overwrite. Qed.

Lemma lookup_slice l p n i : slice l p n !! i = if bool_decide (i < n) then l !! (p + i) else None.
Proof.
  unfold slice. case_bool_decide as Hi; [by rewrite lookup_take_lt, lookup_drop by done|].
  apply lookup_take_ge. lia.
Qed.

Lemma length_slice l p n : p + n ≤ length l → length (slice l p n) = n.
Proof. intros H. unfold slice. rewrite length_take, length_drop. lia. Qed.

Lemma slice_overwrite_same l p xs n :
  p + length xs ≤ length l → n = length xs → slice (overwrite l p xs) p n = xs.
Proof.
  intros Hp ->. apply list_eq. intros i. rewrite lookup_slice. case_bool_decide.
  - rewrite lookup_overwrite by done. rewrite bool_decide_eq_true_2 by lia. f_equal. lia.
  - symmetry. apply lookup_ge_None_2. lia.
Qed.

Lemma slice_overwrite_disjoint l p xs q n :
  p + length xs ≤ length l → q + n ≤ p ∨ p + length xs ≤ q →
  slice (overwrite l p xs) q n = slice l q n.
Proof.
  intros Hp Hd. apply list_eq. intros i. rewrite !lookup_slice. case_bool_decide; [|done].
  rewrite lookup_overwrite by done. by rewrite bool_decide_eq_false_2 by lia.
Qed.

(** Storing element by element is storing the block. *)
Lemma overwrite_snoc l p xs x :
  p + length xs < length l → <[p + length xs := x]> (overwrite l p xs) = overwrite l p (xs ++ [x]).
Proof.
  intros Hp. assert (Hl : length (xs ++ [x]) = S (length xs)) by (rewrite length_app; simpl; lia).
  apply list_eq. intros i. destruct (decide (i = p + length xs)) as [->|Hi].
  - rewrite list_lookup_insert_eq by (rewrite length_overwrite; lia).
    rewrite lookup_overwrite by lia. rewrite bool_decide_eq_true_2 by lia.
    rewrite lookup_app_r by lia. by replace (p + length xs - p - length xs) with 0 by lia.
  - rewrite list_lookup_insert_ne by done. rewrite !lookup_overwrite by lia.
    repeat case_bool_decide; try lia; [|done]. rewrite lookup_app_l by lia. done.
Qed.

Lemma overwrite_app l p xs ys :
  p + length xs + length ys ≤ length l →
  overwrite (overwrite l p xs) (p + length xs) ys = overwrite l p (xs ++ ys).
Proof.
  intros Hp. apply list_eq. intros i.
  rewrite !lookup_overwrite by (rewrite ?length_overwrite, ?length_app; lia). rewrite length_app.
  repeat case_bool_decide; try lia; [| |done].
  - rewrite lookup_app_r by lia. f_equal. lia.
  - rewrite lookup_app_l by lia. done.
Qed.

Lemma overwrite_nil l p : overwrite l p [] = l.
Proof. unfold overwrite. simpl. rewrite Nat.add_0_r. apply take_drop. Qed.

(** Consecutive blocks that were read are the block that spans them. *)
Lemma slice_app l p n m : slice l p n ++ slice l (p + n) m = slice l p (n + m).
Proof. unfold slice. by rewrite <- drop_drop, take_take_drop. Qed.
End memory.

#[export] Hint Rewrite @length_overwrite @length_slice using (autorewrite with tg_len; lia) : tg_mem.
