(* ===== verification/Double.v ===== *)
(** * IEEE binary64

    The [double]s of the program, as the Standard Library's executable
    specification of floating point: a [double] is a [spec_float] and the
    operations are the correctly rounded ones at precision 53 and maximal
    exponent 1024.  No axiom and no primitive float is involved. *)

From Stdlib Require Import ZArith Lia SpecFloat.
From stdpp Require Import base tactics numbers.
From S2P Require Import Prelude Words.

Abbreviation double := spec_float.

Module D.
Definition prec : Z := 53.
Definition emax : Z := 1024.

Definition zero : double := S754_zero false.
Definition infinity : double := S754_infinity false.
Definition add : double → double → double := SFadd prec emax.
Definition sub : double → double → double := SFsub prec emax.
Definition mul : double → double → double := SFmul prec emax.
Definition div : double → double → double := SFdiv prec emax.
Definition sqrt : double → double := SFsqrt prec emax.
Definition ltb : double → double → bool := SFltb.
Definition leb : double → double → bool := SFleb.
Definition eqb : double → double → bool := SFeqb.
Definition gtb (x y : double) : bool := ltb y x.
Definition geb (x y : double) : bool := leb y x.

  (** Integer to double, rounded to nearest even. *)
Definition of_Z (z : Z) : double := binary_normalize prec emax z 0 false.

  (** A decimal literal [m * 10^-k] of the source, correctly rounded (both
      operands of the division are exact below 2^53). *)
Definition of_dec (m : Z) (k : Z) : double := div (of_Z m) (of_Z (10 ^ k)).

  (** Truncation towards zero, the value of a cast to an integer type;
      [None] for NaN and infinities, whose cast is undefined. *)
Definition trunc (x : double) : option Z :=
    match x with
    | S754_zero _ => Some 0
    | S754_finite s m e =>
        let a := if decide (0 ≤ e) then Z.pos m * 2 ^ e else Z.pos m / 2 ^ (- e) in
        Some (if s then - a else a)
    | S754_infinity _ | S754_nan => None
    end.

  (** [ceil]. *)
Definition ceil (x : double) : double :=
    match x with
    | S754_finite s m e =>
        if decide (0 ≤ e) then x
        else
          let q := Z.pos m / 2 ^ (- e) in
          let r := Z.pos m mod 2 ^ (- e) in
          if s then (if decide (q = 0) then S754_zero true else of_Z (- q))
          else of_Z (if decide (r = 0) then q else q + 1)
    | _ => x
    end.

  (** Casts; [None] when the truncated value does not fit (undefined). *)
Definition to_s64 (x : double) : option Z :=
    z ← trunc x; if decide (is_s64 z) then Some z else None.
Definition to_s32 (x : double) : option Z :=
    z ← trunc x; if decide (is_s32 z) then Some z else None.
Definition to_u32 (x : double) : option Z :=
    z ← trunc x; if decide (is_u32 z) then Some z else None.
End D.

(** The readings of [VoIPController::GetCurrentTime()], in order, and a
    stopped clock for the examples. *)
Class Clock := clock : nat → double.
Definition stopped : Clock := λ _, D.of_Z 1.

(* ------------------------------------------------------------------ *)
(** ** The order of doubles

    Two numbers compare as their ranks do: the class and sign, then the
    exponent, then the mantissa; NaN has no rank. *)

Section order.
Definition rank (x : double) : option (Z * Z * Z) :=
  match x with
  | S754_nan => None
  | S754_infinity true => Some (-2, 0, 0)
  | S754_finite true m e => Some (-1, -e, Z.neg m)
  | S754_zero _ => Some (0, 0, 0)
  | S754_finite false m e => Some (1, e, Z.pos m)
  | S754_infinity false => Some (2, 0, 0)
  end.

Definition lex_lt (a b : Z * Z * Z) : Prop :=
  let '(a1, a2, a3) := a in let '(b1, b2, b3) := b in
  a1 < b1 ∨ (a1 = b1 ∧ (a2 < b2 ∨ (a2 = b2 ∧ a3 < b3))).

(** A number, as opposed to NaN. *)
Definition is_num (x : double) : bool := match x with S754_nan => false | _ => true end.

Lemma rank_num x : is_num x = true → ∃ r, rank x = Some r.
Proof. destruct x as [s|[]| |[] m e]; intros; naive_solver. Qed.

Definition lex_cmp (a b : Z * Z * Z) : comparison :=
  let '(a1, a2, a3) := a in let '(b1, b2, b3) := b in
  match a1 ?= b1 with Eq => match a2 ?= b2 with Eq => a3 ?= b3 | c => c end | c => c end.

Lemma lex_cmp_spec a b : CompareSpec (a = b) (lex_lt a b) (lex_lt b a) (lex_cmp a b).
Proof.
  destruct a as [[a1 a2] a3], b as [[b1 b2] b3]. unfold lex_lt, lex_cmp.
  destruct (Z.compare_spec a1 b1); [|constructor; lia..].
  destruct (Z.compare_spec a2 b2); [|constructor; lia..].
  destruct (Z.compare_spec a3 b3); constructor; first [lia | congruence].
Qed.

Lemma compare_rank x y rx ry :
  rank x = Some rx → rank y = Some ry → SFcompare x y = Some (lex_cmp rx ry).
Proof.
  intros Hx Hy. destruct x as [sx|[]| |[] mx ex], y as [sy|[]| |[] my ey];
    cbn [rank] in Hx, Hy; simplify_eq; try done.
  unfold SFcompare, lex_cmp. rewrite (Z.compare_opp ex ey), (Z.compare_antisym ex ey). simpl.
  by destruct (ex ?= ey).
Qed.

Lemma ltb_rank x y rx ry : rank x = Some rx → rank y = Some ry → D.ltb x y = true ↔ lex_lt rx ry.
Proof.
  intros Hx Hy. unfold D.ltb, SFltb. rewrite (compare_rank x y rx ry) by done.
  destruct rx as [[? ?] ?], ry as [[? ?] ?]. unfold lex_lt. destruct (lex_cmp_spec (z, z0, z1) (z2, z3, z4)) as [H|H|H];
    [injection H as -> -> ->|unfold lex_lt in H..]; split; intros; (done || lia).
Qed.

Lemma leb_rank x y rx ry : rank x = Some rx → rank y = Some ry → D.leb x y = true ↔ ¬ lex_lt ry rx.
Proof.
  intros Hx Hy. unfold D.leb, SFleb. rewrite (compare_rank x y rx ry) by done.
  destruct rx as [[? ?] ?], ry as [[? ?] ?]. unfold lex_lt. destruct (lex_cmp_spec (z, z0, z1) (z2, z3, z4)) as [H|H|H];
    [injection H as -> -> ->|unfold lex_lt in H..]; split; intros; (done || lia).
Qed.

(** Comparisons between numbers become statements about ranks. *)
Lemma leb_ltb x y : is_num x = true → is_num y = true → D.leb x y = negb (D.ltb y x).
Proof.
  intros (rx & Hx)%rank_num (ry & Hy)%rank_num. apply eq_true_iff_eq.
  rewrite negb_true_iff, <- not_true_iff_false, (leb_rank x y rx ry), (ltb_rank y x ry rx) by done. done.
Qed.
Lemma leb_trans x y z :
  is_num x = true → is_num y = true → is_num z = true → D.leb x y = true → D.leb y z = true → D.leb x z = true.
Proof.
  intros ([[? ?] ?] & Hx)%rank_num ([[? ?] ?] & Hy)%rank_num ([[? ?] ?] & Hz)%rank_num.
  rewrite (leb_rank x y _ _ Hx Hy), (leb_rank y z _ _ Hy Hz), (leb_rank x z _ _ Hx Hz). unfold lex_lt. lia.
Qed.
Lemma leb_total x y : is_num x = true → is_num y = true → D.leb x y = false → D.leb y x = true.
Proof.
  intros ([[? ?] ?] & Hx)%rank_num ([[? ?] ?] & Hy)%rank_num.
  rewrite <- not_true_iff_false, (leb_rank x y _ _ Hx Hy), (leb_rank y x _ _ Hy Hx). unfold lex_lt. lia.
Qed.

(** ** Times

    A time is a number that is not negative; adding times gives a time (at
    worst infinity), whatever the rounding. *)

Definition is_time (x : double) : bool :=
  match x with S754_zero _ | S754_finite false _ _ | S754_infinity false => true | _ => false end.

Lemma time_num x : is_time x = true → is_num x = true.
Proof. by destruct x. Qed.

Lemma geb_zero_time x : D.geb x D.zero = true → is_time x = true.
Proof. by destruct x as [|[]| |[]]. Qed.

Lemma shr_nonneg prec emax m e l : 0 ≤ m → 0 ≤ shr_m (shr_fexp prec emax m e l).1.
Proof.
  intros Hm. unfold shr_fexp, shr. set (mrs := shr_record_of_loc m l).
  assert (0 ≤ shr_m mrs) as H by (by destruct l as [|[]]).
  clearbody mrs. clear Hm. destruct (fexp _ _ _ - e) as [|p|p]; [done| |done]. simpl.
  assert (∀ mrs, 0 ≤ shr_m mrs → 0 ≤ shr_m (shr_1 mrs)) as Hs by (intros [[|[]|[]] r s]; simpl; lia).
  revert mrs H. induction p as [p IH|p IH|]; intros mrs H; simpl; auto.
Qed.

Lemma round_time prec emax m e l : 0 ≤ m → is_time (binary_round_aux prec emax false m e l) = true.
Proof.
  intros Hm. unfold binary_round_aux. pose proof (shr_nonneg prec emax m e l Hm) as H1.
  destruct (shr_fexp prec emax m e l) as [m1 e1]. simpl in H1.
  assert (0 ≤ round_nearest_even (shr_m m1) (loc_of_shr_record m1)) as H2.
  { unfold round_nearest_even. destruct (loc_of_shr_record m1) as [|[]]; [lia|destruct (Z.even _); lia|lia..]. }
  pose proof (shr_nonneg prec emax _ e1 loc_Exact H2) as H3.
  destruct (shr_fexp prec emax _ e1 loc_Exact) as [m2 e2]. simpl in H3.
  destruct (shr_m m2); [done| |lia]. by destruct (e2 <=? _).
Qed.

Lemma add_time x y : is_time x = true → is_time y = true → is_time (D.add x y) = true.
Proof.
  destruct x as [[]|[]| |[] mx ex], y as [[]|[]| |[] my ey]; try done. intros _ _.
  unfold D.add, SFadd, binary_normalize, binary_round, cond_Zopp. rewrite Pos2Z.add_pos_pos.
  match goal with |- is_time (let '(_, _) := ?p in _) = true => destruct p as [m e] end. by apply round_time.
Qed.
End order.

(* ------------------------------------------------------------------ *)
(** ** Integers that a double holds exactly *)

Section exact.
Lemma digits2_log2 p : Z.pos (digits2_pos p) = Z.log2 (Z.pos p) + 1.
Proof.
  assert (digits2_pos p = Pos.size p) as -> by (induction p; simpl; congruence).
  destruct p; simpl; lia.
Qed.

Lemma shl_align_spec m e e' mz ez :
  shl_align m e e' = (mz, ez) → ∃ d, 0 ≤ d ∧ ez = e - d ∧ Z.pos mz = Z.pos m * 2 ^ d ∧ (e' ≤ e → ez = e').
Proof.
  unfold shl_align. destruct (e' - e) as [|p|p] eqn:E; intros H; injection H as <- <-.
  - exists 0. lia.
  - exists 0. lia.
  - exists (Z.pos p). split_and!; [lia|lia| |lia]. change (PosDef.Pos.iter xO m p) with (shift_pos p m).
    rewrite shift_pos_correct, <- Z.pow_pos_fold. lia.
Qed.

Lemma shr_fexp_exact prec emax m e : fexp prec emax (Zdigits2 m + e) ≤ e → shr_fexp prec emax m e loc_Exact = (Build_shr_record m false false, e).
Proof.
  intros H. unfold shr_fexp, shr. destruct (fexp _ _ _ - e) eqn:E; [done|lia|done].
Qed.

Lemma of_pos_exact s p :
  Z.pos p < 2 ^ 53 → ∃ d m, binary_round D.prec D.emax s p 0 = S754_finite s m (- d) ∧ 0 ≤ d ∧ Z.pos m = Z.pos p * 2 ^ d.
Proof.
  intros Hp. unfold binary_round.
  assert (Z.log2 (Z.pos p) < 53) as Hlog by (by apply Z.log2_lt_pow2).
  pose proof (Z.log2_nonneg (Z.pos p)) as Hpos.
  destruct (shl_align _ _ _) as [mz ez] eqn:E. apply shl_align_spec in E as (d & Hd & -> & Hm & He).
  rewrite digits2_log2 in He. unfold fexp, emin, D.prec, D.emax in He. specialize (He ltac:(lia)).
  assert (d = 52 - Z.log2 (Z.pos p)) as -> by lia.
  unfold binary_round_aux.
  assert (fexp D.prec D.emax (Zdigits2 (Z.pos mz) + (0 - (52 - Z.log2 (Z.pos p)))) ≤ 0 - (52 - Z.log2 (Z.pos p))) as Hf.
  { change (Zdigits2 (Z.pos mz)) with (Z.pos (digits2_pos mz)). rewrite digits2_log2, Hm, Z.log2_mul_pow2 by lia.
    unfold fexp, emin, D.prec, D.emax. lia. }
  rewrite shr_fexp_exact by done. cbn [shr_m loc_of_shr_record round_nearest_even].
  rewrite shr_fexp_exact by done. cbn [shr_m]. rewrite (proj2 (Z.leb_le _ _)) by (unfold D.emax, D.prec; lia).
  exists (52 - Z.log2 (Z.pos p)), mz. split; [f_equal; lia|lia].
Qed.

Lemma trunc_of_Z z : -2 ^ 53 < z < 2 ^ 53 → D.trunc (D.of_Z z) = Some z.
Proof.
  intros Hz. unfold D.of_Z, binary_normalize. destruct z as [|p|p]; [done|..];
    (destruct (of_pos_exact false p) as (d & m & -> & Hd & Hm); [lia|]) ||
    (destruct (of_pos_exact true p) as (d & m & -> & Hd & Hm); [lia|]);
    unfold D.trunc; destruct (decide (0 ≤ - d)).
  1,3: assert (d = 0) as -> by lia; f_equal; simpl in *; lia.
  all: f_equal; rewrite Z.opp_involutive, Hm, Z.div_mul by (apply Z.pow_nonzero; lia); lia.
Qed.
End exact.

Example D_add_ex : D.add (D.of_Z 3) (D.of_Z 4) = D.of_Z 7.
Proof. reflexivity. Qed.
Example D_dec_ex : D.to_s64 (D.mul (D.of_dec 5 1) (D.of_Z 7)) = Some 3.
Proof. reflexivity. Qed.
