(* ===== verification/Single.v ===== *)
(** * IEEE binary32

    The [float]s of the audio code: the operations of [SpecFloat] at
    precision 24 and maximal exponent 128, as [Double] has them at 53 and
    1024, and what clamping before a cast to 16 bits relies on: rounding
    leaves at most 24 bits in the mantissa. *)

From Stdlib Require Import ZArith Lia List SpecFloat.
From stdpp Require Import base tactics list numbers option.
From S2P Require Import Prelude Words Double.
From stdpp Require Import list.
Open Scope Z_scope.

Abbreviation float := spec_float.

Module F.
Definition prec : Z := 24.
Definition emax : Z := 128.

Definition zero : float := S754_zero false.
Definition add : float → float → float := SFadd prec emax.
Definition sub : float → float → float := SFsub prec emax.
Definition mul : float → float → float := SFmul prec emax.
Definition div : float → float → float := SFdiv prec emax.
Definition ltb : float → float → bool := SFltb.
Definition leb : float → float → bool := SFleb.
Definition eqb : float → float → bool := SFeqb.
Definition gtb (x y : float) : bool := ltb y x.
Definition of_Z (z : Z) : float := binary_normalize prec emax z 0 false.
(** A decimal literal with the suffix [f]. *)
Definition of_dec (m : Z) (k : Z) : float := div (of_Z m) (of_Z (10 ^ k)).
Definition is_finite (x : float) : bool :=
  match x with S754_zero _ | S754_finite _ _ _ => true | _ => false end.
(** [double] to [float], and back. *)
Definition of_double (x : double) : float :=
  match x with S754_finite s m e => binary_round prec emax s m e | _ => x end.
Definition to_double (x : float) : double :=
  match x with S754_finite s m e => binary_round D.prec D.emax s m e | _ => x end.
(** [(int16_t)x]; [None] where the cast is undefined. *)
Definition to_s16 (x : float) : option Z :=
  z ← D.trunc x; if decide (is_s16 z) then Some z else None.
(** A sample limited to 16 bits. *)
Definition clamp (x : float) : option Z :=
  if gtb x (of_Z 32767) then Some 32767
  else if ltb x (of_Z (-32768)) then Some (-32768)
  else to_s16 x.
End F.

(** [(int16_t)round(x)]: [round] takes halves away from zero. *)
Definition round_s16 (x : double) : option Z :=
  match x with
  | S754_zero _ => Some 0
  | S754_finite s m e =>
      let a := if decide (0 ≤ e) then Z.pos m * 2 ^ e else (2 * Z.pos m + 2 ^ (- e)) / (2 * 2 ^ (- e)) in
      let z := if s then - a else a in
      if decide (is_s16 z) then Some z else None
  | S754_infinity _ | S754_nan => None
  end.

Example round_s16_ex : round_s16 (D.of_dec 25 1) = Some 3 ∧ round_s16 (D.of_dec (-25) 1) = Some (-3) ∧
  round_s16 (D.of_dec 24999 4) = Some 2 ∧ round_s16 (D.of_Z 32768) = None.
Proof. by vm_compute. Qed.

(* ------------------------------------------------------------------ *)
(** ** Rounding *)

Section rounding.
Lemma digits2_bound p : Z.pos p < 2 ^ Z.pos (digits2_pos p).
Proof.
  induction p as [p IH|p IH|]; simpl; [| |done];
    rewrite Pos2Z.inj_succ, Z.pow_succ_r by lia; lia.
Qed.
Lemma Zdigits2_bound m : 0 ≤ m → m < 2 ^ Zdigits2 m.
Proof. intros Hm. destruct m as [|p|p]; [done|apply digits2_bound|lia]. Qed.

Lemma shr_1_div2 mrs : 0 ≤ shr_m mrs → shr_m (shr_1 mrs) = shr_m mrs / 2.
Proof.
  intros Hm. rewrite <- Z.div2_div. destruct mrs as [[|[p|p|]|p] r s]; simpl in *; lia.
Qed.
Lemma shr_iter p mrs : 0 ≤ shr_m mrs → shr_m (SpecFloat.iter_pos shr_1 p mrs) = shr_m mrs / 2 ^ Z.pos p.
Proof.
  assert (∀ p mrs, 0 ≤ shr_m mrs → 0 ≤ shr_m (SpecFloat.iter_pos shr_1 p mrs) ∧ shr_m (SpecFloat.iter_pos shr_1 p mrs) = shr_m mrs / 2 ^ Z.pos p) as H.
  { clear p mrs. induction p as [p IH|p IH|]; intros mrs Hm; simpl.
    - assert (0 ≤ shr_m (shr_1 mrs)) as H1 by (rewrite shr_1_div2 by done; by apply Z.div_pos).
      destruct (IH _ H1) as [H2 E2]. destruct (IH _ H2) as [H3 E3]. split; [done|]. rewrite E3, E2, shr_1_div2 by done.
      rewrite !Z.div_div by lia. f_equal. rewrite (Pos2Z.inj_xI p). rewrite Z.pow_add_r by lia.
      replace (2 * Z.pos p) with (Z.pos p + Z.pos p) by lia. rewrite Z.pow_add_r by lia. lia.
    - destruct (IH _ Hm) as [H2 E2]. destruct (IH _ H2) as [H3 E3]. split; [done|]. rewrite E3, E2.
      rewrite !Z.div_div by lia. f_equal. rewrite (Pos2Z.inj_xO p).
      replace (2 * Z.pos p) with (Z.pos p + Z.pos p) by lia. by rewrite Z.pow_add_r by lia.
    - rewrite shr_1_div2 by done. split; [by apply Z.div_pos|done]. }
  intros Hm. by apply H.
Qed.
Lemma loc_m m l : shr_m (shr_record_of_loc m l) = m.
Proof. by destruct l as [|[]]. Qed.

(** A shifted mantissa has at most [prec] bits. *)
Lemma shr_fexp_bound prec emax m e l : 0 < prec → 0 ≤ m → shr_m (shr_fexp prec emax m e l).1 < 2 ^ prec.
Proof.
  intros Hp Hm. unfold shr_fexp, shr. pose proof (Zdigits2_bound m Hm) as Hd.
  assert (Zdigits2 m - prec ≤ fexp prec emax (Zdigits2 m + e) - e) as Hf by (unfold fexp; lia).
  assert (0 ≤ Zdigits2 m) by (by destruct m).
  destruct (fexp prec emax (Zdigits2 m + e) - e) as [|p|p] eqn:E; cbn [fst].
  - rewrite loc_m. apply Z.lt_le_trans with (2 ^ Zdigits2 m); [done|]. apply Z.pow_le_mono_r; lia.
  - rewrite shr_iter by (by rewrite loc_m). rewrite loc_m. apply Z.div_lt_upper_bound; [lia|].
    rewrite <- Z.pow_add_r by lia. apply Z.lt_le_trans with (2 ^ Zdigits2 m); [done|]. apply Z.pow_le_mono_r; lia.
  - rewrite loc_m. apply Z.lt_le_trans with (2 ^ Zdigits2 m); [done|]. apply Z.pow_le_mono_r; lia.
Qed.

(** A number that is not NaN, of at most [prec] bits. *)
Definition normal (prec : Z) (x : spec_float) : Prop :=
  match x with S754_finite _ m _ => Z.pos m < 2 ^ prec | S754_nan => False | _ => True end.

Lemma round_aux_normal prec emax s m e l : 0 < prec → 0 ≤ m → normal prec (binary_round_aux prec emax s m e l).
Proof.
  intros Hp Hm. unfold binary_round_aux. pose proof (shr_nonneg prec emax m e l Hm) as H1.
  destruct (shr_fexp prec emax m e l) as [m1 e1]. simpl in H1.
  assert (0 ≤ round_nearest_even (shr_m m1) (loc_of_shr_record m1)) as H2.
  { unfold round_nearest_even. destruct (loc_of_shr_record m1) as [|[]]; [lia|destruct (Z.even _); lia|lia..]. }
  pose proof (shr_nonneg prec emax _ e1 loc_Exact H2) as H3. pose proof (shr_fexp_bound prec emax _ e1 loc_Exact Hp H2) as H4.
  destruct (shr_fexp prec emax _ e1 loc_Exact) as [m2 e2]. simpl in H3, H4.
  destruct (shr_m m2); [done| |lia]. by destruct (e2 <=? _).
Qed.
Lemma round_normal prec emax s m e : 0 < prec → normal prec (binary_round prec emax s m e).
Proof. intros Hp. unfold binary_round. destruct (shl_align _ _ _). by apply round_aux_normal. Qed.
Lemma normalize_normal prec emax m e s : 0 < prec → normal prec (binary_normalize prec emax m e s).
Proof. intros Hp. destruct m; [done|by apply round_normal..]. Qed.

Lemma mul_normal x y : F.is_finite x = true → F.is_finite y = true → normal 24 (F.mul x y).
Proof.
  destruct x as [sx|sx| |sx mx ex], y as [sy|sy| |sy my ey]; try done. intros _ _. by apply round_aux_normal.
Qed.
Lemma of_Z_normal z : normal 24 (F.of_Z z).
Proof. by apply normalize_normal. Qed.

(** 16-bit integers are [float]s. *)
Lemma of_Z_finite z : is_s16 z → F.is_finite (F.of_Z z) = true.
Proof.
  intros Hz. assert (forallb (λ i, forallb (λ j, F.is_finite (F.of_Z (256 * (Z.of_nat i - 128) + Z.of_nat j))) (List.seq 0 256)) (List.seq 0 256) = true) as H
    by (vm_compute; reflexivity).
  rewrite forallb_forall in H. pose proof (Z.div_mod (z + 32768) 256). pose proof (Z.mod_pos_bound (z + 32768) 256).
  specialize (H (Z.to_nat ((z + 32768) / 256))). rewrite forallb_forall in H.
  assert (0 ≤ (z + 32768) / 256 < 256) as Hq by (split; [apply Z.div_pos; lia|apply Z.div_lt_upper_bound; lia]).
  specialize (H ltac:(apply in_seq; lia) (Z.to_nat ((z + 32768) mod 256)) ltac:(apply in_seq; lia)).
  rewrite !Z2Nat.id in H by lia. by replace (256 * ((z + 32768) / 256 - 128) + (z + 32768) mod 256) with z in H by lia.
Qed.

(** What is clamped fits. *)
Lemma clamp_s16 x z : F.clamp x = Some z → is_s16 z.
Proof.
  unfold F.clamp. destruct (F.gtb x _); [by intros [= <-]|]. destruct (F.ltb x _); [by intros [= <-]|]. unfold F.to_s16.
  destruct (D.trunc x) as [y|]; [|done]. cbn. by case_decide; intros [= <-].
Qed.
(** What is not NaN can be clamped to 16 bits. *)
Lemma clamp_normal x : normal 24 x → ∃ z, F.clamp x = Some z ∧ is_s16 z.
Proof.
  intros Hx. unfold F.clamp, F.gtb.
  assert (F.of_Z 32767 = S754_finite false 16776704 (-9)) as Eh by reflexivity.
  assert (F.of_Z (-32768) = S754_finite true 8388608 (-8)) as El by reflexivity.
  rewrite Eh, El. destruct (F.ltb _ x) eqn:Ehi; [by exists 32767|]. destruct (F.ltb x _) eqn:Elo; [by exists (-32768)|].
  apply not_true_iff_false in Ehi, Elo. unfold F.ltb in Ehi, Elo. fold D.ltb in Ehi, Elo.
  destruct (rank x) as [rx|] eqn:Er; [|by destruct x as [|[]| |[]]].
  rewrite (ltb_rank _ x (1, -9, 16776704) rx) in Ehi by done.
  rewrite (ltb_rank x _ rx (-1, 8, -8388608)) in Elo by done.
  cut (∃ z, D.trunc x = Some z ∧ is_s16 z).
  { intros (z & Ez & Hz). exists z. unfold F.to_s16. rewrite Ez. cbn [mbind option_bind]. by rewrite decide_True. }
  destruct x as [s|[]| |s m e]; cbn [rank] in Er; simplify_eq; unfold lex_lt in *; cbn [normal] in Hx;
    [by exists 0|exfalso; lia|exfalso; lia|].
  assert (8 ≤ - e ∧ (- e = 8 → Z.pos m ≤ 8388608)) as [He1 He2].
  { destruct s; simplify_eq; unfold lex_lt in *; [lia|]. lia. }
  assert (s = false → 9 ≤ - e ∧ (- e = 9 → Z.pos m ≤ 16776704)) as Hpos.
  { intros ->. simplify_eq. unfold lex_lt in *. lia. }
  cbn [D.trunc]. rewrite decide_False by lia. eexists. split; [done|].
  assert (∀ k b, 0 ≤ k → Z.pos m ≤ b * 2 ^ k → Z.pos m / 2 ^ k ≤ b) as Hdiv.
  { intros k b Hk Hb. apply Z.div_le_upper_bound; [apply Z.pow_pos_nonneg; lia|lia]. }
  assert (0 ≤ Z.pos m / 2 ^ (- e)) by (apply Z.div_pos; [lia|apply Z.pow_pos_nonneg; lia]).
  assert (∀ k0, 0 ≤ k0 → k0 ≤ - e → 2 ^ k0 ≤ 2 ^ (- e)) as Hmono by (intros; apply Z.pow_le_mono_r; lia).
  change (2 ^ 24) with 16777216 in Hx.
  destruct s.
  - assert (Z.pos m / 2 ^ (- e) ≤ 32768); [|lia]. apply Hdiv; [lia|]. destruct (decide (- e = 8)) as [E|E].
    + rewrite E. change (2 ^ 8) with 256. lia.
    + specialize (Hmono 9). change (2 ^ 9) with 512 in Hmono. lia.
  - destruct (Hpos eq_refl) as [Hp1 Hp2]. assert (Z.pos m / 2 ^ (- e) ≤ 32767); [|lia]. apply Hdiv; [lia|].
    destruct (decide (- e = 9)) as [E|E].
    + rewrite E. change (2 ^ 9) with 512. lia.
    + specialize (Hmono 10). change (2 ^ 10) with 1024 in Hmono. lia.
Qed.
End rounding.
