(* ===== verification/Buffers.v ===== *)
(** * libtgvoip/Buffers.h, Buffers.cpp

    Byte streams ([BufferInputStream], [BufferOutputStream]), owned buffers
    ([Buffer]) and the fixed pool of packet buffers ([BufferPool]).  The
    sliding statistics window [HistoricBuffer] is in History.v.

    Memory is a list of bytes; an access outside it is undefined
    behaviour.  [malloc]/[realloc] succeed, and the bytes they leave
    uninitialised are not observable through the interface: an output
    stream is modelled by the bytes written so far ([buffer[0..offset)]),
    its capacity, and whether the storage was provided by the caller. *)

From Stdlib Require Import ZArith Lia.
From stdpp Require Import base tactics list numbers option.
From S2P Require Import Prelude Words.

(* ------------------------------------------------------------------ *)
Module BufferInputStream.

Record t := mk { buffer : bytes; length : Z; offset : Z }.

#[export] Instance eq_dec : EqDecision t.
Proof. solve_decision. Defined.

(** [BufferInputStream(data, length)]. *)
Definition ctor (data : bytes) (len : Z) : t := mk data len 0.

Definition with_offset (o : Z) (s : t) : t := mk (buffer s) (length s) o.

Definition GetLength (s : t) : Z := length s.
Definition GetOffset (s : t) : Z := offset s.
Definition Remaining (s : t) : Z := u64 (length s - offset s).

Definition Seek (o : Z) : M t unit := λ s,
  if length s <? o then Throw OutOfRange s
  else Ret tt (with_offset o s).

Definition EnsureEnoughRemaining (need : Z) : M t unit := λ s,
  if u64 (length s - offset s) <? need then Throw OutOfRange s else Ret tt s.

(** [buffer[offset + i]]. *)
Definition at_ (i : Z) : M t Z := s ← get; defined (znth (buffer s) (offset s + i)).

(** [offset += n]. *)
Definition advance (n : Z) : M t unit := modify (λ s, with_offset (u64 (offset s + n)) s).

Definition ReadByte : M t Z :=
  EnsureEnoughRemaining 1;;
  b ← at_ 0;
  advance 1;;
  mret b.

Definition ReadInt32 : M t Z :=
  EnsureEnoughRemaining 4;;
  b0 ← at_ 0; b1 ← at_ 1; b2 ← at_ 2; b3 ← at_ 3;
  advance 4;;
  mret (s32 (Z.lor (Z.lor (Z.lor (Z.land b0 255)
                                 (Z.shiftl (Z.land b1 255) 8))
                          (Z.shiftl (Z.land b2 255) 16))
                   (Z.shiftl (Z.land b3 255) 24))).

Definition ReadInt64 : M t Z :=
  EnsureEnoughRemaining 8;;
  b0 ← at_ 0; b1 ← at_ 1; b2 ← at_ 2; b3 ← at_ 3;
  b4 ← at_ 4; b5 ← at_ 5; b6 ← at_ 6; b7 ← at_ 7;
  advance 8;;
  mret (s64 (Z.lor (Z.lor (Z.lor (Z.lor (Z.lor (Z.lor (Z.lor (Z.land b0 255)
    (Z.shiftl (Z.land b1 255) 8)) (Z.shiftl (Z.land b2 255) 16))
    (Z.shiftl (Z.land b3 255) 24)) (Z.shiftl (Z.land b4 255) 32))
    (Z.shiftl (Z.land b5 255) 40)) (Z.shiftl (Z.land b6 255) 48))
    (Z.shiftl (Z.land b7 255) 56))).

Definition ReadInt16 : M t Z :=
  EnsureEnoughRemaining 2;;
  b0 ← at_ 0; b1 ← at_ 1;
  advance 2;;
  mret (s16 (Z.lor b0 (Z.shiftl b1 8))).

Definition ReadTlLength : M t Z :=
  l ← ReadByte;
  if l <? 254 then mret l
  else
    s ← get;
    assert_ (3 <=? u64 (length s - offset s));;
    EnsureEnoughRemaining 3;;
    b0 ← at_ 0; b1 ← at_ 1; b2 ← at_ 2;
    advance 3;;
    mret (Z.lor (Z.lor (Z.land b0 255) (Z.shiftl (Z.land b1 255) 8))
                (Z.shiftl (Z.land b2 255) 16)).

(** [memcpy(to, buffer+offset, count)]: the bytes copied. *)
Definition memcpy_from (o count : Z) (mem : bytes) : option bytes :=
  if decide (0 ≤ o ∧ 0 ≤ count ∧ o + count ≤ zlen mem)
  then Some (take (Z.to_nat count) (drop (Z.to_nat o) mem)) else None.

Definition ReadBytes (count : Z) : M t bytes :=
  EnsureEnoughRemaining count;;
  s ← get;
  l ← defined (memcpy_from (offset s) count (buffer s));
  advance count;;
  mret l.

(** [GetPartBuffer(length, advance)]: a view of the next bytes. *)
Definition GetPartBuffer (len : Z) (adv : bool) : M t t :=
  EnsureEnoughRemaining len;;
  s ← get;
  (if adv then advance len else mret tt);;
  mret (ctor (take (Z.to_nat len) (drop (Z.to_nat (offset s)) (buffer s))) len).

(** The stream describes real memory: what every constructor call of the
    program passes. *)
Record wf (s : t) : Prop := {
  wf_mem : length s = zlen (buffer s);
  wf_off : 0 ≤ offset s ≤ length s;
  wf_size : length s < 18446744073709551616;
  wf_data : wf_bytes (buffer s);
}.

(** The bytes still to be read. *)
Definition rest (s : t) : bytes := drop (Z.to_nat (offset s)) (buffer s).

End BufferInputStream.

(* ------------------------------------------------------------------ *)
Module BufferOutputStream.

(** [data] are the bytes below [offset]; the offset is their number. *)
Record t := mk { data : bytes; size : Z; bufferProvided : bool }.

#[export] Instance eq_dec : EqDecision t.
Proof. solve_decision. Defined.

(** [BufferOutputStream(size)] and [BufferOutputStream(buffer, size)]. *)
Definition ctor (sz : Z) : t := mk [] sz false.
Definition ctor_provided (sz : Z) : t := mk [] sz true.

Definition offset (s : t) : Z := zlen (data s).
Definition GetLength (s : t) : Z := offset s.

Definition ExpandBufferIfNeeded (need : Z) : M t unit := λ s,
  if size s <? u64 (offset s + need) then
    if bufferProvided s then Throw OutOfRange s
    else if need <? 1024 then Ret tt (mk (data s) (u64 (size s + 1024)) false)
    else Ret tt (mk (data s) (u64 (size s + need)) false)
  else Ret tt s.

(** Store bytes at the offset and move it past them. *)
Definition append (l : bytes) : M t unit :=
  modify (λ s, mk (data s ++ l) (size s) (bufferProvided s)).

Definition WriteByte (b : Z) : M t unit :=
  ExpandBufferIfNeeded 1;; append [b].

Definition WriteInt32 (i : Z) : M t unit :=
  ExpandBufferIfNeeded 4;;
  append [Z.land i 255; Z.land (Z.shiftr i 8) 255;
          Z.land (Z.shiftr i 16) 255; Z.land (Z.shiftr i 24) 255].

Definition WriteInt64 (i : Z) : M t unit :=
  ExpandBufferIfNeeded 8;;
  append [Z.land i 255; Z.land (Z.shiftr i 8) 255;
          Z.land (Z.shiftr i 16) 255; Z.land (Z.shiftr i 24) 255;
          Z.land (Z.shiftr i 32) 255; Z.land (Z.shiftr i 40) 255;
          Z.land (Z.shiftr i 48) 255; Z.land (Z.shiftr i 56) 255].

Definition WriteInt16 (i : Z) : M t unit :=
  ExpandBufferIfNeeded 2;;
  append [Z.land i 255; Z.land (Z.shiftr i 8) 255].

(** [WriteBytes(bytes, count)] with [count] the length of [bytes]. *)
Definition WriteBytes (l : bytes) : M t unit :=
  ExpandBufferIfNeeded (zlen l);; append l.

(** [WriteBytes(buffer, offset, count)]. *)
Definition WriteBytesRange (buf : bytes) (off count : Z) : M t unit := λ s,
  if zlen buf <? u64 (off + count) then Throw OutOfRange s
  else (l ← defined (BufferInputStream.memcpy_from off count buf); WriteBytes l) s.

Definition Reset : M t unit := modify (λ s, mk [] (size s) (bufferProvided s)).

Definition Rewind (numBytes : Z) : M t unit := λ s,
  if offset s <? numBytes then Throw OutOfRange s
  else Ret tt (mk (take (Z.to_nat (offset s - numBytes)) (data s))
                  (size s) (bufferProvided s)).

Record wf (s : t) : Prop := {
  wf_cap : offset s ≤ size s;
  wf_bnd : size s < 18446744073709551616;
}.

End BufferOutputStream.

(* ------------------------------------------------------------------ *)
(** ** [class Buffer] *)
Module Buffer.

(** [data] is the allocation ([None] for NULL) and [length] the length the
    object reports; the two are separate fields in the source too. *)
Record t := mk { data : option bytes; length : Z }.

#[export] Instance eq_dec : EqDecision t.
Proof. solve_decision. Defined.

(** [Buffer()] *)
Definition empty : t := mk None 0.

(** [Buffer(capacity)]; [mem] is what the allocator returned. *)
Definition with_capacity (mem : bytes) : t :=
  mk (if decide (0 < zlen mem) then Some mem else None) (zlen mem).

(** [Buffer(BufferOutputStream&&)]. *)
Definition of_stream (s : BufferOutputStream.t) : t :=
  mk (Some (BufferOutputStream.data s)) (BufferOutputStream.offset s).

(** [Buffer(Buffer&& other)]: the new object, and what is left in [other]. *)
Definition move (other : t) : t * t := (other, mk None (length other)).

(** [*this = std::move(other)] for distinct objects. *)
Definition move_assign (this other : t) : t * t := (other, mk None (length other)).

Definition Length (b : t) : Z := length b.
Definition IsEmpty (b : t) : bool := length b =? 0.

(** [operator[]]. *)
Definition index (b : t) (i : Z) : outcome unit Z :=
  if length b <=? i then Throw OutOfRange tt
  else match data b with
       | None => Crash UndefinedBehaviour
       | Some mem => match znth mem i with
                     | Some x => Ret x tt
                     | None => Crash UndefinedBehaviour
                     end
       end.

(** [CopyFrom(other, count, srcOffset, dstOffset)] into [b]. *)
Definition CopyFrom (other : t) (count srcOffset dstOffset : Z) : M t unit := λ b,
  match data other with
  | None => Throw InvalidArgument b
  | Some src =>
      if (length other <? u64 (srcOffset + count)) || (length b <? u64 (dstOffset + count))
      then Throw OutOfRange b
      else match data b, BufferInputStream.memcpy_from srcOffset count src with
           | Some dst, Some l =>
               if decide (dstOffset + count ≤ zlen dst) then
                 Ret tt (mk (Some (take (Z.to_nat dstOffset) dst ++ l ++
                                   drop (Z.to_nat (dstOffset + count)) dst)) (length b))
               else Crash UndefinedBehaviour
           | _, _ => Crash UndefinedBehaviour
           end
  end.

(** [Resize(newSize)]; [fill] is the uninitialised tail [realloc] adds. *)
Definition Resize (newSize : Z) (fill : bytes) (b : t) : t :=
  mk (Some (take (Z.to_nat newSize) (default [] (data b) ++ fill))) newSize.

(** [Buffer::CopyOf(other)]; [mem] is the fresh allocation. *)
Definition CopyOf (other : t) (mem : bytes) : outcome t unit :=
  CopyFrom other (length other) 0 0 (with_capacity mem).

(** The bytes of a well-formed buffer. *)
Definition contents (b : t) : bytes := default [] (data b).

Definition of_bytes (l : bytes) : t := mk (Some l) (zlen l).

Record wf (b : t) : Prop := {
  wf_len : match data b with Some mem => zlen mem = length b | None => length b = 0 end;
  wf_max : length b < 9223372036854775808;
}.

End Buffer.

(* ------------------------------------------------------------------ *)
(** ** The operations of an input stream, as data *)
Module Reader.
Import BufferInputStream.

Inductive op :=
| OByte | OInt16 | OInt32 | OInt64 | OTlLength
| OBytes (n : Z) | OPart (n : Z) (adv : bool) | OSeek (o : Z).

(** The argument is a [size_t]. *)
Definition wf_op (o : op) : Prop :=
  match o with
  | OBytes n | OPart n _ | OSeek n => is_u64 n
  | _ => True
  end.

Definition run_op (o : op) : M t unit :=
  match o with
  | OByte => ReadByte;; mret tt
  | OInt16 => ReadInt16;; mret tt
  | OInt32 => ReadInt32;; mret tt
  | OInt64 => ReadInt64;; mret tt
  | OTlLength => ReadTlLength;; mret tt
  | OBytes n => ReadBytes n;; mret tt
  | OPart n a => GetPartBuffer n a;; mret tt
  | OSeek n => Seek n
  end.

Fixpoint run_ops (l : list op) : M t unit :=
  match l with
  | [] => mret tt
  | o :: l' => run_op o;; run_ops l'
  end.

(** The acceptable ends of a parse: it returned, or it threw
    [std::out_of_range]; or an [assert] of [ReadTlLength] failed. *)
Definition safe {A} (o : outcome t A) : Prop :=
  match o with
  | Ret _ s' => wf s'
  | Throw e s' => e = OutOfRange ∧ wf s'
  | Crash c => c = AssertFailed
  end.
End Reader.

(* ------------------------------------------------------------------ *)
(** ** Typed messages: what callers write and read back *)
Module Stream.

(** One typed write of a caller. *)
Inductive item :=
| IByte (b : Z) | IInt16 (z : Z) | IInt32 (z : Z) | IInt64 (z : Z) | IBytes (l : bytes).

(** The argument is a value of its C type. *)
Definition wf_item (i : item) : Prop :=
  match i with
  | IByte b => is_u8 b
  | IInt16 z => is_s16 z
  | IInt32 z => is_s32 z
  | IInt64 z => is_s64 z
  | IBytes l => wf_bytes l
  end.

Definition item_bytes (i : item) : bytes :=
  match i with
  | IByte b => [b]
  | IInt16 z => le_bytes 2 z
  | IInt32 z => le_bytes 4 z
  | IInt64 z => le_bytes 8 z
  | IBytes l => l
  end.

Definition write_item (i : item) : M BufferOutputStream.t unit :=
  match i with
  | IByte b => BufferOutputStream.WriteByte b
  | IInt16 z => BufferOutputStream.WriteInt16 z
  | IInt32 z => BufferOutputStream.WriteInt32 z
  | IInt64 z => BufferOutputStream.WriteInt64 z
  | IBytes l => BufferOutputStream.WriteBytes l
  end.

(** Read a value of the same type (and, for a byte string, length). *)
Definition read_item (i : item) : M BufferInputStream.t item :=
  match i with
  | IByte _ => IByte <$> BufferInputStream.ReadByte
  | IInt16 _ => IInt16 <$> BufferInputStream.ReadInt16
  | IInt32 _ => IInt32 <$> BufferInputStream.ReadInt32
  | IInt64 _ => IInt64 <$> BufferInputStream.ReadInt64
  | IBytes l => IBytes <$> BufferInputStream.ReadBytes (zlen l)
  end.

Fixpoint write_items (l : list item) : M BufferOutputStream.t unit :=
  match l with
  | [] => mret tt
  | i :: l' => write_item i;; write_items l'
  end.

Fixpoint read_items (l : list item) : M BufferInputStream.t (list item) :=
  match l with
  | [] => mret []
  | i :: l' => x ← read_item i; xs ← read_items l'; mret (x :: xs)
  end.

(** Capacity that is enough for a list of writes whatever the growth steps. *)
Definition room (l : list item) : Z := zsum ((λ i, zlen (item_bytes i) + 1024) <$> l).

End Stream.

(* ------------------------------------------------------------------ *)
Module BufferPool.

(** [buffers[i]] for i < bufferCount, as addresses. *)
Record t := mk { usedBuffers : Z; bufferCount : Z; size : Z; buffers : list Z }.

(** [BufferPool(size, count)]; [base] is the address [malloc] returned. *)
Definition ctor (base sz count : Z) : option t :=
  if decide (count ≤ 64) then
    Some (mk 0 count sz ((λ i : nat, base + u32 (Z.of_nat i * sz)) <$> seq 0 (Z.to_nat count)))
  else None.

(** The loop of [Get]: the first clear bit of [usedBuffers >> i]. *)
Fixpoint first_clear (used : Z) (i : Z) (n : nat) : option Z :=
  match n with
  | O => None
  | S n' => if Z.land (Z.shiftr used i) 1 =? 0 then Some i else first_clear used (i + 1) n'
  end.

(** [Get()]: NULL is [None]. *)
Definition Get (p : t) : option Z * t :=
  match first_clear (usedBuffers p) 0 (Z.to_nat (bufferCount p)) with
  | Some i => (znth (buffers p) i,
               mk (Z.lor (usedBuffers p) (u64 (Z.shiftl 1 i))) (bufferCount p) (size p) (buffers p))
  | None => (None, p)
  end.

(** [Reuse(buffer)]: [None] is the call to [abort]. *)
Definition Reuse (buf : Z) (p : t) : option t :=
  match find_index (λ b, b =? buf) (take (Z.to_nat (bufferCount p)) (buffers p)) with
  | Some i => Some (mk (Z.land (usedBuffers p) (u64 (Z.lnot (Z.shiftl 1 (Z.of_nat i)))))
                       (bufferCount p) (size p) (buffers p))
  | None => None
  end.

Definition GetSingleBufferSize (p : t) : Z := size p.
Definition GetBufferCount (p : t) : Z := bufferCount p.

(** Slot [i] is handed out. *)
Definition used (p : t) (i : nat) : bool := Z.testbit (usedBuffers p) (Z.of_nat i).

(** The addresses handed out and not returned. *)
Definition outstanding (p : t) : list Z :=
  omap (λ i, if used p i then buffers p !! i else None) (seq 0 (Z.to_nat (bufferCount p))).

Record wf (p : t) : Prop := {
  wf_count : 0 ≤ bufferCount p ≤ 64;
  wf_length : zlen (buffers p) = bufferCount p;
  wf_distinct : NoDup (buffers p);
  wf_used : 0 ≤ usedBuffers p < 2 ^ bufferCount p;
}.

End BufferPool.

(* ================================================================== *)
(** ** Input stream *)

Section input.
Import BufferInputStream.
Implicit Types s : t.

Lemma remaining_rest s : wf s → u64 (length s - offset s) = zlen (rest s).
Proof.
  intros [Hm Ho Hs _]. rewrite u64_small by lia.
  unfold rest, zlen in *. rewrite length_drop. lia.
Qed.

Lemma ensure_ok s n : wf s → n ≤ zlen (rest s) → EnsureEnoughRemaining n s = Ret tt s.
Proof.
  intros Hwf Hn. unfold EnsureEnoughRemaining. rewrite remaining_rest by done.
  destruct (Z.ltb_spec (zlen (rest s)) n); [lia|done].
Qed.

Lemma ensure_short s n :
  wf s → zlen (rest s) < n → EnsureEnoughRemaining n s = Throw OutOfRange s.
Proof.
  intros Hwf Hn. unfold EnsureEnoughRemaining. rewrite remaining_rest by done.
  destruct (Z.ltb_spec (zlen (rest s)) n); [done|lia].
Qed.

Lemma znth_drop (l : bytes) o i :
  0 ≤ o → 0 ≤ i → znth (drop (Z.to_nat o) l) i = znth l (o + i).
Proof.
  intros. unfold znth. rewrite !decide_True by lia.
  rewrite lookup_drop. f_equal. lia.
Qed.

Lemma at_ok s i b : wf s → 0 ≤ i → znth (rest s) i = Some b → at_ i s = Ret b s.
Proof.
  intros Hwf Hi Hb. destruct Hwf. unfold at_, get, defined, mbind, M_bind.
  unfold rest in Hb. rewrite znth_drop in Hb by lia. by rewrite Hb.
Qed.

Lemma advance_ok s n :
  wf s → 0 ≤ n ≤ zlen (rest s) →
  advance n s = Ret tt (with_offset (offset s + n) s).
Proof.
  intros Hwf Hn. unfold advance, modify. rewrite u64_small; [done|].
  rewrite <- remaining_rest in Hn by done. destruct Hwf.
  rewrite u64_small in Hn by lia. lia.
Qed.

Lemma wf_advance s n :
  wf s → 0 ≤ n ≤ zlen (rest s) →
  wf (with_offset (offset s + n) s) ∧
  rest (with_offset (offset s + n) s) = drop (Z.to_nat n) (rest s).
Proof.
  intros Hwf Hn. pose proof (remaining_rest s Hwf) as Hr. destruct Hwf as [Hm Ho Hs Hd].
  rewrite u64_small in Hr by lia. split.
  - constructor; simpl; try done. lia.
  - unfold rest; simpl. rewrite drop_drop. f_equal. lia.
Qed.

Lemma bind_ok {A B} (m : M t A) (f : A → M t B) s a s' :
  m s = Ret a s' → (m ≫= f) s = f a s'.
Proof. apply bind_Ret. Qed.

(** The lor/shift expressions of the readers are [le_val]. *)
Lemma lor_le2 b0 b1 :
  Z.lor (Z.land b0 255) (Z.shiftl (Z.land b1 255) 8) = le_val [b0; b1].
Proof.
  cbn [le_val]. by rewrite Z.shiftl_0_l, Z.lor_0_r.
Qed.
Lemma lor_le4 b0 b1 b2 b3 :
  Z.lor (Z.lor (Z.lor (Z.land b0 255) (Z.shiftl (Z.land b1 255) 8))
     (Z.shiftl (Z.land b2 255) 16)) (Z.shiftl (Z.land b3 255) 24)
  = le_val [b0; b1; b2; b3].
Proof.
  cbn [le_val]. rewrite !Z.shiftl_lor, !Z.shiftl_shiftl, !Z.shiftl_0_l, !Z.lor_0_r by lia.
  by rewrite !Z.lor_assoc.
Qed.
Lemma lor_le8 b0 b1 b2 b3 b4 b5 b6 b7 :
  Z.lor (Z.lor (Z.lor (Z.lor (Z.lor (Z.lor (Z.lor (Z.land b0 255)
    (Z.shiftl (Z.land b1 255) 8)) (Z.shiftl (Z.land b2 255) 16))
    (Z.shiftl (Z.land b3 255) 24)) (Z.shiftl (Z.land b4 255) 32))
    (Z.shiftl (Z.land b5 255) 40)) (Z.shiftl (Z.land b6 255) 48))
    (Z.shiftl (Z.land b7 255) 56)
  = le_val [b0; b1; b2; b3; b4; b5; b6; b7].
Proof.
  cbn [le_val]. rewrite !Z.shiftl_lor, !Z.shiftl_shiftl, !Z.shiftl_0_l, !Z.lor_0_r by lia.
  by rewrite !Z.lor_assoc.
Qed.

Lemma le_bytes_2 z : le_bytes 2 z = [Z.land z 255; Z.land (Z.shiftr z 8) 255].
Proof. done. Qed.
Lemma le_bytes_4 z :
  le_bytes 4 z = [Z.land z 255; Z.land (Z.shiftr z 8) 255;
                  Z.land (Z.shiftr z 16) 255; Z.land (Z.shiftr z 24) 255].
Proof. cbn [le_bytes]. by rewrite !Z.shiftr_shiftr by lia. Qed.
Lemma le_bytes_8 z :
  le_bytes 8 z = [Z.land z 255; Z.land (Z.shiftr z 8) 255;
    Z.land (Z.shiftr z 16) 255; Z.land (Z.shiftr z 24) 255;
    Z.land (Z.shiftr z 32) 255; Z.land (Z.shiftr z 40) 255;
    Z.land (Z.shiftr z 48) 255; Z.land (Z.shiftr z 56) 255].
Proof. cbn [le_bytes]. by rewrite !Z.shiftr_shiftr by lia. Qed.

Lemma s32_mod z : s32 (z mod 256 ^ Z.of_nat 4) = s32 z.
Proof. change (256 ^ Z.of_nat 4) with 4294967296. word_lia. Qed.
Lemma s64_mod z : s64 (z mod 256 ^ Z.of_nat 8) = s64 z.
Proof. change (256 ^ Z.of_nat 8) with 18446744073709551616. word_lia. Qed.
Lemma s16_mod z : s16 (z mod 256 ^ Z.of_nat 2) = s16 z.
Proof. change (256 ^ Z.of_nat 2) with 65536. word_lia. Qed.

End input.

(** Step through a reader whose bytes are the head of [rest]. *)
Ltac stream_step :=
  match goal with
  | Hwf : BufferInputStream.wf ?s |- (BufferInputStream.EnsureEnoughRemaining ?n ≫= _) ?s = _ =>
      rewrite (bind_Ret _ _ _ _ _ (ensure_ok s n Hwf ltac:(lia)))
  | Hwf : BufferInputStream.wf ?s, Hr : BufferInputStream.rest ?s = _
      |- (BufferInputStream.at_ ?i ≫= _) ?s = _ =>
      erewrite (bind_Ret _ _ s); [|eapply (at_ok s i _ Hwf); [lia|rewrite Hr; reflexivity]]
  | Hwf : BufferInputStream.wf ?s |- (BufferInputStream.advance ?n ≫= _) ?s = _ =>
      rewrite (bind_Ret _ _ _ _ _ (advance_ok s n Hwf ltac:(lia)))
  end.

Section readers.
Import BufferInputStream.
Implicit Types s : t.

Lemma ReadByte_run s b tl :
  wf s → rest s = b :: tl →
  ReadByte s = Ret b (with_offset (offset s + 1) s).
Proof.
  intros Hwf Hr. assert (1 ≤ zlen (rest s)) by (rewrite Hr, zlen_cons; auto with tg; pose proof (zlen_nonneg tl); lia).
  unfold ReadByte. do 3 stream_step. done.
Qed.

Lemma zlen_rest_app s l tl : rest s = l ++ tl → zlen l ≤ zlen (rest s).
Proof. intros ->. rewrite zlen_app. pose proof (zlen_nonneg tl). lia. Qed.

Lemma ReadInt16_run s z tl :
  wf s → rest s = le_bytes 2 z ++ tl →
  ReadInt16 s = Ret (s16 z) (with_offset (offset s + 2) s).
Proof.
  intros Hwf Hr. assert (2 ≤ zlen (rest s)) by apply (zlen_rest_app _ _ _ Hr).
  rewrite le_bytes_2 in Hr. unfold ReadInt16. stream_step.
  do 2 stream_step. stream_step. unfold mret, M_ret. f_equal.
  rewrite !land_255. rewrite lor_shiftl_add; [|lia|apply Z.mod_pos_bound; lia].
  rewrite Z.shiftr_div_pow2 by lia. change (2 ^ 8) with 256. word_lia.
Qed.

Lemma ReadInt32_run s z tl :
  wf s → rest s = le_bytes 4 z ++ tl →
  ReadInt32 s = Ret (s32 z) (with_offset (offset s + 4) s).
Proof.
  intros Hwf Hr. assert (4 ≤ zlen (rest s)) by apply (zlen_rest_app _ _ _ Hr).
  rewrite le_bytes_4 in Hr. unfold ReadInt32. stream_step.
  do 4 stream_step. stream_step. unfold mret, M_ret. f_equal.
  by rewrite lor_le4, <- le_bytes_4, le_val_le_bytes, s32_mod.
Qed.

Lemma ReadInt64_run s z tl :
  wf s → rest s = le_bytes 8 z ++ tl →
  ReadInt64 s = Ret (s64 z) (with_offset (offset s + 8) s).
Proof.
  intros Hwf Hr. assert (8 ≤ zlen (rest s)) by apply (zlen_rest_app _ _ _ Hr).
  rewrite le_bytes_8 in Hr. unfold ReadInt64. stream_step.
  do 8 stream_step. stream_step. unfold mret, M_ret. f_equal.
  by rewrite lor_le8, <- le_bytes_8, le_val_le_bytes, s64_mod.
Qed.

Lemma memcpy_from_ok (mem : bytes) o n :
  0 ≤ o → 0 ≤ n → o + n ≤ zlen mem →
  memcpy_from o n mem = Some (take (Z.to_nat n) (drop (Z.to_nat o) mem)).
Proof. intros. unfold memcpy_from. by rewrite decide_True by lia. Qed.

Lemma ReadBytes_run s n :
  wf s → 0 ≤ n ≤ zlen (rest s) →
  ReadBytes n s = Ret (take (Z.to_nat n) (rest s)) (with_offset (offset s + n) s).
Proof.
  intros Hwf Hn. assert (n ≤ zlen (rest s)) by lia. unfold ReadBytes. stream_step.
  pose proof (remaining_rest s Hwf) as Hr. destruct (Hwf) as [Hm Ho Hs _].
  rewrite u64_small in Hr by lia.
  unfold get at 1, mbind at 1, M_bind at 1.
  rewrite memcpy_from_ok by lia. unfold defined at 1, mbind at 1, M_bind at 1.
  by stream_step.
Qed.
End readers.

(* ================================================================== *)
(** ** Output stream *)

Section output.
Import BufferOutputStream.
Implicit Types s : t.

(** A caller-provided buffer: the write fits, or it throws and nothing
    changes. *)
Lemma Expand_provided s n :
  wf s → bufferProvided s = true → 0 ≤ n → offset s + n < 18446744073709551616 →
  ExpandBufferIfNeeded n s = if size s <? offset s + n then Throw OutOfRange s else Ret tt s.
Proof.
  intros [Hc Hb] Hp Hn Hlt. unfold ExpandBufferIfNeeded. pose proof (zlen_nonneg (data s)).
  rewrite u64_small by (unfold offset in *; lia). by rewrite Hp.
Qed.

(** A growable buffer always has the room after the call. *)
Lemma Expand_growable s n :
  wf s → bufferProvided s = false → 0 ≤ n → size s + n + 1024 < 18446744073709551616 →
  ∃ sz, ExpandBufferIfNeeded n s = Ret tt (mk (data s) sz false) ∧
        offset s + n ≤ sz ≤ size s + n + 1024.
Proof.
  intros [Hc Hb] Hp Hn Hlt. unfold ExpandBufferIfNeeded.
  pose proof (zlen_nonneg (data s)). unfold offset in *.
  rewrite u64_small by lia. rewrite Hp.
  destruct (Z.ltb_spec (size s) (zlen (data s) + n)).
  - rewrite !u64_small by lia. destruct (Z.ltb_spec n 1024);
      eexists; (split; [done|lia]).
  - exists (size s). split; [by destruct s; simpl in *; subst|lia].
Qed.

Lemma write_growable s l :
  wf s → bufferProvided s = false → size s + zlen l + 1024 < 18446744073709551616 →
  ∃ s', (ExpandBufferIfNeeded (zlen l);; append l) s = Ret tt s' ∧
        data s' = data s ++ l ∧ wf s' ∧ bufferProvided s' = false ∧
        size s' ≤ size s + zlen l + 1024.
Proof.
  intros Hwf Hp Hlt. pose proof (zlen_nonneg l).
  destruct (Expand_growable s (zlen l)) as (sz & He & Hsz); [done..|].
  exists (mk (data s ++ l) sz false).
  split; [by rewrite (bind_Ret _ _ _ _ _ He)|].
  split_and!; simpl; [done| |done|lia].
  unfold offset in Hsz. constructor; unfold offset; simpl; rewrite ?zlen_app; lia.
Qed.

Lemma write_item_growable s i :
  wf s → bufferProvided s = false →
  size s + zlen (Stream.item_bytes i) + 1024 < 18446744073709551616 →
  ∃ s', Stream.write_item i s = Ret tt s' ∧
        data s' = data s ++ Stream.item_bytes i ∧ wf s' ∧ bufferProvided s' = false ∧
        size s' ≤ size s + zlen (Stream.item_bytes i) + 1024.
Proof.
  intros Hwf Hp Hlt. destruct (write_growable s _ Hwf Hp Hlt) as (s' & Hr & H).
  exists s'. split; [|done]. rewrite <- Hr.
  destruct i; simpl;
    unfold WriteByte, WriteInt16, WriteInt32, WriteInt64, WriteBytes;
    rewrite ?le_bytes_2, <- ?le_bytes_4, <- ?le_bytes_8; try done.
Qed.

Lemma room_cons i l : Stream.room (i :: l) = zlen (Stream.item_bytes i) + 1024 + Stream.room l.
Proof. done. Qed.

Lemma room_nonneg l : 0 ≤ Stream.room l.
Proof.
  apply zsum_nonneg, Forall_fmap, Forall_true. intros i. simpl.
  pose proof (zlen_nonneg (Stream.item_bytes i)). lia.
Qed.

Lemma write_items_growable l s :
  wf s → bufferProvided s = false → size s + Stream.room l < 18446744073709551616 →
  ∃ s', Stream.write_items l s = Ret tt s' ∧
        data s' = data s ++ mjoin (Stream.item_bytes <$> l) ∧
        wf s' ∧ bufferProvided s' = false.
Proof.
  revert s. induction l as [|i l IH]; intros s Hwf Hp Hlt.
  - exists s. simpl. by rewrite app_nil_r.
  - rewrite room_cons in Hlt. pose proof (room_nonneg l).
    destruct (write_item_growable s i) as (s1 & H1 & Hd1 & Hwf1 & Hp1 & Hs1); [done..|lia|].
    destruct (IH s1) as (s2 & H2 & Hd2 & Hwf2 & Hp2); [done..|lia|].
    exists s2. simpl. rewrite (bind_Ret _ _ _ _ _ H1).
    split_and!; [done| |done..]. by rewrite Hd2, Hd1, <- app_assoc.
Qed.

End output.

(* ================================================================== *)
(** ** Reading back what was written *)

Section roundtrip.
Import Stream.

Lemma read_item_run i s tl :
  wf_item i → BufferInputStream.wf s → BufferInputStream.rest s = item_bytes i ++ tl →
  ∃ s', read_item i s = Ret i s' ∧ BufferInputStream.wf s' ∧ BufferInputStream.rest s' = tl.
Proof.
  intros Hi Hwf Hr.
  pose proof (zlen_rest_app s _ _ Hr) as Hlen.
  pose proof (zlen_nonneg (item_bytes i)).
  destruct (wf_advance s (zlen (item_bytes i)) Hwf ltac:(lia)) as [Hwf' Hr'].
  exists (BufferInputStream.with_offset (BufferInputStream.offset s + zlen (item_bytes i)) s).
  rewrite Hr in Hr'. unfold zlen in Hr' at 2.
  rewrite Nat2Z.id, drop_app_length in Hr'. split; [|done]. clear Hwf' Hr'.
  destruct i as [b|z|z|z|l]; simpl in *; apply fmap_Ret.
  - by eapply ReadByte_run.
  - rewrite (ReadInt16_run s z tl), s16_small by done. done.
  - rewrite (ReadInt32_run s z tl), s32_small by done. done.
  - rewrite (ReadInt64_run s z tl), s64_small by done. done.
  - rewrite ReadBytes_run by (done || lia). unfold zlen.
    by rewrite Nat2Z.id, Hr, take_app_length.
Qed.

Lemma read_items_run l s tl :
  Forall wf_item l → BufferInputStream.wf s →
  BufferInputStream.rest s = mjoin (item_bytes <$> l) ++ tl →
  ∃ s', read_items l s = Ret l s' ∧ BufferInputStream.wf s' ∧ BufferInputStream.rest s' = tl.
Proof.
  intros Hl. revert s. induction Hl as [|i l Hi Hl IH]; intros s Hwf Hr; simpl in *.
  - by exists s.
  - rewrite <- app_assoc in Hr.
    destruct (read_item_run i s _ Hi Hwf Hr) as (s1 & H1 & Hwf1 & Hr1).
    destruct (IH s1 Hwf1 Hr1) as (s2 & H2 & Hwf2 & Hr2).
    exists s2. rewrite (bind_Ret _ _ _ _ _ H1), (bind_Ret _ _ _ _ _ H2). done.
Qed.

Lemma item_bytes_wf i : wf_item i → wf_bytes (item_bytes i).
Proof.
  destruct i as [b|z|z|z|l]; intros H;
    [|apply (le_bytes_wf 2)|apply (le_bytes_wf 4)|apply (le_bytes_wf 8)|exact H].
  constructor; [done|constructor].
Qed.

Lemma items_bytes_wf l : Forall wf_item l → wf_bytes (mjoin (item_bytes <$> l)).
Proof.
  induction 1; simpl; [constructor|]. apply Forall_app. split; [by apply item_bytes_wf|done].
Qed.

(** Any sequence of typed writes into a growable output stream succeeds,
    and reading the resulting bytes back with the matching reads returns
    exactly the values written and leaves nothing unread. *)
Theorem stream_roundtrip (l : list item) (capacity : Z) :
  0 ≤ capacity → capacity + room l < 18446744073709551616 → Forall wf_item l →
  ∃ s', write_items l (BufferOutputStream.ctor capacity) = Ret tt s' ∧
    ∃ r, read_items l (BufferInputStream.ctor (BufferOutputStream.data s')
                         (BufferOutputStream.GetLength s')) = Ret l r ∧
         BufferInputStream.Remaining r = 0.
Proof.
  intros Hc Hroom Hl.
  destruct (write_items_growable l (BufferOutputStream.ctor capacity))
    as (s' & Hw & Hd & Hwf & _); [|done|done|].
  { constructor; unfold BufferOutputStream.offset; simpl; [done|].
    pose proof (room_nonneg l). lia. }
  exists s'. split; [done|]. simpl in Hd.
  destruct Hwf as [Hcap Hbnd]. unfold BufferOutputStream.offset in Hcap.
  assert (Hi : BufferInputStream.wf (BufferInputStream.ctor (BufferOutputStream.data s')
                         (BufferOutputStream.GetLength s'))).
  { constructor; simpl; [done| | |].
    - split; [done|]. apply zlen_nonneg.
    - unfold BufferOutputStream.GetLength, BufferOutputStream.offset. lia.
    - rewrite Hd. by apply items_bytes_wf. }
  destruct (read_items_run l _ [] Hl Hi) as (r & Hr & Hwfr & Hrest).
  { unfold BufferInputStream.rest. simpl. by rewrite Hd, app_nil_r, drop_0. }
  exists r. split; [done|]. unfold BufferInputStream.Remaining.
  by rewrite remaining_rest, Hrest.
Qed.

Lemma stream_roundtrip_witness :
  ∃ s', write_items [IByte 7; IInt32 (-5); IBytes [1;2;3]; IInt64 1234567890123]
          (BufferOutputStream.ctor 4) = Ret tt s' ∧
    ∃ r, read_items [IByte 7; IInt32 (-5); IBytes [1;2;3]; IInt64 1234567890123]
           (BufferInputStream.ctor (BufferOutputStream.data s')
                         (BufferOutputStream.GetLength s'))
         = Ret [IByte 7; IInt32 (-5); IBytes [1;2;3]; IInt64 1234567890123] r ∧
         BufferInputStream.Remaining r = 0.
Proof.
  apply (stream_roundtrip [IByte 7; IInt32 (-5); IBytes [1;2;3]; IInt64 1234567890123] 4);
    [lia|vm_compute; reflexivity|].
  repeat constructor; simpl; lia.
Defined.
End roundtrip.

(* ================================================================== *)
(** ** Memory safety of the readers *)

Section safety.
Import BufferInputStream Reader.
Implicit Types s : t.

Lemma safe_bind {A B} (m : M t A) (f : A → M t B) s :
  safe (m s) → (∀ a s', m s = Ret a s' → safe (f a s')) → safe ((m ≫= f) s).
Proof.
  unfold mbind, M_bind. destruct (m s) as [a s'|e s'|c]; simpl; auto.
Qed.

Lemma rest_split s n :
  0 ≤ Z.of_nat n ≤ zlen (rest s) → wf s →
  ∃ l tl, rest s = l ++ tl ∧ Datatypes.length l = n ∧ wf_bytes l.
Proof.
  intros Hn [_ _ _ Hd]. exists (take n (rest s)), (drop n (rest s)). split_and!.
  - by rewrite take_drop.
  - rewrite length_take. unfold zlen in Hn. lia.
  - apply Forall_take. by apply Forall_drop.
Qed.

(** A fixed-size read either finds its bytes or throws with nothing changed. *)
Lemma safe_fixed {A} (m : M t A) (n : nat) s :
  wf s →
  (zlen (rest s) < Z.of_nat n → m s = Throw OutOfRange s) →
  (∀ l tl, rest s = l ++ tl → Datatypes.length l = n → wf_bytes l →
     ∃ a, m s = Ret a (with_offset (offset s + Z.of_nat n) s)) →
  safe (m s).
Proof.
  intros Hwf Hshort Hok. destruct (Z.lt_ge_cases (zlen (rest s)) (Z.of_nat n)).
  - rewrite Hshort by done. by split.
  - destruct (rest_split s n) as (l & tl & Hr & Hl & Hb); [lia|done|].
    destruct (Hok l tl Hr Hl Hb) as [a ->]. apply wf_advance; [done|lia].
Qed.

Lemma short_bind {A} n (k : M t A) s :
  wf s → zlen (rest s) < n → (EnsureEnoughRemaining n;; k) s = Throw OutOfRange s.
Proof. intros Hwf Hn. apply bind_Throw. by apply ensure_short. Qed.

Lemma safe_ReadByte s : wf s → safe (ReadByte s).
Proof.
  intros Hwf. apply (safe_fixed _ 1); [done|by apply short_bind|].
  intros [|b [|]] tl Hr Hl _; simplify_eq/=. exists b. by eapply ReadByte_run.
Qed.
Lemma safe_ReadInt16 s : wf s → safe (ReadInt16 s).
Proof.
  intros Hwf. apply (safe_fixed _ 2); [done|by apply short_bind|].
  intros l tl Hr Hl Hb. rewrite <- (le_bytes_le_val l Hb), Hl in Hr.
  eexists. by eapply ReadInt16_run.
Qed.
Lemma safe_ReadInt32 s : wf s → safe (ReadInt32 s).
Proof.
  intros Hwf. apply (safe_fixed _ 4); [done|by apply short_bind|].
  intros l tl Hr Hl Hb. rewrite <- (le_bytes_le_val l Hb), Hl in Hr.
  eexists. by eapply ReadInt32_run.
Qed.
Lemma safe_ReadInt64 s : wf s → safe (ReadInt64 s).
Proof.
  intros Hwf. apply (safe_fixed _ 8); [done|by apply short_bind|].
  intros l tl Hr Hl Hb. rewrite <- (le_bytes_le_val l Hb), Hl in Hr.
  eexists. by eapply ReadInt64_run.
Qed.

Lemma safe_ReadTlLength s : wf s → safe (ReadTlLength s).
Proof.
  intros Hwf. apply safe_bind; [by apply safe_ReadByte|].
  intros l s1 E. pose proof (safe_ReadByte s Hwf) as Hwf1. rewrite E in Hwf1. simpl in Hwf1.
  destruct (l <? 254); [done|].
  apply safe_bind; [done|]. intros ? ? [= <- <-].
  unfold assert_. destruct (Z.leb_spec 3 (u64 (length s1 - offset s1))) as [H3|H3]; [|done].
  unfold mbind at 1, M_bind at 1.
  apply (safe_fixed _ 3); [done|by apply short_bind|].
  intros [|b0 [|b1 [|b2 [|]]]] tl Hr Hl _; simplify_eq/=.
  rewrite remaining_rest in H3 by done.
  eexists. do 5 stream_step. reflexivity.
Qed.

Lemma safe_ReadBytes s n : wf s → 0 ≤ n → safe (ReadBytes n s).
Proof.
  intros Hwf Hn. destruct (Z.lt_ge_cases (zlen (rest s)) n).
  - unfold ReadBytes. by rewrite short_bind.
  - rewrite ReadBytes_run by (done || lia). apply wf_advance; [done|lia].
Qed.

Lemma safe_GetPartBuffer s n a : wf s → 0 ≤ n → safe (GetPartBuffer n a s).
Proof.
  intros Hwf Hn. unfold GetPartBuffer. destruct (Z.lt_ge_cases (zlen (rest s)) n).
  - by rewrite short_bind.
  - rewrite (bind_Ret _ _ _ _ _ (ensure_ok s n Hwf ltac:(lia))).
    unfold get at 1, mbind at 1, M_bind at 1.
    destruct a; [|done]. rewrite (bind_Ret _ _ _ _ _ (advance_ok s n Hwf ltac:(lia))).
    apply wf_advance; [done|lia].
Qed.

Lemma safe_Seek s o : wf s → 0 ≤ o → safe (Seek o s).
Proof.
  intros Hwf Ho. unfold Seek. destruct (Z.ltb_spec (length s) o); [by split|].
  destruct Hwf. by constructor.
Qed.

Lemma safe_run_op s o : wf s → wf_op o → safe (run_op o s).
Proof.
  intros Hwf Ho. destruct o; simpl in Ho |- *;
    try (apply safe_bind; [|intros a s' E; simpl]).
  all: eauto using safe_ReadByte, safe_ReadInt16, safe_ReadInt32, safe_ReadInt64,
    safe_ReadTlLength.
  all: try (by apply safe_Seek; [|lia]).
  all: try (by apply safe_ReadBytes; [|lia]).
  all: try (by apply safe_GetPartBuffer; [|lia]).
  all: match goal with
       | E : ?m ?s = Ret _ ?s' |- wf ?s' =>
           assert (Hs : safe (m s));
           [eauto using safe_ReadByte, safe_ReadInt16, safe_ReadInt32, safe_ReadInt64,
              safe_ReadTlLength, safe_ReadBytes, safe_GetPartBuffer with lia
           |rewrite E in Hs; exact Hs]
       end.
Qed.

(** Parsing is memory safe: whatever sequence of reads is made on a
    well-formed input stream, it ends by returning, by throwing
    [std::out_of_range] or in the assertion of [ReadTlLength]; no read
    touches memory outside the buffer and the offset stays within it. *)
Theorem reads_never_out_of_bounds l s :
  wf s → Forall wf_op l → safe (run_ops l s).
Proof.
  intros Hwf Hl. revert s Hwf. induction Hl as [|o l Ho Hl IH]; intros s Hwf; [done|].
  simpl. pose proof (safe_run_op s o Hwf Ho) as Hs.
  apply safe_bind; [done|]. intros a s' E. rewrite E in Hs. by apply IH.
Qed.

Lemma reads_never_out_of_bounds_witness :
  safe (run_ops [OTlLength; OInt32; OBytes 9; OSeek 2] (ctor [3; 1; 2; 3; 4; 5; 6] 7)).
Proof.
  apply (reads_never_out_of_bounds [OTlLength; OInt32; OBytes 9; OSeek 2]
           (ctor [3; 1; 2; 3; 4; 5; 6] 7)).
  - constructor; simpl; [done|lia|lia|]. repeat constructor; lia.
  - repeat constructor; simpl; lia.
Defined.
End safety.

(* ================================================================== *)
(** ** The buffer pool *)

Section pool.
Import BufferPool.
Implicit Types p : t.

Lemma land_1_testbit x : (Z.land x 1 =? 0) = negb (Z.testbit x 0).
Proof.
  change 1 with (Z.ones 1). rewrite Z.land_ones by lia. change (2 ^ 1) with 2.
  rewrite Z.bit0_odd, Zmod_odd. by destruct (Z.odd x).
Qed.

Lemma first_clear_Some x i n j :
  0 ≤ i → first_clear x i n = Some j →
  i ≤ j < i + Z.of_nat n ∧ Z.testbit x j = false.
Proof.
  revert i. induction n as [|n IH]; intros i Hi H; simpl in H; [done|].
  rewrite land_1_testbit, Z.shiftr_spec, Z.add_0_l in H by lia.
  destruct (Z.testbit x i) eqn:E; simpl in H.
  - destruct (IH (i + 1) ltac:(lia) H). split; [lia|done].
  - simplify_eq. split; [lia|done].
Qed.

Lemma first_clear_None x i n k :
  0 ≤ i → first_clear x i n = None → i ≤ k < i + Z.of_nat n → Z.testbit x k = true.
Proof.
  revert i. induction n as [|n IH]; intros i Hi H Hk; simpl in H; [lia|].
  rewrite land_1_testbit, Z.shiftr_spec, Z.add_0_l in H by lia.
  destruct (Z.testbit x i) eqn:E; simpl in H; [|done].
  destruct (decide (k = i)) as [->|]; [done|]. apply (IH (i + 1)); [lia|done|lia].
Qed.

Lemma testbit_set x (j : nat) k :
  Z.of_nat j < 64 →
  Z.testbit (Z.lor x (u64 (Z.shiftl 1 (Z.of_nat j)))) (Z.of_nat k)
  = Z.testbit x (Z.of_nat k) || bool_decide (k = j).
Proof.
  intros Hj. rewrite Z.shiftl_1_l, u64_small.
  2:{ change 18446744073709551616 with (2 ^ 64). split; [lia|]. apply Z.pow_lt_mono_r; lia. }
  rewrite Z.lor_spec, Z.pow2_bits_eqb by lia. f_equal.
  apply eq_bool_prop_intro. rewrite bool_decide_spec.
  rewrite Is_true_true, Z.eqb_eq. lia.
Qed.

Lemma testbit_clear x (j : nat) k :
  0 ≤ x < 2 ^ 64 → (k < 64)%nat →
  Z.testbit (Z.land x (u64 (Z.lnot (Z.shiftl 1 (Z.of_nat j))))) (Z.of_nat k)
  = Z.testbit x (Z.of_nat k) && bool_decide (k ≠ j).
Proof.
  intros Hx Hk. rewrite Z.land_spec. f_equal.
  unfold u64. change 18446744073709551616 with (2 ^ 64).
  rewrite Z.mod_pow2_bits_low, Z.lnot_spec, Z.shiftl_1_l, Z.pow2_bits_eqb by lia.
  apply eq_bool_prop_intro. rewrite bool_decide_spec, Is_true_true, negb_true_iff, Z.eqb_neq.
  lia.
Qed.

Lemma seq_split n j :
  (j < n)%nat → seq 0 n = seq 0 j ++ j :: seq (S j) (n - S j).
Proof.
  intros. replace n with (j + S (n - S j))%nat at 1 by lia.
  by rewrite seq_app.
Qed.

Lemma omap_seq_ext {A} (f g : nat → option A) m n :
  (∀ k, (m ≤ k < m + n)%nat → f k = g k) → omap f (seq m n) = omap g (seq m n).
Proof.
  revert m. induction n as [|n IH]; intros m H; simpl; [done|].
  rewrite H, IH by lia || (intros; apply H; lia). done.
Qed.

(** Two selections of slots that differ at one slot only. *)
Lemma omap_seq_differ {A} (f g : nat → option A) n j a :
  (j < n)%nat → f j = None → g j = Some a →
  (∀ k, (k < n)%nat → k ≠ j → f k = g k) →
  omap g (seq 0 n) ≡ₚ a :: omap f (seq 0 n).
Proof.
  intros Hj Hf Hg Hfg. rewrite (seq_split n j Hj), !list.omap_app. simpl.
  rewrite Hf, Hg, <- Permutation_middle.
  by rewrite (omap_seq_ext f g 0 j), (omap_seq_ext f g (S j)) by (intros; apply Hfg; lia).
Qed.

Lemma length_buffers p : wf p → length (buffers p) = Z.to_nat (bufferCount p).
Proof. intros []. unfold zlen in *. lia. Qed.

Lemma buffers_lookup p i :
  wf p → (i < Z.to_nat (bufferCount p))%nat → ∃ a, buffers p !! i = Some a.
Proof.
  intros Hwf Hi. apply lookup_lt_is_Some. by rewrite length_buffers.
Qed.

(** Setting or clearing bit [j] keeps the other slots. *)
Lemma outstanding_differ p q j a :
  bufferCount q = bufferCount p → buffers q = buffers p →
  (j < Z.to_nat (bufferCount p))%nat → buffers p !! j = Some a →
  used p j = false → used q j = true →
  (∀ k, (k < Z.to_nat (bufferCount p))%nat → k ≠ j → used q k = used p k) →
  outstanding q ≡ₚ a :: outstanding p.
Proof.
  intros Hc Hb Hj Ha Hp Hq Hk. unfold outstanding. rewrite Hc, Hb.
  apply (omap_seq_differ _ _ _ j); [done|by rewrite Hp|by rewrite Hq|].
  intros k Hk1 Hk2. by rewrite Hk.
Qed.

Lemma used_bound x c : 0 ≤ c ≤ 64 → 0 ≤ x < 2 ^ c → 0 ≤ x < 2 ^ 64.
Proof.
  intros Hc Hx. split; [lia|]. apply Z.lt_le_trans with (2 ^ c); [lia|].
  apply Z.pow_le_mono_r; lia.
Qed.

Lemma lor_bound x y n : 0 ≤ n → 0 ≤ x < 2 ^ n → 0 ≤ y < 2 ^ n → 0 ≤ Z.lor x y < 2 ^ n.
Proof.
  intros Hn Hx Hy. split; [apply Z.lor_nonneg; lia|].
  rewrite <- (Z.mod_small x (2 ^ n)), <- (Z.mod_small y (2 ^ n)) by lia.
  rewrite <- !Z.land_ones, <- Z.land_lor_distr_l, Z.land_ones by lia.
  apply Z.mod_pos_bound. lia.
Qed.

Lemma land_bound x y n : 0 ≤ n → 0 ≤ x < 2 ^ n → 0 ≤ Z.land x y < 2 ^ n.
Proof.
  intros Hn Hx. split; [apply Z.land_nonneg; lia|].
  rewrite <- (Z.mod_small x (2 ^ n)), <- Z.land_ones by lia.
  rewrite <- Z.land_assoc, (Z.land_comm (Z.ones n)), Z.land_assoc, Z.land_ones by lia.
  apply Z.mod_pos_bound. lia.
Qed.

Lemma Get_fresh p a p' :
  wf p → Get p = (Some a, p') →
  wf p' ∧ outstanding p' ≡ₚ a :: outstanding p ∧ buffers p' = buffers p.
Proof.
  intros Hwf H. unfold Get in H.
  destruct (first_clear _ _ _) as [j|] eqn:Hj; simplify_eq.
  apply first_clear_Some in Hj as [Hjr Hjb]; [|lia].
  pose proof (wf_count _ Hwf). pose proof (wf_used _ Hwf).
  assert (∃ i : nat, j = Z.of_nat i) as [i ->] by (exists (Z.to_nat j); lia).
  rewrite znth_of_nat in H. split_and!; [|apply (outstanding_differ _ _ i)|done]; simpl; try done.
  - destruct Hwf. constructor; simpl; try done. apply lor_bound; [lia|done|].
    rewrite Z.shiftl_1_l, u64_small.
    + split; [lia|]. apply Z.pow_lt_mono_r; lia.
    + change 18446744073709551616 with (2 ^ 64). split; [lia|]. apply Z.pow_lt_mono_r; lia.
  - lia.
  - unfold used; simpl. rewrite testbit_set by lia. rewrite Hjb. by rewrite bool_decide_true.
  - intros k Hk Hne. unfold used; simpl. rewrite testbit_set by lia.
    by rewrite bool_decide_false, orb_false_r.
Qed.

Lemma Get_exhausted p p' :
  wf p → Get p = (None, p') → p' = p ∧ length (outstanding p) = Z.to_nat (bufferCount p).
Proof.
  intros Hwf H. unfold Get in H. pose proof (wf_count _ Hwf).
  destruct (first_clear _ _ _) as [j|] eqn:Hj; injection H as; subst p'.
  - apply first_clear_Some in Hj as [Hjr _]; [|lia].
    destruct (znth_Some (buffers p) j) as [x Hx]; [destruct Hwf; lia|].
    rewrite Hx in *. done.
  - split; [done|]. unfold outstanding.
    transitivity (length (omap (λ i, buffers p !! i) (seq 0 (Z.to_nat (bufferCount p))))).
    + f_equal. apply omap_seq_ext. intros i Hi. unfold used.
      by rewrite (first_clear_None _ 0 _ (Z.of_nat i) ltac:(lia) Hj) by lia.
    + rewrite <- (length_buffers p Hwf). clear.
      rewrite <- (length_seq (length (buffers p)) 0) at 2.
      generalize (buffers p). intros l.
      assert (∀ ks, Forall (λ i, i < length l)%nat ks → length (omap (λ i, l !! i) ks) = length ks) as Hgen.
      { induction 1 as [|i ks Hi _ IH]; simpl; [done|].
        destruct (l !! i) eqn:E; simpl; [by f_equal|]. apply lookup_ge_None in E. lia. }
      apply Hgen, Forall_forall. intros i Hi%in_seq. lia.
Qed.

Lemma elem_of_outstanding p a :
  a ∈ outstanding p ↔
  ∃ i, (i < Z.to_nat (bufferCount p))%nat ∧ used p i = true ∧ buffers p !! i = Some a.
Proof.
  unfold outstanding. rewrite list_elem_of_omap. split.
  - intros (i & Hi%elem_of_seq & Ha). exists i. destruct (used p i); naive_solver lia.
  - intros (i & Hi & Hu & Ha). exists i. rewrite elem_of_seq, Hu. split; [lia|done].
Qed.

Lemma Reuse_outstanding p a :
  wf p → a ∈ outstanding p →
  ∃ p', Reuse a p = Some p' ∧ wf p' ∧ outstanding p ≡ₚ a :: outstanding p' ∧ buffers p' = buffers p.
Proof.
  intros Hwf (i & Hi & Hu & Ha)%elem_of_outstanding.
  pose proof (wf_count _ Hwf). pose proof (wf_used _ Hwf) as Hub.
  unfold Reuse. rewrite take_ge by (rewrite length_buffers by done; lia).
  destruct (find_index _ _) as [j|] eqn:Hj.
  2:{ apply find_index_None in Hj. rewrite Forall_lookup in Hj.
      specialize (Hj i a Ha). simpl in Hj. by rewrite Z.eqb_refl in Hj. }
  apply find_index_Some in Hj as (b & Hb & Heq & _). apply Z.eqb_eq in Heq as ->.
  assert (j = i) as -> by (eapply NoDup_lookup; [apply Hwf|done..]).
  eexists. split; [done|]. split_and!; [|apply (outstanding_differ _ _ i)|done]; simpl; try done.
  - destruct Hwf. constructor; simpl; try done. apply land_bound; [lia|done].
  - unfold used; simpl. rewrite testbit_clear by (eapply used_bound || lia; done).
    by rewrite bool_decide_false, andb_false_r by tauto.
  - intros k Hk Hne. unfold used; simpl.
    rewrite testbit_clear by (eapply used_bound || lia; done).
    by rewrite bool_decide_true, andb_true_r.
Qed.

Lemma Reuse_count p a p' : Reuse a p = Some p' → bufferCount p' = bufferCount p.
Proof. unfold Reuse. destruct (find_index _ _); naive_solver. Qed.

Lemma Get_count p : bufferCount (Get p).2 = bufferCount p.
Proof. unfold Get. by destruct (first_clear _ _ _). Qed.

Lemma outstanding_NoDup p : wf p → NoDup (outstanding p).
Proof.
  intros Hwf. unfold outstanding.
  assert (∀ n m, NoDup (omap (λ i, if used p i then buffers p !! i else None) (seq n m))) as Hgen;
    [|apply Hgen].
  intros n m. revert n. induction m as [|m IH]; intros n; simpl; [constructor|].
  destruct (used p n); [|apply IH]. destruct (buffers p !! n) as [a|] eqn:Ha; [|apply IH].
  constructor; [|apply IH]. rewrite list_elem_of_omap. intros (k & Hk%elem_of_seq & Hka).
  destruct (used p k); [|done].
  assert (k = n) by (eapply NoDup_lookup; [apply Hwf|done..]). lia.
Qed.

Lemma pool_ctor_wf base sz count p :
  0 ≤ count → 0 < sz → sz * count < 4294967296 →
  ctor base sz count = Some p → wf p ∧ outstanding p = [] ∧ bufferCount p = count.
Proof.
  intros Hc Hs Hsz. unfold ctor. case_decide; [|done]. intros [= <-]. split_and!; [|  |done].
  - constructor; simpl; [lia| | |].
    + unfold zlen. rewrite length_fmap, length_seq. lia.
    + apply NoDup_fmap_2_strong; [|apply NoDup_seq].
      intros x y Hx%elem_of_seq Hy%elem_of_seq Heq.
      assert (∀ z : nat, (0 ≤ z < 0 + Z.to_nat count)%nat → is_u32 (Z.of_nat z * sz)) as Hsmall.
      { intros z Hz. assert (Z.of_nat z ≤ count) by lia. nia. }
      rewrite (u32_small _ (Hsmall x Hx)), (u32_small _ (Hsmall y Hy)) in Heq. nia.
    + lia.
  - unfold outstanding. rewrite (omap_seq_ext _ (λ _, None)).
    + induction (seq _ _); [done|assumption].
    + intros k _. unfold used. simpl. by rewrite Z.bits_0.
Qed.

(** One call on a pool.  [Reuse] is only called with a pointer the caller
    got from [Get] and still owns. *)
Inductive pool_step : t → t → Prop :=
| step_Get p a p' : Get p = (Some a, p') → pool_step p p'
| step_Get_null p p' : Get p = (None, p') → pool_step p p'
| step_Reuse p a p' : a ∈ outstanding p → Reuse a p = Some p' → pool_step p p'.

Lemma pool_step_wf p p' :
  pool_step p p' → wf p → wf p'.
Proof.
  intros [q a q' H|q q' H|q a q' Ha H] Hwf.
  - by apply (Get_fresh q a q').
  - by destruct (Get_exhausted q q' Hwf H) as [-> _].
  - destruct (Reuse_outstanding q a Hwf Ha) as (q1 & H1 & Hwf1 & _). congruence.
Qed.

(** The pool never hands out a buffer twice: in every state reached by
    gets and by returns of owned buffers the outstanding buffers are
    pairwise distinct, the next [Get] returns a buffer that is not
    outstanding or, only when all buffers are out, NULL, and returning an
    owned buffer never aborts. *)
Theorem pool_no_double_handout base sz count p0 p :
  0 ≤ count → 0 < sz → sz * count < 4294967296 →
  ctor base sz count = Some p0 → star pool_step p0 p →
  NoDup (outstanding p) ∧
  (∀ a p', Get p = (Some a, p') → a ∉ outstanding p) ∧
  (∀ p', Get p = (None, p') → zlen (outstanding p) = bufferCount p) ∧
  (∀ a, a ∈ outstanding p → is_Some (Reuse a p)).
Proof.
  intros Hc Hs Hsz H0 Hstar.
  assert (Hwf : wf p).
  { apply (star_invariant pool_step wf) with p0; [|done|].
    - exact pool_step_wf.
    - by apply (pool_ctor_wf base sz count). }
  split_and!.
  - by apply outstanding_NoDup.
  - intros a p' H. destruct (Get_fresh p a p' Hwf H) as (Hwf' & Hperm & _).
    pose proof (outstanding_NoDup p' Hwf') as Hnd. rewrite Hperm in Hnd.
    by apply NoDup_cons_1_1 in Hnd.
  - intros p' H. destruct (Get_exhausted p p' Hwf H) as [_ Hl].
    unfold zlen. rewrite Hl. destruct (wf_count p Hwf). lia.
  - intros a Ha. destruct (Reuse_outstanding p a Hwf Ha) as (p' & -> & _). by eexists.
Qed.

Lemma pool_no_double_handout_witness :
  let p0 := mk 0 2 1024 [4096; 5120] in
  let p := mk 1 2 1024 [4096; 5120] in
  NoDup (outstanding p) ∧
  (∀ a p', Get p = (Some a, p') → a ∉ outstanding p) ∧
  (∀ p', Get p = (None, p') → zlen (outstanding p) = bufferCount p) ∧
  (∀ a, a ∈ outstanding p → is_Some (Reuse a p)).
Proof.
  intros p0 p. apply (pool_no_double_handout 4096 1024 2 p0 p); [lia..|reflexivity|].
  apply star_one. eapply step_Get. reflexivity.
Defined.
End pool.
