(* ===== verification/History.v ===== *)
(** * libtgvoip/Buffers.h: [HistoricBuffer<T, size, AVG_T>]

    The fixed-size window of recent measurements that the jitter buffer and
    the congestion control keep.  The template is instantiated in the
    program at <double,100>, <double,64>, <int,64,double> and <size_t,30>;
    the arithmetic of an instantiation is the class [HistoricOps]. *)

From Stdlib Require Import ZArith Lia SpecFloat.
From stdpp Require Import base tactics list numbers option.
From S2P Require Import Prelude Words Double.

(** What the template needs of [T] and [AVG_T]. *)
Class HistoricOps (T A : Type) := {
  t_zero : T;                 (** (T)0 *)
  a_zero : A;                 (** (AVG_T)0 *)
  a_add : A → T → A;          (** avg += i *)
  a_div : A → Z → A;          (** avg / (AVG_T)n *)
  t_ltb : T → T → bool;
  t_nonzero : T → bool;       (** i != 0 *)
  t_limit_min : T;            (** std::numeric_limits<T>::min() *)
  t_limit_max : T;            (** std::numeric_limits<T>::max() *)
}.

#[export] Instance double_ops : HistoricOps double double := {
  t_zero := D.zero; a_zero := D.zero; a_add := D.add;
  a_div a n := D.div a (D.of_Z n);
  t_ltb := D.ltb; t_nonzero x := negb (D.eqb x D.zero);
  t_limit_min := S754_finite false 4503599627370496 (-1074);
  t_limit_max := S754_finite false 9007199254740991 971;
}.

#[export] Instance int_double_ops : HistoricOps Z double := {
  t_zero := 0; a_zero := D.zero; a_add a i := D.add a (D.of_Z i);
  a_div a n := D.div a (D.of_Z n);
  t_ltb := Z.ltb; t_nonzero x := negb (x =? 0);
  t_limit_min := -2147483648; t_limit_max := 2147483647;
}.

(** [size_t] sums wrap. *)
#[export] Instance size_t_ops : HistoricOps Z Z | 2 := {
  t_zero := 0; a_zero := 0; a_add a i := u64 (a + i);
  a_div a n := a / n;
  t_ltb := Z.ltb; t_nonzero x := negb (x =? 0);
  t_limit_min := 0; t_limit_max := 18446744073709551615;
}.

Module HistoricBuffer.

Record t (T : Type) := mk { data : list T; offset : Z }.
Arguments mk {T}.
Arguments data {T}.
Arguments offset {T}.

Section ops.
Context {T A : Type} `{HistoricOps T A}.
Implicit Types h : t T.

(** The template argument [size] is the length of [data]. *)
Definition size h : Z := zlen (data h).

Definition ctor (n : nat) : t T := mk (replicate n t_zero) 0.

Definition sum (l : list T) : A := foldl a_add a_zero l.

Definition Average h : A := a_div (sum (data h)) (size h).

(** [operator[](i)]; [None] when [assert(i<size)] fails. *)
Definition index h (i : Z) : option T :=
  if i <? size h then
    let _i := s64 (u64 (u64 (offset h - i) - 1)) in
    let _i := if _i <? 0 then s64 (u64 (size h + _i)) else _i in
    znth (data h) _i
  else None.

(** [Average(firstN)]. *)
Definition AverageN h (firstN : nat) : option A :=
  l ← mapM (λ i : nat, index h (Z.of_nat i)) (seq 0 firstN);
  mret (a_div (sum l) (Z.of_nat firstN)).

Definition NonZeroAverage h : A :=
  let nz := filter (λ x, t_nonzero x = true) (data h) in
  if (length nz =? 0)%nat then a_zero else a_div (sum nz) (Z.of_nat (length nz)).

Definition Add (el : T) h : t T :=
  mk (default (data h) (zset (data h) (offset h) el)) ((offset h + 1) mod size h).

Definition Min h : T := foldl (λ m x, if t_ltb x m then x else m) t_limit_max (data h).
Definition Max h : T := foldl (λ m x, if t_ltb m x then x else m) t_limit_min (data h).

Definition Reset h : t T := mk (replicate (length (data h)) t_zero) 0.

Record wf h : Prop := {
  wf_size : 0 < size h < 2147483648;
  wf_offset : 0 ≤ offset h < size h;
}.

(** The window, most recent measurement first. *)
Definition recent h : list T := omap (λ i : nat, index h (Z.of_nat i)) (seq 0 (length (data h))).

End ops.
End HistoricBuffer.

(* ================================================================== *)
Section facts.
Import HistoricBuffer.
Context {T A : Type} `{Hops : HistoricOps T A}.
Implicit Types h : t T.

(** Where [operator[]] reads. *)
Lemma index_eq h i :
  wf h → 0 ≤ i < size h →
  index h i = znth (data h) ((offset h - i - 1) mod size h).
Proof.
  intros [Hs Ho] Hi. unfold index.
  destruct (Z.ltb_spec i (size h)); [|lia]. f_equal.
  rewrite u64_sub_l. destruct (Z.lt_ge_cases (offset h - i - 1) 0) as [Hneg|Hpos].
  - assert (s64 (u64 (offset h - i - 1)) = offset h - i - 1) as -> by word_lia.
    destruct (Z.ltb_spec (offset h - i - 1) 0); [|lia].
    rewrite u64_small, s64_small, mod_neg by lia. lia.
  - assert (s64 (u64 (offset h - i - 1)) = offset h - i - 1) as -> by word_lia.
    destruct (Z.ltb_spec (offset h - i - 1) 0); [lia|].
    by rewrite Z.mod_small by lia.
Qed.

Lemma index_is_Some h i : wf h → 0 ≤ i < size h → is_Some (index h i).
Proof.
  intros Hwf Hi. rewrite index_eq by done.
  destruct (znth_Some (data h) ((offset h - i - 1) mod size h)) as [x ->]; [|by eexists].
  apply (Z.mod_pos_bound _ (size h)). destruct Hwf. lia.
Qed.

Lemma Add_data h el : wf h → data (Add el h) = <[Z.to_nat (offset h) := el]> (data h).
Proof. intros [Hs Ho]. unfold Add. simpl. by rewrite zset_Some by done. Qed.

Lemma Add_size h el : wf h → size (Add el h) = size h.
Proof. intros. unfold size. by rewrite Add_data, zlen_insert. Qed.

Lemma Add_wf h el : wf h → wf (Add el h).
Proof.
  intros Hwf. constructor; rewrite Add_size by done; [apply Hwf|].
  simpl. apply (Z.mod_pos_bound _ (size h)). destruct Hwf. lia.
Qed.

Lemma ctor_HistoricBuffer_wf n : (0 < n)%nat → Z.of_nat n < 2147483648 → wf (ctor n).
Proof.
  intros. assert (size (ctor n) = Z.of_nat n) as Hs
    by (unfold size, zlen; simpl; by rewrite length_replicate).
  constructor; rewrite Hs; simpl; lia.
Qed.

Lemma index_Add_0 h el : wf h → index (Add el h) 0 = Some el.
Proof.
  intros Hwf. pose proof (Add_wf h el Hwf) as Hwf'. destruct (Hwf) as [Hs Ho].
  rewrite index_eq by (rewrite ?Add_size by done; done || lia). rewrite Add_size, Add_data by done.
  simpl. assert ((((offset h + 1) mod size h) - 0 - 1) mod size h = offset h) as ->.
  { destruct (decide (offset h + 1 = size h)) as [Heq|]; [rewrite Heq|].
    - rewrite Z.mod_same, mod_neg by lia. lia.
    - rewrite (Z.mod_small (offset h + 1)) by lia. rewrite Z.mod_small; lia. }
  unfold znth. rewrite decide_True by lia. apply list_lookup_insert_eq.
  unfold size, zlen in Ho. lia.
Qed.

Lemma index_Add_S h el i :
  wf h → 0 ≤ i → i + 1 < size h → index (Add el h) (i + 1) = index h i.
Proof.
  intros Hwf Hi Hlt. pose proof (Add_wf h el Hwf) as Hwf'. destruct (Hwf) as [Hs Ho].
  rewrite !index_eq by (rewrite ?Add_size by done; done || lia). rewrite Add_size, Add_data by done.
  simpl. assert ((((offset h + 1) mod size h) - (i + 1) - 1) mod size h
                 = (offset h - i - 1) mod size h) as ->.
  { destruct (decide (offset h + 1 = size h)) as [Heq|]; [rewrite Heq|].
    - rewrite Z.mod_same, mod_neg, Z.mod_small by lia. lia.
    - rewrite (Z.mod_small (offset h + 1)) by lia. f_equal. lia. }
  unfold znth. rewrite !decide_True by (apply Z.mod_pos_bound; lia).
  apply list_lookup_insert_ne. intros Heq.
  destruct (Z.lt_ge_cases (offset h - i - 1) 0);
    [rewrite mod_neg in Heq|rewrite Z.mod_small in Heq]; lia.
Qed.

Lemma recent_lookup h (i : nat) :
  wf h → Z.of_nat i < size h → recent h !! i = index h (Z.of_nat i).
Proof.
  intros Hwf Hi. unfold recent.
  assert (Hl : ∀ n m, (m + n ≤ length (data h))%nat →
    omap (λ i : nat, index h (Z.of_nat i)) (seq m n) !! i
    = if decide (i < n)%nat then index h (Z.of_nat (m + i)) else None).
  { clear Hi. revert i. intros i n. revert i. induction n as [|n IH]; intros i m Hm; simpl; [done|].
    destruct (index_is_Some h (Z.of_nat m) Hwf) as [x Hx]; [unfold size, zlen; lia|].
    rewrite Hx. destruct i as [|i]; simpl.
    - by rewrite Nat.add_0_r.
    - rewrite IH by lia. replace (S m + i)%nat with (m + S i)%nat by lia.
      repeat case_decide; try done; lia. }
  rewrite Hl by lia. rewrite decide_True; [done|]. unfold size, zlen in Hi. lia.
Qed.

Lemma length_recent h : wf h → zlen (recent h) = size h.
Proof.
  intros Hwf. unfold recent, size, zlen. f_equal.
  rewrite <- (length_seq (length (data h)) 0) at 2.
  assert (Hgen : Forall (λ i, i < length (data h))%nat (seq 0 (length (data h)))).
  { apply Forall_lookup. intros i x Hx%lookup_seq. lia. }
  induction Hgen as [|i l Hi _ IH]; simpl; [done|].
  destruct (index_is_Some h (Z.of_nat i) Hwf) as [x ->]; [unfold size, zlen; lia|].
  simpl. by f_equal.
Qed.

Lemma recent_Add h el :
  wf h → recent (Add el h) = el :: take (Z.to_nat (size h) - 1) (recent h).
Proof.
  intros Hwf. pose proof (Add_wf h el Hwf) as Hwf'.
  pose proof (length_recent h Hwf) as Hl. pose proof (length_recent _ Hwf') as Hl'.
  rewrite Add_size in Hl' by done. pose proof (wf_size h Hwf) as Hs.
  apply list_eq. intros i.
  destruct (decide (Z.of_nat i < size h)) as [Hi|Hi].
  - rewrite recent_lookup by (rewrite ?Add_size by done; done).
    destruct i as [|i]; [by rewrite index_Add_0|].
    rewrite lookup_cons_ne_0, Nat.pred_succ, lookup_take_lt by lia.
    rewrite recent_lookup by (done || lia).
    replace (Z.of_nat (S i)) with (Z.of_nat i + 1) by lia. apply index_Add_S; [done|lia..].
  - unfold zlen in *. rewrite !lookup_ge_None_2; [done| |lia].
    simpl. rewrite length_take. lia.
Qed.

Lemma replicate_le_nth (x : T) n i : (i < n)%nat → replicate n x !! i = Some x.
Proof. intros. by apply lookup_replicate. Qed.

Lemma recent_ctor n :
  (0 < n)%nat → Z.of_nat n < 2147483648 → recent (ctor n) = replicate n t_zero.
Proof.
  intros Hn Hb. pose proof (ctor_HistoricBuffer_wf n Hn Hb) as Hwf.
  pose proof (length_recent _ Hwf) as Hl.
  assert (Hs : size (ctor n) = Z.of_nat n) by (unfold size, zlen; simpl; by rewrite length_replicate).
  apply list_eq. intros i. destruct (decide (i < n)%nat) as [Hi|Hi].
  - rewrite recent_lookup, index_eq by (done || lia). rewrite replicate_le_nth by done.
    unfold znth. pose proof (Z.mod_pos_bound (offset (ctor n) - Z.of_nat i - 1) (size (ctor n))).
    generalize dependent ((offset (ctor n) - Z.of_nat i - 1) mod size (ctor n)). intros k Hk.
    rewrite decide_True by lia. simpl. apply replicate_le_nth. lia.
  - unfold zlen in *. rewrite !lookup_ge_None_2; [done|rewrite length_replicate; lia|lia].
Qed.

(** The window after a sequence of measurements. *)
Lemma recent_Adds l h :
  wf h → recent (foldl (λ h x, Add x h) h l)
         = take (Z.to_nat (size h)) (reverse l ++ recent h).
Proof.
  revert h. induction l as [|x l IH]; intros h Hwf; simpl.
  - pose proof (length_recent h Hwf). unfold zlen in *. rewrite take_ge; [done|lia].
  - pose proof (wf_size h Hwf). rewrite IH, Add_size, recent_Add by (done || by apply Add_wf).
    rewrite reverse_cons, <- app_assoc. simpl.
    rewrite !take_app. f_equal.
    destruct (Z.to_nat (size h) - length (reverse l))%nat as [|k] eqn:E; simpl; [done|].
    f_equal. rewrite take_take. f_equal. lia.
Qed.

(** [HistoricBuffer] is a window on the most recent measurements: after
    any sequence of [Add]s, index 0 is the last value added, index 1 the one
    before it, and so on, and the indices past the number of values added
    read the initial zero; the ring offset never leaves the array. *)
Theorem historic_window (n : nat) (l : list T) (i : nat) :
  (0 < n)%nat → Z.of_nat n < 2147483648 → (i < n)%nat →
  index (foldl (λ h x, Add x h) (ctor n) l) (Z.of_nat i)
  = Some (default t_zero (reverse l !! i)).
Proof.
  intros Hn Hb Hi. set (h := foldl _ _ l).
  pose proof (ctor_HistoricBuffer_wf n Hn Hb) as Hwf.
  assert (Hs : size (ctor n) = Z.of_nat n) by (unfold size, zlen; simpl; by rewrite length_replicate).
  assert (Hall : wf h ∧ size h = Z.of_nat n).
  { unfold h. rewrite <- Hs. clear Hs. generalize (ctor n) Hwf. clear.
    induction l as [|x l IH]; intros h Hwf; simpl; [done|].
    rewrite <- (Add_size h x Hwf). by apply IH, Add_wf. }
  destruct Hall as [Hwfh Hsh].
  rewrite <- recent_lookup by (done || lia). unfold h.
  rewrite recent_Adds, recent_ctor, Hs, Nat2Z.id, lookup_take_lt by (done || lia).
  destruct (reverse l !! i) as [x|] eqn:E.
  - by rewrite (lookup_app_l_Some _ _ _ _ E).
  - apply lookup_ge_None in E. rewrite lookup_app_r by done.
    by rewrite replicate_le_nth by lia.
Qed.
End facts.

Lemma historic_window_witness :
  HistoricBuffer.index (foldl (λ h x, HistoricBuffer.Add x h)
                          (HistoricBuffer.ctor 3 : HistoricBuffer.t Z) [5; 6; 7; 8]) 1
  = Some 7.
Proof. apply (historic_window (A := Z) 3 [5; 6; 7; 8] 1); lia. Defined.
