(* ===== verification/Queues.v ===== *)
(** * Queues: tg2sip/queue.h and libtgvoip/BlockingQueue.h

    [OptionalQueue] is the non-blocking event queue between the TDLib and
    pjsip threads and the gateway loop.  [BlockingQueue] hands audio frames
    between libtgvoip threads: a list, its capacity and a counting
    semaphore.  A critical section of a mutex is one step; the semaphore is
    not protected by the mutex, so acquiring it is a step of its own. *)

From Stdlib Require Import ZArith Lia.
From stdpp Require Import base tactics list numbers option.
From S2P Require Import Prelude Words.

(* ------------------------------------------------------------------ *)
Module OptionalQueue.

(** [std::queue<std::optional<T>>]. *)
Definition t (T : Type) : Type := list (option T).

Definition emplace {T} (value : option T) (q : t T) : t T := q ++ [value].

(** [pop()]: an empty queue and a stored [nullopt] both give [nullopt]. *)
Definition pop {T} (q : t T) : option T * t T :=
  match q with
  | [] => (None, [])
  | value :: q' => (value, q')
  end.

End OptionalQueue.

(* ------------------------------------------------------------------ *)
Module BlockingQueue.

Record t (T : Type) := mk {
  queue : list T;
  capacity : Z;
  semaphore : Z;             (** the value of the semaphore *)
  overflowCallback : bool;   (** a callback is set *)
}.
Arguments mk {T}.
Arguments queue {T}.
Arguments capacity {T}.
Arguments semaphore {T}.
Arguments overflowCallback {T}.

Section ops.
Context {T : Type}.
Implicit Types q : t T.

Definition ctor (cap : Z) : t T := mk [] cap 0 false.
Definition SetOverflowCallback q : t T := mk (queue q) (capacity q) (semaphore q) true.
Definition Size q : Z := u32 (zlen (queue q)).

(** The [while(queue.size()>capacity)] loop of [Put]: the queue that is
    left and the elements given to the callback; [None] is [abort()]. *)
Fixpoint drop_overflow (cap : Z) (cb : bool) (l : list T) : option (list T * list T) :=
  if cap <? zlen l then
    match l with
    | [] => None
    | x :: l' =>
        if cb then
          match drop_overflow cap cb l' with
          | Some (r, o) => Some (r, x :: o)
          | None => None
          end
        else None
    end
  else Some (l, []).

(** [Put(thing)]: the new state and the overflowed elements, in order. *)
Definition Put (thing : T) q : option (t T * list T) :=
  match drop_overflow (capacity q) (overflowCallback q) (queue q ++ [thing]) with
  | None => None
  | Some (l, o) =>
      let didOverflow := negb (length o =? 0)%nat in
      Some (mk l (capacity q) (if didOverflow then semaphore q else semaphore q + 1)
               (overflowCallback q), o)
  end.

(** [GetInternal()]; [None] is [front()] of an empty list. *)
Definition GetInternal q : option (T * t T) :=
  match queue q with
  | [] => None
  | x :: l => Some (x, mk l (capacity q) (semaphore q) (overflowCallback q))
  end.

(** [semaphore.Acquire()], where it does not block. *)
Definition Acquire q : option (t T) :=
  if 0 <? semaphore q then Some (mk (queue q) (capacity q) (semaphore q - 1) (overflowCallback q))
  else None.

(** Where a consumer thread is. *)
Inductive pc :=
| Idle
| Acquired       (** in [GetBlocking], past [Acquire], before the lock *)
| WantSem        (** in [Get], holding the lock, at [Acquire] *)
| HoldPop.       (** in [Get], holding the lock, at [GetInternal] *)

Record conc := mkconc {
  q_ : t T;
  locked : bool;        (** the mutex is held by a thread inside [Get] *)
  pcs : list pc;        (** the consumer threads *)
  got : list T;         (** history: elements returned to consumers, oldest first *)
  sent : list T;        (** history: elements put, oldest first *)
}.

(** The interleavings of any number of producers calling [Put] and the
    consumers calling [GetBlocking] and [Get]. *)
Inductive step : conc → conc → Prop :=
| step_Put c x q' o :
    locked c = false → Put x (q_ c) = Some (q', o) →
    step c (mkconc q' false (pcs c) (got c) (sent c ++ [x]))
| step_Acquire c i q' :
    pcs c !! i = Some Idle → Acquire (q_ c) = Some q' →
    step c (mkconc q' (locked c) (<[i := Acquired]> (pcs c)) (got c) (sent c))
| step_GetBlocking c i x q' :
    pcs c !! i = Some Acquired → locked c = false → GetInternal (q_ c) = Some (x, q') →
    step c (mkconc q' false (<[i := Idle]> (pcs c)) (got c ++ [x]) (sent c))
| step_Get_lock c i :
    pcs c !! i = Some Idle → locked c = false →
    step c (mkconc (q_ c) true
              (<[i := if 0 <? zlen (queue (q_ c)) then WantSem else HoldPop]> (pcs c)) (got c) (sent c))
| step_Get_Acquire c i q' :
    pcs c !! i = Some WantSem → Acquire (q_ c) = Some q' →
    step c (mkconc q' (locked c) (<[i := HoldPop]> (pcs c)) (got c) (sent c))
| step_Get_pop c i x q' :
    pcs c !! i = Some HoldPop → GetInternal (q_ c) = Some (x, q') →
    step c (mkconc q' false (<[i := Idle]> (pcs c)) (got c ++ [x]) (sent c)).

Definition start (cap : Z) (consumers : nat) : conc :=
  mkconc (SetOverflowCallback (ctor cap)) false (replicate consumers Idle) [] [].

(** The steps of consumers that only use [GetBlocking]. *)
Inductive step_b : conc → conc → Prop :=
| stepb_Put c x q' o :
    locked c = false → Put x (q_ c) = Some (q', o) →
    step_b c (mkconc q' false (pcs c) (got c) (sent c ++ [x]))
| stepb_Acquire c i q' :
    pcs c !! i = Some Idle → Acquire (q_ c) = Some q' →
    step_b c (mkconc q' (locked c) (<[i := Acquired]> (pcs c)) (got c) (sent c))
| stepb_GetBlocking c i x q' :
    pcs c !! i = Some Acquired → locked c = false → GetInternal (q_ c) = Some (x, q') →
    step_b c (mkconc q' false (<[i := Idle]> (pcs c)) (got c ++ [x]) (sent c)).

Definition is_acquired (p : pc) : Z := match p with Acquired => 1 | _ => 0 end.
Definition n_acquired (c : conc) : Z := zsum (is_acquired <$> pcs c).

(** What holds at every point of a program that only uses [Put] and
    [GetBlocking]. *)
Record inv (c : conc) : Prop := {
  inv_unlocked : locked c = false;
  inv_pcs : Forall (λ p, p = Idle ∨ p = Acquired) (pcs c);
  inv_sem : semaphore (q_ c) + n_acquired c = zlen (queue (q_ c));
  inv_pos : 0 ≤ semaphore (q_ c);
  inv_cap : zlen (queue (q_ c)) ≤ capacity (q_ c);
  inv_cb : overflowCallback (q_ c) = true;
  inv_fifo : sublist (got c ++ queue (q_ c)) (sent c);
}.
End ops.
Arguments conc : clear implicits.
End BlockingQueue.

(* ================================================================== *)
Section facts.
Import BlockingQueue.
Context {T : Type}.
Implicit Types (q : t T) (c : conc T).

(** With room for one element less, the loop keeps the queue, else it drops
    exactly the oldest element. *)
Lemma Put_spec x q :
  overflowCallback q = true → 0 ≤ capacity q → zlen (queue q) ≤ capacity q →
  Put x q = Some (if zlen (queue q) <? capacity q
                  then (mk (queue q ++ [x]) (capacity q) (semaphore q + 1) true, [])
                  else (mk (tail (queue q ++ [x])) (capacity q) (semaphore q) true,
                        take 1 (queue q ++ [x]))).
Proof.
  intros Hcb Hc Hlen. unfold Put. rewrite Hcb.
  destruct (queue q ++ [x]) as [|y l] eqn:E; [by destruct (queue q)|].
  pose proof (f_equal zlen E) as Hl. rewrite zlen_app, !zlen_cons, zlen_nil in Hl. simpl. rewrite zlen_cons.
  destruct (Z.ltb_spec (zlen (queue q)) (capacity q)).
  - destruct (Z.ltb_spec (capacity q) (1 + zlen l)); [lia|]. done.
  - destruct (Z.ltb_spec (capacity q) (1 + zlen l)); [|lia].
    replace (drop_overflow (capacity q) true l) with (Some (l, @nil T)); [done|].
    destruct l as [|z l]; simpl.
    { rewrite zlen_nil. destruct (Z.ltb_spec (capacity q) 0); [lia|done]. }
    destruct (Z.ltb_spec (capacity q) (zlen (z :: l))); [lia|done].
Qed.

Lemma zsum_acquired_insert (l : list pc) i p p' :
  l !! i = Some p →
  zsum (is_acquired <$> <[i:=p']> l) = zsum (is_acquired <$> l) - is_acquired p + is_acquired p'.
Proof.
  intros Hi. rewrite list_fmap_insert. apply zsum_insert. by rewrite list_lookup_fmap, Hi.
Qed.

Lemma acquired_nonneg (l : list pc) : 0 ≤ zsum (is_acquired <$> l).
Proof. apply zsum_nonneg, Forall_fmap, Forall_true. by intros []. Qed.

Lemma start_inv cap n : 0 ≤ cap → inv (start (T := T) cap n).
Proof.
  intros Hc. constructor; simpl; try done.
  - apply Forall_replicate. by left.
  - unfold n_acquired; simpl. change (0 + zsum (is_acquired <$> replicate n Idle) = 0).
    rewrite fmap_replicate, zsum_replicate. simpl. lia.
Qed.

Lemma step_b_inv c c' : step_b c c' → inv c → inv c'.
Proof.
  intros Hstep [Hl Hp Hs Hpos Hcap Hcb Hfifo].
  destruct Hstep as [c x q' o _ HP|c i q' Hi HA|c i x q' Hi _ HG].
  - pose proof (zlen_nonneg (queue (q_ c))).
    rewrite Put_spec in HP by (done || lia).
    destruct (Z.ltb_spec (zlen (queue (q_ c))) (capacity (q_ c))); simplify_eq.
    + constructor; simpl; try done.
      * unfold n_acquired in *; simpl. rewrite zlen_app, zlen_cons, zlen_nil. lia.
      * lia.
      * rewrite zlen_app, zlen_cons, zlen_nil. lia.
      * rewrite app_assoc. by apply sublist_app.
    + assert (zlen (tail (queue (q_ c) ++ [x])) = zlen (queue (q_ c))) as Htl.
      { destruct (queue (q_ c)); simpl; [done|]. rewrite zlen_app, !zlen_cons, zlen_nil. lia. }
      constructor; simpl; rewrite ?Htl; try done.
      transitivity (got c ++ queue (q_ c) ++ [x]).
      * apply sublist_app; [done|]. destruct (queue (q_ c)); simpl; [apply sublist_nil_l|].
        by apply sublist_cons.
      * rewrite app_assoc. by apply sublist_app.
  - unfold Acquire in HA. destruct (Z.ltb_spec 0 (semaphore (q_ c))); simplify_eq.
    constructor; simpl; try done.
    + apply Forall_insert; [done|by right].
    + unfold n_acquired in *; simpl. rewrite (zsum_acquired_insert _ _ Idle) by done. simpl. lia.
    + lia.
  - unfold GetInternal in HG. destruct (queue (q_ c)) as [|y l] eqn:E; simplify_eq.
    constructor; simpl; try done.
    + apply Forall_insert; [done|by left].
    + unfold n_acquired in *; simpl. rewrite (zsum_acquired_insert _ _ Acquired) by done.
      rewrite zlen_cons in Hs. simpl. lia.
    + rewrite zlen_cons in Hcap. lia.
    + by rewrite <- app_assoc.
Qed.

Lemma reach_b_inv cap n c : 0 ≤ cap → star step_b (start cap n) c → inv c.
Proof.
  intros Hc Hstar. eapply (star_invariant step_b inv); [apply step_b_inv|done|by apply start_inv].
Qed.

(** For any number of producer and consumer threads that use [Put] and
    [GetBlocking], in every interleaving: a consumer that got past the
    semaphore always finds an element, the number of permits plus the
    consumers about to take one equals the queue length (no lost wake-up),
    the queue never exceeds its capacity, and what consumers receive is a
    subsequence of what was put, in order. *)
Theorem blocking_queue_safe cap n c :
  0 ≤ cap → star step_b (start (T := T) cap n) c →
  (∀ i, pcs c !! i = Some Acquired → is_Some (GetInternal (q_ c))) ∧
  semaphore (q_ c) + n_acquired c = zlen (queue (q_ c)) ∧
  zlen (queue (q_ c)) ≤ capacity (q_ c) ∧
  sublist (got c) (sent c).
Proof.
  intros Hc Hstar. destruct (reach_b_inv cap n c Hc Hstar) as [Hl Hp Hs Hpos Hcap Hcb Hfifo].
  split_and!; [|done|done|].
  - intros i Hi. unfold GetInternal. destruct (queue (q_ c)) as [|x l]; [|by eexists].
    exfalso. pose proof (zsum_acquired_insert (pcs c) i Acquired Idle Hi) as Hz.
    pose proof (acquired_nonneg (<[i:=Idle]> (pcs c))). simpl in Hz.
    unfold n_acquired, zlen in *; simpl in Hs. lia.
  - transitivity (got c ++ queue (q_ c)); [|done]. by apply sublist_inserts_r.
Qed.
End facts.

Section deadlock.
Import BlockingQueue.

(** [Get] and [GetBlocking] do not mix: with one consumer past the
    semaphore of [GetBlocking], another consumer inside [Get] holds the
    mutex while it waits for a permit nobody can release any more.  The
    state below is reachable and no thread can take a step. *)
Theorem get_getblocking_deadlock :
  ∃ c : conc nat, star step (start 4 2) c ∧ ∀ c', ¬ step c c'.
Proof.
  exists (mkconc (mk [7%nat] 4 0 true) true [Acquired; WantSem] [] [7%nat]). split.
  - eapply star_step; [by eapply (step_Put _ 7%nat)|]. simpl.
    eapply star_step; [by eapply (step_Acquire _ 0)|]. simpl.
    eapply star_step; [by eapply (step_Get_lock _ 1)|]. simpl. constructor.
  - intros c' Hstep. inversion Hstep; simplify_eq/=.
    all: repeat match goal with
         | H : [_; _] !! ?i = Some _ |- _ => destruct i as [|[|]]; simplify_eq/=
         end.
Qed.
End deadlock.

Lemma blocking_queue_safe_witness :
  let c : BlockingQueue.conc nat :=
    BlockingQueue.mkconc (BlockingQueue.mk [7%nat] 4 0 true) false
      [BlockingQueue.Acquired] [] [7%nat] in
  (∀ i, BlockingQueue.pcs c !! i = Some BlockingQueue.Acquired →
        is_Some (BlockingQueue.GetInternal (BlockingQueue.q_ c))) ∧
  BlockingQueue.semaphore (BlockingQueue.q_ c) + BlockingQueue.n_acquired c
    = zlen (BlockingQueue.queue (BlockingQueue.q_ c)) ∧
  zlen (BlockingQueue.queue (BlockingQueue.q_ c)) ≤ BlockingQueue.capacity (BlockingQueue.q_ c) ∧
  sublist (BlockingQueue.got c) (BlockingQueue.sent c).
Proof.
  intros c. apply (blocking_queue_safe 4 1 c); [lia|].
  eapply star_step; [by eapply (BlockingQueue.stepb_Put _ 7%nat)|]. simpl.
  eapply star_step; [by eapply (BlockingQueue.stepb_Acquire _ 0)|]. simpl. constructor.
Defined.
