(* ===== verification/Reassembler.v ===== *)
(** * libtgvoip/PacketReassembler.h, PacketReassembler.cpp

    Video frames larger than a packet travel as up to 255 fragments.  The
    reassembler keeps one frame at a time, identified by its timestamp, and
    gives the joined frame to its callback.  A call returns the list of
    callback invocations it made. *)

From Stdlib Require Import ZArith Lia.
From stdpp Require Import base tactics list numbers option.
From S2P Require Import Prelude Words Buffers.

Module PacketReassembler.

(** [currentTimestamp] and [currentIsKeyframe] are not initialised by the
    constructor: their first values are arguments of [ctor]. *)
Record t := mk {
  currentTimestamp : Z;
  currentPacketPartCount : Z;
  parts : list Buffer.t;           (** std::array<Buffer, 255> *)
  currentIsKeyframe : bool;
  receivedPartCount : Z;
}.

(** One invocation of [callback(packet, pts, keyframe)]. *)
Definition delivery : Type := Buffer.t * Z * bool.

Definition ctor (garbage_ts : Z) (garbage_kf : bool) : t :=
  mk garbage_ts 0 (replicate 255 Buffer.empty) garbage_kf 0.

(** [Reset()] has an empty body. *)
Definition Reset (s : t) : t := s.

(** [out.WriteBytes(parts[i])] for each part in turn. *)
Fixpoint write_parts (l : list Buffer.t) : M BufferOutputStream.t unit :=
  match l with
  | [] => mret tt
  | p :: l' => BufferOutputStream.WriteBytes (Buffer.contents p);; write_parts l'
  end.

(** The branch taken when every part is there: join, clear the parts, call
    back, forget the frame. *)
Definition complete (s : t) : outcome t (list delivery) :=
  let n := Z.to_nat (currentPacketPartCount s) in
  match write_parts (take n (parts s)) (BufferOutputStream.ctor 10240) with
  | Ret _ out =>
      Ret [(Buffer.of_stream out, currentTimestamp s, currentIsKeyframe s)]
          (mk 0 0 (replicate n Buffer.empty ++ drop n (parts s))
              (currentIsKeyframe s) (receivedPartCount s))
  | Throw e _ => Throw e s
  | Crash c => Crash c
  end.

Definition AddFragment (pkt : Buffer.t) (fragmentIndex fragmentCount pts : Z)
    (keyframe : bool) (s : t) : outcome t (list delivery) :=
  let new_frame := negb (pts =? currentTimestamp s) in
  if new_frame && (255 <? fragmentCount) then Crash AssertFailed
  else
    let s := if new_frame then mk pts fragmentCount (parts s) keyframe 0 else s in
    if (fragmentCount =? 0) || (fragmentCount =? 1) then Ret [(pkt, pts, keyframe)] s
    else
      match (if fragmentIndex <? currentPacketPartCount s
             then zset (parts s) fragmentIndex pkt else Some (parts s)) with
      | None => Crash UndefinedBehaviour
      | Some ps =>
          let s := mk (currentTimestamp s) (currentPacketPartCount s) ps
                      (currentIsKeyframe s) (receivedPartCount s) in
          if zlen (parts s) <? currentPacketPartCount s then Ret [] s
          else
            let s := mk (currentTimestamp s) (currentPacketPartCount s) (parts s)
                        (currentIsKeyframe s) (u32 (receivedPartCount s + 1)) in
            let anyAreEmpty :=
              existsb Buffer.IsEmpty (take (Z.to_nat (currentPacketPartCount s)) (parts s)) in
            if negb anyAreEmpty && (receivedPartCount s =? currentPacketPartCount s)
            then complete s else Ret [] s
      end.

(** The fragments of a frame, as the receiver sees them. *)
Record fragment := { f_index : nat; f_data : bytes }.

(** Feed fragments of one frame; the deliveries of all calls, in order. *)
Fixpoint feed (l : list fragment) (count pts : Z) (kf : bool) (s : t)
  : outcome t (list delivery) :=
  match l with
  | [] => Ret [] s
  | f :: l' =>
      match AddFragment (Buffer.of_bytes (f_data f)) (Z.of_nat (f_index f)) count pts kf s with
      | Ret o s1 =>
          match feed l' count pts kf s1 with
          | Ret o' s2 => Ret (o ++ o') s2
          | r => r
          end
      | r => r
      end
  end.

(** The object is usable: the array has its 255 elements. *)
Definition wf (s : t) : Prop := zlen (parts s) = 255.

End PacketReassembler.

(* ================================================================== *)
Section facts.
Import PacketReassembler.
Implicit Types s : t.

(** In the middle of a frame: which parts arrived. *)
Record collecting (frame : nat → bytes) (n : nat) (pts : Z) (kf : bool)
    (done : list nat) s : Prop := {
  col_ts : currentTimestamp s = pts;
  col_n : currentPacketPartCount s = Z.of_nat n;
  col_kf : currentIsKeyframe s = kf;
  col_len : zlen (parts s) = 255;
  col_recv : receivedPartCount s = zlen done;
  col_parts : ∀ i, i ∈ done → parts s !! i = Some (Buffer.of_bytes (frame i));
}.

Lemma write_parts_items l :
  write_parts l = Stream.write_items (Stream.IBytes ∘ Buffer.contents <$> l).
Proof. induction l as [|p l IH]; simpl; [done|]. by rewrite IH. Qed.

Lemma write_parts_ctor l :
  zsum (zlen ∘ Buffer.contents <$> l) + 1024 * zlen l + 10240 < 18446744073709551616 →
  ∃ out, write_parts l (BufferOutputStream.ctor 10240) = Ret tt out ∧
         BufferOutputStream.data out = mjoin (Buffer.contents <$> l).
Proof.
  intros Hroom. rewrite write_parts_items.
  destruct (write_items_growable (Stream.IBytes ∘ Buffer.contents <$> l)
              (BufferOutputStream.ctor 10240)) as (out & Hw & Hd & _); [by constructor|done| |].
  - simpl. replace (Stream.room _)
      with (zsum (zlen ∘ Buffer.contents <$> l) + 1024 * zlen l); [lia|].
    clear. induction l as [|p l IH]; [done|].
    rewrite fmap_cons, zsum_cons, zlen_cons. rewrite fmap_cons, room_cons. simpl in *. lia.
  - exists out. split; [done|]. rewrite Hd. simpl. f_equal. clear.
    rewrite <- list_fmap_compose. by apply list_fmap_ext.
Qed.

(** A fragment that is not the last one to arrive only stores its data. *)
Lemma AddFragment_store frame n pts kf seen s i :
  (2 ≤ n ≤ 255)%nat → collecting frame n pts kf seen s →
  (i < n)%nat → i ∉ seen → (length seen + 1 < n)%nat →
  ∃ s', AddFragment (Buffer.of_bytes (frame i)) (Z.of_nat i) (Z.of_nat n) pts kf s = Ret [] s' ∧
        collecting frame n pts kf (i :: seen) s'.
Proof.
  intros Hn [Hts Hc Hkf Hlen Hrecv Hp] Hi Hnew Hlast.
  unfold AddFragment. rewrite Hts, Z.eqb_refl. simpl.
  destruct (Z.eqb_spec (Z.of_nat n) 0); [lia|]. destruct (Z.eqb_spec (Z.of_nat n) 1); [lia|]. simpl.
  rewrite Hc. destruct (Z.ltb_spec (Z.of_nat i) (Z.of_nat n)); [|lia].
  rewrite zset_Some by lia. simpl. rewrite zlen_insert, Hlen.
  destruct (Z.ltb_spec 255 (Z.of_nat n)); [lia|].
  rewrite Hrecv, u32_small by (unfold zlen; lia).
  destruct (Z.eqb_spec (zlen seen + 1) (Z.of_nat n)); [unfold zlen in *; lia|].
  rewrite andb_false_r. eexists. split; [done|]. constructor; simpl; try done.
  - by rewrite zlen_insert.
  - rewrite zlen_cons. lia.
  - intros k [->|Hk]%elem_of_cons; rewrite Nat2Z.id.
    + apply list_lookup_insert_eq. unfold zlen in Hlen. lia.
    + rewrite list_lookup_insert_ne; [by apply Hp|]. by intros ->.
Qed.

(** The parts of a complete frame are its first [n] array elements. *)
Lemma parts_complete frame n (ps : list Buffer.t) seen :
  zlen ps = 255 → (n ≤ 255)%nat → seen ≡ₚ seq 0 n →
  (∀ i, i ∈ seen → ps !! i = Some (Buffer.of_bytes (frame i))) →
  take n ps = (λ i, Buffer.of_bytes (frame i)) <$> seq 0 n.
Proof.
  intros Hlen Hn Hseen Hp. apply list_eq. intros i.
  destruct (decide (i < n)%nat) as [Hi|Hi].
  - rewrite lookup_take_lt by done. rewrite Hp.
    + by rewrite list_lookup_fmap, lookup_seq_lt by done.
    + rewrite Hseen, elem_of_seq. lia.
  - rewrite !lookup_ge_None_2; [done|rewrite length_fmap, length_seq; lia|].
    rewrite length_take. lia.
Qed.

Lemma AddFragment_last frame n pts kf seen s i :
  (2 ≤ n ≤ 255)%nat → collecting frame n pts kf seen s →
  i :: seen ≡ₚ seq 0 n →
  (∀ k, (k < n)%nat → frame k ≠ [] ∧ zlen (frame k) < 4294967296) →
  ∃ s', AddFragment (Buffer.of_bytes (frame i)) (Z.of_nat i) (Z.of_nat n) pts kf s
        = Ret [(Buffer.of_bytes (mjoin (frame <$> seq 0 n)), pts, kf)] s' ∧ wf s'.
Proof.
  intros Hn [Hts Hc Hkf Hlen Hrecv Hp] Hperm Hframe.
  assert (Hi : (i < n)%nat).
  { assert (i ∈ seq 0 n) as Hi by (rewrite <- Hperm; apply list_elem_of_here).
    apply elem_of_seq in Hi. lia. }
  assert (Hcount : zlen seen + 1 = Z.of_nat n).
  { apply Permutation_length in Hperm. rewrite length_seq in Hperm. unfold zlen. simpl in Hperm. lia. }
  unfold AddFragment. rewrite Hts, Z.eqb_refl. simpl.
  destruct (Z.eqb_spec (Z.of_nat n) 0); [lia|]. destruct (Z.eqb_spec (Z.of_nat n) 1); [lia|]. simpl.
  rewrite Hc. destruct (Z.ltb_spec (Z.of_nat i) (Z.of_nat n)); [|lia].
  rewrite zset_Some by lia. simpl. rewrite zlen_insert, Hlen.
  destruct (Z.ltb_spec 255 (Z.of_nat n)); [lia|].
  rewrite Hrecv, u32_small, Hcount, Z.eqb_refl, andb_true_r by (unfold zlen in *; lia).
  assert (Htake : take n (<[i:=Buffer.of_bytes (frame i)]> (parts s))
                  = (λ i, Buffer.of_bytes (frame i)) <$> seq 0 n).
  { apply (parts_complete frame n _ (i :: seen)); [by rewrite zlen_insert|lia|done|].
    intros k [->|Hk]%elem_of_cons.
    - apply list_lookup_insert_eq. unfold zlen in Hlen. lia.
    - destruct (decide (k = i)) as [->|].
      + apply list_lookup_insert_eq. unfold zlen in Hlen. lia.
      + rewrite list_lookup_insert_ne by done. by apply Hp. }
  rewrite !Nat2Z.id, Htake.
  assert (existsb Buffer.IsEmpty ((λ i, Buffer.of_bytes (frame i)) <$> seq 0 n) = false) as ->.
  { apply not_true_is_false. rewrite existsb_exists. intros (b & Hb & He).
    apply list_elem_of_In, list_elem_of_fmap in Hb as (k & -> & Hk%elem_of_seq).
    unfold Buffer.IsEmpty in He. simpl in He. apply Z.eqb_eq in He.
    destruct (Hframe k) as [Hne _]; [lia|]. apply Hne. by apply nil_length_inv; unfold zlen in He; lia. }
  simpl. unfold complete. simpl. rewrite !Nat2Z.id, Htake.
  destruct (write_parts_ctor ((λ i, Buffer.of_bytes (frame i)) <$> seq 0 n)) as (out & -> & Hd).
  { rewrite <- list_fmap_compose, zlen_fmap, zlen_seq.
    pose proof (zsum_le ((zlen ∘ Buffer.contents ∘ λ i, Buffer.of_bytes (frame i)) <$> seq 0 n)
                  4294967296) as Hb.
    rewrite zlen_fmap, zlen_seq in Hb.
    assert (zsum ((zlen ∘ Buffer.contents ∘ λ i, Buffer.of_bytes (frame i)) <$> seq 0 n)
            ≤ Z.of_nat n * 4294967296); [|lia].
    apply Hb, Forall_fmap, Forall_lookup. intros k x Hx%lookup_seq. simpl.
    destruct (Hframe x); [lia|]. unfold Buffer.contents. simpl. lia. }
  eexists. split.
  - f_equal. f_equal. unfold Buffer.of_stream, Buffer.of_bytes, BufferOutputStream.offset.
    rewrite Hd. rewrite <- list_fmap_compose. by rewrite Hts, Hkf.
  - unfold wf. simpl. rewrite zlen_app. unfold zlen.
    rewrite length_replicate, length_drop, length_insert. unfold zlen in Hlen. lia.
Qed.

(** The fragments of a frame, in any order. *)
Lemma feed_any_order (frame : nat → bytes) n order pts kf s :
  (2 ≤ n ≤ 255)%nat → wf s → currentTimestamp s ≠ pts → order ≡ₚ seq 0 n →
  (∀ k, (k < n)%nat → frame k ≠ [] ∧ zlen (frame k) < 4294967296) →
  ∃ s', feed ((λ i, {| f_index := i; f_data := frame i |}) <$> order) (Z.of_nat n) pts kf s
        = Ret [(Buffer.of_bytes (mjoin (frame <$> seq 0 n)), pts, kf)] s' ∧ wf s'.
Proof.
  intros Hn Hwf Hts Hperm Hframe.
  assert (Hpos : order ≠ []).
  { intros ->. apply Permutation_nil_l in Hperm. by destruct n; [lia|]. }
  (* the first fragment opens the frame *)
  assert (Hopen : ∀ i, AddFragment (Buffer.of_bytes (frame i)) (Z.of_nat i) (Z.of_nat n) pts kf s
    = AddFragment (Buffer.of_bytes (frame i)) (Z.of_nat i) (Z.of_nat n) pts kf
        (mk pts (Z.of_nat n) (parts s) kf 0)).
  { intros i. unfold AddFragment. simpl. rewrite Z.eqb_refl.
    destruct (Z.eqb_spec pts (currentTimestamp s)); [congruence|]. simpl.
    by destruct (Z.ltb_spec 255 (Z.of_nat n)); [lia|]. }
  assert (Hcol0 : collecting frame n pts kf [] (mk pts (Z.of_nat n) (parts s) kf 0)).
  { constructor; simpl; try done. intros i Hi. by apply not_elem_of_nil in Hi. }
  assert (Hmain : ∀ rem seen s1, rem ≠ [] → reverse seen ++ rem = order →
    collecting frame n pts kf seen s1 →
    ∃ s', feed ((λ i, {| f_index := i; f_data := frame i |}) <$> rem) (Z.of_nat n) pts kf s1
          = Ret [(Buffer.of_bytes (mjoin (frame <$> seq 0 n)), pts, kf)] s' ∧ wf s').
  { induction rem as [|i rem IH]; intros seen s1 Hne Hsplit Hcol; [done|].
    assert (Hall : i :: seen ++ rem ≡ₚ seq 0 n).
    { rewrite <- Hperm, <- Hsplit, reverse_Permutation. by rewrite Permutation_middle. }
    rewrite fmap_cons. cbn [feed f_index f_data].
    destruct rem as [|j rem].
    - rewrite app_nil_r in Hall.
      destruct (AddFragment_last frame n pts kf seen s1 i) as (s' & -> & Hwf'); [done..|].
      simpl. by exists s'.
    - pose proof (Permutation_length Hall) as Hl. rewrite length_seq in Hl. simpl in Hl.
      rewrite length_app in Hl. simpl in Hl.
      assert (Hnd : NoDup (i :: seen ++ j :: rem)) by (rewrite Hall; apply NoDup_seq).
      destruct (AddFragment_store frame n pts kf seen s1 i) as (s2 & -> & Hcol2); [done..| | |lia|].
      + assert (i ∈ seq 0 n) as Hin by (rewrite <- Hall; apply list_elem_of_here).
        apply elem_of_seq in Hin. lia.
      + apply NoDup_cons_1_1 in Hnd. by intros Hi; apply Hnd, elem_of_app; left.
      + destruct (IH (i :: seen) s2) as (s' & Hf & Hwf'); [done| |done|].
        * by rewrite reverse_cons, <- app_assoc.
        * rewrite Hf. by exists s'. }
  destruct order as [|i order]; [done|].
  destruct (Hmain (i :: order) [] _ Hpos eq_refl Hcol0) as (s' & Hf & Hwf').
  exists s'. split; [|done]. rewrite <- Hf. simpl. by rewrite Hopen.
Qed.

(** Fragments of one frame may arrive in any order: from any state that
    is not collecting this timestamp (stale parts of an abandoned frame
    included), feeding each of the [n] non-empty fragments once delivers
    exactly one frame, the fragments joined in index order, with the
    frame's timestamp and keyframe flag, and leaves the object usable. *)
Theorem reassemble_any_order (frame : nat → bytes) n order pts kf s :
  (2 ≤ n ≤ 255)%nat → wf s → currentTimestamp s ≠ pts → order ≡ₚ seq 0 n →
  (∀ k, (k < n)%nat → frame k ≠ [] ∧ zlen (frame k) < 4294967296) →
  ∃ s', feed ((λ i, {| f_index := i; f_data := frame i |}) <$> order) (Z.of_nat n) pts kf s
        = Ret [(Buffer.of_bytes (mjoin (frame <$> seq 0 n)), pts, kf)] s' ∧ wf s'.
Proof. apply feed_any_order. Qed.

Lemma reassemble_any_order_witness :
  ∃ s', feed ((λ i, {| f_index := i; f_data := [Z.of_nat i; 9] |}) <$> [2; 0; 1]%nat) 3 77 true
          (ctor 0 false)
        = Ret [(Buffer.of_bytes [0; 9; 1; 9; 2; 9], 77, true)] s' ∧ wf s'.
Proof.
  apply (reassemble_any_order (λ i, [Z.of_nat i; 9]) 3 [2; 0; 1]%nat 77 true (ctor 0 false)).
  - lia.
  - reflexivity.
  - done.
  - apply (Permutation_cons_append [0; 1]%nat 2%nat).
  - intros k _. split; [done|reflexivity].
Defined.

(** Parts of an abandoned frame are not discarded: after one part of a
    two-part frame with timestamp 1, a frame with timestamp 2 whose first
    fragment arrives twice (its second one never) is delivered as complete,
    joined from its own first part and the old frame's second part. *)
Theorem stale_parts_are_mixed :
  ∃ s1, end_state (feed [{| f_index := 1; f_data := [11] |}] 2 1 false (ctor 0 false)) = Some s1 ∧
    ret_value (feed [{| f_index := 0; f_data := [22] |}; {| f_index := 0; f_data := [22] |}]
                    2 2 false s1)
    = Some [(Buffer.of_bytes [22; 11], 2, false)].
Proof. eexists. split; [reflexivity|]. vm_compute. reflexivity. Qed.

(** A duplicated fragment makes the frame undeliverable: the duplicate is
    counted as a part, so the count of received parts passes the number of
    parts before the last part arrives. *)
Theorem duplicate_loses_frame :
  ret_value (feed [{| f_index := 0; f_data := [1] |}; {| f_index := 0; f_data := [1] |};
                   {| f_index := 1; f_data := [2] |}] 2 5 false (ctor 0 false)) = Some [].
Proof. vm_compute. reflexivity. Qed.
End facts.
