(* ===== verification/Seq.v ===== *)
(** * libtgvoip/PrivateDefines.h: sequence numbers

    Packets carry 32-bit sequence numbers that wrap; [seqgt] compares them
    in a window of half the number space. *)

From Stdlib Require Import ZArith Lia.
From stdpp Require Import base tactics numbers.
From S2P Require Import Prelude Words.

Definition SEQ_MAX : Z := 4294967295.

Definition seqgt (s1 s2 : Z) : bool :=
  ((s2 <? s1) && (u32 (s1 - s2) <=? SEQ_MAX / 2)) ||
  ((s1 <? s2) && (SEQ_MAX / 2 <? u32 (s2 - s1))).

(** Comparison as one subtraction modulo 2^32. *)
Lemma seqgt_spec s1 s2 :
  is_u32 s1 → is_u32 s2 →
  seqgt s1 s2 = true ↔
    0 < u32 (s1 - s2) < 2147483648 ∨ (u32 (s1 - s2) = 2147483648 ∧ s1 < s2).
Proof.
  intros H1 H2. unfold seqgt. change (SEQ_MAX / 2) with 2147483647.
  rewrite orb_true_iff, !andb_true_iff, !Z.ltb_lt, Z.leb_le. word_lia.
Qed.

Lemma seqgt_irrefl s : is_u32 s → seqgt s s = false.
Proof.
  intros Hs. apply not_true_is_false. rewrite seqgt_spec by done.
  rewrite Z.sub_diag. word_lia.
Qed.

Lemma seqgt_total s1 s2 :
  is_u32 s1 → is_u32 s2 → s1 ≠ s2 → seqgt s1 s2 = negb (seqgt s2 s1).
Proof.
  intros H1 H2 Hne. apply eq_true_iff_eq. rewrite negb_true_iff, <- not_true_iff_false.
  rewrite !seqgt_spec by done. word_lia.
Qed.

(** Within half the sequence space the comparison is the unwrapped one. *)
Lemma seqgt_unwrap a b : Z.abs (a - b) < 2147483648 → seqgt (u32 a) (u32 b) = (b <? a).
Proof.
  intros Hab. apply eq_true_iff_eq. rewrite seqgt_spec by apply u32_range. rewrite Z.ltb_lt. word_lia.
Qed.

(** [seqgt] is the order of the unwrapped sequence numbers: for packet
    counters [a] and [b] less than 2^31 apart, of any size, comparing their
    32-bit truncations gives [a > b]; on any two distinct 32-bit numbers
    exactly one of [seqgt s1 s2] and [seqgt s2 s1] holds. *)
Theorem seqgt_window (a b : Z) :
  Z.abs (a - b) < 2147483648 →
  seqgt (u32 a) (u32 b) = (b <? a) ∧
  (u32 a ≠ u32 b → seqgt (u32 a) (u32 b) = negb (seqgt (u32 b) (u32 a))).
Proof.
  intros Hab. split.
  - by apply seqgt_unwrap.
  - apply seqgt_total; apply u32_range.
Qed.

Lemma seqgt_window_witness :
  seqgt (u32 4294967298) (u32 4294967290) = (4294967290 <? 4294967298) ∧
  (u32 4294967298 ≠ u32 4294967290 →
   seqgt (u32 4294967298) (u32 4294967290) = negb (seqgt (u32 4294967290) (u32 4294967298))).
Proof. apply (seqgt_window 4294967298 4294967290). lia. Defined.
