(* ===== verification/Congestion.v ===== *)
(** * libtgvoip/CongestionControl.h, CongestionControl.cpp

    The congestion control tracks up to 100 packets in flight.  Every call
    of [VoIPController::GetCurrentTime()] is an argument of the operation
    that makes it; the mutex makes each operation atomic. *)

From Stdlib Require Import ZArith Lia SpecFloat.
From stdpp Require Import base tactics list numbers option.
From S2P Require Import Prelude Words Double Seq History.

Module CongestionControl.

(** [tgvoip_congestionctl_packet_t]. *)
Record packet := mkpacket { seq : Z; sendTime : double; size : Z }.

Record t := mk {
  rttHistory : HistoricBuffer.t double;
  inflightHistory : HistoricBuffer.t Z;
  inflightPackets : list packet;
  lossCount : Z;
  tmpRtt : double;
  lastActionTime : double;
  tmpRttCount : Z;
  lastSentSeq : Z;
  inflightDataSize : Z;
  cwnd : Z;
}.

Inductive action := ACT_NONE | ACT_INCREASE | ACT_DECREASE.

(** The constructor; [window] is the server's "audio_congestion_window". *)
Definition ctor (window : Z) : t :=
  mk (HistoricBuffer.ctor 100) (HistoricBuffer.ctor 30)
     (replicate 100 (mkpacket 0 D.zero 0)) 0 D.zero D.zero 0 0 0 (u64 window).

Definition is_free (p : packet) : bool := D.eqb (sendTime p) D.zero.
Definition in_flight (p : packet) : bool := D.ltb D.zero (sendTime p).

Definition with_packets (ps : list packet) (inflight loss : Z) (c : t) : t :=
  mk (rttHistory c) (inflightHistory c) ps loss (tmpRtt c) (lastActionTime c)
     (tmpRttCount c) (lastSentSeq c) inflight (cwnd c).

Definition GetAcknowledgedDataSize (c : t) : Z := 0.
Definition GetAverageRTT (c : t) : double := HistoricBuffer.NonZeroAverage (rttHistory c).
Definition GetInflightDataSize (c : t) : Z := HistoricBuffer.Average (inflightHistory c).
Definition GetCongestionWindow (c : t) : Z := cwnd c.
Definition GetMinimumRTT (c : t) : double :=
  HistoricBuffer.Min (T := double) (A := double) (rttHistory c).
Definition GetSendLossCount (c : t) : Z := lossCount c.

Definition PacketAcknowledged (sq : Z) (now : double) (c : t) : t :=
  match find_index (λ p, (seq p =? sq) && in_flight p) (inflightPackets c) with
  | None => c
  | Some i =>
      match inflightPackets c !! i with
      | None => c
      | Some p =>
          mk (rttHistory c) (inflightHistory c)
             (<[i := mkpacket (seq p) D.zero (size p)]> (inflightPackets c))
             (lossCount c) (D.add (tmpRtt c) (D.sub now (sendTime p))) (lastActionTime c)
             (tmpRttCount c + 1) (lastSentSeq c)
             (u64 (inflightDataSize c - size p)) (cwnd c)
      end
  end.

(** The slot search of [PacketSent]: the first free slot, else the one with
    the smallest send time; [best] is (index, smallestSendTime). *)
Fixpoint find_slot (ps : list packet) (i : nat) (best : option nat) (smallest : double)
  : option nat :=
  match ps with
  | [] => best
  | p :: ps' =>
      if is_free p then Some i
      else if D.ltb (sendTime p) smallest then find_slot ps' (S i) (Some i) (sendTime p)
      else find_slot ps' (S i) best smallest
  end.

(** [PacketSent]; [None] when [assert(slot!=NULL)] fails. *)
Definition PacketSent (sq sz : Z) (now : double) (c : t) : option t :=
  if negb (seqgt sq (lastSentSeq c)) || (sq =? lastSentSeq c) then Some c
  else
    slot ← find_slot (inflightPackets c) 0 None D.infinity;
    p ← inflightPackets c !! slot;
    let '(inflight, loss) :=
      if in_flight p then (u64 (inflightDataSize c - size p), u32 (lossCount c + 1))
      else (inflightDataSize c, lossCount c) in
    mret (mk (rttHistory c) (inflightHistory c)
             (<[slot := mkpacket sq now sz]> (inflightPackets c))
             loss (tmpRtt c) (lastActionTime c) (tmpRttCount c) sq
             (u64 (inflight + sz)) (cwnd c)).

(** The loop of [Tick]; the i-th slot reads the clock at [now i]. *)
Fixpoint expire (ps : list packet) (now : nat → double) (i : nat) (inflight loss : Z)
  : list packet * Z * Z :=
  match ps with
  | [] => ([], inflight, loss)
  | p :: ps' =>
      if negb (is_free p) && D.ltb (D.of_Z 2) (D.sub (now i) (sendTime p)) then
        let '(r, f, l) := expire ps' now (S i) (u64 (inflight - size p)) (u32 (loss + 1)) in
        (mkpacket (seq p) D.zero (size p) :: r, f, l)
      else
        let '(r, f, l) := expire ps' now (S i) inflight loss in (p :: r, f, l)
  end.

Definition Tick (now : nat → double) (c : t) : t :=
  let '(rtt, tmp, cnt) :=
    if 0 <? tmpRttCount c
    then (HistoricBuffer.Add (D.div (tmpRtt c) (D.of_Z (tmpRttCount c))) (rttHistory c), D.zero, 0)
    else (rttHistory c, tmpRtt c, tmpRttCount c) in
  let '(ps, inflight, loss) :=
    expire (inflightPackets c) now 0 (inflightDataSize c) (lossCount c) in
  mk rtt (HistoricBuffer.Add inflight (inflightHistory c)) ps loss tmp (lastActionTime c) cnt
     (lastSentSeq c) inflight (cwnd c).

(** [GetBandwidthControlAction]; [now] is the first reading of the clock,
    [now2] the second one, made when an action is taken. *)
Definition GetBandwidthControlAction (now now2 : double) (c : t) : action * t :=
  let acted := mk (rttHistory c) (inflightHistory c) (inflightPackets c) (lossCount c)
                  (tmpRtt c) now2 (tmpRttCount c) (lastSentSeq c) (inflightDataSize c) (cwnd c) in
  if D.ltb (D.sub now (lastActionTime c)) (D.of_Z 1) then (ACT_NONE, c)
  else
    let inflightAvg := GetInflightDataSize c in
    let max := u64 (cwnd c + cwnd c / 10) in
    let min := u64 (cwnd c - cwnd c / 10) in
    if inflightAvg <? min then (ACT_INCREASE, acted)
    else if max <? inflightAvg then (ACT_DECREASE, acted)
    else (ACT_NONE, c).

(** The calls the controller makes. *)
Inductive event :=
| Sent (sq sz : Z) (now : double)
| Acked (sq : Z) (now : double)
| Ticked (now : nat → double).

(** A clock reading: after the epoch the controller uses, and finite. *)
Definition positive (x : double) : bool := D.ltb D.zero x.
Definition finite_time (x : double) : bool := D.ltb x D.infinity.

Definition wf_event (e : event) : Prop :=
  match e with
  | Sent sq sz now => is_u32 sq ∧ is_u64 sz ∧ positive now = true ∧ finite_time now = true
  | Acked sq _ => is_u32 sq
  | Ticked _ => True
  end.

Definition apply_event (c : t) (e : event) : option t :=
  match e with
  | Sent sq sz now => PacketSent sq sz now c
  | Acked sq now => Some (PacketAcknowledged sq now c)
  | Ticked now => Some (Tick now c)
  end.

(** Did the call take a packet in, or acknowledge one? *)
Definition accepts (c : t) (e : event) : bool :=
  match e with
  | Sent sq _ _ => seqgt sq (lastSentSeq c) && negb (sq =? lastSentSeq c)
  | _ => false
  end.
Definition acknowledges (c : t) (e : event) : bool :=
  match e with
  | Acked sq _ => existsb (λ p, (seq p =? sq) && in_flight p) (inflightPackets c)
  | _ => false
  end.

(** Run a history: final state, packets accepted, packets acknowledged. *)
Fixpoint run (c : t) (l : list event) (acc ack : Z) : option (t * Z * Z) :=
  match l with
  | [] => Some (c, acc, ack)
  | e :: l' =>
      c' ← apply_event c e;
      run c' l' (acc + if accepts c e then 1 else 0) (ack + if acknowledges c e then 1 else 0)
  end.

Definition bytes_in_flight (ps : list packet) : Z :=
  zsum ((λ p, if in_flight p then size p else 0) <$> ps).
Definition count_in_flight (ps : list packet) : Z :=
  zsum ((λ p, if in_flight p then 1 else 0) <$> ps).

(** A slot is free or carries a positive finite time. *)
Definition good_slot (p : packet) : Prop :=
  is_free p = negb (in_flight p) ∧ finite_time (sendTime p) = true.

(** The accounting invariant. *)
Record inv (c : t) (acc ack : Z) : Prop := {
  inv_slots : zlen (inflightPackets c) = 100;
  inv_times : Forall good_slot (inflightPackets c);
  inv_bytes : inflightDataSize c = u64 (bytes_in_flight (inflightPackets c));
  inv_count : lossCount c = u32 (acc - ack - count_in_flight (inflightPackets c));
}.

End CongestionControl.

(* ================================================================== *)
Section facts.
Import CongestionControl.
Implicit Types c : t.

Lemma zero_not_in_flight sq sz : in_flight (mkpacket sq D.zero sz) = false.
Proof. done. Qed.

Lemma positive_not_free now sq sz :
  positive now = true → is_free (mkpacket sq now sz) = false.
Proof.
  unfold positive, is_free, D.ltb, D.eqb, SFltb, SFeqb. simpl.
  destruct now as [s|s| |s m e]; try destruct s; simpl; congruence.
Qed.

(** Replacing one slot. *)
Lemma bytes_insert ps i p q :
  ps !! i = Some p →
  bytes_in_flight (<[i:=q]> ps) = bytes_in_flight ps
    - (if in_flight p then size p else 0) + (if in_flight q then size q else 0).
Proof.
  intros Hi. unfold bytes_in_flight. rewrite list_fmap_insert. apply zsum_insert.
  by rewrite list_lookup_fmap, Hi.
Qed.
Lemma count_insert ps i p q :
  ps !! i = Some p →
  count_in_flight (<[i:=q]> ps) = count_in_flight ps
    - (if in_flight p then 1 else 0) + (if in_flight q then 1 else 0).
Proof.
  intros Hi. unfold count_in_flight. rewrite list_fmap_insert. apply zsum_insert.
  by rewrite list_lookup_fmap, Hi.
Qed.

Lemma bytes_cons p ps :
  bytes_in_flight (p :: ps) = (if in_flight p then size p else 0) + bytes_in_flight ps.
Proof. done. Qed.
Lemma count_cons p ps :
  count_in_flight (p :: ps) = (if in_flight p then 1 else 0) + count_in_flight ps.
Proof. done. Qed.

Lemma find_slot_range ps i best m j :
  find_slot ps i best m = Some j →
  (match best with Some b => j = b | None => False end) ∨ (i ≤ j < i + length ps)%nat.
Proof.
  revert i best m. induction ps as [|p ps IH]; intros i best m H; simpl in H.
  - subst. by left.
  - destruct (is_free p); [simplify_eq; right; simpl; lia|].
    destruct (D.ltb _ _); apply IH in H as [H|H]; simpl; try (right; lia); destruct best; auto.
    all: right; simpl in *; lia.
Qed.

(** A slot is found as soon as some slot is free or has a finite time. *)
Lemma find_slot_Some ps i best m :
  (∃ p, p ∈ ps ∧ (is_free p = true ∨ D.ltb (sendTime p) m = true)) ∨ is_Some best →
  is_Some (find_slot ps i best m).
Proof.
  revert i best m. induction ps as [|p ps IH]; intros i best m H; simpl.
  - destruct H as [(p & Hp & _)|H]; [by apply not_elem_of_nil in Hp|done].
  - destruct (is_free p) eqn:Ef; [by eexists|].
    destruct (D.ltb (sendTime p) m) eqn:El; [apply IH; right; by eexists|].
    apply IH. destruct H as [(q & Hq & H)|H]; [|by right].
    apply elem_of_cons in Hq as [->|Hq]; [|left; eauto]. destruct H; congruence.
Qed.

Lemma expire_spec ps now i f l ps' f' l' n :
  Forall good_slot ps →
  expire ps now i (u64 f) (u32 l) = (ps', f', l') →
  n = count_in_flight ps - count_in_flight ps' →
  length ps' = length ps ∧ Forall good_slot ps' ∧
  f' = u64 (f - bytes_in_flight ps + bytes_in_flight ps') ∧ l' = u32 (l + n).
Proof.
  intros Hps. revert i f l ps' f' l' n.
  induction Hps as [|p ps Hp Hps IH]; intros i f l ps' f' l' n H Hn; simpl in H.
  - simplify_eq. split_and!; [done|done| |].
    + f_equal. lia.
    + f_equal. simpl. lia.
  - destruct (negb (is_free p) && _) eqn:E.
    + destruct (expire ps now _ _ _) as [[r f1] l1] eqn:E1. simplify_eq.
      rewrite u64_sub_l, u32_add_l in E1.
      destruct (IH _ _ _ _ _ _ _ E1 eq_refl) as (Hl & Hr & -> & ->).
      apply andb_prop in E as [Ef _]. rewrite (proj1 Hp), negb_involutive in Ef.
      split_and!; [simpl; lia|by constructor| |].
      * rewrite !bytes_cons, Ef, zero_not_in_flight. f_equal. lia.
      * rewrite !count_cons, Ef, zero_not_in_flight. f_equal. lia.
    + destruct (expire ps now _ _ _) as [[r f1] l1] eqn:E1. simplify_eq.
      destruct (IH _ _ _ _ _ _ _ E1 eq_refl) as (Hl & Hr & -> & ->).
      split_and!; [simpl; lia|by constructor| |].
      * rewrite !bytes_cons. f_equal. lia.
      * rewrite !count_cons. f_equal. lia.
Qed.

Lemma PacketAcknowledged_inv c acc ack sq now :
  inv c acc ack →
  inv (PacketAcknowledged sq now c) acc
      (ack + if acknowledges c (Acked sq now) then 1 else 0).
Proof.
  intros [Hs Ht Hb Hc]. unfold PacketAcknowledged. simpl.
  destruct (find_index _ _) as [i|] eqn:E.
  - pose proof E as (p & Hp & Htest & _)%find_index_Some.
    apply andb_prop in Htest as [Hseq Hfl].
    assert (existsb (λ p, (seq p =? sq) && in_flight p) (inflightPackets c) = true) as ->.
    { apply existsb_exists. exists p. split; [|by rewrite Hseq, Hfl].
      apply list_elem_of_In. by eapply list_elem_of_lookup_2. }
    rewrite Hp. constructor; simpl.
    + by rewrite zlen_insert.
    + by apply Forall_insert.
    + rewrite Hb, u64_sub_l, (bytes_insert _ _ p) by done. rewrite Hfl. simpl. f_equal. lia.
    + rewrite Hc, (count_insert _ _ p) by done. rewrite Hfl. simpl. f_equal. lia.
  - apply find_index_None in E.
    assert (existsb (λ p, (seq p =? sq) && in_flight p) (inflightPackets c) = false) as ->.
    { apply not_true_is_false. rewrite existsb_exists. intros (p & Hp%list_elem_of_In & H).
      rewrite Forall_forall in E. rewrite E in H; [done|]. by apply list_elem_of_In. }
    rewrite Z.add_0_r. by constructor.
Qed.

Lemma Tick_inv c acc ack now : inv c acc ack → inv (Tick now c) acc ack.
Proof.
  intros [Hs Ht Hb Hc]. unfold Tick.
  destruct (if 0 <? tmpRttCount c then _ else _) as [[rtt tmp] cnt].
  destruct (expire _ _ _ _ _) as [[ps f] l] eqn:E.
  rewrite Hb, Hc in E.
  destruct (expire_spec _ _ _ _ _ _ _ _ _ Ht E eq_refl) as (Hl & Hps & -> & ->).
  constructor; simpl; [by unfold zlen in *; rewrite Hl|done| |]; f_equal; lia.
Qed.

Lemma PacketSent_inv c acc ack sq sz now c' :
  positive now = true → finite_time now = true → inv c acc ack →
  PacketSent sq sz now c = Some c' →
  inv c' (acc + if accepts c (Sent sq sz now) then 1 else 0) ack.
Proof.
  intros Hnow Hfin [Hs Ht Hb Hc] H. unfold PacketSent in H. simpl.
  destruct (seqgt sq (lastSentSeq c)); simpl in *; [|simplify_eq; rewrite Z.add_0_r; by constructor].
  destruct (sq =? lastSentSeq c); simpl in *; [simplify_eq; rewrite Z.add_0_r; by constructor|].
  destruct (find_slot _ _ _ _) as [j|] eqn:Ej; simpl in H; [|done].
  destruct (inflightPackets c !! j) as [p|] eqn:Ep; simpl in H; [|done].
  destruct (if in_flight p then _ else _) as [f l] eqn:Efl.
  injection H as <-. constructor; simpl.
  - by rewrite zlen_insert.
  - apply Forall_insert; [done|]. split; [|done]. rewrite positive_not_free by done.
    unfold in_flight. simpl. unfold positive in Hnow. by rewrite Hnow.
  - rewrite (bytes_insert _ _ p) by done. unfold in_flight at 2. simpl.
    unfold positive in Hnow. rewrite Hnow.
    destruct (in_flight p); injection Efl as <- <-; rewrite Hb, ?u64_sub_l, u64_add_l; f_equal; lia.
  - rewrite (count_insert _ _ p) by done. unfold in_flight at 2. simpl.
    unfold positive in Hnow. rewrite Hnow.
    destruct (in_flight p); injection Efl as <- <-; rewrite Hc, ?u32_add_l; f_equal; lia.
Qed.

Lemma PacketSent_total c acc ack sq sz now :
  inv c acc ack → is_Some (PacketSent sq sz now c).
Proof.
  intros [Hs Ht _ _]. unfold PacketSent. destruct (_ || _); [by eexists|].
  destruct (find_slot_Some (inflightPackets c) 0 None D.infinity) as [j Hj].
  { left. destruct (inflightPackets c) as [|p ps]; [done|].
    exists p. split; [apply list_elem_of_here|]. right.
    by apply Forall_inv in Ht as [_ Hfin]. }
  rewrite Hj. simpl. destruct (find_slot_range _ _ _ _ _ Hj) as [[]|Hr].
  destruct (lookup_lt_is_Some_2 (inflightPackets c) j) as [p ->]; [lia|].
  simpl. destruct (if in_flight p then _ else _). by eexists.
Qed.

Lemma congestion_ctor_inv w : inv (ctor w) 0 0.
Proof.
  constructor; [reflexivity| |reflexivity..].
  apply (Forall_replicate good_slot 100). by split.
Qed.

Lemma run_inv_gen l c acc ack :
  Forall wf_event l → inv c acc ack →
  ∃ c' acc' ack', run c l acc ack = Some (c', acc', ack') ∧ inv c' acc' ack'.
Proof.
  intros Hl. revert c acc ack. induction Hl as [|e l He Hl IH]; intros c acc ack Hinv; simpl.
  { by exists c, acc, ack. }
  assert (∃ c1, apply_event c e = Some c1 ∧
     inv c1 (acc + if accepts c e then 1 else 0) (ack + if acknowledges c e then 1 else 0))
    as (c1 & -> & Hc1); [|by apply IH].
  destruct e as [sq sz now|sq now|now].
  - destruct (PacketSent_total c acc ack sq sz now Hinv) as [c1 Hc1].
    destruct He as (_ & _ & Hpos & Hfin). exists c1. split; [done|].
    rewrite Z.add_0_r. by eapply PacketSent_inv.
  - eexists. split; [done|]. simpl (accepts _ _). rewrite Z.add_0_r.
    by apply PacketAcknowledged_inv.
  - eexists. split; [done|]. simpl. rewrite !Z.add_0_r. by apply Tick_inv.
Qed.

(** C39. Packet accounting: any history of sends, acknowledgements and ticks
    with positive finite clock readings runs to its end (no assertion
    fails), and then the bytes in flight equal (modulo 2^64) the sizes of
    the tracked packets that are neither acknowledged nor expired, and the
    loss counter equals (modulo 2^32) packets accepted minus acknowledged
    minus still in flight: none is counted twice and none is forgotten. *)
Theorem congestion_accounting window l :
  Forall wf_event l →
  ∃ c acc ack, run (ctor window) l 0 0 = Some (c, acc, ack) ∧
  inflightDataSize c = u64 (bytes_in_flight (inflightPackets c)) ∧
  GetSendLossCount c = u32 (acc - ack - count_in_flight (inflightPackets c)).
Proof.
  intros Hl.
  destruct (run_inv_gen l _ 0 0 Hl (congestion_ctor_inv window)) as (c & acc & ack & Hrun & [_ _ Hb Hc]).
  by exists c, acc, ack.
Qed.
End facts.

Section witness.
Import CongestionControl.

Lemma congestion_accounting_witness :
  ∃ c acc ack, run (ctor 1024) [Sent 1 100 (D.of_Z 10); Sent 2 50 (D.of_Z 11);
       Acked 1 (D.of_Z 12); Ticked (λ _, D.of_Z 14)] 0 0 = Some (c, acc, ack) ∧
    inflightDataSize c = u64 (bytes_in_flight (inflightPackets c)) ∧
    GetSendLossCount c = u32 (acc - ack - count_in_flight (inflightPackets c)).
Proof.
  apply (congestion_accounting 1024 [Sent 1 100 (D.of_Z 10); Sent 2 50 (D.of_Z 11);
       Acked 1 (D.of_Z 12); Ticked (λ _, D.of_Z 14)]).
  repeat constructor; simpl; try lia; reflexivity.
Defined.
End witness.
