(* ===== verification/Link.v ===== *)
(** * libtgvoip/VoIPController.cpp: sequence numbers, acknowledgements, reliable data

    The part of the controller that numbers packets and follows what the
    peer received: the window of the last 32 received packets and the
    bit mask that reports it ([WritePacketHeader], [ProcessIncomingPacket]),
    the packets sent recently, the packets repeated until they are
    acknowledged ([SendPacketReliably], [UpdateQueuedPackets]) and the extra
    data carried in every header until it is acknowledged ([SendExtra]).

    The state is the group of members of the controller these functions use.
    The clock is a parameter, read one value after the other; a [Buffer] is
    its bytes. *)

From Stdlib Require Import ZArith Lia SpecFloat List.
From stdpp Require Import base tactics list numbers option.
From S2P Require Import Prelude Words Double Memory Seq History Congestion.
From stdpp Require Import list.
Open Scope Z_scope.

Module Link.

(** [MAX_RECENT_PACKETS]. *)
Definition MAX_RECENT_PACKETS : nat := 128.

Record RecentOutgoingPacket := mkrecent { r_seq : Z; r_id : Z; sendTime : double; ackTime : double }.
#[global] Instance recent_eta : Eta RecentOutgoingPacket := λ p,
  mkrecent (r_seq p) (r_id p) (sendTime p) (ackTime p).

Record PendingOutgoingPacket := mkpending {
  p_seq : Z; p_type : Z; p_len : Z; p_data : bytes; p_endpoint : Z;
}.

Record QueuedPacket := mkqueued {
  q_data : bytes; q_type : Z; q_seqs : HistoricBuffer.t Z;
  firstSentTime : double; lastSentTime : double; retryInterval : double; timeout : double;
}.
#[global] Instance queued_eta : Eta QueuedPacket := λ p,
  mkqueued (q_data p) (q_type p) (q_seqs p) (firstSentTime p) (lastSentTime p) (retryInterval p) (timeout p).

Record UnacknowledgedExtraData := mkextra { x_type : Z; x_data : bytes; firstContainingSeq : Z }.
#[global] Instance extra_eta : Eta UnacknowledgedExtraData := λ x,
  mkextra (x_type x) (x_data x) (firstContainingSeq x).

Record t := mk {
  seq : Z;                     (** the next number to use *)
  lastRemoteSeq : Z;
  lastRemoteAckSeq : Z;
  lastSentSeq : Z;
  recentOutgoingPackets : list RecentOutgoingPacket;
  recvPacketTimes : list double;
  packetsReceived : Z;
  firstSentPing : Z;
  rttHistory : HistoricBuffer.t double;
  waitingForAcks : bool;
  dontSendPackets : Z;
  queuedPackets : list QueuedPacket;
  currentExtras : list UnacknowledgedExtraData;
  conctl : CongestionControl.t;
  ticks : nat;                 (** readings of the clock so far *)
}.
#[global] Instance link_eta : Eta t := λ s,
  mk (seq s) (lastRemoteSeq s) (lastRemoteAckSeq s) (lastSentSeq s) (recentOutgoingPackets s)
     (recvPacketTimes s) (packetsReceived s) (firstSentPing s) (rttHistory s) (waitingForAcks s)
     (dontSendPackets s) (queuedPackets s) (currentExtras s) (conctl s) (ticks s).

(** What the constructor of the controller stores; [firstSentPing] is not
    initialised by it, [window] configures the congestion control. *)
Definition ctor (garbage window : Z) : t :=
  mk 1 0 0 0 [] (replicate 32 D.zero) 0 garbage (HistoricBuffer.ctor 32) false 0 [] []
     (CongestionControl.ctor window) 0.

Section ops.
Context `{Clock}.

Definition GetCurrentTime : M t double :=
  n ← gets ticks;
  modify (λ s, s <| ticks := S n |>);;
  mret (clock n).

(** [seq++] on [std::atomic<uint32_t>]. *)
Definition GenerateOutSeq : M t Z :=
  n ← gets seq;
  modify (λ s, s <| seq := u32 (n + 1) |>);;
  mret n.

(** ** The window of received packets *)

(** One round of the loop that builds the mask. *)
Definition acks_step (acks : Z) (it : nat * double) : Z :=
  let '(i, time) := it in
  let acks := if D.gtb time D.zero then Z.lor acks 1 else acks in
  if (i <? 31)%nat then u32 (Z.shiftl acks 1) else acks.

(** "acks" of [WritePacketHeader]. *)
Definition acks_mask (s : t) : Z :=
  foldl acks_step 0%Z (zip (List.seq 0 32) (recvPacketTimes s)).

Inductive received := Accepted | Duplicated | TooLate.

(** [ProcessIncomingPacket]: the packet numbered [pseq] arrives. *)
Definition receive_seq (pseq : Z) : M t received :=
  modify (λ s, s <| packetsReceived := u32 (packetsReceived s + 1) |>);;
  s ← get;
  if seqgt pseq (lastRemoteSeq s) then
    let diff := u32 (pseq - lastRemoteSeq s) in
    (if 31 <? diff then modify (λ s, s <| recvPacketTimes := replicate 32 D.zero |>)
     else
       let d := Z.to_nat diff in
       (* memmove(&recvPacketTimes[diff], recvPacketTimes, (32-diff)*sizeof(double)) *)
       modify (λ s, s <| recvPacketTimes ::= λ ts, overwrite ts d (take (32 - d) ts) |>);;
       (if 1 <? diff then modify (λ s, s <| recvPacketTimes ::= λ ts, overwrite ts 0 (replicate d D.zero) |>)
        else mret tt);;
       now ← GetCurrentTime;
       modify (λ s, s <| recvPacketTimes ::= λ ts, <[0%nat := now]> ts |>));;
    modify (λ s, s <| lastRemoteSeq := pseq |>);;
    mret Accepted
  else if u32 (lastRemoteSeq s - pseq) <? 32 then
    let i := Z.to_nat (u32 (lastRemoteSeq s - pseq)) in
    time ← defined (recvPacketTimes s !! i);
    if negb (D.eqb time D.zero) then mret Duplicated
    else
      now ← GetCurrentTime;
      modify (λ s, s <| recvPacketTimes ::= λ ts, <[i := now]> ts |>);;
      mret Accepted
  else mret TooLate.

(** ** Packets sent *)

(** The end of [WritePacketHeader]. *)
Definition remember_sent (pseq : Z) : M t unit :=
  now ← GetCurrentTime;
  modify (λ s, s <| recentOutgoingPackets ::= λ l,
      let l := (l ++ [mkrecent pseq 0 now D.zero])%list in drop (length l - MAX_RECENT_PACKETS) l |>
    <| lastSentSeq := pseq |>).

(** The extras a header carries; the ones that travel for the first time
    remember the number of the packet. *)
Definition extras_for_header (pseq : Z) : M t (list UnacknowledgedExtraData) :=
  xs ← gets currentExtras;
  modify (λ s, s <| currentExtras ::= fmap (λ x,
    if firstContainingSeq x =? 0 then x <| firstContainingSeq := pseq |> else x) |>);;
  mret xs.

Definition WasOutgoingPacketAcknowledged (sq : Z) (s : t) : bool :=
  existsb (λ o, (r_seq o =? sq) && negb (D.eqb (ackTime o) D.zero)) (recentOutgoingPackets s).

(** ** Acknowledgements *)

Definition PacketAcknowledged (sq : Z) : M t unit :=
  now ← GetCurrentTime;
  modify (λ s, s <| conctl ::= CongestionControl.PacketAcknowledged sq now |>).

(** The body of the two nested loops over the mask and the recent packets. *)
Definition mark_one (ackId acks : Z) (i : Z) (p : RecentOutgoingPacket) : M t RecentOutgoingPacket :=
  if negb (D.eqb (ackTime p) D.zero) then mret p
  else if negb (Z.land (Z.shiftr acks (31 - i)) 1 =? 0) && (r_seq p =? u32 (ackId - (i + 1))) then
    now ← GetCurrentTime;
    PacketAcknowledged (r_seq p);;
    mret (p <| ackTime := now |>)
  else mret p.

Fixpoint mark_bits (ackId acks : Z) (bits : list nat) : M t unit :=
  match bits with
  | [] => mret tt
  | i :: bits' =>
      ps ← gets recentOutgoingPackets;
      ps ← mapM (mark_one ackId acks (Z.of_nat i)) ps;
      modify (λ s, s <| recentOutgoingPackets := ps |>);;
      mark_bits ackId acks bits'
  end.

(** Was one of the numbers of a queued packet acknowledged?  The loop over
    its [n] last numbers from the [j]-th on; [None] is an index outside. *)
Fixpoint did_ack (lastAck : Z) (recent : list RecentOutgoingPacket) (qp : QueuedPacket) (j n : nat) :
    option bool :=
  match n with
  | O => Some false
  | S n' =>
      sq ← HistoricBuffer.index (q_seqs qp) (Z.of_nat j);
      if sq =? 0 then Some false
      else
        let remoteAcksIndex := s32 (lastAck - sq) in
        if seqgt lastAck sq && (0 <=? remoteAcksIndex) && (remoteAcksIndex <? 32) &&
           existsb (λ o, (r_seq o =? sq) && D.gtb (ackTime o) D.zero) recent
        then Some true
        else did_ack lastAck recent qp (S j) n'
  end.

(** The packets that stay in the queue. *)
Fixpoint drop_acked (lastAck : Z) (recent : list RecentOutgoingPacket) (l : list QueuedPacket) :
    option (list QueuedPacket) :=
  match l with
  | [] => Some []
  | qp :: l' =>
      b ← did_ack lastAck recent qp 0 16;
      l'' ← drop_acked lastAck recent l';
      Some (if b : bool then l'' else qp :: l'')
  end.

Definition extra_acked (lastAck : Z) (x : UnacknowledgedExtraData) : bool :=
  negb (firstContainingSeq x =? 0) &&
  ((lastAck =? firstContainingSeq x) || seqgt lastAck (firstContainingSeq x)).

(** The acknowledgement part of [ProcessIncomingPacket].  The result tells
    whether sending resumes (a message that clears [dontSendPackets] is
    posted) and which extras were acknowledged, in order. *)
Definition receive_ack (ackId acks : Z) : M t (bool * list UnacknowledgedExtraData) :=
  s ← get;
  if negb (seqgt ackId (lastRemoteAckSeq s)) then mret (false, [])
  else
    let resume := waitingForAcks s && (firstSentPing s <=? lastRemoteAckSeq s) in
    (if resume then
       modify (λ s, s <| rttHistory ::= HistoricBuffer.Reset (A := double) |> <| waitingForAcks := false |>
                      <| dontSendPackets := 10 |>)
     else mret tt);;
    modify (λ s, s <| lastRemoteAckSeq := ackId |>);;
    PacketAcknowledged ackId;;
    mark_bits ackId acks (List.seq 0 31);;
    s ← get;
    qs ← defined (drop_acked ackId (recentOutgoingPackets s) (queuedPackets s));
    modify (λ s, s <| queuedPackets := qs |>);;
    let gone := filter (λ x, extra_acked ackId x = true) (currentExtras s) in
    modify (λ s, s <| currentExtras ::= filter (λ x, extra_acked ackId x = false) |>);;
    mret (resume, gone).

(** ** Data to be delivered *)

(** [SendExtra(data, type)]. *)
Fixpoint put_extra (data : bytes) (type : Z) (l : list UnacknowledgedExtraData) : list UnacknowledgedExtraData :=
  match l with
  | [] => [mkextra type data 0]
  | x :: l' => if x_type x =? type then x <| firstContainingSeq := 0 |> <| x_data := data |> :: l'
               else x :: put_extra data type l'
  end.
Definition SendExtra (data : bytes) (type : Z) : M t unit :=
  modify (λ s, s <| currentExtras ::= put_extra data type |>).

(** The queueing part of [SendPacketReliably]. *)
Definition enqueue_reliable (type : Z) (data : bytes) (retry tmo : double) : M t unit :=
  modify (λ s, s <| queuedPackets ::= λ l,
    (l ++ [mkqueued data type (HistoricBuffer.ctor 16) D.zero D.zero retry tmo])%list |>).

(** One round of the loop of [UpdateQueuedPackets]: the packet that stays,
    and the packet to send with the delay of the next update. *)
Definition update_queued (qp : QueuedPacket) :
    M t (option QueuedPacket * option (PendingOutgoingPacket * double)) :=
  now0 ← GetCurrentTime;
  if D.gtb (timeout qp) D.zero && D.gtb (firstSentTime qp) D.zero &&
     D.geb (D.sub now0 (firstSentTime qp)) (timeout qp)
  then mret (None, None)
  else
    now1 ← GetCurrentTime;
    if D.geb (D.sub now1 (lastSentTime qp)) (retryInterval qp) then
      sq ← GenerateOutSeq;
      now2 ← GetCurrentTime;
      let qp := qp <| q_seqs ::= HistoricBuffer.Add sq |> <| lastSentTime := now2 |> in
      let qp := if D.eqb (firstSentTime qp) D.zero then qp <| firstSentTime := now2 |> else qp in
      mret (Some qp, Some (mkpending sq (q_type qp) (zlen (q_data qp)) (q_data qp) 0, retryInterval qp))
    else mret (Some qp, None).

(** The packets to send, with the delays after which to update again. *)
Definition update_queued_packets : M t (list (PendingOutgoingPacket * double)) :=
  l ← gets queuedPackets;
  rs ← mapM update_queued l;
  modify (λ s, s <| queuedPackets := omap fst rs |>);;
  mret (omap snd rs).

(** ** Round-trip time *)

Definition GetAverageRTT (s : t) : double :=
  if (lastRemoteAckSeq s <=? lastSentSeq s) && (u32 (lastSentSeq s - lastRemoteAckSeq s) <? 32) then
    let acked := filter (λ p, D.gtb (ackTime p) D.zero = true) (recentOutgoingPackets s) in
    let res := foldl (λ r p, D.add r (D.sub (ackTime p) (sendTime p))) D.zero acked in
    if (0 <? length acked)%nat then D.div res (D.of_Z (zlen acked)) else res
  else D.of_Z 999.
End ops.
End Link.

(* ================================================================== *)
(** ** Bit masks built most significant bit first *)

Section bit_list.
Definition bits_val (bs : list bool) : Z := foldl (λ v b, 2 * v + Z.b2z b) 0 bs.

Lemma bits_val_snoc bs b : bits_val (bs ++ [b]) = 2 * bits_val bs + Z.b2z b.
Proof. unfold bits_val. by rewrite foldl_app. Qed.

Lemma bits_val_range bs : 0 ≤ bits_val bs < 2 ^ zlen bs.
Proof.
  induction bs as [|b bs IH] using rev_ind; [done|].
  rewrite bits_val_snoc, zlen_app. change (zlen [b]) with 1. rewrite Z.pow_add_r by auto with tg lia.
  destruct b; simpl Z.b2z; lia.
Qed.

Lemma bits_val_testbit bs i b :
  bs !! i = Some b → Z.testbit (bits_val bs) (zlen bs - 1 - Z.of_nat i) = b.
Proof.
  revert i. induction bs as [|b' bs IH] using rev_ind; intros i Hi; [done|].
  rewrite bits_val_snoc, zlen_app. change (zlen [b']) with 1.
  destruct (decide (i = length bs)) as [->|Hne].
  - rewrite lookup_app_r, Nat.sub_diag in Hi by done. simplify_eq/=.
    unfold zlen. replace (_ + 1 - 1 - _) with 0 by lia. apply Z.testbit_0_r.
  - assert (i < length bs)%nat.
    { apply lookup_lt_Some in Hi. rewrite length_app in Hi. simpl in Hi. lia. }
    rewrite lookup_app_l in Hi by done. rewrite <- (IH i Hi).
    replace (zlen bs + 1 - 1 - Z.of_nat i) with (Z.succ (zlen bs - 1 - Z.of_nat i)) by lia.
    apply Z.testbit_succ_r. unfold zlen. lia.
Qed.

Lemma zip_snoc {A B} (l1 : list A) (l2 : list B) x y :
  length l1 = length l2 → zip (l1 ++ [x]) (l2 ++ [y]) = (zip l1 l2 ++ [(x, y)])%list.
Proof. intros. by rewrite zip_with_app. Qed.

Lemma lor_even (v : Z) (b : bool) : (if b then Z.lor (2 * v) 1 else 2 * v) = 2 * v + Z.b2z b.
Proof.
  destruct b; simpl Z.b2z; [|lia]. pose proof (Z.add_lor_land (2 * v) 1) as H.
  assert (Z.land (2 * v) 1 = 0) as H0; [|lia].
  change 1 with (Z.ones 1). rewrite Z.land_ones by lia. change (2 ^ 1) with 2. rewrite Z.mul_comm. apply Z.mod_mul. lia.
Qed.

Lemma foldl_acks (ts : list double) :
  (length ts ≤ 31)%nat →
  foldl Link.acks_step 0 (zip (List.seq 0 (length ts)) ts)
  = 2 * bits_val ((λ x, D.gtb x D.zero) <$> ts).
Proof.
  induction ts as [|x ts IH] using rev_ind; intros Hl; [done|].
  rewrite length_app in *. simpl in Hl. rewrite Nat.add_1_r, seq_S, zip_snoc by (by rewrite length_seq).
  rewrite foldl_app, IH by lia. rewrite fmap_app. simpl fmap. rewrite bits_val_snoc. cbn [foldl Link.acks_step]. rewrite Nat.add_0_l.
  rewrite (proj2 (Nat.ltb_lt (length ts) 31)) by lia.
  assert (0 ≤ bits_val ((λ x, D.gtb x D.zero) <$> ts) < 1073741824) as Hv.
  { pose proof (bits_val_range ((λ x, D.gtb x D.zero) <$> ts)) as Hr. rewrite zlen_fmap in Hr.
    assert (2 ^ zlen ts ≤ 2 ^ 30) by (apply Z.pow_le_mono_r; unfold zlen; lia).
    change 1073741824 with (2 ^ 30). lia. }
  clear IH. generalize dependent (bits_val ((λ x, D.gtb x D.zero) <$> ts)). intros v Hv.
  rewrite lor_even, Z.shiftl_mul_pow2 by lia. change (2 ^ 1) with 2.
  rewrite u32_small; destruct (D.gtb x D.zero); simpl Z.b2z; lia.
Qed.

(** The mask has the bit of the [i]-th last packet at position [31 - i]. *)
Lemma acks_mask_testbit (s : Link.t) (i : nat) x :
  length (Link.recvPacketTimes s) = 32%nat → Link.recvPacketTimes s !! i = Some x →
  Z.testbit (Link.acks_mask s) (31 - Z.of_nat i) = D.gtb x D.zero.
Proof.
  intros Hl Hi. unfold Link.acks_mask. set (ts := Link.recvPacketTimes s) in *.
  assert (∃ ts' y, ts = ts' ++ [y] ∧ length ts' = 31%nat) as (ts' & y & Hts & Hl').
  { destruct (exists_last (l := ts)) as (ts' & y & E); [by destruct ts|]. exists ts', y. split; [done|].
    rewrite E, length_app in Hl. simpl in Hl. lia. }
  assert (foldl Link.acks_step 0 (zip (List.seq 0 32) ts) = bits_val ((λ x, D.gtb x D.zero) <$> ts)) as ->.
  { rewrite Hts. rewrite (seq_S 31), zip_snoc by (by rewrite length_seq).
    rewrite foldl_app. rewrite <- Hl', foldl_acks by lia. simpl. rewrite Hl'. simpl.
    rewrite fmap_app. simpl fmap. rewrite bits_val_snoc.
    apply lor_even. }
  assert (((λ x, D.gtb x D.zero) <$> ts) !! i = Some (D.gtb x D.zero)) as Hb
    by (rewrite list_lookup_fmap, Hi; done).
  apply bits_val_testbit in Hb. rewrite <- Hb. f_equal. rewrite zlen_fmap. unfold zlen. rewrite Hl. lia.
Qed.
End bit_list.

(* ================================================================== *)
(** ** The window of received packets *)

(** What the peer is told: the highest number received, unwrapped, and the
    numbers recorded. *)
Module Window.
Record t := mk { top : Z; have : list Z }.

Definition empty : t := mk 0 [].

(** A number too far ahead empties the record of the last 32 packets and is
    not recorded itself. *)
Definition step (n : Z) (w : t) : Link.received * t :=
  if top w <? n then
    (Link.Accepted, mk n (if 31 <? n - top w then have w else n :: have w))
  else if top w - n <? 32 then
    if bool_decide (n ∈ have w) then (Link.Duplicated, w) else (Link.Accepted, mk (top w) (n :: have w))
  else (Link.TooLate, w).

Fixpoint run (ns : list Z) (w : t) : list Link.received * t :=
  match ns with
  | [] => ([], w)
  | n :: ns' => let '(a, w) := step n w in let '(l, w) := run ns' w in (a :: l, w)
  end.

(** Every packet is within half the sequence space of the last one. *)
Fixpoint in_reach (ns : list Z) (w : t) : Prop :=
  match ns with
  | [] => True
  | n :: ns' => Z.abs (n - top w) < 2147483648 ∧ in_reach ns' (step n w).2
  end.

Fixpoint receive `{Clock} (ns : list Z) : M Link.t (list Link.received) :=
  match ns with
  | [] => mret []
  | n :: ns' => a ← Link.receive_seq n; l ← receive ns'; mret (a :: l)
  end.
End Window.

Section window.
Context `{Clock} (clock_positive : ∀ n, D.gtb (clock n) D.zero = true).
Import Link.
Implicit Types (s : Link.t) (w : Window.t).

(** An entry of the array says whether the packet was recorded. *)
Definition entry (b : bool) (x : double) : Prop := D.gtb x D.zero = b ∧ D.eqb x D.zero = negb b.

Lemma entry_now n : entry true (clock n).
Proof.
  split; [apply clock_positive|]. specialize (clock_positive n). generalize clock_positive.
  unfold D.gtb, D.ltb, D.eqb, SFltb, SFeqb. destruct (clock n) as [b|b| |b m e]; try destruct b; simpl; congruence.
Qed.
Lemma entry_zero : entry false D.zero.
Proof. done. Qed.

Record window_rel s w : Prop := {
  rel_len : length (recvPacketTimes s) = 32%nat;
  rel_top : lastRemoteSeq s = u32 (Window.top w);
  rel_bits : ∀ i x, recvPacketTimes s !! i = Some x →
    entry (bool_decide (Window.top w - Z.of_nat i ∈ Window.have w)) x;
  rel_have : Forall (λ n, n ≤ Window.top w) (Window.have w);
}.

Lemma lookup_shifted (ts : list double) d i :
  length ts = 32%nat → (d ≤ 31)%nat →
  overwrite ts d (take (32 - d) ts) !! i = if bool_decide (d ≤ i < 32)%nat then ts !! (i - d)%nat else ts !! i.
Proof.
  intros Hl Hd. rewrite lookup_overwrite by (rewrite length_take; lia).
  rewrite length_take. case_bool_decide as Hi.
  - rewrite bool_decide_eq_true_2 by lia. apply lookup_take_lt. lia.
  - case_bool_decide; [lia|done].
Qed.

Lemma length_shifted (ts : list double) d :
  length ts = 32%nat → (d ≤ 31)%nat → length (overwrite ts d (take (32 - d) ts)) = 32%nat.
Proof. intros Hl Hd. rewrite length_overwrite; [done|]. rewrite length_take. lia. Qed.

(** The array after a packet [d] ahead. *)
Lemma lookup_moved (ts : list double) d now i x :
  length ts = 32%nat → (1 ≤ d ≤ 31)%nat →
  let ts1 := overwrite ts d (take (32 - d) ts) in
  let ts2 := if 1 <? Z.of_nat d then overwrite ts1 0 (replicate d D.zero) else ts1 in
  <[0%nat := now]> ts2 !! i = Some x →
  (i = 0%nat ∧ x = now) ∨ ((0 < i < d)%nat ∧ x = D.zero) ∨ ((d ≤ i)%nat ∧ ts !! (i - d)%nat = Some x).
Proof.
  intros Hl Hd ts1 ts2. pose proof (length_shifted ts d Hl ltac:(lia)) as Hl1. fold ts1 in Hl1.
  assert (length ts2 = 32%nat) as Hl2.
  { unfold ts2. destruct (1 <? Z.of_nat d); [|done]. rewrite length_overwrite; [done|]. rewrite length_replicate. lia. }
  destruct i as [|i]; [rewrite list_lookup_insert_eq by lia; naive_solver|].
  rewrite list_lookup_insert_ne by done. unfold ts2. destruct (Z.ltb_spec 1 (Z.of_nat d)).
  - rewrite lookup_overwrite by (rewrite length_replicate; lia). rewrite length_replicate.
    case_bool_decide.
    + rewrite lookup_replicate. intros [-> ?]. right; left. split; [lia|done].
    + intros Hx. right; right. split; [lia|]. pose proof (lookup_lt_Some _ _ _ Hx). revert Hx. unfold ts1.
      rewrite lookup_shifted by lia. by rewrite bool_decide_eq_true_2 by lia.
  - intros Hx. right; right. split; [lia|]. pose proof (lookup_lt_Some _ _ _ Hx). revert Hx. unfold ts1.
    rewrite lookup_shifted by lia. by rewrite bool_decide_eq_true_2 by lia.
Qed.

Lemma u32_diff a b : 0 ≤ a - b < 4294967296 → u32 (u32 a - u32 b) = a - b.
Proof. intros. rewrite u32_sub. by apply u32_small. Qed.

Lemma receive_seq_step s w n :
  window_rel s w → Z.abs (n - Window.top w) < 2147483648 →
  ∃ s', receive_seq (u32 n) s = Ret (Window.step n w).1 s' ∧ window_rel s' (Window.step n w).2.
Proof.
  intros [Hl Ht Hb Hh] Hn. unfold receive_seq, Window.step.
  unfold mbind, M_bind, modify, get, gets, mret, M_ret, GetCurrentTime.
  cbn -[u32 seqgt Z.sub Z.ltb replicate overwrite take Z.to_nat].
  rewrite Ht, seqgt_unwrap by done. destruct (Z.ltb_spec (Window.top w) n) as [Hlt|Hge].
  - rewrite u32_diff by lia. destruct (Z.ltb_spec 31 (n - Window.top w)) as [Hfar|Hnear].
    + eexists. split; [reflexivity|]. constructor; cbn; [done|done| |].
      * intros i x Hx. apply (lookup_replicate 32) in Hx as [-> Hi]. rewrite bool_decide_eq_false_2; [apply entry_zero|].
        intros Hin. rewrite Forall_forall in Hh. apply Hh in Hin. lia.
      * eapply Forall_impl; [exact Hh|]. simpl. lia.
    + assert (∃ d, n - Window.top w = Z.of_nat d ∧ (1 ≤ d ≤ 31)%nat) as (d & Hd & Hd')
        by (exists (Z.to_nat (n - Window.top w)); lia).
      rewrite Hd, Nat2Z.id. pose proof (λ now i x, lookup_moved (recvPacketTimes s) d now i x Hl Hd') as Hmv.
      cbv zeta in Hmv. unfold gets, modify, mret, M_ret, mbind, M_bind.
      assert (∀ i x, (i = 0%nat ∧ x = clock (ticks s)) ∨ ((0 < i < d)%nat ∧ x = D.zero) ∨
                ((d ≤ i)%nat ∧ recvPacketTimes s !! (i - d)%nat = Some x) →
                entry (bool_decide (n - Z.of_nat i ∈ n :: Window.have w)) x) as Hentry.
      { intros i x [[-> ->]|[[Hi ->]|[Hi Hx]]].
        - rewrite bool_decide_eq_true_2 by (rewrite Z.sub_0_r; left). apply entry_now.
        - rewrite bool_decide_eq_false_2; [apply entry_zero|]. rewrite elem_of_cons. intros [?|Hin]; [lia|].
          rewrite Forall_forall in Hh. apply Hh in Hin. lia.
        - specialize (Hb _ _ Hx). replace (Window.top w - Z.of_nat (i - d)) with (n - Z.of_nat i) in Hb by lia.
          erewrite bool_decide_ext; [exact Hb|]. rewrite elem_of_cons. split; [|by right]. intros [?|?]; [lia|done]. }
      assert (Forall (λ m, m ≤ n) (n :: Window.have w)) as Hall.
      { constructor; [lia|]. eapply Forall_impl; [exact Hh|]. simpl. lia. }
      assert (length (overwrite (recvPacketTimes s) d (take (32 - d) (recvPacketTimes s))) = 32%nat) as Hl1
        by (by apply length_shifted; [|lia]).
      destruct (1 <? Z.of_nat d); eexists; (split; [reflexivity|]); constructor; cbn -[overwrite replicate take]; try done.
      * rewrite length_insert, length_overwrite; [done|]. rewrite length_replicate. lia.
      * intros i x Hx. by apply Hentry, Hmv.
      * by rewrite length_insert.
      * intros i x Hx. by apply Hentry, Hmv.
  - rewrite u32_diff by lia. destruct (Z.ltb_spec (Window.top w - n) 32) as [Hin|Hout].
    + destruct (lookup_lt_is_Some_2 (recvPacketTimes s) (Z.to_nat (Window.top w - n))) as [x Hx]; [lia|].
      pose proof (Hb _ _ Hx) as [_ Hz]. rewrite Z2Nat.id in Hz by lia.
      replace (Window.top w - (Window.top w - n)) with n in Hz by lia.
      unfold defined. rewrite Hx. cbn. rewrite Hz, negb_involutive. case_bool_decide as Hn'.
      * eexists. split; [reflexivity|]. by constructor.
      * eexists. split; [reflexivity|]. constructor; cbn; [by rewrite length_insert|done| |by constructor; [lia|]].
        intros i y Hy. destruct (decide (i = Z.to_nat (Window.top w - n))) as [->|Hi].
        -- rewrite list_lookup_insert_eq in Hy by lia. simplify_eq.
           rewrite bool_decide_eq_true_2; [apply entry_now|]. rewrite Z2Nat.id by lia.
           replace (Window.top w - (Window.top w - n)) with n by lia. left.
        -- rewrite list_lookup_insert_ne in Hy by done. specialize (Hb _ _ Hy).
           erewrite bool_decide_ext; [exact Hb|]. rewrite elem_of_cons. split; [|by right]. intros [?|?]; [lia|done].
    + eexists. split; [reflexivity|]. by constructor.
Qed.

(** The mask of a window. *)
Lemma mask_of_window s w (i : nat) :
  window_rel s w → (i < 32)%nat →
  Z.testbit (acks_mask s) (31 - Z.of_nat i) = bool_decide (Window.top w - Z.of_nat i ∈ Window.have w).
Proof.
  intros [Hl _ Hb _] Hi. destruct (lookup_lt_is_Some_2 (recvPacketTimes s) i) as [x Hx]; [lia|].
  rewrite (acks_mask_testbit s i x Hl Hx). by destruct (Hb i x Hx).
Qed.

Lemma window_rel_ctor g wd : window_rel (ctor g wd) Window.empty.
Proof.
  constructor; [done|done| |by constructor]. intros i x Hx. apply (lookup_replicate 32) in Hx as [-> Hi].
  rewrite bool_decide_eq_false_2; [apply entry_zero|]. apply not_elem_of_nil.
Qed.

Lemma receive_run ns w s :
  window_rel s w → Window.in_reach ns w →
  ∃ s', Window.receive (u32 <$> ns) s = Ret (Window.run ns w).1 s' ∧ window_rel s' (Window.run ns w).2.
Proof.
  revert w s. induction ns as [|n ns IH]; intros w s Hs Hr; [by exists s|].
  destruct Hr as [Hn Hr]. destruct (receive_seq_step s w n Hs Hn) as (s1 & E1 & Hs1).
  cbn [fmap list_fmap Window.receive Window.run]. rewrite (bind_Ret _ _ _ _ _ E1).
  destruct (Window.step n w) as [a w1]. simpl in *.
  destruct (IH w1 s1 Hs1 Hr) as (s2 & E2 & Hs2). rewrite (bind_Ret _ _ _ _ _ E2).
  destruct (Window.run ns w1) as [l w2]. by exists s2.
Qed.

(** C27. The array of reception times is the set of the packets recorded.
    Whatever packets arrive, in whatever order and across the wrap of the
    numbers, each within half the number space of the last one, every packet
    is answered as [Window.step] says and bit [31 - i] of the mask the peer
    is sent tells whether the packet [i] before the highest one was
    recorded.  A packet more than 31 ahead of the others is accepted but not
    recorded, so that it is not acknowledged and is accepted again when it
    is repeated. *)
Theorem receive_window_refines (ns : list Z) (garbage window : Z) (i : nat) :
  Window.in_reach ns Window.empty → (i < 32)%nat →
  let '(answers, w) := Window.run ns Window.empty in
  ∃ s, Window.receive (u32 <$> ns) (ctor garbage window) = Ret answers s ∧
    lastRemoteSeq s = u32 (Window.top w) ∧
    Z.testbit (acks_mask s) (31 - Z.of_nat i) = bool_decide (Window.top w - Z.of_nat i ∈ Window.have w).
Proof.
  intros Hr Hi. destruct (receive_run ns _ _ (window_rel_ctor garbage window) Hr) as (s & E & Hs).
  destruct (Window.run ns Window.empty) as [l w]. exists s. split_and!; [done|apply Hs|by apply mask_of_window].
Qed.
End window.

#[local] Existing Instance stopped.

Lemma receive_window_refines_witness :
  let '(answers, w) := Window.run [1; 2; 40; 40; 39] Window.empty in
  ∃ s, Window.receive (u32 <$> [1; 2; 40; 40; 39]) (Link.ctor 0 1024) = Ret answers s ∧
    Link.lastRemoteSeq s = u32 (Window.top w) ∧
    Z.testbit (Link.acks_mask s) (31 - Z.of_nat 1) = bool_decide (Window.top w - Z.of_nat 1 ∈ Window.have w).
Proof.
  apply (@receive_window_refines stopped (λ _, eq_refl) [1; 2; 40; 40; 39] 0 1024 1); [|lia].
  vm_compute. intuition congruence.
Defined.

(* ================================================================== *)
(** ** Acknowledgements *)

Section acknowledgements.
Context `{Clock} (clock_positive : ∀ n, D.gtb (clock n) D.zero = true).
Import Link.
Implicit Types (s : Link.t) (p : RecentOutgoingPacket) (qp : QueuedPacket).

Definition acked p : bool := negb (D.eqb (ackTime p) D.zero).
Definition marks (ackId acks : Z) (i : nat) p : bool :=
  Z.testbit acks (31 - Z.of_nat i) && (r_seq p =? u32 (ackId - (Z.of_nat i + 1))).

(** A packet that was marked, or not, now carries a time of acknowledgement
    accordingly. *)
Definition marked_to (b : bool) p p' : Prop :=
  r_seq p' = r_seq p ∧ acked p' = acked p || b ∧ (p' = p ∨ D.gtb (ackTime p') D.zero = true).

(** The histories of the queued packets have their sixteen entries. *)
Definition queue_wf s : Prop :=
  Forall (λ qp, HistoricBuffer.wf (q_seqs qp) ∧ HistoricBuffer.size (q_seqs qp) = 16) (queuedPackets s).

Lemma bit_testbit z i : 0 ≤ i → negb (Z.land (Z.shiftr z i) 1 =? 0) = Z.testbit z i.
Proof.
  intros Hi. rewrite <- (Z.add_0_l i) at 2. rewrite <- Z.shiftr_spec by lia.
  generalize (Z.shiftr z i). intros v. rewrite Z.bit0_odd.
  change 1 with (Z.ones 1). rewrite Z.land_ones, Zmod_odd by lia. by destruct (Z.odd v).
Qed.

Lemma mark_one_run ackId acks (i : nat) p s :
  (i < 32)%nat →
  ∃ p' c k, mark_one ackId acks (Z.of_nat i) p s = Ret p' (s <| conctl := c |> <| ticks := k |>) ∧
    marked_to (marks ackId acks i p) p p'.
Proof.
  intros Hi. assert (s = s <| conctl := conctl s |> <| ticks := ticks s |>) as Hs by (by destruct s).
  unfold mark_one, marked_to, acked, marks. destruct (D.eqb (ackTime p) D.zero) eqn:Ht; simpl negb; cbv iota.
  2:{ exists p, (conctl s), (ticks s). rewrite <- Hs, Ht. naive_solver. }
  rewrite bit_testbit by lia.
  destruct (Z.testbit acks (31 - Z.of_nat i) && (r_seq p =? u32 (ackId - (Z.of_nat i + 1)))).
  - eexists _, _, _. split; [reflexivity|]. split; [done|].
    change (negb (D.eqb (clock (ticks s)) D.zero) = true ∧
            (p <| ackTime := clock (ticks s) |> = p ∨ D.gtb (clock (ticks s)) D.zero = true)).
    rewrite (proj2 (entry_now clock_positive (ticks s))), clock_positive. auto.
  - exists p, (conctl s), (ticks s). rewrite <- Hs, Ht. naive_solver.
Qed.

Lemma mark_all_run ackId acks (i : nat) ps s :
  (i < 32)%nat →
  ∃ ps' c k, mapM (mark_one ackId acks (Z.of_nat i)) ps s = Ret ps' (s <| conctl := c |> <| ticks := k |>) ∧
    Forall2 (λ p p', marked_to (marks ackId acks i p) p p') ps ps'.
Proof.
  intros Hi. revert s. induction ps as [|p ps IH]; intros s.
  - exists [], (conctl s), (ticks s). split; [by destruct s|constructor].
  - destruct (mark_one_run ackId acks i p s Hi) as (p' & c & k & E & Hp).
    destruct (IH (s <| conctl := c |> <| ticks := k |>)) as (ps' & c' & k' & E' & Hps).
    exists (p' :: ps'), c', k'. split; [|by constructor]. cbn [mapM].
    rewrite (bind_Ret _ _ _ _ _ E), (bind_Ret _ _ _ _ _ E'). done.
Qed.

Lemma mark_bits_run ackId acks bits s :
  Forall (λ i, i < 32)%nat bits →
  ∃ ps' c k, mark_bits ackId acks bits s
      = Ret tt (s <| recentOutgoingPackets := ps' |> <| conctl := c |> <| ticks := k |>) ∧
    Forall2 (λ p p', marked_to (existsb (λ i, marks ackId acks i p) bits) p p')
      (recentOutgoingPackets s) ps'.
Proof.
  intros Hb. revert s. induction Hb as [|i bits Hi Hb IH]; intros s.
  - exists (recentOutgoingPackets s), (conctl s), (ticks s). split; [by destruct s|].
    apply Forall_Forall2_diag, Forall_true. intros p. unfold marked_to. simpl. rewrite orb_false_r. auto.
  - destruct (mark_all_run ackId acks i (recentOutgoingPackets s) s Hi) as (ps1 & c1 & k1 & E1 & H1).
    set (s1 := s <| conctl := c1 |> <| ticks := k1 |> <| recentOutgoingPackets := ps1 |>).
    destruct (IH s1) as (ps2 & c2 & k2 & E2 & H2).
    exists ps2, c2, k2. split.
    + cbn [mark_bits]. rewrite (bind_Ret _ _ s (recentOutgoingPackets s) s) by done.
      rewrite (bind_Ret _ _ _ _ _ E1). exact E2.
    + change (recentOutgoingPackets s1) with ps1 in H2.
      eapply Forall2_trans; [|exact H1|exact H2]. simpl. intros p p1 p2 (Hq1 & Ha1 & He1) (Hq2 & Ha2 & He2).
      split; [congruence|]. split; [|destruct He2 as [->|]; auto]. rewrite Ha2, Ha1, <- orb_assoc. f_equal. f_equal.
      clear -Hq1. induction bits as [|j bits IH]; [done|]. simpl. rewrite IH. unfold marks. by rewrite Hq1.
Qed.

Lemma did_ack_total lastAck recent qp j n :
  HistoricBuffer.wf (q_seqs qp) → HistoricBuffer.size (q_seqs qp) = 16 → (j + n ≤ 16)%nat →
  is_Some (did_ack lastAck recent qp j n).
Proof.
  intros Hw Hs. revert j. induction n as [|n IH]; intros j Hj; [by eexists|]. cbn [did_ack].
  destruct (HistoricBuffer.index (q_seqs qp) (Z.of_nat j)) as [sq|] eqn:E.
  2:{ apply not_eq_None_Some in E; [done|]. apply index_is_Some; [done|lia]. }
  simpl. destruct (sq =? 0); [by eexists|]. destruct (_ && _); [by eexists|]. apply IH. lia.
Qed.

Lemma drop_acked_total lastAck recent l :
  Forall (λ qp, HistoricBuffer.wf (q_seqs qp) ∧ HistoricBuffer.size (q_seqs qp) = 16) l →
  ∃ l', drop_acked lastAck recent l = Some l' ∧
    ∀ qp, qp ∈ l' ↔ qp ∈ l ∧ did_ack lastAck recent qp 0 16 = Some false.
Proof.
  induction 1 as [|qp l [Hw Hs] _ (l' & E & IH)].
  - exists []. split; [done|]. intros qp. rewrite elem_of_nil. naive_solver.
  - destruct (did_ack_total lastAck recent qp 0 16 Hw Hs ltac:(lia)) as [b Hb].
    exists (if b then l' else qp :: l'). cbn [drop_acked]. rewrite Hb. cbn. rewrite E. split; [done|].
    intros qp'. destruct b; rewrite ?elem_of_cons, IH, ?elem_of_cons; naive_solver congruence.
Qed.

(** What the acknowledgement part does to the state. *)
Lemma receive_ack_run ackId acks s :
  queue_wf s → seqgt ackId (lastRemoteAckSeq s) = true →
  ∃ res s', receive_ack ackId acks s = Ret res s' ∧ lastRemoteAckSeq s' = ackId ∧ Link.seq s' = Link.seq s ∧
    Forall2 (λ p p', marked_to (existsb (λ i, marks ackId acks i p) (List.seq 0 31)) p p')
      (recentOutgoingPackets s) (recentOutgoingPackets s') ∧
    (∀ qp, qp ∈ queuedPackets s' ↔
       qp ∈ queuedPackets s ∧ did_ack ackId (recentOutgoingPackets s') qp 0 16 = Some false) ∧
    currentExtras s' = filter (λ x, extra_acked ackId x = false) (currentExtras s) ∧
    res.2 = filter (λ x, extra_acked ackId x = true) (currentExtras s).
Proof.
  intros Hq Hgt. unfold receive_ack. rewrite (bind_Ret _ _ s s s) by done. rewrite Hgt. cbn [negb].
  set (resume := waitingForAcks s && (firstSentPing s <=? lastRemoteAckSeq s)).
  set (s1 := if resume then s <| rttHistory ::= HistoricBuffer.Reset (A := double) |> <| waitingForAcks := false |>
                              <| dontSendPackets := 10 |> else s).
  rewrite (bind_Ret _ _ s tt s1) by (by unfold s1; destruct resume).
  assert (recentOutgoingPackets s1 = recentOutgoingPackets s ∧ queuedPackets s1 = queuedPackets s ∧
          currentExtras s1 = currentExtras s ∧ Link.seq s1 = Link.seq s) as (Hr & Hqs & Hx & Hsq) by (unfold s1; by destruct resume).
  clearbody s1. set (s2 := s1 <| lastRemoteAckSeq := ackId |>).
  rewrite (bind_Ret _ _ s1 tt s2) by done.
  set (s3 := s2 <| ticks := S (ticks s2) |>
                <| conctl ::= CongestionControl.PacketAcknowledged ackId (clock (ticks s2)) |>).
  rewrite (bind_Ret _ _ s2 tt s3) by done.
  destruct (mark_bits_run ackId acks (List.seq 0 31) s3) as (ps & c & k & E & Hps).
  { apply Forall_forall. intros i Hi%elem_of_seq. lia. }
  rewrite (bind_Ret _ _ _ _ _ E). set (s4 := s3 <| recentOutgoingPackets := ps |> <| conctl := c |> <| ticks := k |>).
  rewrite (bind_Ret _ _ s4 s4 s4) by done.
  change (queuedPackets s4) with (queuedPackets s1). rewrite Hqs.
  change (currentExtras s4) with (currentExtras s1). rewrite Hx.
  change (recentOutgoingPackets s4) with ps. change (recentOutgoingPackets s3) with (recentOutgoingPackets s1) in Hps.
  rewrite Hr in Hps. destruct (drop_acked_total ackId ps (queuedPackets s) Hq) as (qs & Eq & Hqs').
  unfold defined. rewrite Eq. eexists _, _. split; [reflexivity|].
  split; [done|]. split; [exact Hsq|]. split; [exact Hps|]. split; [exact Hqs'|]. split; [|done].
  cbn. by rewrite Hx.
Qed.

Lemma existsb_marks ackId acks k p :
  is_u32 ackId → (k ≤ 31)%nat → r_seq p = u32 (ackId - Z.of_nat k) →
  existsb (λ i, marks ackId acks i p) (List.seq 0 31)
  = bool_decide (0 < k)%nat && Z.testbit acks (32 - Z.of_nat k).
Proof.
  intros Ha Hk Hp. apply eq_true_iff_eq. rewrite existsb_exists, andb_true_iff, bool_decide_eq_true. unfold marks. split.
  - intros (i & Hi%in_seq & [Hbit Heq%Z.eqb_eq]%andb_true_iff).
    assert (k = S i) as -> by (rewrite Hp in Heq; word_lia).
    split; [lia|]. by replace (32 - Z.of_nat (S i)) with (31 - Z.of_nat i) by lia.
  - intros [Hpos Hbit]. exists (pred k). rewrite in_seq, andb_true_iff, Z.eqb_eq. split_and!; [lia..| |].
    + by replace (31 - Z.of_nat (pred k)) with (32 - Z.of_nat k) by lia.
    + rewrite Hp. f_equal. lia.
Qed.

(** Both ends of a link disagree by one on the meaning of the mask.  Let
    the receiver's window stand for the set of packets it recorded, and let
    the sender process the acknowledgement that the receiver's next header
    carries.  Then, of the packets up to 31 before the acknowledged number,
    the sender takes packet [n] as received exactly when the receiver got
    packet [n + 1]: a packet lost just before a received one counts as
    acknowledged, the number acknowledged itself is not marked.  A packet
    "sent reliably" with such a number leaves the queue of packets to
    repeat although the peer never got it. *)
Theorem ack_marks_the_packet_before (r s : Link.t) (w : Window.t) (j k : nat) (p : RecentOutgoingPacket) :
  window_rel r w → queue_wf s → seqgt (u32 (Window.top w)) (lastRemoteAckSeq s) = true →
  recentOutgoingPackets s !! j = Some p → acked p = false → (k ≤ 31)%nat →
  r_seq p = u32 (Window.top w - Z.of_nat k) →
  ∃ res s', receive_ack (u32 (Window.top w)) (acks_mask r) s = Ret res s' ∧
    (∃ p', recentOutgoingPackets s' !! j = Some p' ∧ r_seq p' = r_seq p ∧
       acked p' = bool_decide (0 < k)%nat && bool_decide (Window.top w - Z.of_nat k + 1 ∈ Window.have w)) ∧
    (∀ qp, HistoricBuffer.index (q_seqs qp) 0 = Some (r_seq p) → r_seq p ≠ 0 → (0 < k)%nat →
       Window.top w - Z.of_nat k + 1 ∈ Window.have w → qp ∉ queuedPackets s').
Proof.
  intros Hw Hq Hgt Hj Hp Hk Hseq.
  destruct (receive_ack_run _ (acks_mask r) s Hq Hgt) as (res & s' & E & _ & _ & Hps & Hqs & _).
  exists res, s'. split; [exact E|]. destruct (Forall2_lookup_l _ _ _ _ _ Hps Hj) as (p' & Hj' & Hs' & Ha' & Ht').
  rewrite (existsb_marks _ _ k), Hp in Ha' by (try apply u32_range; rewrite ?u32_sub_l; done). simpl in Ha'.
  assert (acked p' = bool_decide (0 < k)%nat && bool_decide (Window.top w - Z.of_nat k + 1 ∈ Window.have w)) as Ha.
  { rewrite Ha'. case_bool_decide; [|done]. simpl.
    replace (32 - Z.of_nat k) with (31 - Z.of_nat (pred k)) by lia.
    rewrite (mask_of_window r w) by (done || lia).
    by replace (Window.top w - Z.of_nat (pred k)) with (Window.top w - Z.of_nat k + 1) by lia. }
  split; [by exists p'|]. intros qp Hi H0 Hpos Hin [_ Hack]%Hqs.
  rewrite !bool_decide_eq_true_2 in Ha by done. simpl in Ha.
  cbn [did_ack] in Hack. change (Z.of_nat 0) with 0 in Hack. rewrite Hi in Hack. simpl in Hack.
  rewrite (proj2 (Z.eqb_neq _ _) H0) in Hack.
  assert (seqgt (u32 (Window.top w)) (r_seq p) = true) as Hg.
  { rewrite Hseq, seqgt_unwrap by lia. apply Z.ltb_lt. lia. }
  assert (s32 (u32 (Window.top w) - r_seq p) = Z.of_nat k) as Hidx by (rewrite Hseq; word_lia).
  rewrite Hg, Hidx in Hack.
  assert (existsb (λ o, (r_seq o =? r_seq p) && D.gtb (ackTime o) D.zero) (recentOutgoingPackets s') = true) as He.
  { apply existsb_exists. exists p'. split; [by eapply list_elem_of_In, list_elem_of_lookup_2|].
    rewrite Hs', Z.eqb_refl. destruct Ht' as [->|Ht']; [congruence|done]. }
  rewrite He in Hack. destruct (Z.leb_spec 0 (Z.of_nat k)); [|lia]. destruct (Z.ltb_spec (Z.of_nat k) 32); [done|lia].
Qed.
End acknowledgements.

(** The example: packet 1, sent reliably, is lost; packet 2 arrives. *)
Definition ex_receiver : Link.t :=
  default (Link.ctor 0 1024) (end_state (Link.receive_seq 2 (Link.ctor 0 1024))).
Definition ex_sender : Link.t :=
  default (Link.ctor 0 1024) (end_state
    ((Link.enqueue_reliable 3 [1; 0] (D.of_dec 5 1) (D.of_Z 20);;
      l ← Link.update_queued_packets;
      sq ← Link.GenerateOutSeq;
      Link.remember_sent 1;; Link.remember_sent sq) (Link.ctor 0 1024))).
Definition ex_packet : Link.RecentOutgoingPacket := Link.mkrecent 1 0 (D.of_Z 1) D.zero.

Lemma ex_receiver_rel : window_rel ex_receiver (Window.mk 2 [2]).
Proof.
  destruct (@receive_seq_step stopped (λ _, eq_refl) (Link.ctor 0 1024) Window.empty 2) as (s & E & Hs);
    [apply window_rel_ctor|simpl; lia|]. change (u32 2) with 2 in E.
  assert (ex_receiver = s) as -> by (unfold ex_receiver; by rewrite E). exact Hs.
Qed.
Lemma ex_sender_wf : queue_wf ex_sender.
Proof. repeat constructor; vm_compute; congruence. Qed.

Lemma ack_marks_the_packet_before_witness :
  ∃ res s', Link.receive_ack (u32 2) (Link.acks_mask ex_receiver) ex_sender = Ret res s' ∧
    (∃ p', Link.recentOutgoingPackets s' !! 0%nat = Some p' ∧ Link.r_seq p' = Link.r_seq ex_packet ∧
       acked p' = bool_decide (0 < 1)%nat && bool_decide (2 - Z.of_nat 1 + 1 ∈ [2])) ∧
    (∀ qp, HistoricBuffer.index (Link.q_seqs qp) 0 = Some (Link.r_seq ex_packet) → Link.r_seq ex_packet ≠ 0 →
       (0 < 1)%nat → 2 - Z.of_nat 1 + 1 ∈ [2] → qp ∉ Link.queuedPackets s').
Proof.
  apply (@ack_marks_the_packet_before stopped (λ _, eq_refl) ex_receiver ex_sender (Window.mk 2 [2]) 0 1 ex_packet).
  - exact ex_receiver_rel.
  - exact ex_sender_wf.
  - vm_compute. reflexivity.
  - vm_compute. reflexivity.
  - reflexivity.
  - lia.
  - reflexivity.
Defined.

(* ================================================================== *)
(** ** Extra data *)

Module Sender.
Inductive op :=
| Header                        (** a packet is numbered and its header written *)
| Extra (data : bytes) (type : Z)
| Ack (ackId acks : Z).

(** The extras a packet carried, by number; the extras dropped, with the
    acknowledgement that dropped them. *)
Record log := mklog {
  sent : list (Z * list Link.UnacknowledgedExtraData);
  dropped : list (Z * Link.UnacknowledgedExtraData);
}.

Definition step `{Clock} (o : op) (l : log) : M Link.t log :=
  match o with
  | Header =>
      sq ← Link.GenerateOutSeq;
      xs ← Link.extras_for_header sq;
      Link.remember_sent sq;;
      mret (mklog ((sq, xs) :: sent l) (dropped l))
  | Extra data type => Link.SendExtra data type;; mret l
  | Ack a m =>
      r ← Link.receive_ack a m;
      mret (mklog (sent l) (((λ x, (a, x)) <$> r.2) ++ dropped l))
  end.

(** A step of the sending side: only numbers of packets that were sent are
    acknowledged, and the numbers have not wrapped yet. *)
Inductive steps `{Clock} : Link.t * log → Link.t * log → Prop :=
| do_step o s l s' l' :
    step o l s = Ret l' s' →
    (∀ a m, o = Ack a m → a ∈ (sent l).*1) →
    zlen (sent l) < 2147483646 →
    steps (s, l) (s', l').

Definition start (garbage window : Z) : Link.t * log := (Link.ctor garbage window, mklog [] []).

(** The packet with this number carried the extra. *)
Definition carried (l : log) (sq : Z) (x : Link.UnacknowledgedExtraData) : Prop :=
  ∃ xs y, (sq, xs) ∈ sent l ∧ y ∈ xs ∧ Link.x_type y = Link.x_type x ∧ Link.x_data y = Link.x_data x.
End Sender.

Section extras.
Context `{Clock} (clock_positive : ∀ n, D.gtb (clock n) D.zero = true).
Import Link Sender.

(** Every packet numbered from [firstContainingSeq] on carries the extra. *)
Definition extra_ok (l : log) (x : UnacknowledgedExtraData) : Prop :=
  firstContainingSeq x = 0 ∨
  (is_u32 (firstContainingSeq x) ∧ firstContainingSeq x < 2147483648 ∧
   ∀ sq, sq ∈ (sent l).*1 → firstContainingSeq x ≤ sq → carried l sq x).

Record sender_inv (s : Link.t) (l : log) : Prop := {
  si_seq : Link.seq s = 1 + zlen (sent l);
  si_sent : ∀ sq, sq ∈ (sent l).*1 → 1 ≤ sq < Link.seq s;
  si_queue : queuedPackets s = [];
  si_extras : Forall (extra_ok l) (currentExtras s);
  si_dropped : Forall (λ '(a, x), carried l a x) (dropped l);
}.

Lemma carried_cons l e sq x :
  carried l sq x → carried (mklog (e :: sent l) (dropped l)) sq x.
Proof. intros (xs & y & ? & ?). exists xs, y. split; [by right|done]. Qed.

Lemma put_extra_in data type l y :
  y ∈ put_extra data type l → y ∈ l ∨ firstContainingSeq y = 0.
Proof.
  induction l as [|x l IH]; simpl; [rewrite list_elem_of_singleton; intros ->; by right|].
  destruct (x_type x =? type).
  - intros [->|?]%elem_of_cons; [by right|left; by right].
  - intros [->|Hy]%elem_of_cons; [left; left|]. destruct (IH Hy); [left; by right|by right].
Qed.

Lemma header_inv s l l' s' :
  sender_inv s l → zlen (sent l) < 2147483646 → step Header l s = Ret l' s' → sender_inv s' l'.
Proof.
  intros [Hs Hl Hq Hx Hd] Hlen E. pose proof (zlen_nonneg (sent l)) as H0.
  cbv [step mbind M_bind mret M_ret gets get modify GenerateOutSeq extras_for_header remember_sent GetCurrentTime] in E.
  injection E as <- <-. constructor; cbn -[u32 zlen drop app].
  - rewrite zlen_cons, Hs, u32_small by lia. lia.
  - intros sq [->|Hin]%elem_of_cons; rewrite Hs, u32_small by lia; [lia|]. apply Hl in Hin. lia.
  - done.
  - apply Forall_fmap, Forall_forall. intros x Hin. rewrite Forall_forall in Hx. specialize (Hx x Hin). cbn.
    destruct (Z.eqb_spec (firstContainingSeq x) 0) as [Hz|Hz].
    + right. cbn. split_and!; [lia..|]. intros sq [->|Hsq]%elem_of_cons Hle; cbn.
      * exists (currentExtras s), x. split_and!; [left|done..].
      * apply Hl in Hsq. lia.
    + right. destruct Hx as [|(Hx1 & Hx2 & Hx3)]; [done|]. split_and!; [lia..|].
      intros sq [->|Hsq]%elem_of_cons Hle; cbn.
      * exists (currentExtras s), x. split_and!; [left|done..].
      * by apply carried_cons, Hx3.
  - eapply Forall_impl; [exact Hd|]. intros [a x] ?. by apply carried_cons.
Qed.

(** An acknowledgement keeps some extras and drops others, all of them
    acknowledged. *)
Lemma receive_ack_extras a m s r s' :
  queue_wf s → receive_ack a m s = Ret r s' →
  Link.seq s' = Link.seq s ∧ (queuedPackets s = [] → queuedPackets s' = []) ∧
  ∃ test : UnacknowledgedExtraData → bool, currentExtras s' = filter (λ x, test x = false) (currentExtras s) ∧
    r.2 = filter (λ x, test x = true) (currentExtras s) ∧ ∀ x, test x = true → extra_acked a x = true.
Proof.
  intros Hq E. destruct (seqgt a (lastRemoteAckSeq s)) eqn:Hgt.
  - destruct (receive_ack_run clock_positive a m s Hq Hgt) as (r' & s1 & E' & _ & Hs & _ & Hqs & Hx & Hr).
    rewrite E in E'. simplify_eq. split; [done|]. split; [|by exists (extra_acked a)].
    intros Hnil. destruct (queuedPackets s1) as [|qp l]; [done|].
    destruct (proj1 (Hqs qp)) as [Hin _]; [left|]. rewrite Hnil in Hin. by apply not_elem_of_nil in Hin.
  - unfold receive_ack in E. rewrite (bind_Ret _ _ s s s) in E by done. rewrite Hgt in E.
    injection E as <- <-. split_and!; [done|done|]. exists (λ _, false). split_and!; [| |done].
    + by induction (currentExtras s) as [|x l IH]; [|rewrite filter_cons_True, <- IH by done].
    + by induction (currentExtras s) as [|x l IH]; [|rewrite filter_cons_False by done].
Qed.

Lemma ack_inv s l a m l' s' :
  sender_inv s l → a ∈ (sent l).*1 → zlen (sent l) < 2147483646 →
  step (Ack a m) l s = Ret l' s' → sender_inv s' l'.
Proof.
  intros [Hs Hl Hq Hx Hd] Ha Hlen E. cbn [step] in E.
  apply bind_Ret_inv in E as (r & s1 & E & E1). injection E1 as <- <-.
  destruct (receive_ack_extras a m s r s1) as (Hs1 & Hq1 & test & Hx1 & Hr & Htest);
    [unfold queue_wf; rewrite Hq; constructor|done|].
  rewrite Forall_forall in Hx. constructor; simpl; rewrite ?Hs1, ?Hx1; [done|done|by apply Hq1| |].
  - apply Forall_forall. intros x [_ Hin]%list_elem_of_filter. by apply Hx.
  - apply Forall_app. split; [|exact Hd]. rewrite Hr. apply Forall_fmap, Forall_forall. simpl.
    intros x [Ht Hin]%list_elem_of_filter. apply Htest in Ht. unfold extra_acked in Ht.
    apply andb_true_iff in Ht as [Hn0%negb_true_iff%Z.eqb_neq Ht].
    destruct (Hx x Hin) as [|(Hf & Hf' & Hc)]; [done|]. apply Hc; [done|].
    apply Hl in Ha as Ha'. apply orb_true_iff in Ht as [->%Z.eqb_eq|Ht]; [lia|].
    rewrite <- (u32_small a), <- (u32_small (firstContainingSeq x)) in Ht by lia.
    rewrite seqgt_unwrap in Ht by lia. lia.
Qed.

Lemma sender_step o s l s' l' :
  step o l s = Ret l' s' → (∀ a m, o = Ack a m → a ∈ (sent l).*1) → zlen (sent l) < 2147483646 →
  sender_inv s l → sender_inv s' l'.
Proof.
  intros E Ha Hlen Hinv. destruct o as [|data type|a m].
  - by eapply header_inv.
  - destruct Hinv as [Hs Hl Hq Hx Hd]. cbv [step SendExtra mbind M_bind mret M_ret modify] in E.
    injection E as <- <-. constructor; cbn -[put_extra]; try done.
    rewrite Forall_forall in Hx |- *. intros x [Hin|Hz]%put_extra_in; [by apply Hx|by left].
  - eapply ack_inv; [exact Hinv|by eapply Ha|done|exact E].
Qed.

End extras.

(** One packet carries an extra and is acknowledged. *)
Definition ex_extra : Link.UnacknowledgedExtraData := Link.mkextra 6 [1; 2] 1.
Definition ex_run (os : list Sender.op) : Link.t * Sender.log :=
  foldl (λ '(s, l) o, match Sender.step o l s with Ret l' s' => (s', l') | _ => (s, l) end)
    (Sender.start 0 1024) os.

