(* ===== verification/MessageThread.v ===== *)
(** * libtgvoip/MessageThread.cpp: the timer thread of the controller

    A queue of closures to run, ordered by time.  [Post] and [Cancel] are
    called by other threads and, without taking the mutex again, by the
    closures the thread runs; the thread holds the mutex except while it
    waits, so a call of another thread falls between two rounds.

    Closures are named by numbers; what a closure does with the thread, a
    program of posts and cancellations that may depend on everything that
    happened before, is a parameter, and so are the readings of the clock. *)

From Stdlib Require Import ZArith Lia SpecFloat Sorting.Sorted.
From stdpp Require Import base tactics list numbers option sorting.
From S2P Require Import Prelude Words Double.
From stdpp Require Import list.
Open Scope Z_scope.

Module MessageThread.

Record Message := mkmsg { id : Z; deliverAt : double; interval : double; func : option nat }.
#[export] Instance message_eta : Eta Message := λ m, mkmsg (id m) (deliverAt m) (interval m) (func m).

(** What a closure does with the thread it runs on. *)
Inductive prog :=
| Return
| DoPost (f : option nat) (delay interval : double) (k : Z → prog)
| DoCancel (i : Z) (k : prog)
| DoCancelSelf (k : prog).

(** The program of a closure, from its name and the number of readings of
    the clock so far. *)
Class Closures := body : nat → nat → prog.

Record t := mk {
  queue : list Message;
  lastMessageID : Z;
  cancelCurrent : bool;
  ticks : nat;               (** readings of the clock so far *)
  posts : list Z;            (** history: the ids given, newest first *)
  gone : list (Z * bool);    (** history: ids no longer scheduled; [true] when delivered, [false] when cancelled *)
}.
#[export] Instance t_eta : Eta t := λ s,
  mk (queue s) (lastMessageID s) (cancelCurrent s) (ticks s) (posts s) (gone s).

Definition ctor : t := mk [] 1 false 0 [] [].

(** The loop of [InsertMessageInternal]. *)
Fixpoint insert_loop (m : Message) (q : list Message) : list Message :=
  match q with
  | [] => []
  | x :: q' =>
      if match q' with
         | [] => true
         | next :: _ => D.gtb (deliverAt next) (deliverAt m) && D.leb (deliverAt x) (deliverAt m)
         end
      then x :: m :: q'
      else x :: insert_loop m q'
  end.

Definition InsertMessageInternal (m : Message) (q : list Message) : list Message :=
  match q with
  | [] => [m]
  | x :: _ => if D.gtb (deliverAt x) (deliverAt m) then m :: q else insert_loop m q
  end.

Section ops.
Context `{Clock, Closures}.

Definition GetCurrentTime : M t double :=
  n ← gets ticks;
  modify (λ s, s <| ticks := S n |>);;
  mret (clock n).

Definition Post (f : option nat) (delay iv : double) : M t Z :=
  assert_ (D.geb delay D.zero);;
  currentTime ← GetCurrentTime;
  i ← gets lastMessageID;
  modify (λ s, s <| lastMessageID := u32 (i + 1) |> <| posts ::= cons i |>);;
  let m := mkmsg i (if D.eqb delay D.zero then D.zero else D.add currentTime delay) iv f in
  modify (λ s, s <| queue ::= InsertMessageInternal m |>);;
  mret i.

Definition Cancel (i : Z) : M t unit :=
  modify (λ s, s <| gone ::= app ((λ m, (id m, false)) <$> filter (λ m, id m = i) (queue s)) |>
                 <| queue ::= filter (λ m, id m ≠ i) |>).

Definition CancelSelf : M t unit := modify (λ s, s <| cancelCurrent := true |>).

(** A closure runs. *)
Fixpoint run (p : prog) : M t unit :=
  match p with
  | Return => mret tt
  | DoPost f delay iv k => i ← Post f delay iv; run (k i)
  | DoCancel i k => Cancel i;; run k
  | DoCancelSelf k => CancelSelf;; run k
  end.

(** After the closure: a periodic message that was not cancelled goes back. *)
Definition reschedule (m : Message) : M t unit :=
  c ← gets cancelCurrent;
  if negb c && D.gtb (interval m) D.zero then
    let m := m <| deliverAt ::= λ d, D.add d (interval m) |> in
    modify (λ s, s <| queue ::= InsertMessageInternal m |>)
  else modify (λ s, s <| gone ::= cons (id m, true) |>).

(** The body of the delivery loop of [Run]. *)
Definition deliver (m : Message) : M t unit :=
  modify (λ s, s <| cancelCurrent := false |>);;
  m ← (if D.eqb (deliverAt m) D.zero then
         now ← GetCurrentTime;
         mret (m <| deliverAt := now |>)
       else mret m);
  match func m with
  | Some f => n ← gets ticks; run (body f n)
  | None => mret tt
  end;;
  reschedule m.

Definition due (now : double) (m : Message) : bool :=
  D.eqb (deliverAt m) D.zero || D.geb now (deliverAt m).

(** The seconds to wait for, [None] for as long as nothing is posted. *)
Definition wait_timeout (now : double) (q : list Message) : option double :=
  match q with
  | [] => None
  | m :: _ => Some (D.sub (deliverAt m) now)
  end.

Fixpoint deliver_all (ms : list Message) : M t unit :=
  match ms with
  | [] => mret tt
  | m :: ms' => deliver m;; deliver_all ms'
  end.

(** A round of [Run] from the end of the wait on: the messages delivered. *)
Definition wake : M t (list Message) :=
  currentTime ← GetCurrentTime;
  q ← gets queue;
  modify (λ s, s <| queue ::= filter (λ m, due currentTime m = false) |>);;
  let msgsToDeliverNow := filter (λ m, due currentTime m = true) q in
  deliver_all msgsToDeliverNow;;
  mret msgsToDeliverNow.

(** Another thread posts or cancels, or the thread wakes up. *)
Inductive step : t → t → Prop :=
| step_Post s f delay iv i s' : Post f delay iv s = Ret i s' → step s s'
| step_Cancel s i s' : Cancel i s = Ret tt s' → step s s'
| step_wake s ms s' : wake s = Ret ms s' → step s s'.
End ops.
End MessageThread.

(* ------------------------------------------------------------------ *)
(** ** The queue *)

Section queue.
Import MessageThread.
Implicit Types (m : Message) (q : list Message).

Definition earlier (x m : Message) : Prop := D.leb (deliverAt x) (deliverAt m) = true.
#[export] Instance earlier_dec x m : Decision (earlier x m).
Proof. unfold earlier. apply _. Defined.

(** Sorted by time, and every time is one. *)
Definition timed q : Prop := Forall (λ m, is_time (deliverAt m) = true) q.
Definition sorted q : Prop := timed q ∧ StronglySorted earlier q.

Lemma sorted_head x q : sorted (x :: q) → is_time (deliverAt x) = true.
Proof. by intros [[? _]%Forall_cons _]. Qed.

Lemma earlier_trans x y z :
  is_time (deliverAt x) = true → is_time (deliverAt y) = true → is_time (deliverAt z) = true →
  earlier x y → earlier y z → earlier x z.
Proof. intros Hx Hy Hz Hxy. apply (leb_trans _ (deliverAt y)); try by apply time_num. exact Hxy. Qed.

Lemma gtb_earlier x m :
  is_time (deliverAt x) = true → is_time (deliverAt m) = true →
  D.gtb (deliverAt x) (deliverAt m) = bool_decide (¬ earlier x m).
Proof.
  intros Hx%time_num Hm%time_num. pose proof (leb_ltb _ _ Hx Hm) as E. unfold D.gtb.
  case_bool_decide as He; unfold earlier in He; rewrite E in He; by destruct (D.ltb _ _).
Qed.

(** Everything after a message that is later is later. *)
Lemma later_tail m x q :
  is_time (deliverAt m) = true → sorted (x :: q) → ¬ earlier x m → Forall (λ y, ¬ earlier y m) (x :: q).
Proof.
  intros Hm [[Hx Hq]%Forall_cons [Hs Hall]%StronglySorted_inv] Hn. constructor; [done|].
  rewrite Forall_forall in Hq, Hall |- *. intros y Hy Hym. apply Hn.
  apply (earlier_trans x y m); auto.
Qed.

Definition stable_insert m q : list Message :=
  filter (λ x, earlier x m) q ++ m :: filter (λ x, ¬ earlier x m) q.

Lemma filter_all {A} (P : A → Prop) `{∀ a, Decision (P a)} l : Forall P l → filter P l = l.
Proof. induction 1; [done|]. rewrite filter_cons_True by done. by f_equal. Qed.
Lemma filter_none {A} (P : A → Prop) `{∀ a, Decision (P a)} l : Forall (λ x, ¬ P x) l → filter P l = [].
Proof. induction 1; [done|]. by rewrite filter_cons_False. Qed.

Lemma Forall_filter {A} (P Q : A → Prop) `{∀ a, Decision (P a)} l : Forall Q l → Forall Q (filter P l).
Proof. rewrite !Forall_forall. intros HQ x [_ Hx]%list_elem_of_filter. by apply HQ. Qed.

Lemma stable_insert_later m q : Forall (λ y, ¬ earlier y m) q → stable_insert m q = m :: q.
Proof. intros Hq. unfold stable_insert. by rewrite filter_none, filter_all. Qed.

Lemma stable_insert_cons m x q : earlier x m → stable_insert m (x :: q) = x :: stable_insert m q.
Proof. intros Hx. unfold stable_insert. by rewrite filter_cons_True, (filter_cons_False (λ x, ¬ _)) by auto. Qed.

Lemma insert_loop_stable m x q :
  is_time (deliverAt m) = true → sorted (x :: q) → earlier x m → insert_loop m (x :: q) = stable_insert m (x :: q).
Proof.
  intros Hm. revert x. induction q as [|y q IH]; intros x Hs Hx; rewrite stable_insert_cons by done.
  - by rewrite stable_insert_later.
  - assert (sorted (y :: q)) as Hs'.
    { destruct Hs as [[_ ?]%Forall_cons [? _]%StronglySorted_inv]. by split. }
    cbn [insert_loop]. rewrite gtb_earlier by eauto using sorted_head.
    unfold earlier in Hx at 1. rewrite Hx, andb_true_r. case_bool_decide as Hy.
    + by rewrite stable_insert_later by (by apply later_tail).
    + f_equal. by apply IH.
Qed.

Lemma insert_stable m q :
  is_time (deliverAt m) = true → sorted q → InsertMessageInternal m q = stable_insert m q.
Proof.
  intros Hm Hs. destruct q as [|x q]; [done|]. unfold InsertMessageInternal.
  rewrite gtb_earlier by eauto using sorted_head. case_bool_decide as Hx.
  - by rewrite stable_insert_later by (by apply later_tail).
  - by apply insert_loop_stable.
Qed.

Lemma StronglySorted_filter_keep (P : Message → Prop) `{∀ x, Decision (P x)} q :
  StronglySorted earlier q → StronglySorted earlier (filter P q).
Proof.
  induction 1 as [|x q Hq IH Hall]; [constructor|]. rewrite filter_cons. destruct (decide (P x)); [|done].
  constructor; [done|]. by apply Forall_filter.
Qed.
Lemma sorted_filter (P : Message → Prop) `{∀ x, Decision (P x)} q : sorted q → sorted (filter P q).
Proof. intros [Ht Hs]. split; [by apply Forall_filter|by apply StronglySorted_filter_keep]. Qed.

Lemma insert_sorted m q : is_time (deliverAt m) = true → sorted q → sorted (InsertMessageInternal m q).
Proof.
  intros Hm Hq. rewrite insert_stable by done. unfold stable_insert. split.
  - apply Forall_app. split; [apply Forall_filter, Hq|]. constructor; [done|]. apply Forall_filter, Hq.
  - destruct Hq as [Ht Hs]. induction Hs as [|x q Hs IH Hall]; [repeat constructor|].
    apply Forall_cons in Ht as [Hx Ht]. rewrite !filter_cons. destruct (decide (earlier x m)) as [He|He].
    + rewrite decide_False by auto. simpl. constructor; [auto|].
      apply Forall_app. split; [by apply Forall_filter|]. constructor; [done|by apply Forall_filter].
    + rewrite decide_True by done.
      assert (Forall (λ y, ¬ earlier y m) q) as Hl.
      { assert (sorted (x :: q)) as Hxq by (split; by constructor).
        by apply (later_tail m x q Hm Hxq) in He as [_ ?]%Forall_cons. }
      rewrite filter_none, filter_all by done.
      simpl. constructor; [by constructor|]. constructor.
      * apply leb_total; [by apply time_num..|]. by apply not_true_iff_false.
      * rewrite Forall_forall in Hall, Ht |- *. intros y Hy. apply earlier_trans with x; auto.
        apply leb_total; [by apply time_num..|]. by apply not_true_iff_false.
Qed.

Lemma insert_perm m q : is_time (deliverAt m) = true → sorted q → InsertMessageInternal m q ≡ₚ m :: q.
Proof.
  intros Hm Hs. rewrite insert_stable by done. unfold stable_insert. rewrite <- Permutation_middle.
  constructor. clear. induction q as [|x q IH]; [done|]. rewrite !filter_cons.
  destruct (decide (earlier x m)); [rewrite decide_False by auto|rewrite decide_True by done]; simpl.
  - by constructor.
  - rewrite <- Permutation_middle. by constructor.
Qed.
End queue.

(** [InsertMessageInternal], which looks at pairs of neighbours to find
    its place, is the stable insertion by time: into a queue sorted by time
    the message goes after everything that is not later and before the rest,
    so the queue stays sorted and equal times keep the order of posting. *)
Theorem insertion_is_stable (m : MessageThread.Message) (q : list MessageThread.Message) :
  is_time (MessageThread.deliverAt m) = true → sorted q →
  MessageThread.InsertMessageInternal m q
    = filter (λ x, earlier x m) q ++ m :: filter (λ x, ¬ earlier x m) q ∧
  sorted (MessageThread.InsertMessageInternal m q).
Proof. intros. split; [by apply insert_stable|by apply insert_sorted]. Qed.

Definition ex_msg (i n : Z) : MessageThread.Message := MessageThread.mkmsg i (D.of_Z n) D.zero None.

Lemma insertion_is_stable_witness :
  MessageThread.InsertMessageInternal (ex_msg 4 2) [ex_msg 1 1; ex_msg 2 2; ex_msg 3 3]
    = filter (λ x, earlier x (ex_msg 4 2)) [ex_msg 1 1; ex_msg 2 2; ex_msg 3 3]
      ++ ex_msg 4 2 :: filter (λ x, ¬ earlier x (ex_msg 4 2)) [ex_msg 1 1; ex_msg 2 2; ex_msg 3 3] ∧
  sorted (MessageThread.InsertMessageInternal (ex_msg 4 2) [ex_msg 1 1; ex_msg 2 2; ex_msg 3 3]).
Proof.
  apply insertion_is_stable; [reflexivity|]. split; [repeat constructor|].
  repeat constructor; vm_compute; reflexivity.
Defined.

(* ------------------------------------------------------------------ *)
(** ** Every message is accounted for *)

Section accounting.
Context `{Clock, MessageThread.Closures} (clock_time : ∀ n, is_time (clock n) = true).
Import MessageThread.

(** [pending]: the messages taken out of the queue in this round that are
    not delivered yet. *)
Record timer_inv (s : MessageThread.t) (pending : list Message) : Prop := {
  ti_sorted : sorted (queue s);
  ti_pending : timed pending;
  ti_last : lastMessageID s = u32 (1 + zlen (posts s));
  ti_posts : ∀ k i, posts s !! k = Some i → i = u32 (zlen (posts s) - Z.of_nat k);
  ti_all : (id <$> queue s) ++ (id <$> pending) ++ (gone s).*1 ≡ₚ posts s;
}.

Definition only_assert (c : crash) : Prop := c = AssertFailed.
Abbreviation safe m s Q := (wp m s Q (λ _ _, False) only_assert).

Lemma timer_inv_tick s p : timer_inv s p → timer_inv (s <| ticks := S (ticks s) |>) p.
Proof. by intros []. Qed.

Lemma insert_inv s p m :
  is_time (deliverAt m) = true → timer_inv s (m :: p) →
  timer_inv (s <| queue ::= InsertMessageInternal m |>) p.
Proof.
  intros Hm [Hs [_ Hp]%Forall_cons Hl Hi Ha]. constructor; cbn -[InsertMessageInternal]; [by apply insert_sorted|done..|].
  rewrite <- Ha, insert_perm by done. cbn. by rewrite Permutation_middle.
Qed.

Lemma Post_inv f delay iv s p : timer_inv s p → safe (Post f delay iv) s (λ _ s', timer_inv s' p).
Proof.
  intros [Hs Hp Hl Hi Ha]. unfold Post. apply wp_bind. unfold assert_, wp at 1.
  destruct (D.geb delay D.zero) eqn:Hd; [|done]. apply geb_zero_time in Hd.
  cbv [mbind M_bind GetCurrentTime gets modify mret M_ret].
  set (m := mkmsg (lastMessageID s) (if D.eqb delay D.zero then D.zero else D.add (clock (ticks s)) delay) iv f).
  set (s1 := s <| ticks := S (ticks s) |> <| lastMessageID := u32 (lastMessageID s + 1) |>
               <| posts ::= cons (lastMessageID s) |>).
  change (timer_inv (s1 <| queue ::= InsertMessageInternal m |>) p).
  assert (is_time (deliverAt m) = true) as Hm.
  { simpl. destruct (D.eqb delay D.zero); [done|]. by apply add_time. }
  apply insert_inv.
  - done.
  - constructor; cbn -[m]; [done|by constructor|..].
    + rewrite zlen_cons, Hl, u32_add_l. f_equal. lia.
    + intros [|k] i; cbn; rewrite zlen_cons.
      * intros [= <-]. rewrite Hl. f_equal. lia.
      * intros Hk%Hi. rewrite Hk. f_equal. lia.
    + rewrite <- Ha. symmetry. apply Permutation_middle.
Qed.

Lemma Cancel_inv i s p : timer_inv s p → safe (Cancel i) s (λ _ s', timer_inv s' p).
Proof.
  intros [Hs Hp Hl Hi Ha]. constructor; cbn; [by apply sorted_filter|done..|].
  rewrite <- Ha, fmap_app, <- list_fmap_compose. clear.
  induction (queue s) as [|m q IH]; [done|]. rewrite !filter_cons. destruct (decide (id m = i)).
  - rewrite decide_False by auto. cbn. rewrite <- IH, !Permutation_middle. done.
  - rewrite decide_True by done. cbn. by constructor.
Qed.

Lemma run_inv pr s p : timer_inv s p → safe (run pr) s (λ _ s', timer_inv s' p).
Proof.
  revert s. induction pr as [|f d iv k IH|i k IH|k IH]; intros s Hs; cbn [run].
  - by apply wp_ret.
  - apply wp_bind. eapply wp_mono; [by apply Post_inv|]. intros. by apply IH.
  - apply wp_bind. eapply wp_mono; [by apply Cancel_inv|]. intros. by apply IH.
  - apply wp_bind, wp_modify, IH. by destruct Hs.
Qed.

Lemma deliver_inv m s p : timer_inv s (m :: p) → safe (deliver m) s (λ _ s', timer_inv s' p).
Proof.
  intros Hs. unfold deliver. apply wp_bind, wp_modify, wp_bind. cbv beta.
  assert (timer_inv (s <| cancelCurrent := false |>) (m :: p)) as Hs1 by (by destruct Hs).
  set (s1 := s <| cancelCurrent := false |>) in *. clearbody s1. clear s Hs. rename s1 into s, Hs1 into Hs.
  apply wp_mono with (Q' := λ m' s', timer_inv s' (m' :: p) ∧ func m' = func m).
  { destruct (D.eqb (deliverAt m) D.zero); [|by apply wp_ret].
    apply wp_bind. unfold wp. cbn. split; [|done]. destruct Hs as [H1 [_ H2]%Forall_cons H3 H4 H5].
    constructor; try done. constructor; [|done]. cbn. apply clock_time. }
  intros m' s' (Hs' & ->). apply wp_bind.
  apply wp_mono with (Q' := λ _ s2, timer_inv s2 (m' :: p)).
  { destruct (func m) as [f|]; [|by apply wp_ret]. apply wp_bind. unfold wp at 1. cbn [gets]. by apply run_inv. }
  intros _ s2 Hs2. unfold reschedule. apply wp_bind. unfold wp at 1. cbn [gets]. apply wp_if; intros E; apply wp_modify.
  - apply andb_true_iff in E as [_ E]. apply insert_inv.
    + cbn. apply add_time; [by destruct Hs2 as [_ [? _]%Forall_cons _ _ _]|]. by destruct (interval m') as [|[]| |[]].
    + destruct Hs2 as [H1 H2 H3 H4 H5]. constructor; try done. apply Forall_cons in H2 as [H2 H2']. constructor; [|done].
      cbn. apply add_time; [done|]. by destruct (interval m') as [|[]| |[]].
  - destruct Hs2 as [H1 [_ H2]%Forall_cons H3 H4 H5]. constructor; cbn; [done..|].
    rewrite <- H5. cbn. by rewrite <- Permutation_middle.
Qed.

Lemma deliver_all_inv ms s p : timer_inv s (ms ++ p) → safe (deliver_all ms) s (λ _ s', timer_inv s' p).
Proof.
  revert s. induction ms as [|m ms IH]; intros s Hs; cbn [deliver_all]; [by apply wp_ret|].
  apply wp_bind. eapply wp_mono; [by apply deliver_inv|]. intros. by apply IH.
Qed.

Lemma due_split now q : (id <$> filter (λ m, due now m = false) q) ++ (id <$> filter (λ m, due now m = true) q)
  ≡ₚ id <$> q.
Proof.
  induction q as [|m q IH]; [done|]. rewrite !filter_cons. destruct (due now m); simpl.
  - by rewrite <- Permutation_middle, IH.
  - by rewrite IH.
Qed.

Lemma wake_inv s : timer_inv s [] → safe wake s (λ _ s', timer_inv s' []).
Proof.
  intros [Hs Hp Hl Hi Ha]. unfold wake. apply wp_bind. unfold wp at 1. cbv [mbind M_bind GetCurrentTime gets modify mret M_ret].
  apply wp_bind, wp_mono with (Q' := λ _ s', timer_inv s' []); [apply deliver_all_inv|by intros].
  rewrite app_nil_r. constructor; cbn; [by apply sorted_filter|by apply Forall_filter, Hs|done..|].
  by rewrite <- Ha, app_assoc, due_split.
Qed.

Lemma step_inv s s' : step s s' → timer_inv s [] → timer_inv s' [].
Proof.
  intros [s0 f d iv i s1 E|s0 i s1 E|s0 ms s1 E] Hs.
  - pose proof (Post_inv f d iv s0 [] Hs) as Hw. unfold wp in Hw. by rewrite E in Hw.
  - pose proof (Cancel_inv i s0 [] Hs) as Hw. unfold wp in Hw. by rewrite E in Hw.
  - pose proof (wake_inv s0 Hs) as Hw. unfold wp in Hw. by rewrite E in Hw.
Qed.

Lemma ctor_inv : timer_inv ctor [].
Proof. constructor; [split; constructor|constructor|done|by intros|done]. Qed.

Lemma posts_NoDup s p : timer_inv s p → zlen (posts s) < 4294967296 → NoDup (posts s).
Proof.
  intros Hs Hn. apply NoDup_alt. intros j k i Hj Hk.
  pose proof (lookup_lt_Some _ _ _ Hj). pose proof (lookup_lt_Some _ _ _ Hk).
  apply (ti_posts s p) in Hj, Hk; [|done..]. unfold zlen in *. word_lia.
Qed.

(** C29. Whatever other threads post and cancel between the rounds of the
    timer thread, and whatever the closures it runs post and cancel
    themselves: the queue is sorted by time, and every message posted is
    either still scheduled, or was cancelled, or was delivered for the last
    time, exactly one of the three and once ([posts] and [gone] list the ids
    in the order things happened; ids do not repeat before 2^32 posts).  A
    round never throws and only aborts when a closure posts a negative delay. *)
Theorem timer_messages_accounted (s : MessageThread.t) :
  star step ctor s →
  sorted (queue s) ∧ (id <$> queue s) ++ (gone s).*1 ≡ₚ posts s ∧
  (zlen (posts s) < 4294967296 → NoDup (posts s)) ∧
  wp wake s (λ _ _, True) (λ _ _, False) (λ c, c = AssertFailed).
Proof.
  intros Hstar.
  assert (timer_inv s []) as Hs.
  { eapply (star_invariant step (λ s, timer_inv s [])) with (2 := Hstar); [intros; by eapply step_inv|apply ctor_inv]. }
  split_and!; [apply Hs|by rewrite <- (ti_all s [])|by eapply posts_NoDup|].
  eapply wp_mono; [by apply wake_inv|done].
Qed.
End accounting.

Section examples.
Import MessageThread.

(** Closure 0 posts a one-shot message that runs closure 1; closure 1 does
    nothing; closure 2 cancels message 2. *)
Definition ex_body : Closures := λ f _,
  match f with
  | 0%nat => DoPost (Some 1%nat) (D.of_Z 0) (D.of_Z 0) (λ _, Return)
  | 2%nat => DoCancel 2 Return
  | _ => Return
  end.
Definition ex_thread : MessageThread.t :=
  default ctor (end_state ((@Post stopped (Some 0%nat) D.zero (D.of_Z 2);; @wake stopped ex_body) ctor)).

Lemma timer_messages_accounted_witness :
  length (queue ex_thread) = 2%nat ∧
  sorted (queue ex_thread) ∧ (id <$> queue ex_thread) ++ (gone ex_thread).*1 ≡ₚ posts ex_thread ∧
  (zlen (posts ex_thread) < 4294967296 → NoDup (posts ex_thread)) ∧
  wp (@wake stopped ex_body) ex_thread (λ _ _, True) (λ _ _, False) (λ c, c = AssertFailed).
Proof.
  split; [vm_compute; reflexivity|].
  apply (@timer_messages_accounted stopped ex_body (λ _, eq_refl)).
  eapply star_step; [apply (@step_Post stopped ex_body ctor (Some 0%nat) D.zero (D.of_Z 2) 1); vm_compute; reflexivity|].
  eapply star_step; [|apply star_refl].
  eapply (@step_wake stopped ex_body). vm_compute. reflexivity.
Defined.
End examples.

(* ------------------------------------------------------------------ *)
(** ** What a round delivers *)

Section rounds.
Context `{Clock, MessageThread.Closures} (clock_time : ∀ n, is_time (clock n) = true).
Import MessageThread.

Lemma due_earlier now x m :
  is_time now = true → is_time (deliverAt x) = true → is_time (deliverAt m) = true →
  earlier x m → due now m = true → due now x = true.
Proof.
  unfold due. intros Hn Hx Hm He [Hz|Hle]%orb_true_iff; apply orb_true_iff.
  - left. unfold earlier in He. by destruct (deliverAt m) as [[]|[]| |[]], (deliverAt x) as [[]|[]| |[]].
  - right. unfold D.geb in *. apply (leb_trans _ (deliverAt m)); [by apply time_num..|exact He|exact Hle].
Qed.

Lemma due_prefix now q :
  is_time now = true → sorted q →
  q = filter (λ m, due now m = true) q ++ filter (λ m, due now m = false) q.
Proof.
  intros Hn [Ht Hs]. induction Hs as [|x q Hs IH Hall]; [done|]. apply Forall_cons in Ht as [Hx Ht].
  rewrite !filter_cons. destruct (due now x) eqn:Hd; simpl; [by f_equal; apply IH|].
  rewrite (filter_none (λ m, due now m = true)), filter_all; [done|..];
    rewrite Forall_forall in Hall, Ht |- *; intros m Hm.
  - apply not_true_iff_false. intros Hdm. by rewrite (due_earlier now x m) in Hd by auto.
  - intros Hdm. by rewrite (due_earlier now x m) in Hd by auto.
Qed.

(** A round of the timer thread delivers the messages that are due, all
    of them and only them, in the order of their times: they are a prefix of
    the queue, fixed before the first closure of the round runs. *)
Theorem wake_delivers_due (s s' : MessageThread.t) (ms : list Message) :
  sorted (queue s) → wake s = Ret ms s' →
  ∃ later, queue s = ms ++ later ∧ sorted ms ∧
    Forall (λ m, due (clock (ticks s)) m = true) ms ∧ Forall (λ m, due (clock (ticks s)) m = false) later.
Proof.
  intros Hs E. unfold wake in E. apply bind_Ret_inv in E as (now & s1 & E1 & E).
  injection E1 as <- <-. apply bind_Ret_inv in E as (q & s2 & E2 & E). injection E2 as <- <-.
  apply bind_Ret_inv in E as ([] & s3 & _ & E). apply bind_Ret_inv in E as ([] & s4 & _ & E). injection E as <- <-.
  exists (filter (λ m, due (clock (ticks s)) m = false) (queue s)). split_and!.
  - by apply due_prefix.
  - by apply sorted_filter.
  - apply Forall_forall. by intros m [? _]%list_elem_of_filter.
  - apply Forall_forall. by intros m [? _]%list_elem_of_filter.
Qed.

Lemma insert_in m q : m ∈ InsertMessageInternal m q.
Proof.
  assert (∀ x q, m ∈ insert_loop m (x :: q)) as Hl.
  { intros x q'. revert x. induction q' as [|y q' IH]; intros x; cbn [insert_loop]; [right; left|].
    destruct (_ && _); [right; left|]. right. apply IH. }
  destruct q as [|x q]; [left|]. unfold InsertMessageInternal. destruct (D.gtb _ _); [left|apply Hl].
Qed.

(** The closure of a message runs with [cancelCurrent] cleared. *)
Lemma deliver_body m s f :
  func m = Some f → ∃ d s1, deliver m s = (run (body f (ticks s1));; reschedule (m <| deliverAt := d |>)) s1 ∧
    cancelCurrent s1 = false.
Proof.
  intros Hf. unfold deliver. rewrite (bind_Ret _ _ s tt (s <| cancelCurrent := false |>)) by done.
  destruct (D.eqb (deliverAt m) D.zero).
  - exists (clock (ticks s)), (s <| cancelCurrent := false |> <| ticks := S (ticks s) |>). split; [|done].
    rewrite (bind_Ret _ _ (s <| cancelCurrent := false |>) (m <| deliverAt := clock (ticks s) |>)
      (s <| cancelCurrent := false |> <| ticks := S (ticks s) |>)) by done.
    change (func (m <| _ := _ |>)) with (func m). by rewrite Hf.
  - exists (deliverAt m), (s <| cancelCurrent := false |>). split; [|done].
    rewrite (bind_Ret _ _ (s <| cancelCurrent := false |>) m (s <| cancelCurrent := false |>)) by done.
    rewrite Hf. by destruct m.
Qed.
Lemma reschedule_runs m s : ∃ s', reschedule m s = Ret tt s'.
Proof.
  unfold reschedule. rewrite (bind_Ret _ _ s (cancelCurrent s) s) by done.
  destruct (_ && _); by eexists.
Qed.

(** [Cancel] has no effect on a message that is due in the same round:
    when a closure cancels the message delivered right after its own, that
    message still runs and, being periodic, stays scheduled. *)
Theorem cancel_misses_the_round (s : MessageThread.t) (m1 m2 : Message) (later : list Message) (f1 f2 : nat) :
  queue s = m1 :: m2 :: later →
  due (clock (ticks s)) m1 = true → due (clock (ticks s)) m2 = true →
  Forall (λ m, due (clock (ticks s)) m = false) later →
  func m1 = Some f1 → (∀ n, body f1 n = DoCancel (id m2) Return) →
  func m2 = Some f2 → (∀ n, body f2 n = Return) → D.gtb (interval m2) D.zero = true →
  ∃ s' m2', wake s = Ret [m1; m2] s' ∧ m2' ∈ queue s' ∧ id m2' = id m2 ∧ func m2' = Some f2.
Proof.
  intros Hq Hd1 Hd2 Hl Hf1 Hb1 Hf2 Hb2 Hi. unfold wake.
  rewrite (bind_Ret _ _ s (clock (ticks s)) (s <| ticks := S (ticks s) |>)) by done.
  cbv [gets mbind M_bind modify]. change (queue (s <| ticks := _ |>)) with (queue s). rewrite Hq.
  rewrite !filter_cons, Hd1, Hd2, !decide_True by done.
  rewrite (filter_none (λ m, due _ m = true)) by (eapply Forall_impl; [exact Hl|]; intros m ->; done).
  cbn [deliver_all].
  match goal with |- context [(_ ≫= _) ?st] => set (s0 := st) end.
  destruct (deliver_body m1 s0 f1 Hf1) as (d1 & s1 & E1 & _). rewrite Hb1 in E1.
  destruct (reschedule_runs (m1 <| deliverAt := d1 |>)
    (s1 <| gone ::= app ((λ m, (id m, false)) <$> filter (λ m, id m = id m2) (queue s1)) |>
        <| queue ::= filter (λ m, id m ≠ id m2) |>)) as [s2 E2].
  destruct (deliver_body m2 s2 f2 Hf2) as (d2 & s3 & E3 & Hc). rewrite Hb2 in E3.
  set (m2' := m2 <| deliverAt := d2 |> <| deliverAt ::= λ d, D.add d (interval m2) |>).
  exists (s3 <| queue ::= InsertMessageInternal m2' |>), m2'. split_and!; [|apply insert_in|done|done].
  assert (deliver m1 s0 = Ret tt s2) as E1' by (rewrite E1; exact E2).
  assert (deliver m2 s2 = Ret tt (s3 <| queue ::= InsertMessageInternal m2' |>)) as E3'.
  { rewrite E3. unfold reschedule. cbn [run]. rewrite (bind_Ret _ _ s3 tt s3) by done.
    rewrite (bind_Ret _ _ s3 false s3) by (unfold gets; by rewrite Hc). change (interval (m2 <| _ := _ |>)) with (interval m2).
    by rewrite Hi. }
  rewrite (bind_Ret _ _ s0 tt s2) by done. by rewrite (bind_Ret _ _ s2 tt (s3 <| queue ::= InsertMessageInternal m2' |>)).
Qed.
End rounds.

Section examples.
Import MessageThread.
Definition ex_pair : MessageThread.t :=
  mk [mkmsg 1 D.zero D.zero (Some 2%nat); mkmsg 2 D.zero (D.of_Z 2) (Some 1%nat)] 3 false 0 [2; 1] [].

Lemma wake_delivers_due_witness :
  ∃ later, queue ex_pair = queue ex_pair ++ later ∧ sorted (queue ex_pair) ∧
    Forall (λ m, due (stopped 0%nat) m = true) (queue ex_pair) ∧ Forall (λ m, due (stopped 0%nat) m = false) later.
Proof.
  eapply (@wake_delivers_due stopped ex_body (λ _, eq_refl) ex_pair).
  - split; repeat constructor; vm_compute; reflexivity.
  - vm_compute. reflexivity.
Defined.

Lemma cancel_misses_the_round_witness :
  ∃ s' m2', @wake stopped ex_body ex_pair = Ret (queue ex_pair) s' ∧
    m2' ∈ queue s' ∧ id m2' = 2 ∧ func m2' = Some 1%nat.
Proof.
  apply (@cancel_misses_the_round stopped ex_body ex_pair
    (mkmsg 1 D.zero D.zero (Some 2%nat)) (mkmsg 2 D.zero (D.of_Z 2) (Some 1%nat)) [] 2 1); try reflexivity.
  constructor.
Defined.
End examples.

(* ================================================================== *)
(** ** Stopping the thread

    [Stop] stores [running=false], signals the condition variable and joins,
    all without the mutex; [Run] tests [running] and then waits. *)

Module Shutdown.

(** Where [Run] is; it holds the mutex everywhere but in [Waiting]. *)
Inductive run_pc :=
| Checking      (** at [while(running)] *)
| Entering      (** past the test, before [pthread_cond_wait] *)
| Waiting       (** inside [pthread_cond_wait] or [pthread_cond_timedwait] *)
| Woken         (** after the wait, at [if(!running)] *)
| Exited.

Inductive stop_pc :=
| NotCalled
| Stored        (** [running=false] was stored *)
| Joining       (** the condition variable was signalled *)
| Joined.

Record t := mk {
  running : bool;
  timers : bool;    (** the queue holds a message, so the wait is a timed one *)
  run : run_pc;
  stop : stop_pc;
}.
#[export] Instance t_eta : Eta t := λ s, mk (running s) (timers s) (run s) (stop s).

Inductive step : t → t → Prop :=
| step_check s : run s = Checking →
    step s (s <| run := if running s then Entering else Exited |>)
| step_wait s : run s = Entering → step s (s <| run := Waiting |>)
| step_timeout s : run s = Waiting → timers s = true → step s (s <| run := Woken |>)
| step_woken s : run s = Woken → step s (s <| run := if running s then Checking else Exited |>)
| step_store s : stop s = NotCalled → running s = true →
    step s (s <| running := false |> <| stop := Stored |>)
| step_signal s : stop s = Stored →
    step s (s <| run ::= λ p, match p with Waiting => Woken | p => p end |> <| stop := Joining |>)
| step_join s : stop s = Joining → run s = Exited → step s (s <| stop := Joined |>).

Definition start (timers : bool) : t := mk true timers Checking NotCalled.
End Shutdown.

(** [Stop] can hang: there is an interleaving after which the thread
    waits for a signal that was already sent, [Stop] waits for the thread,
    and nothing can happen any more (no timer being set). *)
Theorem stop_can_hang :
  ∃ s, star Shutdown.step (Shutdown.start false) s ∧
    Shutdown.running s = false ∧ Shutdown.stop s = Shutdown.Joining ∧ Shutdown.run s = Shutdown.Waiting ∧
    ∀ s', ¬ Shutdown.step s s'.
Proof.
  exists (Shutdown.mk false false Shutdown.Waiting Shutdown.Joining). split_and!; [|done..|].
  - eapply star_step; [by apply Shutdown.step_check|].
    eapply star_step; [by apply Shutdown.step_store|].
    eapply star_step; [by apply Shutdown.step_signal|].
    eapply star_step; [by apply Shutdown.step_wait|]. apply star_refl.
  - intros s' Hs. by inversion Hs.
Qed.
