(* ===== verification/Streams.v ===== *)
(** * Byte streams inside other components

    A function of the program that parses or builds a message has a
    [BufferInputStream] or [BufferOutputStream] as a local variable while it
    works on the state of its object.  [with_stream] runs such a body on the
    pair of the two; [on_stream] and [on_self] are the operations of either. *)

From Stdlib Require Import ZArith Lia.
From stdpp Require Import base tactics list numbers option.
From S2P Require Import Prelude Words Buffers.
From stdpp Require Import list.
Open Scope Z_scope.

Section lifting.
Context {X S : Type}.

Definition on_stream {A} (m : M X A) : M (X * S) A := λ '(x, s), map_state (λ x', (x', s)) (m x).
Definition on_self {A} (m : M S A) : M (X * S) A := λ '(x, s), map_state (pair x) (m s).
Definition with_stream {A} (x : X) (m : M (X * S) A) : M S A := λ s, map_state snd (m (x, s)).

Context (T : exn → S → Prop) (C : crash → Prop).

Lemma wp_on_stream {A} (m : M X A) x s (Q : A → X * S → Prop) (T' : exn → X * S → Prop) :
  wp m x (λ a x', Q a (x', s)) (λ e x', T' e (x', s)) C → wp (on_stream m) (x, s) Q T' C.
Proof. unfold wp, on_stream. by destruct (m x). Qed.
Lemma wp_on_self {A} (m : M S A) x s (Q : A → X * S → Prop) (T' : exn → X * S → Prop) :
  wp m s (λ a s', Q a (x, s')) (λ e s', T' e (x, s')) C → wp (on_self m) (x, s) Q T' C.
Proof. unfold wp, on_self. by destruct (m s). Qed.
Lemma wp_with_stream {A} x (m : M (X * S) A) s (Q : A → S → Prop) :
  wp m (x, s) (λ a p, Q a p.2) (λ e p, T e p.2) C → wp (with_stream x m) s Q T C.
Proof. unfold wp, with_stream. by destruct (m (x, s)). Qed.
End lifting.

Lemma bind_assoc {S A B C} (m : M S A) (f : A → M S B) (g : B → M S C) s :
  ((m ≫= f) ≫= g) s = (m ≫= (λ a, f a ≫= g)) s.
Proof. unfold mbind, M_bind. by destruct (m s). Qed.
Lemma bind_ret_r {S} (m : M S unit) s : (m;; mret tt) s = m s.
Proof. unfold mbind, M_bind. by destruct (m s) as [[]| |]. Qed.
Lemma bind_ext {S A B} (m : M S A) (f g : A → M S B) s : (∀ a s', f a s' = g a s') → (m ≫= f) s = (m ≫= g) s.
Proof. intros E. unfold mbind, M_bind. by destruct (m s). Qed.

(** A message built in an output stream. *)
Definition built {S} (o : BufferOutputStream.t) (m : M BufferOutputStream.t unit) : M S bytes :=
  with_stream o (on_stream m;; on_stream (gets BufferOutputStream.data)).

Lemma built_ext {S} o (m m' : M BufferOutputStream.t unit) (s : S) : (∀ x, m x = m' x) → built o m s = built o m' s.
Proof. intros E. unfold built, with_stream, on_stream, mbind, M_bind. by rewrite E. Qed.

(* ------------------------------------------------------------------ *)
(** ** Writing *)

Section writing.
Import BufferOutputStream.

(** Writes that fit in a buffer of the caller succeed. *)
Lemma write_item_provided i s :
  wf s → bufferProvided s = true → offset s + zlen (Stream.item_bytes i) ≤ size s →
  Stream.write_item i s = Ret tt (mk (data s ++ Stream.item_bytes i) (size s) true).
Proof.
  intros Hwf Hp Hroom. pose proof (zlen_nonneg (Stream.item_bytes i)) as Hn. pose proof (wf_bnd s Hwf).
  assert (ExpandBufferIfNeeded (zlen (Stream.item_bytes i)) s = Ret tt s) as He.
  { rewrite Expand_provided by (done || lia). destruct (Z.ltb_spec (size s) (offset s + zlen (Stream.item_bytes i))); [lia|done]. }
  assert (Stream.write_item i s = (ExpandBufferIfNeeded (zlen (Stream.item_bytes i));; append (Stream.item_bytes i)) s) as ->.
  { destruct i; simpl; unfold WriteByte, WriteInt16, WriteInt32, WriteInt64, WriteBytes;
      rewrite ?le_bytes_2, <- ?le_bytes_4, <- ?le_bytes_8; try done. }
  rewrite (bind_Ret _ _ _ _ _ He). unfold append, modify. by rewrite Hp.
Qed.

Lemma write_items_provided l s :
  wf s → bufferProvided s = true → offset s + zlen (mjoin (Stream.item_bytes <$> l)) ≤ size s →
  Stream.write_items l s = Ret tt (mk (data s ++ mjoin (Stream.item_bytes <$> l)) (size s) true).
Proof.
  revert s. induction l as [|i l IH]; intros s Hwf Hp Hroom.
  - simpl. rewrite app_nil_r. destruct s; simpl in *; by subst.
  - change (mjoin (Stream.item_bytes <$> i :: l)) with (Stream.item_bytes i ++ mjoin (Stream.item_bytes <$> l)) in *.
    cbn [Stream.write_items]. rewrite zlen_app in Hroom. pose proof (zlen_nonneg (mjoin (Stream.item_bytes <$> l))).
    rewrite (bind_Ret _ _ _ _ _ (write_item_provided i s Hwf Hp ltac:(lia))).
    set (s1 := mk _ _ _).
    assert (offset s1 = offset s + zlen (Stream.item_bytes i)) as Ho by (unfold offset; simpl; apply zlen_app).
    assert (wf s1) as Hwf1 by (constructor; simpl; [rewrite Ho; lia|by apply wf_bnd]).
    rewrite IH by (done || (rewrite Ho; simpl; lia)). simpl. by rewrite <- app_assoc.
Qed.

Lemma write_items_app l1 l2 s :
  Stream.write_items (l1 ++ l2) s = (Stream.write_items l1;; Stream.write_items l2) s.
Proof.
  revert s. induction l1 as [|i l1 IH]; intros s; [done|]. cbn [Stream.write_items app].
  rewrite bind_assoc. apply bind_ext. intros []. apply IH.
Qed.
Lemma write_items_one i s : Stream.write_items [i] s = Stream.write_item i s.
Proof. apply bind_ret_r. Qed.

Lemma ctor_provided_wf n : 0 ≤ n < 18446744073709551616 → wf (ctor_provided n).
Proof. intros. constructor; unfold offset; simpl; rewrite ?zlen_nil; lia. Qed.

Lemma built_provided {S} n l (s : S) :
  0 ≤ n < 18446744073709551616 → zlen (mjoin (Stream.item_bytes <$> l)) ≤ n →
  built (ctor_provided n) (Stream.write_items l) s = Ret (mjoin (Stream.item_bytes <$> l)) s.
Proof.
  intros Hn Hl. unfold built, with_stream, on_stream, mbind, M_bind.
  by rewrite write_items_provided by (done || by apply ctor_provided_wf).
Qed.

Lemma built_growable {S} n l (s : S) :
  0 ≤ n → n + Stream.room l < 18446744073709551616 →
  built (ctor n) (Stream.write_items l) s = Ret (mjoin (Stream.item_bytes <$> l)) s.
Proof.
  intros Hn Hl. unfold built, with_stream, on_stream, mbind, M_bind. pose proof (room_nonneg l).
  destruct (write_items_growable l (ctor n)) as (o & -> & Hd & _ & _); [constructor; unfold offset; simpl; rewrite ?zlen_nil; lia|done|done|].
  simpl. by rewrite Hd.
Qed.

(** A stream of its own buffer that holds [d]: it grew in steps of at least
    1024 bytes, so far from the end of the address space. *)
Record grows (d : bytes) (o : t) : Prop := {
  grows_wf : wf o;
  grows_own : bufferProvided o = false;
  grows_data : data o = d;
  grows_size : size o ≤ 65536 + 1025 * zlen d;
}.

Lemma grows_ctor n : 0 ≤ n ≤ 65536 → grows [] (ctor n).
Proof. constructor; [constructor; unfold offset; simpl; rewrite ?zlen_nil; lia|done..|simpl; change (zlen (@nil Z)) with 0; lia]. Qed.

(** A message whose bytes are known. *)
Lemma wp_built_exact {S} k m b (s : S) (Q : bytes → S → Prop) T' D' :
  0 ≤ k ≤ 65536 → (∀ o, grows [] o → wp m o (λ _ o', grows b o') (λ _ _, False) (λ _, False)) → Q b s →
  wp (built (ctor k) m) s Q T' D'.
Proof.
  intros Hk Hm HQ. unfold built. apply wp_with_stream, wp_bind, wp_on_stream.
  eapply wp_weaken; [apply (Hm _ (grows_ctor k Hk))| |done..].
  intros [] o Hg. apply wp_on_stream, wp_gets. by rewrite (grows_data _ _ Hg).
Qed.

Context (T : exn → t → Prop) (C : crash → Prop).

Lemma wp_write_item i d o (Q : unit → t → Prop) :
  grows d o → zlen (d ++ Stream.item_bytes i) ≤ 1099511627776 →
  (∀ o', grows (d ++ Stream.item_bytes i) o' → Q tt o') → wp (Stream.write_item i) o Q T C.
Proof.
  intros [Hwf Ho Hd Hs] Hl HQ. rewrite zlen_app in Hl. pose proof (zlen_nonneg d). pose proof (zlen_nonneg (Stream.item_bytes i)).
  destruct (write_item_growable o i) as (o' & Hr & Hd' & Hwf' & Ho' & Hs'); [done..|lia|].
  unfold wp. rewrite Hr. apply HQ. constructor; [done..|by rewrite Hd', Hd|].
  rewrite zlen_app. destruct (Z.eq_dec (zlen (Stream.item_bytes i)) 0) as [E|]; [|lia].
  enough (size o' = size o) by lia.
  assert (Stream.write_item i o = (ExpandBufferIfNeeded (zlen (Stream.item_bytes i));; append (Stream.item_bytes i)) o) as Hw.
  { destruct i; simpl; unfold WriteByte, WriteInt16, WriteInt32, WriteInt64, WriteBytes;
      rewrite ?le_bytes_2, <- ?le_bytes_4, <- ?le_bytes_8; try done. }
  rewrite Hw in Hr. unfold ExpandBufferIfNeeded, mbind, M_bind in Hr. rewrite E, Z.add_0_r in Hr.
  pose proof (wf_cap o Hwf). pose proof (wf_bnd o Hwf).
  rewrite u64_small in Hr by (unfold offset in *; pose proof (zlen_nonneg (data o)); lia).
  destruct (Z.ltb_spec (size o) (offset o)); [lia|]. unfold append, modify in Hr. by injection Hr as <-.
Qed.

Context (d : bytes) (o : t) (Q : unit → t → Prop) (Hg : grows d o).
Lemma wp_WriteByte b :
  zlen d + 1 ≤ 1099511627776 → (∀ o', grows (d ++ [b]) o' → Q tt o') → wp (WriteByte b) o Q T C.
Proof. intros. apply (wp_write_item (Stream.IByte b) d); [done|rewrite zlen_app; eassumption|done]. Qed.
Lemma wp_WriteInt16 z :
  zlen d + 2 ≤ 1099511627776 → (∀ o', grows (d ++ le_bytes 2 z) o' → Q tt o') → wp (WriteInt16 z) o Q T C.
Proof. intros. apply (wp_write_item (Stream.IInt16 z) d); [done|rewrite zlen_app; eassumption|done]. Qed.
Lemma wp_WriteInt32 z :
  zlen d + 4 ≤ 1099511627776 → (∀ o', grows (d ++ le_bytes 4 z) o' → Q tt o') → wp (WriteInt32 z) o Q T C.
Proof. intros. apply (wp_write_item (Stream.IInt32 z) d); [done|rewrite zlen_app; eassumption|done]. Qed.
Lemma wp_WriteInt64 z :
  zlen d + 8 ≤ 1099511627776 → (∀ o', grows (d ++ le_bytes 8 z) o' → Q tt o') → wp (WriteInt64 z) o Q T C.
Proof. intros. apply (wp_write_item (Stream.IInt64 z) d); [done|rewrite zlen_app; eassumption|done]. Qed.
Lemma wp_WriteBytes l :
  zlen d + zlen l ≤ 1099511627776 → (∀ o', grows (d ++ l) o' → Q tt o') → wp (WriteBytes l) o Q T C.
Proof. intros. apply (wp_write_item (Stream.IBytes l) d); [done|rewrite zlen_app; eassumption|done]. Qed.
End writing.

(* ------------------------------------------------------------------ *)
(** ** Reading *)

Section reading.
Import BufferInputStream.

Lemma ctor_wf data : wf_bytes data → zlen data < 18446744073709551616 → wf (ctor data (zlen data)).
Proof. intros. pose proof (zlen_nonneg data). constructor; simpl; done || lia. Qed.
Lemma rest_ctor data : rest (ctor data (zlen data)) = data.
Proof. done. Qed.

(** Whatever the bytes, a read returns with a well-formed stream or throws
    [out_of_range]. *)
Lemma wp_safe {A} (m : M t A) x (Q : A → t → Prop) (T : exn → t → Prop) (C : crash → Prop) :
  Reader.safe (m x) → (m x ≠ Crash AssertFailed) →
  (∀ a x', wf x' → Q a x') → (∀ x', wf x' → T OutOfRange x') → wp m x Q T C.
Proof.
  unfold wp, Reader.safe. intros Hs Hc HQ HT. destruct (m x) as [a x'|e x'|c]; [auto| |congruence].
  destruct Hs as [-> ?]. auto.
Qed.

(** Enough bytes: the read returns them. *)
Lemma wp_ReadByte b tl x (Q : Z → t → Prop) T C :
  wf x → rest x = b :: tl → (∀ x', wf x' → rest x' = tl → Q b x') → wp ReadByte x Q T C.
Proof.
  intros Hwf Hr HQ. unfold wp. rewrite (ReadByte_run x b tl) by done.
  destruct (wf_advance x 1 Hwf) as [Hwf' Hr']; [rewrite Hr, zlen_cons; pose proof (zlen_nonneg tl); lia|].
  apply HQ; [done|]. by rewrite Hr', Hr.
Qed.
Lemma wp_ReadBytes l tl x (Q : bytes → t → Prop) T C :
  wf x → rest x = l ++ tl → (∀ x', wf x' → rest x' = tl → Q l x') → wp (ReadBytes (zlen l)) x Q T C.
Proof.
  intros Hwf Hr HQ. unfold wp. pose proof (zlen_nonneg l). pose proof (zlen_rest_app x _ _ Hr).
  rewrite ReadBytes_run by (done || lia).
  destruct (wf_advance x (zlen l) Hwf) as [Hwf' Hr']; [lia|]. rewrite Hr in *. unfold zlen in *. rewrite Nat2Z.id in *.
  rewrite take_app_length. apply HQ; [done|]. by rewrite Hr', drop_app_length.
Qed.
Lemma wp_ReadInt32 z tl x (Q : Z → t → Prop) T C :
  wf x → rest x = le_bytes 4 z ++ tl → (∀ x', wf x' → rest x' = tl → Q (s32 z) x') → wp ReadInt32 x Q T C.
Proof.
  intros Hwf Hr HQ. unfold wp. rewrite (ReadInt32_run x z tl) by done.
  destruct (wf_advance x 4 Hwf) as [Hwf' Hr']; [pose proof (zlen_rest_app x _ _ Hr) as Hz; unfold zlen in Hz at 1; rewrite length_le_bytes in Hz; lia|].
  apply HQ; [done|]. by rewrite Hr', Hr.
Qed.
Lemma wp_ReadInt16 z tl x (Q : Z → t → Prop) T C :
  wf x → rest x = le_bytes 2 z ++ tl → (∀ x', wf x' → rest x' = tl → Q (s16 z) x') → wp ReadInt16 x Q T C.
Proof.
  intros Hwf Hr HQ. unfold wp. rewrite (ReadInt16_run x z tl) by done.
  destruct (wf_advance x 2 Hwf) as [Hwf' Hr']; [pose proof (zlen_rest_app x _ _ Hr) as Hz; unfold zlen in Hz at 1; rewrite length_le_bytes in Hz; lia|].
  apply HQ; [done|]. by rewrite Hr', Hr.
Qed.
Lemma wp_ReadInt64 z tl x (Q : Z → t → Prop) T C :
  wf x → rest x = le_bytes 8 z ++ tl → (∀ x', wf x' → rest x' = tl → Q (s64 z) x') → wp ReadInt64 x Q T C.
Proof.
  intros Hwf Hr HQ. unfold wp. rewrite (ReadInt64_run x z tl) by done.
  destruct (wf_advance x 8 Hwf) as [Hwf' Hr']; [pose proof (zlen_rest_app x _ _ Hr) as Hz; unfold zlen in Hz at 1; rewrite length_le_bytes in Hz; lia|].
  apply HQ; [done|]. by rewrite Hr', Hr.
Qed.

(** A length below 254 is one byte, another one takes three. *)
Lemma wp_ReadTlLength_short n tl x (Q : Z → t → Prop) T C :
  wf x → n < 254 → rest x = n :: tl → (∀ x', wf x' → rest x' = tl → Q n x') → wp ReadTlLength x Q T C.
Proof.
  intros Hwf Hn Hr HQ. apply wp_bind. eapply wp_ReadByte; [done..|]. intros x1 Hw1 Hr1.
  destruct (Z.ltb_spec n 254); [|lia]. by apply wp_ret, HQ.
Qed.
Lemma wp_ReadTlLength_long n tl x (Q : Z → t → Prop) T C :
  wf x → rest x = 254 :: le_bytes 3 n ++ tl →
  (∀ x', wf x' → rest x' = tl → Q (le_val (le_bytes 3 n)) x') → wp ReadTlLength x Q T C.
Proof.
  intros Hwf Hr HQ. apply wp_bind. eapply wp_ReadByte; [done..|]. intros x1 Hw1 Hr1.
  change (254 <? 254) with false. cbv iota. apply wp_bind, wp_get. apply wp_bind. rewrite remaining_rest by done.
  assert (3 ≤ zlen (rest x1)) as H3 by (rewrite Hr1; unfold zlen; rewrite length_app, length_le_bytes; lia).
  unfold wp at 1, assert_. destruct (Z.leb_spec 3 (zlen (rest x1))); [|lia].
  unfold wp. rewrite (bind_Ret _ _ _ _ _ (ensure_ok x1 3 Hw1 H3)). cbn [le_bytes app] in Hr1, HQ.
  erewrite bind_Ret; [|apply at_ok; [done|lia|by rewrite Hr1]].
  erewrite bind_Ret; [|apply at_ok; [done|lia|by rewrite Hr1]].
  erewrite bind_Ret; [|apply at_ok; [done|lia|by rewrite Hr1]].
  erewrite bind_Ret; [|apply advance_ok; [done|lia]].
  destruct (wf_advance x1 3 Hw1) as [Hw2 Hr2]; [lia|]. rewrite Hr1 in Hr2.
  cbv [mret M_ret]. match goal with |- Q ?v _ => assert (v = le_val [Z.land n 255; Z.land (Z.shiftr n 8) 255; Z.land (Z.shiftr (Z.shiftr n 8) 8) 255]) as -> end.
  { cbn [le_val]. rewrite Z.shiftl_0_l, Z.lor_0_r, !Z.shiftl_lor, Z.shiftl_shiftl by lia. apply eq_sym, Z.lor_assoc. }
  by apply HQ.
Qed.

Lemma wp_Seek n x (Q : unit → t → Prop) T C :
  wf x → 0 ≤ n ≤ BufferInputStream.length x → (∀ x', wf x' → rest x' = drop (Z.to_nat n) (buffer x) → Q tt x') → wp (Seek n) x Q T C.
Proof.
  intros [] ? HQ. unfold wp, Seek. destruct (Z.ltb_spec (BufferInputStream.length x) n); [lia|].
  apply HQ; [|done]. constructor; simpl; done || lia.
Qed.

(** The fixed-size reads have no assertion. *)
Lemma no_assert {A} n (k : M t A) x : (∀ y, k y ≠ Crash AssertFailed) → (EnsureEnoughRemaining n;; k) x ≠ Crash AssertFailed.
Proof. intros Hk. unfold EnsureEnoughRemaining, mbind, M_bind. by destruct (_ <? _). Qed.
Lemma at_no_assert {A} i (f : Z → M t A) x :
  (∀ b y, f b y ≠ Crash AssertFailed) → (at_ i ≫= f) x ≠ Crash AssertFailed.
Proof. intros Hf. unfold at_, get, defined, mbind, M_bind. by destruct (znth _ _). Qed.
End reading.

(** The reads of a stream inside another component, on any bytes. *)
Ltac no_assert :=
  repeat first [apply no_assert; intros ? | apply at_no_assert; intros ? ? | done].

Section any_bytes.
Import BufferInputStream.
Context (T : exn → t → Prop) (C : crash → Prop).

Lemma wp_ReadByte_any x (Q : Z → t → Prop) :
  wf x → (∀ a x', wf x' → is_u8 a → Q a x') → (∀ x', wf x' → T OutOfRange x') → wp ReadByte x Q T C.
Proof.
  intros Hwf HQ HT. destruct (rest x) as [|b tl] eqn:Hr.
  - unfold wp, ReadByte. rewrite short_bind by (rewrite ?Hr; done). auto.
  - eapply wp_ReadByte; [done|exact Hr|]. intros x' Hx' _. apply HQ; [done|].
    assert (wf_bytes (rest x)) as Hb by (apply Forall_drop, Hwf). rewrite Hr in Hb. by apply Forall_cons in Hb as [? _].
Qed.
Lemma wp_ReadInt16_any x (Q : Z → t → Prop) :
  wf x → (∀ a x', wf x' → Q a x') → (∀ x', wf x' → T OutOfRange x') → wp ReadInt16 x Q T C.
Proof. intros. apply wp_safe; auto using safe_ReadInt16. unfold ReadInt16. no_assert. Qed.
Lemma wp_ReadInt32_any x (Q : Z → t → Prop) :
  wf x → (∀ a x', wf x' → Q a x') → (∀ x', wf x' → T OutOfRange x') → wp ReadInt32 x Q T C.
Proof. intros. apply wp_safe; auto using safe_ReadInt32. unfold ReadInt32. no_assert. Qed.
Lemma wp_ReadInt64_any x (Q : Z → t → Prop) :
  wf x → (∀ a x', wf x' → Q a x') → (∀ x', wf x' → T OutOfRange x') → wp ReadInt64 x Q T C.
Proof. intros. apply wp_safe; auto using safe_ReadInt64. unfold ReadInt64. no_assert. Qed.
(** The assertion of [ReadTlLength] can fail. *)
Lemma wp_ReadTlLength_any x (Q : Z → t → Prop) :
  C AssertFailed → wf x → (∀ a x', wf x' → Q a x') → (∀ x', wf x' → T OutOfRange x') → wp ReadTlLength x Q T C.
Proof.
  intros HC Hwf HQ HT. pose proof (safe_ReadTlLength x Hwf) as Hs. unfold wp, Reader.safe in *.
  destruct (ReadTlLength x) as [a x'|e x'|c]; [auto|destruct Hs as [-> ?]; auto|by subst].
Qed.
Lemma wp_Seek_any n x (Q : unit → t → Prop) :
  wf x → 0 ≤ n → (∀ x', wf x' → Q tt x') → (∀ x', wf x' → T OutOfRange x') → wp (Seek n) x Q T C.
Proof. intros. apply wp_safe; auto using safe_Seek; [|by intros []]. unfold Seek. by destruct (_ <? _). Qed.
Lemma wp_ReadBytes_any n x (Q : bytes → t → Prop) :
  wf x → 0 ≤ n → (∀ l x', wf x' → wf_bytes l → zlen l = n → Q l x') → (∀ x', wf x' → T OutOfRange x') → wp (ReadBytes n) x Q T C.
Proof.
  intros Hwf Hn HQ HT. destruct (Z.lt_ge_cases (zlen (rest x)) n).
  - unfold wp, ReadBytes. rewrite short_bind by done. auto.
  - assert (rest x = take (Z.to_nat n) (rest x) ++ drop (Z.to_nat n) (rest x)) as Hr by by rewrite take_drop.
    assert (zlen (take (Z.to_nat n) (rest x)) = n) as Hl by (unfold zlen in *; rewrite length_take; lia).
    assert (wf_bytes (take (Z.to_nat n) (rest x))) by (apply Forall_take, Forall_drop, Hwf).
    rewrite <- Hl at 1. eapply wp_ReadBytes; [done|exact Hr|auto].
Qed.
End any_bytes.
