(* ===== verification/Net.v ===== *)
(** * libtgvoip/NetworkSocket.cpp: addresses, the obfuscated TCP transport, SOCKS5

    Addresses and their comparison; the framing of packets on a TCP relay
    connection ([NetworkSocketTCPObfuscated]); the client side of SOCKS5,
    its handshake and the encapsulation of datagrams
    ([NetworkSocketSOCKS5Proxy]).

    The socket underneath is its environment: the bytes that arrive and how
    the kernel cuts them, and whether it failed, are arguments.  AES in
    counter mode (a callback of [VoIPController::crypto]) and the resolver
    of domain names are parameters. *)

From Stdlib Require Import ZArith Lia.
From stdpp Require Import base tactics list numbers option.
From S2P Require Import Prelude Words Memory Buffers Streams.
From stdpp Require Import list.
Open Scope Z_scope.

(** [htons] and [ntohs] on a little-endian machine. *)
Definition htons (x : Z) : Z := Z.lor (Z.land (Z.shiftr x 8) 255) (Z.shiftl (Z.land x 255) 8).

Lemma htons_involutive x : is_u16 x → htons (htons x) = x.
Proof.
  intros Hx. unfold htons.
  assert (∀ a b, is_u8 a → Z.lor a (Z.shiftl b 8) = a + b * 256) as Hadd.
  { intros. by rewrite lor_shiftl_add by (done || lia). }
  rewrite !land_255, !Z.shiftr_div_pow2 by lia. change (2 ^ 8) with 256.
  rewrite !Hadd by (apply Z.mod_pos_bound; lia). dlia.
Qed.
Lemma htons_range x : is_u16 (htons x).
Proof.
  unfold htons. rewrite lor_shiftl_add by (rewrite ?land_255; try apply Z.mod_pos_bound; lia).
  rewrite !land_255. pose proof (Z.mod_pos_bound x 256 ltac:(lia)).
  pose proof (Z.mod_pos_bound (Z.shiftr x 8) 256 ltac:(lia)). lia.
Qed.

(* ================================================================== *)
(** ** Addresses *)

Module NetworkAddress.

(** [IPv4Address] keeps the four octets as a [uint32_t] in memory order (what
    [inet_pton] stores), [IPv6Address] its sixteen octets. *)
Inductive t := IPv4 (address : Z) | IPv6 (address : bytes).

#[export] Instance eq_dec : EqDecision t.
Proof. solve_decision. Defined.

Definition wf (a : t) : Prop :=
  match a with IPv4 z => is_u32 z | IPv6 l => wf_bytes l ∧ length l = 16%nat end.

Definition eqb (a b : t) : bool :=
  match a, b with
  | IPv4 x, IPv4 y => x =? y
  | IPv6 x, IPv6 y => bool_decide (x = y)
  | _, _ => false
  end.

Definition IsEmpty (a : t) : bool :=
  match a with
  | IPv4 x => x =? 0
  | IPv6 l => (le_val (take 8 l) =? 0) && (le_val (drop 8 l) =? 0)
  end.

(** [PrefixMatches]; [None] is a shift by the width of the type or more. *)
Definition PrefixMatches (prefix : Z) (self other : t) : option bool :=
  match self, other with
  | IPv4 x, IPv4 y =>
      let n := u32 (32 - prefix) in
      if n <? 32 then
        let mask := u32 (Z.shiftl 4294967295 n) in
        Some (Z.land x mask =? Z.land y mask)
      else None
  | _, _ => Some false
  end.

(** The octets in the order they are written. *)
Definition octets (a : t) : bytes := match a with IPv4 x => le_bytes 4 x | IPv6 l => l end.
End NetworkAddress.

Lemma land_high_mask x k :
  is_u32 x → 0 ≤ k ≤ 32 → Z.land x (u32 (Z.shiftl 4294967295 k)) = (x / 2 ^ k) * 2 ^ k.
Proof.
  intros Hx Hk. rewrite <- Z.shiftl_mul_pow2, <- Z.shiftr_div_pow2 by lia.
  apply Z.bits_inj'. intros i Hi. rewrite Z.land_spec, Z.shiftl_spec by lia.
  unfold u32. change 4294967296 with (2 ^ 32).
  destruct (Z.lt_ge_cases i 32).
  - rewrite Z.mod_pow2_bits_low, Z.shiftl_spec by lia. change 4294967295 with (Z.ones 32).
    destruct (Z.lt_ge_cases i k).
    + rewrite (Z.testbit_neg_r _ (i - k)), (Z.testbit_neg_r (Z.shiftr x k)) by lia. apply andb_false_r.
    + rewrite Z.ones_spec_low, Z.shiftr_spec by lia. rewrite andb_true_r. f_equal. lia.
  - rewrite Z.mod_pow2_bits_high, andb_false_r by lia. symmetry.
    rewrite Z.shiftr_spec by lia. replace (i - k + k) with i by lia.
    rewrite <- (Z.mod_small x (2 ^ 32)) by lia. apply Z.mod_pow2_bits_high. lia.
Qed.

(** [PrefixMatches] compares the wrong end of IPv4 addresses: with a
    prefix of 8, 16, 24 or 32 bits it holds exactly when the last 1, 2, 3 or
    4 octets agree, because the octets are kept in memory order and the mask
    keeps the high bits of the integer. *)
Theorem prefix_compares_the_end (a b : Z) (k : nat) :
  is_u32 a → is_u32 b → (1 ≤ k ≤ 4)%nat →
  NetworkAddress.PrefixMatches (8 * Z.of_nat k) (NetworkAddress.IPv4 a) (NetworkAddress.IPv4 b)
    = Some (bool_decide (drop (4 - k) (NetworkAddress.octets (NetworkAddress.IPv4 a))
                         = drop (4 - k) (NetworkAddress.octets (NetworkAddress.IPv4 b)))).
Proof.
  intros Ha Hb Hk. unfold NetworkAddress.PrefixMatches. rewrite u32_small by lia.
  destruct (Z.ltb_spec (32 - 8 * Z.of_nat k) 32); [|lia]. f_equal. rewrite !land_high_mask by lia.
  set (j := (4 - k)%nat).
  assert (∀ z, is_u32 z → le_val (drop j (le_bytes 4 z)) = z / 2 ^ (32 - 8 * Z.of_nat k)) as Hv.
  { intros z Hz. assert (∀ n m w, (m ≤ n)%nat → drop m (le_bytes n w) = le_bytes (n - m) (Z.shiftr w (8 * Z.of_nat m))) as Hd.
    { clear. induction n as [|n IH]; intros [|m] w Hm; [done|lia|by rewrite Z.shiftr_0_r|].
      cbn [le_bytes drop]. rewrite IH, Z.shiftr_shiftr by lia. do 2 f_equal. lia. }
    rewrite Hd, le_val_le_bytes, Z.shiftr_div_pow2 by lia.
    replace (8 * Z.of_nat j) with (32 - 8 * Z.of_nat k) by lia. apply Z.mod_small.
    split; [apply Z.div_pos; lia|]. apply Z.div_lt_upper_bound; [lia|].
    change 256 with (2 ^ 8). rewrite <- Z.pow_mul_r, <- Z.pow_add_r by lia.
    replace (_ + _) with 32 by lia. lia. }
  assert (0 < 2 ^ (32 - 8 * Z.of_nat k)) by lia.
  apply eq_true_iff_eq. rewrite Z.eqb_eq, bool_decide_eq_true. cbn [NetworkAddress.octets]. split; intros E.
  - apply Z.mul_cancel_r in E; [|lia]. rewrite <- !Hv in E by done.
    assert (∀ z, wf_bytes (drop j (le_bytes 4 z)) ∧ length (drop j (le_bytes 4 z)) = k) as Hw.
    { intros z. split; [apply Forall_drop, le_bytes_wf|]. rewrite length_drop, length_le_bytes. lia. }
    rewrite <- (le_bytes_le_val (drop j (le_bytes 4 a))), <- (le_bytes_le_val (drop j (le_bytes 4 b))) by apply Hw.
    rewrite !(proj2 (Hw _)). by f_equal.
  - by rewrite <- !Hv, E by done.
Qed.

(** 192.168.1.5 and 10.168.1.5. *)
Lemma prefix_compares_the_end_witness :
  NetworkAddress.PrefixMatches (8 * Z.of_nat 3) (NetworkAddress.IPv4 83994816) (NetworkAddress.IPv4 83994634)
    = Some (bool_decide ([168; 1; 5] = [168; 1; 5])).
Proof. apply (prefix_compares_the_end 83994816 83994634 3); lia. Defined.

(* ================================================================== *)
(** ** The obfuscated TCP transport *)

(** AES in counter mode: [crypto.aes_ctr_encrypt] on a [TCPO2State]. *)
Class Ctr := {
  ctr_state : Type;
  ctr_init : bytes → bytes → ctr_state;      (** a key and an initial vector, the rest zero *)
  ctr : bytes → ctr_state → bytes * ctr_state;
}.

(** What is documented of a counter mode: it is a stream cipher, decrypting
    is encrypting, and the state counts the bytes. *)
Class CtrLaws `{Ctr} : Prop := {
  ctr_nil st : ctr [] st = ([], st);
  ctr_app l1 l2 st :
    ctr (l1 ++ l2) st = ((ctr l1 st).1 ++ (ctr l2 (ctr l1 st).2).1, (ctr l2 (ctr l1 st).2).2);
  ctr_length l st : length (ctr l st).1 = length l;
  ctr_counts l1 l2 st : length l1 = length l2 → (ctr l1 st).2 = (ctr l2 st).2;
  ctr_involutive l st : ctr (ctr l st).1 st = (l, (ctr l st).2);
}.

Module Obfuscated.

(** What arrives on the socket, and how [recv] cuts it: the [i]-th call
    returns at most [1 + cuts[i]] bytes; 0 bytes when nothing is left. *)
Record wire := mkwire { incoming : bytes; cuts : list nat }.

Definition recv (len : Z) : M wire bytes := λ w,
  let n := match cuts w with [] => Z.to_nat len | c :: _ => Z.to_nat len `min` S c end%nat in
  Ret (take n (incoming w)) (mkwire (drop n (incoming w)) (tail (cuts w))).

Section ops.
Context `{Ctr}.

Record t := mk { recvState : ctr_state; sendState : ctr_state; initialized : bool; readyToSend : bool }.
#[export] Instance t_eta : Eta t := λ s, mk (recvState s) (sendState s) (initialized s) (readyToSend s).

(** [GenerateTCPO2States]: the condition of its loop. *)
Definition reserved_nonce (nonce : bytes) : bool :=
  let first := le_val (take 4 nonce) in
  let second := le_val (take 4 (drop 4 nonce)) in
  (first =? 0x44414548) || (first =? 0x54534f50) || (first =? 0x20544547) || (first =? 0x20544547) ||
  (first =? 0xeeeeeeee) || (second =? 0) || (default 0 (head nonce) =? 0xef).

(** The loop over the random nonces; [None] when all [fuel] of them are reserved. *)
Fixpoint pick_nonce (fuel : nat) (rand : nat → bytes) (i : nat) : option bytes :=
  match fuel with
  | O => None
  | S fuel' => if reserved_nonce (rand i) then pick_nonce fuel' rand (S i) else Some (rand i)
  end.

(** The states and the 64 bytes of the header, for a nonce. *)
Definition GenerateTCPO2States (nonce : bytes) : bytes * ctr_state * ctr_state :=
  let sendState := ctr_init (slice nonce 8 32) (slice nonce 40 16) in
  let reversed := reverse (slice nonce 8 48) in
  let recvState := ctr_init (slice reversed 0 32) (slice reversed 32 16) in
  let nonce := overwrite nonce 56 (le_bytes 4 0xefefefef) in
  let buffer := take 56 nonce in
  let '(enc, sendState) := ctr nonce sendState in
  (buffer ++ slice enc 56 8, recvState, sendState).

(** [InitConnection]: what is sent. *)
Definition InitConnection (nonce : bytes) : M t bytes :=
  let '(buf, rs, ss) := GenerateTCPO2States nonce in
  modify (λ s, s <| recvState := rs |> <| sendState := ss |>);;
  mret buf.

(** [OnReadyToSend]: the result and what is sent; [wrapped] is the answer of
    the socket underneath. *)
Definition OnReadyToSend (nonce : bytes) (wrapped : bool) : M t (bool * bytes) :=
  s ← get;
  if negb (initialized s) then
    modify (λ s, s <| initialized := true |>);;
    b ← InitConnection nonce;
    modify (λ s, s <| readyToSend := true |>);;
    mret (false, b)
  else mret (wrapped, []).

(** [Send(packet)]: what is sent. *)
Definition Send (data : bytes) : M t bytes :=
  let len := zlen data / 4 in
  b ← built (BufferOutputStream.ctor (u64 (zlen data + 4)))
    ((if len <? 0x7F then BufferOutputStream.WriteByte (u8 len)
      else
        BufferOutputStream.WriteByte 0x7F;;
        BufferOutputStream.WriteByte (Z.land len 255);;
        BufferOutputStream.WriteByte (Z.land (Z.shiftr len 8) 255);;
        BufferOutputStream.WriteByte (Z.land (Z.shiftr len 16) 255));;
     BufferOutputStream.WriteBytes data);
  s ← get;
  let '(enc, st) := ctr b (sendState s) in
  modify (λ s, s <| sendState := st |>);;
  mret enc.

Definition decrypt (l : bytes) : M t bytes :=
  s ← get;
  let '(dec, st) := ctr l (recvState s) in
  modify (λ s, s <| recvState := st |>);;
  mret dec.

(** The loop that reads the body; [None] when the socket failed. *)
Fixpoint read_body (fuel : nat) (need : Z) : M wire (option bytes) :=
  if need <=? 0 then mret (Some [])
  else
    match fuel with
    | O => crash_with UndefinedBehaviour
    | S fuel' =>
        l ← recv need;
        match l with
        | [] => mret None
        | _ => r ← read_body fuel' (need - zlen l); mret (app l <$> r)
        end
    end.

(** [Receive(packet)] with room for [max] bytes: the bytes of the packet,
    none for a length of 0.  Of the three bytes of a long length, those that
    [recv] did not deliver are indeterminate. *)
Definition Receive (max : Z) : M (wire * t) bytes :=
  l1 ← on_stream (recv 1);
  match l1 with
  | [] => mret []
  | _ =>
      l1 ← on_self (decrypt l1);
      len1 ← defined (l1 !! 0%nat);
      packetLen ← (if len1 <? 0x7F then mret (Some (len1 * 4))
                   else
                     l2 ← on_stream (recv 3);
                     match l2 with
                     | [] => mret None
                     | [_; _; _] =>
                         l2 ← on_self (decrypt l2);
                         b0 ← defined (l2 !! 0%nat); b1 ← defined (l2 !! 1%nat); b2 ← defined (l2 !! 2%nat);
                         mret (Some (u64 (Z.lor (Z.lor b0 (Z.shiftl b1 8)) (Z.shiftl b2 16) * 4)))
                     | _ => crash_with UndefinedBehaviour
                     end);
      match packetLen with
      | None => mret []
      | Some packetLen =>
          if max <? packetLen then mret []
          else
            body ← on_stream (read_body (Z.to_nat packetLen) packetLen);
            match body with
            | None => mret []
            | Some data => on_self (decrypt data)
            end
      end
  end.

Fixpoint send_all (ps : list bytes) : M t bytes :=
  match ps with
  | [] => mret []
  | p :: ps' => b ← Send p; bs ← send_all ps'; mret (b ++ bs)
  end.
Fixpoint receive_n (n : nat) (max : Z) : M (wire * t) (list bytes) :=
  match n with
  | O => mret []
  | S n' => p ← Receive max; ps ← receive_n n' max; mret (p :: ps)
  end.
End ops.
End Obfuscated.

Section framing.
Context `{CtrLaws}.
Import Obfuscated.

(** The length before the packet. *)
Definition frame_header (len : Z) : list Stream.item :=
  if len <? 127 then [Stream.IByte (u8 len)]
  else [Stream.IByte 127; Stream.IByte (Z.land len 255); Stream.IByte (Z.land (Z.shiftr len 8) 255);
        Stream.IByte (Z.land (Z.shiftr len 16) 255)].
Definition frame (data : bytes) : bytes :=
  mjoin (Stream.item_bytes <$> frame_header (zlen data / 4) ++ [Stream.IBytes data]).

(** What the transport is given: its packets are multiples of four bytes. *)
Definition packet_ok (max : Z) (p : bytes) : Prop := p ≠ [] ∧ zlen p mod 4 = 0 ∧ zlen p ≤ max.

Lemma Send_run data (s : Obfuscated.t) :
  zlen data < 2 ^ 62 →
  Send data s = Ret (ctr (frame data) (sendState s)).1 (s <| sendState := (ctr (frame data) (sendState s)).2 |>).
Proof.
  intros Hl. pose proof (zlen_nonneg data) as Hd0. unfold Send. cbv zeta.
  rewrite (bind_Ret _ _ s (frame data) s).
  - rewrite (bind_Ret _ _ s s s) by done. by destruct (ctr (frame data) (sendState s)).
  - rewrite u64_small by lia. unfold frame. rewrite <- (built_growable (zlen data + 4) (frame_header (zlen data / 4) ++ [Stream.IBytes data]) s).
    + apply built_ext. intros x. rewrite write_items_app. unfold frame_header.
      destruct (zlen data / 4 <? 127); cbn [Stream.write_items].
      * rewrite bind_assoc. apply bind_ext. intros [] x'. symmetry. exact (bind_ret_r _ _).
      * rewrite !bind_assoc. apply bind_ext. intros [] x1. rewrite !bind_assoc. apply bind_ext. intros [] x2.
        rewrite !bind_assoc. apply bind_ext. intros [] x3. rewrite !bind_assoc. apply bind_ext. intros [] x4.
        symmetry. exact (bind_ret_r _ _).
    + lia.
    + unfold Stream.room, frame_header. destruct (zlen data / 4 <? 127); cbn; rewrite ?zlen_nil, ?zlen_cons, ?zlen_nil; lia.
Qed.

Lemma len24_split len :
  0 ≤ len < 2 ^ 24 →
  Z.lor (Z.lor (Z.land len 255) (Z.shiftl (Z.land (Z.shiftr len 8) 255) 8))
    (Z.shiftl (Z.land (Z.shiftr len 16) 255) 16) = len.
Proof.
  intros Hl. rewrite !land_255, !Z.shiftr_div_pow2 by lia.
  change (2 ^ 24) with 16777216 in Hl. change (2 ^ 8) with 256. change (2 ^ 16) with 65536.
  rewrite (lor_shiftl_add (len mod 256)), lor_shiftl_add; change (2 ^ 8) with 256; change (2 ^ 16) with 65536; dlia.
Qed.

(** Enough bytes for a request of at most three are delivered at once. *)
Definition whole_cuts (w : wire) : Prop := Forall (λ c, (2 ≤ c)%nat) (cuts w).

Lemma recv_small l tl w :
  (length l ≤ 3)%nat → whole_cuts w → incoming w = l ++ tl →
  ∃ w', recv (zlen l) w = Ret l w' ∧ incoming w' = tl ∧ whole_cuts w'.
Proof.
  intros Hl Hw Hin. unfold recv, whole_cuts, zlen in *. rewrite Nat2Z.id, Hin.
  assert (∀ n, n = length l → take n (l ++ tl) = l ∧ drop n (l ++ tl) = tl) as Hn.
  { intros n ->. by rewrite take_app_length, drop_app_length. }
  destruct (cuts w) as [|c cs].
  - destruct (Hn (length l)) as [-> ->]; [done|]. by eexists.
  - apply Forall_cons in Hw as [Hc Hcs]. destruct (Hn (length l `min` S c)%nat) as [-> ->]; [lia|]. by eexists.
Qed.

Lemma read_body_run fuel l tl w :
  (length l ≤ fuel)%nat → whole_cuts w → incoming w = l ++ tl →
  ∃ w', read_body fuel (zlen l) w = Ret (Some l) w' ∧ incoming w' = tl ∧ whole_cuts w'.
Proof.
  revert l w. induction fuel as [|fuel IH]; intros l w Hl Hw Hin.
  { destruct l; [|simpl in Hl; lia]. by exists w. }
  destruct (decide (l = [])) as [->|Hne]; [by exists w|].
  assert (0 < length l)%nat as Hpos by (destruct l; [done|simpl; lia]). cbn [read_body].
  destruct (Z.leb_spec (zlen l) 0) as [|_]; [unfold zlen in *; lia|].
  set (k := match cuts w with [] => length l | c :: _ => length l `min` S c end%nat).
  assert (0 < k ≤ length l)%nat as Hk by (unfold k; destruct (cuts w); lia).
  set (w1 := mkwire (drop k l ++ tl) (tail (cuts w))).
  assert (recv (zlen l) w = Ret (take k l) w1) as Hr.
  { unfold recv, w1. rewrite Hin. unfold zlen. rewrite Nat2Z.id. fold k.
    rewrite take_app_le, drop_app_le by lia. done. }
  rewrite (bind_Ret _ _ _ _ _ Hr).
  assert (zlen l - zlen (take k l) = zlen (drop k l)) as ->.
  { unfold zlen. rewrite length_take, length_drop. lia. }
  destruct (IH (drop k l) w1) as (w' & Hb & Hin' & Hw').
  { rewrite length_drop. lia. }
  { unfold whole_cuts, w1 in *. simpl. destruct (cuts w); [done|]. by apply Forall_cons in Hw as [_ ?]. }
  { done. }
  exists w'. split; [|done].
  assert (take k l ≠ []) as Ht.
  { intros E%(f_equal length). rewrite length_take in E. simpl in E. lia. }
  destruct (take k l) as [|x xs] eqn:Etk; [done|].
  rewrite (bind_Ret _ _ _ _ _ Hb). unfold mret, M_ret. cbn [fmap option_fmap option_map].
  by rewrite <- Etk, take_drop.
Qed.

Lemma decrypt_run (l : bytes) (s : Obfuscated.t) st :
  recvState s = st → decrypt (ctr l st).1 s = Ret l (s <| recvState := (ctr l st).2 |>).
Proof.
  intros <-. unfold decrypt. rewrite (bind_Ret _ _ s s s) by done. by rewrite ctr_involutive.
Qed.

Lemma on_stream_run {X S A} (m : M X A) (x x' : X) (s : S) a : m x = Ret a x' → on_stream m (x, s) = Ret a (x', s).
Proof. unfold on_stream. by intros ->. Qed.
Lemma on_self_run {X S A} (m : M S A) (x : X) (s s' : S) a : m s = Ret a s' → on_self m (x, s) = Ret a (x, s').
Proof. unfold on_self. by intros ->. Qed.

Lemma ctr_nonempty l st : l ≠ [] → (ctr l st).1 ≠ [].
Proof. intros Hl E. pose proof (ctr_length l st) as Hc. rewrite E in Hc. by destruct l. Qed.

(** The part of [Receive] after the length. *)
Lemma receive_tail p tl max (w : wire) (s : Obfuscated.t) st :
  zlen p ≤ max → recvState s = st → whole_cuts w → incoming w = (ctr p st).1 ++ tl →
  ∃ w', (if max <? zlen p then mret []
         else
           body ← on_stream (read_body (Z.to_nat (zlen p)) (zlen p));
           match body with None => mret [] | Some data => on_self (decrypt data) end) (w, s)
        = Ret p (w', s <| recvState := (ctr p st).2 |>) ∧ incoming w' = tl ∧ whole_cuts w'.
Proof.
  intros Hmax Hs Hw Hin. destruct (Z.ltb_spec max (zlen p)); [lia|].
  assert (zlen p = zlen (ctr p st).1) as Hz by (unfold zlen; by rewrite ctr_length).
  destruct (read_body_run (Z.to_nat (zlen p)) (ctr p st).1 tl w) as (w' & Hb & Hin' & Hw').
  { rewrite ctr_length. unfold zlen. lia. }
  { done. }
  { done. }
  exists w'. split; [|done]. rewrite <- Hz in Hb.
  rewrite (bind_Ret _ _ _ _ _ (on_stream_run _ _ _ s _ Hb)). by apply on_self_run, decrypt_run.
Qed.

(** One [recv] and its decryption. *)
Lemma recv_decrypt l tl (w : wire) (s : Obfuscated.t) st :
  (length l ≤ 3)%nat → l ≠ [] → recvState s = st → whole_cuts w → incoming w = (ctr l st).1 ++ tl →
  ∃ w', on_stream (recv (zlen l)) (w, s) = Ret (ctr l st).1 (w', s) ∧ (ctr l st).1 ≠ [] ∧
    on_self (decrypt (ctr l st).1) (w', s) = Ret l (w', s <| recvState := (ctr l st).2 |>) ∧
    incoming w' = tl ∧ whole_cuts w'.
Proof.
  intros Hl Hne Hs Hw Hin. destruct (recv_small (ctr l st).1 tl w) as (w' & Hr & Hin' & Hw'); [by rewrite ctr_length|done..|].
  assert (zlen (ctr l st).1 = zlen l) as Hz by (unfold zlen; by rewrite ctr_length). rewrite Hz in Hr.
  exists w'. split_and!; [by apply on_stream_run|by apply ctr_nonempty|by apply on_self_run, decrypt_run|done..].
Qed.

Lemma Receive_run p tl max (w : wire) (s : Obfuscated.t) st :
  packet_ok max p → max < 2 ^ 26 → recvState s = st → whole_cuts w → incoming w = (ctr (frame p) st).1 ++ tl →
  ∃ w', Receive max (w, s) = Ret p (w', s <| recvState := (ctr (frame p) st).2 |>) ∧ incoming w' = tl ∧ whole_cuts w'.
Proof.
  intros (Hp & Hmod & Hmax) Hmax2 Hs Hw Hin. pose proof (zlen_nonneg p) as Hp0.
  set (len := zlen p / 4) in *. assert (zlen p = 4 * len) as Hlen4 by (apply Z_div_exact_full_2; lia).
  assert (0 ≤ len < 2 ^ 24) as Hlen by lia.
  unfold frame, frame_header in *. fold len in Hin |- *. unfold Receive.
  destruct (Z.ltb_spec len 127) as [Hshort|Hlong].
  - cbn [mjoin list_join fmap list_fmap app Stream.item_bytes] in Hin |- *. rewrite app_nil_r in *.
    change (u8 len :: p) with ([u8 len] ++ p) in *. rewrite ctr_app in Hin |- *. simpl fst in Hin. rewrite <- app_assoc in Hin.
    destruct (recv_decrypt [u8 len] ((ctr p (ctr [u8 len] st).2).1 ++ tl) w s st) as (w1 & Hr & Hne & Hd & Hin1 & Hw1); [simpl; lia|done..|].
    change (zlen [u8 len]) with 1 in Hr. rewrite (bind_Ret _ _ _ _ _ Hr).
    destruct (ctr [u8 len] st).1 as [|c cs] eqn:Ec; [done|]. rewrite (bind_Ret _ _ _ _ _ Hd).
    rewrite (bind_Ret _ _ _ (u8 len) (w1, s <| recvState := (ctr [u8 len] st).2 |>)) by done.
    rewrite u8_small by lia. destruct (Z.ltb_spec len 0x7F); [|lia].
    replace (len * 4) with (zlen p) by lia.
    rewrite (bind_Ret _ _ _ (Some (zlen p)) (w1, s <| recvState := (ctr [len] st).2 |>)) by (by rewrite <- (u8_small len) by lia).
    rewrite u8_small in * by lia.
    destruct (receive_tail p tl max w1 (s <| recvState := (ctr [len] st).2 |>) (ctr [len] st).2) as (w' & E & ? & ?); [done..|].
    exists w'. by rewrite E.
  - set (l2 := [Z.land len 255; Z.land (Z.shiftr len 8) 255; Z.land (Z.shiftr len 16) 255]).
    assert (mjoin (Stream.item_bytes <$> [Stream.IByte 127; Stream.IByte (Z.land len 255);
      Stream.IByte (Z.land (Z.shiftr len 8) 255); Stream.IByte (Z.land (Z.shiftr len 16) 255)] ++ [Stream.IBytes p])
      = [127] ++ l2 ++ p) as Hf.
    { cbn [mjoin list_join fmap list_fmap app Stream.item_bytes l2]. by rewrite app_nil_r. }
    rewrite Hf in *. rewrite !ctr_app in Hin |- *. simpl fst in Hin. simpl snd. rewrite <- !app_assoc in Hin.
    destruct (recv_decrypt [127] ((ctr l2 (ctr [127] st).2).1 ++ (ctr p (ctr l2 (ctr [127] st).2).2).1 ++ tl) w s st) as (w1 & Hr & Hne & Hd & Hin1 & Hw1); [simpl; lia|done..|].
    change (zlen [127]) with 1 in Hr. rewrite (bind_Ret _ _ _ _ _ Hr).
    destruct (ctr [127] st).1 as [|c cs] eqn:Ec; [done|]. rewrite (bind_Ret _ _ _ _ _ Hd).
    set (s1 := s <| recvState := (ctr [127] st).2 |>) in *.
    rewrite (bind_Ret _ _ _ 127 (w1, s1)) by done. change (127 <? 0x7F) with false. cbv iota.
    destruct (recv_decrypt l2 ((ctr p (ctr l2 (ctr [127] st).2).2).1 ++ tl) w1 s1 (ctr [127] st).2) as (w2 & Hr2 & Hne2 & Hd2 & Hin2 & Hw2); [simpl; lia|done..|].
    change (zlen l2) with 3 in Hr2. set (s2 := s1 <| recvState := _ |>) in *.
    rewrite (bind_Ret _ _ _ (Some (zlen p)) (w2, s2)).
    + destruct (receive_tail p tl max w2 s2 (ctr l2 (ctr [127] st).2).2) as (w' & E & ? & ?); [done..|].
      exists w'. by rewrite E.
    + rewrite (bind_Ret _ _ _ _ _ Hr2). pose proof (ctr_length l2 (ctr [127] st).2) as Hlen2.
      destruct (ctr l2 (ctr [127] st).2).1 as [|x [|y [|z [|]]]] eqn:Ec2; try done.
      rewrite (bind_Ret _ _ _ _ _ Hd2). unfold l2.
      rewrite (bind_Ret _ _ (w2, s2) (Z.land len 255) (w2, s2)), (bind_Ret _ _ (w2, s2) (Z.land (Z.shiftr len 8) 255) (w2, s2)),
        (bind_Ret _ _ (w2, s2) (Z.land (Z.shiftr len 16) 255) (w2, s2)) by done.
      unfold mret, M_ret. do 2 f_equal. rewrite len24_split by done. rewrite u64_small by lia. lia.
Qed.

Lemma receive_n_run ps tl max (w : wire) (s r : Obfuscated.t) :
  Forall (packet_ok max) ps → max < 2 ^ 26 → recvState r = sendState s → whole_cuts w →
  ∃ stream s', send_all ps s = Ret stream s' ∧
    (incoming w = stream ++ tl →
     ∃ w' r', receive_n (length ps) max (w, r) = Ret ps (w', r') ∧ incoming w' = tl ∧
       recvState r' = sendState s').
Proof.
  intros Hps Hmax. revert w s r. induction Hps as [|p ps Hp Hps IH]; intros w s r Hst Hw.
  { exists [], s. split; [done|]. intros Hin. by exists w, r. }
  cbn [send_all length receive_n].
  rewrite (bind_Ret _ _ _ _ _ (Send_run p s ltac:(destruct Hp as (_ & _ & ?); lia))).
  set (s1 := s <| sendState := (ctr (frame p) (sendState s)).2 |>).
  set (r1 := r <| recvState := (ctr (frame p) (sendState s)).2 |>).
  destruct (IH (mkwire [] []) s1 r1) as (stream & s' & Hs' & _); [done|by constructor|].
  exists ((ctr (frame p) (sendState s)).1 ++ stream), s'. split.
  { by rewrite (bind_Ret _ _ _ _ _ Hs'). }
  intros Hin. rewrite <- app_assoc in Hin.
  destruct (Receive_run p (stream ++ tl) max w r (sendState s)) as (w1 & E1 & Hin1 & Hw1); [done..|].
  rewrite (bind_Ret _ _ _ _ _ E1). fold r1.
  destruct (IH w1 s1 r1) as (stream' & s'' & Hs'' & Hr); [done..|]. rewrite Hs' in Hs''. simplify_eq.
  destruct (Hr Hin1) as (w' & r' & E & Hin' & Hst'). exists w', r'. split; [|done]. by rewrite (bind_Ret _ _ _ _ _ E).
Qed.

(** What the peer of a fresh connection does with the header: it takes the
    key and the initial vector out of it and decrypts the header itself. *)
Definition peer_of_header (h : bytes) : Obfuscated.t :=
  let st := ctr_init (slice h 8 32) (slice h 40 16) in
  mk (ctr h st).2 st true true.

End framing.

(** A cipher for the examples: byte [i] of the stream is xored with [i]. *)
Section example_cipher.
Fixpoint xor_from (n : Z) (l : bytes) : bytes :=
  match l with [] => [] | b :: l' => Z.lxor b (n mod 256) :: xor_from (n + 1) l' end.
#[export] Instance xor_ctr : Ctr := {
  ctr_state := Z;
  ctr_init k _ := le_val (take 1 k);
  ctr l n := (xor_from n l, n + zlen l);
}.
#[export] Instance xor_laws : CtrLaws.
Proof.
  assert (∀ l n, length (xor_from n l) = length l) as Hl.
  { induction l; intros; simpl; [done|]. by f_equal. }
  split; simpl.
  - intros n. by rewrite zlen_nil, Z.add_0_r.
  - intros l1 l2 n. f_equal; [|rewrite zlen_app; lia]. revert n.
    induction l1 as [|b l1 IH]; intros n; simpl; [by rewrite zlen_nil, Z.add_0_r|].
    rewrite IH, zlen_cons. by replace (n + 1 + zlen l1) with (n + (1 + zlen l1)) by lia.
  - intros. apply Hl.
  - intros l1 l2 n E. unfold zlen. by rewrite E.
  - intros l n. f_equal; [|unfold zlen; by rewrite Hl]. revert n.
    induction l as [|b l IH]; intros n; simpl; [done|]. by rewrite IH, Z.lxor_assoc, Z.lxor_nilpotent, Z.lxor_0_r.
Qed.
End example_cipher.

Definition ex_nonce : bytes := List.repeat 1 64.
Definition ex_socket : @Obfuscated.t xor_ctr := @Obfuscated.mk xor_ctr 0 0 false false.
