(* ===== verification/Socks.v ===== *)
(** * libtgvoip/NetworkSocket.cpp: the SOCKS5 client

    [NetworkSocketSOCKS5Proxy]: the handshake with the proxy as the state
    machine driven by [OnReadyToSend] and [OnReadyToReceive], and the
    encapsulation of datagrams.  What the TCP connection to the proxy
    delivers and whether it failed, and what the sockets underneath answer,
    are arguments; the resolver of domain names is a parameter. *)

From Stdlib Require Import ZArith Lia.
From stdpp Require Import base tactics list numbers option.
From S2P Require Import Prelude Words Buffers Streams Net.
From stdpp Require Import list.
Open Scope Z_scope.

(** [ResolveDomainName]: the IPv4 address of a name. *)
Class Resolver := resolve : bytes → option Z.

Module Socks.
Import BufferOutputStream BufferInputStream.

Inductive NetworkProtocol := PROTO_UDP | PROTO_TCP.
#[export] Instance protocol_eq : EqDecision NetworkProtocol.
Proof. solve_decision. Defined.

Inductive ConnectionState :=
| Initial
| WaitingForAuthMethod
| WaitingForAuthResult
| WaitingForCommandResult
| Connected.
#[export] Instance state_eq : EqDecision ConnectionState.
Proof. solve_decision. Defined.

(** The conversation with the proxy. *)
Inductive message := Sent (l : bytes) | Received (l : bytes).

Record t := mk {
  protocol : NetworkProtocol;
  username : bytes;
  password : bytes;
  connectedAddress : option NetworkAddress.t;
  connectedPort : Z;
  state : ConnectionState;
  failed : bool;
  readyToSend : bool;
  obfuscated : bool;            (** [tcp] was wrapped in a [NetworkSocketTCPObfuscated] *)
  log : list message;           (** history, oldest first *)
}.
#[export] Instance t_eta : Eta t := λ s,
  mk (protocol s) (username s) (password s) (connectedAddress s) (connectedPort s) (state s) (failed s)
     (readyToSend s) (obfuscated s) (log s).

(** The constructor; [garbage] is the port, which it does not initialise. *)
Definition ctor (udp : bool) (user pass : bytes) (garbage : Z) : t :=
  mk (if udp then PROTO_UDP else PROTO_TCP) user pass None garbage Initial false false false [].

(** [Connect]. *)
Definition Connect (address : NetworkAddress.t) (port : Z) : M t unit :=
  modify (λ s, s <| connectedAddress := Some address |> <| connectedPort := port |>).

Definition IsFailed (tcpFailed : bool) (s : t) : bool := failed s || tcpFailed.

Definition NeedSelectForSending (s : t) : bool :=
  bool_decide (state s = Initial) || bool_decide (state s = Connected).

Definition fail : M t bool := modify (λ s, s <| failed := true |>);; mret false.
Definition tcp_send (l : bytes) : M t unit := modify (λ s, s <| log ::= λ g, g ++ [Sent l] |>).

(** The buffer of 1024 bytes the messages are built in. *)
Definition out : BufferOutputStream.t := ctor_provided 1024.

Definition SendConnectionCommand : M t unit :=
  s ← get;
  match protocol s with
  | PROTO_TCP =>
      match connectedAddress s with
      | None => fail;; mret tt
      | Some a =>
          p ← built out (WriteByte 5;; WriteByte 1;; WriteByte 0;;
            match a with
            | NetworkAddress.IPv4 z => WriteByte 1;; WriteInt32 z
            | NetworkAddress.IPv6 l => WriteByte 4;; WriteBytes l
            end;;
            WriteInt16 (s16 (htons (connectedPort s))));
          tcp_send p;;
          modify (λ s, s <| state := WaitingForCommandResult |>)
      end
  | PROTO_UDP =>
      p ← built out (WriteByte 5;; WriteByte 3;; WriteByte 0;; WriteByte 1;; WriteInt32 0;; WriteInt16 0);
      tcp_send p;;
      modify (λ s, s <| state := WaitingForCommandResult |>)
  end.

(** [wrapped]: the answer of the socket underneath. *)
Definition OnReadyToSend (wrapped : bool) : M t bool :=
  s ← get;
  if bool_decide (state s = Initial) then
    p ← built out (WriteByte 5;;
      if negb (zlen (username s) =? 0) then WriteByte 2;; WriteByte 0;; WriteByte 2
      else WriteByte 1;; WriteByte 0);
    tcp_send p;;
    modify (λ s, s <| state := WaitingForAuthMethod |>);;
    mret false
  else mret wrapped.

(** [tcp->Receive(buf, sizeof(buf))]. *)
Definition tcp_receive (data : bytes) : M t unit := modify (λ s, s <| log ::= λ g, g ++ [Received data] |>).
Definition input (data : bytes) : BufferInputStream.t := BufferInputStream.ctor data (zlen data).

(** A string is cut to 255 bytes. *)
Definition short (l : bytes) : bytes := take 255 l.

Definition auth_request (user pass : bytes) : M BufferOutputStream.t unit :=
  WriteByte 1;;
  WriteByte (u8 (if 255 <? zlen user then 255 else zlen user));;
  WriteBytes (short user);;
  WriteByte (u8 (if 255 <? zlen pass then 255 else zlen pass));;
  WriteBytes (short pass).

Section ops.
Context `{Resolver}.

(** The address in the reply to the UDP ASSOCIATE command; [false] when the
    function fails. *)
Definition reply_address (atyp : Z) : M (BufferInputStream.t * t) bool :=
  if atyp =? 1 then
    addr ← on_stream ReadInt32;
    on_self (modify (λ s, s <| connectedAddress := Some (NetworkAddress.IPv4 (u32 addr)) |>));;
    mret true
  else if atyp =? 3 then
    len ← on_stream ReadByte;
    domain ← on_stream (ReadBytes len);
    (* a C string: it ends at the first zero byte *)
    let name := match find_index (λ b, b =? 0) domain with Some n => take n domain | None => domain end in
    on_self (modify (λ s, s <| connectedAddress := NetworkAddress.IPv4 <$> resolve name |>));;
    match resolve name with
    | None => on_self fail;; mret false
    | Some _ => mret true
    end
  else if atyp =? 4 then
    addr ← on_stream (ReadBytes 16);
    on_self (modify (λ s, s <| connectedAddress := Some (NetworkAddress.IPv6 addr) |>));;
    mret true
  else on_self fail;; mret false.

(** The reply to the UDP ASSOCIATE command, in the [try] block; [None] when
    the function returns from inside it with [false]. *)
Definition udp_associate_reply : M (BufferInputStream.t * t) (option unit) :=
  ver ← on_stream ReadByte;
  rep ← on_stream ReadByte;
  if negb (ver =? 5) then on_self fail;; mret None
  else if negb (rep =? 0) then on_self fail;; mret None
  else
    _ ← on_stream ReadByte;
    atyp ← on_stream ReadByte;
    ok ← reply_address atyp;
    if ok : bool then
      port ← on_stream ReadInt16;
      on_self (modify (λ s, s <| connectedPort := htons (u16 port) |> <| state := Connected |>
                              <| readyToSend := true |>));;
      mret (Some tt)
    else mret None.

(** [tcpFailed]: the TCP connection failed while receiving; [wrapped]: the
    answer of the socket underneath. *)
Definition OnReadyToReceive (data : bytes) (tcpFailed wrapped : bool) : M t bool :=
  s ← get;
  match state s with
  | WaitingForAuthMethod =>
      tcp_receive data;;
      if (zlen data <? 2) || tcpFailed then fail
      else with_stream (input data)
        (ver ← on_stream ReadByte;
         chosenMethod ← on_stream ReadByte;
         if negb (ver =? 5) then on_self fail
         else if chosenMethod =? 0 then on_self SendConnectionCommand;; mret false
         else if (chosenMethod =? 2) && negb (zlen (username s) =? 0) then
           p ← on_self (built out (auth_request (username s) (password s)));
           on_self (tcp_send p);;
           on_self (modify (λ s, s <| state := WaitingForAuthResult |>));;
           mret false
         else on_self fail)
  | WaitingForAuthResult =>
      tcp_receive data;;
      if (zlen data <? 2) || tcpFailed then fail
      else with_stream (input data)
        (ver ← on_stream ReadByte;
         status ← on_stream ReadByte;
         if negb (ver =? 1) then on_self fail
         else if negb (status =? 0) then on_self fail
         else on_self SendConnectionCommand;; mret false)
  | WaitingForCommandResult =>
      tcp_receive data;;
      match protocol s with
      | PROTO_TCP =>
          if (zlen data <? 2) || tcpFailed then fail
          else with_stream (input data)
            (ver ← on_stream ReadByte;
             if negb (ver =? 5) then on_self fail
             else
               rep ← on_stream ReadByte;
               if negb (rep =? 0) then on_self fail
               else
                 on_self (modify (λ s, s <| state := Connected |> <| obfuscated := true |> <| readyToSend := true |>));;
                 mret wrapped)
      | PROTO_UDP =>
          if (zlen data <? 2) || tcpFailed then fail
          else
            r ← try_catch (with_stream (input data) udp_associate_reply)
                  (λ e, match e with
                        | OutOfRange => fail;; mret (Some tt)
                        | _ => throw e
                        end);
            match r with Some _ => mret wrapped | None => mret false end
      end
  | _ => mret wrapped
  end.

(** ** Datagrams *)

(** [Send(packet)] with protocol UDP: what is given to the UDP socket, to be
    sent to the address the proxy named. *)
Definition Send (data : bytes) (address : NetworkAddress.t) (port : Z) : M t bytes :=
  built (ctor_provided 1500)
    (WriteInt16 0;; WriteByte 0;;
     match address with
     | NetworkAddress.IPv4 z => WriteByte 1;; WriteInt32 z
     | NetworkAddress.IPv6 l => WriteByte 4;; WriteBytes l
     end;;
     WriteInt16 (s16 (htons port));;
     WriteBytes data).

(** A [NetworkPacket]. *)
Record packet := mkpacket { p_data : bytes; p_length : Z; p_address : option NetworkAddress.t; p_port : Z }.

(** [Receive(packet)] with protocol UDP: the datagram [data] came from
    [from] and [port]; the packet as the caller left it, with room for
    [p_length] bytes, and as it finds it.  [*connectedAddress] is undefined
    when the proxy has not named an address. *)
Definition Receive (pkt : packet) (data : bytes) (from : NetworkAddress.t) (port : Z) : M t packet :=
  s ← get;
  a ← (if zlen data =? 0 then mret from else defined (connectedAddress s));
  if negb (zlen data =? 0) && NetworkAddress.eqb from a && (port =? connectedPort s) then
    with_stream (input data)
      (_ ← on_stream ReadInt16;
       _ ← on_stream ReadByte;
       atyp ← on_stream ReadByte;
       address ← (if atyp =? 1 then
                    z ← on_stream ReadInt32; mret (Some (NetworkAddress.IPv4 (u32 z)))
                  else if atyp =? 4 then
                    l ← on_stream (ReadBytes 16); mret (Some (NetworkAddress.IPv6 l))
                  else mret (p_address pkt));
       port ← on_stream ReadInt16;
       n ← on_stream (gets Remaining);
       if n <=? p_length pkt then
         l ← on_stream (ReadBytes n);
         mret (mkpacket l n address (htons (u16 port)))
       else mret (mkpacket (p_data pkt) 0 address (htons (u16 port))))
  else mret pkt.
End ops.
End Socks.

(* ------------------------------------------------------------------ *)
(** ** The messages *)

(** A chain of writes is the list of what it writes. *)
Ltac as_items :=
  intros ?; cbn [Stream.write_items Stream.write_item];
  repeat (rewrite ?bind_assoc; first [apply bind_ext; intros [] ? | symmetry; exact (bind_ret_r _ _)]).

Section messages.
Import Stream Socks.

Definition address_items (a : NetworkAddress.t) : list item :=
  match a with
  | NetworkAddress.IPv4 z => [IByte 1; IInt32 z]
  | NetworkAddress.IPv6 l => [IByte 4; IBytes l]
  end.
Definition wf_address (a : NetworkAddress.t) : Prop :=
  match a with NetworkAddress.IPv4 _ => True | NetworkAddress.IPv6 l => length l = 16%nat end.

Definition message_of (l : list item) : bytes := mjoin (item_bytes <$> l).

(** The client greeting of RFC 1928, offering no authentication and, with a
    user name, user name and password. *)
Definition hello (user : bytes) : bytes := if zlen user =? 0 then [5; 1; 0] else [5; 2; 0; 2].

(** The request of RFC 1929. *)
Definition auth (user pass : bytes) : bytes :=
  [1; zlen (short user)] ++ short user ++ [zlen (short pass)] ++ short pass.

(** CONNECT to an address, or UDP ASSOCIATE. *)
Definition connect (a : NetworkAddress.t) (port : Z) : bytes :=
  message_of ([IByte 5; IByte 1; IByte 0] ++ address_items a ++ [IInt16 (s16 (htons port))]).
Definition command (s : Socks.t) : bytes :=
  match protocol s, connectedAddress s with
  | PROTO_TCP, Some a => connect a (connectedPort s)
  | PROTO_TCP, None => []
  | PROTO_UDP, _ => [5; 3; 0; 1; 0; 0; 0; 0; 0; 0]
  end.

Lemma zlen_short l : 0 ≤ zlen (short l) ≤ 255.
Proof. unfold zlen, short. rewrite length_take. lia. Qed.
Lemma short_len l : u8 (if 255 <? zlen l then 255 else zlen l) = zlen (short l).
Proof.
  unfold zlen, short. rewrite length_take. destruct (Z.ltb_spec 255 (Z.of_nat (length l))); rewrite u8_small; lia.
Qed.

Lemma built_out {S} m l (s : S) :
  (∀ x, m x = write_items l x) → zlen (message_of l) ≤ 1024 → built out m s = Ret (message_of l) s.
Proof. intros E Hl. rewrite (built_ext _ _ _ s E). apply built_provided; [lia|done]. Qed.

Lemma built_auth {S} user pass (s : S) : built out (auth_request user pass) s = Ret (auth user pass) s.
Proof.
  unfold auth_request. rewrite !short_len.
  rewrite (built_out _ [IByte 1; IByte (zlen (short user)); IBytes (short user); IByte (zlen (short pass)); IBytes (short pass)]).
  - unfold message_of, auth. cbn. by rewrite app_nil_r.
  - as_items.
  - unfold message_of. cbn. rewrite !zlen_cons, zlen_app, zlen_cons, zlen_app, zlen_nil.
    pose proof (zlen_short user). pose proof (zlen_short pass). lia.
Qed.

Lemma SendConnectionCommand_run s :
  (protocol s = PROTO_TCP → ∃ a, connectedAddress s = Some a ∧ wf_address a) →
  SendConnectionCommand s
    = Ret tt (s <| log ::= λ g, g ++ [Sent (command s)] |> <| state := WaitingForCommandResult |>).
Proof.
  intros Ha. unfold SendConnectionCommand, command. rewrite (bind_Ret _ _ s s s) by done.
  destruct (protocol s) eqn:Hp.
  - rewrite (bind_Ret _ _ s [5; 3; 0; 1; 0; 0; 0; 0; 0; 0] s); [done|].
    apply (built_out _ [IByte 5; IByte 3; IByte 0; IByte 1; IInt32 0; IInt16 0]); [as_items|done].
  - destruct Ha as (a & -> & Hwf); [done|]. rewrite (bind_Ret _ _ s (connect a (connectedPort s)) s); [done|].
    apply (built_out _ ([IByte 5; IByte 1; IByte 0] ++ address_items a ++ [IInt16 (s16 (htons (connectedPort s)))])).
    + destruct a; as_items.
    + unfold message_of, zlen. destruct a as [z|l]; cbn; [lia|].
      rewrite length_app. simpl in Hwf. rewrite Hwf. simpl. lia.
Qed.
End messages.

Lemma wp_try_catch {S A} (m : M S A) h s (Q : A → S → Prop) T C :
  wp m s Q (λ e s', wp (h e) s' Q T C) C → wp (try_catch m h) s Q T C.
Proof. unfold wp, try_catch. by destruct (m s). Qed.

(* ------------------------------------------------------------------ *)
(** ** The handshake *)

Section handshake.
Context `{Resolver}.
Import Socks.

Inductive step : Socks.t → Socks.t → Prop :=
| step_send wrapped s b s' : OnReadyToSend wrapped s = Ret b s' → step s s'
| step_receive data tcpFailed wrapped s b s' :
    wf_bytes data → zlen data ≤ 1024 → OnReadyToReceive data tcpFailed wrapped s = Ret b s' → step s s'.

(** A socket to an address, through a proxy. *)
Definition start (udp : bool) (user pass : bytes) (address : NetworkAddress.t) (port : Z) : Socks.t :=
  ctor udp user pass 0 <| connectedAddress := Some address |> <| connectedPort := port |>.

(** The conversation until the proxy let the client in. *)
Definition admitted (user pass : bytes) (l : list message) : Prop :=
  (∃ r, l = [Sent (hello user); Received (5 :: 0 :: r)]) ∨
  (user ≠ [] ∧ ∃ r r', l = [Sent (hello user); Received (5 :: 2 :: r); Sent (auth user pass); Received (1 :: 0 :: r')]).

Definition conversation (s : Socks.t) : Prop :=
  match state s with
  | Initial => log s = []
  | WaitingForAuthMethod => log s = [Sent (hello (username s))]
  | WaitingForAuthResult =>
      username s ≠ [] ∧
      ∃ r, log s = [Sent (hello (username s)); Received (5 :: 2 :: r); Sent (auth (username s) (password s))]
  | WaitingForCommandResult =>
      ∃ l, admitted (username s) (password s) l ∧ log s = l ++ [Sent (command s)]
  | Connected =>
      ∃ l r, admitted (username s) (password s) l ∧ log s = l ++ [Sent (command s); Received (5 :: 0 :: r)]
  end.

Record socks_wf (s : Socks.t) : Prop := {
  sw_address : protocol s = PROTO_TCP → ∃ a, connectedAddress s = Some a ∧ wf_address a;
  sw_ready : readyToSend s = true → state s = Connected;
}.
Definition socks_inv (s : Socks.t) : Prop := socks_wf s ∧ (failed s = false → conversation s).

Abbreviation total m s Q := (wp m s Q (λ _ _, False) (λ _, False)).

Lemma socks_start_inv udp user pass address port : wf_address address → socks_inv (start udp user pass address port).
Proof. intros Ha. split; [constructor; [by exists address|done]|done]. Qed.

Lemma total_Ret {A} (m : M Socks.t A) s a s' (Q : A → Socks.t → Prop) : m s = Ret a s' → Q a s' → total m s Q.
Proof. unfold wp. by intros ->. Qed.

Lemma fail_inv s : socks_wf s → total fail s (λ _ s', socks_inv s').
Proof. intros [Ha Hr]. apply (total_Ret _ _ false (s <| failed := true |>)); [done|]. by split; [constructor|]. Qed.

Lemma hello_run s : built out (BufferOutputStream.WriteByte 5;;
      if negb (zlen (username s) =? 0)
      then BufferOutputStream.WriteByte 2;; BufferOutputStream.WriteByte 0;; BufferOutputStream.WriteByte 2
      else BufferOutputStream.WriteByte 1;; BufferOutputStream.WriteByte 0) s = Ret (hello (username s)) s.
Proof.
  unfold hello. destruct (zlen (username s) =? 0); simpl negb; cbv iota.
  - apply (built_out _ [Stream.IByte 5; Stream.IByte 1; Stream.IByte 0]); [as_items|done].
  - apply (built_out _ [Stream.IByte 5; Stream.IByte 2; Stream.IByte 0; Stream.IByte 2]); [as_items|done].
Qed.

Lemma send_inv wrapped s : socks_inv s → total (OnReadyToSend wrapped) s (λ _ s', socks_inv s').
Proof.
  intros [[Ha Hr] Ht]. unfold OnReadyToSend. apply wp_bind, wp_get. case_bool_decide as Hi; [|by apply wp_ret].
  apply wp_bind. eapply total_Ret; [apply hello_run|].
  apply wp_bind, wp_modify, wp_bind, wp_modify, wp_ret. split; [constructor; cbn; [done|]|].
  - intros Hrd%Hr. congruence.
  - intros Hf. specialize (Ht Hf). unfold conversation in *. cbn. rewrite Hi in Ht. by rewrite Ht.
Qed.

(** The proxy let the client in: the command is sent. *)
Lemma command_inv s l :
  socks_wf s → state s ≠ Connected → (failed s = false → admitted (username s) (password s) l ∧ log s = l) →
  total SendConnectionCommand s (λ _ s', socks_inv s').
Proof.
  intros [Ha Hr] Hn Hl. eapply total_Ret; [by apply SendConnectionCommand_run|]. split; [constructor; cbn; [done|]|].
  - by intros Hrd%Hr.
  - cbn. intros Hf. destruct (Hl Hf) as [? Hlog]. unfold conversation. cbn. exists l. by rewrite Hlog.
Qed.

(** Reading the two bytes of a reply. *)
Lemma read_two {A} b0 b1 tl (k : Z → Z → M (BufferInputStream.t * Socks.t) A) s Q :
  wf_bytes (b0 :: b1 :: tl) → zlen (b0 :: b1 :: tl) ≤ 1024 →
  (∀ x, BufferInputStream.wf x → BufferInputStream.rest x = tl →
     wp (k b0 b1) (x, s) (λ a p, Q a p.2) (λ _ _, False) (λ _, False)) →
  total (with_stream (input (b0 :: b1 :: tl))
    (x ← on_stream BufferInputStream.ReadByte; y ← on_stream BufferInputStream.ReadByte; k x y)) s Q.
Proof.
  intros Hwf Hlen Hk. apply wp_with_stream, wp_bind, wp_on_stream.
  eapply wp_ReadByte; [apply ctor_wf; [done|lia]|reflexivity|]. intros x1 Hx1 Hr1.
  apply wp_bind, wp_on_stream. eapply wp_ReadByte; [done|exact Hr1|]. intros x2 Hx2 Hr2. by apply Hk.
Qed.

Lemma two_bytes (data : bytes) : (zlen data <? 2) = false → ∃ b0 b1 tl, data = b0 :: b1 :: tl.
Proof. destruct data as [|b0 [|b1 tl]]; [done..|]. by exists b0, b1, tl. Qed.

(** The state after a reply was received. *)
Abbreviation got data s := (s <| log ::= λ g, g ++ [Received data] |>).

Lemma got_wf data s : socks_wf s → socks_wf (got data s).
Proof. by intros []. Qed.

Lemma auth_method_inv data tcpFailed wrapped s :
  wf_bytes data → zlen data ≤ 1024 → socks_inv s → state s = WaitingForAuthMethod →
  total (OnReadyToReceive data tcpFailed wrapped) s (λ _ s', socks_inv s').
Proof.
  intros Hb Hlen [Hwf Ht] Hs. unfold OnReadyToReceive. apply wp_bind, wp_get. rewrite Hs.
  apply wp_bind, wp_modify. pose proof (got_wf data s Hwf) as Hwf'.
  apply wp_if; intros E; [by apply fail_inv|]. apply orb_false_iff in E as [(b0 & b1 & tl & ->)%two_bytes _].
  apply read_two; [done..|]. intros x Hx _.
  assert (failed s = false → log s = [Sent (hello (username s))]) as Hlog.
  { intros Hf. specialize (Ht Hf). unfold conversation in Ht. by rewrite Hs in Ht. }
  apply wp_if; intros E5; [by apply wp_on_self, fail_inv|]. apply negb_false_iff, Z.eqb_eq in E5 as ->.
  apply wp_if; intros E0.
  { apply Z.eqb_eq in E0 as ->. apply wp_bind, wp_on_self. eapply wp_mono.
    - apply (command_inv _ [Sent (hello (username s)); Received (5 :: 0 :: tl)]); [done|cbn; by rewrite Hs|].
      cbn. intros Hf. split; [left; by eexists|]. by rewrite Hlog.
    - intros ? ? ?. by apply wp_ret. }
  apply wp_if; intros E2; [|by apply wp_on_self, fail_inv].
  apply andb_true_iff in E2 as [->%Z.eqb_eq Hu%negb_true_iff%Z.eqb_neq].
  apply wp_bind, wp_on_self. eapply total_Ret; [apply built_auth|].
  apply wp_bind, wp_on_self, wp_modify, wp_bind, wp_on_self, wp_modify, wp_ret.
  destruct Hwf as [Ha Hr]. split; [constructor; cbn; [done|]|].
  - intros Hrd%Hr. congruence.
  - cbn. intros Hf. unfold conversation. cbn. split; [intros E; by rewrite E in Hu|]. exists tl. by rewrite Hlog.
Qed.

Lemma auth_result_inv data tcpFailed wrapped s :
  wf_bytes data → zlen data ≤ 1024 → socks_inv s → state s = WaitingForAuthResult →
  total (OnReadyToReceive data tcpFailed wrapped) s (λ _ s', socks_inv s').
Proof.
  intros Hb Hlen [Hwf Ht] Hs. unfold OnReadyToReceive. apply wp_bind, wp_get. rewrite Hs.
  apply wp_bind, wp_modify. pose proof (got_wf data s Hwf) as Hwf'.
  apply wp_if; intros E; [by apply fail_inv|]. apply orb_false_iff in E as [(b0 & b1 & tl & ->)%two_bytes _].
  apply read_two; [done..|]. intros x Hx _.
  apply wp_if; intros E1; [by apply wp_on_self, fail_inv|]. apply negb_false_iff, Z.eqb_eq in E1 as ->.
  apply wp_if; intros E0; [by apply wp_on_self, fail_inv|]. apply negb_false_iff, Z.eqb_eq in E0 as ->.
  apply wp_bind, wp_on_self. eapply wp_mono.
  - apply (command_inv _ (log s ++ [Received (1 :: 0 :: tl)])); [done|cbn; by rewrite Hs|].
    cbn. intros Hf. specialize (Ht Hf). unfold conversation in Ht. rewrite Hs in Ht. destruct Ht as (Hu & r & ->).
    split; [right; split; [done|]|done]. by exists r, tl.
  - intros ? ? ?. by apply wp_ret.
Qed.

(** What a short reply to UDP ASSOCIATE does. *)
Abbreviation caught := (λ e : exn, match e with
  | OutOfRange => fail;; mret (Some tt)
  | _ => throw e
  end).
Lemma caught_inv s : socks_wf s → total (caught OutOfRange) s (λ _ s', socks_inv s').
Proof. intros Hs. apply wp_bind. eapply wp_mono; [by apply fail_inv|]. by intros. Qed.

(** While the reply is parsed only the address of the socket changes. *)
Definition only_address (s s' : Socks.t) : Prop := ∃ a, s' = s <| connectedAddress := a |>.

Lemma only_address_wf s s' : protocol s = PROTO_UDP → socks_wf s → only_address s s' → socks_wf s'.
Proof. intros Hp [Ha Hr] [a ->]. constructor; cbn; [|done]. by rewrite Hp. Qed.

(** One read of the reply, on any bytes. *)
Ltac reply_read Hwf :=
  apply wp_bind, wp_on_stream;
  first [apply wp_ReadByte_any | apply wp_ReadInt16_any | apply wp_ReadInt32_any | apply wp_ReadBytes_any];
  [done|try lia..| |intros ? _; by apply caught_inv].

Lemma reply_address_inv s x atyp :
  protocol s = PROTO_UDP → socks_wf s → BufferInputStream.wf x →
  wp (reply_address atyp) (x, s)
    (λ ok p, if ok : bool then BufferInputStream.wf p.1 ∧ only_address s p.2 else socks_inv p.2)
    (λ e p, total (caught e) p.2 (λ _ s', socks_inv s')) (λ _, False).
Proof.
  intros Hp Hs Hx.
  assert (∀ y s', socks_wf s' → wp (on_self fail;; mret false) (y, s')
    (λ ok p, if ok : bool then BufferInputStream.wf p.1 ∧ only_address s p.2 else socks_inv p.2)
    (λ e p, total (caught e) p.2 (λ _ s', socks_inv s')) (λ _, False)) as Hfail.
  { intros y s' Hs'. apply wp_bind, wp_on_self. unfold wp. cbn. by split; [destruct Hs'; constructor|]. }
  unfold reply_address.
  apply wp_if; intros E1; [|apply wp_if; intros E3; [|apply wp_if; intros E4]].
  - reply_read Hs. intros z x1 Hx1. apply wp_bind, wp_on_self, wp_modify, wp_ret. split; [done|by eexists].
  - reply_read Hs. intros n x1 Hx1 Hn. reply_read Hs. intros l x2 Hx2 _ _.
    apply wp_bind, wp_on_self, wp_modify. destruct (resolve _) as [z|]; [apply wp_ret; split; [done|by eexists]|].
    apply Hfail. eapply only_address_wf; [done..|by eexists].
  - reply_read Hs. intros l x1 Hx1 _ _. apply wp_bind, wp_on_self, wp_modify, wp_ret. split; [done|by eexists].
  - by apply Hfail.
Qed.

Lemma command_result_inv data tcpFailed wrapped s :
  wf_bytes data → zlen data ≤ 1024 → socks_inv s → state s = WaitingForCommandResult →
  total (OnReadyToReceive data tcpFailed wrapped) s (λ _ s', socks_inv s').
Proof.
  intros Hb Hlen [Hwf Ht] Hs. unfold OnReadyToReceive. apply wp_bind, wp_get. rewrite Hs.
  apply wp_bind, wp_modify. pose proof (got_wf data s Hwf) as Hwf'.
  assert (∀ tl, data = 5 :: 0 :: tl → failed s = false → ∃ l r,
    admitted (username s) (password s) l ∧ log s ++ [Received data] = l ++ [Sent (command s); Received (5 :: 0 :: r)]) as Hlog.
  { intros tl -> Hf. specialize (Ht Hf). unfold conversation in Ht. rewrite Hs in Ht. destruct Ht as (l & Hl & ->).
    exists l, tl. split; [done|]. by rewrite <- app_assoc. }
  destruct (protocol s) eqn:Hp.
  - apply wp_if; intros E; [by apply fail_inv|]. apply orb_false_iff in E as [(b0 & b1 & tl & ->)%two_bytes _].
    apply wp_bind, wp_mono with (Q' := λ _ s', socks_inv s'); [|by intros [[]|] ? ?].
    apply wp_try_catch. unfold udp_associate_reply. apply wp_with_stream, wp_bind, wp_on_stream.
    eapply wp_ReadByte; [apply ctor_wf; [done|lia]|reflexivity|]. intros x1 Hx1 Hr1.
    apply wp_bind, wp_on_stream. eapply wp_ReadByte; [done|exact Hr1|]. intros x2 Hx2 _.
    assert (∀ A (a : A) y, wp (on_self fail;; mret a) (y, got (b0 :: b1 :: tl) s)
      (λ (_ : A) (p : BufferInputStream.t * Socks.t), socks_inv p.2)
      (λ e (p : BufferInputStream.t * Socks.t), total (caught e) p.2 (λ _ s', socks_inv s')) (λ _, False)) as Hfail.
    { intros A a' y. apply wp_bind, wp_on_self. unfold wp. cbn. by split; [destruct Hwf'; constructor|]. }
    apply wp_if; intros E5; [apply Hfail|]. apply wp_if; intros E0; [apply Hfail|].
    apply negb_false_iff, Z.eqb_eq in E5 as ->. apply negb_false_iff, Z.eqb_eq in E0 as ->.
    reply_read Hwf'. intros rsv x3 Hx3 _. reply_read Hwf'. intros atyp x4 Hx4 _.
    apply wp_bind. eapply wp_mono; [apply reply_address_inv; [done|exact Hwf'|exact Hx4]|].
    intros [] [x5 s5] H5; [|by apply wp_ret]. destruct H5 as [Hx5 [a Ha]]. simpl in Hx5, Ha.
    assert (socks_wf s5) as Hwf5 by (eapply only_address_wf; [|exact Hwf'|by eexists]; done).
    reply_read Hwf5. intros port x6 Hx6. apply wp_bind, wp_on_self, wp_modify, wp_ret. subst s5.
    split; [constructor; cbn; [by rewrite Hp|done]|]. cbn. intros Hf.
    destruct (Hlog tl eq_refl Hf) as (l & r & Hl & Hr). exists l, r. split; [done|]. cbn.
    unfold command in *. cbn. by rewrite Hp in *.
  - apply wp_if; intros E; [by apply fail_inv|]. apply orb_false_iff in E as [(b0 & b1 & tl & ->)%two_bytes _].
    apply wp_with_stream, wp_bind, wp_on_stream.
    eapply wp_ReadByte; [apply ctor_wf; [done|lia]|reflexivity|]. intros x1 Hx1 Hr1.
    apply wp_if; intros E5; [by apply wp_on_self, fail_inv|].
    apply wp_bind, wp_on_stream. eapply wp_ReadByte; [done|exact Hr1|]. intros x2 Hx2 _.
    apply wp_if; intros E0; [by apply wp_on_self, fail_inv|].
    apply negb_false_iff, Z.eqb_eq in E5 as ->. apply negb_false_iff, Z.eqb_eq in E0 as ->.
    apply wp_bind, wp_on_self, wp_modify, wp_ret. destruct Hwf as [Ha Hr].
    split; [constructor; cbn; [done|done]|]. cbn. intros Hf.
    destruct (Hlog tl eq_refl Hf) as (l & r & Hl & Hr'). by exists l, r.
Qed.

Lemma receive_inv data tcpFailed wrapped s :
  wf_bytes data → zlen data ≤ 1024 → socks_inv s →
  total (OnReadyToReceive data tcpFailed wrapped) s (λ _ s', socks_inv s').
Proof.
  intros Hb Hlen Hs. destruct (state s) eqn:E.
  - unfold OnReadyToReceive. apply wp_bind, wp_get. rewrite E. by apply wp_ret.
  - by apply auth_method_inv.
  - by apply auth_result_inv.
  - by apply command_result_inv.
  - unfold OnReadyToReceive. apply wp_bind, wp_get. rewrite E. by apply wp_ret.
Qed.

(** C34. The SOCKS5 handshake is the one of RFC 1928 and RFC 1929.  Whatever
    bytes the proxy sends and however the calls come, no call throws or
    crashes; and when the socket is connected (or ready to send) without
    having failed, the conversation was: the greeting, the proxy's choice
    of a method that was offered, for user name and password the request
    and an accepting answer, the command, and a reply that grants it. *)
Theorem socks_handshake (udp : bool) (user pass : bytes) (address : NetworkAddress.t) (port : Z) (s : Socks.t) :
  wf_address address → star step (start udp user pass address port) s →
  (failed s = false → state s = Connected ∨ readyToSend s = true →
     ∃ l r, admitted (username s) (password s) l ∧ log s = l ++ [Sent (command s); Received (5 :: 0 :: r)]) ∧
  (∀ wrapped, ∃ b s', OnReadyToSend wrapped s = Ret b s') ∧
  (∀ data tcpFailed wrapped, wf_bytes data → zlen data ≤ 1024 →
     ∃ b s', OnReadyToReceive data tcpFailed wrapped s = Ret b s').
Proof.
  intros Ha Hstar.
  assert (socks_inv s) as Hs.
  { eapply (star_invariant step socks_inv) with (2 := Hstar); [|by apply socks_start_inv].
    intros ? ? [w s0 b s1 E|data tf w s0 b s1 Hb Hl E] H0.
    - pose proof (send_inv w s0 H0) as Hw. unfold wp in Hw. by rewrite E in Hw.
    - pose proof (receive_inv data tf w s0 Hb Hl H0) as Hw. unfold wp in Hw. by rewrite E in Hw. }
  split_and!.
  - intros Hf Hc. assert (state s = Connected) as E by (destruct Hc; [done|by apply Hs]).
    destruct Hs as [_ Ht]. specialize (Ht Hf). unfold conversation in Ht. by rewrite E in Ht.
  - intros w. pose proof (send_inv w s Hs) as Hw. unfold wp in Hw.
    destruct (OnReadyToSend w s) as [b s'| |]; [by exists b, s'|done..].
  - intros data tf w Hb Hl. pose proof (receive_inv data tf w s Hb Hl Hs) as Hw. unfold wp in Hw.
    destruct (OnReadyToReceive data tf w s) as [b s'| |]; [by exists b, s'|done..].
Qed.
End handshake.

Section example.
Import Socks.
#[local] Instance no_names : Resolver := λ _, None.

(** To 1.2.3.4 port 443 through a proxy that asks for a password. *)
Definition ex_start : Socks.t := start false [117] [112] (NetworkAddress.IPv4 67305985) 443.
Definition ex_run (m : M Socks.t bool) (s : Socks.t) : Socks.t := default s (end_state (m s)).
Definition ex1 : Socks.t := ex_run (OnReadyToSend true) ex_start.
Definition ex2 : Socks.t := ex_run (OnReadyToReceive [5; 2] false true) ex1.
Definition ex3 : Socks.t := ex_run (OnReadyToReceive [1; 0] false true) ex2.
Definition ex4 : Socks.t := ex_run (OnReadyToReceive [5; 0; 0; 1; 0; 0; 0; 0; 0; 0] false true) ex3.

Lemma socks_handshake_witness :
  (failed ex4 = false ∧ state ex4 = Connected) ∧
  (failed ex4 = false → state ex4 = Connected ∨ readyToSend ex4 = true →
     ∃ l r, admitted (username ex4) (password ex4) l ∧ log ex4 = l ++ [Sent (command ex4); Received (5 :: 0 :: r)]) ∧
  (∀ wrapped, ∃ b s', OnReadyToSend wrapped ex4 = Ret b s') ∧
  (∀ data tcpFailed wrapped, wf_bytes data → zlen data ≤ 1024 →
     ∃ b s', OnReadyToReceive data tcpFailed wrapped ex4 = Ret b s').
Proof.
  split; [by vm_compute|].
  apply (socks_handshake false [117] [112] (NetworkAddress.IPv4 67305985) 443); [done|].
  eapply star_step; [apply (step_send true ex_start false ex1); vm_compute; reflexivity|].
  eapply star_step; [apply (step_receive [5; 2] false true ex1 false ex2); [repeat constructor; lia|done|vm_compute; reflexivity]|].
  eapply star_step; [apply (step_receive [1; 0] false true ex2 false ex3); [repeat constructor; lia|done|vm_compute; reflexivity]|].
  eapply star_step; [apply (step_receive [5; 0; 0; 1; 0; 0; 0; 0; 0; 0] false true ex3 true ex4); [repeat constructor; lia|done|vm_compute; reflexivity]|].
  apply star_refl.
Defined.
End example.

(* ------------------------------------------------------------------ *)
(** ** Datagrams *)

Lemma wp_Ret_inv {S A} (m : M S A) s a s' :
  wp m s (λ b s1, b = a ∧ s1 = s') (λ _ _, False) (λ _, False) → m s = Ret a s'.
Proof. unfold wp. by destruct (m s) as [b s1| |]; [intros [-> ->]|..]. Qed.

Section datagrams.
Import Socks Stream.

Definition datagram_header (a : NetworkAddress.t) (port : Z) : list item :=
  [IInt16 0; IByte 0] ++ address_items a ++ [IInt16 (s16 (htons port))].
Definition header_size (a : NetworkAddress.t) : Z :=
  match a with NetworkAddress.IPv4 _ => 10 | NetworkAddress.IPv6 _ => 22 end.

Lemma message_app l l' : message_of (l ++ l') = message_of l ++ message_of l'.
Proof. unfold message_of. by rewrite fmap_app, join_app. Qed.

Lemma header_len a port : wf_address a → zlen (message_of (datagram_header a port)) = header_size a.
Proof.
  intros Ha. unfold message_of, zlen. destruct a as [z|l]; cbn; [done|].
  rewrite length_app. simpl in Ha. rewrite Ha. done.
Qed.

Lemma datagram_Send_run data a port (s : Socks.t) :
  wf_address a → zlen data + header_size a ≤ 1500 →
  Send data a port s = Ret (message_of (datagram_header a port) ++ data) s.
Proof.
  intros Ha Hl. unfold Send.
  rewrite (built_ext _ _ (write_items (datagram_header a port ++ [IBytes data]))).
  - assert (message_of (datagram_header a port ++ [IBytes data]) = message_of (datagram_header a port) ++ data) as E.
    { rewrite message_app. unfold message_of at 2. cbn. by rewrite app_nil_r. }
    rewrite <- E. apply built_provided; [lia|]. fold (message_of (datagram_header a port ++ [IBytes data])).
    rewrite E, zlen_app, header_len by done. lia.
  - destruct a; as_items.
Qed.

Lemma u16_s16 x : is_u16 x → u16 (s16 x) = x.
Proof. intros. word_lia. Qed.

(** A datagram goes through the proxy's encapsulation unchanged: what
    [Send] gives to the UDP socket for an address, when a peer sends the same
    bytes back through the proxy, [Receive] unpacks to the same payload,
    address and port, for every payload that fits the two buffers. *)
Theorem socks_datagram_roundtrip (s : Socks.t) (pkt : packet) (data : bytes) (a relay : NetworkAddress.t) (port : Z) :
  NetworkAddress.wf a → is_u16 port → wf_bytes data →
  zlen data + header_size a ≤ 1500 → zlen data ≤ p_length pkt →
  connectedAddress s = Some relay →
  ∃ d, Send data a port s = Ret d s ∧
    Receive pkt d relay (connectedPort s) s = Ret (mkpacket data (zlen data) (Some a) port) s.
Proof.
  intros Ha Hport Hdata Hl Hroom Hrelay.
  assert (wf_address a) as Ha' by (destruct a as [|l]; [done|apply Ha]).
  eexists. split; [by apply datagram_Send_run|]. set (d := message_of _ ++ data).
  assert (zlen d = header_size a + zlen data) as Hd by (unfold d; by rewrite zlen_app, header_len).
  pose proof (zlen_nonneg data) as H0.
  assert (0 < header_size a ≤ 22) as Hh by (destruct a; simpl; lia).
  assert (d = le_bytes 2 0 ++ [0] ++ message_of (address_items a) ++ le_bytes 2 (s16 (htons port)) ++ data) as Ed.
  { unfold d, datagram_header. rewrite !message_app, <- !app_assoc. reflexivity. }
  assert (wf_bytes d) as Hwd.
  { assert (wf_bytes (message_of (address_items a))) as Hwa.
    { destruct a as [z|l]; unfold message_of; cbn -[le_bytes]; rewrite app_nil_r; (constructor; [lia|]); [apply le_bytes_wf|apply Ha]. }
    rewrite Ed. apply Forall_app; split; [apply le_bytes_wf|]. constructor; [lia|].
    apply Forall_app; split; [done|]. apply Forall_app; split; [apply le_bytes_wf|done]. }
  unfold Receive. rewrite (bind_Ret _ _ s s s) by done.
  rewrite (proj2 (Z.eqb_neq (zlen d) 0)) by lia. rewrite Hrelay, (bind_Ret _ _ s relay s) by done.
  assert (NetworkAddress.eqb relay relay = true) as -> by (destruct relay; simpl; [apply Z.eqb_refl|by apply bool_decide_eq_true_2]).
  rewrite Z.eqb_refl. change (negb false && true && true) with true. cbv iota.
  apply wp_Ret_inv, wp_with_stream, wp_bind, wp_on_stream.
  eapply wp_ReadInt16; [apply ctor_wf; [done|lia]|exact Ed|]. intros x1 Hx1 Hr1.
  apply wp_bind, wp_on_stream. eapply wp_ReadByte; [done|exact Hr1|]. intros x2 Hx2 Hr2.
  apply wp_bind, wp_on_stream.
  apply wp_ReadByte with (b := match a with NetworkAddress.IPv4 _ => 1 | _ => 4 end)
    (tl := match a with NetworkAddress.IPv4 z => le_bytes 4 z | NetworkAddress.IPv6 l => l end
           ++ le_bytes 2 (s16 (htons port)) ++ data); [done| |].
  { rewrite Hr2. destruct a; unfold message_of; cbn; by rewrite ?app_nil_r. }
  intros x3 Hx3 Hr3. apply wp_bind.
  apply wp_mono with (Q' := λ r p, r = Some a ∧ p.2 = s ∧ BufferInputStream.wf p.1 ∧
    BufferInputStream.rest p.1 = le_bytes 2 (s16 (htons port)) ++ data).
  { destruct a as [z|l]; cbv iota.
    - apply wp_bind, wp_on_stream. eapply wp_ReadInt32; [done|exact Hr3|]. intros x4 Hx4 Hr4.
      apply wp_ret. split_and!; [by rewrite u32_s32, u32_small|done..].
    - apply wp_bind, wp_on_stream. destruct Ha as [_ Hl16]. replace 16 with (zlen l) by (unfold zlen; lia).
      eapply wp_ReadBytes; [done|exact Hr3|]. intros x4 Hx4 Hr4. by apply wp_ret. }
  intros r [x4 s4] (-> & Hs4 & Hx4 & Hr4). simpl in Hs4, Hx4, Hr4. subst s4.
  apply wp_bind, wp_on_stream. eapply wp_ReadInt16; [done|exact Hr4|]. intros x5 Hx5 Hr5.
  apply wp_bind, wp_on_stream. unfold wp at 1, gets.
  assert (BufferInputStream.Remaining x5 = zlen data) as ->.
  { unfold BufferInputStream.Remaining. rewrite remaining_rest by done. by rewrite Hr5. }
  apply wp_if; intros Hle; [|lia]. apply wp_bind, wp_on_stream.
  eapply wp_ReadBytes; [done|by rewrite Hr5, app_nil_r|]. intros x6 Hx6 Hr6. apply wp_ret. split; [|done].
  rewrite s16_small by apply s16_range. rewrite u16_s16 by apply htons_range. by rewrite htons_involutive.
Qed.

Lemma socks_datagram_roundtrip_witness :
  ∃ d, Send [1; 2; 3] (NetworkAddress.IPv4 67305985) 443 ex4 = Ret d ex4 ∧
    Receive (mkpacket [] 1500 None 0) d (NetworkAddress.IPv4 67305985) (connectedPort ex4) ex4
      = Ret (mkpacket [1; 2; 3] (zlen [1; 2; 3]) (Some (NetworkAddress.IPv4 67305985)) 443) ex4.
Proof.
  apply (socks_datagram_roundtrip ex4 (mkpacket [] 1500 None 0) [1; 2; 3] (NetworkAddress.IPv4 67305985));
    [simpl; lia|lia|repeat constructor; lia|vm_compute; discriminate|vm_compute; discriminate|vm_compute; reflexivity].
Defined.

(** A datagram of the proxy that is shorter than its header makes
    [Receive] throw [std::out_of_range]. *)
Theorem socks_short_datagram_throws (s : Socks.t) (pkt : packet) (data : bytes) (relay : NetworkAddress.t) :
  wf_bytes data → 0 < zlen data < 6 → connectedAddress s = Some relay →
  Receive pkt data relay (connectedPort s) s = Throw OutOfRange s.
Proof.
  intros Hwf Hl Hrelay. unfold Receive. rewrite (bind_Ret _ _ s s s) by done.
  rewrite (proj2 (Z.eqb_neq (zlen data) 0)) by lia. rewrite Hrelay, (bind_Ret _ _ s relay s) by done.
  assert (NetworkAddress.eqb relay relay = true) as -> by (destruct relay; simpl; [apply Z.eqb_refl|by apply bool_decide_eq_true_2]).
  rewrite Z.eqb_refl. change (negb false && true && true) with true. cbv iota.
  destruct data as [|b0 [|b1 [|b2 [|b3 [|b4 [|b5 data]]]]]]; unfold zlen in Hl; simpl in Hl; try lia; try reflexivity.
  all: unfold with_stream; cbv beta; do 3 (erewrite bind_Ret; [|reflexivity]).
  all: destruct (b3 =? 1); [|destruct (b3 =? 4)]; reflexivity.
Qed.

Lemma socks_short_datagram_throws_witness :
  Receive (mkpacket [] 1500 None 0) [0; 0; 0; 1] (NetworkAddress.IPv4 67305985) (connectedPort ex4) ex4
    = Throw OutOfRange ex4.
Proof.
  apply (socks_short_datagram_throws ex4); [repeat constructor; lia|unfold zlen; simpl; lia|vm_compute; reflexivity].
Defined.
End datagrams.
