(* ===== verification/Json.v ===== *)
(** * libtgvoip/json11.cpp, libtgvoip/json11.hpp

    JSON values, their text, and the parser.  A string is the list of its
    bytes; an object is a [std::map], its entries in the order of their keys.
    The parser is the source's: a position in the text, the first error, and
    the mark that something failed, which most calls return through.  A loop
    of the parser takes at most as many rounds as there are characters left,
    and values nest at most [max_depth] deep; a model that needed more would
    end in [Diverged], and nothing does.  The comparison of values, shapes and
    the parsing of several values, which nothing calls, are not modelled. *)

From Stdlib Require Import ZArith Lia SpecFloat Ascii String.
From stdpp Require Import base tactics numbers option strings list.
From S2P Require Import Prelude Words Double.
From stdpp Require Import list.
Open Scope list_scope.
Open Scope Z_scope.

(** A string literal of the source. *)
Definition lit (s : string) : bytes := (λ c, Z.of_nat (nat_of_ascii c)) <$> String.list_ascii_of_string s.

Definition quote : Z := 34.
Definition backslash : Z := 92.

(* ------------------------------------------------------------------ *)
(** ** Decimal numbers *)

Module Decimal.
(** The digits of a number that is not negative, the most significant one
    first. *)
Fixpoint digits (fuel : nat) (z : Z) (acc : bytes) : bytes :=
  match fuel with
  | O => acc
  | S f => let acc := 48 + z mod 10 :: acc in if z <? 10 then acc else digits f (z / 10) acc
  end.
Definition unsigned (z : Z) : bytes := digits (S (Z.to_nat (Z.log2 z))) z [].
(** [%d]. *)
Definition signed (z : Z) : bytes := if z <? 0 then 45 :: unsigned (- z) else unsigned z.

Definition is_digit (c : Z) : bool := (48 <=? c) && (c <=? 57).
Definition value (l : bytes) : Z := foldl (λ a c, a * 10 + (c - 48)) 0 l.

Fixpoint span (s : bytes) : bytes * bytes :=
  match s with
  | c :: s' => if is_digit c then let '(d, r) := span s' in (c :: d, r) else ([], s)
  | [] => ([], [])
  end.
Definition is_space (c : Z) : bool := (c =? 32) || ((9 <=? c) && (c <=? 13)).
Fixpoint skip_space (s : bytes) : bytes :=
  match s with c :: s' => if is_space c then skip_space s' else s | [] => [] end.
Definition sign (s : bytes) : bool * bytes :=
  match s with
  | c :: s' => if c =? 45 then (true, s') else if c =? 43 then (false, s') else (false, s)
  | [] => (false, [])
  end.

(** [atoi] of digits that fit an [int]. *)
Definition atoi (s : bytes) : Z :=
  let '(neg, s) := sign (skip_space s) in
  let v := value (span s).1 in if neg then - v else v.

(** The double next to [m * 10^e], the largest one where that is none. *)
Definition nearest (neg : bool) (m e : Z) : double :=
  match m with
  | Zpos p =>
      let r := match e with
               | Z.neg k => D.div (S754_finite neg p 0) (S754_finite false (10 ^ k)%positive 0)
               | _ => binary_normalize D.prec D.emax ((if neg then Z.neg p else Z.pos p) * 10 ^ e) 0 neg
               end in
      match r with S754_infinity s => S754_finite s 9007199254740991 971 | _ => r end
  | _ => S754_zero neg
  end.

(** [stream >> result] in the C locale: the longest text of a number; [0]
    when there is none. *)
Definition extract (s : bytes) : double :=
  let '(neg, s) := sign (skip_space s) in
  let '(whole, s) := span s in
  let '(frac, s) := match s with c :: s' => if c =? 46 then span s' else ([], s) | [] => ([], s) end in
  match whole ++ frac with
  | [] => D.zero
  | ds =>
      let scale := - Z.of_nat (length frac) in
      match s with
      | c :: s' =>
          if (c =? 101) || (c =? 69) then
            let '(eneg, s') := sign s' in
            match (span s').1 with
            | [] => D.zero
            | es => nearest neg (value ds) (scale + (if eneg then - value es else value es))
            end
          else nearest neg (value ds) scale
      | [] => nearest neg (value ds) scale
      end
  end.

(** [stream << value] in the C locale: six significant digits ([%g]). *)
Fixpoint pad (n : nat) (z : Z) : bytes :=
  match n with O => [] | S n' => pad n' (z / 10) ++ [48 + z mod 10] end.
Fixpoint strip (s : bytes) : bytes :=
  match s with
  | [] => []
  | c :: s' => match strip s' with [] => if c =? 48 then [] else [c] | r => c :: r end
  end.
Definition with_fraction (whole frac : bytes) : bytes :=
  match strip frac with [] => whole | f => whole ++ 46 :: f end.

(** [num / den] to the nearest integer, ties to the even one. *)
Definition round_even (num den : Z) : Z :=
  let q := num / den in let r := num mod den in
  if 2 * r <? den then q else if den <? 2 * r then q + 1 else if Z.even q then q else q + 1.

(** The exponent of the first significant digit of [num / den]. *)
Fixpoint magnitude (fuel : nat) (num den : Z) (x : Z) : Z :=
  match fuel with
  | O => x
  | S f => if num <? den then magnitude f (num * 10) den (x - 1)
           else if den * 10 <=? num then magnitude f num (den * 10) (x + 1) else x
  end.

Definition general (num den : Z) : bytes :=
  let x := magnitude 400 num den 0 in
  let scaled x := if x <=? 5 then round_even (num * 10 ^ (5 - x)) den else round_even num (den * 10 ^ (x - 5)) in
  let q := scaled x in
  let '(q, x) := if q =? 1000000 then (100000, x + 1) else (q, x) in
  if (-4 <=? x) && (x <? 6) then
    let n := 5 - x in with_fraction (unsigned (q / 10 ^ n)) (pad (Z.to_nat n) (q mod 10 ^ n))
  else
    with_fraction (unsigned (q / 100000)) (pad 5 (q mod 100000)) ++
    101 :: (if x <? 0 then 45 else 43) :: (if Z.abs x <? 100 then pad 2 (Z.abs x) else unsigned (Z.abs x)).

Definition show (d : double) : option bytes :=
  match d with
  | S754_zero s => Some (if s then [45; 48] else [48])
  | S754_finite s m e =>
      let u := if decide (0 ≤ e) then general (Z.pos m * 2 ^ e) 1 else general (Z.pos m) (2 ^ (- e)) in
      Some (if s then 45 :: u else u)
  | _ => None
  end.
End Decimal.

Section decimal_examples.
Example show_third : Decimal.show (D.div (D.of_Z 1) (D.of_Z 3)) = Some (lit "0.333333").
Proof. vm_compute. reflexivity. Qed.
Example show_large : Decimal.show (D.of_Z (10 ^ 20 + 2 ^ 40)) = Some (lit "1e+20").
Proof. vm_compute. reflexivity. Qed.
Example show_small : Decimal.show (D.of_dec (-15) 7) = Some (lit "-1.5e-06").
Proof. vm_compute. reflexivity. Qed.
Example show_seven : Decimal.show (D.of_Z 1234567) = Some (lit "1.23457e+06").
Proof. vm_compute. reflexivity. Qed.
Example extract_seven : Decimal.extract (lit "-12.5e1,") = D.of_Z (-125).
Proof. vm_compute. reflexivity. Qed.
Example extract_large : Decimal.extract (lit "1e400") = S754_finite false 9007199254740991 971.
Proof. vm_compute. reflexivity. Qed.
End decimal_examples.

(* ------------------------------------------------------------------ *)
(** ** Values *)

Unset Elimination Schemes.
Inductive json :=
| JsonNull
| JsonDouble (d : double)
| JsonInt (z : Z)
| JsonBoolean (b : bool)
| JsonString (s : bytes)
| JsonArray (l : list json)
| JsonObject (m : list (bytes * json)).
Set Elimination Schemes.

(** Induction with the hypothesis for the items of an array and of an
    object. *)
Definition json_ind (P : json → Prop) (Hnull : P JsonNull) (Hdouble : ∀ d, P (JsonDouble d))
    (Hint : ∀ z, P (JsonInt z)) (Hbool : ∀ b, P (JsonBoolean b)) (Hstring : ∀ s, P (JsonString s))
    (Harray : ∀ l, Forall P l → P (JsonArray l))
    (Hobject : ∀ m, Forall (λ kv, P kv.2) m → P (JsonObject m)) : ∀ j, P j :=
  fix go j := match j with
  | JsonNull => Hnull
  | JsonDouble d => Hdouble d
  | JsonInt z => Hint z
  | JsonBoolean b => Hbool b
  | JsonString s => Hstring s
  | JsonArray l => Harray l ((fix items l : Forall P l :=
      match l with [] => Forall_nil_2 P | x :: l' => Forall_cons_2 P x l' (go x) (items l') end) l)
  | JsonObject m => Hobject m ((fix items m : Forall (λ kv, P kv.2) m :=
      match m with [] => Forall_nil_2 _ | kv :: m' => Forall_cons_2 (λ kv, P kv.2) kv m' (go kv.2) (items m') end) m)
  end.

Module Object.
Section object.
Context {V : Type}.
Implicit Types m : list (bytes * V).
(** [std::string::operator<]. *)
Fixpoint ltb (a b : bytes) : bool :=
  match a, b with
  | _, [] => false
  | [], _ :: _ => true
  | x :: a', y :: b' => (x <? y) || ((x =? y) && ltb a' b')
  end.
(** [data[key] = v]. *)
Fixpoint insert (k : bytes) (v : V) m : list (bytes * V) :=
  match m with
  | [] => [(k, v)]
  | (k', v') :: m' =>
      if ltb k k' then (k, v) :: m else if ltb k' k then (k', v') :: insert k v m' else (k, v) :: m'
  end.
Fixpoint find (k : bytes) m : option V :=
  match m with [] => None | (k', v) :: m' => if bool_decide (k = k') then Some v else find k m' end.
(** The entries of a map, in the order of the keys. *)
Definition entries m : list (bytes * V) := foldl (λ m kv, insert kv.1 kv.2 m) [] m.
End object.
End Object.

Module Json.
(** The accessors: a value of another type reads as the default. *)
Definition is_number (j : json) : bool := match j with JsonDouble _ | JsonInt _ => true | _ => false end.
Definition is_bool (j : json) : bool := match j with JsonBoolean _ => true | _ => false end.
Definition is_string (j : json) : bool := match j with JsonString _ => true | _ => false end.
Definition number_value (j : json) : double :=
  match j with JsonDouble d => d | JsonInt z => D.of_Z z | _ => D.zero end.
(** The cast of a double that an [int] does not hold is undefined. *)
Definition int_value (j : json) : option Z :=
  match j with JsonDouble d => D.to_s32 d | JsonInt z => Some z | _ => Some 0 end.
Definition bool_value (j : json) : bool := match j with JsonBoolean b => b | _ => false end.
Definition string_value (j : json) : bytes := match j with JsonString s => s | _ => [] end.
Definition array_items (j : json) : list json := match j with JsonArray l => l | _ => [] end.
Definition object_items (j : json) : list (bytes * json) := match j with JsonObject m => m | _ => [] end.
Definition at_key (j : json) (key : bytes) : json := default JsonNull (Object.find key (object_items j)).
Definition at_index (j : json) (i : Z) : json := default JsonNull (znth (array_items j) i).

(** [dump]: an escape for quotes, backslashes, control characters and the
    two line separators of Unicode. *)
Definition hex (z : Z) : Z := if z <? 10 then 48 + z else 87 + z.
Fixpoint dump_chars (s : bytes) : bytes :=
  match s with
  | [] => []
  | ch :: s' =>
      let here (esc : bytes) := esc ++ dump_chars s' in
      if ch =? 92 then here [92; 92]
      else if ch =? 34 then here [92; 34]
      else if ch =? 8 then here (lit "\b")
      else if ch =? 12 then here (lit "\f")
      else if ch =? 10 then here (lit "\n")
      else if ch =? 13 then here (lit "\r")
      else if ch =? 9 then here (lit "\t")
      else if ch <=? 31 then here (lit "\u00" ++ [hex (ch / 16); hex (ch mod 16)])
      else match s' with
           | b :: c :: s'' =>
               if (ch =? 226) && (b =? 128) && (c =? 168) then lit "\u2028" ++ dump_chars s''
               else if (ch =? 226) && (b =? 128) && (c =? 169) then lit "\u2029" ++ dump_chars s''
               else here [ch]
           | _ => here [ch]
           end
  end.
Definition dump_string (s : bytes) : bytes := [quote] ++ dump_chars s ++ [quote].

Definition separated (l : list bytes) : bytes :=
  match l with [] => [] | x :: l' => x ++ concat ((λ y, lit ", " ++ y) <$> l') end.

Fixpoint dump (j : json) : bytes :=
  match j with
  | JsonNull => lit "null"
  | JsonDouble d => default (lit "null") (Decimal.show d)
  | JsonInt z => Decimal.signed z
  | JsonBoolean b => if b then lit "true" else lit "false"
  | JsonString s => dump_string s
  | JsonArray l => lit "[" ++ separated (dump <$> l) ++ lit "]"
  | JsonObject m => lit "{" ++ separated ((λ kv, dump_string kv.1 ++ lit ": " ++ dump kv.2) <$> m) ++ lit "}"
  end.
End Json.

(* ------------------------------------------------------------------ *)
(** ** The parser *)

Inductive strategy := STANDARD | COMMENTS.

Module JsonParser.
Record t := mk { i : Z; err : bytes; failed : bool }.
#[export] Instance eta_parser : Eta t := λ s, mk (i s) (err s) (failed s).

Definition max_depth : Z := 200.

(** [esc(c)]: a character in an error message. *)
Definition esc (c : Z) : bytes :=
  let number := lit "(" ++ Decimal.signed (if c <? 128 then c else c - 256) ++ lit ")" in
  if (32 <=? c) && (c <=? 127) then [39; c; 39] ++ lit " " ++ number else number.

Definition encode_utf8 (pt : Z) : bytes :=
  if pt <? 0 then []
  else if pt <? 128 then [u8 pt]
  else if pt <? 2048 then [u8 (Z.lor (Z.shiftr pt 6) 192); u8 (Z.lor (Z.land pt 63) 128)]
  else if pt <? 65536 then
    [u8 (Z.lor (Z.shiftr pt 12) 224); u8 (Z.lor (Z.land (Z.shiftr pt 6) 63) 128); u8 (Z.lor (Z.land pt 63) 128)]
  else
    [u8 (Z.lor (Z.shiftr pt 18) 240); u8 (Z.lor (Z.land (Z.shiftr pt 12) 63) 128);
     u8 (Z.lor (Z.land (Z.shiftr pt 6) 63) 128); u8 (Z.lor (Z.land pt 63) 128)].

Definition in_range (x lower upper : Z) : bool := (lower <=? x) && (x <=? upper).
Definition is_hex (c : Z) : bool := in_range c 97 102 || in_range c 65 70 || in_range c 48 57.
Definition hex_digit (c : Z) : Z := if in_range c 97 102 then c - 87 else if in_range c 65 70 then c - 55 else c - 48.
(** [strtol] of hexadecimal digits. *)
Definition hex_value (l : bytes) : Z := foldl (λ a c, a * 16 + hex_digit c) 0 l.

Section parser.
Context (str : bytes) (strat : strategy).
Let size : Z := zlen str.
(** More rounds than any loop takes. *)
Let rounds : nat := S (length str).

(** [str[k]]: a string ends in a zero that may be read, nothing behind it. *)
Definition char_at (k : Z) : M t Z := if k =? size then mret 0 else defined (znth str k).
Definition here : M t Z := s ← get; char_at (i s).
Definition move (d : Z) : M t unit := modify (λ s, s <| i := i s + d |>).
(** [str.substr(i, n)]. *)
Definition substr (n : nat) : M t bytes :=
  s ← get; if size <? i s then throw OutOfRange else mret (take n (drop (Z.to_nat (i s)) str)).

Definition fail {A} (msg : bytes) (err_ret : A) : M t A :=
  modify (λ s, s <| err := if failed s then err s else msg |> <| failed := true |>);;
  mret err_ret.

(** [while(p(str[i])) i++;] *)
Fixpoint skip (p : Z → bool) (n : nat) : M t unit :=
  match n with
  | O => crash_with Diverged
  | S n' => c ← here; if p c then move 1;; skip p n' else mret tt
  end.

Definition consume_whitespace : M t unit :=
  skip (λ c, (c =? 32) || (c =? 13) || (c =? 10) || (c =? 9)) rounds.

Fixpoint inline_comment (n : nat) : M t unit :=
  match n with
  | O => crash_with Diverged
  | S n' =>
      s ← get;
      if i s <? size then c ← here; if negb (c =? 10) then move 1;; inline_comment n' else mret tt
      else mret tt
  end.

Definition unterminated : M t bool := fail (lit "unexpected end of input inside multi-line comment") false.

(** The loop of a multi-line comment, and what follows it. *)
Fixpoint multiline_comment (n : nat) : M t bool :=
  match n with
  | O => crash_with Diverged
  | S n' =>
      s ← get;
      c ← here;
      d ← (if c =? 42 then char_at (i s + 1) else mret 0);
      if (c =? 42) && (d =? 47) then move 2;; mret true
      else
        move 1;;
        s ← get;
        if u64 (size - 2) <? i s then unterminated else multiline_comment n'
  end.

Definition consume_comment : M t bool :=
  c ← here;
  if c =? 47 then
    move 1;;
    s ← get;
    if i s =? size then fail (lit "unexpected end of input after start of comment") false
    else
      c ← here;
      if c =? 47 then move 1;; inline_comment rounds;; mret true
      else if c =? 42 then
        move 1;;
        s ← get;
        if u64 (size - 2) <? i s then unterminated else multiline_comment rounds
      else fail (lit "malformed comment") false
  else mret false.

Fixpoint comments (n : nat) : M t unit :=
  match n with
  | O => crash_with Diverged
  | S n' =>
      found ← consume_comment;
      s ← get;
      if failed s then mret tt
      else consume_whitespace;; if found : bool then comments n' else mret tt
  end.

Definition consume_garbage : M t unit :=
  consume_whitespace;;
  match strat with STANDARD => mret tt | COMMENTS => comments rounds end.

Definition get_next_token : M t Z :=
  consume_garbage;;
  s ← get;
  if failed s then mret 0
  else if i s =? size then fail (lit "unexpected end of input") 0
  else c ← here; move 1;; mret c.

(** The escape after a backslash, other than [\u]. *)
Definition simple_escape (ch : Z) : option Z :=
  if ch =? 98 then Some 8 else if ch =? 102 then Some 12 else if ch =? 110 then Some 10
  else if ch =? 114 then Some 13 else if ch =? 116 then Some 9
  else if (ch =? quote) || (ch =? backslash) || (ch =? 47) then Some ch else None.

(** A code point after another: the text so far and the code point that
    waits, to be joined with a second surrogate. *)
Definition next_codepoint (out : bytes) (last codepoint : Z) : bytes * Z :=
  if in_range last 55296 56319 && in_range codepoint 56320 57343 then
    (out ++ encode_utf8 (Z.lor (Z.shiftl (last - 55296) 10) (codepoint - 56320) + 65536), -1)
  else (out ++ encode_utf8 last, codepoint).

Definition end_in_string : M t bytes := fail (lit "unexpected end of input in string") [].

Fixpoint parse_chars (n : nat) (out : bytes) (last : Z) : M t bytes :=
  match n with
  | O => crash_with Diverged
  | S n' =>
      s ← get;
      if i s =? size then end_in_string
      else
        ch ← here; move 1;;
        if ch =? quote then mret (out ++ encode_utf8 last)
        else if in_range ch 0 31 then fail (lit "unescaped " ++ esc ch ++ lit " in string") []
        else if negb (ch =? backslash) then parse_chars n' (out ++ encode_utf8 last ++ [ch]) (-1)
        else
          s ← get;
          if i s =? size then end_in_string
          else
            ch ← here; move 1;;
            if ch =? 117 then
              e ← substr 4;
              if (zlen e <? 4) || negb (forallb is_hex e) then fail (lit "bad \u escape: " ++ e) []
              else
                let '(out, last) := next_codepoint out last (hex_value e) in
                move 4;; parse_chars n' out last
            else
              match simple_escape ch with
              | Some c => parse_chars n' (out ++ encode_utf8 last ++ [c]) (-1)
              | None => fail (lit "invalid escape character " ++ esc ch) []
              end
  end.
Definition parse_string : M t bytes := parse_chars rounds [] (-1).

Definition skip_digits : M t unit := skip (λ c, in_range c 48 57) rounds.
Definition need_digits (msg : bytes) (k : M t json) : M t json :=
  c ← here; if negb (in_range c 48 57) then fail msg JsonNull else skip_digits;; k.

Definition is_exponent (c : Z) : bool := (c =? 101) || (c =? 69).

(** The end of [parse_number]: exponent and conversion. *)
Definition parse_exponent (start : Z) : M t json :=
  let done := mret (JsonDouble (Decimal.extract (drop (Z.to_nat start) str))) in
  c ← here;
  if is_exponent c then
    move 1;;
    c ← here;
    (if (c =? 43) || (c =? 45) then move 1 else mret tt);;
    need_digits (lit "at least one digit required in exponent") done
  else done.

Definition parse_fraction (start : Z) : M t json :=
  c ← here;
  s ← get;
  if negb (c =? 46) && negb (is_exponent c) && (i s - start <=? 9)
  then mret (JsonInt (Decimal.atoi (drop (Z.to_nat start) str)))
  else if c =? 46 then
    move 1;;
    need_digits (lit "at least one digit required in fractional part") (parse_exponent start)
  else parse_exponent start.

Definition parse_number : M t json :=
  s ← get;
  let start := i s in
  c ← here;
  (if c =? 45 then move 1 else mret tt);;
  c ← here;
  if c =? 48 then
    move 1;;
    c ← here;
    if in_range c 48 57 then fail (lit "leading 0s not permitted in numbers") JsonNull
    else parse_fraction start
  else if in_range c 49 57 then move 1;; skip_digits;; parse_fraction start
  else fail (lit "invalid " ++ esc c ++ lit " in number") JsonNull.

Definition expect (expected : bytes) (res : json) : M t json :=
  s ← get;
  assert_ (negb (i s =? 0));;
  move (-1);;
  got ← substr (length expected);
  if bool_decide (got = expected) then move (zlen expected);; mret res
  else fail (lit "parse error: expected " ++ expected ++ lit ", got " ++ got) JsonNull.

Definition unless_failed (k : M t json) : M t json :=
  s ← get; if failed s then mret JsonNull else k.

(** The members of an object, from the first character of a key. *)
Fixpoint members (value : M t json) (n : nat) (ch : Z) (data : list (bytes * json)) : M t json :=
  match n with
  | O => crash_with Diverged
  | S n' =>
      if negb (ch =? quote) then fail (lit "expected '" ++ [quote] ++ lit "' in object, got " ++ esc ch) JsonNull
      else
        key ← parse_string;
        unless_failed (
          ch ← get_next_token;
          if negb (ch =? 58) then fail (lit "expected ':' in object, got " ++ esc ch) JsonNull
          else
            v ← value;
            unless_failed (
              ch ← get_next_token;
              let data := Object.insert key v data in
              if ch =? 125 then mret (JsonObject data)
              else if negb (ch =? 44) then fail (lit "expected ',' in object, got " ++ esc ch) JsonNull
              else ch ← get_next_token; members value n' ch data))
  end.

(** The items of a list, behind the first character of an item. *)
Fixpoint elements (value : M t json) (n : nat) (data : list json) : M t json :=
  match n with
  | O => crash_with Diverged
  | S n' =>
      move (-1);;
      v ← value;
      unless_failed (
        ch ← get_next_token;
        let data := data ++ [v] in
        if ch =? 93 then mret (JsonArray data)
        else if negb (ch =? 44) then fail (lit "expected ',' in list, got " ++ esc ch) JsonNull
        else get_next_token;; elements value n' data)
  end.

Definition parse_value (value : M t json) (ch : Z) : M t json :=
  if (ch =? 45) || in_range ch 48 57 then move (-1);; parse_number
  else if ch =? 116 then expect (lit "true") (JsonBoolean true)
  else if ch =? 102 then expect (lit "false") (JsonBoolean false)
  else if ch =? 110 then expect (lit "null") JsonNull
  else if ch =? quote then s ← parse_string; mret (JsonString s)
  else if ch =? 123 then
    ch ← get_next_token;
    if ch =? 125 then mret (JsonObject []) else members value rounds ch []
  else if ch =? 91 then
    ch ← get_next_token;
    if ch =? 93 then mret (JsonArray []) else elements value rounds []
  else fail (lit "expected value, got " ++ esc ch) JsonNull.

Fixpoint parse_json (n : nat) (depth : Z) : M t json :=
  match n with
  | O => crash_with Diverged
  | S n' =>
      if max_depth <? depth then fail (lit "exceeded maximum nesting depth") JsonNull
      else
        ch ← get_next_token;
        unless_failed (parse_value (parse_json n' (depth + 1)) ch)
  end.
(** Levels that the test of the depth allows. *)
Definition levels : nat := 202.

Definition parse_all : M t json :=
  result ← parse_json levels 0;
  consume_garbage;;
  s ← get;
  if failed s then mret JsonNull
  else if negb (i s =? size) then c ← here; fail (lit "unexpected trailing " ++ esc c) JsonNull
  else mret result.
End parser.
End JsonParser.

(** [Json::parse]: the value, and the error that was reported. *)
Definition parse (str : bytes) (strat : strategy) : option (json * bytes) :=
  match JsonParser.parse_all str strat (JsonParser.mk 0 [] false) with
  | Ret j s => Some (j, JsonParser.err s)
  | _ => None
  end.

Section parse_examples.
Definition text1 : bytes := Json.dump (JsonObject (Object.entries
  [(lit "use_tcp", JsonBoolean true); (lit "audio_frame_size", JsonInt 60);
   (lit "name", JsonString (lit "a/b" ++ [34; 10; 226; 128; 168])); (lit "list", JsonArray [JsonNull; JsonInt (-7)])])).
Example parse_text1 : (λ p, (p.2, Json.dump p.1)) <$> parse text1 STANDARD = Some ([], text1).
Proof. vm_compute. reflexivity. Qed.
Example parse_unfinished : parse (lit "[1, 2") STANDARD = Some (JsonNull, lit "unexpected end of input").
Proof. vm_compute. reflexivity. Qed.
Example parse_comment : parse (lit "/* a */ [1, /* b */ 2] // c") COMMENTS = Some (JsonArray [JsonInt 1; JsonInt 2], []).
Proof. vm_compute. reflexivity. Qed.
Example parse_deep : parse (replicate 300 91) STANDARD = Some (JsonNull, lit "exceeded maximum nesting depth").
Proof. vm_compute. reflexivity. Qed.
(** An [int] of ten digits comes back as a double. *)
Example parse_long_int : parse (Json.dump (JsonInt 2000000000)) STANDARD = Some (JsonDouble (D.of_Z 2000000000), []).
Proof. vm_compute. reflexivity. Qed.
(** A double loses all but six digits. *)
Example dump_loses_digits : parse (Json.dump (JsonDouble (D.of_dec 12345678 4))) STANDARD = Some (JsonDouble (D.of_dec 123457 2), []).
Proof. vm_compute. reflexivity. Qed.
End parse_examples.
