(* ===== verification/JsonSafety.v ===== *)
(** * The parser of json11 on any text

    Every call of [JsonParser] stays inside the text, comes to an end, and
    reports an error exactly when it failed; what it returns is in the form
    that [Json.dump] prints: keys in order, integers of at most nine digits,
    at most [max_depth + 1] levels. *)

From Stdlib Require Import ZArith Lia SpecFloat Ascii String.
From stdpp Require Import base tactics numbers option strings list.
From S2P Require Import Prelude Words Double Json.
From stdpp Require Import list.
Open Scope list_scope.
Open Scope Z_scope.
Import JsonParser.

(* ------------------------------------------------------------------ *)
(** ** What a parsed value looks like *)

(** The keys of a map: each before the next. *)
Fixpoint ordered {V} (m : list (bytes * V)) : Prop :=
  match m with
  | kv :: ((kv' :: _) as m') => Object.ltb kv.1 kv'.1 = true ∧ ordered m'
  | _ => True
  end.

(** A value of at most [n] levels. *)
Fixpoint valid (n : nat) (j : json) : Prop :=
  match j, n with
  | JsonInt z, _ => -1000000000 < z < 1000000000
  | JsonArray l, S n' => Forall (valid n') l
  | JsonObject m, S n' => ordered m ∧ Forall (λ kv, valid n' kv.2) m
  | JsonArray _, O | JsonObject _, O => False
  | _, _ => True
  end.

Lemma ltb_irrefl a : Object.ltb a a = false.
Proof. induction a as [|x a IH]; [done|]. simpl. rewrite Z.ltb_irrefl, Z.eqb_refl, IH. done. Qed.
Lemma ltb_total a b : Object.ltb a b = false → Object.ltb b a = false → a = b.
Proof.
  revert b. induction a as [|x a IH]; intros [|y b]; simpl; try done.
  rewrite !orb_false_iff, !Z.ltb_ge. intros [Hx Ha] [Hy Hb].
  assert (x = y) as -> by lia. rewrite Z.eqb_refl in *. f_equal. auto.
Qed.
Lemma ltb_trans a b c : Object.ltb a b = true → Object.ltb b c = true → Object.ltb a c = true.
Proof.
  revert b c. induction a as [|x a IH]; intros [|y b] [|z c]; simpl; try done.
  rewrite !orb_true_iff, !andb_true_iff, !Z.ltb_lt, !Z.eqb_eq. intros [?|[-> ?]] [?|[-> ?]]; eauto with lia.
Qed.

Section ordered_maps.
Context {V : Type}.
Implicit Types m : list (bytes * V).

Lemma ordered_cons k v m : ordered ((k, v) :: m) ↔ (∀ kv, kv ∈ m → Object.ltb k kv.1 = true) ∧ ordered m.
Proof.
  revert k v. induction m as [|[k' v'] m IH]; intros k v.
  - split; [|done]. intros _. split; [|done]. intros kv ?%not_elem_of_nil. done.
  - change (ordered ((k, v) :: (k', v') :: m)) with (Object.ltb k k' = true ∧ ordered ((k', v') :: m)).
    split; [|intros [H ?]; split; [apply (H (k', v')); left|done]].
    intros [Hk Ho]. split; [|done]. intros kv [->|Hin]%elem_of_cons; [done|].
    eapply ltb_trans; [done|]. by apply IH in Ho as [Ho _]; auto.
Qed.

Lemma elem_insert k v m kv : kv ∈ Object.insert k v m → kv = (k, v) ∨ kv ∈ m.
Proof.
  induction m as [|[k' v'] m IH]; simpl; [rewrite list_elem_of_singleton; auto|].
  destruct (Object.ltb k k'); [|destruct (Object.ltb k' k)]; rewrite !elem_of_cons; naive_solver.
Qed.

Lemma insert_ordered k v m : ordered m → ordered (Object.insert k v m).
Proof.
  induction m as [|[k' v'] m IH]; [done|]. intros Ho. simpl.
  destruct (Object.ltb k k') eqn:E1; [done|].
  pose proof (proj1 (ordered_cons k' v' m) Ho) as [Hlt Hm].
  destruct (Object.ltb k' k) eqn:E2; apply ordered_cons; (split; [|by auto]).
  - intros kv [->|?]%elem_insert; auto.
  - apply ltb_total in E1 as ->; done.
Qed.

Lemma insert_Forall (P : bytes * V → Prop) k v m : P (k, v) → Forall P m → Forall P (Object.insert k v m).
Proof. rewrite !Forall_forall. intros Hk Hm kv [->|?]%elem_insert; auto. Qed.
End ordered_maps.

(* ------------------------------------------------------------------ *)
(** ** The conditions of the calls *)

Section safety.
Context (str : bytes) (strat : strategy) (lo : Z) (Hlo : 0 ≤ lo).
Abbreviation size := (zlen str).
Implicit Types s : t.

(** Inside the text, not before [lo]. *)
Definition inside s : Prop := lo ≤ i s ≤ size ∧ (failed s = true ↔ err s ≠ []).

(** At the end: still inside, and a call that did not fail moved on by [k]
    and has a result in [Q]. *)
Definition post {A} (k : Z) (Q : A → Prop) s (a : A) s' : Prop :=
  inside s' ∧ (failed s' = false → failed s = false ∧ i s + k ≤ i s' ∧ Q a).
Abbreviation never := (λ _, False).
Definition good {A} (k : Z) (Q : A → Prop) (m : M t A) : Prop :=
  ∀ s, inside s → wp m s (post k Q s) (λ _, never) never.

Lemma good_call {A B} k Q (m : M t A) (f : A → M t B) s R :
  good k Q m → inside s → (∀ a s', post k Q s a s' → wp (f a) s' R (λ _, never) never) →
  wp (m ≫= f) s R (λ _, never) never.
Proof. intros Hm Hs Hf. apply wp_bind. eapply wp_mono; [by apply Hm|]. auto. Qed.

Lemma good_weaken {A} k k' (Q Q' : A → Prop) m : good k Q m → k' ≤ k → (∀ a, Q a → Q' a) → good k' Q' m.
Proof.
  intros Hm Hk HQ s Hs. eapply wp_mono; [by apply Hm|]. intros a s' [? Hp]. split; [done|].
  intros (? & ? & ?)%Hp. split_and!; [done|lia|auto].
Qed.

Lemma good_end {A} k Q (m : M t A) s s0 k0 (Q0 : A → Prop) :
  good k Q m → inside s → (∀ a s', post k Q s a s' → post k0 Q0 s0 a s') →
  wp m s (post k0 Q0 s0) (λ _, never) never.
Proof. intros Hm Hs HQ. eapply wp_mono; [by apply Hm|]. auto. Qed.

Lemma char_at_ok k s : 0 ≤ k ≤ size → ∃ c, char_at str k s = Ret c s ∧ (c ≠ 0 → k < size) ∧ (k < size → znth str k = Some c) ∧ (k = size → c = 0).
Proof.
  intros Hk. unfold char_at. destruct (Z.eqb_spec k size).
  - exists 0. split_and!; [done|lia..].
  - destruct (znth_Some str k) as [c Hc]; [lia|]. exists c. rewrite Hc. split_and!; [done|lia|done|lia].
Qed.

(** Reading the next character. *)
Lemma wp_char {B} k (f : Z → M t B) s R :
  0 ≤ k ≤ size → (∀ c, (c ≠ 0 → k < size) → (k < size → znth str k = Some c) → (k = size → c = 0) → wp (f c) s R (λ _, never) never) →
  wp (char_at str k ≫= f) s R (λ _, never) never.
Proof.
  intros Hk Hf. destruct (char_at_ok k s Hk) as (c & E & ? & ? & ?). apply wp_bind. unfold wp at 1. rewrite E. by apply Hf.
Qed.

Lemma wp_here {B} (f : Z → M t B) s R :
  inside s → (∀ c, (c ≠ 0 → i s < size) → (i s < size → znth str (i s) = Some c) → (i s = size → c = 0) → wp (f c) s R (λ _, never) never) →
  wp (here str ≫= f) s R (λ _, never) never.
Proof. intros [? _] Hf. unfold here. apply (wp_char (i s)); [lia|]. apply Hf. Qed.

Lemma wp_move {B} d (f : unit → M t B) s R :
  wp (f tt) (s <| i := i s + d |>) R (λ _, never) never → wp (move d ≫= f) s R (λ _, never) never.
Proof. done. Qed.

Lemma good_fail {A} k Q msg (r : A) : msg ≠ [] → good k Q (fail msg r).
Proof.
  intros Hmsg s [Hi Hf]. unfold wp, fail. cbn. split; [|done]. split; [done|]. cbn.
  destruct (failed s) eqn:E; split; naive_solver.
Qed.

(** A call that fails satisfies every condition. *)
Lemma wp_fail {A} k Q s0 msg (r : A) s : msg ≠ [] → inside s → wp (fail msg r) s (post k Q s0) (λ _, never) never.
Proof.
  intros Hmsg [Hi Hf]. unfold wp, fail. cbn. split; [|done]. split; [done|]. cbn.
  destruct (failed s) eqn:E; split; naive_solver.
Qed.

(** The end of a call that went on from [s1]. *)
Lemma post_after {A} k Q s1 (a : A) s' k0 (Q0 : A → Prop) s0 :
  post k Q s1 a s' → (failed s1 = false → failed s0 = false ∧ i s0 + k0 ≤ i s1 + k ∧ (Q a → Q0 a)) → post k0 Q0 s0 a s'.
Proof. intros [? Hp] H1. split; [done|]. intros (? & ? & ?)%Hp. destruct H1 as (? & ? & ?); [done|]. split_and!; [done|lia|auto]. Qed.

Lemma post_ret {A} k (Q : A → Prop) s0 (a : A) s :
  inside s → (failed s = false → failed s0 = false ∧ i s0 + k ≤ i s ∧ Q a) → post k Q s0 a s.
Proof. done. Qed.

Lemma inside_move s d : inside s → lo ≤ i s + d ≤ size → inside (s <| i := i s + d |>).
Proof. intros [? ?] ?. done. Qed.

(** The next step of a program whose calls are known. *)
Ltac parser_end :=
  first
  [ apply wp_fail; [done|assumption]
  | apply wp_ret, post_ret; [assumption|intros; split_and!; [assumption|lia|done]] ].

(** *** White space and comments *)

(** [skip] only moves, to the end or to a character that ends it. *)
Definition skipped (p : Z → bool) s s' : Prop :=
  inside s' ∧ failed s' = failed s ∧ i s ≤ i s' ∧ (i s' < size → ∃ c, znth str (i s') = Some c ∧ p c = false) ∧
  (∀ k, i s ≤ k < i s' → ∃ c, znth str k = Some c ∧ p c = true).

Lemma good_skip p n s :
  p 0 = false → inside s → size - i s < Z.of_nat n → wp (skip str p n) s (λ _, skipped p s) (λ _, never) never.
Proof.
  intros Hp. revert s. induction n as [|n IH]; intros s Hs Hn; [destruct Hs; lia|].
  apply wp_here; [done|]. intros c Hc Hz He. destruct (p c) eqn:E.
  - assert (i s < size) by (apply Hc; congruence). pose proof Hs as [? _]. apply wp_move.
    eapply wp_mono; [apply IH; [apply inside_move; [done|lia]|cbn; lia]|].
    cbn. intros a s' (? & ? & Hi & ? & Hk). cbn in Hi, Hk. split_and!; [done|done|lia|done|].
    intros k ?. destruct (decide (k = i s)) as [->|]; [eauto|apply Hk; lia].
  - apply wp_ret. split_and!; [done|done|lia|by eauto|lia].
Qed.

Lemma rounds_enough s : inside s → size - i s < Z.of_nat (S (length str)).
Proof. intros [? _]. unfold zlen in *. lia. Qed.

Lemma wp_skip {B} p (f : unit → M t B) s R :
  p 0 = false → inside s → (∀ s', skipped p s s' → wp (f tt) s' R (λ _, never) never) →
  wp (skip str p (S (length str)) ≫= f) s R (λ _, never) never.
Proof.
  intros Hp Hs Hf. apply wp_bind. eapply wp_mono; [apply good_skip; [done..|by apply rounds_enough]|].
  intros []. apply Hf.
Qed.

Lemma good_inline n s : inside s → size - i s < Z.of_nat n → wp (inline_comment str n) s (post 0 (λ _, True) s) (λ _, never) never.
Proof.
  revert s. induction n as [|n IH]; intros s Hs Hn; [destruct Hs; lia|].
  simpl. wp_step. wp_step. pose proof Hs as [? _]. destruct (Z.ltb_spec (i s) size); [|parser_end].
  apply wp_here; [done|]. intros c _ _ _. destruct (negb _); [|parser_end].
  apply wp_move. eapply wp_mono; [apply IH; [apply inside_move; [done|lia]|cbn; lia]|].
  intros a s' Hp. eapply post_after; [done|]. cbn. auto with lia.
Qed.

(** The text fits the memory. *)
Context (Hmax : size < 2 ^ 64).

Lemma good_multiline n s :
  inside s → i s + 2 ≤ size → size - i s < Z.of_nat n →
  wp (multiline_comment str n) s (post 1 (λ _, True) s) (λ _, never) never.
Proof.
  revert s. induction n as [|n IH]; intros s Hs H2 Hn; [destruct Hs; lia|].
  simpl. wp_step. wp_step. pose proof Hs as [? _]. apply wp_here; [done|]. intros c _ _ _.
  apply wp_bind. apply (wp_mono _ _ _ _ _ (λ d s', s' = s)).
  { destruct (c =? 42); [|done]. destruct (char_at_ok (i s + 1) s) as (d & E & _); [lia|]. unfold wp. by rewrite E. }
  intros d s' ->. destruct (_ && _); apply wp_move.
  - apply wp_ret, post_ret; [apply inside_move; [done|lia]|]. cbn. auto with lia.
  - wp_step. wp_step. rewrite u64_small by lia.
    assert (inside (s <| i := i s + 1 |>)) by (apply inside_move; [done|lia]).
    destruct (Z.ltb_spec (size - 2) (i (s <| i := i s + 1 |>))) as [|Hle]; [parser_end|]. cbn in Hle.
    eapply wp_mono; [apply IH; [done|cbn; lia..]|]. intros a s' Hp. eapply post_after; [done|]. cbn. auto with lia.
Qed.

Lemma good_comment s :
  inside s → wp (consume_comment str) s (λ found s', post (if found : bool then 1 else 0) (λ _, True) s found s') (λ _, never) never.
Proof.
  intros Hs. pose proof Hs as [? _]. unfold consume_comment. apply wp_here; [done|]. intros c Hc _ _.
  destruct (Z.eqb_spec c 47) as [->|]; [|parser_end]. apply wp_move. wp_step. wp_step.
  assert (i s < size) by (by apply Hc).
  set (s1 := s <| i := i s + 1 |>). assert (inside s1) by (apply inside_move; [done|lia]).
  assert (∀ (m : M t bool) s2, inside s2 → failed s2 = failed s → i s ≤ i s2 →
    wp m s2 (post 1 (λ _, True) s2) (λ _, never) never →
    wp m s2 (λ found s', post (if found : bool then 1 else 0) (λ _, True) s found s') (λ _, never) never) as Hend.
  { intros m s2 _ Hf ? Hm. eapply wp_mono; [done|]. intros a s' Hp. eapply post_after; [done|]. rewrite Hf. intros.
    split_and!; [done|destruct a; lia|done]. }
  destruct (Z.eqb_spec (i s1) size); [apply Hend; [done|done|cbn; lia|parser_end]|]. cbn in n.
  apply wp_here; [done|]. intros d _ _ _.
  destruct (d =? 47); [|destruct (d =? 42); [|apply Hend; [done|done|cbn; lia|parser_end]]].
  - apply wp_move. assert (inside (s1 <| i := i s1 + 1 |>)) by (apply inside_move; [done|cbn; lia]).
    apply wp_bind. eapply wp_mono; [apply good_inline; [done|by apply rounds_enough]|].
    intros a s' Hp. apply wp_ret. destruct Hp as [? Hp]. split; [done|]. intros (? & Hi & ?)%Hp. cbn in Hi. auto with lia.
  - apply wp_move. set (s2 := s1 <| i := i s1 + 1 |>). assert (inside s2) by (apply inside_move; [done|cbn; lia]).
    apply Hend; [done|done|cbn; lia|].
    wp_step. wp_step. rewrite u64_small by (cbn in *; lia). destruct (Z.ltb_spec (size - 2) (i s2)) as [|Hle]; [parser_end|].
    apply good_multiline; [done|cbn in *; lia|by apply rounds_enough].
Qed.

Lemma good_comments n s : inside s → size - i s < Z.of_nat n → wp (comments str n) s (post 0 (λ _, True) s) (λ _, never) never.
Proof.
  revert s. induction n as [|n IH]; intros s Hs Hn; [destruct Hs; lia|].
  simpl. apply wp_bind. eapply wp_mono; [by apply good_comment|]. cbv beta. intros found s1 [Hs1 H1].
  wp_step. wp_step. destruct (failed s1) eqn:E1; [apply wp_ret, post_ret; [done|congruence]|].
  destruct (H1 eq_refl) as (? & ? & _).
  apply wp_skip; [done..|]. intros s2 (? & Hf2 & ? & _).
  destruct found; [|apply wp_ret, post_ret; [done|auto with lia]].
  eapply wp_mono; [apply IH; [done|lia]|]. intros a s' Hp. eapply post_after; [done|]. auto with lia.
Qed.

Lemma good_garbage : good 0 (λ _, True) (consume_garbage str strat).
Proof.
  intros s Hs. apply wp_skip; [done..|]. intros s1 (? & Hf1 & ? & _).
  destruct strat; [apply wp_ret, post_ret; [done|rewrite Hf1; auto with lia]|].
  eapply wp_mono; [apply good_comments; [done|by apply rounds_enough]|].
  intros a s' Hp. eapply post_after; [done|]. rewrite Hf1. auto with lia.
Qed.

(** A token is the character before the position. *)
Lemma good_token : good 1 (λ _, True) (get_next_token str strat).
Proof.
  intros s Hs. apply (good_call 0 (λ _, True)); [apply good_garbage|done|]. intros [] s1 [Hs1 H1].
  wp_step. wp_step. destruct (failed s1) eqn:E1; [apply wp_ret, post_ret; [done|congruence]|].
  destruct (H1 eq_refl) as (? & ? & _). pose proof Hs1 as [? _].
  destruct (Z.eqb_spec (i s1) size); [parser_end|].
  apply wp_here; [done|]. intros c _ _ _. apply wp_move, wp_ret, post_ret; [apply inside_move; [done|lia]|]. cbn. auto with lia.
Qed.

(** A token that is not there is a zero. *)
Lemma wp_token {B} (f : Z → M t B) s R :
  inside s → (∀ c s', post 1 (λ _, True) s c s' → (c ≠ 0 → failed s' = false) → wp (f c) s' R (λ _, never) never) →
  wp (get_next_token str strat ≫= f) s R (λ _, never) never.
Proof.
  intros Hs Hf. apply wp_bind.
  apply (wp_mono _ _ _ _ _ (λ c s', post 1 (λ _, True) s c s' ∧ (c ≠ 0 → failed s' = false))); [|intros c s' []; auto].
  apply wp_and; [by apply good_token|].
  apply (good_call 0 (λ _, True)); [apply good_garbage|done|]. intros [] s1 [Hs1 H1].
  wp_step. wp_step. destruct (failed s1) eqn:E1; [by apply wp_ret|].
  destruct (Z.eqb_spec (i s1) size); [unfold wp, fail; cbn; congruence|]. apply wp_here; [done|]. intros c _ _ _. by apply wp_move, wp_ret.
Qed.

(** *** Strings *)

Lemma good_chars n out last s :
  inside s → size - i s < Z.of_nat n → wp (parse_chars str n out last) s (post 1 (λ _, True) s) (λ _, never) never.
Proof.
  revert out last s. induction n as [|n IH]; intros out last s Hs Hn; [destruct Hs; lia|].
  assert (∀ out last s1, inside s1 → failed s1 = failed s → i s + 1 ≤ i s1 →
    wp (parse_chars str n out last) s1 (post 1 (λ _, True) s) (λ _, never) never) as Hagain.
  { intros out' last' s1 Hs1 Hf Hi. eapply wp_mono; [apply IH; [done|lia]|]. intros a s' Hp.
    eapply post_after; [done|]. rewrite Hf. auto with lia. }
  simpl. wp_step. wp_step. pose proof Hs as [? _]. destruct (Z.eqb_spec (i s) size); [by apply wp_fail|].
  apply wp_here; [done|]. intros ch _ _ _. apply wp_move.
  set (s1 := s <| i := i s + 1 |>). assert (inside s1) by (apply inside_move; [done|lia]).
  destruct (ch =? quote); [apply wp_ret, post_ret; [done|cbn; auto with lia]|].
  destruct (in_range ch 0 31); [by apply wp_fail|].
  destruct (negb _); [apply Hagain; [done|done|cbn; lia]|].
  wp_step. wp_step. destruct (Z.eqb_spec (i s1) size); [by apply wp_fail|]. cbn in *.
  apply wp_here; [done|]. intros ch2 _ _ _. apply wp_move.
  set (s2 := s1 <| i := i s1 + 1 |>). assert (inside s2) by (apply inside_move; [done|cbn; lia]).
  destruct (ch2 =? 117).
  - apply wp_bind. unfold substr. wp_step. wp_step.
    destruct (Z.ltb_spec size (i s2)) as [Hlt|_]; [cbn in Hlt; lia|]. apply wp_ret.
    set (e := take 4 (drop (Z.to_nat (i s2)) str)).
    destruct ((zlen e <? 4) || negb (forallb is_hex e)) eqn:Ee; [by apply wp_fail|].
    apply orb_false_iff in Ee as [Hlen%Z.ltb_ge _]. unfold e, zlen in Hlen. rewrite length_take, length_drop in Hlen.
    assert (lo ≤ i s2 + 4 ≤ size) by (destruct H1 as [? _]; unfold zlen; lia).
    destruct (next_codepoint _ _ _) as [out' last']. apply wp_move. apply Hagain; [|done|cbn; lia].
    by apply inside_move.
  - destruct (simple_escape ch2); [|by apply wp_fail]. apply Hagain; [done|done|cbn; lia].
Qed.

Lemma good_string : good 1 (λ _, True) (parse_string str).
Proof. intros s Hs. apply good_chars; [done|by apply rounds_enough]. Qed.

(** *** Numbers *)

Lemma span_digits l : Forall (λ c, Decimal.is_digit c = true) (Decimal.span l).1.
Proof.
  induction l as [|c l IH]; [constructor|]. simpl. destruct (Decimal.is_digit c) eqn:E; [|constructor].
  destruct (Decimal.span l). by constructor.
Qed.

Lemma span_length k p l :
  (k ≤ p)%nat → (∀ c, l !! p = Some c → Decimal.is_digit c = false) → (length (Decimal.span (drop k l)).1 ≤ p - k)%nat.
Proof.
  intros Hk Hp. remember (p - k)%nat as n eqn:Hn. revert k Hk Hn. induction n as [|n IH]; intros k Hk Hn.
  - assert (k = p) as -> by lia. destruct (drop p l) as [|c r] eqn:E; [done|].
    assert (l !! p = Some c) as Hc by (rewrite <- (Nat.add_0_r p), <- lookup_drop, E; done).
    simpl. by rewrite (Hp c Hc).
  - destruct (drop k l) as [|c r] eqn:E; [simpl; lia|]. simpl. destruct (Decimal.is_digit c); [|simpl; lia].
    assert (drop (S k) l = r) as Hr by (change (drop (S k) l) with (drop (1 + k) l); rewrite Nat.add_comm, <- drop_drop, E; done).
    specialize (IH (S k)). rewrite Hr in IH. destruct (Decimal.span r) as [d r']. simpl in *. lia.
Qed.

Lemma digit_range c : Decimal.is_digit c = true ↔ 48 ≤ c ≤ 57.
Proof. unfold Decimal.is_digit. rewrite andb_true_iff, !Z.leb_le. done. Qed.

Lemma value_bound l acc :
  Forall (λ c, Decimal.is_digit c = true) l → 0 ≤ acc →
  0 ≤ foldl (λ a c, a * 10 + (c - 48)) acc l < (acc + 1) * 10 ^ Z.of_nat (length l).
Proof.
  intros Hl. revert acc. induction Hl as [|c l Hc%digit_range Hl IH]; intros acc Hacc; [simpl; lia|].
  cbn [foldl length]. rewrite Nat2Z.inj_succ, Z.pow_succ_r by lia. specialize (IH (acc * 10 + (c - 48))). nia.
Qed.

(** [atoi] of at most nine characters that are a sign and digits. *)
Lemma atoi_bound start p :
  (∀ c, str !! p = Some c → Decimal.is_digit c = false) → (start < p ≤ start + 9)%nat →
  (∃ c, str !! start = Some c ∧ (c = 45 ∨ Decimal.is_digit c = true)) →
  -1000000000 < Decimal.atoi (drop start str) < 1000000000.
Proof.
  intros Hp Hstart (c & Hc & Hkind). rewrite (drop_S str c start) by done.
  assert (∀ k, (start ≤ k ≤ p)%nat → 0 ≤ Decimal.value (Decimal.span (drop k str)).1 < 1000000000) as Hv.
  { intros k Hk. pose proof (span_length k p str ltac:(lia) Hp) as Hlen.
    pose proof (value_bound _ 0 (span_digits (drop k str)) ltac:(lia)) as Hb. unfold Decimal.value.
    assert (10 ^ Z.of_nat (length (Decimal.span (drop k str)).1) ≤ 10 ^ 9) by (apply Z.pow_le_mono_r; lia). lia. }
  unfold Decimal.atoi. destruct Hkind as [->|Hd].
  - cbn -[Decimal.value Decimal.span drop]. specialize (Hv (S start)). lia.
  - pose proof (proj1 (digit_range c) Hd). specialize (Hv start). rewrite (drop_S str c start) in Hv by done.
    cbn [Decimal.skip_space]. unfold Decimal.is_space. rewrite (proj2 (Z.eqb_neq c 32)), (proj2 (Z.leb_gt c 13)), andb_false_r by lia. cbn [orb].
    unfold Decimal.sign. rewrite (proj2 (Z.eqb_neq c 45)), (proj2 (Z.eqb_neq c 43)) by lia. specialize (Hv ltac:(lia)). lia.
Qed.

Lemma znth_lookup k c : 0 ≤ k → str !! Z.to_nat k = Some c → znth str k = Some c.
Proof. intros. unfold znth. by rewrite decide_True by lia. Qed.

(** What [parse_fraction] is called with: digits up to the position. *)
Definition number_at start s : Prop :=
  0 ≤ start < i s ∧ (∃ c, znth str start = Some c ∧ (c = 45 ∨ Decimal.is_digit c = true)) ∧
  (i s < size → ∃ c, znth str (i s) = Some c ∧ Decimal.is_digit c = false).

Lemma good_digits msg k s :
  msg ≠ [] → good 0 (valid 0) k → inside s → wp (need_digits str msg k) s (post 0 (valid 0) s) (λ _, never) never.
Proof.
  intros Hmsg Hk Hs. apply wp_here; [done|]. intros c _ _ _. destruct (negb _); [by apply wp_fail|].
  apply wp_skip; [done..|]. intros s1 (? & Hf & ? & _). eapply wp_mono; [by apply Hk|]. intros a s' Hp.
  eapply post_after; [done|]. rewrite Hf. auto with lia.
Qed.

Lemma good_exponent start : good 0 (valid 0) (parse_exponent str start).
Proof.
  intros s Hs. pose proof Hs as [? _]. unfold parse_exponent. apply wp_here; [done|]. intros c Hc _ _.
  destruct (is_exponent c) eqn:Ee; [|by parser_end].
  assert (i s < size) by (apply Hc; intros ->; discriminate).
  apply wp_move. set (s1 := s <| i := i s + 1 |>). assert (inside s1) by (apply inside_move; [done|lia]).
  assert (good 0 (valid 0) (mret (JsonDouble (Decimal.extract (drop (Z.to_nat start) str))))) as Hdone
    by (intros s2 Hs2; parser_end).
  apply wp_here; [done|]. intros d Hd _ _. destruct ((d =? 43) || (d =? 45)) eqn:Es.
  - assert (i s1 < size) by (apply Hd; intros ->; discriminate). cbn in *.
    apply wp_move. eapply wp_mono; [apply good_digits; [done..|apply inside_move; [done|cbn; lia]]|].
    intros a s' Hp. eapply post_after; [done|]. cbn. auto with lia.
  - apply wp_bind, wp_ret. eapply wp_mono; [apply good_digits; done|].
    intros a s' Hp. eapply post_after; [done|]. cbn. auto with lia.
Qed.

Lemma good_fraction start s : inside s → number_at start s → wp (parse_fraction str start) s (post 0 (valid 0) s) (λ _, never) never.
Proof.
  intros Hs (Hstart & (c0 & Hc0 & Hkind) & Hend). pose proof Hs as [? _]. unfold parse_fraction.
  apply wp_here; [done|]. intros c Hc _ _. wp_step. wp_step. destruct (_ && _ && _) eqn:E.
  - apply andb_true_iff in E as [_ Hlen%Z.leb_le]. apply wp_ret, post_ret; [done|]. intros. split_and!; [done|lia|].
    apply (atoi_bound _ (Z.to_nat (i s))); [|lia|].
    + intros d Hd. apply znth_lookup in Hd; [|lia]. pose proof (znth_bound _ _ _ Hd). destruct Hend as (e & He & ?); [lia|]. congruence.
    + exists c0. split; [|done]. unfold znth in Hc0. by rewrite decide_True in Hc0 by lia.
  - destruct (Z.eqb_spec c 46) as [->|]; [|by apply good_exponent].
    assert (i s < size) by (by apply Hc). apply wp_move.
    eapply wp_mono; [apply good_digits; [done|apply good_exponent|apply inside_move; [done|lia]]|].
    intros a s' Hp. eapply post_after; [done|]. cbn. auto with lia.
Qed.

Lemma good_number : good 1 (valid 0) (parse_number str).
Proof.
  intros s Hs. pose proof Hs as [? _]. unfold parse_number. wp_step. wp_step. apply wp_here; [done|]. intros c0 H0 Hz0 _.
  apply wp_bind.
  apply (wp_mono _ _ _ _ _ (λ _ s1, inside s1 ∧ failed s1 = failed s ∧ (i s1 = i s ∨ i s1 = i s + 1 ∧ c0 = 45))).
  { destruct (Z.eqb_spec c0 45) as [->|]; [|apply wp_ret; by auto].
    assert (i s < size) by (by apply H0). apply wp_modify. split_and!; [apply inside_move; [done|lia]|done|auto]. }
  intros [] s1 (Hs1 & Hf1 & Hi1). pose proof Hs1 as [? _].
  apply wp_here; [done|]. intros c Hc Hzc _.
  assert (∀ s2, inside s2 → failed s2 = failed s → i s1 < i s2 → Decimal.is_digit c = true →
    (i s2 < size → ∃ c, znth str (i s2) = Some c ∧ Decimal.is_digit c = false) →
    wp (parse_fraction str (i s)) s2 (post 1 (valid 0) s) (λ _, never) never) as Hfr.
  { intros s2 Hs2 Hf2 Hi2 Hd He. eapply wp_mono; [apply (good_fraction (i s)); [done|]|].
    - assert (i s1 < size) by (apply Hc; intros ->; discriminate).
      split_and!; [lia..| |done]. exists c0. assert (i s < size) by lia. split; [auto|]. destruct Hi1 as [Heq|[_ ->]]; [right|auto].
      rewrite Heq in Hzc. specialize (Hz0 ltac:(lia)). specialize (Hzc ltac:(lia)). congruence.
    - intros a s' Hp. eapply post_after; [done|]. rewrite Hf2. intros. split_and!; [done|lia|done]. }
  destruct (Z.eqb_spec c 48) as [->|].
  - assert (i s1 < size) by (by apply Hc). apply wp_move. assert (inside (s1 <| i := i s1 + 1 |>)) by (apply inside_move; [done|lia]).
    apply wp_here; [done|]. intros d _ Hzd _. destruct (in_range d 48 57) eqn:Ed; [by apply wp_fail|].
    apply Hfr; [done|done|cbn; lia|done|]. intros Hlt. exists d. auto.
  - destruct (in_range c 49 57) eqn:Ec; [|by apply wp_fail].
    unfold in_range in Ec. apply andb_true_iff in Ec as [?%Z.leb_le ?%Z.leb_le].
    assert (i s1 < size) by (apply Hc; lia). apply wp_move. assert (inside (s1 <| i := i s1 + 1 |>)) by (apply inside_move; [done|lia]).
    apply wp_skip; [done..|]. intros s2 (? & Hf2 & Hi2 & He & _). cbn in Hf2, Hi2.
    apply Hfr; [done|congruence|lia|apply digit_range; lia|]. done.
Qed.
End safety.

(* ------------------------------------------------------------------ *)
(** ** Values *)

Section values.
Context (str : bytes) (strat : strategy) (Hmax : zlen str < 2 ^ 64).
Abbreviation size := (zlen str).
Abbreviation never := (λ _, False).
Implicit Types s : t.

Lemma inside_lo lo lo' s : inside str lo s → lo' ≤ i s → inside str lo' s.
Proof. intros [? ?] ?. split; [lia|done]. Qed.

(** A parser of values of at most [n] levels. *)
Definition parses (n : nat) (value : M t json) : Prop := ∀ lo, 0 ≤ lo → good str lo 1 (valid n) value.

Lemma good_unless_failed lo k0 Q0 s0 (m : M t json) s :
  inside str lo s → (failed s = false → wp m s (post str lo k0 Q0 s0) (λ _, never) never) →
  wp (unless_failed m) s (post str lo k0 Q0 s0) (λ _, never) never.
Proof.
  intros Hs Hm. unfold unless_failed. wp_step. wp_step. destruct (failed s) eqn:E; [|by apply Hm].
  apply wp_ret, post_ret; [done|congruence].
Qed.

Lemma good_expect lo expected res n s :
  0 ≤ lo → expected ≠ [] → valid n res → inside str (lo + 1) s →
  wp (expect str expected res) s (post str lo 0 (valid n) s) (λ _, never) never.
Proof.
  intros Hlo Hne Hres Hs. pose proof Hs as [? _]. unfold expect. wp_step. wp_step. apply wp_bind.
  rewrite (proj2 (Z.eqb_neq (i s) 0)) by lia. cbn [negb]. apply wp_ret. apply wp_move.
  set (s1 := s <| i := i s + -1 |>).
  assert (inside str lo s1) by (apply inside_move; [apply (inside_lo (lo + 1)); [done|lia]|lia]).
  apply wp_bind. unfold substr. wp_step. wp_step. destruct (Z.ltb_spec size (i s1)) as [Hlt|_]; [cbn in Hlt; lia|].
  apply wp_ret. case_bool_decide as Heq; [|by apply wp_fail].
  assert (0 < zlen expected) by (destruct expected; [done|rewrite zlen_cons; pose proof (zlen_nonneg expected); lia]).
  assert (i s1 + zlen expected ≤ size).
  { apply (f_equal length) in Heq. rewrite length_take, length_drop in Heq. destruct H0 as [? _]. unfold zlen in *. lia. }
  apply wp_move, wp_ret, post_ret; [apply inside_move; [done|cbn in *; lia]|].
  cbn in *. intros. split_and!; [done|lia|done].
Qed.

Context (n : nat) (value : M t json) (Hvalue : parses n value).

Lemma good_members lo k ch data s :
  0 ≤ lo → inside str lo s → (failed s = false → size - i s < Z.of_nat k) → (0 < k)%nat → (ch ≠ 0 → failed s = false) →
  ordered data → Forall (λ kv, valid n kv.2) data →
  wp (members str strat value k ch data) s (post str lo 0 (valid (S n)) s) (λ _, never) never.
Proof.
  intros Hlo. revert ch data s. induction k as [|k IH]; intros ch data s Hs Hk Hpos Hch Ho Hd; [lia|].
  cbn [members]. destruct (Z.eqb_spec ch quote) as [->|]; [|by apply wp_fail]. specialize (Hch ltac:(done)). specialize (Hk Hch).
  eapply good_call; [by apply good_string|done|]. intros key s1 [Hs1 P1]. apply good_unless_failed; [done|]. intros Hf1.
  destruct (P1 Hf1) as (_ & Hi1 & _).
  eapply wp_token; [done..|]. intros c2 s2 [Hs2 P2] Hc2. destruct (Z.eqb_spec c2 58) as [->|]; [|by apply wp_fail].
  destruct (P2 (Hc2 ltac:(done))) as (_ & Hi2 & _).
  eapply good_call; [by apply Hvalue|done|]. intros v s3 [Hs3 P3]. apply good_unless_failed; [done|]. intros Hf3.
  destruct (P3 Hf3) as (_ & Hi3 & Hv).
  assert (ordered (Object.insert key v data)) by (by apply insert_ordered).
  assert (Forall (λ kv, valid n kv.2) (Object.insert key v data)) by (by apply insert_Forall).
  eapply wp_token; [done..|]. intros c4 s4 [Hs4 P4] Hc4.
  destruct (Z.eqb_spec c4 125) as [->|].
  { apply wp_ret, post_ret; [done|]. intros (_ & ? & _)%P4. split; [done|split; [lia|done]]. }
  destruct (Z.eqb_spec c4 44) as [->|]; [|by apply wp_fail]. destruct (P4 (Hc4 ltac:(done))) as (_ & Hi4 & _).
  eapply wp_token; [done..|]. intros c5 s5 [Hs5 P5] Hc5. pose proof Hs4 as [? _].
  eapply wp_mono; [apply IH; [done| |lia|done..]|].
  - intros (_ & ? & _)%P5. lia.
  - intros a s' Hp. eapply post_after; [done|]. intros (_ & ? & _)%P5. split_and!; [done|lia|done].
Qed.

Lemma good_elements lo k data s :
  0 ≤ lo → inside str (lo + 1) s → (failed s = false → size - i s < Z.of_nat k) → (0 < k)%nat → Forall (valid n) data →
  wp (elements str strat value k data) s (post str lo 0 (valid (S n)) s) (λ _, never) never.
Proof.
  intros Hlo. revert data s. induction k as [|k IH]; intros data s Hs Hk Hpos Hd; [lia|].
  cbn [elements]. apply wp_move. pose proof Hs as [? _]. set (s0 := s <| i := i s + -1 |>).
  assert (inside str lo s0) by (apply inside_move; [apply (inside_lo (lo + 1)); [done|lia]|lia]).
  eapply good_call; [by apply Hvalue|done|]. intros v s1 [Hs1 P1]. apply good_unless_failed; [done|]. intros Hf1.
  destruct (P1 Hf1) as (Hf0 & Hi1 & Hv). cbn in Hf0, Hi1. specialize (Hk Hf0).
  assert (Forall (valid n) (data ++ [v])) by (by apply Forall_app_2; [|apply Forall_singleton]).
  eapply wp_token; [done..|]. intros c2 s2 [Hs2 P2] Hc2.
  destruct (Z.eqb_spec c2 93) as [->|].
  { apply wp_ret, post_ret; [done|]. intros (_ & ? & _)%P2. split; [done|split; [lia|done]]. }
  destruct (Z.eqb_spec c2 44) as [->|]; [|by apply wp_fail]. destruct (P2 (Hc2 ltac:(done))) as (_ & Hi2 & _).
  eapply (wp_token _ _ (lo + 1)); [lia|done|apply (inside_lo lo); [done|lia]|].
  intros c3 s3 [Hs3 P3] Hc3. pose proof Hs2 as [? _].
  eapply wp_mono; [apply IH; [done| |lia|done]|].
  - intros (_ & ? & _)%P3. lia.
  - intros a s' Hp. eapply post_after; [done|]. intros (_ & ? & _)%P3. split_and!; [done|lia|done].
Qed.

(** A value whose first character was read. *)
Lemma good_value lo ch s :
  0 ≤ lo → inside str (lo + 1) s → failed s = false → wp (parse_value str strat value ch) s (post str lo 0 (valid (S n)) s) (λ _, never) never.
Proof.
  intros Hlo Hs Hf. pose proof Hs as [? _]. assert (inside str lo s) by (apply (inside_lo (lo + 1)); [done|lia]).
  assert (∀ m k, valid k m → valid (S k) m) as Hmore.
  { intros m. induction m using json_ind; intros [|k]; try done; simpl.
    - intros Hl. rewrite Forall_forall in *. naive_solver.
    - intros [? Hl]. split; [done|]. rewrite Forall_forall in *. naive_solver. }
  unfold parse_value. destruct (_ || _).
  { apply wp_move. set (s1 := s <| i := i s + -1 |>).
    assert (inside str lo s1) by (apply inside_move; [done|lia]).
    eapply wp_mono; [by apply good_number|]. intros a s' Hp. eapply post_after; [done|]. cbn. intros. split_and!; [done|lia|].
    intros Ha. destruct a; done. }
  destruct (ch =? 116); [by apply good_expect|]. destruct (ch =? 102); [by apply good_expect|].
  destruct (ch =? 110); [by apply good_expect|].
  destruct (ch =? quote).
  { eapply good_call; [by apply good_string|done|]. intros a s1 [? P1]. apply wp_ret, post_ret; [done|].
    intros (? & ? & _)%P1. split_and!; [done|lia|done]. }
  destruct (ch =? 123).
  { eapply wp_token; [done..|]. intros c s1 [? P1] Hc. destruct (Z.eqb_spec c 125) as [->|].
    - apply wp_ret, post_ret; [done|]. intros (? & ? & _)%P1. split_and!; [done|lia|done].
    - eapply wp_mono; [apply good_members; [done|done| |lia|done..]|].
      + intros _. destruct H1 as [? _]. unfold zlen in *. lia.
      + intros a s' Hp. eapply post_after; [done|]. intros (_ & ? & _)%P1. split_and!; [done|lia|done]. }
  destruct (ch =? 91); [|by apply wp_fail].
  eapply (wp_token _ _ (lo + 1)); [lia|done|done|]. intros c s1 [? P1] Hc. destruct (Z.eqb_spec c 93) as [->|].
  - apply wp_ret, post_ret; [apply (inside_lo (lo + 1)); [done|]; destruct H1; lia|].
    intros (? & ? & _)%P1. split_and!; [done|lia|apply Forall_nil_2].
  - eapply wp_mono; [apply good_elements; [done|done| |lia|done]|].
    + intros _. destruct H1 as [? _]. unfold zlen in *. lia.
    + intros a s' Hp. eapply post_after; [done|]. intros (_ & ? & _)%P1. split_and!; [done|lia|done].
Qed.
End values.

Section whole.
Context (str : bytes) (strat : strategy) (Hmax : zlen str < 2 ^ 64).
Abbreviation never := (λ _, False).

Lemma good_json k depth :
  0 ≤ depth → (Z.to_nat (202 - depth) ≤ k)%nat → depth ≤ 201 → parses str (Z.to_nat (201 - depth)) (parse_json str strat k depth).
Proof.
  revert depth. induction k as [|k IH]; intros depth H0 Hk Hd lo Hlo s Hs; [lia|]. cbn [parse_json].
  destruct (Z.ltb_spec max_depth depth) as [|Hle]; [by apply wp_fail|]. unfold max_depth in Hle.
  eapply wp_token; [done..|]. intros c s1 [Hs1 P1] Hc. apply good_unless_failed; [done|]. intros Hf.
  destruct (P1 Hf) as (? & ? & _). pose proof Hs as [? _].
  replace (Z.to_nat (201 - depth)) with (S (Z.to_nat (201 - (depth + 1)))) by lia.
  eapply wp_mono; [apply good_value; [done|apply IH; lia|exact Hlo|apply (inside_lo _ lo); [done|lia]|done]|].
  intros a s' Hp. eapply post_after; [done|]. intros. split_and!; [done|lia|done].
Qed.

(** The parser ends inside the text, with an error exactly when it failed. *)
Lemma parse_ends : ∃ j e, parse str strat = Some (j, e) ∧ ((e = [] ∧ valid 201 j) ∨ (e ≠ [] ∧ j = JsonNull)).
Proof.
  assert (inside str 0 (mk 0 [] false)) as H0.
  { split; [cbn; pose proof (zlen_nonneg str); lia|]. by split. }
  assert (wp (parse_all str strat) (mk 0 [] false)
    (λ j s, (failed s = true ↔ err s ≠ []) ∧ (failed s = false → valid 201 j) ∧ (failed s = true → j = JsonNull)) (λ _, never) never) as H.
  { unfold parse_all. eapply (good_call _ 0); [apply (good_json levels 0); [done|unfold levels; lia|lia|done]|done|].
    intros j s1 [Hs1 P1].
    eapply good_call; [apply good_garbage; done|done|]. intros [] s2 [Hs2 P2]. pose proof Hs2 as [? He].
    wp_step. wp_step. destruct (failed s2) eqn:Hf2; [apply wp_ret; rewrite Hf2; by split_and!|].
    destruct (P2 eq_refl) as (Hf1 & ? & _). destruct (P1 Hf1) as (_ & ? & ?).
    destruct (Z.eqb_spec (i s2) (zlen str)).
    - apply wp_ret. by rewrite Hf2.
    - cbn [negb]. apply (wp_here str 0); [done|done|]. intros c _ _ _. unfold fail. apply wp_bind, wp_modify, wp_ret.
      rewrite Hf2. split; [by split|]. split; [intros E; discriminate E|by intros _]. }
  unfold parse, wp in *. destruct (parse_all _ _ _) as [j s| |]; [|done..]. destruct H as (He & Hv & Hn).
  exists j, (err s). split; [done|]. destruct (failed s); [right|left].
  - split; [by apply He|by apply Hn].
  - split; [|by apply Hv]. destruct (err s); [done|]. by destruct He as [_ He]; discriminate He.
Qed.
End whole.

(* ------------------------------------------------------------------ *)
(** ** The theorem *)

(** C16. The parser on any text shorter than the address space: it reads
    nothing behind the end of the text, no loop runs on, and it reports an
    error exactly when it returns null for one; a value it accepts has the
    keys of its objects in order, integers of nine digits at most, and no
    more than [max_depth + 1] levels. *)
Theorem parsing_is_safe (str : bytes) (strat : strategy) :
  zlen str < 2 ^ 64 →
  ∃ j e, parse str strat = Some (j, e) ∧ ((e = [] ∧ valid (Z.to_nat (max_depth + 1)) j) ∨ (e ≠ [] ∧ j = JsonNull)).
Proof. apply parse_ends. Qed.

Lemma parsing_is_safe_witness :
  zlen (lit "[[1, -20], /* c") < 2 ^ 64 ∧
  ∃ j e, parse (lit "[[1, -20], /* c") COMMENTS = Some (j, e) ∧
    ((e = [] ∧ valid (Z.to_nat (max_depth + 1)) j) ∨ (e ≠ [] ∧ j = JsonNull)).
Proof. split; [reflexivity|]. apply (parsing_is_safe (lit "[[1, -20], /* c") COMMENTS). reflexivity. Defined.
