(* ===== verification/JsonText.v ===== *)
(** * The text of json11 is read back

    [Json.dump] prints a value and [JsonParser] reads it: the two agree on
    every value without doubles that nests at most [max_depth + 1] levels,
    except that an integer of more than nine characters comes back as the
    double of the same value. *)

From Stdlib Require Import ZArith Lia SpecFloat Ascii String.
From stdpp Require Import base tactics numbers option strings list.
From S2P Require Import Prelude Words Double Json JsonSafety.
From stdpp Require Import list.
Open Scope list_scope.
Open Scope Z_scope.
Import JsonParser.

(* ------------------------------------------------------------------ *)
(** ** Decimal numbers *)

Section decimal.
Lemma digits_spec n z acc :
  0 ≤ z < 10 ^ Z.of_nat (S n) →
  ∃ ds, Decimal.digits (S n) z acc = ds ++ acc ∧ Forall (λ c, Decimal.is_digit c = true) ds ∧ ds ≠ [] ∧
    (1 ≤ z → ∃ c ds', ds = c :: ds' ∧ 49 ≤ c ≤ 57) ∧ (z = 0 → ds = [48]) ∧
    (∀ a, foldl (λ a c, a * 10 + (c - 48)) a ds = a * 10 ^ Z.of_nat (length ds) + z) ∧
    (∀ k, 0 ≤ k → z < 10 ^ (k + 1) → Z.of_nat (length ds) ≤ k + 1).
Proof.
  revert z acc. induction n as [|n IH]; intros z acc Hz.
  - assert (z < 10) by lia. change (Decimal.digits 1 z acc) with (if z <? 10 then 48 + z mod 10 :: acc else 48 + z mod 10 :: acc).
    assert (z mod 10 = z) as Hm by (apply Z.mod_small; lia). rewrite Hm.
    exists [48 + z]. split_and!; [by destruct (z <? 10)| |done|..].
    + apply Forall_singleton, digit_range. lia.
    + intros. eexists _, _. split; [done|lia].
    + by intros ->.
    + intros a. simpl. lia.
    + intros k ? ?. simpl. lia.
  - change (Decimal.digits (S (S n)) z acc) with
      (if z <? 10 then 48 + z mod 10 :: acc else Decimal.digits (S n) (z / 10) (48 + z mod 10 :: acc)).
    destruct (Z.ltb_spec z 10) as [Hlt|Hge].
    + assert (z mod 10 = z) as Hm by (apply Z.mod_small; lia). rewrite Hm. exists [48 + z]. split_and!; [done| |done|..].
      * apply Forall_singleton, digit_range. lia.
      * intros. eexists _, _. split; [done|lia].
      * by intros ->.
      * intros a. simpl. lia.
      * intros k ? ?. simpl. lia.
    + rewrite (Nat2Z.inj_succ (S n)), Z.pow_succ_r in Hz by lia. pose proof (Z.mod_pos_bound z 10 ltac:(lia)).
      destruct (IH (z / 10) (48 + z mod 10 :: acc)) as (ds & -> & Hd & Hne & H1 & _ & Hv & Hl); [dlia|].
      exists (ds ++ [48 + z mod 10]). rewrite <- app_assoc. split_and!; [done|..].
      * apply Forall_app_2; [done|]. apply Forall_singleton, digit_range. lia.
      * by destruct ds.
      * intros _. destruct H1 as (c & ds' & -> & ?); [dlia|]. by eexists _, _.
      * lia.
      * intros a. rewrite foldl_app, Hv, length_app, Nat2Z.inj_add, Z.pow_add_r by lia. simpl.
        pose proof (Z.div_mod z 10 ltac:(lia)). nia.
      * intros k ? Hk. rewrite length_app. simpl.
        destruct (decide (k = 0)) as [->|]; [lia|]. specialize (Hl (k - 1) ltac:(lia)).
        replace (k - 1 + 1) with k in Hl by lia. rewrite Z.pow_add_r in Hk by lia. lapply Hl; [lia|]. dlia.
Qed.

(** The digits of a number that is not negative. *)
Lemma unsigned_spec z :
  0 ≤ z →
  ∃ c ds, Decimal.unsigned z = c :: ds ∧ Forall (λ c, Decimal.is_digit c = true) (c :: ds) ∧
    ((z = 0 ∧ c = 48 ∧ ds = []) ∨ 49 ≤ c ≤ 57) ∧ Decimal.value (c :: ds) = z ∧
    (∀ k, 0 ≤ k → z < 10 ^ (k + 1) → Z.of_nat (length (c :: ds)) ≤ k + 1).
Proof.
  intros Hz. unfold Decimal.unsigned.
  destruct (digits_spec (Z.to_nat (Z.log2 z)) z []) as (ds & -> & Hd & Hne & H1 & H0 & Hv & Hl).
  { split; [done|]. rewrite Nat2Z.inj_succ, Z2Nat.id by apply Z.log2_nonneg.
    destruct (decide (z = 0)) as [->|]; [done|]. pose proof (Z.log2_spec z ltac:(lia)) as [_ Hs].
    assert (2 ^ Z.succ (Z.log2 z) ≤ 10 ^ Z.succ (Z.log2 z)) by (apply Z.pow_le_mono_l; lia). lia. }
  rewrite app_nil_r. destruct ds as [|c ds]; [done|]. exists c, ds. split_and!; [done..| | |done].
  - destruct (decide (z = 0)) as [->|]; [left|right; destruct H1 as (? & ? & E & ?); [lia|]; by simplify_eq].
    specialize (H0 eq_refl). by simplify_eq.
  - unfold Decimal.value. rewrite Hv. lia.
Qed.

Lemma span_app ds r :
  Forall (λ c, Decimal.is_digit c = true) ds → Decimal.is_digit (hd 0 r) = false → Decimal.span (ds ++ r) = (ds, r).
Proof.
  intros Hd Hr. induction Hd as [|c ds Hc Hd IH]; simpl.
  - destruct r as [|c r]; [done|]. simpl in *. by rewrite Hr.
  - by rewrite Hc, IH.
Qed.
End decimal.

(* ------------------------------------------------------------------ *)
(** ** What is read back *)

(** Values whose text is read back: no doubles, strings of bytes, integers
    of 32 bits, objects with their keys in order, at most [n] levels. *)
Fixpoint printable (n : nat) (j : json) : Prop :=
  match j, n with
  | JsonDouble _, _ => False
  | JsonInt z, _ => is_s32 z
  | JsonString s, _ => wf_bytes s
  | JsonArray l, S n' => Forall (printable n') l
  | JsonObject m, S n' => ordered m ∧ Forall (λ kv, wf_bytes kv.1 ∧ printable n' kv.2) m
  | JsonArray _, O | JsonObject _, O => False
  | _, _ => True
  end.

(** The number that the text of an [int] is read as. *)
Fixpoint norm (j : json) : json :=
  match j with
  | JsonInt z => if (-100000000 <? z) && (z <? 1000000000) then j else JsonDouble (D.of_Z z)
  | JsonArray l => JsonArray (norm <$> l)
  | JsonObject m => JsonObject ((λ kv, (kv.1, norm kv.2)) <$> m)
  | _ => j
  end.

Lemma norm_number z : is_s32 z → Json.int_value (norm (JsonInt z)) = Some z ∧ Json.number_value (norm (JsonInt z)) = D.of_Z z.
Proof.
  intros Hz. simpl. destruct (_ && _); [done|]. simpl. split; [|done].
  unfold D.to_s32. rewrite trunc_of_Z by lia. simpl. by rewrite decide_True.
Qed.

(* ------------------------------------------------------------------ *)
(** ** The parser at a position of a text *)

Section text.
Context (str : bytes) (strat : strategy).

(** Behind [pre], nothing failed. *)
Definition pos (pre : bytes) : t := mk (zlen pre) [] false.

(** At a position the parser returns [a] and stands behind [x]. *)
Definition reads {A} (m : M t A) (pre x : bytes) (a : A) : Prop := m (pos pre) = Ret a (pos (pre ++ x)).

Lemma reading_bind {A B} (m : M t A) (f : A → M t B) pre x a y b :
  reads m pre x a → reads (f a) (pre ++ x) y b → reads (m ≫= f) pre (x ++ y) b.
Proof. unfold reads. intros Hm Hf. rewrite (bind_Ret _ _ _ _ _ Hm), Hf. by rewrite app_assoc. Qed.

Lemma reading_ret {A} (a : A) pre : reads (mret a) pre [] a.
Proof. unfold reads. by rewrite app_nil_r. Qed.

Lemma reads_get {A} (f : t → M t A) pre x a : reads (f (pos pre)) pre x a → reads (get ≫= f) pre x a.
Proof. done. Qed.

Lemma reads_move x pre d : d = zlen x → reads (move d) pre x tt.
Proof. intros ->. unfold reads, move, modify, pos. by rewrite zlen_app. Qed.

Lemma move_back pre c : move (-1) (pos (pre ++ [c])) = Ret tt (pos pre).
Proof. unfold move, modify, pos. cbn. rewrite zlen_app. change (zlen [c]) with 1. by replace (zlen pre + 1 + -1) with (zlen pre) by lia. Qed.

Lemma bind_run {A B} (m : M t A) (f : A → M t B) s a s' r : m s = Ret a s' → f a s' = r → (m ≫= f) s = r.
Proof. intros Hm <-. by rewrite (bind_Ret _ _ _ _ _ Hm). Qed.

Lemma size_app pre l : str = pre ++ l → zlen str = zlen pre + zlen l.
Proof. intros ->. by rewrite zlen_app. Qed.

Lemma here_run pre r : str = pre ++ r → here str (pos pre) = Ret (hd 0 r) (pos pre).
Proof.
  intros Hs. unfold here. apply (bind_run _ _ _ (pos pre) (pos pre)); [done|]. cbn. unfold char_at.
  rewrite (size_app pre r) by done. destruct r as [|c r].
  - rewrite zlen_nil, Z.add_0_r, Z.eqb_refl. done.
  - rewrite zlen_cons. pose proof (zlen_nonneg r). rewrite (proj2 (Z.eqb_neq _ _)) by lia.
    rewrite Hs. unfold zlen. rewrite znth_of_nat, lookup_app_r, Nat.sub_diag by lia. done.
Qed.

Lemma here_then {A} (f : Z → M t A) pre r R : str = pre ++ r → f (hd 0 r) (pos pre) = R → (here str ≫= f) (pos pre) = R.
Proof. intros Hs Hf. eapply bind_run; [by apply (here_run _ r)|done]. Qed.

Lemma move_then {A} c (f : unit → M t A) pre R : f tt (pos (pre ++ [c])) = R → (move 1 ≫= f) (pos pre) = R.
Proof. intros Hf. eapply bind_run; [by apply (reads_move [c])|done]. Qed.

Lemma skip_run p x r n pre :
  str = pre ++ x ++ r → Forall (λ c, p c = true) x → p (hd 0 r) = false → (length x < n)%nat →
  skip str p n (pos pre) = Ret tt (pos (pre ++ x)).
Proof.
  intros Hs Hx Hr. revert n pre Hs. induction Hx as [|c x Hc Hx IH]; intros n pre Hs Hn.
  - destruct n as [|n]; [simpl in Hn; lia|]. rewrite app_nil_r. simpl. apply (here_then _ _ r); [done|]. by rewrite Hr.
  - destruct n as [|n]; [simpl in Hn; lia|]. simpl. apply (here_then _ _ ((c :: x) ++ r)); [done|]. simpl. rewrite Hc.
    apply (move_then c). rewrite (IH n (pre ++ [c])); [by rewrite <- app_assoc|by rewrite <- app_assoc|simpl in Hn; lia].
Qed.

Lemma skip_all_run p x r pre :
  str = pre ++ x ++ r → Forall (λ c, p c = true) x → p (hd 0 r) = false →
  skip str p (S (length str)) (pos pre) = Ret tt (pos (pre ++ x)).
Proof.
  intros Hs Hx Hr. eapply skip_run; [done..|]. apply (f_equal length) in Hs. rewrite !length_app in Hs. lia.
Qed.

(** *** Tokens *)

Definition is_white (c : Z) : bool := (c =? 32) || (c =? 13) || (c =? 10) || (c =? 9).
(** A character a token can start with. *)
Definition visible (c : Z) : Prop := is_white c = false ∧ c ≠ 47.

Lemma comments_run r n pre : str = pre ++ r → visible (hd 0 r) → (0 < n)%nat → comments str n (pos pre) = Ret tt (pos pre).
Proof.
  intros Hs [Hw H47] Hn. destruct n as [|n]; [lia|]. simpl.
  eapply (bind_run _ _ _ false (pos pre)).
  { unfold consume_comment. apply (here_then _ _ r); [done|]. by rewrite (proj2 (Z.eqb_neq _ _)). }
  eapply bind_run; [done|]. cbn [failed pos].
  eapply bind_run; [apply (skip_all_run _ [] r); [done|constructor|done]|]. by rewrite app_nil_r.
Qed.

Lemma garbage_run ws r pre :
  str = pre ++ ws ++ r → Forall (λ c, is_white c = true) ws → visible (hd 0 r) →
  consume_garbage str strat (pos pre) = Ret tt (pos (pre ++ ws)).
Proof.
  intros Hs Hws Hr. unfold consume_garbage. eapply bind_run; [by apply (skip_all_run _ ws r); [..|apply Hr]|].
  destruct strat; [done|]. apply (comments_run r); [by rewrite <- app_assoc|done|lia].
Qed.

Lemma token_run ws c r pre :
  str = pre ++ ws ++ c :: r → Forall (λ c, is_white c = true) ws → visible c →
  get_next_token str strat (pos pre) = Ret c (pos (pre ++ ws ++ [c])).
Proof.
  intros Hs Hws Hc. unfold get_next_token. eapply bind_run; [by apply (garbage_run ws (c :: r))|].
  eapply bind_run; [done|]. cbn [failed pos]. cbn [i pos].
  rewrite (size_app (pre ++ ws) (c :: r)) by (by rewrite <- app_assoc).
  rewrite zlen_cons. pose proof (zlen_nonneg r). rewrite (proj2 (Z.eqb_neq _ _)) by lia.
  apply (here_then _ _ (c :: r)); [by rewrite <- app_assoc|]. apply (move_then c). by rewrite <- app_assoc.
Qed.

Lemma token_then {A} c (f : Z → M t A) ws r pre R :
  str = pre ++ ws ++ c :: r → Forall (λ c, is_white c = true) ws → visible c →
  f c (pos (pre ++ ws ++ [c])) = R → (get_next_token str strat ≫= f) (pos pre) = R.
Proof. intros. eapply bind_run; [by apply (token_run ws c r)|done]. Qed.

(** *** Strings *)

(** A code point that is not half of a pair. *)
Definition whole_codepoint (c : Z) : Prop := -1 ≤ c < 55296.

Lemma next_whole out last c : whole_codepoint last → next_codepoint out last c = (out ++ encode_utf8 last, c).
Proof.
  intros [? ?]. unfold next_codepoint. replace (in_range last 55296 56319) with false; [done|].
  symmetry. unfold in_range. apply andb_false_iff. left. apply Z.leb_gt. lia.
Qed.

(** One more step of [parse_chars] at a plain character. *)
Lemma chars_plain n out last ch r pre :
  str = pre ++ ch :: r → ch ≠ 34 → ch ≠ 92 → 31 < ch →
  parse_chars str (S n) out last (pos pre) = parse_chars str n (out ++ encode_utf8 last ++ [ch]) (-1) (pos (pre ++ [ch])).
Proof.
  intros Hs H34 H92 H31. cbn [parse_chars]. eapply bind_run; [done|]. cbn [i pos].
  rewrite (size_app pre (ch :: r)), zlen_cons by done. pose proof (zlen_nonneg r). rewrite (proj2 (Z.eqb_neq _ _)) by lia.
  apply (here_then _ _ (ch :: r)); [done|]. cbn [hd]. apply (move_then ch).
  unfold quote, backslash, in_range. rewrite (proj2 (Z.eqb_neq ch 34)), (proj2 (Z.eqb_neq ch 92)) by done.
  rewrite (proj2 (Z.leb_gt ch 31)) by done. by rewrite andb_false_r.
Qed.

(** ... at a backslash ... *)
Lemma chars_escape n out last e c r pre :
  str = pre ++ 92 :: e :: r → e ≠ 117 → simple_escape e = Some c →
  parse_chars str (S n) out last (pos pre) = parse_chars str n (out ++ encode_utf8 last ++ [c]) (-1) (pos (pre ++ [92; e])).
Proof.
  intros Hs He Hc. cbn [parse_chars]. eapply bind_run; [done|]. cbn [i pos].
  rewrite (size_app pre (92 :: e :: r)), !zlen_cons by done. pose proof (zlen_nonneg r). rewrite (proj2 (Z.eqb_neq _ _)) by lia.
  apply (here_then _ _ (92 :: e :: r)); [done|]. cbn [hd]. apply (move_then 92). cbn [Z.eqb Pos.eqb in_range quote backslash Z.leb Z.compare Pos.compare Pos.compare_cont andb negb].
  eapply bind_run; [done|]. cbn [i pos]. rewrite zlen_app. change (zlen [92]) with 1. rewrite (proj2 (Z.eqb_neq _ _)) by lia.
  assert (str = (pre ++ [92]) ++ e :: r) by (by rewrite <- app_assoc).
  apply (here_then _ _ (e :: r)); [done|]. cbn [hd]. apply (move_then e). rewrite (proj2 (Z.eqb_neq e 117)) by done. rewrite Hc.
  by rewrite <- app_assoc.
Qed.

(** ... and at a code point. *)
Lemma chars_codepoint n out last a b c d r pre :
  str = pre ++ 92 :: 117 :: a :: b :: c :: d :: r → forallb is_hex [a; b; c; d] = true → whole_codepoint last →
  parse_chars str (S n) out last (pos pre) =
  parse_chars str n (out ++ encode_utf8 last) (hex_value [a; b; c; d]) (pos (pre ++ [92; 117; a; b; c; d])).
Proof.
  intros Hs Hx Hl. cbn [parse_chars]. eapply bind_run; [done|]. cbn [i pos].
  rewrite (size_app pre _ Hs), !zlen_cons. pose proof (zlen_nonneg r). rewrite (proj2 (Z.eqb_neq _ _)) by lia.
  apply (here_then _ _ _ _ Hs). cbn [hd]. apply (move_then 92). cbn [Z.eqb Pos.eqb in_range quote backslash Z.leb Z.compare Pos.compare Pos.compare_cont andb negb].
  eapply bind_run; [done|]. cbn [i pos]. rewrite zlen_app. change (zlen [92]) with 1. rewrite (proj2 (Z.eqb_neq _ _)) by lia.
  assert (str = (pre ++ [92]) ++ 117 :: a :: b :: c :: d :: r) as Hs1 by (by rewrite <- app_assoc).
  apply (here_then _ _ _ _ Hs1). cbn [hd]. apply (move_then 117). cbn [Z.eqb Pos.eqb].
  assert (str = ((pre ++ [92]) ++ [117]) ++ a :: b :: c :: d :: r) as Hs2 by (by rewrite <- !app_assoc).
  eapply (bind_run _ _ _ [a; b; c; d]).
  { unfold substr. eapply bind_run; [done|]. cbn [i pos]. rewrite (size_app _ _ Hs2), !zlen_cons.
    rewrite (proj2 (Z.ltb_ge _ _)) by (unfold zlen in *; lia). rewrite Hs2. unfold zlen. rewrite Nat2Z.id, drop_app_length. done. }
  rewrite Hx. change (zlen [a; b; c; d] <? 4) with false. cbn [negb orb]. rewrite next_whole by done.
  eapply bind_run; [by apply (reads_move [a; b; c; d])|]. by rewrite <- !app_assoc.
Qed.

Lemma hex_is_hex z : 0 ≤ z < 16 → is_hex (Json.hex z) = true ∧ hex_digit (Json.hex z) = z.
Proof.
  intros Hz. unfold Json.hex, is_hex, hex_digit, in_range. destruct (Z.ltb_spec z 10).
  - rewrite (proj2 (Z.leb_gt 97 (48 + z))), (proj2 (Z.leb_gt 65 (48 + z))), (proj2 (Z.leb_le 48 (48 + z))), (proj2 (Z.leb_le (48 + z) 57)) by lia.
    split; [done|]. simpl. lia.
  - rewrite (proj2 (Z.leb_le 97 (87 + z))), (proj2 (Z.leb_le (87 + z) 102)) by lia. split; [done|]. simpl. lia.
Qed.

Lemma encode_ascii c : 0 ≤ c < 128 → encode_utf8 c = [c].
Proof.
  intros. unfold encode_utf8. rewrite (proj2 (Z.ltb_ge c 0)), (proj2 (Z.ltb_lt c 128)) by lia. by rewrite u8_small by lia.
Qed.

(** What [dump_chars] writes first, and for which bytes. *)
Inductive written : bytes → bytes → Prop :=
| written_plain ch : ch ≠ 34 → ch ≠ 92 → 31 < ch → written [ch] [ch]
| written_escape e c : e ≠ 117 → simple_escape e = Some c → written [c] [92; e]
| written_codepoint x a b c d : forallb is_hex [a; b; c; d] = true → whole_codepoint (hex_value [a; b; c; d]) →
    encode_utf8 (hex_value [a; b; c; d]) = x → x ≠ [] → written x [92; 117; a; b; c; d].

Lemma dump_step ch s : is_u8 ch → ∃ x w s', ch :: s = x ++ s' ∧ Json.dump_chars (ch :: s) = w ++ Json.dump_chars s' ∧ written x w ∧ x ≠ [].
Proof.
  intros Hch.
  assert (∀ w, written [ch] w → Json.dump_chars (ch :: s) = w ++ Json.dump_chars s →
    ∃ x w s', ch :: s = x ++ s' ∧ Json.dump_chars (ch :: s) = w ++ Json.dump_chars s' ∧ written x w ∧ x ≠ []) as Hone
    by (intros w Hw E; by exists [ch], w, s).
  destruct (decide (ch = 92)) as [->|]; [by apply (Hone [92; 92]); [apply written_escape|]|].
  destruct (decide (ch = 34)) as [->|]; [by apply (Hone [92; 34]); [apply written_escape|]|].
  destruct (decide (ch = 8)) as [->|]; [by apply (Hone [92; 98]); [apply written_escape|]|].
  destruct (decide (ch = 12)) as [->|]; [by apply (Hone [92; 102]); [apply written_escape|]|].
  destruct (decide (ch = 10)) as [->|]; [by apply (Hone [92; 110]); [apply written_escape|]|].
  destruct (decide (ch = 13)) as [->|]; [by apply (Hone [92; 114]); [apply written_escape|]|].
  destruct (decide (ch = 9)) as [->|]; [by apply (Hone [92; 116]); [apply written_escape|]|].
  destruct (Z.leb_spec ch 31) as [Hle|Hgt].
  - apply (Hone [92; 117; 48; 48; Json.hex (ch / 16); Json.hex (ch mod 16)]).
    + destruct (hex_is_hex (ch / 16)) as [Ha Va]; [dlia|]. destruct (hex_is_hex (ch mod 16)) as [Hb Vb]; [dlia|].
      assert (hex_value [48; 48; Json.hex (ch / 16); Json.hex (ch mod 16)] = ch) as Hv.
      { unfold hex_value. cbn [foldl]. change (hex_digit 48) with 0. rewrite Va, Vb. dlia. }
      apply written_codepoint; [|rewrite Hv..|done].
      * cbn [forallb]. by rewrite Ha, Hb.
      * unfold whole_codepoint. lia.
      * apply encode_ascii. lia.
    + cbn [Json.dump_chars]. rewrite !(proj2 (Z.eqb_neq ch _)) by done. by rewrite (proj2 (Z.leb_le ch 31)) by done.
  - assert (written [ch] [ch]) by (by apply written_plain).
    destruct s as [|b [|c s]].
    1,2: apply (Hone [ch]); [done|]; cbn [Json.dump_chars]; rewrite !(proj2 (Z.eqb_neq ch _)), (proj2 (Z.leb_gt ch 31)) by done; done.
    destruct (decide (ch = 226 ∧ b = 128 ∧ c = 168)) as [(-> & -> & ->)|N1];
      [by eexists [226; 128; 168], (lit "\u2028"), s; split_and!; [..|by apply written_codepoint|]|].
    destruct (decide (ch = 226 ∧ b = 128 ∧ c = 169)) as [(-> & -> & ->)|N2];
      [by eexists [226; 128; 169], (lit "\u2029"), s; split_and!; [..|by apply written_codepoint|]|].
    apply (Hone [ch]); [done|]. cbn [Json.dump_chars].
    rewrite !(proj2 (Z.eqb_neq ch 92)), !(proj2 (Z.eqb_neq ch 34)), !(proj2 (Z.eqb_neq ch 8)), !(proj2 (Z.eqb_neq ch 12)),
      !(proj2 (Z.eqb_neq ch 10)), !(proj2 (Z.eqb_neq ch 13)), !(proj2 (Z.eqb_neq ch 9)), (proj2 (Z.leb_gt ch 31)) by done.
    destruct (Z.eqb_spec ch 226) as [->|]; [|done]. destruct (Z.eqb_spec b 128) as [->|]; [|done].
    destruct (Z.eqb_spec c 168) as [->|]; [naive_solver|]. destruct (Z.eqb_spec c 169) as [->|]; [naive_solver|done].
Qed.

Lemma chars_written x w n out last r pre :
  written x w → str = pre ++ w ++ r → whole_codepoint last →
  ∃ out' last', whole_codepoint last' ∧ out' ++ encode_utf8 last' = out ++ encode_utf8 last ++ x ∧
    parse_chars str (S n) out last (pos pre) = parse_chars str n out' last' (pos (pre ++ w)).
Proof.
  intros Hw Hs Hl. destruct Hw as [ch ? ? ?|e c ? ?|x a b c d ? ? Hx _].
  - exists (out ++ encode_utf8 last ++ [ch]), (-1). split_and!; [done|by rewrite app_nil_r|]. by apply (chars_plain _ _ _ _ r).
  - exists (out ++ encode_utf8 last ++ [c]), (-1). split_and!; [done|by rewrite app_nil_r|]. by apply (chars_escape _ _ _ _ _ r).
  - exists (out ++ encode_utf8 last), (hex_value [a; b; c; d]). split_and!; [done|by rewrite Hx, app_assoc|]. by apply (chars_codepoint _ _ _ _ _ _ _ r).
Qed.

Lemma chars_run s n out last r pre :
  wf_bytes s → str = pre ++ Json.dump_chars s ++ 34 :: r → whole_codepoint last → (length s < n)%nat →
  parse_chars str n out last (pos pre) = Ret (out ++ encode_utf8 last ++ s) (pos (pre ++ Json.dump_chars s ++ [34])).
Proof.
  revert n out last pre. induction s as [s IH] using (induction_ltof1 _ (@length Z)). unfold ltof in IH. intros n out last pre Hw Hs Hl Hn.
  destruct n as [|n]; [lia|]. destruct s as [|ch s].
  - cbn [Json.dump_chars app] in *. cbn [parse_chars]. eapply bind_run; [done|]. cbn [i pos].
    rewrite (size_app pre _ Hs), zlen_cons. pose proof (zlen_nonneg r). rewrite (proj2 (Z.eqb_neq _ _)) by lia.
    apply (here_then _ _ _ _ Hs). cbn [hd]. apply (move_then 34). by rewrite app_nil_r.
  - destruct (dump_step ch s) as (x & w & s' & Hx & Hd & Hwr & Hne); [by apply Forall_cons_1 in Hw as [? _]|].
    rewrite Hd in Hs |- *. rewrite Hx in Hw, Hn |- *. apply Forall_app in Hw as [_ Hw].
    rewrite length_app in Hn. assert (0 < length x)%nat by (destruct x; [done|simpl; lia]).
    rewrite <- app_assoc in Hs.
    destruct (chars_written x w n out last _ pre Hwr Hs Hl) as (out' & last' & Hl' & Ho & ->).
    rewrite (IH s'); [|rewrite Hx, length_app; lia|done|by rewrite <- app_assoc|done|lia].
    rewrite !app_assoc, Ho, <- !app_assoc. done.
Qed.

Lemma string_run s r pre :
  wf_bytes s → str = pre ++ Json.dump_chars s ++ 34 :: r → (length s < S (length str))%nat →
  parse_string str (pos pre) = Ret s (pos (pre ++ Json.dump_chars s ++ [34])).
Proof. intros. unfold parse_string. by rewrite (chars_run s _ _ _ r). Qed.

Lemma dump_chars_length s : wf_bytes s → (length s ≤ length (Json.dump_chars s))%nat.
Proof.
  induction s as [s IH] using (induction_ltof1 _ (@length Z)). unfold ltof in IH. intros Hw. destruct s as [|ch s]; [simpl; lia|].
  destruct (dump_step ch s) as (x & w & s' & Hx & -> & Hwr & Hne); [by apply Forall_cons_1 in Hw as [? _]|].
  rewrite Hx in Hw |- *. apply Forall_app in Hw as [_ Hw].
  assert (0 < length x)%nat by (destruct x; [done|simpl; lia]).
  assert (length x ≤ length w)%nat.
  { destruct Hwr as [| |x a b c d _ _ <- _]; simpl; [lia..|]. unfold encode_utf8. repeat case_match; simpl; lia. }
  rewrite !length_app. specialize (IH s'). rewrite Hx, length_app in IH. specialize (IH ltac:(lia) Hw). lia.
Qed.

(** *** Numbers *)

(** What may follow the text of a value. *)
Definition stops (r : bytes) : Prop :=
  Decimal.is_digit (hd 0 r) = false ∧ hd 0 r ≠ 46 ∧ hd 0 r ≠ 101 ∧ hd 0 r ≠ 69.

(** The text of an integer, and what the two conversions make of it. *)
Lemma signed_text z r :
  is_s32 z → stops r →
  ∃ sg c ds, Decimal.signed z = sg ++ c :: ds ∧ (sg = [] ∨ sg = [45]) ∧ Forall (λ c, Decimal.is_digit c = true) (c :: ds) ∧
    ((c = 48 ∧ ds = []) ∨ 49 ≤ c ≤ 57) ∧ (zlen (sg ++ c :: ds) ≤ 9 ↔ -100000000 < z < 1000000000) ∧
    Decimal.atoi (Decimal.signed z ++ r) = z ∧ (z ≠ 0 → Decimal.extract (Decimal.signed z ++ r) = D.of_Z z).
Proof.
  intros Hz (Hr & H46 & H101 & H69).
  destruct (unsigned_spec (Z.abs z) ltac:(lia)) as (c & ds & Hu & Hd & Hfirst & Hv & Hlen).
  pose proof (proj1 (digit_range c) (Forall_inv Hd)) as Hc.
  assert (∀ k, 0 ≤ k → zlen (c :: ds) ≤ k + 1 ↔ Z.abs z < 10 ^ (k + 1)) as Hdigits.
  { intros k Hk. split; [|intros; apply Hlen; [done|lia]]. intros Hl.
    pose proof (value_bound (c :: ds) 0 Hd ltac:(lia)) as Hb. fold (Decimal.value (c :: ds)) in Hb. rewrite Hv in Hb.
    assert (10 ^ Z.of_nat (length (c :: ds)) ≤ 10 ^ (k + 1)) by (apply Z.pow_le_mono_r; unfold zlen in Hl; lia). lia. }
  assert (Hspan : Decimal.span ((c :: ds) ++ r) = (c :: ds, r)) by (by apply span_app).
  assert (Hnear : z ≠ 0 → Decimal.nearest (z <? 0) (Decimal.value (c :: ds)) 0 = D.of_Z z).
  { intros Hz0. rewrite Hv. unfold Decimal.nearest. destruct z as [|p|p]; [done|change (Z.abs (Z.pos p)) with (Z.pos p)|change (Z.abs (Z.neg p)) with (Z.pos p)];
      cbn [Z.ltb Z.compare]; cbv iota beta.
    - replace (Z.pos p * 10 ^ 0) with (Z.pos p) by lia. destruct (of_pos_exact false p) as (d & m & E & _); [lia|].
      unfold D.of_Z, binary_normalize. by rewrite E.
    - replace (Z.neg p * 10 ^ 0) with (Z.neg p) by lia. destruct (of_pos_exact true p) as (d & m & E & _); [lia|].
      unfold D.of_Z, binary_normalize. by rewrite E. }
  assert (Hext : ∀ s sg', Decimal.sign (Decimal.skip_space s) = (sg', (c :: ds) ++ r) →
    Decimal.extract s = Decimal.nearest sg' (Decimal.value (c :: ds)) 0).
  { intros s sg' E. unfold Decimal.extract. rewrite E, Hspan.
    assert ((match r with c :: s' => if c =? 46 then Decimal.span s' else ([], r) | [] => ([], r) end) = ([], r)) as ->.
    { destruct r as [|a r]; [done|]. simpl in H46. by rewrite (proj2 (Z.eqb_neq _ _) H46). }
    rewrite app_nil_r. change (- Z.of_nat (length [])) with 0. destruct r as [|a r]; [done|]. simpl in H101, H69.
    by rewrite (proj2 (Z.eqb_neq _ _) H101), (proj2 (Z.eqb_neq _ _) H69). }
  assert (Hatoi : ∀ s sg', Decimal.sign (Decimal.skip_space s) = (sg', (c :: ds) ++ r) →
    Decimal.atoi s = if sg' : bool then - Z.abs z else Z.abs z).
  { intros s sg' E. unfold Decimal.atoi. rewrite E, Hspan. cbn [fst]. by rewrite Hv. }
  unfold Decimal.signed. destruct (Z.ltb_spec z 0) as [Hneg|Hpos].
  - replace (- z) with (Z.abs z) by lia. rewrite Hu. exists [45], c, ds. split_and!; [done|by right|done|by lia| | |].
    + rewrite zlen_app. change (zlen [45]) with 1.
      pose proof (Hdigits 7 ltac:(lia)) as H7. change (10 ^ (7 + 1)) with 100000000 in H7. lia.
    + rewrite (Hatoi _ true) by done. lia.
    + intros. rewrite (Hext _ true) by done. auto.
  - assert (Decimal.unsigned z = c :: ds) as -> by (rewrite <- Hu; f_equal; lia). exists [], c, ds.
    assert (Decimal.sign (Decimal.skip_space ((c :: ds) ++ r)) = (false, (c :: ds) ++ r)) as Hsg.
    { cbn [app Decimal.skip_space]. unfold Decimal.is_space. rewrite (proj2 (Z.eqb_neq c 32)), (proj2 (Z.leb_gt c 13)), andb_false_r by lia.
      cbn [orb]. unfold Decimal.sign. by rewrite (proj2 (Z.eqb_neq c 45)), (proj2 (Z.eqb_neq c 43)) by lia. }
    split_and!; [done|by left|done|by destruct Hfirst as [(_ & ? & ?)|?]; auto| | |].
    + cbn [app]. pose proof (Hdigits 8 ltac:(lia)) as H8. change (10 ^ (8 + 1)) with 1000000000 in H8. lia.
    + rewrite (Hatoi _ false) by done. lia.
    + intros. rewrite (Hext _ false) by done. auto.
Qed.

Lemma drop_pos pre l : str = pre ++ l → drop (Z.to_nat (zlen pre)) str = l.
Proof. intros ->. unfold zlen. by rewrite Nat2Z.id, drop_app_length. Qed.

(** Behind the digits. *)
Lemma fraction_run z pre r :
  is_s32 z → str = pre ++ Decimal.signed z ++ r → stops r →
  parse_fraction str (zlen pre) (pos (pre ++ Decimal.signed z)) = Ret (norm (JsonInt z)) (pos (pre ++ Decimal.signed z)).
Proof.
  intros Hz Hs Hr. pose proof Hr as (_ & H46 & H101 & H69).
  destruct (signed_text z r Hz Hr) as (sg & c & ds & Ht & _ & _ & _ & Hlen & Ha & He).
  assert (str = (pre ++ Decimal.signed z) ++ r) as Hs' by (by rewrite <- app_assoc).
  unfold parse_fraction. apply (here_then _ _ _ _ Hs'). eapply bind_run; [done|]. cbn [i pos].
  rewrite zlen_app. replace (zlen pre + zlen (Decimal.signed z) - zlen pre) with (zlen (Decimal.signed z)) by lia.
  unfold is_exponent at 1. rewrite (proj2 (Z.eqb_neq _ _) H46), (proj2 (Z.eqb_neq _ _) H101), (proj2 (Z.eqb_neq _ _) H69).
  rewrite (drop_pos _ _ Hs), Ha. rewrite <- Ht in Hlen. cbn [negb andb orb]. cbn [norm].
  destruct (Z.leb_spec (zlen (Decimal.signed z)) 9) as [Hle|Hgt].
  - apply Hlen in Hle. rewrite (proj2 (Z.ltb_lt _ _)), (proj2 (Z.ltb_lt _ _)) by lia. done.
  - assert ((-100000000 <? z) && (z <? 1000000000) = false) as ->.
    { apply not_true_is_false. rewrite andb_true_iff, !Z.ltb_lt. intros ?%Hlen. lia. }
    unfold parse_exponent. apply (here_then _ _ _ _ Hs'). unfold is_exponent.
    rewrite (proj2 (Z.eqb_neq _ _) H101), (proj2 (Z.eqb_neq _ _) H69). cbn [orb].
    rewrite (drop_pos _ _ Hs), He; [done|]. intros ->. assert (Decimal.signed 0 = [48]) as E by done. rewrite E in Hgt. done.
Qed.

Lemma number_run z pre r :
  is_s32 z → str = pre ++ Decimal.signed z ++ r → stops r →
  parse_number str (pos pre) = Ret (norm (JsonInt z)) (pos (pre ++ Decimal.signed z)).
Proof.
  intros Hz Hs Hr. pose proof (fraction_run z pre r Hz Hs Hr) as Hend. pose proof Hr as (Hd & _).
  destruct (signed_text z r Hz Hr) as (sg & c & ds & Ht & Hsg & Hds & Hfirst & _).
  rewrite Ht in Hs, Hend |- *. pose proof (proj1 (digit_range c) (Forall_inv Hds)).
  unfold parse_number. eapply bind_run; [done|]. cbn [i pos]. apply (here_then _ _ _ _ Hs).
  eapply (bind_run _ _ _ tt (pos (pre ++ sg))).
  { destruct Hsg as [-> | ->]; cbn [app hd].
    - rewrite (proj2 (Z.eqb_neq c 45)) by lia. by rewrite app_nil_r.
    - apply (reads_move [45]). done. }
  assert (str = (pre ++ sg) ++ (c :: ds) ++ r) as Hs1 by (by rewrite Hs, <- !app_assoc).
  apply (here_then _ _ _ _ Hs1). cbn [app hd]. destruct Hfirst as [[-> ->]|Hc].
  - cbn [Z.eqb Pos.eqb]. apply (move_then 48). assert (str = ((pre ++ sg) ++ [48]) ++ r) as Hs2 by (by rewrite Hs1, <- !app_assoc).
    apply (here_then _ _ _ _ Hs2). unfold Decimal.is_digit in Hd. unfold in_range. rewrite Hd. by rewrite <- app_assoc.
  - rewrite (proj2 (Z.eqb_neq c 48)) by lia. unfold in_range at 1. rewrite (proj2 (Z.leb_le 49 c)), (proj2 (Z.leb_le c 57)) by lia.
    cbn [andb]. apply (move_then c). unfold skip_digits.
    eapply bind_run; [apply (skip_all_run _ ds r); [by rewrite Hs1, <- !app_assoc|by apply Forall_inv_tail in Hds|done]|].
    by rewrite <- !app_assoc.
Qed.

(** *** Values *)

Lemma expect_run word c rest res r pre :
  word = c :: rest → str = pre ++ word ++ r → expect str word res (pos (pre ++ [c])) = Ret res (pos (pre ++ word)).
Proof.
  intros Hw Hs. unfold expect. eapply bind_run; [done|]. cbn [i pos].
  eapply (bind_run _ _ _ tt (pos (pre ++ [c]))).
  { rewrite zlen_app. change (zlen [c]) with 1. pose proof (zlen_nonneg pre). by rewrite (proj2 (Z.eqb_neq _ 0)) by lia. }
  eapply bind_run; [apply move_back|].
  eapply (bind_run _ _ _ word (pos pre)).
  { unfold substr. eapply bind_run; [done|]. cbn [i pos]. rewrite (size_app _ _ Hs). pose proof (zlen_nonneg (word ++ r)).
    rewrite (proj2 (Z.ltb_ge _ _)) by lia. by rewrite (drop_pos _ _ Hs), take_app_length. }
  rewrite bool_decide_true by done. eapply bind_run; [by apply (reads_move word)|done].
Qed.

(** The first character of a text is a token. *)
Lemma dump_head n j : printable n j → ∃ c l, Json.dump j = c :: l ∧ visible c ∧ c ≠ 93.
Proof.
  destruct j as [|d|z|b|s|l|m]; cbn [Json.dump]; intros Hp.
  - by eexists _, _.
  - by destruct n.
  - assert (is_s32 z) as Hz by (by destruct n). assert (stops [44]) by done.
    destruct (signed_text z [44] Hz) as (sg & c & ds & -> & [-> | ->] & Hds & _); [done| |].
    + pose proof (proj1 (digit_range c) (Forall_inv Hds)). exists c, ds. split; [done|]. unfold visible, is_white.
      rewrite (proj2 (Z.eqb_neq c 32)), (proj2 (Z.eqb_neq c 13)), (proj2 (Z.eqb_neq c 10)), (proj2 (Z.eqb_neq c 9)) by lia.
      split; [split; [done|lia]|lia].
    + by eexists _, _.
  - destruct b; by eexists _, _.
  - by eexists _, _.
  - by eexists _, _.
  - by eexists _, _.
Qed.

Lemma unless_failed_run (k : M t json) pre R : k (pos pre) = R → unless_failed k (pos pre) = R.
Proof. done. Qed.

(** What the parser of the values inside does on the texts of [P]. *)
Definition reads_back (value : M t json) (P : json → Prop) : Prop :=
  ∀ j ws pre r, P j → Forall (λ c, is_white c = true) ws → str = pre ++ ws ++ Json.dump j ++ r → stops r →
    value (pos pre) = Ret (norm j) (pos (pre ++ ws ++ Json.dump j)).

Lemma stops_char c r : Decimal.is_digit c = false → c ≠ 46 → c ≠ 101 → c ≠ 69 → stops (c :: r).
Proof. done. Qed.

Lemma str_length pre l : str = pre ++ l → (length pre + length l ≤ length str)%nat.
Proof. intros ->. rewrite length_app. lia. Qed.

Lemma key_run s pre r :
  wf_bytes s → str = pre ++ Json.dump_string s ++ r →
  parse_string str (pos (pre ++ [34])) = Ret s (pos (pre ++ Json.dump_string s)).
Proof.
  intros Hw Hs. unfold Json.dump_string, quote in *.
  assert (str = (pre ++ [34]) ++ Json.dump_chars s ++ 34 :: r) as Hs' by (by rewrite Hs, <- !app_assoc).
  pose proof (dump_chars_length s Hw) as Hlen. pose proof (str_length _ _ Hs') as Hl. rewrite !length_app in Hl.
  rewrite (string_run s r) by (done || lia). by rewrite <- !app_assoc.
Qed.

Definition more (l : list bytes) : bytes := concat ((λ y, lit ", " ++ y) <$> l).

Lemma more_length l : (length l ≤ length (more l))%nat.
Proof. induction l as [|x l IH]; [done|]. change (more (x :: l)) with ([44; 32] ++ x ++ more l). rewrite !length_app. simpl. lia. Qed.

Section inside_values.
Context (value : M t json) (P : json → Prop) (Hvalue : reads_back value P).
Context (Hhead : ∀ j, P j → ∃ c l, Json.dump j = c :: l ∧ visible c ∧ c ≠ 93).

Lemma elements_run l x data pre r k c rest :
  Forall P (x :: l) → Json.dump x = c :: rest → str = pre ++ Json.dump x ++ more (Json.dump <$> l) ++ 93 :: r →
  (length l < k)%nat →
  elements str strat value k data (pos (pre ++ [c])) =
  Ret (JsonArray (data ++ (norm <$> x :: l))) (pos (pre ++ Json.dump x ++ more (Json.dump <$> l) ++ [93])).
Proof.
  revert x data pre k c rest. induction l as [|y l IH]; intros x data pre k c rest HP Hc Hs Hk; (destruct k as [|k]; [lia|]); cbn [elements].
  - eapply bind_run; [apply move_back|]. eapply bind_run.
    { apply (Hvalue x [] pre (93 :: r)); [by apply Forall_inv in HP|constructor|done|by apply stops_char]. }
    apply unless_failed_run. eapply (token_then 93 _ [] r); [by rewrite Hs, <- !app_assoc|constructor|done|].
    cbn [Z.eqb Pos.eqb app]. by rewrite <- !app_assoc.
  - apply Forall_cons_1 in HP as [Hx HP]. destruct (Hhead y) as (c' & rest' & Hy & Hv & _); [by apply Forall_inv in HP|].
    change (more (Json.dump <$> y :: l)) with ([44; 32] ++ Json.dump y ++ more (Json.dump <$> l)) in Hs |- *.
    assert (str = (pre ++ Json.dump x ++ [44; 32]) ++ Json.dump y ++ more (Json.dump <$> l) ++ 93 :: r) as Hs'
      by (by rewrite Hs, <- !app_assoc).
    eapply bind_run; [apply move_back|]. eapply bind_run.
    { apply (Hvalue x [] pre ([44; 32] ++ Json.dump y ++ more (Json.dump <$> l) ++ 93 :: r)); [done|constructor|by rewrite Hs, <- !app_assoc|by apply stops_char]. }
    apply unless_failed_run.
    eapply (token_then 44 _ [] (32 :: Json.dump y ++ more (Json.dump <$> l) ++ 93 :: r)); [by rewrite Hs, <- !app_assoc|constructor|done|].
    cbn [Z.eqb Pos.eqb app negb].
    eapply (token_then c' _ [32] (rest' ++ more (Json.dump <$> l) ++ 93 :: r)); [by rewrite Hs, Hy, <- !app_assoc|by repeat constructor|done|].
    assert ((((pre ++ Json.dump x) ++ [44]) ++ [32] ++ [c']) = (pre ++ Json.dump x ++ [44; 32]) ++ [c']) as -> by (by rewrite <- !app_assoc).
    rewrite (IH y (data ++ [norm x]) _ _ c' rest' HP Hy Hs') by (simpl in Hk; lia).
    rewrite <- !app_assoc. done.
Qed.

Definition member (kv : bytes * json) : bytes := Json.dump_string kv.1 ++ lit ": " ++ Json.dump kv.2.
Definition norm_member (kv : bytes * json) : bytes * json := (kv.1, norm kv.2).

Lemma insert_last (k : bytes) (v : json) m : (∀ kv, kv ∈ m → Object.ltb kv.1 k = true) → Object.insert k v m = m ++ [(k, v)].
Proof.
  induction m as [|[k' v'] m IH]; [done|]. intros Hm. simpl.
  pose proof (Hm (k', v') ltac:(left)) as H. simpl in H.
  destruct (Object.ltb k k') eqn:E; [pose proof (ltb_trans _ _ _ E H) as E2; by rewrite ltb_irrefl in E2|].
  rewrite H, IH; [done|]. intros kv ?. apply Hm. by right.
Qed.

Lemma insert_next m0 kv m : ordered (m0 ++ kv :: m) → Object.insert kv.1 (norm kv.2) (norm_member <$> m0) = norm_member <$> (m0 ++ [kv]).
Proof.
  intros Ho. rewrite fmap_app. apply insert_last. intros kv' (kv0 & -> & Hin)%list_elem_of_fmap. cbn.
  induction m0 as [|[k0 v0] m0 IH]; [by apply not_elem_of_nil in Hin|].
  change (((k0, v0) :: m0) ++ kv :: m) with ((k0, v0) :: (m0 ++ kv :: m)) in Ho. apply ordered_cons in Ho as [H Ho].
  apply elem_of_cons in Hin as [->|Hin]; [|by auto]. cbn. apply (H kv). apply elem_of_app. right. left.
Qed.

(** A member, up to what follows it. *)
Lemma member_run kv after k data pre :
  wf_bytes kv.1 → P kv.2 → stops after → str = pre ++ member kv ++ after →
  members str strat value (S k) 34 data (pos (pre ++ [34])) =
  (ch ← get_next_token str strat;
   let data := Object.insert kv.1 (norm kv.2) data in
   if ch =? 125 then mret (JsonObject data)
   else if negb (ch =? 44) then fail (lit "expected ',' in object, got " ++ esc ch) JsonNull
   else ch ← get_next_token str strat; members str strat value k ch data) (pos (pre ++ member kv)).
Proof.
  intros Hkey Hv Hafter Hs. cbn [members]. change (negb (34 =? quote)) with false. cbv iota.
  unfold member in Hs |- *. rewrite <- !app_assoc in Hs.
  eapply bind_run; [by eapply key_run|]. apply unless_failed_run.
  eapply (token_then 58 _ [] (32 :: Json.dump kv.2 ++ after)); [by rewrite Hs, <- !app_assoc|constructor|done|].
  cbn [Z.eqb Pos.eqb negb app].
  eapply bind_run.
  { apply (Hvalue kv.2 [32] _ after); [done|by repeat constructor| |done]. by rewrite Hs, <- !app_assoc. }
  apply unless_failed_run. by rewrite <- !app_assoc.
Qed.

Lemma members_run m kv m0 pre r k :
  Forall (λ kv, wf_bytes kv.1 ∧ P kv.2) (kv :: m) → ordered (m0 ++ kv :: m) →
  str = pre ++ member kv ++ more (member <$> m) ++ 125 :: r → (length m < k)%nat →
  members str strat value k 34 (norm_member <$> m0) (pos (pre ++ [34])) =
  Ret (JsonObject (norm_member <$> (m0 ++ kv :: m))) (pos (pre ++ member kv ++ more (member <$> m) ++ [125])).
Proof.
  revert kv m0 pre k. induction m as [|kv' m IH]; intros kv m0 pre k HP Ho Hs Hk; (destruct k as [|k]; [lia|]);
    apply Forall_cons_1 in HP as [[Hkey Hv] HP].
  - rewrite (member_run kv (125 :: r)) by done.
    eapply (token_then 125 _ [] r); [by rewrite Hs, <- !app_assoc|constructor|done|].
    cbn [Z.eqb Pos.eqb]. rewrite (insert_next _ _ _ Ho). cbn [app more fmap list_fmap concat]. by rewrite <- !app_assoc.
  - change (more (member <$> kv' :: m)) with ([44; 32] ++ member kv' ++ more (member <$> m)) in Hs |- *.
    rewrite (member_run kv ([44; 32] ++ member kv' ++ more (member <$> m) ++ 125 :: r)) by (done || by rewrite Hs, <- !app_assoc).
    eapply (token_then 44 _ [] (32 :: member kv' ++ more (member <$> m) ++ 125 :: r)); [by rewrite Hs, <- !app_assoc|constructor|done|].
    cbn [Z.eqb Pos.eqb negb app].
    eapply (token_then 34 _ [32]); [by rewrite Hs; unfold member at 2, Json.dump_string; rewrite <- !app_assoc|by repeat constructor|done|].
    rewrite (insert_next _ _ _ Ho).
    replace ((((pre ++ member kv) ++ [44]) ++ [32] ++ [34])) with ((pre ++ member kv ++ [44; 32]) ++ [34]) by (by rewrite <- !app_assoc).
    rewrite (IH kv' (m0 ++ [kv]) (pre ++ member kv ++ [44; 32])); [|done|by rewrite <- app_assoc|by rewrite Hs, <- !app_assoc|simpl in Hk; lia].
    rewrite <- !app_assoc. done.
Qed.
End inside_values.

(** The items of a text are fewer than its characters. *)
Lemma items_fit pre x l c r : str = pre ++ x ++ more l ++ c :: r → (length l < S (length str))%nat.
Proof. intros Hs%str_length. rewrite !length_app in Hs. pose proof (more_length l). lia. Qed.

Lemma visible_token c l ws pre r {A} (f : Z → M t A) R :
  str = pre ++ ws ++ (c :: l) ++ r → Forall (λ c, is_white c = true) ws → visible c →
  f c (pos ((pre ++ ws) ++ [c])) = R → (get_next_token str strat ≫= f) (pos pre) = R.
Proof. intros Hs Hws Hc Hf. eapply (token_then c _ ws (l ++ r)); [done..|]. by rewrite app_assoc. Qed.

Lemma value_run value n j pre r c rest :
  (∀ n', n = S n' → reads_back value (printable n')) → printable n j → Json.dump j = c :: rest → str = pre ++ Json.dump j ++ r → stops r →
  parse_value str strat value c (pos (pre ++ [c])) = Ret (norm j) (pos (pre ++ Json.dump j)).
Proof.
  intros Hvalue Hp Hc Hs Hr. destruct j as [|d|z|b|s|l|m]; [|by destruct n|..].
  - injection Hc as <- _. by apply (expect_run _ 110 (lit "ull") _ r).
  - assert (is_s32 z) as Hz by (by destruct n). change (Json.dump (JsonInt z)) with (Decimal.signed z) in *.
    destruct (signed_text z r Hz Hr) as (sg & d & ds & Ht & Hsg & Hds & _). pose proof (proj1 (digit_range d) (Forall_inv Hds)).
    unfold parse_value. assert ((c =? 45) || in_range c 48 57 = true) as ->.
    { rewrite Hc in Ht. destruct Hsg as [-> | ->]; injection Ht as -> _; [|done]. apply orb_true_iff. right. by apply digit_range. }
    eapply bind_run; [apply move_back|]. by apply (number_run z pre r).
  - destruct b; injection Hc as <- _.
    + by apply (expect_run _ 116 (lit "rue") _ r).
    + by apply (expect_run _ 102 (lit "alse") _ r).
  - injection Hc as <- _. unfold parse_value. cbn [Z.eqb Pos.eqb in_range Z.leb Z.compare Pos.compare Pos.compare_cont andb orb quote].
    eapply bind_run; [apply (key_run s pre r); [by destruct n|done]|done].
  - destruct n as [|n]; [done|]. specialize (Hvalue n eq_refl). pose proof (dump_head n) as Hhead.
    injection Hc as <- _. change (printable (S n) (JsonArray l)) with (Forall (printable n) l) in Hp.
    unfold parse_value. cbn [Z.eqb Pos.eqb in_range Z.leb Z.compare Pos.compare Pos.compare_cont andb orb quote].
    destruct l as [|x l].
    + eapply (token_then 93 _ [] r); [by rewrite Hs, <- !app_assoc|constructor|done|].
      cbn [Z.eqb Pos.eqb]. by rewrite <- app_assoc.
    + change (Json.dump (JsonArray (x :: l))) with ([91] ++ (Json.dump x ++ more (Json.dump <$> l)) ++ [93]) in *.
      destruct (Hhead x) as (c' & rest' & Hx & Hv & H93); [by apply Forall_inv in Hp|].
      assert (str = (pre ++ [91]) ++ Json.dump x ++ more (Json.dump <$> l) ++ 93 :: r) as Hs' by (by rewrite Hs, <- !app_assoc).
      eapply (token_then c' _ [] (rest' ++ more (Json.dump <$> l) ++ 93 :: r)); [by rewrite Hs', Hx|constructor|done|].
      rewrite (proj2 (Z.eqb_neq c' 93)) by done. cbn [app].
      rewrite (elements_run value (printable n) Hvalue Hhead l x [] (pre ++ [91]) r _ c' rest'); [|done|done|done|].
      * rewrite <- !app_assoc. done.
      * pose proof (items_fit _ _ _ _ _ Hs') as Hf. by rewrite length_fmap in Hf.
  - destruct n as [|n]; [done|]. specialize (Hvalue n eq_refl). pose proof (dump_head n) as Hhead.
    injection Hc as <- _. change (printable (S n) (JsonObject m)) with (ordered m ∧ Forall (λ kv, wf_bytes kv.1 ∧ printable n kv.2) m) in Hp.
    destruct Hp as [Ho Hp]. unfold parse_value. cbn [Z.eqb Pos.eqb in_range Z.leb Z.compare Pos.compare Pos.compare_cont andb orb quote].
    destruct m as [|kv m].
    + eapply (token_then 125 _ [] r); [by rewrite Hs, <- !app_assoc|constructor|done|].
      cbn [Z.eqb Pos.eqb]. by rewrite <- app_assoc.
    + change (Json.dump (JsonObject (kv :: m))) with ([123] ++ (member kv ++ more (member <$> m)) ++ [125]) in *.
      assert (str = (pre ++ [123]) ++ member kv ++ more (member <$> m) ++ 125 :: r) as Hs' by (by rewrite Hs, <- !app_assoc).
      eapply (token_then 34 _ []); [by rewrite Hs'; unfold member at 1, Json.dump_string; rewrite <- !app_assoc|constructor|done|].
      cbn [Z.eqb Pos.eqb app].
      rewrite (members_run value (printable n) Hvalue m kv [] (pre ++ [123]) r); [|done|done|done|].
      * rewrite <- !app_assoc. done.
      * pose proof (items_fit _ _ _ _ _ Hs') as Hf. by rewrite length_fmap in Hf.
Qed.

Lemma json_run n k depth :
  0 ≤ depth → depth + Z.of_nat n ≤ max_depth → (n < k)%nat → reads_back (parse_json str strat k depth) (printable n).
Proof.
  revert k depth. induction n as [|n IH]; intros k depth H0 Hd Hk; (destruct k as [|k]; [lia|]); intros j ws pre r Hp Hws Hs Hr.
  all: cbn [parse_json]; rewrite (proj2 (Z.ltb_ge max_depth depth)) by lia.
  all: destruct (dump_head _ j Hp) as (c & rest & Hc & Hv & _).
  all: eapply (visible_token c rest ws); [by rewrite <- Hc|done|done|]; apply unless_failed_run; rewrite app_assoc.
  - eapply (value_run _ 0); [done|done|done|by rewrite Hs, <- app_assoc|done].
  - eapply (value_run _ (S n)); [|done|done|by rewrite Hs, <- app_assoc|done].
    intros n' E. injection E as <-. apply IH; lia.
Qed.
End text.

(** The text of a value is read as the value. *)
Lemma parse_dump j strat : printable 200 j → parse (Json.dump j) strat = Some (norm j, []).
Proof.
  intros Hp. unfold parse, parse_all.
  assert (parse_json (Json.dump j) strat levels 0 (pos []) = Ret (norm j) (pos (Json.dump j))) as Hrun.
  { apply (json_run (Json.dump j) strat 200 levels 0 ltac:(done) ltac:(done) ltac:(unfold levels; lia) j [] [] []);
      [done|constructor|by rewrite app_nil_r|done]. }
  change (mk 0 [] false) with (pos []). rewrite (bind_run _ _ _ _ _ _ Hrun eq_refl).
  assert (consume_garbage (Json.dump j) strat (pos (Json.dump j)) = Ret tt (pos (Json.dump j))) as Hg.
  { pose proof (garbage_run (Json.dump j) strat [] [] (Json.dump j)) as Hg. rewrite !app_nil_r in Hg. by apply Hg. }
  rewrite (bind_run _ _ _ _ _ _ Hg eq_refl).
  rewrite (bind_run get _ _ _ _ _ eq_refl eq_refl). cbn [failed pos i]. by rewrite Z.eqb_refl.
Qed.

(** The text of a value has no zero. *)
Section no_zero.
Abbreviation nonzero := (Forall (λ b : Z, b ≠ 0)).

Lemma written_nonzero x w : written x w → nonzero w.
Proof.
  intros [ch ? ? ?|e c ? He|y a b c d Hx _ _ _].
  - apply Forall_singleton. lia.
  - repeat constructor; [done|]. intros ->. discriminate.
  - assert (∀ h, is_hex h = true → h ≠ 0) as Hh by (by intros h Hh ->).
    cbn [forallb] in Hx. rewrite !andb_true_iff in Hx. destruct Hx as (? & ? & ? & ? & _). repeat constructor; auto.
Qed.

Lemma dump_chars_nonzero s : wf_bytes s → nonzero (Json.dump_chars s).
Proof.
  induction s as [s IH] using (induction_ltof1 _ (@length Z)). unfold ltof in IH. intros Hw. destruct s as [|ch s]; [constructor|].
  destruct (dump_step ch s) as (x & w & s' & Hx & -> & Hwr & Hne); [by apply Forall_cons_1 in Hw as [? _]|].
  rewrite Hx in Hw. apply Forall_app in Hw as [_ Hw]. apply Forall_app_2; [by eapply written_nonzero|].
  apply IH; [|done]. rewrite Hx, length_app. destruct x; [done|simpl; lia].
Qed.

Lemma dump_string_nonzero s : wf_bytes s → nonzero (Json.dump_string s).
Proof.
  intros Hs. unfold Json.dump_string. repeat apply Forall_app_2; [by repeat constructor|by apply dump_chars_nonzero|by repeat constructor].
Qed.

Lemma separated_nonzero l : Forall nonzero l → nonzero (Json.separated l).
Proof.
  intros Hl. destruct Hl as [|x l Hx Hl]; [constructor|]. simpl. apply Forall_app_2; [done|].
  induction Hl as [|y l Hy Hl IH]; [constructor|]. simpl. repeat constructor; [done|done|]. by apply Forall_app_2.
Qed.

Lemma dump_nonzero j n : printable n j → nonzero (Json.dump j).
Proof.
  revert n. induction j as [|d|z|b|s|l IH|m IH] using json_ind; intros n Hp; cbn [Json.dump].
  - by repeat constructor.
  - by destruct n.
  - assert (is_s32 z) as Hz by (by destruct n). destruct (signed_text z [44] Hz ltac:(done)) as (sg & c & ds & -> & Hsg & Hds & _).
    assert (nonzero (c :: ds)) as Hd by (eapply Forall_impl; [exact Hds|]; intros d ?%digit_range; lia).
    destruct Hsg as [-> | ->]; [done|]. by constructor.
  - destruct b; by repeat constructor.
  - apply dump_string_nonzero. by destruct n.
  - destruct n as [|n]; [done|]. change (Forall (printable n) l) in Hp.
    apply Forall_app_2; [by repeat constructor|]. apply Forall_app_2; [|by repeat constructor].
    apply separated_nonzero, Forall_fmap. rewrite Forall_forall in *. intros x Hx. eapply IH; eauto.
  - destruct n as [|n]; [done|]. destruct Hp as [_ Hp].
    apply Forall_app_2; [by repeat constructor|]. apply Forall_app_2; [|by repeat constructor].
    apply separated_nonzero, Forall_fmap. rewrite Forall_forall in *. intros x Hx. destruct (Hp x Hx) as [? Hv].
    apply Forall_app_2; [by apply dump_string_nonzero|]. apply Forall_app_2; [by repeat constructor|]. eapply IH; eauto.
Qed.
End no_zero.

(** C17. What is printed is read: the text of a value without doubles, of at
    most [max_depth] levels, is parsed without an error to the same value,
    in which an integer of more than nine characters has become the double
    with the same value, which casts back to it. *)
Theorem text_roundtrip (j : json) (strat : strategy) :
  printable (Z.to_nat max_depth) j →
  parse (Json.dump j) strat = Some (norm j, []) ∧
  (∀ z, j = JsonInt z → Json.int_value (norm j) = Some z ∧ Json.number_value (norm j) = D.of_Z z).
Proof.
  intros Hp. split; [by apply parse_dump|]. intros z ->. apply norm_number. exact Hp.
Qed.

Definition ex_value : json :=
  JsonArray [JsonInt 2147483647; JsonNull; JsonArray []; JsonString [0; 34; 92; 226; 128; 169; 255]; JsonObject [(lit "a", JsonBoolean true)]].

Lemma printable_scalar n j :
  match j with JsonInt z => is_s32 z | JsonString s => wf_bytes s | JsonNull | JsonBoolean _ => True | _ => False end → printable n j.
Proof. by destruct n, j. Qed.
Lemma printable_array n l : Forall (printable n) l → printable (S n) (JsonArray l).
Proof. done. Qed.
Lemma printable_object n m : ordered m → Forall (λ kv, wf_bytes kv.1 ∧ printable n kv.2) m → printable (S n) (JsonObject m).
Proof. done. Qed.
Lemma wf_lit l : forallb (λ b, (0 <=? b) && (b <? 256)) l = true → wf_bytes l.
Proof. intros H. apply Forall_forall. intros b Hb. eapply forallb_forall in H; [|by apply list_elem_of_In]. lia. Qed.

Lemma ex_value_printable : printable 200 ex_value.
Proof.
  apply printable_array. apply Forall_cons_2; [apply printable_scalar; lia|].
  apply Forall_cons_2; [by apply printable_scalar|].
  apply Forall_cons_2; [apply printable_array; constructor|].
  apply Forall_cons_2; [apply printable_scalar; by apply wf_lit|].
  apply Forall_cons_2; [|constructor].
  apply printable_object; [done|]. apply Forall_singleton. split; [by apply wf_lit|by apply printable_scalar].
Qed.

Lemma text_roundtrip_witness :
  parse (Json.dump ex_value) COMMENTS = Some (norm ex_value, []) ∧
  (∀ z, ex_value = JsonInt z → Json.int_value (norm ex_value) = Some z ∧ Json.number_value (norm ex_value) = D.of_Z z).
Proof. exact (text_roundtrip ex_value COMMENTS ex_value_printable). Defined.
