(* ===== verification/Config.v ===== *)
(** * libtgvoip/VoIPServerConfig.cpp, proxies and persistent state

    Module [ServerConfig]: the parameters of the server, an object of
    json11.  Module [Proxy]: the part of a call that [SetProxy],
    [SetPersistentState], [GetPersistentState] and [InitUDPProxy] of
    [VoIPController.cpp] keep, with the SOCKS5 client of [Socks] and the
    answers of [NetworkSocket::Select] as arguments.  What is read is what
    was written ([Json.dump], [parse]), and what the parser refuses leaves
    the defaults. *)

From Stdlib Require Import ZArith Lia SpecFloat Ascii String.
From stdpp Require Import base tactics numbers option strings list.
From S2P Require Import Prelude Words Double Buffers Streams Net Socks Json JsonSafety JsonText.
From stdpp Require Import list.
Open Scope list_scope.
Open Scope Z_scope.

Module ServerConfig.
Record t := mk { config : json }.
#[export] Instance eta_config : Eta t := λ s, mk (config s).
Definition ctor : t := mk JsonNull.

Definition ContainsKey (s : t) (key : bytes) : bool :=
  bool_decide (is_Some (Object.find key (Json.object_items (config s)))).

Definition GetBoolean (name : bytes) (fallback : bool) : M t bool :=
  s ← get;
  let v := Json.at_key (config s) name in
  if ContainsKey s name && Json.is_bool v then mret (Json.bool_value v) else mret fallback.
Definition GetDouble (name : bytes) (fallback : double) : M t double :=
  s ← get;
  let v := Json.at_key (config s) name in
  if ContainsKey s name && Json.is_number v then mret (Json.number_value v) else mret fallback.
(** The cast of a number that an [int] does not hold is undefined. *)
Definition GetInt (name : bytes) (fallback : Z) : M t Z :=
  s ← get;
  let v := Json.at_key (config s) name in
  if ContainsKey s name && Json.is_number v then
    match Json.int_value v with Some z => mret z | None => crash_with BadCast end
  else mret fallback.
Definition GetString (name fallback : bytes) : M t bytes :=
  s ← get;
  let v := Json.at_key (config s) name in
  if ContainsKey s name && Json.is_string v then mret (Json.string_value v) else mret fallback.

(** An error is logged; the value is null then. *)
Definition Update (text : bytes) : M t unit :=
  '(j, _) ← defined (parse text STANDARD);
  modify (λ s, s <| config := j |>).
End ServerConfig.

Module Proxy.
Inductive protocol := PROXY_NONE | PROXY_SOCKS5.
#[export] Instance protocol_eq_dec : EqDecision protocol.
Proof. solve_decision. Defined.

Record t := mk {
  proxyProtocol : protocol;
  proxyAddress : bytes;
  proxyPort : Z;
  proxyUsername : bytes;
  proxyPassword : bytes;
  lastTestedProxyServer : bytes;
  proxySupportsUDP : bool;
  proxySupportsTCP : bool;
  udpSocket : option Socks.t;     (** the proxy, [None] for [realUdpSocket] *)
  resets : nat                    (** history: calls of [ResetUdpAvailability] *)
}.
#[export] Instance eta_proxy : Eta t := λ s,
  mk (proxyProtocol s) (proxyAddress s) (proxyPort s) (proxyUsername s) (proxyPassword s) (lastTestedProxyServer s)
     (proxySupportsUDP s) (proxySupportsTCP s) (udpSocket s) (resets s).

Definition ctor : t := mk PROXY_NONE [] 0 [] [] [] true true None 0.

Definition SetProxy (protocol : protocol) (address : bytes) (port : Z) (username password : bytes) (s : t) : t :=
  s <| proxyProtocol := protocol |> <| proxyAddress := address |> <| proxyPort := port |>
    <| proxyUsername := username |> <| proxyPassword := password |>.

(** A C string: up to the first zero. *)
Definition c_str (l : bytes) : bytes := match find_index (λ b, b =? 0) l with Some n => take n l | None => l end.

(** [snprintf(buf, 128, "%s:%u", address, port)]. *)
Definition host_port (address : bytes) (port : Z) : bytes :=
  take 127 (c_str address ++ lit ":" ++ Decimal.unsigned port).

Definition SetPersistentState (state : bytes) : M t unit :=
  match state with
  | [] => mret tt
  | _ =>
      '(obj, err) ← defined (parse state STANDARD);
      if negb (bool_decide (err = [])) then mret tt
      else match Object.find (lit "proxy") (Json.object_items obj) with
           | None => mret tt
           | Some proxy =>
               modify (λ s, s <| lastTestedProxyServer := Json.string_value (Json.at_key proxy (lit "server")) |>
                              <| proxySupportsUDP := Json.bool_value (Json.at_key proxy (lit "udp")) |>
                              <| proxySupportsTCP := Json.bool_value (Json.at_key proxy (lit "tcp")) |>)
           end
  end.

(** The value that is saved. *)
Definition persistent (s : t) : json :=
  let obj := Object.entries [(lit "ver", JsonInt 1)] in
  JsonObject
    (if decide (proxyProtocol s = PROXY_SOCKS5) then
       Object.insert (lit "proxy")
         (JsonObject (Object.entries [(lit "server", JsonString (host_port (proxyAddress s) (proxyPort s)));
                                      (lit "udp", JsonBoolean (proxySupportsUDP s));
                                      (lit "tcp", JsonBoolean (proxySupportsTCP s))])) obj
     else obj).
Definition GetPersistentState (s : t) : bytes := c_str (Json.dump (persistent s)).

(** *** [InitUDPProxy] *)

(** The TCP connection after a call of [Select] that was not cancelled. *)
Inductive connecting := Pending | Ready | Failed.
(** What a call of [Select] in the second loop returned: nothing to read, or
    data; and has the connection failed? *)
Record readable := mkreadable { data : option bytes; tcpFailed : bool }.

Definition ResetUdpAvailability : M t unit := modify (λ s, s <| resets ::= S |>).

(** The first loop, from the state of the connection: [None] when it was
    cancelled or waits on. *)
Fixpoint connect (c : connecting) (l : list (option connecting)) : option bool :=
  match c with
  | Ready => Some true
  | Failed => Some false
  | Pending => match l with Some c' :: l' => connect c' l' | _ => None end
  end.

(** A call of the proxy socket. *)
Definition on_proxy {A} (m : M Socks.t A) (p : Socks.t) : M t Socks.t :=
  λ s, match m p with
       | Ret _ p' => Ret p' s
       | Throw e _ => Throw e s
       | Crash c => Crash c
       end.

Section with_resolver.
Context `{Resolver}.

(** The second loop: the proxy and whether the connection failed; [None]
    when it was cancelled or waits on. *)
Fixpoint negotiate (udpFailed : bool) (l : list (option readable)) (p : Socks.t) : M t (option (Socks.t * bool)) :=
  if Socks.IsFailed udpFailed p || Socks.readyToSend p then mret (Some (p, udpFailed))
  else match l with
       | Some r :: l' =>
           p' ← (match data r with
                 | None => mret p
                 | Some d => on_proxy (Socks.OnReadyToReceive d (tcpFailed r) true) p
                 end);
           negotiate (tcpFailed r) l' p'
       | None :: _ | [] => mret None
       end.

Definition InitUDPProxy (connection : connecting) (connects : list (option connecting)) (reads : list (option readable)) : M t unit :=
  modify (λ s, s <| udpSocket := None |>);;
  s ← get;
  if bool_decide (host_port (proxyAddress s) (proxyPort s) = lastTestedProxyServer s) && negb (proxySupportsUDP s)
  then ResetUdpAvailability
  else
    match connect connection connects with
    | None => mret tt
    | Some ok =>
        let p := Socks.ctor true (proxyUsername s) (proxyPassword s) 0 in
        p ← on_proxy (Socks.OnReadyToSend true) p;
        r ← negotiate (negb ok) reads p;
        match r with
        | None => mret tt
        | Some (p, failed) =>
            (if Socks.IsFailed failed p then modify (λ s, s <| proxySupportsUDP := false |>)
             else modify (λ s, s <| udpSocket := Some p |>));;
            ResetUdpAvailability
        end
    end.
End with_resolver.
End Proxy.

(* ------------------------------------------------------------------ *)
(** ** The configuration that was sent is the one that is read *)

Section configuration.
Import ServerConfig.

Lemma find_norm k (m : list (bytes * json)) : Object.find k ((λ kv, (kv.1, norm kv.2)) <$> m) = norm <$> Object.find k m.
Proof. induction m as [|[k' v] m IH]; [done|]. simpl. by case_bool_decide. Qed.

Lemma printable_find n m k v : printable (S n) (JsonObject m) → Object.find k m = Some v → printable n v.
Proof.
  intros [_ Hm]. induction Hm as [|[k' v'] m [_ Hv] Hm IH]; [done|]. simpl. case_bool_decide; [by intros [= <-]|done].
Qed.

Lemma Update_dump j s : printable 200 j → Update (Json.dump j) s = Ret tt (mk (norm j)).
Proof. intros Hp. unfold Update. rewrite parse_dump by done. done. Qed.

Lemma Update_error text s : zlen text < 2 ^ 64 → ∃ j e, parse text STANDARD = Some (j, e) ∧ Update text s = Ret tt (mk j) ∧ (e ≠ [] → j = JsonNull).
Proof.
  intros Hl. destruct (parse_ends text STANDARD Hl) as (j & e & E & H). exists j, e. split; [done|].
  unfold Update. rewrite E. split; [done|]. intros He. by destruct H as [[-> _]|[_ ->]].
Qed.

(** A configuration that was printed from an object and given to
    [Update] is what the accessors read: an integer, a flag and a string
    under their keys, the fallback for every other key and every value of
    another type; the casts of the integers are defined. *)
Theorem configuration_is_read (m : list (bytes * json)) (s : ServerConfig.t) :
  printable 200 (JsonObject m) →
  ∃ s', Update (Json.dump (JsonObject m)) s = Ret tt s' ∧
    ∀ k : bytes,
      (∀ d, GetInt k d s' = Ret (match Object.find k m with Some (JsonInt z) => z | _ => d end) s') ∧
      (∀ d, GetBoolean k d s' = Ret (match Object.find k m with Some (JsonBoolean b) => b | _ => d end) s') ∧
      (∀ d, GetString k d s' = Ret (match Object.find k m with Some (JsonString v) => v | _ => d end) s') ∧
      (∀ d, GetDouble k d s' = Ret (match Object.find k m with Some (JsonInt z) => D.of_Z z | _ => d end) s').
Proof.
  intros Hp. eexists. split; [by apply Update_dump|]. intros k.
  pose proof (printable_find 199 m k) as Hk.
  assert (Json.at_key (norm (JsonObject m)) k = default JsonNull (norm <$> Object.find k m)) as Hat
    by (unfold Json.at_key; cbn [norm Json.object_items]; by rewrite find_norm).
  unfold GetInt, GetBoolean, GetString, GetDouble, ContainsKey, mbind, M_bind, get. cbn [config].
  rewrite Hat. cbn [norm Json.object_items]. rewrite find_norm.
  destruct (Object.find k m) as [v|] eqn:E; [|by split_and!]. cbn [fmap option_fmap option_map default id].
  rewrite bool_decide_true by done. specialize (Hk v Hp eq_refl).
  destruct v as [|d|z|b|v|l|o]; try (by split_and!).
  destruct (norm_number z Hk) as [Hi Hn]. rewrite Hi, Hn.
  assert (Json.is_number (norm (JsonInt z)) = true ∧ Json.is_bool (norm (JsonInt z)) = false ∧ Json.is_string (norm (JsonInt z)) = false) as (-> & -> & ->)
    by (cbn [norm]; by destruct (_ && _)).
  by split_and!.
Qed.

Definition ex_config : list (bytes * json) :=
  [(lit "audio_init_bitrate", JsonInt 16000); (lit "audio_max_bitrate", JsonInt 2000000000);
   (lit "enable_vp8_encoder", JsonBoolean true); (lit "name", JsonString [226; 128; 168; 34; 0])].

Lemma ex_config_printable : printable 200 (JsonObject ex_config).
Proof.
  apply printable_object; [by vm_compute|]. unfold ex_config.
  repeat (apply Forall_cons_2; [split; [by apply wf_lit|cbn [snd printable]; first [done | lia | by apply wf_lit]]|]). constructor.
Qed.

Lemma configuration_is_read_witness :
  printable 200 (JsonObject ex_config) ∧
  ∃ s', Update (Json.dump (JsonObject ex_config)) ctor = Ret tt s' ∧
    ∀ k : bytes,
      (∀ d, GetInt k d s' = Ret (match Object.find k ex_config with Some (JsonInt z) => z | _ => d end) s') ∧
      (∀ d, GetBoolean k d s' = Ret (match Object.find k ex_config with Some (JsonBoolean b) => b | _ => d end) s') ∧
      (∀ d, GetString k d s' = Ret (match Object.find k ex_config with Some (JsonString v) => v | _ => d end) s') ∧
      (∀ d, GetDouble k d s' = Ret (match Object.find k ex_config with Some (JsonInt z) => D.of_Z z | _ => d end) s').
Proof.
  split; [exact ex_config_printable|]. exact (configuration_is_read ex_config ctor ex_config_printable).
Defined.

(** A number that no [int] holds ends in undefined behaviour. *)
Example huge_parameter :
  (Update ([123; 34; 97; 34; 58] ++ lit "1e10}");; GetInt (lit "a") 5) ctor = Crash BadCast.
Proof. vm_compute. reflexivity. Qed.
End configuration.

(* ------------------------------------------------------------------ *)
(** ** What is saved is what is restored *)

Section persistence.
Import Proxy.

Lemma c_str_id l : Forall (λ b, b ≠ 0) l → c_str l = l.
Proof.
  intros Hl. unfold c_str. destruct (find_index _ l) as [n|] eqn:E; [|done].
  apply find_index_Some in E as (x & Hx & H0 & _). apply Z.eqb_eq in H0. subst x.
  by eapply Forall_lookup_1 in Hl; [|exact Hx].
Qed.

Lemma wf_c_str l : wf_bytes l → wf_bytes (c_str l).
Proof. unfold c_str. case_match; [apply Forall_take|done]. Qed.

Lemma wf_host_port address port : wf_bytes address → 0 ≤ port → wf_bytes (host_port address port).
Proof.
  intros Ha Hp. unfold host_port. apply Forall_take, Forall_app_2; [by apply wf_c_str|].
  apply Forall_app_2; [by apply wf_lit|].
  destruct (unsigned_spec port Hp) as (c & ds & -> & Hd & _). eapply Forall_impl; [exact Hd|]. intros b ?%digit_range. lia.
Qed.

Lemma printable_persistent s : wf_bytes (proxyAddress s) → 0 ≤ proxyPort s → printable 200 (persistent s).
Proof.
  intros Ha Hp. unfold persistent. case_decide; apply printable_object; [by vm_compute| |by vm_compute|].
  - cbn -[printable]. repeat (apply Forall_cons_2; [split; [by apply wf_lit|]|]); [|cbn; lia|constructor].
    apply printable_object; [by vm_compute|].
    repeat (apply Forall_cons_2; [split; [by apply wf_lit|cbn [snd printable]; first [done | by apply wf_host_port]]|]). constructor.
  - repeat (apply Forall_cons_2; [split; [by apply wf_lit|cbn; lia]|]). constructor.
Qed.

Lemma saved_text s : wf_bytes (proxyAddress s) → 0 ≤ proxyPort s → GetPersistentState s = Json.dump (persistent s).
Proof. intros. unfold GetPersistentState. apply c_str_id. eapply dump_nonzero. by apply printable_persistent. Qed.

Lemma restore_text text j e s :
  text ≠ [] → parse text STANDARD = Some (j, e) →
  SetPersistentState text s =
    (if bool_decide (e = []) then
       match Object.find (lit "proxy") (Json.object_items j) with
       | None => mret tt
       | Some proxy =>
           modify (λ s, s <| lastTestedProxyServer := Json.string_value (Json.at_key proxy (lit "server")) |>
                          <| proxySupportsUDP := Json.bool_value (Json.at_key proxy (lit "udp")) |>
                          <| proxySupportsTCP := Json.bool_value (Json.at_key proxy (lit "tcp")) |>)
       end
     else mret tt) s.
Proof.
  intros Hne E. destruct text as [|c text]; [done|]. unfold SetPersistentState. rewrite E.
  unfold mbind at 1, M_bind at 1. cbn [defined]. by case_bool_decide.
Qed.

(** What a later call knows of the proxy of a call. *)
Definition restored (s s' : Proxy.t) : Proxy.t :=
  if decide (proxyProtocol s = PROXY_SOCKS5) then
    s' <| lastTestedProxyServer := host_port (proxyAddress s) (proxyPort s) |>
       <| proxySupportsUDP := proxySupportsUDP s |> <| proxySupportsTCP := proxySupportsTCP s |>
  else s'.

Lemma restore_saved s s' :
  wf_bytes (proxyAddress s) → 0 ≤ proxyPort s → SetPersistentState (GetPersistentState s) s' = Ret tt (restored s s').
Proof.
  intros Ha Hp. rewrite saved_text by done. rewrite (restore_text _ (norm (persistent s)) []).
  - unfold persistent, restored. rewrite bool_decide_true by done. by case_decide.
  - unfold persistent. by case_decide.
  - apply parse_dump. by apply printable_persistent.
Qed.

(** C19. The state that a call saves and another restores: with a SOCKS5
    proxy its server and what is known of it, without one nothing changes;
    and whatever bytes are restored instead, the call is safe and changes
    these three fields at most. *)
Theorem persistent_state_roundtrip (s s' : Proxy.t) (text : bytes) :
  wf_bytes (proxyAddress s) → 0 ≤ proxyPort s → zlen text < 2 ^ 64 →
  SetPersistentState (GetPersistentState s) s' = Ret tt (restored s s') ∧
  ∃ server udp tcp, SetPersistentState text s' =
    Ret tt (s' <| lastTestedProxyServer := server |> <| proxySupportsUDP := udp |> <| proxySupportsTCP := tcp |>).
Proof.
  intros Ha Hp Hl. split; [by apply restore_saved|].
  assert (∃ server udp tcp, Ret tt s' =
    Ret (S := Proxy.t) tt (s' <| lastTestedProxyServer := server |> <| proxySupportsUDP := udp |> <| proxySupportsTCP := tcp |>)) as Hsame
    by (exists (lastTestedProxyServer s'), (proxySupportsUDP s'), (proxySupportsTCP s'); by destruct s').
  destruct (decide (text = [])) as [->|Hne]; [done|].
  destruct (parse_ends text STANDARD Hl) as (j & e & E & _). rewrite (restore_text _ j e) by done.
  case_bool_decide; [|done]. destruct (Object.find _ _) as [p|]; [by eexists _, _, _|done].
Qed.

Definition ex_proxy : Proxy.t := SetProxy PROXY_SOCKS5 (lit "proxy.example.org") 1080 (lit "user") (lit "secret") ctor <| proxySupportsUDP := false |>.

Lemma persistent_state_roundtrip_witness :
  SetPersistentState (GetPersistentState ex_proxy) ctor = Ret tt (restored ex_proxy ctor) ∧
  ∃ server udp tcp, SetPersistentState (lit "[1, 2") ctor =
    Ret tt (ctor <| lastTestedProxyServer := server |> <| proxySupportsUDP := udp |> <| proxySupportsTCP := tcp |>).
Proof. apply persistent_state_roundtrip; [by apply wf_lit|done|done]. Defined.

Example restored_ex : lastTestedProxyServer (restored ex_proxy ctor) = lit "proxy.example.org:1080" ∧ proxySupportsUDP (restored ex_proxy ctor) = false.
Proof. by vm_compute. Qed.
End persistence.

(* ------------------------------------------------------------------ *)
(** ** Setting up the proxy *)

Section init_proxy.
Context `{Resolver}.
Import Proxy.

(** What the connection delivers fits the buffer of the client. *)
Definition read_ok (r : option readable) : Prop :=
  match r with Some r => match data r with Some d => wf_bytes d ∧ zlen d ≤ 1024 | None => True end | None => True end.

Abbreviation never := (λ _, False).

Lemma wp_on_proxy {A} (m : M Socks.t A) p s Q :
  wp m p (λ _ p', Q p' s) (λ _, never) never → wp (on_proxy m p) s Q (λ _, never) never.
Proof. unfold wp, on_proxy. by destruct (m p). Qed.

Lemma wp_negotiate l failed p s :
  Forall read_ok l → socks_inv p →
  wp (negotiate failed l p) s (λ r s', s' = s ∧ match r with Some (p', f) => socks_inv p' ∧ (Socks.IsFailed f p' || Socks.readyToSend p' = true) | None => True end)
    (λ _, never) never.
Proof.
  revert failed p s. induction l as [|r l IH]; intros failed p s Hl Hp; cbn [negotiate].
  - destruct (_ || _) eqn:E; apply wp_ret; by split.
  - apply Forall_cons_1 in Hl as [Hr Hl]. destruct (_ || _) eqn:E; [by apply wp_ret|].
    destruct r as [r|]; [|by apply wp_ret]. apply wp_bind.
    apply (wp_mono _ _ _ _ _ (λ p' s', s' = s ∧ socks_inv p')).
    + simpl in Hr. destruct (data r) as [d|]; [|by apply wp_ret]. destruct Hr as [Hd Hlen].
      apply wp_on_proxy. eapply wp_mono; [by apply receive_inv|]. by intros.
    + intros p' ? [-> Hp']. by apply IH.
Qed.

Lemma wp_InitUDPProxy c connects reads s :
  Forall read_ok reads →
  wp (InitUDPProxy c connects reads) s
    (λ _ s', (∀ p, udpSocket s' = Some p → socks_inv p ∧ Socks.failed p = false ∧ Socks.readyToSend p = true) ∧
             (proxySupportsUDP s' = true → proxySupportsUDP s = true) ∧
             (resets s' ≠ resets s → udpSocket s' = None → proxySupportsUDP s' = false) ∧
             s' = s <| udpSocket := udpSocket s' |> <| proxySupportsUDP := proxySupportsUDP s' |> <| resets := resets s' |>)
    (λ _, never) never.
Proof.
  intros Hr. unfold InitUDPProxy. apply wp_bind, wp_modify. wp_step. wp_step.
  set (s0 := s <| udpSocket := None |>).
  destruct (_ && _) eqn:E.
  - apply andb_true_iff in E as [_ E]. apply negb_true_iff in E. apply wp_modify. cbn in *. split_and!; [done|congruence|done|by destruct s].
  - destruct (connect c connects) as [ok|]; [|apply wp_ret; split_and!; [done|done|done|by destruct s]].
    apply wp_bind, wp_on_proxy.
    assert (socks_inv (Socks.ctor true (proxyUsername s0) (proxyPassword s0) 0)) as H0 by (by split; [constructor|]).
    eapply wp_mono; [by apply send_inv|]. cbv beta. intros _ p Hp. apply wp_bind.
    eapply wp_mono; [by apply wp_negotiate|]. cbv beta. intros r s1 [-> Hres].
    destruct r as [[p' f]|]; [|apply wp_ret; split_and!; [done|done|done|by destruct s]].
    destruct Hres as [Hp' Hdone]. apply wp_bind. destruct (Socks.IsFailed f p') eqn:Ef; apply wp_modify, wp_modify; cbn.
    + split_and!; [done|done|done|by destruct s].
    + simpl in Hdone. apply orb_false_iff in Ef as [Hf _].
      split_and!; [intros q [= <-]; by split_and!|done|done|by destruct s].
Qed.

(** C18. [InitUDPProxy] under every sequence of results of [Select] and bytes
    of the proxy: it is safe; the proxy becomes the socket of the call only
    after the whole conversation, the greeting, the authentication where it
    was asked for, the command and its grant; when the set-up ends without
    it, the server is taken for one without UDP; and nothing else changes. *)
Theorem udp_proxy_is_admitted (c : connecting) (connects : list (option connecting)) (reads : list (option readable)) (s : Proxy.t) :
  Forall read_ok reads →
  ∃ s', InitUDPProxy c connects reads s = Ret tt s' ∧
    (∀ p, udpSocket s' = Some p → Socks.failed p = false ∧
       ∃ l r, admitted (Socks.username p) (Socks.password p) l ∧ Socks.log p = l ++ [Socks.Sent (command p); Socks.Received (5 :: 0 :: r)]) ∧
    (resets s' ≠ resets s → udpSocket s' = None → proxySupportsUDP s' = false) ∧
    s' = s <| udpSocket := udpSocket s' |> <| proxySupportsUDP := proxySupportsUDP s' |> <| resets := resets s' |>.
Proof.
  intros Hr. pose proof (wp_InitUDPProxy c connects reads s Hr) as Hwp. unfold wp in Hwp.
  destruct (InitUDPProxy c connects reads s) as [[] s'| |]; [|done..]. destruct Hwp as (Hsock & _ & Hres & Heq).
  exists s'. split_and!; [done| |done|done].
  intros p Hp. destruct (Hsock p Hp) as ([Hwf Hconv] & Hf & Hready). split; [done|]. specialize (Hconv Hf).
  unfold conversation in Hconv. by rewrite (sw_ready p Hwf Hready) in Hconv.
Qed.

(** C20. What is known of one proxy is held against the next: once a proxy
    was found to carry no UDP, one that does is set up and used, but saved as
    one that does not, and no later call tries it again. *)
Theorem working_proxy_is_never_tried_again (c : connecting) (connects : list (option connecting)) (reads : list (option readable))
    (s s' later : Proxy.t) (p : Socks.t) (c' : connecting) (connects' : list (option connecting)) (reads' : list (option readable)) :
  Forall read_ok reads → wf_bytes (proxyAddress s) → 0 ≤ proxyPort s → proxyProtocol s = PROXY_SOCKS5 →
  proxySupportsUDP s = false → InitUDPProxy c connects reads s = Ret tt s' → udpSocket s' = Some p →
  proxyAddress later = proxyAddress s → proxyPort later = proxyPort s →
  ∃ s'', (SetPersistentState (GetPersistentState s');; InitUDPProxy c' connects' reads') later = Ret tt s'' ∧
    udpSocket s'' = None ∧ resets s'' = S (resets later).
Proof.
  intros Hr Ha Hport Hproto Hudp Hinit Hp Haddr Hlater.
  pose proof (wp_InitUDPProxy c connects reads s Hr) as Hwp. unfold wp in Hwp. rewrite Hinit in Hwp.
  destruct Hwp as (_ & Hkeep & _ & Heq). destruct (proxySupportsUDP s') eqn:Eu; [rewrite Hkeep in Hudp; done|]. clear Hkeep Hinit.
  assert (proxyAddress s' = proxyAddress s ∧ proxyPort s' = proxyPort s ∧ proxyProtocol s' = PROXY_SOCKS5) as (Ha' & Hp' & Hpr')
    by (rewrite Heq; by split_and!).
  unfold mbind, M_bind. rewrite restore_saved by (by rewrite ?Ha', ?Hp'). unfold restored. rewrite decide_True by done.
  unfold InitUDPProxy, mbind, M_bind, get, modify. cbn. rewrite Haddr, Hlater, Ha', Hp', Eu, bool_decide_true by done. by eexists.
Qed.
End init_proxy.

Section proxy_examples.
Import Proxy.
#[local] Instance no_resolver : Resolver := λ _, None.

Definition ex_s : Proxy.t := SetProxy PROXY_SOCKS5 (lit "b.example.org") 1080 [] [] ctor <| proxySupportsUDP := false |>.
(** The proxy lets everybody in and names its address. *)
Definition ex_reads : list (option readable) :=
  [Some (mkreadable (Some [5; 0]) false); Some (mkreadable None false);
   Some (mkreadable (Some [5; 0; 0; 1; 1; 2; 3; 4; 0; 80]) false)].
Definition ex_after : Proxy.t := default ex_s (end_state (InitUDPProxy Pending [Some Pending; Some Ready] ex_reads ex_s)).

Lemma ex_reads_ok : Forall read_ok ex_reads.
Proof. unfold ex_reads. repeat (apply Forall_cons_2; [first [exact I | split; [by apply wf_lit|done]]|]). constructor. Qed.

Lemma udp_proxy_is_admitted_witness :
  Forall read_ok ex_reads ∧ bool_decide (is_Some (udpSocket ex_after)) = true ∧
  ∃ s', InitUDPProxy Pending [Some Pending; Some Ready] ex_reads ex_s = Ret tt s' ∧
    (∀ p, udpSocket s' = Some p → Socks.failed p = false ∧
       ∃ l r, admitted (Socks.username p) (Socks.password p) l ∧ Socks.log p = l ++ [Socks.Sent (command p); Socks.Received (5 :: 0 :: r)]) ∧
    (resets s' ≠ resets ex_s → udpSocket s' = None → proxySupportsUDP s' = false) ∧
    s' = ex_s <| udpSocket := udpSocket s' |> <| proxySupportsUDP := proxySupportsUDP s' |> <| resets := resets s' |>.
Proof.
  split; [exact ex_reads_ok|]. split; [by vm_compute|].
  exact (udp_proxy_is_admitted Pending [Some Pending; Some Ready] ex_reads ex_s ex_reads_ok).
Defined.

Definition ex_socket : Socks.t := default (Socks.ctor true [] [] 0) (udpSocket ex_after).

Lemma working_proxy_is_never_tried_again_witness :
  ∃ s'', (SetPersistentState (GetPersistentState ex_after);; InitUDPProxy Ready [] ex_reads) (ex_s <| proxySupportsUDP := true |>) = Ret tt s'' ∧
    udpSocket s'' = None ∧ resets s'' = S (resets (ex_s <| proxySupportsUDP := true |>)).
Proof.
  apply (working_proxy_is_never_tried_again Pending [Some Pending; Some Ready] ex_reads ex_s ex_after (ex_s <| proxySupportsUDP := true |>) ex_socket Ready [] ex_reads);
    first [exact ex_reads_ok | by apply wf_lit | by vm_compute].
Defined.
End proxy_examples.
