(* ===== verification/Wire.v ===== *)
(** * libtgvoip/VoIPController.cpp: what a packet looks like on the wire

    The encryption of packets ([SetEncryptionKey], [KDF], [KDF2],
    [SendPacket] and the first half of [ProcessIncomingPacket]) and their
    header ([WritePacketHeader] and the parser in [ProcessIncomingPacket]).

    SHA-1, SHA-256 and AES-IGE are callbacks ([VoIPController::crypto]):
    parameters with the properties their documentation gives.  The local
    [BufferOutputStream]s only concatenate and grow as needed
    ([Buffers.write_growable]), so what they hold is written with [++]. *)

From Stdlib Require Import ZArith Lia.
From stdpp Require Import base tactics list numbers option.
From S2P Require Import Prelude Words Memory Buffers Streams.
From stdpp Require Import list.
Open Scope Z_scope.

(** [CryptoFunctions]: the hashes, and AES-256 in IGE mode with a key and an
    initial vector. *)
Class CryptoFunctions := {
  sha1 : bytes → bytes;
  sha256 : bytes → bytes;
  aes_ige_encrypt : bytes → bytes → bytes → bytes;
  aes_ige_decrypt : bytes → bytes → bytes → bytes;
}.

(** What is documented of them, for whole blocks of 16 bytes. *)
Class CryptoLaws `{CryptoFunctions} : Prop := {
  sha1_length l : length (sha1 l) = 20%nat;
  sha1_wf l : wf_bytes (sha1 l);
  sha256_length l : length (sha256 l) = 32%nat;
  sha256_wf l : wf_bytes (sha256 l);
  encrypt_length k v l : length (aes_ige_encrypt k v l) = length l;
  encrypt_wf k v l : wf_bytes l → wf_bytes (aes_ige_encrypt k v l);
  decrypt_length k v l : length (aes_ige_decrypt k v l) = length l;
  decrypt_wf k v l : wf_bytes l → wf_bytes (aes_ige_decrypt k v l);
  decrypt_encrypt k v l : zlen l mod 16 = 0 → aes_ige_decrypt k v (aes_ige_encrypt k v l) = l;
  encrypt_decrypt k v l : zlen l mod 16 = 0 → aes_ige_encrypt k v (aes_ige_decrypt k v l) = l;
}.

Module Wire.
Definition SHA1_LENGTH : nat := 20.
Definition SHA256_LENGTH : nat := 32.

(** What the format depends on.  [waiting]: the state is [STATE_WAIT_INIT]
    or [STATE_WAIT_INIT_ACK]. *)
Record config := mkconfig {
  encryptionKey : bytes;
  keyFingerprint : bytes;
  callID : bytes;
  isOutgoing : bool;
  peerVersion : Z;
  connectionMaxLayer : Z;
  useMTProto2 : bool;
  waiting : bool;
}.
#[export] Instance config_eta : Eta config := λ c,
  mkconfig (encryptionKey c) (keyFingerprint c) (callID c) (isOutgoing c) (peerVersion c) (connectionMaxLayer c)
    (useMTProto2 c) (waiting c).

Section ops.
Context `{CryptoFunctions}.

Definition SetEncryptionKey (key : bytes) (outgoing : bool) (c : config) : config :=
  c <| encryptionKey := key |>
    <| keyFingerprint := drop (SHA1_LENGTH - 8) (sha1 key) |>
    <| callID := drop (SHA256_LENGTH - 16) (sha256 key) |>
    <| isOutgoing := outgoing |>.

Definition shortFormat (c : config) : bool :=
  (8 <=? peerVersion c) || ((peerVersion c =? 0) && (92 <=? connectionMaxLayer c)).

(** [KDF(msgKey, x, aesKey, aesIv)]: the key and the vector. *)
Definition KDF (key msgKey : bytes) (x : nat) : bytes * bytes :=
  let sA := sha1 (msgKey ++ slice key x 32) in
  let sB := sha1 (slice key (32 + x) 16 ++ msgKey ++ slice key (48 + x) 16) in
  let sC := sha1 (slice key (64 + x) 32 ++ msgKey) in
  let sD := sha1 (msgKey ++ slice key (96 + x) 32) in
  (slice sA 0 8 ++ slice sB 8 12 ++ slice sC 4 12,
   slice sA 8 12 ++ slice sB 0 8 ++ slice sC 16 4 ++ slice sD 0 8).

Definition KDF2 (key msgKey : bytes) (x : nat) : bytes * bytes :=
  let sA := sha256 (msgKey ++ slice key x 36) in
  let sB := sha256 (slice key (40 + x) 36 ++ msgKey) in
  (slice sA 0 8 ++ slice sB 8 16 ++ slice sA 24 8,
   slice sB 0 8 ++ slice sA 8 16 ++ slice sB 24 8).

(** The 16 bytes of the hash that authenticate an inner packet (without its
    length in the long format). *)
Definition msg_key (key inner : bytes) (x : nat) : bytes :=
  slice (sha256 (slice key (88 + x) 32 ++ inner)) 8 16.

(** ** Sending *)

(** The padding of MTProto 2: up to a multiple of 16, at least 17 bytes
    unless the length is one already. *)
Definition pad_len (len : nat) : nat :=
  let padLen := (16 - len mod 16)%nat in
  if (padLen <? 16)%nat then (padLen + 16)%nat else padLen.

(** The branch of [SendPacket] for MTProto 2: what follows the peer tag;
    [rand] are the random bytes. *)
Definition seal2 (c : config) (rand data : bytes) : bytes :=
  let sizeSize := if shortFormat c then 0%nat else 4%nat in
  let inner := (if shortFormat c then le_bytes 2 (zlen data) else le_bytes 4 (zlen data)) ++ data in
  let inner := inner ++ take (pad_len (length inner)) rand in
  let x := if isOutgoing c then 0%nat else 8%nat in
  let msgKey := msg_key (encryptionKey c) (drop sizeSize inner) x in
  let '(key, iv) := KDF2 (encryptionKey c) msgKey x in
  (if shortFormat c then [] else keyFingerprint c) ++ msgKey ++ aes_ige_encrypt key iv inner.

(** The branch for MTProto 1. *)
Definition seal1 (c : config) (rand data : bytes) : bytes :=
  let inner := le_bytes 4 (zlen data) ++ data in
  let inner := if (length inner mod 16 =? 0)%nat then inner
               else inner ++ take (16 - length inner mod 16) rand in
  let msgHash := sha1 (take (4 + length data) inner) in
  let msgKey := drop (SHA1_LENGTH - 16) msgHash in
  let '(key, iv) := KDF (encryptionKey c) msgKey (if isOutgoing c then 0 else 8)%nat in
  keyFingerprint c ++ msgKey ++ aes_ige_encrypt key iv inner.

(** [SendPacket]: the datagram; [relay] is the peer tag of a relay, [None]
    for an endpoint of any other type. *)
Definition SendPacket (c : config) (relay : option bytes) (rand data : bytes) : bytes :=
  (match relay with
   | Some peerTag => peerTag
   | None => if peerVersion c <? 9 then callID c else []
   end) ++
  (if 0 <? zlen data then if useMTProto2 c then seal2 c rand data else seal1 c rand data else []).

(** ** Receiving *)

(** What becomes of a datagram: it is dropped; it is a special reply of a
    relay, to be parsed from this stream; or it is a packet, to be parsed
    from this stream, with [innerLen] and whether MTProto 2 is used from
    now on because the other version failed. *)
Inductive opened :=
| Dropped
| RelayReply (i : BufferInputStream.t)
| Packet (i : BufferInputStream.t) (innerLen : Z) (upgrade : bool).

Inductive mtproto1_result := Wrong | RetryWith2 | Good.

Import BufferInputStream.

(** [n] bytes of an array from position [o]: undefined outside it. *)
Definition at_array {S} (mem : bytes) (o n : Z) : M S bytes := defined (memcpy_from o n mem).

(** MTProto 1: the inner packet replaces the encrypted bytes in the buffer. *)
Definition open1 (c : config) : M t mtproto1_result :=
  _ ← ReadBytes 8;
  msgHash ← ReadBytes 16;
  let '(key, iv) := KDF (encryptionKey c) msgHash (if isOutgoing c then 8 else 0)%nat in
  n ← gets Remaining;
  s ← get;
  enc ← at_array (buffer s) (offset s) n;
  let aesOut := aes_ige_decrypt key iv enc in
  len ← with_stream (ctor aesOut n) (on_stream (ReadInt32));
  let len := u32 len in
  let len := if n - 4 <? len then u32 (n - 4) else len in
  hashed ← at_array aesOut 0 (len + 4);
  if negb (bool_decide (msgHash = drop (SHA1_LENGTH - 16) (sha1 hashed))) then
    mret (if waiting c then RetryWith2 else Wrong)
  else
    modify (λ s, mk (overwrite (buffer s) (Z.to_nat (offset s)) aesOut) (BufferInputStream.length s) (offset s));;
    _ ← ReadInt32;
    mret Good.

(** MTProto 2. *)
Definition open2 (c : config) (hasPeerTag retry : bool) : M t opened :=
  (if hasPeerTag then Seek 16 else mret tt);;
  ok ← (if shortFormat c then mret true
        else fingerprint ← ReadBytes 8; mret (bool_decide (fingerprint = keyFingerprint c)));
  if negb ok then mret Dropped
  else
    msgKey ← ReadBytes 16;
    let x := if isOutgoing c then 8%nat else 0%nat in
    let '(aesKey, aesIv) := KDF2 (encryptionKey c) msgKey x in
    decryptedLen ← gets Remaining;
    if 1500 <? decryptedLen then mret Dropped
    else if negb (decryptedLen mod 16 =? 0) then mret Dropped
    else
      s ← get;
      enc ← at_array (buffer s) (offset s) decryptedLen;
      let decrypted := aes_ige_decrypt aesKey aesIv enc in
      let sizeSize := if shortFormat c then 0 else 4 in
      body ← at_array decrypted sizeSize (decryptedLen - sizeSize);
      if negb (bool_decide (msgKey = msg_key (encryptionKey c) body x)) then mret Dropped
      else
        innerLen ← with_stream (ctor decrypted decryptedLen)
          (on_stream (if shortFormat c then ReadInt16 else ReadInt32));
        let innerLen := u32 innerLen in
        if decryptedLen - sizeSize <? innerLen then mret Dropped
        else if decryptedLen - innerLen <? (if shortFormat c then 16 else 12) then mret Dropped
        else
          inner ← at_array decrypted (if shortFormat c then 2 else 4) innerLen;
          mret (Packet (ctor inner innerLen) innerLen retry).

(** The first half of [ProcessIncomingPacket], on the stream over the
    datagram; [mem] is the receive buffer, which starts with the datagram and
    is compared with the peer tag whatever the length of the datagram. *)
Definition open_packet (c : config) (relay : option bytes) (mem : bytes) : M t opened :=
  s ← get;
  let buf := buffer s in
  tag ← (if (peerVersion c <? 9) || bool_decide (is_Some relay) then
           b ← at_array mem 0 16;
           if negb (bool_decide (b = default (callID c) relay)) then mret None
           else Seek 16;; mret (Some true)
         else mret (Some false));
  match tag with
  | None => mret Dropped
  | Some hasPeerTag =>
      remaining ← gets Remaining;
      special ← (if (16 <=? remaining) && bool_decide (is_Some relay) then
                   q ← at_array buf 16 8;
                   d ← at_array buf 24 4;
                   mret ((le_val q =? 0xFFFFFFFFFFFFFFFF) && (le_val d =? 0xFFFFFFFF))
                 else mret false);
      if special : bool then Seek 28;; s ← get; mret (RelayReply s)
      else if remaining <? 40 then mret Dropped
      else if useMTProto2 c then open2 c hasPeerTag false
      else
        r ← open1 c;
        match r with
        | Wrong => mret Dropped
        | RetryWith2 => open2 c hasPeerTag true
        | Good => s ← get; mret (Packet s 0 false)
        end
  end.
End ops.
End Wire.

(* ------------------------------------------------------------------ *)
(** ** A sealed packet opens *)

Section sealing.
Context {CF : CryptoFunctions} {CL : CryptoLaws}.
Import Wire.

(** The padding fills the last block. *)
Lemma pad_len_spec n : (16 ≤ pad_len n ≤ 31)%nat ∧ ((n + pad_len n) mod 16 = 0)%nat.
Proof.
  unfold pad_len. pose proof (Nat.mod_upper_bound n 16 ltac:(lia)).
  destruct (Nat.ltb_spec (16 - n mod 16) 16); split; try lia;
    pose proof (Nat.div_mod_eq n 16); apply Nat.Div0.mod_divides.
  - exists (n / 16 + 2)%nat. lia.
  - exists (n / 16 + 1)%nat. lia.
Qed.

(** The packet with an inner packet [size ++ data ++ pad]. *)
Definition size_bytes (c : config) (data : bytes) : bytes :=
  if shortFormat c then le_bytes 2 (zlen data) else le_bytes 4 (zlen data).
Definition sealed (c : config) (x : nat) (pad data : bytes) : bytes :=
  let inner := size_bytes c data ++ data ++ pad in
  let msgKey := msg_key (encryptionKey c) (drop (if shortFormat c then 0 else 4)%nat inner) x in
  let '(key, iv) := KDF2 (encryptionKey c) msgKey x in
  (if shortFormat c then [] else keyFingerprint c) ++ msgKey ++ aes_ige_encrypt key iv inner.

Lemma seal2_sealed c rand data :
  seal2 c rand data = sealed c (if isOutgoing c then 0 else 8)%nat (take (pad_len (length (size_bytes c data ++ data))) rand) data.
Proof. unfold seal2, sealed, size_bytes. by rewrite <- app_assoc. Qed.

Lemma length_msg_key k inner x : length (msg_key k inner x) = 16%nat.
Proof. unfold msg_key. apply length_slice. rewrite sha256_length. lia. Qed.
Lemma msg_key_wf k inner x : wf_bytes (msg_key k inner x).
Proof. unfold msg_key, slice. apply Forall_take, Forall_drop, sha256_wf. Qed.

Definition header_len (c : config) : nat := if shortFormat c then 2 else 4.
Lemma length_size_bytes c data : length (size_bytes c data) = header_len c.
Proof. unfold size_bytes, header_len. destruct (shortFormat c); apply length_le_bytes. Qed.

Import BufferInputStream.
Abbreviation throws_only m s Q T := (wp m s Q (λ e s', e = OutOfRange ∧ T s') (λ _, False)).

Lemma at_rest s (Q : bytes → t → Prop) T C :
  wf s → Q (rest s) s → wp (at_array (buffer s) (offset s) (Remaining s)) s Q T C.
Proof.
  intros Hwf HQ. unfold Remaining. rewrite remaining_rest by done.
  assert (0 ≤ offset s ≤ BufferInputStream.length s) as Ho by apply Hwf. pose proof (wf_mem s Hwf) as Hm.
  assert (zlen (rest s) = zlen (buffer s) - offset s) as Hz.
  { unfold rest, zlen in *. rewrite length_drop. lia. }
  eapply wp_defined; [|exact HQ]. rewrite memcpy_from_ok by lia. f_equal.
  change (drop (Z.to_nat (offset s)) (buffer s)) with (rest s). apply take_ge. unfold zlen in *. lia.
Qed.
Lemma at_whole {S} mem o n (s : S) (Q : bytes → S → Prop) T C :
  0 ≤ o → 0 ≤ n → o + n ≤ zlen mem → Q (slice mem (Z.to_nat o) (Z.to_nat n)) s → wp (at_array mem o n) s Q T C.
Proof. intros ? ? ? HQ. eapply wp_defined; [|exact HQ]. by apply memcpy_from_ok. Qed.

(** What [open2] makes of the decrypted bytes. *)
Definition judge (c : config) (msgKey dec : bytes) (retry : bool) : opened :=
  let n := zlen dec in
  let sizeSize := if shortFormat c then 0 else 4 in
  let innerLen := u32 (if shortFormat c then s16 (le_val (take 2 dec)) else s32 (le_val (take 4 dec))) in
  if bool_decide (msgKey = msg_key (encryptionKey c) (drop (Z.to_nat sizeSize) dec) (if isOutgoing c then 8 else 0)) then
    if n - sizeSize <? innerLen then Dropped
    else if n - innerLen <? (if shortFormat c then 16 else 12) then Dropped
    else Packet (ctor (slice dec (header_len c) (Z.to_nat innerLen)) innerLen) innerLen retry
  else Dropped.

(** [open2] from the bytes after the peer tag on. *)
Definition opens (c : config) (r : bytes) (retry : bool) : opened :=
  let fp := if shortFormat c then 0%nat else 8%nat in
  if negb (shortFormat c) && negb (bool_decide (take 8 r = keyFingerprint c)) then Dropped
  else
    let msgKey := slice r fp 16 in
    let enc := drop (fp + 16) r in
    let '(key, iv) := KDF2 (encryptionKey c) msgKey (if isOutgoing c then 8 else 0)%nat in
    if 1500 <? zlen enc then Dropped
    else if negb (zlen enc mod 16 =? 0) then Dropped
    else judge c msgKey (aes_ige_decrypt key iv enc) retry.

Lemma wp_size c (dec : bytes) s (Q : Z → t → Prop) (T : t → Prop) :
  wf_bytes dec → zlen dec ≤ 1500 → (zlen dec < 4 → T s) →
  Q (if shortFormat c then s16 (le_val (take 2 dec)) else s32 (le_val (take 4 dec))) s →
  throws_only (with_stream (ctor dec (zlen dec)) (on_stream (if shortFormat c then ReadInt16 else ReadInt32))) s Q T.
Proof.
  intros Hb Hl HT HQ. apply wp_with_stream, wp_on_stream. pose proof (ctor_wf dec Hb ltac:(lia)) as Hwf.
  assert (∀ n : nat, wf_bytes (take n dec) ∧ Datatypes.length (take n dec) = n `min` Datatypes.length dec)%nat as Ht.
  { intros n. split; [by apply Forall_take|]. rewrite length_take. lia. }
  destruct (shortFormat c).
  - destruct (Z.lt_ge_cases (zlen dec) 2); [unfold wp, ReadInt16; rewrite short_bind by done; split; [done|apply HT; lia]|].
    eapply wp_ReadInt16; [done| |by intros].
    rewrite rest_ctor, <- (take_drop 2 dec) at 1. f_equal. destruct (Ht 2%nat) as [H1 H2].
    rewrite <- (le_bytes_le_val (take 2 dec)) at 1 by done. f_equal. unfold zlen in *. lia.
  - destruct (Z.lt_ge_cases (zlen dec) 4); [unfold wp, ReadInt32; rewrite short_bind by done; split; [done|apply HT; lia]|].
    eapply wp_ReadInt32; [done| |by intros].
    rewrite rest_ctor, <- (take_drop 4 dec) at 1. f_equal. destruct (Ht 4%nat) as [H1 H2].
    rewrite <- (le_bytes_le_val (take 4 dec)) at 1 by done. f_equal. unfold zlen in *. lia.
Qed.

Lemma wp_ReadBytes_pos n s (Q : bytes → t → Prop) (T : t → Prop) :
  wf s → 0 ≤ n → (zlen (rest s) < n → T s) → (∀ s', wf s' → n ≤ zlen (rest s) → rest s' = drop (Z.to_nat n) (rest s) → Q (take (Z.to_nat n) (rest s)) s') →
  throws_only (ReadBytes n) s Q T.
Proof.
  intros Hwf Hn HT HQ. destruct (Z.lt_ge_cases (zlen (rest s)) n) as [Hl|Hl].
  - unfold wp, ReadBytes. rewrite short_bind by done. auto.
  - assert (zlen (take (Z.to_nat n) (rest s)) = n) as Hz by (unfold zlen in *; rewrite length_take; lia).
    rewrite <- Hz at 1. eapply wp_ReadBytes; [done|by rewrite take_drop|]. intros s' Hs' Hr'. by apply HQ.
Qed.

(** From where the tag is skipped. *)
Lemma wp_open2_from c retry s (Q : opened → t → Prop) (T : t → Prop) :
  wf s → (∀ s', zlen (rest s) < 40 → T s') → (shortFormat c = false → 28 ≤ zlen (rest s)) →
  (∀ s', Q (opens c (rest s) retry) s') → throws_only (open2 c false retry) s Q T.
Proof.
  intros Hwf HT Hlong HQ. unfold open2. apply wp_bind, wp_ret. unfold opens in HQ. set (r := rest s) in *. apply wp_bind.
  set (fp := if shortFormat c then 0%nat else 8%nat) in *.
  apply wp_mono with (Q' := λ ok s', ok = negb (negb (shortFormat c) && negb (bool_decide (take 8 r = keyFingerprint c))) ∧
    wf s' ∧ rest s' = drop fp r).
  { unfold fp. destruct (shortFormat c); [by apply wp_ret|]. apply wp_bind, wp_ReadBytes_pos; [done|lia|intros; apply HT; unfold r; lia|].
    intros s' Hs' _ Hr'. apply wp_ret. split; [|done]. simpl. by rewrite negb_involutive. }
  intros ok s1 (-> & Hs1 & Hr1). rewrite negb_involutive.
  destruct (negb (shortFormat c) && _); [by apply wp_ret|].
  assert (zlen (rest s1) < 16 → zlen r < 40) as Hfp.
  { rewrite Hr1. unfold zlen. rewrite length_drop. unfold fp. destruct (shortFormat c); lia. }
  apply wp_bind, wp_ReadBytes_pos; [done|lia|auto|]. intros s2 Hs2 H16 Hr2. rewrite Hr1 in *.
  change (take (Z.to_nat 16) (drop fp r)) with (slice r fp 16). rewrite drop_drop in Hr2. change (Z.to_nat 16) with 16%nat in Hr2.
  destruct (KDF2 _ _ _) as [key iv].
  apply wp_bind. unfold wp at 1, gets. assert (Remaining s2 = zlen (drop (fp + 16) r)) as Hrem.
  { unfold Remaining. rewrite remaining_rest by done. by rewrite Hr2. }
  rewrite Hrem. set (enc := drop (fp + 16) r) in *.
  apply wp_if; intros E1; rewrite E1 in HQ; [by apply wp_ret|].
  apply wp_if; intros E2; rewrite E2 in HQ; [by apply wp_ret|].
  apply wp_bind, wp_get, wp_bind. rewrite <- Hrem. apply at_rest; [done|]. rewrite Hr2, Hrem. fold enc.
  set (dec := aes_ige_decrypt key iv enc) in *.
  assert (zlen dec = zlen enc) as Hdec by (unfold zlen, dec; by rewrite decrypt_length).
  assert (wf_bytes enc) as Hwenc by (apply Forall_drop, Forall_drop, Hwf).
  assert (wf_bytes dec) as Hwdec by by apply decrypt_wf.
  assert (shortFormat c = false → 4 ≤ zlen enc) as H4.
  { intros Hs. specialize (Hlong Hs). unfold enc, fp. rewrite Hs. unfold zlen in *. rewrite length_drop. lia. }
  pose proof (zlen_nonneg enc) as Henc0.
  unfold judge in HQ. rewrite Hdec in HQ. set (sizeSize := if shortFormat c then 0 else 4) in *.
  assert (0 ≤ sizeSize ≤ zlen enc) as Hss by (unfold sizeSize; destruct (shortFormat c); [lia|specialize (H4 eq_refl); lia]).
  apply wp_bind, at_whole; [lia..|].
  assert (slice dec (Z.to_nat sizeSize) (Z.to_nat (zlen enc - sizeSize)) = drop (Z.to_nat sizeSize) dec) as ->.
  { unfold slice. apply take_ge. rewrite length_drop. unfold zlen in *. lia. }
  apply wp_if; intros E3.
  { apply negb_true_iff in E3. rewrite E3 in HQ. by apply wp_ret. }
  apply negb_false_iff in E3. rewrite E3 in HQ.
  apply wp_bind. rewrite <- Hdec at 1. apply wp_size; [done|rewrite Hdec; apply Z.ltb_ge in E1; lia| |].
  { intros Hd4. apply HT. rewrite Hdec in Hd4. unfold enc, zlen in Hd4. rewrite length_drop in Hd4.
    unfold zlen, fp in *. destruct (shortFormat c); lia. }
  set (innerLen := u32 _) in *.
  apply wp_if; intros E4; rewrite E4 in HQ; [by apply wp_ret|].
  apply wp_if; intros E5; rewrite E5 in HQ; [by apply wp_ret|].
  apply Z.ltb_ge in E4, E5. pose proof (u32_range (if shortFormat c then s16 (le_val (take 2 dec)) else s32 (le_val (take 4 dec)))) as Hi.
  fold innerLen in Hi.
  assert (Z.of_nat (header_len c) = if shortFormat c then 2 else 4) as Hh by (unfold header_len; by destruct (shortFormat c)).
  rewrite <- Hh. apply wp_bind, at_whole; [lia|lia| |].
  { rewrite Hh, Hdec. unfold sizeSize in E4. destruct (shortFormat c); lia. }
  rewrite Nat2Z.id. by apply wp_ret.
Qed.

Lemma wp_open2 c hasPeerTag retry s (Q : opened → t → Prop) (T : t → Prop) :
  wf s → (hasPeerTag = true → 16 ≤ zlen (buffer s)) →
  let r := if hasPeerTag then drop 16 (buffer s) else rest s in
  (∀ s', zlen r < 40 → T s') → (shortFormat c = false → 28 ≤ zlen r) →
  (∀ s', Q (opens c r retry) s') → throws_only (open2 c hasPeerTag retry) s Q T.
Proof.
  intros Hwf Htag r HT Hlong HQ. destruct hasPeerTag; [|by apply wp_open2_from].
  assert (wf (with_offset 16 s)) as Hwf'.
  { destruct Hwf as [Hm Ho Hs Hd]. constructor; simpl; try done. rewrite Hm. specialize (Htag eq_refl). lia. }
  pose proof (wp_open2_from c retry (with_offset 16 s) Q T Hwf' HT) as Hw. unfold open2 in *.
  apply wp_bind. unfold wp at 1, Seek. pose proof (wf_mem s Hwf) as Hm. specialize (Htag eq_refl).
  destruct (Z.ltb_spec (BufferInputStream.length s) 16); [lia|].
  exact (Hw Hlong HQ).
Qed.

(** A read that is known to fit. *)
Lemma wp_ReadBytes_fits n s (Q : bytes → t → Prop) T C :
  wf s → 0 ≤ n ≤ zlen (rest s) →
  (wf (with_offset (offset s + n) s) → rest (with_offset (offset s + n) s) = drop (Z.to_nat n) (rest s) →
   zlen (rest (with_offset (offset s + n) s)) = zlen (rest s) - n →
   Q (take (Z.to_nat n) (rest s)) (with_offset (offset s + n) s)) → wp (ReadBytes n) s Q T C.
Proof.
  intros Hwf Hn HQ. unfold wp. rewrite ReadBytes_run by done.
  destruct (wf_advance s n Hwf Hn) as [Hwf' Hr']. apply HQ; [done..|]. rewrite Hr'. unfold zlen in *. rewrite length_drop. lia.
Qed.

Lemma overwrite_wf (l xs : bytes) p : wf_bytes l → wf_bytes xs → wf_bytes (overwrite l p xs).
Proof. intros Hl Hx. apply Forall_app. split; [by apply Forall_take|]. apply Forall_app. split; [done|by apply Forall_drop]. Qed.

Lemma wp_ReadInt32_keeps s (Q : Z → t → Prop) (T : t → Prop) :
  wf s → (∀ z s', wf s' → buffer s' = buffer s → Q z s') → (∀ s', T s') → throws_only ReadInt32 s Q T.
Proof.
  intros Hwf HQ HT. pose proof (safe_ReadInt32 s Hwf) as Hs.
  assert (along (λ x y : t, buffer y = buffer x) ReadInt32) as Ha.
  { assert (PreOrder (λ x y : t, buffer y = buffer x)) by (split; [by intros ?|by intros ? ? ? -> ->]).
    unfold ReadInt32, at_, advance. repeat along_step; [|by apply along_modify].
    intros x. unfold wp, EnsureEnoughRemaining. by destruct (_ <? _). }
  specialize (Ha s). unfold wp, Reader.safe in *.
  destruct (ReadInt32 s) as [z s'|e s'|c] eqn:E; [by apply HQ|destruct Hs as [-> ?]; auto|].
  subst c. revert E. unfold ReadInt32. enough (∀ x, ReadInt32 x ≠ Crash AssertFailed) by (intros; by apply (H s)).
  intros x. unfold ReadInt32. no_assert.
Qed.

Lemma wp_open1 c s (Q : mtproto1_result → t → Prop) (T : t → Prop) :
  wf s → 40 ≤ zlen (rest s) → (∀ s', T s') →
  (∀ r s', wf s' → zlen (buffer s') = zlen (buffer s) → (r = RetryWith2 → buffer s' = buffer s ∧ 16 ≤ zlen (rest s')) → Q r s') →
  throws_only (open1 c) s Q T.
Proof.
  intros Hwf H40 HT HQ. unfold open1.
  apply wp_bind, wp_ReadBytes_fits; [done|lia|]. intros Hs1 Hr1 Hz1. set (s1 := with_offset (offset s + 8) s) in *.
  apply wp_bind, wp_ReadBytes_fits; [done|lia|]. intros Hs2 Hr2 Hz2. set (s2 := with_offset (offset s1 + 16) s1) in *.
  destruct (KDF _ _ _) as [key iv]. apply wp_bind. unfold wp at 1, gets. apply wp_bind, wp_get, wp_bind, at_rest; [done|].
  set (enc := rest s2) in *. set (dec := aes_ige_decrypt key iv enc).
  assert (Remaining s2 = zlen enc) as Hn by (unfold Remaining; by rewrite remaining_rest).
  assert (zlen dec = zlen enc) as Hdec by (unfold zlen, dec; by rewrite decrypt_length).
  assert (wf_bytes enc) as Hwenc by (apply Forall_drop, Hs2).
  assert (wf_bytes dec) as Hwdec by by apply decrypt_wf.
  assert (zlen enc < 18446744073709551616) as Hbig.
  { pose proof (wf_size s2 Hs2). pose proof (wf_mem s2 Hs2). unfold enc, rest, zlen in *. rewrite length_drop. lia. }
  rewrite Hn, <- Hdec. apply wp_bind, wp_with_stream, wp_on_stream.
  apply wp_ReadInt32_any; [apply ctor_wf; [done|lia]| |auto]. intros len0 x' _. simpl.
  set (len := if zlen dec - 4 <? u32 len0 then u32 (zlen dec - 4) else u32 len0).
  assert (0 ≤ len ≤ zlen dec - 4) as Hlen.
  { unfold len. pose proof (u32_range len0). destruct (Z.ltb_spec (zlen dec - 4) (u32 len0)); [|lia].
    rewrite u32_small; lia. }
  apply wp_bind, at_whole; [lia..|].
  apply wp_if; intros E.
  { apply wp_ret, HQ; [done|done|]. intros _. split; [done|]. fold enc. lia. }
  apply wp_bind, wp_modify. set (s3 := mk _ _ _).
  assert (overwrite (buffer s2) (Z.to_nat (offset s2)) dec = take (Z.to_nat (offset s2)) (buffer s2) ++ dec) as Hov.
  { unfold overwrite. f_equal. rewrite drop_ge, app_nil_r; [done|]. unfold enc, rest, zlen in *. rewrite length_drop in Hdec. lia. }
  assert (wf s3) as Hs3.
  { destruct Hs2 as [Hm Ho Hsz Hd]. constructor; [|exact Ho|exact Hsz|by apply overwrite_wf].
    change (BufferInputStream.length s2 = zlen (overwrite (buffer s2) (Z.to_nat (offset s2)) dec)).
    rewrite Hov, Hm, zlen_app, Hdec. unfold enc, rest, zlen. rewrite length_take, length_drop. unfold zlen in Hm. lia. }
  apply wp_bind, wp_ReadInt32_keeps; [done| |auto]. intros z s4 Hs4 Hb4. apply wp_ret, HQ; [done| |done].
  rewrite Hb4. change (buffer s3) with (overwrite (buffer s2) (Z.to_nat (offset s2)) dec). rewrite Hov, zlen_app, Hdec.
  unfold enc, rest, zlen. rewrite length_take, length_drop. pose proof (wf_off s2 Hs2) as Ho. pose proof (wf_mem s2 Hs2) as Hm.
  unfold zlen in Hm. simpl in *. lia.
Qed.

(** An accepted packet is a sealed one. *)
Lemma judge_inv c mk dec retry i n up :
  wf_bytes dec → zlen dec ≤ 1500 → judge c mk dec retry = Packet i n up →
  ∃ data pad, dec = size_bytes c data ++ data ++ pad ∧ i = ctor data n ∧ n = zlen data ∧ up = retry ∧ 8 ≤ zlen pad ∧
    mk = msg_key (encryptionKey c) (drop (if shortFormat c then 0 else 4) dec) (if isOutgoing c then 8 else 0).
Proof.
  intros Hw Hlen. unfold judge.
  replace (Z.to_nat (if shortFormat c then 0 else 4)) with (if shortFormat c then 0%nat else 4%nat) by (by destruct (shortFormat c)).
  case_bool_decide as Hmk; [|done]. set (v := u32 _).
  destruct (Z.ltb_spec (zlen dec - if shortFormat c then 0 else 4) v) as [|H1]; [done|].
  destruct (Z.ltb_spec (zlen dec - v) (if shortFormat c then 16 else 12)) as [|H2]; [done|]. intros [= <- <- <-].
  pose proof (u32_range (if shortFormat c then s16 (le_val (take 2 dec)) else s32 (le_val (take 4 dec)))) as Hv. fold v in Hv.
  set (h := header_len c). set (data := slice dec h (Z.to_nat v)). set (pad := drop (h + Z.to_nat v) dec).
  assert (Z.of_nat h + 8 ≤ zlen dec - v) as Hroom.
  { unfold h, header_len. destruct (shortFormat c); lia. }
  assert (zlen data = v) as Hd by (unfold data, zlen in *; rewrite length_slice; lia).
  assert (take h dec = size_bytes c data) as Hs.
  { assert (Datatypes.length (take h dec) = h) as Hl by (rewrite length_take; unfold zlen in *; lia).
    rewrite <- (le_bytes_le_val (take h dec)), Hl by (by apply Forall_take). unfold size_bytes. rewrite Hd.
    pose proof (le_val_range (take h dec)) as Hr. unfold zlen in Hr. rewrite Hl in Hr.
    unfold h, header_len in *. unfold v in *. destruct (shortFormat c).
    - change (256 ^ Z.of_nat 2) with 65536 in Hr. f_equal. word_lia.
    - change (256 ^ Z.of_nat 4) with 4294967296 in Hr. f_equal. word_lia. }
  exists data, pad. split_and!; [|done|done|done| |done].
  - rewrite <- Hs. unfold data, pad, slice. by rewrite <- drop_drop, !take_drop.
  - unfold pad, zlen in *. rewrite length_drop. lia.
Qed.

(** What is parsed lies in memory; a packet is no longer than its datagram. *)
Definition opened_ok (pkt : bytes) (o : opened) : Prop :=
  match o with
  | Dropped => True
  | RelayReply i => wf i ∧ zlen (buffer i) ≤ zlen pkt
  | Packet i _ _ => wf i ∧ zlen (buffer i) ≤ zlen pkt
  end.
Lemma opens_ok c r retry pkt :
  wf_bytes r → zlen r ≤ zlen pkt → opened_ok pkt (opens c r retry).
Proof.
  intros Hw Hr. unfold opens. set (mk := slice r _ 16). set (enc := drop _ r).
  destruct (_ && _); [done|]. destruct (KDF2 _ _ _) as [key iv].
  destruct (Z.ltb_spec 1500 (zlen enc)); [done|]. destruct (negb _); [done|].
  destruct (judge _ _ _ _) as [|i|i n up] eqn:Ej; [done|by unfold judge in Ej; repeat case_match|].
  assert (zlen (aes_ige_decrypt key iv enc) = zlen enc) as Hz by (unfold zlen; by rewrite decrypt_length).
  assert (wf_bytes (aes_ige_decrypt key iv enc)) as Hwd by by apply decrypt_wf, Forall_drop.
  apply judge_inv in Ej as (data & pad & Hdec & -> & -> & -> & _ & _); [|done|lia].
  rewrite Hdec in Hwd, Hz. rewrite !zlen_app in Hz. pose proof (zlen_nonneg (size_bytes c data)). pose proof (zlen_nonneg pad).
  assert (zlen enc ≤ zlen r) by (unfold enc, zlen; rewrite length_drop; lia).
  split; [|simpl; lia]. apply ctor_wf; [|lia].
  apply Forall_app in Hwd as [_ Hwd]. by apply Forall_app in Hwd as [? _].
Qed.

(** ** Every datagram *)

(** The datagram starts with a tag. *)
Definition tagged (c : config) (relay : option bytes) : bool := (peerVersion c <? 9) || bool_decide (is_Some relay).

(** What becomes of a datagram under MTProto 2. *)
Definition verdict (c : config) (relay : option bytes) (mem pkt : bytes) : opened :=
  if tagged c relay && negb (bool_decide (take 16 mem = default (callID c) relay)) then Dropped
  else
    let r := if tagged c relay then drop 16 pkt else pkt in
    if (16 <=? zlen r) && bool_decide (is_Some relay) &&
       ((le_val (slice pkt 16 8) =? 0xFFFFFFFFFFFFFFFF) && (le_val (slice pkt 24 4) =? 0xFFFFFFFF))
    then RelayReply (with_offset 28 (ctor pkt (zlen pkt)))
    else if zlen r <? 40 then Dropped
    else opens c r false.

Lemma wp_open_packet (c : config) (relay : option bytes) (mem : bytes) (n : nat) (Q : opened → t → Prop) (T : t → Prop) :
  wf_bytes mem → (16 ≤ Datatypes.length mem)%nat → zlen mem < 4294967296 → (n ≤ Datatypes.length mem)%nat →
  (∀ s', useMTProto2 c = true → Q (verdict c relay mem (take n mem)) s') →
  (∀ o s', useMTProto2 c = false → opened_ok (take n mem) o → Q o s') → (∀ s', useMTProto2 c = false ∨ zlen (take n mem) < 16 → T s') →
  throws_only (open_packet c relay mem) (ctor (take n mem) (zlen (take n mem))) Q T.
Proof.
  intros Hmem H16 Hbig Hn HQ2 HQ1 HT. set (pkt := take n mem) in *.
  assert (zlen pkt ≤ zlen mem) as Hle by (unfold pkt, zlen; rewrite length_take; lia).
  assert (wf_bytes pkt) as Hpkt by by apply Forall_take.
  assert (∀ o s', (useMTProto2 c = true → o = verdict c relay mem pkt) → opened_ok pkt o → Q o s') as HQ.
  { intros o s' Ho Hok. destruct (useMTProto2 c) eqn:E; [|by apply HQ1]. rewrite Ho by done. by apply HQ2. }
  clear HQ1 HQ2. unfold verdict in HQ.
  pose proof (ctor_wf pkt Hpkt ltac:(lia)) as Hwf. unfold open_packet. apply wp_bind, wp_get, wp_bind.
  fold (tagged c relay). set (s0 := ctor pkt (zlen pkt)) in *.
  apply wp_mono with (Q' := λ (tag : option bool) (s : t), match tag with
    | None => tagged c relay && negb (bool_decide (take 16 mem = default (callID c) relay)) = true
    | Some b => tagged c relay && negb (bool_decide (take 16 mem = default (callID c) relay)) = false ∧
        wf s ∧ s = (if b then with_offset 16 s0 else s0) ∧ b = tagged c relay
    end).
  { destruct (tagged c relay) eqn:E; [|by apply wp_ret].
    apply wp_bind, at_whole; [lia..|unfold zlen; lia|]. change (slice mem (Z.to_nat 0) (Z.to_nat 16)) with (take 16 mem).
    apply wp_if; intros E1; [by apply wp_ret|].
    apply wp_bind. unfold wp at 1, Seek. simpl. destruct (Z.ltb_spec (zlen pkt) 16); [auto|].
    apply wp_ret. split_and!; [done| |done..]. constructor; [done|simpl; lia|apply Hwf|done]. }
  intros [hasPeerTag|] s; [|intros E; apply wp_ret, HQ; [by rewrite E|done]].
  intros (Etag & Hs & Hs0 & Htag). rewrite Etag in HQ.
  assert (buffer s = pkt) as Hb by (subst s; by destruct hasPeerTag).
  set (r := if tagged c relay then drop 16 pkt else pkt) in *.
  assert (rest s = r) as Hr.
  { unfold r. rewrite <- Htag. subst s. by destruct hasPeerTag. }
  apply wp_bind. unfold wp at 1, gets. pose proof (remaining_rest s Hs) as Hrem. fold (Remaining s) in Hrem. rewrite Hrem, Hr.
  assert (tagged c relay = true → 16 ≤ zlen pkt) as Hpt.
  { intros Ht. rewrite Htag in *. pose proof (wf_off s Hs) as Ho. pose proof (wf_mem s Hs). rewrite Hs0, Ht in Ho. simpl in Ho. lia. }
  assert (zlen r = zlen pkt - if tagged c relay then 16 else 0) as Hz.
  { unfold r. destruct (tagged c relay); [|lia]. specialize (Hpt eq_refl). unfold zlen in *. rewrite length_drop. lia. }
  apply wp_bind, wp_mono with (Q' := λ (sp : bool) (s' : t), s' = s ∧ sp = (16 <=? zlen r) && bool_decide (is_Some relay) &&
       ((le_val (slice pkt 16 8) =? 0xFFFFFFFFFFFFFFFF) && (le_val (slice pkt 24 4) =? 0xFFFFFFFF)) ∧
       (sp = true → tagged c relay = true)).
  { destruct ((16 <=? zlen r) && bool_decide (is_Some relay)) eqn:E; [|by apply wp_ret].
    apply andb_true_iff in E as [E1%Z.leb_le E2].
    assert (tagged c relay = true) as Ht by (unfold tagged; rewrite E2; apply orb_true_r). rewrite Ht in Hz.
    change (buffer s0) with pkt. apply wp_bind, at_whole; [lia..|]. apply wp_bind, at_whole; [lia..|]. by apply wp_ret. }
  intros special s' (-> & Esp & Hsp). rewrite <- Esp in HQ. apply wp_if; intros E0; rewrite E0 in HQ.
  { apply wp_bind. unfold wp at 1, Seek. pose proof (Hsp E0) as Ht. specialize (Hpt Ht).
    assert (BufferInputStream.length s = zlen pkt) as -> by (subst s; by destruct hasPeerTag).
    rewrite E0 in Esp. symmetry in Esp. apply andb_true_iff in Esp as [[Er%Z.leb_le _]%andb_true_iff _]. rewrite Ht in Hz.
    destruct (Z.ltb_spec (zlen pkt) 28); [lia|]. apply wp_bind, wp_get, wp_ret, HQ.
    - intros _. subst s. by destruct hasPeerTag.
    - subst s. split; [|by destruct hasPeerTag]. destruct hasPeerTag; constructor; simpl; done || lia. }
  apply wp_if; intros E1; rewrite E1 in HQ; [by apply wp_ret, HQ|]. apply Z.ltb_ge in E1.
  assert (tagged c relay = false → shortFormat c = true) as Hshort.
  { intros Hv%orb_false_iff. destruct Hv as [Hv%Z.ltb_ge _]. unfold shortFormat. destruct (Z.leb_spec 8 (peerVersion c)); [done|lia]. }
  assert (hasPeerTag = true → 16 ≤ zlen (buffer s)) as Hroom by (rewrite Hb, Htag; apply Hpt).
  assert ((if hasPeerTag then drop 16 (buffer s) else rest s) = r) as Hr'.
  { rewrite Hr. unfold r. rewrite <- Htag, Hb. by destruct hasPeerTag. }
  apply wp_if; intros E2.
  { apply wp_open2; [done|done| | |].
    - intros s'. rewrite Hr'. lia.
    - intros _. rewrite Hr'. lia.
    - intros s'. rewrite Hr'. apply HQ; [done|]. apply opens_ok; [unfold r; destruct (tagged c relay); [by apply Forall_drop|done]|].
      destruct (tagged c relay); lia. }
  apply wp_bind, wp_open1; [done|by rewrite Hr|auto|]. intros r1 s1 Hs1 Hb1' Hret.
  assert (∀ o s', opened_ok pkt o → Q o s') as HQ' by (intros; apply HQ; [congruence|done]).
  destruct r1; [by apply wp_ret, HQ'| |apply wp_bind, wp_get, wp_ret, HQ'; split; [done|by rewrite Hb1', Hb]].
  destruct (Hret eq_refl) as [Hb1 Hr1]. apply wp_open2; [done|by rewrite Hb1|auto| |].
  2:{ intros s'. apply HQ'. assert (zlen (buffer s1) = zlen pkt) as Hz1 by (by rewrite Hb1', Hb).
      assert (∀ k, wf_bytes (drop k (buffer s1)) ∧ zlen (drop k (buffer s1)) ≤ zlen pkt) as Hd.
      { intros k. split; [apply Forall_drop, Hs1|]. unfold zlen in *. rewrite length_drop. lia. }
      destruct hasPeerTag; apply opens_ok; apply Hd. }
  rewrite Hb1. intros Hs'. rewrite Hb. destruct hasPeerTag; [|rewrite Hshort in Hs' by done; done].
  unfold r in E1. rewrite <- Htag in E1. lia.
Qed.

Lemma verdict_ok c relay mem pkt :
  wf_bytes pkt → zlen pkt < 4294967296 → opened_ok pkt (verdict c relay mem pkt).
Proof.
  intros Hw Hl. unfold verdict. destruct (_ && negb _); [done|]. set (r := if tagged c relay then drop 16 pkt else pkt).
  assert (wf_bytes r ∧ zlen r ≤ zlen pkt) as [Hr Hz].
  { unfold r. destruct (tagged c relay); [|done]. split; [by apply Forall_drop|]. unfold zlen. rewrite length_drop. lia. }
  destruct (_ && _) eqn:E.
  - apply andb_true_iff in E as [[E1%Z.leb_le E2]%andb_true_iff _].
    assert (tagged c relay = true) as Ht by (unfold tagged; rewrite E2; apply orb_true_r).
    unfold r in E1. rewrite Ht in E1. unfold zlen in *. rewrite length_drop in E1.
    split; [|simpl; unfold zlen; lia]. constructor; simpl; unfold zlen; done || lia.
  - destruct (Z.ltb_spec (zlen r) 40); [done|]. by apply opens_ok.
Qed.
(** What [open_packet] hands on can be parsed. *)
Lemma wp_open_packet_ok c relay mem n (Q : opened → t → Prop) (T : t → Prop) :
  wf_bytes mem → (16 ≤ Datatypes.length mem)%nat → zlen mem < 4294967296 → (n ≤ Datatypes.length mem)%nat →
  (∀ o s', opened_ok (take n mem) o → Q o s') → (∀ s', T s') →
  throws_only (open_packet c relay mem) (ctor (take n mem) (zlen (take n mem))) Q T.
Proof.
  intros Hw H16 Hl Hn HQ HT. apply wp_open_packet; [done..| | |done].
  - intros s' _. apply HQ, verdict_ok; [by apply Forall_take|]. unfold zlen in *. rewrite length_take. lia.
  - intros o s' _. apply HQ.
Qed.

(** Whatever datagram arrives, from a relay or not, before the versions
    are known or after, decrypting it reads and writes only inside the
    buffers: [ProcessIncomingPacket] drops it, goes on to parse it, or throws
    [std::out_of_range], which the receive loop catches, and under MTProto 2
    only for a datagram of less than 16 bytes. *)
Theorem open_never_out_of_bounds (c : config) (relay : option bytes) (mem : bytes) (n : nat) :
  wf_bytes mem → (16 ≤ Datatypes.length mem)%nat → zlen mem < 4294967296 → (n ≤ Datatypes.length mem)%nat →
  wp (open_packet c relay mem) (ctor (take n mem) (zlen (take n mem))) (λ _ _, True)
    (λ e _, e = OutOfRange ∧ (useMTProto2 c = false ∨ zlen (take n mem) < 16)) (λ _, False).
Proof. intros. by apply wp_open_packet. Qed.

(** ** The receiver undoes the sender *)

Definition fp_bytes (c : config) : bytes := if shortFormat c then [] else keyFingerprint c.
Definition fp_len (c : config) : nat := if shortFormat c then 0 else 8.

Lemma slice_mid (a b d : bytes) : slice (a ++ b ++ d) (Datatypes.length a) (Datatypes.length b) = b.
Proof. unfold slice. by rewrite drop_app_length, take_app_length. Qed.

(** [opens] on the three parts of what follows the tag. *)
Lemma opens_parts c msgKey enc retry :
  Datatypes.length (fp_bytes c) = fp_len c → Datatypes.length msgKey = 16%nat →
  zlen enc ≤ 1500 → zlen enc mod 16 = 0 →
  opens c (fp_bytes c ++ msgKey ++ enc) retry =
  let '(key, iv) := KDF2 (encryptionKey c) msgKey (if isOutgoing c then 8 else 0)%nat in
  judge c msgKey (aes_ige_decrypt key iv enc) retry.
Proof.
  intros Hfp Hmk Hlen Hmod. unfold opens. fold (fp_len c).
  assert (slice (fp_bytes c ++ msgKey ++ enc) (fp_len c) 16 = msgKey) as -> by (rewrite <- Hfp, <- Hmk; apply slice_mid).
  assert (drop (fp_len c + 16) (fp_bytes c ++ msgKey ++ enc) = enc) as ->.
  { rewrite <- Hfp, <- Hmk, <- drop_drop, drop_app_length. apply drop_app_length. }
  assert (negb (shortFormat c) && negb (bool_decide (take 8 (fp_bytes c ++ msgKey ++ enc) = keyFingerprint c)) = false) as ->.
  { unfold fp_bytes, fp_len in *. destruct (shortFormat c); [done|]. rewrite bool_decide_eq_true_2; [done|].
    rewrite <- Hfp. apply take_app_length. }
  destruct (KDF2 _ _ _). destruct (Z.ltb_spec 1500 (zlen enc)); [lia|]. by rewrite Hmod.
Qed.

Lemma size_value c data rest :
  (if shortFormat c then zlen data < 32768 else zlen data < 2147483648) →
  u32 (if shortFormat c then s16 (le_val (take 2 (size_bytes c data ++ rest)))
       else s32 (le_val (take 4 (size_bytes c data ++ rest)))) = zlen data.
Proof.
  intros Hl. pose proof (zlen_nonneg data). unfold size_bytes. destruct (shortFormat c).
  - rewrite take_app_le, take_ge, le_val_le_bytes by (rewrite length_le_bytes; lia).
    change (256 ^ Z.of_nat 2) with 65536. rewrite Z.mod_small, s16_small, u32_small by lia. done.
  - rewrite take_app_le, take_ge, le_val_le_bytes by (rewrite length_le_bytes; lia).
    change (256 ^ Z.of_nat 4) with 4294967296. rewrite Z.mod_small, s32_small, u32_small by lia. done.
Qed.

Lemma opens_sealed c pad data retry :
  Datatypes.length (fp_bytes c) = fp_len c →
  zlen (size_bytes c data ++ data ++ pad) mod 16 = 0 → zlen (size_bytes c data ++ data ++ pad) ≤ 1500 → 14 ≤ zlen pad →
  opens c (sealed c (if isOutgoing c then 8 else 0) pad data) retry = Packet (ctor data (zlen data)) (zlen data) retry.
Proof.
  intros Hfp Hmod Hlen Hpad. pose proof (zlen_nonneg data) as Hd.
  assert (zlen (size_bytes c data ++ data ++ pad) = Z.of_nat (header_len c) + zlen data + zlen pad) as Hz.
  { rewrite !zlen_app. unfold zlen at 1. rewrite length_size_bytes. lia. }
  unfold sealed. set (inner := size_bytes c data ++ data ++ pad) in *.
  set (mk := msg_key _ _ _). destruct (KDF2 (encryptionKey c) mk _) as [key iv] eqn:Ek. fold (fp_bytes c).
  rewrite opens_parts by (done || apply length_msg_key || (unfold zlen; rewrite encrypt_length; done)).
  rewrite Ek, decrypt_encrypt by done. unfold judge.
  replace (Z.to_nat (if shortFormat c then 0 else 4)) with (if shortFormat c then 0%nat else 4%nat) by (by destruct (shortFormat c)).
  fold mk. rewrite bool_decide_eq_true_2 by done. 
  assert (if shortFormat c then zlen data < 32768 else zlen data < 2147483648) as Hsmall.
  { unfold header_len in Hz. destruct (shortFormat c); lia. }
  pose proof (size_value c data (data ++ pad) Hsmall) as Hv. fold inner in Hv. rewrite Hv.
  destruct (Z.ltb_spec (zlen inner - if shortFormat c then 0 else 4) (zlen data)).
  { unfold header_len in Hz. destruct (shortFormat c); lia. }
  destruct (Z.ltb_spec (zlen inner - zlen data) (if shortFormat c then 16 else 12)).
  { unfold header_len in Hz. destruct (shortFormat c); lia. }
  assert (slice inner (header_len c) (Z.to_nat (zlen data)) = data) as ->; [|done].
  unfold zlen. rewrite Nat2Z.id. rewrite <- (length_size_bytes c data). apply slice_mid.
Qed.

(** The other end of the call: the same key and versions, the other role. *)
Definition peer (c : config) : config := c <| isOutgoing := negb (isOutgoing c) |>.

(** The special replies of relays start with twelve bytes of ones. *)
Definition looks_special (relay : option bytes) (pkt : bytes) : bool :=
  bool_decide (is_Some relay) &&
  ((le_val (slice pkt 16 8) =? 0xFFFFFFFFFFFFFFFF) && (le_val (slice pkt 24 4) =? 0xFFFFFFFF)).

Definition tag_of (c : config) (relay : option bytes) : bytes := if tagged c relay then default (callID c) relay else [].

Lemma SendPacket_tag c relay rand data :
  data ≠ [] → useMTProto2 c = true → SendPacket c relay rand data = tag_of c relay ++ seal2 c rand data.
Proof.
  intros Hd Hm. unfold SendPacket, tag_of, tagged. rewrite Hm.
  destruct (Z.ltb_spec 0 (zlen data)) as [|Hz]; [|destruct data; [done|unfold zlen in Hz; simpl in Hz; lia]].
  destruct relay as [p|]; simpl; [by rewrite orb_true_r|]. rewrite orb_false_r. by destruct (peerVersion c <? 9).
Qed.

(** C24. What is sent is what arrives: under MTProto 2, in the short and in
    the long format, through a relay or directly, the packet that
    [SendPacket] builds from data of up to 1460 bytes (and any 31 random
    bytes) opens at the other end of the call to exactly that data, unless
    its first bytes happen to be the mark of a relay's own replies. *)
Theorem sealed_packet_opens (c : config) (relay : option bytes) (rand data stale : bytes) :
  useMTProto2 c = true → Datatypes.length (keyFingerprint c) = 8%nat → wf_bytes (keyFingerprint c) →
  Datatypes.length (default (callID c) relay) = 16%nat → wf_bytes (default (callID c) relay) →
  data ≠ [] → zlen data ≤ 1460 → wf_bytes data → (31 ≤ Datatypes.length rand)%nat → wf_bytes rand → wf_bytes stale →
  zlen stale ≤ 1500 →
  let pkt := SendPacket c relay rand data in
  looks_special relay pkt = false →
  ∃ s', open_packet (peer c) relay (pkt ++ stale) (ctor pkt (zlen pkt)) = Ret (Packet (ctor data (zlen data)) (zlen data) false) s'.
Proof.
  intros Hm Hfp Hfpw Htag Htagw Hd Hlen Hdw Hrand Hrandw Hstw Hst pkt Hsp.
  set (pad := take (pad_len (Datatypes.length (size_bytes c data ++ data))) rand).
  set (x := (if isOutgoing c then 0 else 8)%nat).
  assert (pkt = tag_of c relay ++ sealed c x pad data) as Hpkt by (unfold pkt; by rewrite SendPacket_tag, seal2_sealed).
  destruct (pad_len_spec (Datatypes.length (size_bytes c data ++ data))) as [Hp1 Hp2].
  assert (zlen pad = Z.of_nat (pad_len (Datatypes.length (size_bytes c data ++ data)))) as Hpad.
  { unfold pad, zlen. rewrite length_take. lia. }
  set (inner := size_bytes c data ++ data ++ pad).
  assert (zlen inner = Z.of_nat (header_len c) + zlen data + zlen pad) as Hz.
  { unfold inner. rewrite !zlen_app. unfold zlen at 1. rewrite length_size_bytes. lia. }
  assert (zlen inner mod 16 = 0) as Hmod.
  { rewrite length_app, length_size_bytes in Hp2, Hpad. rewrite Hz, Hpad. unfold zlen.
    rewrite <- !Nat2Z.inj_add. change 16 with (Z.of_nat 16). rewrite <- Nat2Z.inj_mod, Hp2. done. }
  assert (header_len c ≤ 4)%nat as Hh by (unfold header_len; destruct (shortFormat c); lia).
  assert (wf_bytes inner) as Hinw.
  { apply Forall_app. split; [unfold size_bytes; destruct (shortFormat c); apply le_bytes_wf|].
    apply Forall_app. split; [done|by apply Forall_take]. }
  assert (wf_bytes (sealed c x pad data) ∧ zlen (sealed c x pad data) = Z.of_nat (fp_len c) + 16 + zlen inner) as [Hsw Hsz].
  { unfold sealed. fold inner. set (mk := msg_key _ _ _). destruct (KDF2 _ _ _) as [key iv]. fold (fp_bytes c). split.
    - apply Forall_app. split; [unfold fp_bytes; by destruct (shortFormat c)|].
      apply Forall_app. split; [apply msg_key_wf|by apply encrypt_wf].
    - rewrite !zlen_app. unfold zlen at 1 2 3. rewrite encrypt_length.
      assert (Datatypes.length mk = 16%nat) as -> by apply length_msg_key. fold (zlen inner).
      unfold fp_bytes, fp_len, zlen. destruct (shortFormat c); simpl; lia. }
  assert (zlen (tag_of c relay) ≤ 16) as Htl by (unfold tag_of, zlen; destruct (tagged c relay); simpl; lia).
  assert (wf_bytes (pkt ++ stale)) as Hw.
  { apply Forall_app. split; [|done]. rewrite Hpkt. apply Forall_app. split; [|done].
    unfold tag_of. by destruct (tagged c relay). }
  assert (zlen pkt = zlen (tag_of c relay) + zlen (sealed c x pad data)) as Hpl by (rewrite Hpkt; apply zlen_app).
  assert (fp_len c ≤ 8)%nat as Hfl by (unfold fp_len; destruct (shortFormat c); lia).
  assert (0 < zlen data) as Hd0 by (destruct data; [done|rewrite zlen_cons; pose proof (zlen_nonneg data); lia]).
  pose proof (zlen_nonneg (tag_of c relay)) as Ht0. pose proof (zlen_nonneg stale) as Hs0.
  assert (tagged c relay = true → zlen (tag_of c relay) = 16) as Ht16.
  { intros Ht. unfold tag_of, zlen. rewrite Ht. lia. }
  assert (verdict (peer c) relay (pkt ++ stale) pkt = Packet (ctor data (zlen data)) (zlen data) false) as Hv.
  { unfold verdict. change (tagged (peer c) relay) with (tagged c relay). change (callID (peer c)) with (callID c).
    assert ((if tagged c relay then drop 16 pkt else pkt) = sealed c x pad data) as ->.
    { rewrite Hpkt. unfold tag_of. destruct (tagged c relay); [|done]. rewrite <- Htag. apply drop_app_length. }
    assert (tagged c relay && negb (bool_decide (take 16 (pkt ++ stale) = default (callID c) relay)) = false) as ->.
    { destruct (tagged c relay) eqn:Et; [|done]. rewrite bool_decide_eq_true_2; [done|].
      rewrite Hpkt, <- app_assoc. unfold tag_of. rewrite Et, <- Htag. apply take_app_length. }
    fold (looks_special relay pkt). rewrite <- andb_assoc. fold (looks_special relay pkt). rewrite Hsp, andb_false_r.
    assert (32 ≤ zlen inner) as H32 by (clear - Hmod Hz Hpad Hp1 Hd0; dlia).
    destruct (Z.ltb_spec (zlen (sealed c x pad data)) 40); [lia|].
    change (sealed c x pad data) with (sealed (peer c) x pad data).
    replace x with (if isOutgoing (peer c) then 8 else 0)%nat by (unfold x; simpl; by destruct (isOutgoing c)).
    apply opens_sealed; [|exact Hmod|change (size_bytes (peer c) data ++ data ++ pad) with inner; lia|lia].
    unfold fp_bytes, fp_len. change (shortFormat (peer c)) with (shortFormat c). by destruct (shortFormat c). }
  assert (wp (open_packet (peer c) relay (pkt ++ stale)) (ctor pkt (zlen pkt))
    (λ o _, o = Packet (ctor data (zlen data)) (zlen data) false) (λ _ _, False) (λ _, False)) as Hwp.
  { pose proof (wp_open_packet (peer c) relay (pkt ++ stale) (Datatypes.length pkt)
      (λ o _, o = Packet (ctor data (zlen data)) (zlen data) false) (λ _, False) Hw) as Hwp.
    rewrite take_app_length in Hwp. unfold wp in *.
    specialize (Hwp ltac:(rewrite length_app; unfold zlen in *; lia) ltac:(rewrite zlen_app; lia) ltac:(rewrite length_app; lia)
      ltac:(done) ltac:(simpl; congruence) ltac:(simpl; intros _ [?|?]; [congruence|lia])).
    destruct (open_packet _ _ _ _); [done|by destruct Hwp|done]. }
  unfold wp in Hwp. destruct (open_packet _ _ _ _) as [o s'| |]; [|done..]. exists s'. by rewrite Hwp.
Qed.

Lemma opens_inv c r retry i n up :
  wf_bytes r → opens c r retry = Packet i n up →
  ∃ data pad, r = sealed c (if isOutgoing c then 8 else 0) pad data ∧ i = ctor data n ∧ n = zlen data ∧ up = retry.
Proof.
  intros Hw. unfold opens. fold (fp_len c). set (mk := slice r (fp_len c) 16). set (enc := drop (fp_len c + 16) r).
  destruct (negb (shortFormat c) && _) eqn:Efp; [done|]. destruct (KDF2 _ mk _) as [key iv] eqn:Ek.
  destruct (Z.ltb_spec 1500 (zlen enc)) as [|Hlen]; [done|].
  destruct (zlen enc mod 16 =? 0) eqn:Emod; [|done]. simpl. apply Z.eqb_eq in Emod. intros Hj.
  apply judge_inv in Hj as (data & pad & Hdec & -> & -> & -> & Hpad & Hmk);
    [|by apply decrypt_wf, Forall_drop|unfold zlen; by rewrite decrypt_length].
  exists data, pad. split; [|done].
  assert (enc = aes_ige_encrypt key iv (size_bytes c data ++ data ++ pad)) as Henc by (by rewrite <- Hdec, encrypt_decrypt).
  assert (0 < Datatypes.length enc)%nat as Hpos.
  { rewrite Henc, encrypt_length, !length_app. unfold zlen in Hpad. lia. }
  assert (fp_len c + 16 ≤ Datatypes.length r)%nat as Hr by (unfold enc in Hpos; rewrite length_drop in Hpos; lia).
  assert (take (fp_len c) r = fp_bytes c) as Hfp.
  { unfold fp_len, fp_bytes in *. destruct (shortFormat c); [done|]. simpl in Efp.
    by apply negb_false_iff, bool_decide_eq_true in Efp. }
  unfold sealed. rewrite <- Hdec, <- Hmk, Ek. fold (fp_bytes c). rewrite Hdec, <- Henc, <- Hfp.
  unfold mk, enc, slice. rewrite <- drop_drop. by rewrite !take_drop.
Qed.

(** C23. Nothing else is accepted: under MTProto 2, a datagram that reaches
    the parser is, byte for byte, the tag it was expected to carry followed
    by a packet sealed with the key of the call in the role of the other
    end, and the parser sees exactly the data sealed in it. *)
Theorem accepted_packet_was_sealed (c : config) (relay : option bytes) (mem : bytes) (k : nat) i n up s' :
  useMTProto2 c = true → wf_bytes mem → (16 ≤ Datatypes.length mem)%nat → zlen mem < 4294967296 → (k ≤ Datatypes.length mem)%nat →
  Datatypes.length (default (callID c) relay) = 16%nat →
  open_packet c relay mem (ctor (take k mem) (zlen (take k mem))) = Ret (Packet i n up) s' →
  ∃ pad data, take k mem = tag_of c relay ++ sealed (peer c) (if isOutgoing (peer c) then 0 else 8) pad data ∧
    i = ctor data (zlen data) ∧ n = zlen data ∧ up = false.
Proof.
  intros Hm Hw H16 Hbig Hk Htag E.
  pose proof (wp_open_packet c relay mem k (λ o _, o = verdict c relay mem (take k mem)) (λ _, True) Hw H16 Hbig Hk) as Hwp.
  unfold wp in Hwp. rewrite E in Hwp. specialize (Hwp ltac:(done) ltac:(congruence) ltac:(done)).
  symmetry in Hwp. unfold verdict in Hwp. set (pkt := take k mem) in *.
  destruct (tagged c relay && _) eqn:Et; [done|]. set (r := if tagged c relay then drop 16 pkt else pkt) in *.
  destruct (_ && _ && _); [done|]. destruct (Z.ltb_spec (zlen r) 40) as [|Hr]; [done|].
  assert (wf_bytes pkt) as Hpw by (by apply Forall_take).
  apply opens_inv in Hwp as (data & pad & Hs & -> & -> & ->); [|unfold r; destruct (tagged c relay); [by apply Forall_drop|done]].
  exists pad, data. split; [|done].
  change (sealed (peer c)) with (sealed c).
  replace (if isOutgoing (peer c) then 0 else 8)%nat with (if isOutgoing c then 8 else 0)%nat by (simpl; by destruct (isOutgoing c)).
  rewrite <- Hs. unfold tag_of. unfold r in *. destruct (tagged c relay); [|done]. simpl in Et.
  apply negb_false_iff, bool_decide_eq_true in Et.
  assert (take 16 pkt = default (callID c) relay) as <-; [|by rewrite take_drop].
  rewrite <- Et. unfold pkt in *. rewrite take_take. f_equal.
  unfold zlen in Hr. rewrite length_drop, length_take in Hr. lia.
Qed.
End sealing.

(** Functions with the documented properties, for the examples. *)
Section example.
#[local] Instance toy_crypto : CryptoFunctions := {
  sha1 l := replicate 20 (u8 (zlen l));
  sha256 l := replicate 32 (u8 (zlen l));
  aes_ige_encrypt _ _ l := reverse l;
  aes_ige_decrypt _ _ l := reverse l;
}.
#[local] Instance toy_laws : CryptoLaws.
Proof.
  split; intros; cbv [toy_crypto sha1 sha256 aes_ige_encrypt aes_ige_decrypt]; rewrite ?length_replicate, ?length_reverse, ?reverse_involutive; try done.
  - by apply Forall_replicate, u8_range.
  - by apply Forall_replicate, u8_range.
  - by apply Forall_reverse.
  - by apply Forall_reverse.
Qed.
Import Wire.

Definition ex_key : bytes := replicate 256 7.
Definition ex_config : config :=
  SetEncryptionKey ex_key true (mkconfig [] [] [] false 9 92 true false).
Definition ex_tag : bytes := replicate 16 3.

Lemma open_never_out_of_bounds_witness :
  wp (open_packet ex_config None (replicate 64 9)) (BufferInputStream.ctor (take 50 (replicate 64 9)) (zlen (take 50 (replicate 64 9))))
    (λ _ _, True) (λ e _, e = OutOfRange ∧ (useMTProto2 ex_config = false ∨ zlen (take 50 (replicate 64 9)) < 16)) (λ _, False).
Proof.
  apply (open_never_out_of_bounds ex_config None (replicate 64 9) 50);
    [apply Forall_replicate; lia|simpl; lia|unfold zlen; simpl; lia|simpl; lia].
Defined.

Lemma sealed_packet_opens_witness :
  ∃ s', open_packet (peer ex_config) (Some ex_tag) (SendPacket ex_config (Some ex_tag) (replicate 31 5) [1; 2; 3] ++ [0])
      (BufferInputStream.ctor (SendPacket ex_config (Some ex_tag) (replicate 31 5) [1; 2; 3])
        (zlen (SendPacket ex_config (Some ex_tag) (replicate 31 5) [1; 2; 3])))
    = Ret (Packet (BufferInputStream.ctor [1; 2; 3] (zlen [1; 2; 3])) (zlen [1; 2; 3]) false) s'.
Proof.
  apply (sealed_packet_opens ex_config (Some ex_tag) (replicate 31 5) [1; 2; 3] [0]); try reflexivity; try discriminate;
    try (repeat constructor; vm_compute; done).
Defined.

Definition ex_datagram : bytes := SendPacket ex_config (Some ex_tag) (replicate 31 5) [1; 2; 3].
Lemma accepted_packet_was_sealed_witness :
  ∃ pad data, take 64 ex_datagram = tag_of (peer ex_config) (Some ex_tag) ++
      sealed (peer (peer ex_config)) (if isOutgoing (peer (peer ex_config)) then 0 else 8) pad data ∧
    BufferInputStream.ctor [1; 2; 3] 3 = BufferInputStream.ctor data (zlen data) ∧ 3 = zlen data ∧ false = false.
Proof.
  eapply (accepted_packet_was_sealed (peer ex_config) (Some ex_tag) ex_datagram 64);
    [reflexivity|repeat constructor; vm_compute; done|vm_compute; lia|vm_compute; reflexivity|vm_compute; lia|reflexivity|vm_compute; reflexivity].
Defined.
End example.
