(* ===== verification/Packet.v ===== *)
(** * libtgvoip/VoIPController.cpp: the header of a packet

    What [WritePacketHeader] puts in front of the data of a packet and what
    [ProcessIncomingPacket] reads back after the decryption ([Wire]): the
    format of protocol 8 and later, and the two TL blocks of the versions
    before it ([decryptedAudioBlock] while the call is being set up,
    [simpleAudioBlock] afterwards).  The sequence numbers and the extra data
    in the header are those of [Link]. *)

From Stdlib Require Import ZArith Lia SpecFloat List.
From stdpp Require Import base tactics list numbers option.
From S2P Require Import Prelude Words Double Memory Buffers Streams Seq Link Wire.
From stdpp Require Import list.
Open Scope Z_scope.

Module Packet.

Definition PKT_INIT : Z := 1.
Definition PKT_INIT_ACK : Z := 2.
Definition PKT_STREAM_STATE : Z := 3.
Definition PKT_STREAM_DATA : Z := 4.
Definition PKT_PING : Z := 6.
Definition PKT_PONG : Z := 7.
Definition PKT_STREAM_DATA_X2 : Z := 8.
Definition PKT_STREAM_DATA_X3 : Z := 9.
Definition PKT_LAN_ENDPOINT : Z := 10.
Definition PKT_NETWORK_CHANGED : Z := 11.
Definition PKT_NOP : Z := 14.
Definition PKT_STREAM_EC : Z := 17.

Definition PROTOCOL_NAME : Z := 0x50567247.
Definition TLID_DECRYPTED_AUDIO_BLOCK : Z := 0xDBF948C1.
Definition TLID_SIMPLE_AUDIO_BLOCK : Z := 0xCC0D0E76.

Definition PFLAG_HAS_DATA : Z := 1.
Definition PFLAG_HAS_EXTRA : Z := 2.
Definition PFLAG_HAS_CALL_ID : Z := 4.
Definition PFLAG_HAS_PROTO : Z := 8.
Definition PFLAG_HAS_SEQ : Z := 16.
Definition PFLAG_HAS_RECENT_RECV : Z := 32.
Definition XPFLAG_HAS_EXTRA : Z := 1.

(** The enumeration of errors. *)
Inductive Error := ERROR_UNKNOWN | ERROR_INCOMPATIBLE | ERROR_TIMEOUT | ERROR_AUDIO_IO | ERROR_PROXY.

(** [flags & bit] as a condition. *)
Definition has (flags bit : Z) : bool := negb (Z.land flags bit =? 0).

(** [pad4(x)] and [PAD4]. *)
Definition pad4 (x : Z) : Z :=
  let r := 4 - Z.rem (x + (if x <=? 253 then 1 else 0)) 4 in
  if r =? 4 then 0 else r.

(** The locals of [ProcessIncomingPacket] the header is read into. *)
Record header := mkheader {
  type : Z; ackId : Z; pseq : Z; acks : Z; pflags : Z; packetInnerLen : Z;
}.

(** What follows from a header: the packet is processed, ignored, or fails
    the call. *)
Inductive parsed := Header (h : header) | Ignored | CallFailed (e : Error).

Section ops.
Context `{Clock}.

(** ** Writing *)
Section writing.
Import BufferOutputStream.

(** A TL length: one byte, or 254 and three. *)
Definition write_tl_length (length : Z) : M t unit :=
  if length <=? 253 then WriteByte (u8 length)
  else
    WriteByte 254;;
    WriteByte (Z.land length 255);;
    WriteByte (Z.land (Z.shiftr length 8) 255);;
    WriteByte (Z.land (Z.shiftr length 16) 255).

Fixpoint write_extra_list (l : list Link.UnacknowledgedExtraData) : M t unit :=
  match l with
  | [] => mret tt
  | x :: l' =>
      assert_ (zlen (Link.x_data x) <=? 254);;
      WriteByte (u8 (zlen (Link.x_data x) + 1));;
      WriteByte (Link.x_type x);;
      WriteBytes (Link.x_data x);;
      write_extra_list l'
  end.

(** The extras of a header. *)
Definition write_extras (pseq : Z) : M (t * Link.t) unit :=
  xs ← on_self (Link.extras_for_header pseq);
  match xs with
  | [] => on_stream (WriteByte 0)
  | _ => on_stream (WriteByte XPFLAG_HAS_EXTRA;; WriteByte (u8 (zlen xs));; write_extra_list xs)
  end.

(** The numbers every header has. *)
Definition write_numbers (s : Link.t) (pseq : Z) : M t unit :=
  WriteInt32 (s32 (Link.lastRemoteSeq s));;
  WriteInt32 (s32 pseq);;
  WriteInt32 (s32 (Link.acks_mask s)).

(** [randomID] and the seven random bytes of a TL block. *)
Definition write_random (rand : bytes) : M t unit :=
  WriteInt64 (s64 (le_val (take 8 rand)));;
  WriteByte 7;;
  WriteBytes (slice rand 8 7).

(** [WritePacketHeader(pseq, s, type, length)]; [rand] are the random
    bytes. *)
Definition WritePacketHeader (c : Wire.config) (rand : bytes) (pseq type length : Z) : M (t * Link.t) unit :=
  s ← on_self get;
  (if Wire.shortFormat c then
     on_stream (WriteByte type;; write_numbers s pseq);;
     write_extras pseq
   else if Wire.waiting c then
     let pflags := Z.lor PFLAG_HAS_RECENT_RECV PFLAG_HAS_SEQ in
     let pflags := if 0 <? length then Z.lor pflags PFLAG_HAS_DATA else pflags in
     let pflags := Z.lor pflags (Z.lor PFLAG_HAS_CALL_ID PFLAG_HAS_PROTO) in
     let pflags := Z.lor pflags (Z.shiftl type 24) in
     on_stream (
       WriteInt32 (s32 TLID_DECRYPTED_AUDIO_BLOCK);;
       write_random rand;;
       WriteInt32 (s32 pflags);;
       WriteBytes (Wire.callID c);;
       write_numbers s pseq;;
       WriteInt32 PROTOCOL_NAME;;
       (if 0 <? length then write_tl_length length else mret tt))
   else
     on_stream (
       WriteInt32 (s32 TLID_SIMPLE_AUDIO_BLOCK);;
       write_random rand;;
       let lenWithHeader := u32 (length + 13) in
       (if 0 <? lenWithHeader then write_tl_length lenWithHeader else mret tt);;
       WriteByte type;;
       write_numbers s pseq);;
     (if 6 <=? Wire.peerVersion c then write_extras pseq else mret tt));;
  on_self (Link.remember_sent pseq).

(** The part of [SendOrEnqueuePacket] that makes the packet to encrypt. *)
Definition packet (c : Wire.config) (rand : bytes) (pkt : Link.PendingOutgoingPacket) : M Link.t bytes :=
  with_stream (ctor 1500)
    (WritePacketHeader c rand (Link.p_seq pkt) (Link.p_type pkt) (u32 (Link.p_len pkt));;
     on_stream (WriteBytes (Link.p_data pkt));;
     on_stream (gets data)).
End writing.

(** ** Reading *)
Section reading.
Import BufferInputStream.

(** A TL string that is skipped. *)
Definition skip_string : M t unit :=
  len ← ReadTlLength;
  o ← gets GetOffset;
  Seek (u64 (o + len + pad4 len)).

(** The header is read as [ProcessIncomingPacket] does; [innerLen] is the
    length of the inner packet of MTProto 2. *)
Definition read_header (c : Wire.config) (innerLen : Z) : M t parsed :=
  if Wire.shortFormat c then
    type ← ReadByte;
    ackId ← ReadInt32;
    pseq ← ReadInt32;
    acks ← ReadInt32;
    pflags ← ReadByte;
    mret (Header (mkheader type (u32 ackId) (u32 pseq) (u32 acks) pflags (u64 (innerLen - 14))))
  else
    tlid ← ReadInt32;
    if u32 tlid =? TLID_DECRYPTED_AUDIO_BLOCK then
      _ ← ReadInt64;
      skip_string;;
      flags ← ReadInt32;
      let flags := u32 flags in
      let type := Z.land (Z.shiftr flags 24) 255 in
      if negb (has flags PFLAG_HAS_SEQ && has flags PFLAG_HAS_RECENT_RECV) then mret Ignored
      else
        goodId ← (if has flags PFLAG_HAS_CALL_ID then
                    pktCallID ← ReadBytes 16;
                    mret (bool_decide (pktCallID = Wire.callID c))
                  else mret true);
        if negb goodId then mret (CallFailed ERROR_UNKNOWN)
        else
          ackId ← ReadInt32;
          pseq ← ReadInt32;
          acks ← ReadInt32;
          goodProto ← (if has flags PFLAG_HAS_PROTO then
                         proto ← ReadInt32;
                         mret (u32 proto =? PROTOCOL_NAME)
                       else mret true);
          if negb goodProto then mret (CallFailed ERROR_INCOMPATIBLE)
          else
            (if has flags PFLAG_HAS_EXTRA then skip_string else mret tt);;
            packetInnerLen ← (if has flags PFLAG_HAS_DATA then ReadTlLength else mret 0);
            mret (Header (mkheader type (u32 ackId) (u32 pseq) (u32 acks) 0 packetInnerLen))
    else if u32 tlid =? TLID_SIMPLE_AUDIO_BLOCK then
      _ ← ReadInt64;
      skip_string;;
      packetInnerLen ← ReadTlLength;
      type ← ReadByte;
      ackId ← ReadInt32;
      pseq ← ReadInt32;
      acks ← ReadInt32;
      pflags ← (if 6 <=? Wire.peerVersion c then ReadByte else mret 0);
      mret (Header (mkheader type (u32 ackId) (u32 pseq) (u32 acks) pflags packetInnerLen))
    else mret Ignored.

(** The extras of a packet, each processed before the next one is read. *)
Fixpoint each_extra {S} (process : bytes → M S unit) (n : nat) : M (t * S) unit :=
  match n with
  | O => mret tt
  | Datatypes.S n' =>
      extraLen ← on_stream ReadByte;
      xbuffer ← on_stream (ReadBytes extraLen);
      on_self (process xbuffer);;
      each_extra process n'
  end.
Definition read_extras {S} (process : bytes → M S unit) (h : header) : M (t * S) unit :=
  if has (pflags h) XPFLAG_HAS_EXTRA then
    extraCount ← on_stream ReadByte;
    each_extra process (Z.to_nat extraCount)
  else mret tt.
End reading.
End ops.
End Packet.

(* ------------------------------------------------------------------ *)
(** ** The bytes of a header *)

Lemma zlen_le_bytes n z : zlen (le_bytes n z) = Z.of_nat n.
Proof. unfold zlen. by rewrite length_le_bytes. Qed.
(** Lengths of written data. *)
Ltac zl := rewrite ?zlen_app, ?zlen_le_bytes, ?zlen_cons, ?zlen_nil in *; lia.

Section header.
Context {CK : Clock}.
Import Packet.

Definition numbers_bytes (s : Link.t) (pseq : Z) : bytes :=
  le_bytes 4 (s32 (Link.lastRemoteSeq s)) ++ le_bytes 4 (s32 pseq) ++ le_bytes 4 (s32 (Link.acks_mask s)).
Definition tl_length_bytes (n : Z) : bytes :=
  if n <=? 253 then [u8 n] else [254; Z.land n 255; Z.land (Z.shiftr n 8) 255; Z.land (Z.shiftr n 16) 255].
Definition random_bytes (rand : bytes) : bytes :=
  le_bytes 8 (s64 (le_val (take 8 rand))) ++ [7] ++ slice rand 8 7.
Definition extra_bytes (x : Link.UnacknowledgedExtraData) : bytes :=
  [u8 (zlen (Link.x_data x) + 1); Link.x_type x] ++ Link.x_data x.
Definition extras_bytes (xs : list Link.UnacknowledgedExtraData) : bytes :=
  match xs with
  | [] => [0]
  | _ => [XPFLAG_HAS_EXTRA; u8 (zlen xs)] ++ mjoin (extra_bytes <$> xs)
  end.

(** Does the format of this packet have room for extras? *)
Definition carries (c : Wire.config) : bool :=
  Wire.shortFormat c || (negb (Wire.waiting c) && (6 <=? Wire.peerVersion c)).

(** The flags of a [decryptedAudioBlock]. *)
Definition block_flags (type len : Z) : Z :=
  let pflags := Z.lor PFLAG_HAS_RECENT_RECV PFLAG_HAS_SEQ in
  let pflags := if 0 <? len then Z.lor pflags PFLAG_HAS_DATA else pflags in
  Z.lor (Z.lor pflags (Z.lor PFLAG_HAS_CALL_ID PFLAG_HAS_PROTO)) (Z.shiftl type 24).

Definition header_bytes (c : Wire.config) (rand : bytes) (s : Link.t) (pseq type len : Z) : bytes :=
  if Wire.shortFormat c then [type] ++ numbers_bytes s pseq ++ extras_bytes (Link.currentExtras s)
  else if Wire.waiting c then
    le_bytes 4 (s32 TLID_DECRYPTED_AUDIO_BLOCK) ++ random_bytes rand ++ le_bytes 4 (s32 (block_flags type len)) ++
    Wire.callID c ++ numbers_bytes s pseq ++ le_bytes 4 PROTOCOL_NAME ++ (if 0 <? len then tl_length_bytes len else [])
  else
    le_bytes 4 (s32 TLID_SIMPLE_AUDIO_BLOCK) ++ random_bytes rand ++
    (if 0 <? u32 (len + 13) then tl_length_bytes (u32 (len + 13)) else []) ++
    [type] ++ numbers_bytes s pseq ++ (if 6 <=? Wire.peerVersion c then extras_bytes (Link.currentExtras s) else []).

(** What sending does to the state. *)
Definition sent (c : Wire.config) (pseq : Z) : M Link.t unit :=
  (if carries c then _ ← Link.extras_for_header pseq; mret tt else mret tt);;
  Link.remember_sent pseq.

Section writing.
Import BufferOutputStream.
Context (T : exn → t → Prop) (C : crash → Prop) (d : bytes) (o : t) (Q : unit → t → Prop) (Hg : grows d o).

#[local] Ltac emit :=
  first [eapply wp_WriteByte | eapply wp_WriteInt32 | eapply wp_WriteInt64 | eapply wp_WriteBytes];
  [eassumption | zl | let o := fresh "o" in let Hg := fresh "Hg" in intros o Hg; rewrite <- ?app_assoc in Hg].

Lemma wp_write_numbers s pseq :
  zlen d ≤ 549755813888 → (∀ o', grows (d ++ numbers_bytes s pseq) o' → Q tt o') → wp (write_numbers s pseq) o Q T C.
Proof. intros Hd HQ. unfold write_numbers. do 2 (apply wp_bind; emit). by emit; apply HQ. Qed.

Lemma wp_write_random rand :
  zlen d + zlen rand ≤ 549755813888 → (∀ o', grows (d ++ random_bytes rand) o' → Q tt o') → wp (write_random rand) o Q T C.
Proof.
  intros Hd HQ. assert (zlen (slice rand 8 7) ≤ zlen rand).
  { unfold zlen, slice. rewrite length_take, length_drop. lia. }
  pose proof (zlen_nonneg rand). unfold write_random. do 2 (apply wp_bind; emit). by emit; apply HQ.
Qed.

Lemma wp_write_tl_length n :
  zlen d ≤ 549755813888 → (∀ o', grows (d ++ tl_length_bytes n) o' → Q tt o') → wp (write_tl_length n) o Q T C.
Proof.
  unfold tl_length_bytes, write_tl_length. intros Hd HQ. destruct (n <=? 253); [by emit; apply HQ|].
  do 3 (apply wp_bind; emit). by emit; apply HQ.
Qed.
End writing.

Import BufferOutputStream.

Lemma wp_write_extra_list l d o (Q : unit → t → Prop) T C :
  grows d o → Forall (λ x, zlen (Link.x_data x) ≤ 254) l → zlen d + 256 * zlen l ≤ 1099511627776 →
  (∀ o', grows (d ++ mjoin (extra_bytes <$> l)) o' → Q tt o') → wp (write_extra_list l) o Q T C.
Proof.
  revert d o. induction l as [|x l IH]; intros d o Hg Hl Hd HQ.
  - apply wp_ret, HQ. simpl. by rewrite app_nil_r.
  - apply Forall_cons in Hl as [Hx Hl]. rewrite zlen_cons in Hd. pose proof (zlen_nonneg l).
    pose proof (zlen_nonneg (Link.x_data x)). cbn [write_extra_list]. apply wp_bind.
    unfold wp at 1, assert_. destruct (Z.leb_spec (zlen (Link.x_data x)) 254); [|lia].
    apply wp_bind. eapply wp_WriteByte; [done|zl|intros o1 Hg1].
    apply wp_bind. eapply wp_WriteByte; [done|zl|intros o2 Hg2].
    apply wp_bind. eapply wp_WriteBytes; [done|zl|intros o3 Hg3].
    eapply IH; [done..|zl|]. intros o4 Hg4. apply HQ. cbn [fmap list_fmap mjoin list_join]. unfold extra_bytes at 1.
    rewrite <- !app_assoc in Hg4. rewrite <- !app_assoc. exact Hg4.
Qed.

(** The extras fit in their length bytes, and all of them in the header. *)
Record sendable (s : Link.t) : Prop := {
  sendable_length : Forall (λ x, zlen (Link.x_data x) ≤ 254) (Link.currentExtras s);
  sendable_count : zlen (Link.currentExtras s) ≤ 255;
}.

Lemma wp_write_extras pseq d o s (Q : unit → t * Link.t → Prop) :
  grows d o → sendable s → zlen d ≤ 549755813888 →
  (∀ o' s', Link.extras_for_header pseq s = Ret (Link.currentExtras s) s' →
            grows (d ++ extras_bytes (Link.currentExtras s)) o' → Q tt (o', s')) →
  wp (write_extras pseq) (o, s) Q (λ _ _, False) (λ _, False).
Proof.
  intros Hg [Hl Hn] Hd HQ.
  assert (∃ s', Link.extras_for_header pseq s = Ret (Link.currentExtras s) s') as [s' Hx] by by eexists.
  specialize (λ o', HQ o' s' Hx). unfold write_extras. apply wp_bind, wp_on_self. unfold wp at 1. rewrite Hx.
  cbv beta. unfold extras_bytes in HQ. destruct (Link.currentExtras s) as [|x l].
  - apply wp_on_stream. eapply wp_WriteByte; [done|zl|by auto].
  - apply wp_on_stream, wp_bind. eapply wp_WriteByte; [done|zl|intros o1 Hg1].
    apply wp_bind. eapply wp_WriteByte; [done|zl|intros o2 Hg2].
    eapply wp_write_extra_list; [done..|zl|]. intros o3 Hg3. apply HQ. by rewrite <- !app_assoc in Hg3.
Qed.

Lemma extras_then_remember pseq s xs s1 s2 :
  Link.extras_for_header pseq s = Ret xs s1 → Link.remember_sent pseq s1 = Ret tt s2 →
  ((_ ← Link.extras_for_header pseq; mret tt);; Link.remember_sent pseq) s = Ret tt s2.
Proof. unfold mbind, M_bind. intros ->. done. Qed.

Lemma zlen_numbers s pseq : zlen (numbers_bytes s pseq) = 12.
Proof. unfold numbers_bytes. zl. Qed.
Lemma zlen_random rand : zlen (random_bytes rand) ≤ zlen rand + 9.
Proof.
  unfold random_bytes. assert (zlen (slice rand 8 7) ≤ zlen rand); [|zl].
  unfold zlen, slice. rewrite length_take, length_drop. lia.
Qed.
Lemma zlen_tl_length n : zlen (tl_length_bytes n) ≤ 4.
Proof. unfold tl_length_bytes. destruct (_ <=? _); zl. Qed.

Lemma wp_WritePacketHeader c rand pseq type len s o (Q : unit → t * Link.t → Prop) :
  grows [] o → sendable s → zlen rand ≤ 1048576 → zlen (Wire.callID c) ≤ 1048576 →
  (∀ o' s', sent c pseq s = Ret tt s' → grows (header_bytes c rand s pseq type len) o' → Q tt (o', s')) →
  wp (WritePacketHeader c rand pseq type len) (o, s) Q (λ _ _, False) (λ _, False).
Proof.
  intros Hg Hs Hr Hc HQ. unfold WritePacketHeader. apply wp_bind, wp_on_self. unfold wp at 1, get. cbv beta iota.
  unfold sent, carries, header_bytes in HQ. apply wp_bind.
  assert (∀ s0, ∃ s', Link.remember_sent pseq s0 = Ret tt s') as Hrem by (intros; by eexists).
  pose proof (zlen_random rand). pose proof (zlen_numbers s pseq). pose proof (zlen_nonneg rand).
  pose proof (zlen_nonneg (Wire.callID c)).
  destruct (Wire.shortFormat c); [|destruct (Wire.waiting c)].
  - apply wp_bind, wp_on_stream, wp_bind. eapply wp_WriteByte; [done|zl|intros o1 Hg1].
    eapply wp_write_numbers; [done|zl|intros o2 Hg2]. eapply wp_write_extras; [done..|zl|intros o3 s3 Hx Hg3].
    destruct (Hrem s3) as [s4 H4]. apply wp_on_self. unfold wp. rewrite H4. apply HQ.
    + exact (extras_then_remember _ _ _ _ _ Hx H4).
    + by rewrite <- !app_assoc in Hg3.
  - destruct (Hrem s) as [s4 H4].
    apply wp_on_stream, wp_bind. eapply wp_WriteInt32; [done|zl|intros o1 Hg1].
    apply wp_bind. eapply wp_write_random; [done|zl|intros o2 Hg2].
    apply wp_bind. eapply wp_WriteInt32; [done|zl|intros o3 Hg3].
    apply wp_bind. eapply wp_WriteBytes; [done|zl|intros o5 Hg5].
    apply wp_bind. eapply wp_write_numbers; [done|zl|intros o6 Hg6].
    apply wp_bind. eapply wp_WriteInt32; [done|zl|intros o7 Hg7].
    unfold block_flags in HQ. destruct (0 <? len).
    + eapply wp_write_tl_length; [done|zl|intros o8 Hg8].
      apply wp_on_self. unfold wp. rewrite H4. apply HQ; [done|by rewrite <- !app_assoc in Hg8].
    + apply wp_ret, wp_on_self. unfold wp. rewrite H4. apply HQ; [done|]. rewrite <- !app_assoc in Hg7. by rewrite app_nil_r.
  - apply wp_bind, wp_on_stream, wp_bind. eapply wp_WriteInt32; [done|zl|intros o1 Hg1].
    apply wp_bind. eapply wp_write_random; [done|zl|intros o2 Hg2].
    apply wp_bind. set (lb := if 0 <? u32 (len + 13) then tl_length_bytes (u32 (len + 13)) else []) in *.
    assert (zlen lb ≤ 4) by (unfold lb; destruct (0 <? _); [apply zlen_tl_length|zl]).
    apply wp_mono with (Q' := λ (_ : unit) o', grows (le_bytes 4 (s32 TLID_SIMPLE_AUDIO_BLOCK) ++ random_bytes rand ++ lb) o').
    { unfold lb. destruct (0 <? _).
      - eapply wp_write_tl_length; [done|zl|intros o8 Hg8]. by rewrite <- !app_assoc in Hg8.
      - apply wp_ret. by rewrite app_nil_r. }
    intros [] o3 Hg3. apply wp_bind. eapply wp_WriteByte; [done|zl|intros o4 Hg4].
    eapply wp_write_numbers; [done|zl|intros o5 Hg5]. rewrite <- !app_assoc in Hg5.
    change (negb false && (6 <=? Wire.peerVersion c)) with (6 <=? Wire.peerVersion c) in HQ.
    cbn [orb] in HQ. destruct (6 <=? Wire.peerVersion c).
    + eapply wp_write_extras; [done..|zl|intros o6 s6 Hx Hg6]. destruct (Hrem s6) as [s7 H7].
      apply wp_on_self. unfold wp. rewrite H7. apply HQ; [exact (extras_then_remember _ _ _ _ _ Hx H7)|].
      by rewrite <- !app_assoc in Hg6.
    + destruct (Hrem s) as [s7 H7]. apply wp_ret, wp_on_self. unfold wp. rewrite H7. apply HQ; [done|].
      by rewrite app_nil_r.
Qed.

Lemma zlen_extra_list l :
  Forall (λ x, zlen (Link.x_data x) ≤ 254) l → zlen (mjoin (extra_bytes <$> l)) ≤ 256 * zlen l.
Proof.
  induction 1 as [|x l Hx _ IH]; [done|]. 
  change (mjoin (extra_bytes <$> x :: l)) with (([u8 (zlen (Link.x_data x) + 1); Link.x_type x] ++ Link.x_data x) ++ mjoin (extra_bytes <$> l)).
  zl.
Qed.
Lemma zlen_extras s : sendable s → zlen (extras_bytes (Link.currentExtras s)) ≤ 65536.
Proof.
  intros [Hl Hn]. apply zlen_extra_list in Hl. unfold extras_bytes. destruct (Link.currentExtras s) as [|x l]; [zl|].
  zl.
Qed.
Lemma zlen_header c rand s pseq type len :
  sendable s → zlen rand ≤ 1048576 → zlen (Wire.callID c) ≤ 1048576 →
  zlen (header_bytes c rand s pseq type len) ≤ 4194304.
Proof.
  intros Hs Hr Hc. pose proof (zlen_extras s Hs). pose proof (zlen_random rand). pose proof (zlen_numbers s pseq).
  pose proof (zlen_tl_length len). pose proof (zlen_tl_length (u32 (len + 13))).
  unfold header_bytes. destruct (Wire.shortFormat c); [zl|]. destruct (Wire.waiting c).
  - destruct (0 <? len); zl.
  - destruct (0 <? u32 (len + 13)), (6 <=? Wire.peerVersion c); zl.
Qed.

(** The packet is the header and the data. *)
Lemma packet_run c rand pkt s :
  sendable s → zlen rand ≤ 1048576 → zlen (Wire.callID c) ≤ 1048576 → zlen (Link.p_data pkt) ≤ 1048576 →
  ∃ s', sent c (Link.p_seq pkt) s = Ret tt s' ∧
    packet c rand pkt s =
      Ret (header_bytes c rand s (Link.p_seq pkt) (Link.p_type pkt) (u32 (Link.p_len pkt)) ++ Link.p_data pkt) s'.
Proof.
  intros Hs Hr Hc Hd.
  enough (wp (packet c rand pkt) s (λ b s', sent c (Link.p_seq pkt) s = Ret tt s' ∧
    b = header_bytes c rand s (Link.p_seq pkt) (Link.p_type pkt) (u32 (Link.p_len pkt)) ++ Link.p_data pkt)
    (λ _ _, False) (λ _, False)) as Hwp.
  { unfold wp in Hwp. destruct (packet c rand pkt s) as [b s'| |]; [|done..]. destruct Hwp as [? ->]. by exists s'. }
  apply wp_with_stream, wp_bind. eapply wp_WritePacketHeader; [apply grows_ctor; lia|done..|].
  intros o1 s1 H1 Hg1. apply wp_bind, wp_on_stream. eapply wp_WriteBytes; [done| |].
  { pose proof (zlen_header c rand s (Link.p_seq pkt) (Link.p_type pkt) (u32 (Link.p_len pkt)) Hs Hr Hc). lia. }
  intros o2 Hg2. apply wp_on_stream. split; [done|]. apply (grows_data _ _ Hg2).
Qed.

(** ** Reading the header back *)

(** What the reader takes for the header. *)
Definition extra_flag (c : Wire.config) (s : Link.t) : Z :=
  if carries c && negb (bool_decide (Link.currentExtras s = [])) then XPFLAG_HAS_EXTRA else 0.
Definition carried_bytes (c : Wire.config) (s : Link.t) : bytes :=
  if carries c then drop 1 (extras_bytes (Link.currentExtras s)) else [].
Definition inner_len (c : Wire.config) (innerLen len : Z) : Z :=
  if Wire.shortFormat c then u64 (innerLen - 14) else if Wire.waiting c then len else len + 13.

(** Two ends that agree on the format; the reader need not know whether the
    call was being set up when the packet was written. *)
Record agree (c c' : Wire.config) : Prop := {
  agree_format : Wire.shortFormat c = Wire.shortFormat c';
  agree_extras : Wire.shortFormat c = false → Wire.waiting c = false → (6 <=? Wire.peerVersion c) = (6 <=? Wire.peerVersion c');
  agree_callID : Wire.callID c = Wire.callID c';
}.

Lemma acks_mask_u32 s : is_u32 (Link.acks_mask s).
Proof.
  assert (∀ l a, is_u32 a → is_u32 (foldl Link.acks_step a l)) as Hf; [|apply Hf; lia].
  intros l. induction l as [|[i x] l IH]; intros a Ha; [done|].
  cbn [foldl]. apply IH. unfold Link.acks_step.
  assert (is_u32 (if D.gtb x D.zero then Z.lor a 1 else a)).
  { destruct (D.gtb x D.zero); [|done]. change 4294967296 with (2 ^ 32). apply lor_bound; lia. }
  destruct (_ <? _)%nat; auto with tg.
Qed.

Section reading.
Import BufferInputStream.
Context (T : exn → t → Prop) (C : crash → Prop).

Lemma wp_skip_string l tl x (Q : unit → t → Prop) :
  wf x → zlen l = 7 → rest x = [7] ++ l ++ tl → (∀ x', wf x' → rest x' = tl → Q tt x') → wp skip_string x Q T C.
Proof.
  intros Hwf Hl Hr HQ. apply wp_bind. eapply wp_ReadTlLength_short; [done| |exact Hr|]; [lia|]. intros x1 Hw1 Hr1.
  apply wp_bind. unfold wp at 1, gets. change (pad4 7) with 0. unfold GetOffset.
  pose proof (wf_mem x1 Hw1) as Hm. pose proof (wf_off x1 Hw1) as Ho. pose proof (wf_size x1 Hw1) as Hs.
  assert (zlen (rest x1) = zlen (buffer x1) - offset x1) as Hz.
  { unfold rest, zlen in *. rewrite length_drop. lia. }
  rewrite Hr1 in Hz. pose proof (zlen_nonneg tl). rewrite zlen_app in Hz.
  rewrite u64_small by lia. apply wp_Seek; [done|lia|]. intros x2 Hw2 Hr2. apply HQ; [done|].
  rewrite Hr2. replace (Z.to_nat (offset x1 + 7 + 0)) with (Z.to_nat (offset x1) + 7)%nat by lia.
  rewrite <- drop_drop. change (drop (Z.to_nat (offset x1)) (buffer x1)) with (rest x1). rewrite Hr1.
  unfold zlen in Hl. by rewrite drop_app_length' by lia.
Qed.

Lemma wp_ReadTlLength n tl x (Q : Z → t → Prop) :
  wf x → 0 ≤ n < 16777216 → rest x = tl_length_bytes n ++ tl → (∀ x', wf x' → rest x' = tl → Q n x') →
  wp ReadTlLength x Q T C.
Proof.
  intros Hwf Hn Hr HQ. unfold tl_length_bytes in Hr. destruct (Z.leb_spec n 253).
  - rewrite u8_small in Hr by lia. eapply wp_ReadTlLength_short; [done| |exact Hr|done]. lia.
  - assert (rest x = 254 :: le_bytes 3 n ++ tl) as Hr'.
    { rewrite Hr. cbn [le_bytes app]. by rewrite Z.shiftr_shiftr by lia. }
    eapply wp_ReadTlLength_long; [done|exact Hr'|]. rewrite le_val_le_bytes. change (256 ^ Z.of_nat 3) with 16777216.
    by rewrite Z.mod_small by lia.
Qed.
End reading.

Section numbers.
Import BufferInputStream.
Context (T : exn → t → Prop) (C : crash → Prop).

(** The three numbers of a header. *)
Lemma wp_read_numbers {B} s pseq tl x (k : Z → Z → Z → M t B) (Q : B → t → Prop) :
  wf x → rest x = numbers_bytes s pseq ++ tl → is_u32 (Link.lastRemoteSeq s) → is_u32 pseq →
  (∀ a b c x', wf x' → rest x' = tl → u32 a = Link.lastRemoteSeq s → u32 b = pseq → u32 c = Link.acks_mask s →
     wp (k a b c) x' Q T C) →
  wp (a ← ReadInt32; b ← ReadInt32; c ← ReadInt32; k a b c) x Q T C.
Proof.
  intros Hwf Hr Hl Hp HQ. unfold numbers_bytes in Hr. rewrite <- !app_assoc in Hr.
  apply wp_bind. eapply wp_ReadInt32; [done|exact Hr|]. intros x1 Hw1 Hr1.
  apply wp_bind. eapply wp_ReadInt32; [done|exact Hr1|]. intros x2 Hw2 Hr2.
  apply wp_bind. eapply wp_ReadInt32; [done|exact Hr2|]. intros x3 Hw3 Hr3.
  apply HQ; [done..|rewrite !u32_s32|rewrite !u32_s32|rewrite !u32_s32]; apply u32_small; try done. apply acks_mask_u32.
Qed.
End numbers.

Lemma extras_bytes_flag s :
  extras_bytes (Link.currentExtras s) =
  (if negb (bool_decide (Link.currentExtras s = [])) then XPFLAG_HAS_EXTRA else 0) :: drop 1 (extras_bytes (Link.currentExtras s)).
Proof. unfold extras_bytes. by destruct (Link.currentExtras s). Qed.

(** The fields of the flags, for every type of packet. *)
Lemma block_flags_fields type len :
  is_u8 type →
  is_u32 (block_flags type len) ∧ Z.land (Z.shiftr (block_flags type len) 24) 255 = type ∧
  has (block_flags type len) PFLAG_HAS_SEQ = true ∧ has (block_flags type len) PFLAG_HAS_RECENT_RECV = true ∧
  has (block_flags type len) PFLAG_HAS_CALL_ID = true ∧ has (block_flags type len) PFLAG_HAS_PROTO = true ∧
  has (block_flags type len) PFLAG_HAS_EXTRA = false ∧ has (block_flags type len) PFLAG_HAS_DATA = (0 <? len).
Proof.
  intros Ht. assert (block_flags type len = block_flags type (if 0 <? len then 1 else 0)) as ->.
  { unfold block_flags. by destruct (0 <? len). }
  pose (ok t n := let f := block_flags t n in
    (0 <=? f) && (f <? 4294967296) && (Z.land (Z.shiftr f 24) 255 =? t) && has f PFLAG_HAS_SEQ && has f PFLAG_HAS_RECENT_RECV &&
    has f PFLAG_HAS_CALL_ID && has f PFLAG_HAS_PROTO && negb (has f PFLAG_HAS_EXTRA) && Bool.eqb (has f PFLAG_HAS_DATA) (0 <? n)).
  assert (∀ b : bool, ok type (if b then 1 else 0) = true) as Hok.
  { assert (forallb (λ t, ok (Z.of_nat t) 0 && ok (Z.of_nat t) 1) (List.seq 0 256) = true) as Hall by by vm_compute.
    rewrite forallb_forall in Hall. specialize (Hall (Z.to_nat type)). rewrite Z2Nat.id in Hall by lia.
    assert (ok type 0 && ok type 1 = true) as Hb by (apply Hall, in_seq; lia).
    apply andb_true_iff in Hb as [H0 H1]. by intros []. }
  specialize (Hok (0 <? len)). unfold ok in Hok. rewrite !andb_true_iff in Hok.
  destruct Hok as [[[[[[[[H1 H2] H3] H4] H5] H6] H7] H8] H9].
  apply eqb_prop in H9. apply negb_true_iff in H8. split_and!; try done; try lia.
  rewrite H9. by destruct (0 <? len).
Qed.

Import BufferInputStream.

Lemma wp_read_header c c' rand s pseq type len innerLen data x (Q : parsed → t → Prop) T C :
  agree c c' → wf x → rest x = header_bytes c rand s pseq type len ++ data →
  is_u32 (Link.lastRemoteSeq s) → is_u32 pseq → is_u8 type → zlen rand = 15 → zlen (Wire.callID c) = 16 →
  0 ≤ len < 16777000 →
  (∀ x', wf x' → rest x' = carried_bytes c s ++ data →
    Q (Header (mkheader type (Link.lastRemoteSeq s) pseq (Link.acks_mask s) (extra_flag c s) (inner_len c innerLen len))) x') →
  wp (read_header c' innerLen) x Q T C.
Proof.
  intros [Hf He Hid] Hwf Hr Hls Hp Ht Hrand Hcid Hlen HQ.
  assert (zlen (slice rand 8 7) = 7) as Hs7 by (unfold zlen, slice in *; rewrite length_take, length_drop; lia).
  unfold read_header, header_bytes, carried_bytes, extra_flag, inner_len, carries in *. rewrite <- Hf.
  destruct (Wire.shortFormat c) eqn:Ef; [|destruct (Wire.waiting c) eqn:Ew].
  - rewrite <- !app_assoc in Hr. apply wp_bind. eapply wp_ReadByte; [done|exact Hr|]. intros x1 Hw1 Hr1.
    eapply wp_read_numbers; [done|exact Hr1|done..|]. intros a b d x2 Hw2 Hr2 Ha Hb Hd.
    rewrite extras_bytes_flag in Hr2. apply wp_bind. eapply wp_ReadByte; [done|exact Hr2|]. intros x3 Hw3 Hr3.
    apply wp_ret. rewrite Ha, Hb, Hd. by apply HQ.
  - rewrite <- !app_assoc in Hr. destruct (block_flags_fields type len Ht) as (Hr32 & Hty & H1 & H2 & H3 & H4 & H5 & H6).
    apply wp_bind. eapply wp_ReadInt32; [done|exact Hr|]. intros x1 Hw1 Hr1. rewrite !u32_s32.
    change (u32 TLID_DECRYPTED_AUDIO_BLOCK =? TLID_DECRYPTED_AUDIO_BLOCK) with true. cbv iota.
    unfold random_bytes in Hr1. rewrite <- !app_assoc in Hr1.
    apply wp_bind. eapply wp_ReadInt64; [done|exact Hr1|]. intros x2 Hw2 Hr2.
    apply wp_bind. eapply wp_skip_string; [done|exact Hs7|exact Hr2|]. intros x3 Hw3 Hr3.
    apply wp_bind. eapply wp_ReadInt32; [done|exact Hr3|]. intros x4 Hw4 Hr4. rewrite !u32_s32, (u32_small _ Hr32).
    rewrite Hty, H1, H2, H3, H4, H5, H6. cbn [andb negb]. cbv iota.
    apply wp_bind, wp_bind. rewrite <- Hcid at 1. eapply wp_ReadBytes; [done|exact Hr4|]. intros x5 Hw5 Hr5.
    apply wp_ret. rewrite bool_decide_eq_true_2 by done. cbn [negb]. cbv iota.
    eapply wp_read_numbers; [done|exact Hr5|done..|]. intros a b d x6 Hw6 Hr6 Ha Hb Hd.
    apply wp_bind, wp_bind. eapply wp_ReadInt32; [done|exact Hr6|]. intros x7 Hw7 Hr7. apply wp_ret.
    change (u32 (s32 PROTOCOL_NAME) =? PROTOCOL_NAME) with true. cbn [negb]. cbv iota.
    apply wp_bind, wp_ret. apply wp_bind. rewrite Ha, Hb, Hd.
    destruct (Z.ltb_spec 0 len).
    + eapply wp_ReadTlLength; [done| |exact Hr7|]; [lia|]. intros x8 Hw8 Hr8. by apply wp_ret, HQ.
    + replace len with 0 in HQ by lia. apply wp_ret, wp_ret. by apply HQ.
  - rewrite <- !app_assoc in Hr. apply wp_bind. eapply wp_ReadInt32; [done|exact Hr|]. intros x1 Hw1 Hr1. rewrite !u32_s32.
    change (u32 TLID_SIMPLE_AUDIO_BLOCK =? TLID_DECRYPTED_AUDIO_BLOCK) with false.
    change (u32 TLID_SIMPLE_AUDIO_BLOCK =? TLID_SIMPLE_AUDIO_BLOCK) with true. cbv iota.
    unfold random_bytes in Hr1. rewrite <- !app_assoc in Hr1.
    apply wp_bind. eapply wp_ReadInt64; [done|exact Hr1|]. intros x2 Hw2 Hr2.
    apply wp_bind. eapply wp_skip_string; [done|exact Hs7|exact Hr2|]. intros x3 Hw3 Hr3.
    rewrite u32_small in Hr3 by lia. destruct (Z.ltb_spec 0 (len + 13)); [|lia].
    apply wp_bind. eapply wp_ReadTlLength; [done| |exact Hr3|]; [lia|]. intros x4 Hw4 Hr4.
    apply wp_bind. eapply wp_ReadByte; [done|exact Hr4|]. intros x5 Hw5 Hr5.
    eapply wp_read_numbers; [done|exact Hr5|done..|]. intros a b d x6 Hw6 Hr6 Ha Hb Hd.
    rewrite <- He by done. apply wp_bind. rewrite Ha, Hb, Hd. cbn [orb negb andb] in HQ.
    destruct (6 <=? Wire.peerVersion c).
    + rewrite extras_bytes_flag in Hr6. eapply wp_ReadByte; [done|exact Hr6|]. intros x7 Hw7 Hr7. apply wp_ret. by apply HQ.
    + apply wp_ret, wp_ret. by apply HQ.
Qed.

(** An extra as it travels: its type and its data. *)
Definition extra_data (x : Link.UnacknowledgedExtraData) : bytes := Link.x_type x :: Link.x_data x.

(** The extras are processed one after the other, whatever the processing
    does. *)
Lemma wp_each_extra {S} (process : bytes → M S unit) xs data x σ (Q : unit → t * S → Prop) (T : exn → t * S → Prop) C :
  wf x → rest x = mjoin (extra_bytes <$> xs) ++ data → Forall (λ x, zlen (Link.x_data x) ≤ 254) xs →
  wp (mapM process (extra_data <$> xs)) σ (λ _ σ', ∀ x', wf x' → rest x' = data → Q tt (x', σ')) (λ e σ', ∀ x', T e (x', σ')) C →
  wp (each_extra process (Datatypes.length xs)) (x, σ) Q T C.
Proof.
  intros Hwf Hr Hl. revert x σ Hwf Hr. induction Hl as [|y xs Hy _ IH]; intros x σ Hwf Hr Hp.
  - apply wp_ret. apply Hp; done.
  - change (mjoin (extra_bytes <$> y :: xs)) with ((u8 (zlen (Link.x_data y) + 1) :: extra_data y) ++ mjoin (extra_bytes <$> xs)) in Hr.
    pose proof (zlen_nonneg (Link.x_data y)). rewrite u8_small in Hr by lia. rewrite <- app_assoc in Hr.
    cbn [Datatypes.length each_extra]. apply wp_bind, wp_on_stream. eapply wp_ReadByte; [done|exact Hr|]. intros x1 Hw1 Hr1.
    apply wp_bind, wp_on_stream. replace (zlen (Link.x_data y) + 1) with (zlen (extra_data y)) by (unfold extra_data; zl).
    eapply wp_ReadBytes; [done|exact Hr1|]. intros x2 Hw2 Hr2. apply wp_bind, wp_on_self.
    rewrite fmap_cons in Hp. cbn [mapM] in Hp. unfold wp in Hp |- *. unfold mbind, M_bind in Hp.
    destruct (process (extra_data y) σ) as [[] σ1|e σ1|c] eqn:E; [|apply Hp|done].
    eapply IH; [done..|]. unfold wp. destruct (mapM process (extra_data <$> xs) σ1) as [l σ2|e σ2|c]; exact Hp.
Qed.

Lemma wp_read_extras {S} (process : bytes → M S unit) c s h data x σ (Q : unit → t * S → Prop) (T : exn → t * S → Prop) C :
  wf x → rest x = carried_bytes c s ++ data → pflags h = extra_flag c s → sendable s →
  wp (mapM process (if carries c then extra_data <$> Link.currentExtras s else [])) σ
    (λ _ σ', ∀ x', wf x' → rest x' = data → Q tt (x', σ')) (λ e σ', ∀ x', T e (x', σ')) C →
  wp (read_extras process h) (x, σ) Q T C.
Proof.
  intros Hwf Hr Hh [Hl Hn] Hp. unfold read_extras. rewrite Hh. unfold extra_flag, carried_bytes, extras_bytes in *.
  destruct (carries c); [|apply wp_ret, Hp; done].
  destruct (Link.currentExtras s) as [|y xs]; [apply wp_ret, Hp; done|].
  pose proof (zlen_nonneg xs). rewrite zlen_cons in Hn.
  rewrite bool_decide_eq_false_2 by done. change (has (if true && negb false then XPFLAG_HAS_EXTRA else 0) XPFLAG_HAS_EXTRA) with true. cbv iota.
  cbn [app drop] in Hr. apply wp_bind, wp_on_stream. eapply wp_ReadByte; [done|exact Hr|]. intros x1 Hw1 Hr1.
  rewrite u8_small, zlen_cons by (rewrite zlen_cons; lia).
  replace (Z.to_nat (1 + zlen xs)) with (Datatypes.length (y :: xs)) by (unfold zlen; simpl; lia).
  by eapply wp_each_extra.
Qed.

(** The arguments are values of their C types. *)
Record wf_sending (c : Wire.config) (rand : bytes) (pkt : Link.PendingOutgoingPacket) (s : Link.t) : Prop := {
  ws_rand : wf_bytes rand ∧ zlen rand = 15;
  ws_callID : wf_bytes (Wire.callID c) ∧ zlen (Wire.callID c) = 16;
  ws_seq : is_u32 (Link.p_seq pkt);
  ws_type : is_u8 (Link.p_type pkt);
  ws_len : Link.p_len pkt = zlen (Link.p_data pkt);
  ws_data : wf_bytes (Link.p_data pkt) ∧ zlen (Link.p_data pkt) ≤ 1048576;
  ws_remote : is_u32 (Link.lastRemoteSeq s);
  ws_extras : Forall (λ x, wf_bytes (extra_data x)) (Link.currentExtras s);
}.

Lemma numbers_wf s pseq : wf_bytes (numbers_bytes s pseq).
Proof. unfold numbers_bytes. repeat apply Forall_app_2; apply le_bytes_wf. Qed.
Lemma random_wf rand : wf_bytes rand → wf_bytes (random_bytes rand).
Proof.
  intros Hr. unfold random_bytes. repeat apply Forall_app_2; [apply le_bytes_wf|by repeat constructor|].
  by apply Forall_take, Forall_drop.
Qed.
Lemma tl_length_wf n : 0 ≤ n → wf_bytes (tl_length_bytes n).
Proof.
  intros Hn. unfold tl_length_bytes. destruct (n <=? 253); [by apply Forall_singleton, u8_range|].
  rewrite !land_255. assert (∀ z, is_u8 (z mod 256)) as Hz by (intros; apply Z.mod_pos_bound; lia).
  apply Forall_cons; split; [done|]. apply Forall_cons; split; [done|]. apply Forall_cons; split; [done|]. by apply Forall_singleton.
Qed.
Lemma extras_wf s :
  Forall (λ x, wf_bytes (extra_data x)) (Link.currentExtras s) → wf_bytes (extras_bytes (Link.currentExtras s)).
Proof.
  intros Hx. unfold extras_bytes. destruct (Link.currentExtras s) as [|x l]; [by repeat constructor|].
  apply Forall_app_2; [apply Forall_cons; split; [done|]; apply Forall_singleton, u8_range|].
  induction Hx as [|y l' Hy _ IH]; [constructor|].
  change (mjoin (extra_bytes <$> y :: l')) with (u8 (zlen (Link.x_data y) + 1) :: extra_data y ++ mjoin (extra_bytes <$> l')).
  apply Forall_cons; split; [apply u8_range|]. by apply Forall_app_2.
Qed.
Lemma wf_bytes_app l1 l2 : wf_bytes l1 → wf_bytes l2 → wf_bytes (l1 ++ l2).
Proof. apply Forall_app_2. Qed.
Lemma header_wf c rand pkt s :
  wf_sending c rand pkt s → wf_bytes (header_bytes c rand s (Link.p_seq pkt) (Link.p_type pkt) (zlen (Link.p_data pkt))).
Proof.
  intros []. pose proof (numbers_wf s (Link.p_seq pkt)). destruct ws_rand0 as [Hr _]. destruct ws_callID0 as [Hc _].
  apply random_wf in Hr. apply extras_wf in ws_extras0. pose proof (zlen_nonneg (Link.p_data pkt)).
  pose proof (u32_range (zlen (Link.p_data pkt) + 13)). unfold header_bytes. repeat match goal with |- context [if ?b then _ else _] => destruct b end;
    repeat match goal with |- wf_bytes (_ ++ _) => apply wf_bytes_app end;
    first [assumption | apply le_bytes_wf | apply tl_length_wf; lia | by apply Forall_singleton | by apply Forall_nil].
Qed.

(** The reader with its extras collected instead of processed. *)
Definition receive_plain (c : Wire.config) (innerLen : Z) : M (t * list bytes) parsed :=
  h ← on_stream (read_header c innerLen);
  match h with
  | Header hd => read_extras (λ x, modify (λ l, l ++ [x])) hd;; mret h
  | _ => mret h
  end.

Lemma collect xs (l : list bytes) T C (Q : list unit → list bytes → Prop) :
  (∀ u, Q u (l ++ xs)) → wp (mapM (λ x, modify (λ l, l ++ [x])) xs) l Q T C.
Proof.
  revert l Q. induction xs as [|x xs IH]; intros l Q HQ.
  - apply wp_ret. specialize (HQ []). by rewrite app_nil_r in HQ.
  - apply wp_bind, wp_modify, wp_bind. apply IH. intros u. apply wp_ret. rewrite <- app_assoc. apply HQ.
Qed.

(** C26. The other end reads back what was written: in all three formats a
    packet is the type, the numbers, the mask and the extras of its header,
    and exactly the data is left in the stream. *)
Theorem header_roundtrip (c c' : Wire.config) (rand : bytes) (pkt : Link.PendingOutgoingPacket) (s : Link.t) :
  agree c c' → wf_sending c rand pkt s → sendable s →
  ∃ plain s' x',
    packet c rand pkt s = Ret plain s' ∧
    receive_plain c' (zlen plain) (ctor plain (zlen plain), []) =
      Ret (Header (mkheader (Link.p_type pkt) (Link.lastRemoteSeq s) (Link.p_seq pkt) (Link.acks_mask s)
                     (extra_flag c s) (inner_len c (zlen plain) (zlen (Link.p_data pkt)))))
        (x', if carries c then extra_data <$> Link.currentExtras s else []) ∧
    rest x' = Link.p_data pkt.
Proof.
  intros Ha Hw Hs. pose proof (header_wf _ _ _ _ Hw) as Hh. destruct Hw as [[Hr1 Hr] [Hc1 Hc] Hq Ht Hl [Hd1 Hd] Hm Hx].
  pose proof (zlen_nonneg (Link.p_data pkt)).
  destruct (packet_run c rand pkt s) as (s' & _ & E); [done|lia..|].
  rewrite Hl, u32_small in E by lia. set (plain := _ ++ _) in E.
  assert (wf (ctor plain (zlen plain))) as Hwf.
  { apply ctor_wf; [by apply Forall_app_2|]. unfold plain.
    pose proof (zlen_header c rand s (Link.p_seq pkt) (Link.p_type pkt) (zlen (Link.p_data pkt)) Hs ltac:(lia) ltac:(lia)). zl. }
  enough (wp (receive_plain c' (zlen plain)) (ctor plain (zlen plain), []) (λ h p,
    h = Header (mkheader (Link.p_type pkt) (Link.lastRemoteSeq s) (Link.p_seq pkt) (Link.acks_mask s)
                     (extra_flag c s) (inner_len c (zlen plain) (zlen (Link.p_data pkt)))) ∧
    p.2 = (if carries c then extra_data <$> Link.currentExtras s else []) ∧ rest p.1 = Link.p_data pkt) (λ _ _, False) (λ _, False)) as Hwp.
  { unfold wp in Hwp. destruct (receive_plain _ _ _) as [h [x' l]| |] eqn:E2; [|done..]. destruct Hwp as (-> & Hl' & Hr'). cbn [fst snd] in Hl', Hr'.
    exists plain, s', x'. split; [exact E|]. by rewrite E2, Hl'. }
  unfold receive_plain. apply wp_bind, wp_on_stream.
  eapply wp_read_header; [done|done|by rewrite rest_ctor|done|done|done|done|done|lia|]. intros x1 Hw1 Hrest.
  apply wp_bind. eapply wp_read_extras; [done|exact Hrest|done..|].
  apply collect. intros _ x2 Hw2 Hr2. by apply wp_ret.
Qed.

(** The three formats of a call. *)
Definition ex_config (version : Z) (waiting : bool) : Wire.config :=
  Wire.mkconfig [] [] (replicate 16 5) true version 0 true waiting.
Definition ex_link : Link.t :=
  let s := Link.ctor 0 1 in
  Link.mk (Link.seq s) 4294967290 (Link.lastRemoteAckSeq s) (Link.lastSentSeq s) (Link.recentOutgoingPackets s)
    (Link.recvPacketTimes s) (Link.packetsReceived s) (Link.firstSentPing s) (Link.rttHistory s) (Link.waitingForAcks s)
    (Link.dontSendPackets s) (Link.queuedPackets s) [Link.mkextra 4 [1; 0; 0; 0] 0] (Link.conctl s) (Link.ticks s).
Definition ex_pending : Link.PendingOutgoingPacket := Link.mkpending 7 PKT_PONG 4 [9; 0; 0; 0] 0.

End header.

Section example.
#[local] Existing Instance stopped.
Import Packet BufferInputStream.
Lemma header_roundtrip_witness :
  (∃ plain s' x',
    packet (ex_config 9 false) (replicate 15 1) ex_pending ex_link = Ret plain s' ∧
    receive_plain (ex_config 8 true) (zlen plain) (ctor plain (zlen plain), []) =
      Ret (Header (mkheader 7 4294967290 7 0 1 (u64 (zlen plain - 14)))) (x', [[4; 1; 0; 0; 0]]) ∧ rest x' = [9; 0; 0; 0]) ∧
  (∃ plain s' x',
    packet (ex_config 7 false) (replicate 15 1) ex_pending ex_link = Ret plain s' ∧
    receive_plain (ex_config 6 true) (zlen plain) (ctor plain (zlen plain), []) =
      Ret (Header (mkheader 7 4294967290 7 0 1 17)) (x', [[4; 1; 0; 0; 0]]) ∧ rest x' = [9; 0; 0; 0]) ∧
  (∃ plain s' x',
    packet (ex_config 7 true) (replicate 15 1) ex_pending ex_link = Ret plain s' ∧
    receive_plain (ex_config 0 true) (zlen plain) (ctor plain (zlen plain), []) =
      Ret (Header (mkheader 7 4294967290 7 0 0 4)) (x', []) ∧ rest x' = [9; 0; 0; 0]).
Proof.
  assert (∀ n, wf_bytes (replicate n 1)) as H1 by (intros; apply Forall_replicate; lia).
  assert (wf_bytes (replicate 16 5)) as H2 by (apply Forall_replicate; lia).
  assert (∀ v w, wf_sending (ex_config v w) (replicate 15 1) ex_pending ex_link) as Hw.
  { assert (∀ l, forallb (λ b, (0 <=? b) && (b <? 256)) l = true → wf_bytes l) as Hb.
    { intros l Hl. apply Forall_forall. intros z Hz. rewrite forallb_forall in Hl.
      apply list_elem_of_In, Hl in Hz. lia. }
    intros. constructor; try (split; [by apply Hb|done]); try done. by apply Forall_singleton, Hb. }
  assert (sendable ex_link) as Hs by (constructor; [apply Forall_singleton|]; by vm_compute).
  split_and!.
  - destruct (header_roundtrip (ex_config 9 false) (ex_config 8 true) (replicate 15 1) ex_pending ex_link)
      as (plain & s' & x' & E & E' & Hr); [constructor; by try intros|done..|].
    exists plain, s', x'. split; [done|]. by split.
  - destruct (header_roundtrip (ex_config 7 false) (ex_config 6 true) (replicate 15 1) ex_pending ex_link)
      as (plain & s' & x' & E & E' & Hr); [constructor; by try intros|done..|].
    exists plain, s', x'. split; [done|]. by split.
  - destruct (header_roundtrip (ex_config 7 true) (ex_config 0 true) (replicate 15 1) ex_pending ex_link)
      as (plain & s' & x' & E & E' & Hr); [constructor; by try intros|done..|].
    exists plain, s', x'. split; [done|]. by split.
Defined.
End example.
