(* ===== verification/Cursor.v ===== *)
(** * Reading streams whose bytes are known

    [here data tl x]: the stream [x] is over [data] and has [tl] left.  Each
    read takes known bytes from the front; the memory stays the same, so that
    the offset is known as well. *)

From Stdlib Require Import ZArith Lia List.
From stdpp Require Import base tactics list numbers option.
From S2P Require Import Prelude Words Memory Buffers Streams Seq Link Wire Packet.
From stdpp Require Import list.
Open Scope Z_scope.

Section cursor.
Import BufferInputStream.

Definition same_memory (x y : t) : Prop := buffer y = buffer x ∧ length y = length x.
#[export] Instance same_memory_preorder : PreOrder same_memory.
Proof. split; [by intros ?|]. unfold same_memory. intros x y z [-> ->] [-> ->]. done. Qed.
Lemma memory_ensure k : along same_memory (EnsureEnoughRemaining k).
Proof. intros s. unfold wp, EnsureEnoughRemaining. by destruct (_ <? _). Qed.
Lemma memory_at k : along same_memory (at_ k).
Proof. unfold at_. repeat along_step. Qed.
Lemma memory_advance k : along same_memory (advance k).
Proof. by apply along_modify. Qed.
Ltac memory_all := repeat first [along_step | apply memory_ensure | apply memory_at | apply memory_advance].
Lemma memory_ReadByte : along same_memory ReadByte.
Proof. unfold ReadByte. memory_all. Qed.
Lemma memory_ReadInt32 : along same_memory ReadInt32.
Proof. unfold ReadInt32. memory_all. Qed.
Lemma memory_ReadInt16 : along same_memory ReadInt16.
Proof. unfold ReadInt16. memory_all. Qed.
Lemma memory_ReadBytes k : along same_memory (ReadBytes k).
Proof. unfold ReadBytes. memory_all. Qed.
Lemma memory_ReadTlLength : along same_memory ReadTlLength.
Proof.
  unfold ReadTlLength. along_step; [apply memory_ReadByte|]. memory_all. intros s. unfold wp, assert_. by destruct (_ <=? _).
Qed.

(** A stream over [data] that has [tl] left. *)
Record here (data tl : bytes) (x : t) : Prop := {
  here_wf : wf x; here_buffer : buffer x = data; here_rest : rest x = tl;
}.
Lemma here_ctor data : wf_bytes data → zlen data < 18446744073709551616 → here data data (ctor data (zlen data)).
Proof. intros ? ?. split; [by apply ctor_wf|done|apply rest_ctor]. Qed.
Lemma here_offset data tl x : here data tl x → offset x = zlen data - zlen tl ∧ length x = zlen data.
Proof.
  intros [[] <- <-]. unfold rest, zlen in *. rewrite length_drop. lia.
Qed.
Lemma wp_stays {A} (m : M t A) (a : A) data tl tl' x (Q : A → t → Prop) T C :
  along same_memory m → here data tl x →
  (∀ Q' : A → t → Prop, (∀ x', wf x' → rest x' = tl' → Q' a x') → wp m x Q' (λ _ _, False) (λ _, False)) →
  (∀ x', here data tl' x' → Q a x') → wp m x Q T C.
Proof.
  intros Hm Hx Hw HQ. specialize (Hm x). specialize (Hw (λ b x', b = a ∧ wf x' ∧ rest x' = tl')). unfold wp in *.
  destruct (m x) as [b x'|e x'|c]; [|by destruct Hw..]. destruct Hw as (-> & Hwf & Hr); [done|]. apply HQ. destruct Hx, Hm as [Hb _].
  split; [done|congruence|done].
Qed.
Lemma here_ReadByte data b tl x (Q : Z → t → Prop) T C :
  here data (b :: tl) x → (∀ x', here data tl x' → Q b x') → wp ReadByte x Q T C.
Proof. intros Hx HQ. eapply wp_stays; [apply memory_ReadByte|done| |done]. intros Q' HQ'. by eapply wp_ReadByte; [apply Hx..|]. Qed.
Lemma here_ReadInt32 data z tl x (Q : Z → t → Prop) T C :
  here data (le_bytes 4 z ++ tl) x → (∀ x', here data tl x' → Q (s32 z) x') → wp ReadInt32 x Q T C.
Proof. intros Hx HQ. eapply wp_stays; [apply memory_ReadInt32|done| |done]. intros Q' HQ'. by eapply wp_ReadInt32; [apply Hx..|]. Qed.
Lemma here_ReadInt16 data z tl x (Q : Z → t → Prop) T C :
  here data (le_bytes 2 z ++ tl) x → (∀ x', here data tl x' → Q (s16 z) x') → wp ReadInt16 x Q T C.
Proof. intros Hx HQ. eapply wp_stays; [apply memory_ReadInt16|done| |done]. intros Q' HQ'. by eapply wp_ReadInt16; [apply Hx..|]. Qed.
Lemma here_ReadBytes data n l tl x (Q : bytes → t → Prop) T C :
  n = zlen l → here data (l ++ tl) x → (∀ x', here data tl x' → Q l x') → wp (ReadBytes n) x Q T C.
Proof.
  intros -> Hx HQ. eapply wp_stays; [apply memory_ReadBytes|done| |done]. intros Q' HQ'. by eapply wp_ReadBytes; [apply Hx..|].
Qed.
Lemma here_ReadTlLength data n tl x (Q : Z → t → Prop) T C :
  0 ≤ n < 16777216 → here data (tl_length_bytes n ++ tl) x → (∀ x', here data tl x' → Q n x') → wp ReadTlLength x Q T C.
Proof.
  intros Hn Hx HQ. eapply wp_stays; [apply memory_ReadTlLength|done| |done]. intros Q' HQ'.
  pose proof (here_rest _ _ _ Hx) as Hr. unfold tl_length_bytes in Hr. destruct (Z.leb_spec n 253).
  - rewrite u8_small in Hr by lia. eapply wp_ReadTlLength_short; [apply Hx| |exact Hr|done]; lia.
  - assert (n = le_val (le_bytes 3 n)) as En by (rewrite le_val_le_bytes, Z.mod_small; [done|by change (256 ^ Z.of_nat 3) with 16777216]).
    rewrite En in HQ'. eapply wp_ReadTlLength_long; [apply Hx| |done]. rewrite Hr. cbn [le_bytes app]. by rewrite Z.shiftr_shiftr by lia.
Qed.
Lemma here_Seek data tl l l' x k (Q : unit → t → Prop) T C :
  here data tl x → data = l ++ l' → k = zlen l → (∀ x', here data l' x' → Q tt x') → wp (Seek k) x Q T C.
Proof.
  intros Hx -> -> HQ. destruct (here_offset _ _ _ Hx) as [_ Hl]. pose proof (zlen_nonneg l). pose proof (zlen_nonneg l').
  assert (zlen (l ++ l') = zlen l + zlen l') as Hz by apply zlen_app.
  unfold wp, Seek. destruct (Z.ltb_spec (length x) (zlen l)); [lia|]. apply HQ. destruct Hx as [[] Hb _]. split; [constructor; cbn; done || lia|done|].
  unfold rest. cbn. rewrite Hb. unfold zlen. by rewrite Nat2Z.id, drop_app_length.
Qed.
End cursor.
