(* ===== verification/Jitter.v ===== *)
(** * libtgvoip/JitterBuffer.h, JitterBuffer.cpp

    The playback buffer: 64 slots of up to 1024 bytes, taken from a
    [BufferPool], holding received audio packets until their timestamp is
    played, plus the statistics that adapt the target delay.  Doubles are
    IEEE binary64; [VoIPController::GetCurrentTime()] is an argument.  The
    parameters the server sends are arguments of the constructor.  The
    jitter-statistics dump is compiled out. *)

From Stdlib Require Import ZArith Lia SpecFloat.
From stdpp Require Import base tactics list numbers option strings.
From S2P Require Import Prelude Words Double Buffers History.
Open Scope string_scope.
Open Scope Z_scope.

Module JitterBuffer.

Definition SLOT_COUNT : nat := 64.
Definition SLOT_SIZE : Z := 1024.

Inductive result := JR_OK | JR_MISSING | JR_BUFFERING.

(** [jitter_packet_t]: [buffer] is the pool address, [content] the bytes
    stored there. *)
Record slot := mkslot {
  buffer : option Z;
  content : bytes;
  ssize : Z;
  timestamp : Z;
  sEC : bool;
  recvTimeDiff : double;
}.
#[export] Instance slot_eta : Eta slot := λ s,
  mkslot (buffer s) (content s) (ssize s) (timestamp s) (sEC s) (recvTimeDiff s).

Record t := mk {
  bufferPool : BufferPool.t;
  slots : list slot;
  nextTimestamp : Z;
  step : Z;
  minDelay : double;
  minMinDelay : Z;
  maxMinDelay : Z;
  maxUsedSlots : Z;
  lastPutTimestamp : Z;
  lossesToReset : Z;
  resyncThreshold : double;
  lostCount : Z;
  lostSinceReset : Z;
  gotSinceReset : Z;
  wasReset : bool;
  needBuffering : bool;
  delayHistory : HistoricBuffer.t Z;
  lateHistory : HistoricBuffer.t Z;
  adjustingDelay : bool;
  tickCount : Z;
  latePacketCount : Z;
  dontIncMinDelay : Z;
  dontDecMinDelay : Z;
  lostPackets : Z;
  prevRecvTime : double;
  expectNextAtTime : double;
  deviationHistory : HistoricBuffer.t double;
  lastMeasuredJitter : double;
  lastMeasuredDelay : double;
  outstandingDelayChange : Z;
  dontChangeDelay : Z;
  avgDelay : double;
  first : bool;
}.
#[export] Instance jb_eta : Eta t := λ s,
  mk (bufferPool s) (slots s) (nextTimestamp s) (step s) (minDelay s) (minMinDelay s)
     (maxMinDelay s) (maxUsedSlots s) (lastPutTimestamp s) (lossesToReset s)
     (resyncThreshold s) (lostCount s) (lostSinceReset s) (gotSinceReset s) (wasReset s)
     (needBuffering s) (delayHistory s) (lateHistory s) (adjustingDelay s) (tickCount s)
     (latePacketCount s) (dontIncMinDelay s) (dontDecMinDelay s) (lostPackets s)
     (prevRecvTime s) (expectNextAtTime s) (deviationHistory s) (lastMeasuredJitter s)
     (lastMeasuredDelay s) (outstandingDelayChange s) (dontChangeDelay s) (avgDelay s) (first s).

Definition has_buffer (s : slot) : bool := bool_decide (is_Some (buffer s)).

(** [if(slots[i].buffer){ bufferPool.Reuse(slots[i].buffer);
    slots[i].buffer=NULL; }]; a pointer that is not the pool's aborts. *)
Definition release (i : nat) : M t unit := λ s,
  match slots s !! i with
  | None => Crash UndefinedBehaviour
  | Some sl =>
      match buffer sl with
      | None => Ret tt s
      | Some a =>
          match BufferPool.Reuse a (bufferPool s) with
          | None => Crash AbortCalled
          | Some p => Ret tt (s <| bufferPool := p |>
                                <| slots := <[i := sl <| buffer := None |>]> (slots s) |>)
          end
      end
  end.

(** Release the slots that satisfy a test, in index order. *)
Fixpoint release_if (test : t → slot → bool) (ks : list nat) : M t unit :=
  match ks with
  | [] => mret tt
  | i :: ks' =>
      s ← get;
      sl ← defined (slots s !! i);
      (if test s sl then release i else mret tt);;
      release_if test ks'
  end.

Definition all_slots : list nat := seq 0 SLOT_COUNT.

Definition GetMinPacketCount (s : t) : option Z := D.to_s32 (minDelay s).

Definition SetMinPacketCount (count : Z) (s : t) : t :=
  s <| minDelay := D.of_Z count |> <| minMinDelay := count |>.

Definition GetCurrentDelay (s : t) : Z := u32 (zlen (filter (λ sl, has_buffer sl = true) (slots s))).

Definition GetAverageDelay (s : t) : double := avgDelay s.
Definition GetLastMeasuredJitter (s : t) : double := lastMeasuredJitter s.
Definition GetLastMeasuredDelay (s : t) : double := lastMeasuredDelay s.

Definition GetAndResetLostPacketCount (s : t) : Z * t :=
  (lostPackets s, s <| lostPackets := 0 |>).

(** [out[0..2]]. *)
Definition GetAverageLateCount (s : t) : option (double * double * double) :=
  a32 ← HistoricBuffer.AverageN (lateHistory s) 32;
  a16 ← HistoricBuffer.AverageN (lateHistory s) 16;
  mret (a16, a32, HistoricBuffer.Average (lateHistory s)).

Definition Advance : M t unit :=
  modify (λ s, s <| nextTimestamp := s64 (nextTimestamp s + step s) |>).

Definition Reset : M t unit :=
  modify (λ s, s <| wasReset := true |> <| needBuffering := true |> <| lastPutTimestamp := 0 |>);;
  release_if (λ _ sl, has_buffer sl) all_slots;;
  modify (λ s, s <| delayHistory ::= HistoricBuffer.Reset (A := double) |>
    <| lateHistory ::= HistoricBuffer.Reset (A := double) |>
    <| adjustingDelay := false |> <| lostSinceReset := 0 |> <| gotSinceReset := 0 |>
    <| expectNextAtTime := D.zero |>
    <| deviationHistory ::= HistoricBuffer.Reset (A := double) |>
    <| outstandingDelayChange := 0 |> <| dontChangeDelay := 0 |>).

(** The argument of [PutInternal]. *)
Record packet := mkpacket { p_data : bytes; p_timestamp : Z; p_isEC : bool }.

(** The slot that already holds this timestamp. *)
Definition same_timestamp (ts : Z) (sl : slot) : bool :=
  has_buffer sl && (timestamp sl =? ts).

(** The search for the oldest slot: index and timestamp, from [toRemove =
    64] and [bestTimestamp = 0xFFFFFFFF]. *)
Fixpoint oldest (l : list slot) (i toRemove : nat) (bestTimestamp : Z) : nat :=
  match l with
  | [] => toRemove
  | sl :: l' =>
      if has_buffer sl && (timestamp sl <? bestTimestamp)
      then oldest l' (S i) i (timestamp sl)
      else oldest l' (S i) toRemove bestTimestamp
  end.

(** [if(expectNextAtTime!=0) ... else ...]. *)
Definition note_arrival (time : double) (s : t) : t :=
  let dt := D.div (D.of_Z (step s)) (D.of_Z 1000) in
  if negb (D.eqb (expectNextAtTime s) D.zero) then
    s <| deviationHistory ::= HistoricBuffer.Add
                                 (D.sub (expectNextAtTime s) time) |>
      <| expectNextAtTime := D.add (expectNextAtTime s) dt |>
  else s <| expectNextAtTime := D.add time dt |>.

(** [slots[i].timestamp=...; ... bufferPool.Get(); ... memcpy]. *)
Definition store (i : nat) (pkt : packet) (time : double) : M t unit := λ s,
  match slots s !! i with
  | None => Crash UndefinedBehaviour
  | Some _ =>
      let '(b, p) := BufferPool.Get (bufferPool s) in
      Ret tt (s <| bufferPool := p |>
                <| slots := <[i := mkslot b (p_data pkt) (zlen (p_data pkt)) (p_timestamp pkt)
                                     (p_isEC pkt) (D.sub time (prevRecvTime s))]> (slots s) |>
                <| prevRecvTime := time |>)
  end.

(** [if(i==JITTER_SLOT_COUNT || GetCurrentDelay()>=maxUsedSlots)] with its
    body; the index to store into. *)
Definition make_room : M t nat :=
  s ← get;
  let i := default SLOT_COUNT (find_index (λ sl, negb (has_buffer sl)) (slots s)) in
  if (i =? SLOT_COUNT)%nat || (maxUsedSlots s <=? GetCurrentDelay s) then
    let toRemove := oldest (slots s) 0 SLOT_COUNT 4294967295 in
    Advance;;
    release toRemove;;
    mret toRemove
  else mret i.

(** [nextTimestamp=(int64_t)((int64_t)pkt->timestamp - step*minDelay)]. *)
Definition resync_timestamp (ts : Z) (s : t) : option Z :=
  D.to_s64 (D.sub (D.of_Z ts) (D.mul (D.of_Z (step s)) (minDelay s))).

Definition resync (ts : Z) : M t unit := λ s,
  match resync_timestamp ts s with
  | None => Crash BadCast
  | Some n => Ret tt (s <| wasReset := false |> <| outstandingDelayChange := 0 |>
                        <| nextTimestamp := n |> <| first := true |>)
  end.

(** The end of [PutInternal], past the lateness tests. *)
Definition place (pkt : packet) (time : double) : M t unit :=
  modify (λ s, if lastPutTimestamp s <? p_timestamp pkt
               then s <| lastPutTimestamp := p_timestamp pkt |> else s);;
  i ← make_room;
  store i pkt time.

(** [PutInternal] for a timestamp no slot holds. *)
Definition put_new (pkt : packet) (time : double) : M t unit :=
  modify (λ s, s <| gotSinceReset := u32 (gotSinceReset s + 1) |>);;
  s ← get;
  (if wasReset s then resync (p_timestamp pkt) else mret tt);;
  release_if (λ s sl, has_buffer sl && (timestamp sl <? nextTimestamp s - 1)) all_slots;;
  modify (note_arrival time);;
  s ← get;
  if p_timestamp pkt <? nextTimestamp s then
    modify (λ s, s <| latePacketCount := u32 (latePacketCount s + 1) |>
                   <| lostPackets := s32 (lostPackets s - 1) |>);;
    place pkt time
  else if p_timestamp pkt <? nextTimestamp s - 1 then
    modify (λ s, s <| latePacketCount := u32 (latePacketCount s + 1) |>)
  else place pkt time.

Definition PutInternal (pkt : packet) (overwriteExisting : bool) (time : double) : M t unit :=
  if SLOT_SIZE <? zlen (p_data pkt) then mret tt
  else
    s ← get;
    match find_index (same_timestamp (p_timestamp pkt)) (slots s) with
    | Some i =>
        if overwriteExisting then
          modify (λ s, s <| slots ::= alter (λ sl, sl <| content := p_data pkt |>
                      <| ssize := zlen (p_data pkt) |> <| sEC := p_isEC pkt |>) i |>)
        else mret tt
    | None => put_new pkt time
    end.

Definition HandleInput (data : bytes) (ts : Z) (isEC : bool) (time : double) : M t unit :=
  PutInternal (mkpacket data ts isEC) (negb isEC) time.

(** What [GetInternal] put into the caller's packet: [None] when it was not
    written (nothing found, or the packet did not fit). *)
Definition got : Type := option (bytes * Z * bool).

(** The reset that follows too many losses. *)
Definition lossy (s : t) : bool :=
  (lossesToReset s <=? lostCount s) ||
  (D.gtb (D.of_Z (gotSinceReset s)) (D.mul (minDelay s) (D.of_Z 25)) &&
   (gotSinceReset s / 2 <? lostSinceReset s)).

Definition loss_reset : M t unit :=
  s ← get;
  if lossy s then
    modify (λ s, s <| dontIncMinDelay := 16 |>
                   <| dontDecMinDelay := u32 (dontDecMinDelay s + 128) |>);;
    (if D.ltb (D.of_Z (GetCurrentDelay s)) (minDelay s) then
       match D.to_s64 (D.sub (minDelay s) (D.of_Z (GetCurrentDelay s))) with
       | None => crash_with BadCast
       | Some d => modify (λ s, s <| nextTimestamp := s64 (nextTimestamp s - d) |>)
       end
     else mret tt);;
    modify (λ s, s <| lostCount := 0 |>);;
    Reset
  else mret tt.

Definition timestamp_to_get (offset : Z) (s : t) : Z :=
  s64 (nextTimestamp s + s32 (offset * s32 (step s))).

(** [GetInternal(pkt, offset, advance)] with [pkt->size = cap]. *)
Definition GetInternal (cap offset : Z) (advance : bool) : M t (result * got) :=
  s ← get;
  match find_index (same_timestamp (timestamp_to_get offset s)) (slots s) with
  | Some i =>
      sl ← defined (slots s !! i);
      let out := if cap <? ssize sl then None
                 else Some (content sl, ssize sl, sEC sl) in
      release i;;
      (if offset =? 0 then Advance else mret tt);;
      modify (λ s, s <| lostCount := 0 |> <| needBuffering := false |>);;
      mret (JR_OK, out)
  | None =>
      (if advance then Advance else mret tt);;
      s ← get;
      if negb (needBuffering s) then
        modify (λ s, s <| lostCount := u32 (lostCount s + 1) |>);;
        (if offset =? 0 then
           modify (λ s, s <| lostPackets := s32 (lostPackets s + 1) |>
                          <| lostSinceReset := u32 (lostSinceReset s + 1) |>)
         else mret tt);;
        loss_reset;;
        mret (JR_MISSING, None)
      else mret (JR_BUFFERING, None)
  end.

(** The [while(delay>GetMinPacketCount())] loop: drop the packet at the
    play position and advance. *)
Fixpoint drop_until (delay : nat) (minCount : Z) : M t unit :=
  match delay with
  | O => mret tt
  | S d =>
      if u32 minCount <? Z.of_nat delay then
        s ← get;
        (match find_index (λ sl, timestamp sl =? nextTimestamp s) (slots s) with
         | Some i => release i
         | None => mret tt
         end);;
        Advance;;
        drop_until d minCount
      else mret tt
  end.

(** [HandleOutput]: size returned, data written, playback duration, and the
    flag stored through [isEC] ([None]: not assigned). *)
Record output := mkout {
  o_size : Z; o_data : got; o_duration : Z; o_isEC : option bool;
}.

(** [if(first){ ... }]: too many packets waited for the first call. *)
Definition catch_up : M t unit :=
  s ← get;
  if first s then
    modify (λ s, s <| first := false |>);;
    if 5 <? GetCurrentDelay s then
      match GetMinPacketCount s with
      | None => crash_with BadCast
      | Some m => drop_until (Z.to_nat (GetCurrentDelay s)) m
      end
    else mret tt
  else mret tt.

Definition HandleOutput (cap offset : Z) (advance : bool) : M t output :=
  catch_up;;
  '(result, pkt) ← GetInternal cap offset advance;
  s ← get;
  duration ←
    (if negb (outstandingDelayChange s =? 0) then
       if outstandingDelayChange s <? 0 then
         modify (λ s, s <| outstandingDelayChange := s32 (outstandingDelayChange s + 20) |>);; mret 40
       else
         modify (λ s, s <| outstandingDelayChange := s32 (outstandingDelayChange s - 20) |>);; mret 80
     else if advance && (GetCurrentDelay s =? 0) then mret 80
     else mret 60);
  mret match result with
       | JR_OK => mkout (match pkt with Some (_, n, _) => n | None => cap end) pkt duration
                        ((λ g, g.2) <$> pkt)
       | _ => mkout 0 None duration None
       end.

(** The statistics block of [Tick]: the delay the deviations call for, in
    packets, before it is clamped; [None] when a read of the history or the
    cast to [uint32_t] is undefined. *)
Definition stddev (s : t) : option double :=
  let avgdev := HistoricBuffer.Average (A := double) (deviationHistory s) in
  ds ← mapM (λ i : nat, HistoricBuffer.index (deviationHistory s) (Z.of_nat i)) (seq 0 64);
  mret (D.sqrt (D.div (foldl (λ acc d, D.add acc (D.mul (D.sub d avgdev) (D.sub d avgdev)))
                             D.zero ds) (D.of_Z 64))).

Definition clamp_delay (d : Z) (s : t) : Z :=
  let d := if d <? minMinDelay s then minMinDelay s else d in
  if maxMinDelay s <? d then maxMinDelay s else d.

(** [if(stddevDelay!=minDelay){ ... }]. *)
Definition adjust_delay (stddevDelay : Z) : M t unit :=
  s ← get;
  if negb (D.eqb (D.of_Z stddevDelay) (minDelay s)) then
    match D.to_s32 (D.sub (D.of_Z stddevDelay) (minDelay s)) with
    | None => crash_with BadCast
    | Some diff =>
        (if 0 <? diff then modify (λ s, s <| dontDecMinDelay := 100 |>) else mret tt);;
        let diff := if diff <? -1 then -1 else diff in
        let diff := if 1 <? diff then 1 else diff in
        s ← get;
        if ((0 <? diff) && (dontIncMinDelay s =? 0)) || ((diff <? 0) && (dontDecMinDelay s =? 0)) then
          modify (λ s, s <| minDelay := D.add (minDelay s) (D.of_Z diff) |>
                         <| outstandingDelayChange := s32 (outstandingDelayChange s + diff * 60) |>
                         <| dontChangeDelay := u32 (dontChangeDelay s + 32) |>);;
          (if diff <? 0 then modify (λ s, s <| dontDecMinDelay := u32 (dontDecMinDelay s + 25) |>)
           else mret tt);;
          (if 0 <? diff then modify (λ s, s <| dontIncMinDelay := 25 |>) else mret tt)
        else mret tt
    end
  else mret tt.

(** [if(dontChangeDelay==0){ ... } if(dontChangeDelay>0) dontChangeDelay--;]. *)
Definition stretch (s : t) : t :=
  let s :=
    if dontChangeDelay s =? 0 then
      if D.gtb (avgDelay s) (D.add (minDelay s) (D.of_dec 5 1)) then
        s <| outstandingDelayChange := s32 (outstandingDelayChange s -
               (if D.gtb (avgDelay s) (D.add (minDelay s) (D.of_Z 2)) then 60 else 20)) |>
          <| dontChangeDelay := u32 (dontChangeDelay s + 10) |>
      else if D.ltb (avgDelay s) (D.sub (minDelay s) (D.of_dec 3 1)) then
        s <| outstandingDelayChange := s32 (outstandingDelayChange s + 20) |>
          <| dontChangeDelay := u32 (dontChangeDelay s + 10) |>
      else s
    else s in
  if 0 <? dontChangeDelay s then s <| dontChangeDelay := u32 (dontChangeDelay s - 1) |> else s.

Definition Tick : M t unit :=
  modify (λ s, s <| lateHistory ::= HistoricBuffer.Add (s32 (latePacketCount s)) |>
                 <| latePacketCount := 0 |>);;
  s ← get;
  let absolutelyNoLatePackets := HistoricBuffer.Max (A := double) (lateHistory s) =? 0 in
  avgLate16 ← defined (HistoricBuffer.AverageN (lateHistory s) 16);
  (if D.geb avgLate16 (resyncThreshold s) then modify (λ s, s <| wasReset := true |>) else mret tt);;
  (if absolutelyNoLatePackets then
     modify (λ s, if 0 <? dontDecMinDelay s
                  then s <| dontDecMinDelay := u32 (dontDecMinDelay s - 1) |> else s)
   else mret tt);;
  modify (λ s, s <| delayHistory ::= HistoricBuffer.Add (s32 (GetCurrentDelay s)) |>);;
  s ← get;
  avg ← defined (HistoricBuffer.AverageN (delayHistory s) 32);
  modify (λ s, s <| avgDelay := avg |>);;
  sd ← defined (stddev s);
  match D.to_u32 (D.ceil (D.div (D.mul (D.mul sd (D.of_Z 2)) (D.of_Z 1000)) (D.of_Z (step s)))) with
  | None => crash_with BadCast
  | Some d =>
      let stddevDelay := clamp_delay d s in
      adjust_delay stddevDelay;;
      modify (λ s, s <| lastMeasuredJitter := sd |>
                     <| lastMeasuredDelay := D.of_Z stddevDelay |>);;
      modify stretch;;
      modify (λ s, s <| tickCount := u32 (tickCount s + 1) |>)
  end.

(** The server-sent parameters ([VoIPServerConfig.cpp]): a key and its
    default to the configured value. *)
Record config := mkconfig {
  GetInt : string → Z → Z;
  GetDouble : string → double → double;
}.

Definition fresh_slot : slot := mkslot None [] 0 0 false D.zero.

(** The constructor, up to its final [Reset()], for a buffer whose media
    stream callback is not used. *)
Definition ctor_fields (cfg : config) (base stp : Z) : option t :=
  let i k d := u32 (GetInt cfg k d) in
  let '(mn, mx, sl) :=
    if stp <? 30 then
      (i "jitter_min_delay_20" 6, i "jitter_max_delay_20" 25, i "jitter_max_slots_20" 50)
    else if stp <? 50 then
      (i "jitter_min_delay_40" 4, i "jitter_max_delay_40" 15, i "jitter_max_slots_40" 30)
    else
      (i "jitter_min_delay_60" 2, i "jitter_max_delay_60" 10, i "jitter_max_slots_60" 20) in
  pool ← BufferPool.ctor base SLOT_SIZE (Z.of_nat SLOT_COUNT);
  mret (mk pool (replicate SLOT_COUNT fresh_slot)
     0 stp (D.of_Z 6) mn mx sl 0 (i "jitter_losses_to_reset" 20)
     (GetDouble cfg "jitter_resync_threshold" (D.of_Z 1))
     0 0 0 true true (HistoricBuffer.ctor (A := double) 64) (HistoricBuffer.ctor (A := double) 64)
     false 0 0 0 0 0 D.zero D.zero (HistoricBuffer.ctor (A := double) 64) D.zero D.zero 0 0
     D.zero true).

Definition ctor (cfg : config) (base stp : Z) : outcome t unit :=
  match ctor_fields cfg base stp with
  | Some s => Reset s
  | None => Crash AssertFailed
  end.

End JitterBuffer.

(* ================================================================== *)
(** ** Invariant *)

Section invariant.
Import JitterBuffer.
Implicit Types s : t.

Definition no_throw : exn → t → Prop := λ _ _, False.
(** The only undefined behaviour left is an out-of-range double-to-integer
    conversion of a statistic. *)
Definition only_cast : crash → Prop := λ c, c = BadCast.

Record slots_ok (p : BufferPool.t) (l : list slot) : Prop := {
  ok_pool : BufferPool.wf p;
  ok_count : BufferPool.bufferCount p = 64;
  ok_slots : length l = 64%nat;
  ok_owned : omap buffer l ≡ₚ BufferPool.outstanding p;
  ok_distinct : ∀ i j a b, l !! i = Some a → l !! j = Some b →
    has_buffer a = true → has_buffer b = true → timestamp a = timestamp b → i = j;
  ok_content : ∀ i a, l !! i = Some a → is_u32 (timestamp a) ∧ ssize a = zlen (content a);
}.

Record inv s : Prop := {
  inv_slots : slots_ok (bufferPool s) (slots s);
  inv_max : 2 ≤ maxUsedSlots s;
  inv_late : HistoricBuffer.wf (lateHistory s) ∧ HistoricBuffer.size (lateHistory s) = 64;
  inv_delay : HistoricBuffer.wf (delayHistory s) ∧ HistoricBuffer.size (delayHistory s) = 64;
  inv_dev : HistoricBuffer.wf (deviationHistory s) ∧ HistoricBuffer.size (deviationHistory s) = 64;
}.

Lemma omap_insert_None (l : list slot) i sl sl' a :
  l !! i = Some sl → buffer sl = Some a → buffer sl' = None →
  omap buffer l ≡ₚ a :: omap buffer (<[i := sl']> l).
Proof.
  revert i. induction l as [|x l IH]; intros [|i] Hi Ha Hn; simplify_eq/=.
  - by rewrite Ha, Hn.
  - destruct (buffer x); rewrite (IH i) by done; [apply Permutation_swap|done].
Qed.

Lemma omap_insert_same (l : list slot) i sl sl' :
  l !! i = Some sl → buffer sl = buffer sl' → omap buffer (<[i := sl']> l) = omap buffer l.
Proof.
  revert i. induction l as [|x l IH]; intros [|i] Hi Ha; simplify_eq/=.
  - by rewrite Ha.
  - by rewrite (IH i).
Qed.

Lemma has_buffer_Some sl : has_buffer sl = true ↔ ∃ a, buffer sl = Some a.
Proof. unfold has_buffer. rewrite bool_decide_eq_true. done. Qed.
Lemma has_buffer_None sl : has_buffer sl = false ↔ buffer sl = None.
Proof. unfold has_buffer. rewrite bool_decide_eq_false. by rewrite eq_None_not_Some. Qed.

(** Replacing slot [i]: the new timestamp must not be held elsewhere. *)
Lemma ok_update p0 p l i sl sl' :
  slots_ok p0 l → l !! i = Some sl →
  BufferPool.wf p → BufferPool.bufferCount p = 64 →
  omap buffer (<[i := sl']> l) ≡ₚ BufferPool.outstanding p →
  is_u32 (timestamp sl') → ssize sl' = zlen (content sl') →
  (has_buffer sl' = true → ∀ j b, j ≠ i → l !! j = Some b → has_buffer b = true →
     timestamp b ≠ timestamp sl') →
  slots_ok p (<[i := sl']> l).
Proof.
  intros [] Hi Hwf Hcnt Hperm Hu Hz Hd. constructor; try done.
  - by rewrite length_insert.
  - intros j k a b. rewrite !list_lookup_insert_Some.
    intros [(<-&<-&_)|[? ?]] [(<-&<-&_)|[? ?]] ?? Heq; [done|..|eauto].
    + by destruct (Hd ltac:(done) k b).
    + by destruct (Hd ltac:(done) j a).
  - intros j a. rewrite list_lookup_insert_Some. intros [(<-&<-&_)|[? ?]]; eauto.
Qed.

Definition with_slots (p : BufferPool.t) (l : list slot) s : t :=
  s <| bufferPool := p |> <| slots := l |>.

(** Releasing a slot empties it and changes nothing else. *)
Lemma release_spec i s :
  inv s → (i < 64)%nat →
  ∃ sl p, slots s !! i = Some sl ∧
    let s' := with_slots p (<[i := sl <| buffer := None |>]> (slots s)) s in
    release i s = Ret tt s' ∧ inv s'.
Proof.
  intros Hinv Hi. pose proof (inv_slots s Hinv) as Hok.
  destruct (lookup_lt_is_Some_2 (slots s) i) as [sl Hsl]; [rewrite (ok_slots _ _ Hok); lia|].
  exists sl. destruct (ok_content _ _ Hok i sl Hsl) as [Hu Hz].
  unfold release. rewrite Hsl. destruct (buffer sl) as [a|] eqn:Ha.
  - assert (Hin : a ∈ BufferPool.outstanding (bufferPool s)).
    { rewrite <- (ok_owned _ _ Hok). apply list_elem_of_omap. exists sl. split; [|done].
      by eapply list_elem_of_lookup_2. }
    destruct (Reuse_outstanding _ a (ok_pool _ _ Hok) Hin) as (p' & Hr & Hwf & Hperm & _).
    exists p'. rewrite Hr. split_and!; [done..|].
    destruct Hinv as [_ ? ? ? ?]. constructor; try done. simpl.
    eapply ok_update; try done.
    + by rewrite (Reuse_count _ _ _ Hr), (ok_count _ _ Hok).
    + apply (Permutation.Permutation_cons_inv (a := a)).
      rewrite <- Hperm, <- (ok_owned _ _ Hok). symmetry. by eapply omap_insert_None.
  - exists (bufferPool s).
    assert (<[i := sl <| buffer := None |>]> (slots s) = slots s) as ->.
    { apply list_insert_id. rewrite Hsl. f_equal. destruct sl; simpl in *. by subst. }
    assert (with_slots (bufferPool s) (slots s) s = s) as -> by by destruct s.
    done.
Qed.

(** ** What the buffer holds, by timestamp *)

Definition Holds s (ts : Z) (d : bytes) (ec : bool) : Prop :=
  ∃ i sl, slots s !! i = Some sl ∧ has_buffer sl = true ∧
          timestamp sl = ts ∧ content sl = d ∧ sEC sl = ec.

(** The invariant is kept and nothing is added to the contents. *)
Definition shrinks s s' : Prop := inv s' ∧ ∀ ts d ec, Holds s' ts d ec → Holds s ts d ec.

Definition safe {A} (m : M t A) : Prop :=
  ∀ s, inv s → wp m s (λ _, shrinks s) no_throw only_cast.

Lemma shrinks_refl s : inv s → shrinks s s.
Proof. by split. Qed.
Lemma shrinks_trans s1 s2 s3 : shrinks s1 s2 → shrinks s2 s3 → shrinks s1 s3.
Proof. intros [_ H1] [? H2]. split; eauto. Qed.
Lemma shrinks_inv s s' : shrinks s s' → inv s'.
Proof. by intros []. Qed.

Lemma jb_safe_bind {A B} (m : M t A) (f : A → M t B) :
  safe m → (∀ a, safe (f a)) → safe (m ≫= f).
Proof.
  intros Hm Hf s Hs. apply wp_bind. eapply wp_mono; [by apply Hm|]. intros a s1 H1. simpl.
  eapply wp_mono; [eapply Hf, shrinks_inv, H1|]. intros b s2. simpl. by apply shrinks_trans.
Qed.
Lemma safe_ret {A} (a : A) : safe (mret a).
Proof. intros s Hs. by apply shrinks_refl. Qed.
Lemma safe_get : safe get.
Proof. intros s Hs. by apply shrinks_refl. Qed.
Lemma safe_cast {A} : safe (A := A) (crash_with BadCast).
Proof. by intros s Hs. Qed.
Lemma safe_if {A} (b : bool) (m m' : M t A) : safe m → safe m' → safe (if b then m else m').
Proof. by destruct b. Qed.

Lemma shrinks_frame s s' :
  bufferPool s' = bufferPool s → slots s' = slots s → maxUsedSlots s' = maxUsedSlots s →
  HistoricBuffer.wf (lateHistory s') ∧ HistoricBuffer.size (lateHistory s') = 64 →
  HistoricBuffer.wf (delayHistory s') ∧ HistoricBuffer.size (delayHistory s') = 64 →
  HistoricBuffer.wf (deviationHistory s') ∧ HistoricBuffer.size (deviationHistory s') = 64 →
  inv s → shrinks s s'.
Proof.
  intros E1 E2 E3 ??? []. split; [constructor; by rewrite ?E1, ?E2, ?E3|].
  intros ts d ec. unfold Holds. by rewrite E2.
Qed.

Lemma safe_modify f :
  (∀ s, inv s → shrinks s (f s)) → safe (modify f).
Proof. intros Hf s Hs. by apply wp_modify, Hf. Qed.
End invariant.

(** A [modify] that leaves the slots, the pool and the histories alone. *)
Ltac jb_same Hs :=
  apply shrinks_frame;
  first [ done | exact Hs | exact (inv_late _ Hs) | exact (inv_delay _ Hs) | exact (inv_dev _ Hs)
        | simpl; auto ].
Ltac jb_frame :=
  let s := fresh "s" in let Hs := fresh "Hs" in intros s Hs; jb_same Hs.

Section operations.
Import JitterBuffer.
Implicit Types s : t.

Lemma hist_Add {T} (x : T) (h : HistoricBuffer.t T) :
  HistoricBuffer.wf h ∧ HistoricBuffer.size h = 64 →
  HistoricBuffer.wf (HistoricBuffer.Add x h) ∧ HistoricBuffer.size (HistoricBuffer.Add x h) = 64.
Proof. intros [Hwf Hs]. split; [by apply Add_wf|by rewrite Add_size]. Qed.

Lemma hist_Reset {T A} `{HistoricOps T A} (h : HistoricBuffer.t T) :
  HistoricBuffer.wf h ∧ HistoricBuffer.size h = 64 →
  HistoricBuffer.wf (HistoricBuffer.Reset (A := A) h) ∧
  HistoricBuffer.size (HistoricBuffer.Reset (A := A) h) = 64.
Proof.
  intros [_ Hs]. unfold HistoricBuffer.size, zlen in Hs.
  assert (E : HistoricBuffer.size (HistoricBuffer.Reset (A := A) h) = 64).
  { unfold HistoricBuffer.size, HistoricBuffer.Reset. simpl. rewrite zlen_replicate. lia. }
  split; [|done]. constructor; rewrite E; simpl; lia.
Qed.

Lemma shrinks_release i s sl p :
  slots s !! i = Some sl →
  inv (with_slots p (<[i := sl <| buffer := None |>]> (slots s)) s) →
  shrinks s (with_slots p (<[i := sl <| buffer := None |>]> (slots s)) s).
Proof.
  intros Hsl Hinv. split; [done|]. intros ts d ec (j & sl' & Hj & Hb & Ht).
  simpl in Hj. apply list_lookup_insert_Some in Hj as [(<-&<-&_)|[? ?]]; [done|].
  by exists j, sl'.
Qed.

Lemma safe_release i : (i < 64)%nat → safe (release i).
Proof.
  intros Hi s Hs. destruct (release_spec i s Hs Hi) as (sl & p & Hsl & Hr & Hinv).
  unfold wp. rewrite Hr. by apply shrinks_release.
Qed.

Lemma safe_release_if test ks : Forall (λ i, i < 64)%nat ks → safe (release_if test ks).
Proof.
  induction 1 as [|i ks Hi _ IH]; simpl; [apply safe_ret|].
  intros s Hs. apply wp_bind, wp_get.
  destruct (lookup_lt_is_Some_2 (slots s) i) as [sl Hsl];
    [rewrite (ok_slots _ _ (inv_slots _ Hs)); lia|].
  apply wp_bind, (wp_defined _ _ _ sl); [done|].
  apply jb_safe_bind; [|done|done]. apply safe_if; [by apply safe_release|apply safe_ret].
Qed.

Lemma all_slots_lt : Forall (λ i, i < 64)%nat all_slots.
Proof. apply Forall_seq. unfold SLOT_COUNT. lia. Qed.

Hint Resolve jb_safe_bind safe_ret safe_get safe_cast safe_if safe_release_if all_slots_lt
  inv_late inv_delay inv_dev hist_Add hist_Reset : core.

Lemma safe_Advance : safe Advance.
Proof. apply safe_modify. jb_frame. Qed.

Lemma safe_Reset : safe Reset.
Proof.
  apply jb_safe_bind; [apply safe_modify; jb_frame|intros ?].
  apply jb_safe_bind; [auto|intros ?]. apply safe_modify. jb_frame.
Qed.

Lemma safe_resync ts : safe (resync ts).
Proof.
  intros s Hs. unfold wp, resync. destruct (resync_timestamp ts s); [|done].
  jb_same Hs.
Qed.

Lemma safe_note_arrival time : safe (modify (note_arrival time)).
Proof.
  apply safe_modify. intros s. unfold note_arrival. destruct (negb _); revert s; jb_frame.
Qed.

(** ** Making room and storing *)

Definition occupied s : list slot := filter (λ sl, has_buffer sl = true) (slots s).

Lemma occupied_one (l : list slot) :
  (1 ≤ length (filter (λ sl, has_buffer sl = true) l))%nat →
  ∃ i sl, l !! i = Some sl ∧ has_buffer sl = true.
Proof.
  induction l as [|x l IH]; simpl; [lia|]. rewrite filter_cons. case_decide as Hx; intros H.
  - by exists 0%nat, x.
  - destruct (IH H) as (i & sl & Hi & Hb). by exists (S i), sl.
Qed.

Lemma occupied_two (l : list slot) :
  (2 ≤ length (filter (λ sl, has_buffer sl = true) l))%nat →
  ∃ i j a b, i ≠ j ∧ l !! i = Some a ∧ l !! j = Some b ∧ has_buffer a = true ∧ has_buffer b = true.
Proof.
  induction l as [|x l IH]; simpl; [lia|]. rewrite filter_cons. case_decide as Hx; intros H; simpl in H.
  - destruct (occupied_one l) as (j & b & Hj & Hb); [lia|]. by exists 0%nat, (S j), x, b.
  - destruct (IH H) as (i & j & a & b & Hij & ? & ? & ? & ?). exists (S i), (S j), a, b.
    split_and!; auto.
Qed.

(** The search finds an occupied slot as soon as one of them has a
    timestamp below the initial bound. *)
Lemma oldest_lt l k r best j sl :
  l !! j = Some sl → has_buffer sl = true → timestamp sl < best →
  (oldest l k r best < k + length l)%nat.
Proof.
  assert (Hle : ∀ l k r best, (oldest l k r best < k + length l)%nat ∨ oldest l k r best = r).
  { clear. induction l as [|x l IH]; intros k r best; simpl; [by right|].
    destruct (_ && _).
    - destruct (IH (S k) k (timestamp x)) as [?| ->]; left; lia.
    - destruct (IH (S k) r best) as [?| ->]; [left; lia|by right]. }
  revert k r best j. induction l as [|x l IH]; intros k r best [|j] Hj Hb Ht; simplify_eq/=.
  - rewrite Hb. destruct (Z.ltb_spec (timestamp sl) best); [|lia]. simpl.
    destruct (Hle l (S k) k (timestamp sl)) as [?| ->]; lia.
  - destruct (has_buffer x && (timestamp x <? best)) eqn:E.
    + destruct (Hle l (S k) k (timestamp x)) as [?| ->]; lia.
    + specialize (IH (S k) r best j Hj Hb Ht). lia.
Qed.

Lemma make_room_crowded s :
  inv s →
  (default SLOT_COUNT (find_index (λ sl, negb (has_buffer sl)) (slots s)) =? SLOT_COUNT)%nat
  || (maxUsedSlots s <=? GetCurrentDelay s) = true →
  (2 ≤ length (occupied s))%nat.
Proof.
  intros Hs [H|H]%orb_true_iff.
  - destruct (find_index _ _) as [i|] eqn:E; simpl in H.
    + apply Nat.eqb_eq in H. apply find_index_lt in E. rewrite (ok_slots _ _ (inv_slots _ Hs)), H in E.
      unfold SLOT_COUNT in E. lia.
    + apply find_index_None in E. unfold occupied.
      assert (filter (λ sl, has_buffer sl = true) (slots s) = slots s) as ->.
      { clear H. induction E as [|x l Hx _ IH]; [done|]. rewrite filter_cons_True, IH; [done|].
        by apply negb_false_iff. }
      rewrite (ok_slots _ _ (inv_slots _ Hs)). lia.
  - apply Z.leb_le in H. pose proof (inv_max _ Hs). unfold GetCurrentDelay, zlen in H.
    assert (Hl : (length (occupied s) ≤ 64)%nat).
    { rewrite <- (ok_slots _ _ (inv_slots _ Hs)). apply length_filter. }
    unfold occupied in *. rewrite u32_small in H by lia. lia.
Qed.

Lemma oldest_in_range s :
  inv s → (2 ≤ length (occupied s))%nat →
  (oldest (slots s) 0 SLOT_COUNT 4294967295 < 64)%nat.
Proof.
  intros Hs (i & j & a & b & Hij & Ha & Hb & Hba & Hbb)%occupied_two.
  pose proof (inv_slots _ Hs) as Hok.
  rewrite <- (ok_slots _ _ Hok).
  destruct (ok_content _ _ Hok i a Ha) as [Hua _]. destruct (ok_content _ _ Hok j b Hb) as [Hub _].
  assert (timestamp a ≠ timestamp b) by (intros Heq; by apply Hij, (ok_distinct _ _ Hok i j a b)).
  destruct (Z.lt_ge_cases (timestamp a) 4294967295).
  - by apply (oldest_lt (slots s) 0 SLOT_COUNT _ i a).
  - apply (oldest_lt (slots s) 0 SLOT_COUNT _ j b); [done..|]. lia.
Qed.

(** [make_room] yields an empty slot. *)
Lemma make_room_spec s :
  inv s →
  wp make_room s (λ i s', shrinks s s' ∧ ∃ sl, slots s' !! i = Some sl ∧ has_buffer sl = false)
     no_throw only_cast.
Proof.
  intros Hs. unfold make_room. apply wp_bind, wp_get. apply wp_if; intros Hc.
  - pose proof (oldest_in_range s Hs (make_room_crowded s Hs Hc)) as Hlt.
    apply wp_bind. eapply wp_mono; [by apply safe_Advance|]. intros [] s1 H1. simpl.
    apply wp_bind. destruct (release_spec _ s1 (shrinks_inv _ _ H1) Hlt) as (sl & p & Hsl & Hr & Hinv).
    unfold wp at 1. rewrite Hr. apply wp_ret. split.
    + eapply shrinks_trans; [done|]. by apply shrinks_release.
    + eexists. split; [apply list_lookup_insert_eq; by eapply lookup_lt_Some|done].
  - apply wp_ret. split; [by apply shrinks_refl|].
    apply orb_false_iff in Hc as [Hc _]. apply Nat.eqb_neq in Hc.
    destruct (find_index _ _) as [i|] eqn:E; simpl in *; [|done].
    apply find_index_Some in E as (sl & Hsl & Hb & _). exists sl. split; [done|].
    by apply negb_true_iff.
Qed.
End operations.

Section put.
Import JitterBuffer.
Implicit Types s : t.
Hint Resolve jb_safe_bind safe_ret safe_get safe_cast safe_if safe_release_if all_slots_lt
  inv_late inv_delay inv_dev hist_Add hist_Reset safe_resync safe_note_arrival : core.

Lemma omap_length_lt (l : list slot) i sl :
  l !! i = Some sl → has_buffer sl = false → (length (omap buffer l) < length l)%nat.
Proof.
  intros Hi Hb%has_buffer_None.
  assert (Hle : ∀ l : list slot, (length (omap buffer l) ≤ length l)%nat).
  { clear. induction l as [|x l IH]; csimpl; [lia|]. destruct (buffer x); csimpl; lia. }
  revert i Hi. induction l as [|x l IH]; intros [|i] Hi; simplify_eq/=.
  - rewrite Hb. pose proof (Hle l). lia.
  - specialize (IH i Hi). destruct (buffer x); simpl; lia.
Qed.

Lemma store_spec s i sl pkt time :
  inv s → slots s !! i = Some sl → has_buffer sl = false → is_u32 (p_timestamp pkt) →
  (∀ d ec, ¬ Holds s (p_timestamp pkt) d ec) →
  ∃ s' b, store i pkt time s = Ret tt s' ∧ inv s' ∧ is_Some b ∧
    slots s' = <[i := mkslot b (p_data pkt) (zlen (p_data pkt)) (p_timestamp pkt) (p_isEC pkt)
                        (D.sub time (prevRecvTime s))]> (slots s).
Proof.
  intros Hs Hsl Hb Hu Hnew. pose proof (inv_slots _ Hs) as Hok. unfold store. rewrite Hsl.
  destruct (BufferPool.Get (bufferPool s)) as [b p] eqn:Hget.
  assert (Hcnt : BufferPool.bufferCount p = 64).
  { rewrite <- (ok_count _ _ Hok). change p with ((b, p).2). by rewrite <- Hget, Get_count. }
  destruct b as [a|].
  - destruct (Get_fresh _ _ _ (ok_pool _ _ Hok) Hget) as (Hwf & Hperm & _).
    do 2 eexists. split; [done|]. split; [|by split].
    destruct Hs as [_ ? ? ? ?]. constructor; try done. simpl.
    eapply ok_update; try done.
    + rewrite Hperm, <- (ok_owned _ _ Hok).
      etransitivity; [eapply (omap_insert_None _ i _ sl a);
        [apply list_lookup_insert_eq; by eapply lookup_lt_Some|done|by apply has_buffer_None]|].
      by rewrite list_insert_insert_eq, list_insert_id.
    + intros _ j x Hne Hx Hbx Heq. eapply Hnew. exists j, x. done.
  - exfalso. destruct (Get_exhausted _ _ (ok_pool _ _ Hok) Hget) as [_ Hl].
    rewrite <- (ok_owned _ _ Hok), (ok_count _ _ Hok) in Hl.
    pose proof (omap_length_lt _ _ _ Hsl Hb). rewrite (ok_slots _ _ Hok) in *. lia.
Qed.

(** What a packet that is stored does to the contents. *)
Definition put_post (pkt : packet) s s' : Prop :=
  inv s' ∧ Holds s' (p_timestamp pkt) (p_data pkt) (p_isEC pkt) ∧
  ∀ ts d ec, ts ≠ p_timestamp pkt → Holds s' ts d ec → Holds s ts d ec.

Lemma place_spec s pkt time :
  inv s → is_u32 (p_timestamp pkt) → (∀ d ec, ¬ Holds s (p_timestamp pkt) d ec) →
  wp (place pkt time) s (λ _, put_post pkt s) no_throw only_cast.
Proof.
  intros Hs Hu Hnew. unfold place. apply wp_bind, wp_modify.
  set (s0 := if _ : bool then _ else _).
  assert (H0 : shrinks s s0) by (unfold s0; destruct (_ <? _); [jb_same Hs|by apply shrinks_refl]).
  apply wp_bind. eapply wp_mono; [apply make_room_spec, (shrinks_inv _ _ H0)|].
  intros i s1 [H1 (sl & Hsl & Hb)]. simpl.
  pose proof (shrinks_trans _ _ _ H0 H1) as [Hi1 Hkeep].
  destruct (store_spec s1 i sl pkt time Hi1 Hsl Hb Hu) as (s2 & b & Hst & Hi2 & [a ->] & Hslots);
    [intros d ec Hh; by eapply Hnew, Hkeep|].
  unfold wp. rewrite Hst. split_and!; [done| |].
  - do 2 eexists. rewrite Hslots. split; [apply list_lookup_insert_eq; by eapply lookup_lt_Some|done].
  - intros ts d ec Hne (j & x & Hj & Hbx & Ht & Hx). apply Hkeep.
    rewrite Hslots in Hj. apply list_lookup_insert_Some in Hj as [(<-&<-&_)|[? ?]].
    + by destruct Hne.
    + by exists j, x.
Qed.

Lemma put_post_trans pkt s s1 s2 : shrinks s s1 → put_post pkt s1 s2 → put_post pkt s s2.
Proof. intros [? Hk] (? & ? & Hn). split_and!; eauto. Qed.

(** Whatever its timestamp, a packet that is not held already is stored. *)
Lemma put_new_spec s pkt time :
  inv s → is_u32 (p_timestamp pkt) → (∀ d ec, ¬ Holds s (p_timestamp pkt) d ec) →
  wp (put_new pkt time) s (λ _, put_post pkt s) no_throw only_cast.
Proof.
  intros Hs Hu Hnew. unfold put_new.
  assert (Hplace : ∀ s1, shrinks s s1 →
    wp (place pkt time) s1 (λ _, put_post pkt s) no_throw only_cast).
  { intros s1 [Hi1 Hk]. eapply wp_mono.
    - apply place_spec; [done..|]. intros d ec Hh. by eapply Hnew, Hk.
    - intros ? s2. simpl. by apply put_post_trans. }
  apply wp_bind, wp_modify, wp_bind, wp_get, wp_bind.
  set (s0 := _ <| gotSinceReset := _ |>). assert (H0 : shrinks s s0) by jb_same Hs.
  eapply wp_mono; [apply (safe_if _ (resync _) (mret tt)); auto; eapply shrinks_inv, H0|].
  intros ? s1 H1. cbv beta in H1 |- *. apply wp_bind.
  eapply wp_mono; [apply safe_release_if; [apply all_slots_lt|eapply shrinks_inv, H1]|].
  intros ? s2 H2. cbv beta in H2 |- *. apply wp_bind.
  eapply wp_mono; [apply safe_note_arrival; eapply shrinks_inv, H2|]. intros ? s3 H3. cbv beta in H3 |- *.
  assert (H03 : shrinks s s3) by
    exact (shrinks_trans _ _ _ H0 (shrinks_trans _ _ _ H1 (shrinks_trans _ _ _ H2 H3))).
  clear H1 H2 H3 s1 s2. apply wp_bind, wp_get.
  destruct (Z.ltb_spec (p_timestamp pkt) (nextTimestamp s3)).
  - apply wp_bind, wp_modify, Hplace. eapply shrinks_trans; [done|].
    pose proof (shrinks_inv _ _ H03) as H3. jb_same H3.
  - destruct (Z.ltb_spec (p_timestamp pkt) (nextTimestamp s3 - 1)); [lia|]. by apply Hplace.
Qed.

Lemma same_timestamp_true ts sl :
  same_timestamp ts sl = true ↔ has_buffer sl = true ∧ timestamp sl = ts.
Proof. unfold same_timestamp. by rewrite andb_true_iff, Z.eqb_eq. Qed.

Lemma find_None_Holds s ts :
  find_index (same_timestamp ts) (slots s) = None ↔ ∀ d ec, ¬ Holds s ts d ec.
Proof.
  rewrite find_index_None, Forall_lookup. split.
  - intros H d ec (i & sl & Hi & Hb & Ht & _). specialize (H i sl Hi).
    apply not_true_iff_false in H. by apply H, same_timestamp_true.
  - intros H i sl Hi. apply not_true_iff_false. intros [Hb Ht]%same_timestamp_true.
    apply (H (content sl) (sEC sl)). by exists i, sl.
Qed.

Lemma find_Some_Holds s ts i :
  find_index (same_timestamp ts) (slots s) = Some i →
  ∃ sl, slots s !! i = Some sl ∧ has_buffer sl = true ∧ timestamp sl = ts ∧
        Holds s ts (content sl) (sEC sl).
Proof.
  intros (sl & Hi & [Hb Ht]%same_timestamp_true & _)%find_index_Some.
  exists sl. split_and!; [done..|]. by exists i, sl.
Qed.

(** The contents are a function of the timestamp. *)
Lemma Holds_inj s ts d ec d' ec' :
  inv s → Holds s ts d ec → Holds s ts d' ec' → d = d' ∧ ec = ec'.
Proof.
  intros Hs (i & a & Ha & Hba & Hta & <- & <-) (j & b & Hb & Hbb & Htb & <- & <-).
  assert (i = j) as -> by (eapply (ok_distinct _ _ (inv_slots _ Hs)); eauto; congruence).
  by simplify_eq.
Qed.

(** All that [PutInternal] does to the contents. *)
Lemma PutInternal_spec s pkt over time :
  inv s → is_u32 (p_timestamp pkt) →
  wp (PutInternal pkt over time) s (λ _ s',
    (SLOT_SIZE < zlen (p_data pkt) ∧ s' = s) ∨
    (zlen (p_data pkt) ≤ SLOT_SIZE ∧ over = false ∧ s' = s ∧ ∃ d ec, Holds s (p_timestamp pkt) d ec) ∨
    (zlen (p_data pkt) ≤ SLOT_SIZE ∧ put_post pkt s s')) no_throw only_cast.
Proof.
  intros Hs Hu. unfold PutInternal. destruct (Z.ltb_spec SLOT_SIZE (zlen (p_data pkt))).
  { apply wp_ret. by left. }
  apply wp_bind, wp_get. destruct (find_index _ _) as [i|] eqn:Hf.
  - destruct (find_Some_Holds _ _ _ Hf) as (sl & Hsl & Hb & Ht & Hh). destruct over.
    + apply wp_modify. right. right. split; [done|].
      set (sl' := sl <| content := p_data pkt |> <| ssize := zlen (p_data pkt) |>
                     <| sEC := p_isEC pkt |>).
      set (s' := _ <| slots ::= _ |>).
      assert (Hslots : slots s' = <[i := sl']> (slots s)).
      { unfold s'. simpl. rewrite list_insert_alter. apply list_alter_ext; [|done].
        intros x Hx. by simplify_eq. }
      split_and!.
      * pose proof (inv_slots _ Hs) as Hok. destruct (ok_content _ _ Hok i sl Hsl) as [Hu' _].
        destruct Hs as [_ ? ? ? ?]. constructor; try done. rewrite Hslots.
        eapply ok_update; try done; try apply Hok.
        -- rewrite (omap_insert_same _ _ sl) by done. apply Hok.
        -- intros _ j b Hne Hj Hbb Heq. apply Hne.
           by apply (ok_distinct _ _ Hok j i b sl).
      * exists i, sl'. rewrite Hslots. split_and!; [|done..].
        apply list_lookup_insert_eq. by eapply lookup_lt_Some.
      * intros ts d ec Hne (j & x & Hj & Hbx & Htx & Hx). rewrite Hslots in Hj.
        apply list_lookup_insert_Some in Hj as [(<-&<-&_)|[? ?]]; [|by exists j, x].
        exfalso. apply Hne. by rewrite <- Htx, <- Ht.
    + apply wp_ret. right. left. split_and!; eauto.
  - eapply wp_mono; [apply put_new_spec; [done..|by apply find_None_Holds]|].
    intros ? s' H'. simpl. auto.
Qed.
End put.

(** ** Taking a packet out, and the periodic work *)

Section get_tick.
Import JitterBuffer.
Implicit Types s : t.
Hint Resolve jb_safe_bind safe_ret safe_get safe_cast safe_if safe_release_if all_slots_lt
  inv_late inv_delay inv_dev hist_Add hist_Reset safe_Advance safe_Reset shrinks_refl : core.

Lemma safe_spec {A} (m : M t A) s s1 :
  safe m → shrinks s s1 → wp m s1 (λ _, shrinks s) no_throw only_cast.
Proof.
  intros Hm H1. eapply wp_mono; [by eapply Hm, shrinks_inv|]. intros a s2 H2.
  by eapply shrinks_trans.
Qed.

Lemma release_removes i s sl p ts :
  inv s → slots s !! i = Some sl → has_buffer sl = true → timestamp sl = ts →
  let s' := with_slots p (<[i := sl <| buffer := None |>]> (slots s)) s in
  (∀ d ec, ¬ Holds s' ts d ec) ∧
  (∀ ts' d ec, ts' ≠ ts → Holds s ts' d ec → Holds s' ts' d ec).
Proof.
  intros Hs Hsl Hb Ht s'. split.
  - intros d ec (j & x & Hj & Hbx & Htx & _). simpl in Hj.
    apply list_lookup_insert_Some in Hj as [(<-&<-&_)|[Hne Hj]]; [done|].
    apply Hne. by apply (ok_distinct _ _ (inv_slots _ Hs) i j sl x); [..|congruence].
  - intros ts' d ec Hne (j & x & Hj & Hbx & Htx & Hx). exists j, x. split; [|done].
    simpl. rewrite list_lookup_insert_ne; [done|]. intros <-. simplify_eq.
Qed.

Lemma safe_loss_reset : safe loss_reset.
Proof.
  apply jb_safe_bind; [auto|intros s0]. apply safe_if; [|auto].
  apply jb_safe_bind; [apply safe_modify; jb_frame|intros _].
  apply jb_safe_bind; [|intros _; apply jb_safe_bind; [apply safe_modify; jb_frame|auto]].
  apply safe_if; [|auto]. destruct (D.to_s64 _); [apply safe_modify; jb_frame|auto].
Qed.

Definition get_post (cap k : Z) s (r : result * got) s' : Prop :=
  shrinks s s' ∧
  match r.1 with
  | JR_OK => ∃ d ec, Holds s k d ec ∧
      r.2 = (if cap <? zlen d then None else Some (d, zlen d, ec)) ∧
      (∀ d' ec', ¬ Holds s' k d' ec') ∧
      (∀ ts d' ec', ts ≠ k → Holds s ts d' ec' → Holds s' ts d' ec')
  | _ => r.2 = None ∧ ∀ d ec, ¬ Holds s k d ec
  end.

Lemma GetInternal_spec s cap off advance :
  inv s →
  wp (GetInternal cap off advance) s (get_post cap (timestamp_to_get off s) s) no_throw only_cast.
Proof.
  intros Hs. unfold GetInternal. apply wp_bind, wp_get.
  set (k := timestamp_to_get off s). destruct (find_index _ _) as [i|] eqn:Hf.
  - destruct (find_Some_Holds _ _ _ Hf) as (sl & Hsl & Hb & Ht & Hh).
    apply wp_bind, (wp_defined _ _ _ sl); [done|]. apply wp_bind.
    assert (Hi : (i < 64)%nat) by
      (rewrite <- (ok_slots _ _ (inv_slots _ Hs)); by eapply lookup_lt_Some).
    destruct (release_spec i s Hs Hi) as (sl' & p & Hsl' & Hr & Hinv).
    rewrite Hsl in Hsl'. injection Hsl' as <-. unfold wp at 1. rewrite Hr.
    destruct (release_removes i s sl p k Hs Hsl Hb Ht) as [Hgone Hkeep].
    set (s1 := with_slots _ _ _) in *.
    assert (Hfr : ∀ s2, slots s2 = slots s1 → ∀ ts d ec, Holds s2 ts d ec ↔ Holds s1 ts d ec)
      by (intros s2 E ts d ec; unfold Holds; by rewrite E).
    destruct (ok_content _ _ (inv_slots _ Hs) i sl Hsl) as [_ Hz].
    assert (Hend : ∀ s2, shrinks s s2 → slots s2 = slots s1 →
      get_post cap k s (JR_OK, if cap <? ssize sl then None else Some (content sl, ssize sl, sEC sl)) s2).
    { intros s2 H2 E. split; [done|]. exists (content sl), (sEC sl). rewrite Hz.
      split_and!; [done|done| |].
      - intros d' ec' Hh'. apply (Hgone d' ec'). by apply (Hfr s2 E).
      - intros ts d' ec' Hne Hh'. apply (Hfr s2 E). by apply Hkeep. }
    assert (H1 : shrinks s s1) by by apply shrinks_release.
    apply wp_bind, wp_if; intros _; apply wp_modify || apply wp_ret; apply wp_bind, wp_modify, wp_ret, Hend;
      try done; (eapply shrinks_trans; [exact H1|]; jb_same Hinv).
  - pose proof (proj1 (find_None_Holds s k) Hf) as Hno.
    apply wp_bind. eapply wp_mono; [apply (safe_spec _ s s); auto|]. intros ? s1 H1.
    apply wp_bind, wp_get, wp_if; intros _; [|apply wp_ret; by split].
    apply wp_bind, wp_modify. apply wp_bind.
    set (s2 := _ <| lostCount := _ |>).
    assert (H2 : shrinks s s2).
    { eapply shrinks_trans; [exact H1|]. pose proof (shrinks_inv _ _ H1) as Hi1. jb_same Hi1. }
    eapply wp_mono; [apply (safe_spec _ s s2); [|done]; apply safe_if; [apply safe_modify; jb_frame|auto]|].
    intros ? s3 H3. apply wp_bind.
    eapply wp_mono; [apply (safe_spec _ s s3); [apply safe_loss_reset|done]|].
    intros ? s4 H4. apply wp_ret. by split.
Qed.

Lemma safe_drop_until n m : safe (drop_until n m).
Proof.
  induction n as [|n IH]; cbn [drop_until]; [auto|].
  apply safe_if; [|auto]. intros s Hs. apply wp_bind, wp_get. apply jb_safe_bind; [|auto|done].
  destruct (find_index _ _) as [i|] eqn:Hf; [|auto]. apply safe_release.
  rewrite <- (ok_slots _ _ (inv_slots _ Hs)). by eapply find_index_lt.
Qed.

Lemma safe_catch_up : safe catch_up.
Proof.
  apply jb_safe_bind; [auto|intros s0]. apply safe_if; [|auto]. apply jb_safe_bind; [apply safe_modify; jb_frame|intros _].
  apply safe_if; [|auto]. destruct (GetMinPacketCount s0); [apply safe_drop_until|auto].
Qed.
Lemma safe_HandleOutput cap off advance : safe (HandleOutput cap off advance).
Proof.
  apply jb_safe_bind; [apply safe_catch_up|intros _]. apply jb_safe_bind.
  { intros s Hs. eapply wp_mono; [by apply GetInternal_spec|]. by intros r s' []. }
  intros [r g]. apply jb_safe_bind; [auto|intros s1].
  apply jb_safe_bind; [|intros d; destruct r; auto].
  repeat apply safe_if; auto; apply jb_safe_bind; auto; apply safe_modify; jb_frame.
Qed.

Lemma AverageN_is_Some {T A} `{HistoricOps T A} (h : HistoricBuffer.t T) n :
  HistoricBuffer.wf h → Z.of_nat n ≤ HistoricBuffer.size h →
  is_Some (HistoricBuffer.AverageN (A := A) h n).
Proof.
  intros Hwf Hn. unfold HistoricBuffer.AverageN.
  assert (is_Some (mapM (λ i : nat, HistoricBuffer.index h (Z.of_nat i)) (seq 0 n))) as [l ->]; [|done].
  apply mapM_is_Some, Forall_seq. intros i Hi. apply index_is_Some; [done|lia].
Qed.

Lemma stddev_is_Some s : inv s → is_Some (stddev s).
Proof.
  intros Hs. destruct (inv_dev _ Hs) as [Hwf Hsz]. unfold stddev.
  assert (is_Some (mapM (λ i : nat, HistoricBuffer.index (deviationHistory s) (Z.of_nat i)) (seq 0 64)))
    as [l ->]; [|done].
  apply mapM_is_Some, Forall_seq. intros i Hi. apply index_is_Some; [done|lia].
Qed.

Lemma safe_adjust_delay d : safe (adjust_delay d).
Proof.
  apply jb_safe_bind; [auto|intros s0]. apply safe_if; [|auto]. destruct (D.to_s32 _); [|auto].
  apply jb_safe_bind; [apply safe_if; [apply safe_modify; jb_frame|auto]|intros _].
  apply jb_safe_bind; [auto|intros s1]. apply safe_if; [|auto].
  apply jb_safe_bind; [apply safe_modify; jb_frame|intros _].
  apply jb_safe_bind; [|intros _]; apply safe_if; auto; apply safe_modify; jb_frame.
Qed.

Lemma wp_defined_safe {A B} (o : option A) (k : A → M t B) s :
  inv s → is_Some o → (∀ a, safe (k a)) →
  wp (defined o ≫= k) s (λ _, shrinks s) no_throw only_cast.
Proof.
  intros Hs [a Ha] Hk. apply wp_bind, (wp_defined _ _ _ a); [done|]. by apply Hk.
Qed.

Lemma safe_stretch : safe (modify stretch).
Proof.
  apply safe_modify. intros s2. unfold stretch.
  destruct (dontChangeDelay s2 =? 0); [destruct (D.gtb _ _); [|destruct (D.ltb _ _)]|];
    destruct (0 <? _); revert s2; jb_frame.
Qed.

Lemma safe_Tick : safe Tick.
Proof.
  apply jb_safe_bind; [apply safe_modify; jb_frame|intros _].
  intros s Hs. apply wp_bind, wp_get, wp_defined_safe; [done| |intros late16].
  { destruct (inv_late _ Hs) as [? E]. apply AverageN_is_Some; [done|rewrite E; lia]. }
  apply jb_safe_bind; [apply safe_if; [apply safe_modify; jb_frame|auto]|intros _].
  apply jb_safe_bind; [apply safe_if; [|auto]|intros _].
  { apply safe_modify. intros s1. destruct (0 <? _); revert s1; jb_frame. }
  apply jb_safe_bind; [apply safe_modify; jb_frame|intros _].
  clear s Hs. intros s Hs. apply wp_bind, wp_get, wp_defined_safe; [done| |intros avg].
  { destruct (inv_delay _ Hs) as [? E]. apply AverageN_is_Some; [done|rewrite E; lia]. }
  apply jb_safe_bind; [apply safe_modify; jb_frame|intros _].
  intros s1 H1. apply wp_defined_safe; [done|by apply stddev_is_Some|intros sd].
  destruct (D.to_u32 _) as [d|]; [|auto].
  apply jb_safe_bind; [apply safe_adjust_delay|intros _].
  apply jb_safe_bind; [apply safe_modify; jb_frame|intros _].
  apply jb_safe_bind; [apply safe_stretch|intros _; apply safe_modify; jb_frame].
Qed.
End get_tick.

(* ================================================================== *)
(** ** The buffer as a whole *)

Module JitterOps.
Import JitterBuffer.

(** The public calls. *)
Inductive op :=
  | OpInput (data : bytes) (ts : Z) (isEC : bool) (time : double)
  | OpOutput (cap offset : Z) (advance : bool)
  | OpReset
  | OpSetMinPacketCount (count : Z)
  | OpTakeLostCount
  | OpTick.

Definition valid (o : op) : Prop :=
  match o with OpInput _ ts _ _ => is_u32 ts | _ => True end.

Definition run (o : op) : M t unit :=
  match o with
  | OpInput d ts ec time => HandleInput d ts ec time
  | OpOutput cap off adv => HandleOutput cap off adv;; mret tt
  | OpReset => Reset
  | OpSetMinPacketCount c => modify (SetMinPacketCount c)
  | OpTakeLostCount => modify (λ s, (GetAndResetLostPacketCount s).2)
  | OpTick => Tick
  end.

Inductive step (s s' : t) : Prop :=
  | op_step o : valid o → run o s = Ret tt s' → step s s'.

Definition config_ok (cfg : config) : Prop :=
  ∀ k d, 2 ≤ d < 4294967296 → 2 ≤ GetInt cfg k d < 4294967296.

(** Reached by public calls from the constructor. *)
Definition reachable (s : t) : Prop :=
  ∃ cfg base stp s0, config_ok cfg ∧ ctor cfg base stp = Ret tt s0 ∧ star step s0 s.

(** The source's default for every server parameter. *)
Definition default_config : config := mkconfig (λ _ d, d) (λ _ d, d).

Fixpoint run_all (l : list op) (s : t) : option t :=
  match l with
  | [] => Some s
  | o :: l' => match run o s with Ret _ s' => run_all l' s' | _ => None end
  end.

End JitterOps.

Section whole.
Import JitterBuffer JitterOps.
Implicit Types s : t.

Lemma ctor_fields_inv cfg base stp s :
  config_ok cfg → ctor_fields cfg base stp = Some s → inv s.
Proof.
  intros Hcfg. unfold ctor_fields.
  set (r := if stp <? 30 then _ else _).
  assert (Hsl : 2 ≤ r.2).
  { pose proof (Hcfg "jitter_max_slots_20" 50 ltac:(lia)).
    pose proof (Hcfg "jitter_max_slots_40" 30 ltac:(lia)).
    pose proof (Hcfg "jitter_max_slots_60" 20 ltac:(lia)).
    unfold r. destruct (stp <? 30); [|destruct (stp <? 50)]; simpl; rewrite u32_small; lia. }
  destruct r as [[mn mx] sl]. simpl in Hsl.
  destruct (BufferPool.ctor base SLOT_SIZE (Z.of_nat SLOT_COUNT)) as [p|] eqn:Hp; [|done].
  intros [= <-].
  destruct (pool_ctor_wf base SLOT_SIZE (Z.of_nat SLOT_COUNT) p) as (Hwf & Hout & Hcnt); [done..|].
  assert (Hh : ∀ T A (H : HistoricOps T A), HistoricBuffer.wf (HistoricBuffer.ctor (A := A) 64) ∧
    HistoricBuffer.size (HistoricBuffer.ctor (A := A) 64) = 64).
  { intros. split; [apply ctor_HistoricBuffer_wf; lia|done]. }
  constructor; [|exact Hsl|apply Hh..].
  change (slots_ok p (replicate SLOT_COUNT fresh_slot)). constructor; auto.
  - by rewrite Hout.
  - intros i j a b (-> & _)%lookup_replicate. done.
  - intros i a (-> & _)%lookup_replicate. done.
Qed.

Lemma run_safe o s : valid o → inv s → wp (run o) s (λ _, inv) no_throw only_cast.
Proof.
  assert (Hsafe : ∀ m : M t unit, safe m → inv s → wp m s (λ _, inv) no_throw only_cast).
  { intros m Hm Hs. eapply wp_mono; [by apply Hm|]. by intros ? s' []. }
  intros Hv. destruct o; simpl in *.
  - intros Hs. eapply wp_mono; [by apply PutInternal_spec|].
    intros ? s' [[_ ->]|[(_ & _ & -> & _)|[_ []]]]; done.
  - apply Hsafe, jb_safe_bind; [apply safe_HandleOutput|intros ?; apply safe_ret].
  - apply Hsafe, safe_Reset.
  - apply Hsafe, safe_modify. jb_frame.
  - apply Hsafe, safe_modify. jb_frame.
  - apply Hsafe, safe_Tick.
Qed.

Lemma jb_reachable_inv s : reachable s → inv s.
Proof.
  intros (cfg & base & stp & s0 & Hcfg & H0 & Hstar).
  assert (Hi : inv s0).
  { unfold ctor in H0. destruct (ctor_fields cfg base stp) as [s1|] eqn:H1; [|done].
    pose proof (safe_Reset s1 (ctor_fields_inv _ _ _ _ Hcfg H1)) as Hr.
    unfold wp in Hr. rewrite H0 in Hr. by destruct Hr. }
  revert Hi. apply (star_invariant step inv); [|done]. intros a b [o Hv Ho] Ha.
  pose proof (run_safe o a Hv Ha) as Hr. unfold wp in Hr. by rewrite Ho in Hr.
Qed.

Lemma run_all_reachable l cfg base stp s0 s :
  config_ok cfg → ctor cfg base stp = Ret tt s0 → Forall valid l → run_all l s0 = Some s →
  reachable s.
Proof.
  intros Hcfg H0 Hl Hrun. exists cfg, base, stp, s0. split_and!; [done..|].
  clear H0. revert s0 Hrun. induction Hl as [|o l Ho _ IH]; intros s0 Hrun; simplify_eq/=; [constructor|].
  destruct (run o s0) as [[] s1| |] eqn:E; [|done..].
  eapply star_step; [by apply (op_step _ _ o)|by apply IH].
Qed.

(** C21. The jitter buffer never aborts: in every state reached by its public
    calls with server parameters of at least 2, every call returns without
    an exception, without returning a pointer to the pool that the pool did
    not hand out (the pool's [abort]) and without indexing its slots out of
    range; and afterwards the buffers its slots hold are exactly the pool's
    outstanding buffers, pairwise distinct, and no two occupied slots have
    the same timestamp. *)
Theorem jitter_never_aborts s o :
  reachable s → valid o →
  match run o s with
  | Ret _ s' => omap buffer (slots s') ≡ₚ BufferPool.outstanding (bufferPool s') ∧
      NoDup (omap buffer (slots s')) ∧
      (∀ i j a b, slots s' !! i = Some a → slots s' !! j = Some b →
         has_buffer a = true → has_buffer b = true → timestamp a = timestamp b → i = j)
  | Throw _ _ => False
  | Crash c => c = BadCast
  end.
Proof.
  intros Hs%jb_reachable_inv Hv. pose proof (run_safe o s Hv Hs) as H. unfold wp in H.
  destruct (run o s) as [a s'|?|?]; [|done..]. destruct (inv_slots _ H) as [Hwf _ _ Hp Hd _].
  split_and!; [done| |done]. rewrite Hp. by apply outstanding_NoDup.
Qed.

(** Every packet of at most 1024 bytes is stored, however late: after
    [HandleInput] the buffer holds the packet's bytes under its timestamp
    (an error-correction packet never replaces what is already there), and
    nothing under any other timestamp is added or changed.  In particular
    the "too late" test of [PutInternal] never drops anything, because its
    condition is implied by the negation of the one tested before it. *)
Theorem jitter_stores_every_packet s data ts isEC time s' :
  reachable s → is_u32 ts → zlen data ≤ SLOT_SIZE →
  HandleInput data ts isEC time s = Ret tt s' →
  (Holds s' ts data isEC ∨ (isEC = true ∧ s' = s ∧ ∃ d ec, Holds s ts d ec)) ∧
  (∀ ts' d ec, ts' ≠ ts → Holds s' ts' d ec → Holds s ts' d ec).
Proof.
  intros Hs%jb_reachable_inv Hu Hlen Hin.
  pose proof (PutInternal_spec s (mkpacket data ts isEC) (negb isEC) time Hs Hu) as H.
  unfold wp in H. unfold HandleInput in Hin. rewrite Hin in H. simpl in H.
  destruct H as [[? _]|[(_ & Hec & -> & Hh)|(_ & _ & Hh & Hk)]]; [lia| |by auto].
  apply negb_false_iff in Hec. split; eauto.
Qed.

(** C22. A packet is played exactly once and unchanged: [GetInternal] finds
    the packet at the play position exactly when the buffer holds one,
    returns its bytes, size and flag when they fit the caller's buffer,
    removes it, and leaves every other packet in place; when nothing is
    found, nothing is written and nothing is added. *)
Theorem jitter_delivers_once s cap off adv r out s' :
  reachable s → GetInternal cap off adv s = Ret (r, out) s' →
  let ts := timestamp_to_get off s in
  match r with
  | JR_OK => ∃ d ec, Holds s ts d ec ∧
      out = (if cap <? zlen d then None else Some (d, zlen d, ec)) ∧
      (∀ d' ec', ¬ Holds s' ts d' ec') ∧
      (∀ ts' d' ec', ts' ≠ ts → (Holds s' ts' d' ec' ↔ Holds s ts' d' ec'))
  | _ => out = None ∧ (∀ d ec, ¬ Holds s ts d ec) ∧
      (∀ ts' d' ec', Holds s' ts' d' ec' → Holds s ts' d' ec')
  end.
Proof.
  intros Hs%jb_reachable_inv Hget. pose proof (GetInternal_spec s cap off adv Hs) as H.
  unfold wp in H. rewrite Hget in H. destruct H as [[_ Hk] H]. simpl in H.
  destruct r; [|naive_solver..].
  destruct H as (d & ec & Hh & -> & Hno & Hkeep). exists d, ec. split_and!; [done..|].
  intros ts' d' ec' Hne. split; auto.
Qed.
End whole.

(** ** The adaptive delay *)

Section adapt.
Import JitterBuffer JitterOps.
Implicit Types s : t.

Definition dec_delay (d : double) : double := D.add d (D.of_Z (-1)).

Definition only_down s s' : Prop :=
  dontIncMinDelay s ≠ 0 →
  dontIncMinDelay s' ≠ 0 ∧ ∃ n, minDelay s' = Nat.iter n dec_delay (minDelay s).

#[local] Instance only_down_preorder : PreOrder only_down.
Proof.
  split.
  - intros s H. split; [done|]. by exists 0%nat.
  - intros s1 s2 s3 H12 H23 H. destruct (H12 H) as [H2 [n Hn]]. destruct (H23 H2) as [H3 [m Hm]].
    split; [done|]. exists (m + n)%nat. rewrite Hm, Hn. symmetry. apply Nat.iter_add.
Qed.

Lemma only_down_same s s' :
  dontIncMinDelay s' = dontIncMinDelay s → minDelay s' = minDelay s → only_down s s'.
Proof. intros E1 E2 H. rewrite E1, E2. split; [done|]. by exists 0%nat. Qed.

Lemma down_release i : along only_down (release i).
Proof.
  intros s. unfold release, wp. repeat case_match; simplify_eq; try done; by apply only_down_same.
Qed.
Lemma down_store i pkt time : along only_down (store i pkt time).
Proof. intros s. unfold store, wp. repeat case_match; simplify_eq; try done; by apply only_down_same. Qed.
Lemma down_resync ts : along only_down (resync ts).
Proof. intros s. unfold resync, wp. repeat case_match; simplify_eq; try done; by apply only_down_same. Qed.
Hint Resolve down_release down_store down_resync : core.

Ltac down :=
  repeat along_step; auto;
  try (unfold note_arrival, stretch; repeat case_match; by apply only_down_same).

Lemma down_release_if test ks : along only_down (release_if test ks).
Proof. induction ks as [|i ks IH]; cbn [release_if]; down. Qed.
Hint Resolve down_release_if : core.

Lemma down_Reset : along only_down Reset.
Proof. unfold Reset. down. Qed.
Lemma down_make_room : along only_down make_room.
Proof. unfold make_room, Advance. down. Qed.
Hint Resolve down_Reset down_make_room : core.

Lemma down_PutInternal pkt over time : along only_down (PutInternal pkt over time).
Proof. unfold PutInternal, put_new, place. down. Qed.

Lemma down_loss_reset : along only_down loss_reset.
Proof.
  unfold loss_reset. down. intros H. split; [done|]. by exists 0%nat.
Qed.
Hint Resolve down_loss_reset : core.

Lemma down_drop_until n m : along only_down (drop_until n m).
Proof. induction n as [|n IH]; cbn [drop_until]; unfold Advance; down. Qed.
Hint Resolve down_drop_until : core.

Lemma down_HandleOutput cap off adv : along only_down (HandleOutput cap off adv).
Proof. unfold HandleOutput, catch_up, GetInternal, Advance. down. Qed.

(** The step is clamped to one packet and, once [dontIncMinDelay] is set,
    only a decrease gets through. *)
Lemma down_adjust d : along only_down (adjust_delay d).
Proof.
  intros s. unfold wp, adjust_delay, mbind, M_bind, get, modify, crash_with. cbn [mret M_ret].
  destruct (negb _); [|by apply only_down_same].
  destruct (D.to_s32 _) as [diff|]; [|done]. cbv zeta.
  set (c := if 1 <? (if diff <? -1 then -1 else diff) then 1 else if diff <? -1 then -1 else diff).
  assert (Hc : c < 0 → c = -1).
  { unfold c. repeat case_match; lia. }
  destruct (Z.ltb_spec 0 diff) as [Hpos|Hneg]; simpl;
    (destruct (_ || _) eqn:E; [|by apply only_down_same]);
    destruct (c <? 0) eqn:E1, (0 <? c) eqn:E2; simpl;
    intros Hd; simpl in *; first [done | lia | rewrite Hc by lia; split; [done|]; by exists 1%nat].
Qed.
Hint Resolve down_adjust : core.

Lemma down_Tick : along only_down Tick.
Proof. unfold Tick. down. Qed.

Definition not_set_min (o : op) : Prop :=
  match o with OpSetMinPacketCount _ => False | _ => True end.

Lemma down_run o : not_set_min o → along only_down (run o).
Proof.
  intros Ho. destruct o; simpl in *; [apply down_PutInternal| |apply down_Reset|done| |apply down_Tick].
  - repeat along_step. apply down_HandleOutput.
  - repeat along_step. by apply only_down_same.
Qed.

(** The target delay grows at most once: [dontIncMinDelay] is set by the
    first increase (and by a loss reset) and nothing ever counts it down, so
    from then on no sequence of calls other than [SetMinPacketCount] raises
    [minDelay]; it only ever goes down, one packet at a time. *)
Theorem jitter_delay_grows_once s l s' :
  dontIncMinDelay s ≠ 0 → Forall not_set_min l → run_all l s = Some s' →
  dontIncMinDelay s' ≠ 0 ∧ ∃ n, minDelay s' = Nat.iter n dec_delay (minDelay s).
Proof.
  intros Hd Hl. cut (∀ s, run_all l s = Some s' → only_down s s'); [by intros H ?%H; auto|].
  clear s Hd. induction Hl as [|o l Ho _ IH]; intros s Hrun; simplify_eq/=; [reflexivity|].
  pose proof (down_run o Ho s) as H. unfold wp in H.
  destruct (run o s) as [[] s1| |]; [|done..]. etransitivity; eauto.
Qed.
End adapt.

(** ** Concrete runs *)

Section samples.
Import JitterBuffer JitterOps.

Definition start : t :=
  match ctor default_config 4096 20 with Ret _ s => s | _ => mk (BufferPool.mk 0 0 0 []) []
    0 0 D.zero 0 0 0 0 0 D.zero 0 0 0 true true (HistoricBuffer.mk [] 0) (HistoricBuffer.mk [] 0)
    false 0 0 0 0 0 D.zero D.zero (HistoricBuffer.mk [] 0) D.zero D.zero 0 0 D.zero true end.

(** One packet received, then the play position moved up to it. *)
Definition one_packet : list op := [OpInput [1; 2; 3] 1000 false (D.of_Z 1)].
Definition after (l : list op) : t := default start (run_all l start).

Lemma start_ctor : ctor default_config 4096 20 = Ret tt start.
Proof. vm_compute. reflexivity. Qed.

Lemma after_reachable l : Forall valid l → is_Some (run_all l start) → reachable (after l).
Proof.
  intros Hl [s Hs]. unfold after. rewrite Hs. simpl.
  apply (run_all_reachable l default_config 4096 20 start s); [|exact start_ctor|done..].
  intros k d Hd. exact Hd.
Qed.

Example deliver_ex :
  ret_value (GetInternal 1024 6 false (after one_packet)) = Some (JR_OK, Some ([1; 2; 3], 3, false)).
Proof. vm_compute. reflexivity. Qed.

Lemma one_packet_reachable : reachable (after one_packet).
Proof.
  apply after_reachable; [repeat constructor; simpl; lia|].
  unfold run_all. vm_compute. by eexists.
Qed.

Lemma jitter_never_aborts_witness :
  reachable (after one_packet) ∧
  match run (OpOutput 1024 0 true) (after one_packet) with
  | Ret _ s' => omap buffer (slots s') ≡ₚ BufferPool.outstanding (bufferPool s') ∧
      NoDup (omap buffer (slots s')) ∧
      (∀ i j a b, slots s' !! i = Some a → slots s' !! j = Some b →
         has_buffer a = true → has_buffer b = true → timestamp a = timestamp b → i = j)
  | Throw _ _ => False
  | Crash c => c = BadCast
  end.
Proof.
  split; [exact one_packet_reachable|].
  exact (jitter_never_aborts (after one_packet) (OpOutput 1024 0 true) one_packet_reachable I).
Defined.

(** A packet 900 ms behind the play position is stored. *)
Definition late_state : t :=
  default start (end_state (HandleInput [9] 100 false (D.of_Z 2) (after one_packet))).

Lemma jitter_stores_every_packet_witness :
  nextTimestamp (after one_packet) = 880 ∧
  (Holds late_state 100 [9] false ∨
   (false = true ∧ late_state = after one_packet ∧ ∃ d ec, Holds (after one_packet) 100 d ec)) ∧
  (∀ ts' d ec, ts' ≠ 100 → Holds late_state ts' d ec → Holds (after one_packet) ts' d ec).
Proof.
  split; [vm_compute; reflexivity|].
  apply (jitter_stores_every_packet (after one_packet) [9] 100 false (D.of_Z 2) late_state);
    [exact one_packet_reachable|lia|vm_compute; discriminate|vm_compute; reflexivity].
Defined.

Definition got_state : t := default start (end_state (GetInternal 1024 6 false (after one_packet))).

Lemma jitter_delivers_once_witness :
  ∃ d ec, Holds (after one_packet) 1000 d ec ∧
      Some ([1; 2; 3], 3, false) = (if 1024 <? zlen d then None else Some (d, zlen d, ec)) ∧
      (∀ d' ec', ¬ Holds got_state 1000 d' ec') ∧
      (∀ ts' d' ec', ts' ≠ 1000 → (Holds got_state ts' d' ec' ↔ Holds (after one_packet) ts' d' ec')).
Proof.
  exact (jitter_delivers_once (after one_packet) 1024 6 false JR_OK (Some ([1; 2; 3], 3, false))
           got_state one_packet_reachable ltac:(vm_compute; reflexivity)).
Defined.

Definition grown : t := start <| dontIncMinDelay := 25 |>.

Lemma jitter_delay_grows_once_witness :
  dontIncMinDelay (default grown (run_all [OpTick; OpTick] grown)) ≠ 0 ∧
  ∃ n, minDelay (default grown (run_all [OpTick; OpTick] grown)) = Nat.iter n dec_delay (minDelay grown).
Proof.
  apply (jitter_delay_grows_once grown [OpTick; OpTick]); [done|by repeat constructor|].
  vm_compute. reflexivity.
Defined.
End samples.
