(* ===== verification/RingBuffer.v ===== *)
(** * webrtc_dsp/common_audio/ring_buffer.h, ring_buffer.c

    The ring buffer of the echo canceller.  An element is the
    [element_size] bytes of one entry: every copy in the source is of a whole
    number of elements at an element boundary, so the data is a list of
    [element_count] elements.  Positions are [size_t]; [WebRtc_MoveReadPtr]
    works on [int]. *)

From Stdlib Require Import ZArith Lia.
From stdpp Require Import base tactics list numbers option.
From S2P Require Import Prelude Words Memory.
From stdpp Require Import list.
Open Scope Z_scope.

Module RingBuffer.

Inductive Wrap := SAME_WRAP | DIFF_WRAP.

Record t (A : Type) := mk {
  read_pos : Z;
  write_pos : Z;
  element_count : Z;
  rw_wrap : Wrap;
  data : list A;
}.
Arguments mk {A}.
Arguments read_pos {A}.
Arguments write_pos {A}.
Arguments element_count {A}.
Arguments rw_wrap {A}.
Arguments data {A}.
#[export] Instance rb_eta {A} : Eta (t A) := λ b,
  mk (read_pos b) (write_pos b) (element_count b) (rw_wrap b) (data b).

Section ops.
Context {A : Type} (zero : A).
Implicit Types b : t A.

Definition InitBuffer b : t A :=
  mk 0 0 (element_count b) SAME_WRAP (replicate (Z.to_nat (element_count b)) zero).

(** [WebRtc_CreateBuffer]; [None]: a zero argument (allocation succeeds). *)
Definition CreateBuffer (count size : Z) : option (t A) :=
  if (count =? 0) || (size =? 0) then None
  else Some (InitBuffer (mk 0 0 count SAME_WRAP [])).

Definition available_read b : Z :=
  match rw_wrap b with
  | SAME_WRAP => u64 (write_pos b - read_pos b)
  | DIFF_WRAP => u64 (u64 (element_count b - read_pos b) + write_pos b)
  end.

Definition available_write b : Z := u64 (element_count b - available_read b).

(** [n] elements of the array from position [pos]. *)
Definition region b (pos n : Z) : list A := take (Z.to_nat n) (drop (Z.to_nat pos) (data b)).

(** [GetBufferReadRegions]: the number of elements and the two regions. *)
Definition GetBufferReadRegions b (count : Z) : Z * list A * list A :=
  let readable_elements := available_read b in
  let read_elements := if readable_elements <? count then readable_elements else count in
  let margin := u64 (element_count b - read_pos b) in
  if margin <? read_elements then
    (read_elements, region b (read_pos b) margin, region b 0 (read_elements - margin))
  else (read_elements, region b (read_pos b) read_elements, []).

Definition MoveReadPtr (count : Z) b : Z * t A :=
  let free_elements := s32 (available_write b) in
  let readable_elements := s32 (available_read b) in
  let pos := s32 (read_pos b) in
  let count := if readable_elements <? count then readable_elements else count in
  let count := if count <? - free_elements then - free_elements else count in
  let pos := s32 (pos + count) in
  let '(pos, w) :=
    if s32 (element_count b) <? pos then (s32 (pos - s32 (element_count b)), SAME_WRAP)
    else (pos, rw_wrap b) in
  let '(pos, w) :=
    if pos <? 0 then (s32 (pos + s32 (element_count b)), DIFF_WRAP) else (pos, w) in
  (count, b <| read_pos := u64 pos |> <| rw_wrap := w |>).

(** [WebRtc_ReadBuffer]: the elements at the returned address, copied or in
    place.  The two regions are disjoint from the caller's buffer. *)
Definition ReadBuffer (count : Z) b : list A * t A :=
  let '(read_count, r1, r2) := GetBufferReadRegions b count in
  ((r1 ++ r2)%list, (MoveReadPtr (s32 read_count) b).2).

(** [WebRtc_WriteBuffer] of the elements [xs]. *)
Definition WriteBuffer (xs : list A) b : Z * t A :=
  let free_elements := available_write b in
  let write_elements := if free_elements <? zlen xs then free_elements else zlen xs in
  let margin := u64 (element_count b - write_pos b) in
  let '(b, n) :=
    if margin <? write_elements then
      (b <| data := overwrite (data b) (Z.to_nat (write_pos b)) (take (Z.to_nat margin) xs) |>
         <| write_pos := 0 |> <| rw_wrap := DIFF_WRAP |>,
       u64 (write_elements - margin))
    else (b, write_elements) in
  (write_elements,
   b <| data := overwrite (data b) (Z.to_nat (write_pos b))
                  (take (Z.to_nat n) (drop (Z.to_nat (write_elements - n)) xs)) |>
     <| write_pos := u64 (write_pos b + n) |>).

(** ** Specification: a bounded queue *)

Record wf b : Prop := {
  wf_count : 0 < element_count b < 1073741824;
  wf_data : zlen (data b) = element_count b;
  wf_read : 0 ≤ read_pos b ≤ element_count b;
  wf_write : 0 ≤ write_pos b ≤ element_count b;
  wf_wrap : match rw_wrap b with
            | SAME_WRAP => read_pos b ≤ write_pos b
            | DIFF_WRAP => write_pos b ≤ read_pos b
            end;
}.

(** The elements that are waiting to be read, oldest first. *)
Definition contents b : list A :=
  match rw_wrap b with
  | SAME_WRAP => region b (read_pos b) (write_pos b - read_pos b)
  | DIFF_WRAP => (region b (read_pos b) (element_count b - read_pos b) ++ region b 0 (write_pos b))%list
  end.

Inductive op := Write (xs : list A) | Read (n : Z).
Inductive answer := Wrote (n : Z) | Got (xs : list A).

Definition run_op (o : op) b : answer * t A :=
  match o with
  | Write xs => let '(n, b') := WriteBuffer xs b in (Wrote n, b')
  | Read n => let '(xs, b') := ReadBuffer n b in (Got xs, b')
  end.
Definition queue_op (cap : nat) (o : op) (q : list A) : answer * list A :=
  match o with
  | Write xs => let k := (cap - length q) `min` length xs in (Wrote (Z.of_nat k), q ++ take k xs)%list
  | Read n => (Got (take (Z.to_nat n) q), drop (Z.to_nat n) q)
  end%nat.

Fixpoint run_ops (l : list op) b : list answer * t A :=
  match l with
  | [] => ([], b)
  | o :: l' => let '(a, b1) := run_op o b in let '(as_, b2) := run_ops l' b1 in (a :: as_, b2)
  end.
Fixpoint queue_ops (cap : nat) (l : list op) (q : list A) : list answer * list A :=
  match l with
  | [] => ([], q)
  | o :: l' =>
      let '(a, q1) := queue_op cap o q in let '(as_, q2) := queue_ops cap l' q1 in (a :: as_, q2)
  end.
End ops.
End RingBuffer.

(* ================================================================== *)
Section ring.
Import RingBuffer.
Context {A : Type}.
Implicit Types (b : t A) (xs : list A).

Lemma available_read_contents b : wf b → available_read b = zlen (contents b).
Proof.
  intros [Hc Hd Hr Hw Hwr]. unfold available_read, contents, region, zlen in *.
  destruct (rw_wrap b).
  - rewrite u64_small by lia. rewrite length_take, length_drop. lia.
  - rewrite length_app, !length_take, !length_drop.
    rewrite (u64_small (element_count b - read_pos b)), u64_small by lia. lia.
Qed.

Lemma zlen_contents_le b : wf b → zlen (contents b) ≤ element_count b.
Proof.
  intros [Hc Hd Hr Hw Hwr]. unfold contents, region, zlen in *.
  destruct (rw_wrap b); rewrite ?length_app, !length_take, !length_drop; lia.
Qed.

Lemma available_write_contents b : wf b → available_write b = element_count b - zlen (contents b).
Proof.
  intros Hwf. unfold available_write. rewrite available_read_contents by done.
  pose proof (zlen_contents_le b Hwf). pose proof (zlen_nonneg (contents b)). destruct Hwf.
  apply u64_small. lia.
Qed.

(** The array index of position [p] of the unrolled buffer. *)
Definition slot b (p : Z) : nat := Z.to_nat (if p <? element_count b then p else p - element_count b).

Lemma zlen_contents b :
  wf b → zlen (contents b) = match rw_wrap b with
    | SAME_WRAP => write_pos b - read_pos b
    | DIFF_WRAP => element_count b - read_pos b + write_pos b end.
Proof.
  intros Hwf. rewrite <- available_read_contents by done. destruct Hwf. unfold available_read.
  destruct (rw_wrap b); rewrite ?(u64_small (element_count b - read_pos b)), u64_small by lia; lia.
Qed.

Lemma contents_lookup b (i : nat) :
  wf b → Z.of_nat i < zlen (contents b) → contents b !! i = data b !! slot b (read_pos b + Z.of_nat i).
Proof.
  intros Hwf Hi. pose proof (zlen_contents b Hwf) as Hl. rewrite Hl in Hi.
  destruct (Hwf) as [Hc Hd Hr Hw Hwr]. unfold contents, region, slot, zlen in *.
  destruct (rw_wrap b).
  - rewrite lookup_take_lt, lookup_drop by lia. f_equal.
    destruct (Z.ltb_spec (read_pos b + Z.of_nat i) (element_count b)); lia.
  - destruct (Z.ltb_spec (read_pos b + Z.of_nat i) (element_count b)).
    + rewrite lookup_app_l by (rewrite length_take, length_drop; lia).
      rewrite lookup_take_lt, lookup_drop by lia. f_equal. lia.
    + rewrite lookup_app_r by (rewrite length_take, length_drop; lia).
      rewrite length_take, length_drop, lookup_take_lt, lookup_drop by lia. f_equal. lia.
Qed.

(** Contents are determined by their length and these lookups. *)
Lemma contents_eq b l :
  wf b → zlen (contents b) = zlen l →
  (∀ i, Z.of_nat i < zlen l → data b !! slot b (read_pos b + Z.of_nat i) = l !! i) →
  contents b = l.
Proof.
  intros Hwf Hlen Hl. apply list_eq. intros i. unfold zlen in *.
  destruct (decide (i < length l)%nat).
  - rewrite contents_lookup by (unfold zlen; done || lia). apply Hl. lia.
  - rewrite !lookup_ge_None_2; [done|lia..].
Qed.

(** *** Reading *)

Lemma MoveReadPtr_spec b n :
  wf b → 0 ≤ n ≤ zlen (contents b) →
  wf (MoveReadPtr n b).2 ∧ contents (MoveReadPtr n b).2 = drop (Z.to_nat n) (contents b) ∧
  element_count (MoveReadPtr n b).2 = element_count b.
Proof.
  intros Hwf Hn. unfold MoveReadPtr.
  rewrite available_read_contents, available_write_contents by done.
  pose proof (zlen_contents_le b Hwf). pose proof (zlen_contents b Hwf) as Hlen.
  destruct (Hwf) as [Hc Hd Hr Hw Hwr].
  rewrite (s32_small (element_count b - zlen (contents b))), (s32_small (zlen (contents b))),
    (s32_small (read_pos b)), (s32_small (element_count b)) by lia.
  destruct (Z.ltb_spec (zlen (contents b)) n); [lia|].
  destruct (Z.ltb_spec n (- (element_count b - zlen (contents b)))); [lia|].
  rewrite (s32_small (read_pos b + n)) by lia.
  set (r := if element_count b <? read_pos b + n then _ else _).
  assert (Hpos : 0 ≤ r.1 ≤ element_count b).
  { unfold r. destruct (Z.ltb_spec (element_count b) (read_pos b + n)); simpl; [|lia].
    rewrite s32_small by (destruct (rw_wrap b); lia). destruct (rw_wrap b); lia. }
  destruct r as [pos w] eqn:Er. simpl in Hpos.
  destruct (Z.ltb_spec pos 0); [lia|]. cbn [snd]. set (b' := b <| read_pos := _ |> <| rw_wrap := _ |>).
  assert (Hb' : wf b' ∧ zlen (contents b') = zlen (contents b) - n ∧
                (pos = read_pos b + n ∨ pos = read_pos b + n - element_count b)).
  { assert (Hwf' : wf b').
    { unfold b'. constructor; cbn; rewrite ?u64_small by lia; try done.
      unfold r in Er. destruct (Z.ltb_spec (element_count b) (read_pos b + n)); simplify_eq;
        destruct (rw_wrap b); rewrite ?s32_small by lia; lia. }
    split; [done|]. rewrite (zlen_contents b' Hwf'), Hlen. unfold b'. cbn. rewrite u64_small by lia.
    unfold r in Er. destruct (Z.ltb_spec (element_count b) (read_pos b + n)); simplify_eq;
      rewrite ?s32_small by (destruct (rw_wrap b); lia); destruct (rw_wrap b); lia. }
  destruct Hb' as (Hwf' & Hlen' & Hp). split; [done|]. split; [|done].
  apply contents_eq; [done| |].
  - unfold zlen in *. rewrite length_drop. lia.
  - intros i Hi. rewrite lookup_drop. unfold zlen in Hi. rewrite length_drop in Hi.
    rewrite contents_lookup by (unfold zlen; done || lia). f_equal.
    unfold slot, b'. cbn. rewrite u64_small by lia. unfold zlen in *.
    destruct (rw_wrap b); destruct (Z.ltb_spec (pos + Z.of_nat i) (element_count b));
      destruct (Z.ltb_spec (read_pos b + Z.of_nat (Z.to_nat n + i)) (element_count b)); lia.
Qed.

Lemma GetBufferReadRegions_spec b n :
  wf b → 0 ≤ n →
  ∃ k r1 r2, GetBufferReadRegions b n = (k, r1, r2) ∧ k = Z.min n (zlen (contents b)) ∧
    r1 ++ r2 = take (Z.to_nat n) (contents b).
Proof.
  intros Hwf Hn. unfold GetBufferReadRegions. rewrite available_read_contents by done.
  pose proof (zlen_contents_le b Hwf). pose proof (zlen_contents b Hwf) as Hlen.
  destruct (Hwf) as [Hc Hd Hr Hw Hwr].
  set (k := if zlen (contents b) <? n then _ else _).
  assert (Hk : k = Z.min n (zlen (contents b)))
    by (unfold k; destruct (Z.ltb_spec (zlen (contents b)) n); lia).
  rewrite (u64_small (element_count b - read_pos b)) by lia.
  destruct (Z.ltb_spec (element_count b - read_pos b) k); do 3 eexists; (split; [done|]);
    (split; [done|]); unfold contents in *; destruct (rw_wrap b) eqn:Ew; try lia.
  - rewrite take_app. unfold region, zlen in *. rewrite !take_take, !length_app, !length_take, !length_drop in *.
    f_equal; f_equal; lia.
  - rewrite app_nil_r. unfold region, zlen in *. rewrite take_take. f_equal.
    rewrite length_take, length_drop in *. lia.
  - rewrite app_nil_r, take_app. unfold region, zlen in *.
    rewrite !take_take, !length_app, !length_take, !length_drop in *.
    match goal with |- context [take ?m (drop (Z.to_nat 0) _)] => replace m with 0%nat by lia end.
    rewrite take_0, app_nil_r. f_equal. lia.
Qed.

Lemma ReadBuffer_spec b n :
  wf b → 0 ≤ n →
  (ReadBuffer n b).1 = take (Z.to_nat n) (contents b) ∧ wf (ReadBuffer n b).2 ∧
  contents (ReadBuffer n b).2 = drop (Z.to_nat n) (contents b) ∧
  element_count (ReadBuffer n b).2 = element_count b.
Proof.
  intros Hwf Hn. unfold ReadBuffer.
  destruct (GetBufferReadRegions_spec b n Hwf Hn) as (k & r1 & r2 & -> & Hk & Hr).
  cbn [fst snd]. split; [done|]. pose proof (zlen_contents_le b Hwf).
  pose proof (zlen_nonneg (contents b)). pose proof (wf_count b Hwf).
  rewrite s32_small by lia.
  destruct (MoveReadPtr_spec b k Hwf ltac:(lia)) as (Hwf' & -> & Hc). split; [done|]. split; [|done].
  destruct (decide (n ≤ zlen (contents b))); [by rewrite Hk, Z.min_l by lia|].
  unfold zlen in *. rewrite !drop_ge; [done|lia..].
Qed.

(** *** Writing *)

(** One uninterrupted run of [xs] put at the write position. *)
Lemma append_run b xs p' w' b' :
  wf b → b' = b <| data := overwrite (data b) (Z.to_nat (write_pos b)) xs |>
                <| write_pos := p' |> <| rw_wrap := w' |> →
  write_pos b + zlen xs ≤ element_count b → zlen xs ≤ element_count b - zlen (contents b) →
  (w' = rw_wrap b ∧ p' = write_pos b + zlen xs ∨
   w' = DIFF_WRAP ∧ p' = 0 ∧ rw_wrap b = SAME_WRAP ∧ write_pos b + zlen xs = element_count b) →
  wf b' ∧ contents b' = (contents b ++ xs)%list.
Proof.
  intros Hwf -> Hfit Hfree Hpos. pose proof (zlen_contents b Hwf) as Hlen.
  pose proof (zlen_nonneg xs). set (b' := b <| data := _ |> <| write_pos := _ |> <| rw_wrap := _ |>).
  destruct (Hwf) as [Hc Hd Hr Hw Hwr].
  assert (Hwf' : wf b').
  { constructor; cbn; try done.
    - rewrite zlen_overwrite; [done|]. unfold zlen in *. lia.
    - destruct (rw_wrap b); lia.
    - destruct Hpos as [[-> ->]|(-> & -> & ? & ?)]; destruct (rw_wrap b); lia. }
  split; [done|]. pose proof (zlen_contents b' Hwf') as Hlen'.
  assert (Hl : zlen (contents b') = zlen (contents b) + zlen xs).
  { rewrite Hlen', Hlen. cbn. destruct Hpos as [[-> ->]|(-> & -> & Hs & ?)]; [|rewrite Hs in *; lia].
    destruct (rw_wrap b); lia. }
  apply contents_eq; [done|by rewrite zlen_app|]. intros i Hi. rewrite zlen_app in Hi.
  cbn [data slot b' updater]. unfold b'. cbn.
  rewrite lookup_overwrite by (unfold zlen in *; lia). unfold slot in *. cbn.
  destruct (decide (Z.of_nat i < zlen (contents b))) as [Hin|Hout].
  - rewrite lookup_app_l by (unfold zlen in *; lia). rewrite contents_lookup by done. unfold slot.
    case_bool_decide as Hb; [|done]. exfalso. rewrite Hlen in Hin. unfold zlen in *.
    destruct (rw_wrap b), (Z.ltb_spec (read_pos b + Z.of_nat i) (element_count b)); lia.
  - rewrite lookup_app_r by (unfold zlen in *; lia).
    case_bool_decide as Hb.
    + f_equal. unfold zlen in *.
      destruct (rw_wrap b), (Z.ltb_spec (read_pos b + Z.of_nat i) (element_count b)); lia.
    + exfalso. apply Hb. unfold zlen in *.
      destruct (rw_wrap b), (Z.ltb_spec (read_pos b + Z.of_nat i) (element_count b)); lia.
Qed.

Lemma WriteBuffer_spec b xs :
  wf b → zlen xs < 18446744073709551616 →
  let k := Z.min (element_count b - zlen (contents b)) (zlen xs) in
  (WriteBuffer xs b).1 = k ∧ wf (WriteBuffer xs b).2 ∧
  contents (WriteBuffer xs b).2 = (contents b ++ take (Z.to_nat k) xs)%list ∧
  element_count (WriteBuffer xs b).2 = element_count b.
Proof.
  intros Hwf Hxs k. unfold WriteBuffer. rewrite available_write_contents by done.
  pose proof (zlen_contents_le b Hwf). pose proof (zlen_contents b Hwf) as Hlen.
  pose proof (zlen_nonneg xs). destruct (Hwf) as [Hc Hd Hr Hw Hwr].
  set (k' := if _ <? zlen xs then _ else _).
  assert (k' = k) as -> by (unfold k', k; destruct (Z.ltb_spec (element_count b - zlen (contents b)) (zlen xs)); lia).
  set (m := element_count b - write_pos b). rewrite (u64_small m) by lia.
  destruct (Z.ltb_spec m k) as [Hm|Hm]; cbn [fst snd write_pos element_count data].
  - assert (Hsame : rw_wrap b = SAME_WRAP) by (destruct (rw_wrap b); [done|lia]).
    set (b1 := b <| data := _ |> <| write_pos := 0 |> <| rw_wrap := DIFF_WRAP |>).
    assert (Hz : zlen (take (Z.to_nat m) xs) = m) by (unfold zlen in *; rewrite length_take; lia).
    destruct (append_run b (take (Z.to_nat m) xs) 0 DIFF_WRAP b1 Hwf eq_refl) as [Hwf1 Hc1];
      [lia|lia|naive_solver lia|].
    set (ys := take _ (drop _ xs)).
    assert (Hy : zlen ys = k - m).
    { unfold ys, zlen in *. rewrite length_take, length_drop, u64_small; lia. }
    split; [done|].
    destruct (append_run b1 ys (u64 (0 + u64 (k - m))) DIFF_WRAP _ Hwf1 eq_refl) as [Hwf2 Hc2].
    + cbn -[zlen]. rewrite Hlen, Hsame in *. lia.
    + rewrite Hc1, zlen_app. cbn -[zlen]. lia.
    + left. cbn -[zlen]. rewrite (u64_small (k - m)), u64_small by lia. split; [done|lia].
    + split; [exact Hwf2|]. split; [|done]. etrans; [exact Hc2|]. rewrite Hc1, <- app_assoc. f_equal.
      unfold ys. rewrite u64_small by lia. replace (k - (k - m)) with m by lia.
      rewrite take_take_drop. f_equal. lia.
  - rewrite Z.sub_diag, drop_0. split; [done|].
    assert (Hz : zlen (take (Z.to_nat k) xs) = k) by (unfold zlen in *; rewrite length_take; lia).
    destruct (append_run b (take (Z.to_nat k) xs) (u64 (write_pos b + k)) (rw_wrap b) _ Hwf eq_refl)
      as [Hwf1 Hc1]; [lia|lia|left; split; [done|rewrite u64_small; lia]|].
    split; [exact Hwf1|]. split; [exact Hc1|done].
Qed.

Definition op_ok (o : op (A := A)) : Prop :=
  match o with Write xs => zlen xs < 18446744073709551616 | Read n => 0 ≤ n end.

Lemma run_op_queue b o :
  wf b → op_ok o →
  let '(a, b') := run_op o b in
  queue_op (Z.to_nat (element_count b)) o (contents b) = (a, contents b') ∧ wf b' ∧
  element_count b' = element_count b.
Proof.
  intros Hwf Ho. destruct o as [xs|n]; cbn in *.
  - pose proof (WriteBuffer_spec b xs Hwf Ho) as (H1 & H2 & H3 & H4).
    destruct (WriteBuffer xs b) as [k b'] eqn:E. cbn in *. subst k. split; [|done]. rewrite H3.
    pose proof (zlen_contents_le b Hwf). unfold zlen in *. f_equal; [f_equal; lia|]. do 2 f_equal. lia.
  - pose proof (ReadBuffer_spec b n Hwf Ho) as (H1 & H2 & H3 & H4).
    destruct (ReadBuffer n b) as [k b'] eqn:E. cbn in *. subst k. split; [|done]. by rewrite H3.
Qed.

(** C37. Ring buffer refinement: run on any sequence of writes and reads, from
    a well-formed buffer with fewer than 2^30 elements, the ring buffer gives
    exactly the answers of a bounded first-in first-out queue (a write stores
    as many elements as fit and reports that number; a read returns the oldest
    elements, up to the number asked for), keeps its invariant, and its
    readable elements are the queue's contents. *)
Theorem ring_buffer_fifo (b : t A) (ops : list op) :
  wf b → Forall op_ok ops →
  let '(answers, b') := run_ops ops b in
  queue_ops (Z.to_nat (element_count b)) ops (contents b) = (answers, contents b') ∧ wf b'.
Proof.
  intros Hwf Hops. revert b Hwf. induction Hops as [|o ops Ho _ IH]; intros b Hwf; [done|]. cbn.
  pose proof (run_op_queue b o Hwf Ho) as Hop. destruct (run_op o b) as [a b1].
  destruct Hop as (-> & Hwf1 & Hc). specialize (IH b1 Hwf1). destruct (run_ops ops b1) as [as_ b2].
  rewrite Hc in IH. by destruct IH as [-> ?].
Qed.

Lemma CreateBuffer_wf (zero : A) count size b :
  count < 1073741824 → 0 ≤ count → CreateBuffer zero count size = Some b →
  wf b ∧ contents b = [] ∧ element_count b = count.
Proof.
  unfold CreateBuffer. intros ?? H. case_match eqn:E; simplify_eq.
  apply orb_false_iff in E as [?%Z.eqb_neq _].
  split; [|by rewrite Z.sub_diag || done]. constructor; cbn; try lia. rewrite zlen_replicate. lia.
Qed.
End ring.

(** Four slots, a write that wraps and one that is cut short. *)
Lemma ring_buffer_fifo_witness :
  let b := default (RingBuffer.mk 0 0 0 RingBuffer.SAME_WRAP []) (RingBuffer.CreateBuffer 0 4 2) in
  let ops := [RingBuffer.Write [1; 2; 3]; RingBuffer.Read 2; RingBuffer.Write [4; 5; 6; 7]; RingBuffer.Read 9] in
  (RingBuffer.run_ops ops b).1 =
    [RingBuffer.Wrote 3; RingBuffer.Got [1; 2]; RingBuffer.Wrote 3; RingBuffer.Got [3; 4; 5; 6]] ∧
  RingBuffer.queue_ops 4 ops [] =
    ((RingBuffer.run_ops ops b).1, RingBuffer.contents (RingBuffer.run_ops ops b).2).
Proof.
  intros b ops. split; [reflexivity|].
  assert (Hwf : RingBuffer.wf b) by (constructor; vm_compute; intuition congruence).
  assert (Hops : Forall op_ok ops) by (repeat constructor; vm_compute; congruence).
  exact (proj1 (ring_buffer_fifo b ops Hwf Hops)).
Defined.
