(* ===== verification/Spl.v ===== *)
(** * webrtc_dsp/common_audio/signal_processing: scalar arithmetic

    The fixed-point primitives the voice activity detector and the resamplers
    are built on: [include/spl_inl.h] and [spl_inl.c] (leading zeros,
    normalisation, saturation), [division_operations.c], [spl_sqrt.c] and
    [third_party/spl_sqrt_floor].  A C integer is [Z] with its conversions
    ([s16], [s32], [u32]) written out; [>>] on a negative [int] is the
    arithmetic shift and [/] truncates ([Z.quot]), as with the compilers the
    project builds with. *)

From Stdlib Require Import ZArith Lia.
From stdpp Require Import base tactics list numbers option.
From S2P Require Import Prelude Words.
From stdpp Require Import list.
Open Scope Z_scope.

Module Spl.

(** ** spl_inl.h *)

Definition kCountLeadingZeros32_Table : list Z :=
  [32; 8;  17; -1; -1; 14; -1; -1; -1; 20; -1; -1; -1; 28; -1; 18;
   -1; -1; -1; -1; -1; -1; -1; -1; -1; -1; -1; -1; 0;  26; 25; 24;
   4;  11; 23; 31; 3;  7;  10; 16; 22; 30; -1; -1; 2;  6;  13; 9;
   -1; 15; -1; 21; -1; 29; 19; -1; -1; -1; -1; -1; 1;  27; 5;  12].

(** [None]: the table is read outside its bounds. *)
Definition CountLeadingZeros32_NotBuiltin (n : Z) : option Z :=
  let n := Z.lor n (Z.shiftr n 1) in
  let n := Z.lor n (Z.shiftr n 2) in
  let n := Z.lor n (Z.shiftr n 4) in
  let n := Z.lor n (Z.shiftr n 8) in
  let n := Z.lor n (Z.shiftr n 16) in
  znth kCountLeadingZeros32_Table (Z.shiftr (u32 (n * 2349541521)) 26).

Definition CountLeadingZeros64_NotBuiltin (n : Z) : option Z :=
  let leading_zeros := if Z.shiftr n 32 =? 0 then 32 else 0 in
  c ← CountLeadingZeros32_NotBuiltin (u32 (Z.shiftr n (32 - leading_zeros)));
  Some (leading_zeros + c).

(** The number of leading zeros; [__builtin_clz] and [__builtin_clzll] on a
    non-zero argument. *)
Definition CountLeadingZeros32 (n : Z) : Z := if n =? 0 then 32 else 31 - Z.log2 n.
Definition CountLeadingZeros64 (n : Z) : Z := if n =? 0 then 64 else 63 - Z.log2 n.

Definition SatW32ToW16 (value32 : Z) : Z :=
  let out16 := s16 value32 in
  if 32767 <? value32 then 32767
  else if value32 <? -32768 then -32768
  else out16.

Definition INT32_MAX : Z := 2147483647.
Definition INT32_MIN : Z := -2147483648.

Definition AddSatW32 (a b : Z) : Z :=
  let sum := s32 (u32 (u32 a + u32 b)) in
  if Bool.eqb (a <? 0) (b <? 0) && negb (Bool.eqb (a <? 0) (sum <? 0)) then
    if sum <? 0 then INT32_MAX else INT32_MIN
  else sum.

Definition SubSatW32 (a b : Z) : Z :=
  let diff := s32 (u32 (u32 a - u32 b)) in
  if negb (Bool.eqb (a <? 0) (b <? 0)) && negb (Bool.eqb (a <? 0) (diff <? 0)) then
    if diff <? 0 then INT32_MAX else INT32_MIN
  else diff.

Definition AddSatW16 (a b : Z) : Z := SatW32ToW16 (a + b).
Definition SubSatW16 (var1 var2 : Z) : Z := SatW32ToW16 (var1 - var2).

Definition GetSizeInBits (n : Z) : Z := s16 (32 - CountLeadingZeros32 n).

Definition NormW32 (a : Z) : Z :=
  if a =? 0 then 0
  else s16 (CountLeadingZeros32 (u32 (if a <? 0 then Z.lnot a else a)) - 1).
Definition NormU32 (a : Z) : Z := if a =? 0 then 0 else s16 (CountLeadingZeros32 a).
Definition NormW16 (a : Z) : Z :=
  let a32 := a in
  if a =? 0 then 0
  else s16 (CountLeadingZeros32 (u32 (if a <? 0 then Z.lnot a32 else a32)) - 17).

Definition MulAccumW16 (a b c : Z) : Z := s32 (s32 (a * b) + c).

(** ** division_operations.c *)

Definition DivU32U16 (num den : Z) : Z := if negb (den =? 0) then u32 (num / den) else 4294967295.
Definition DivW32W16 (num den : Z) : Z := if negb (den =? 0) then s32 (num ÷ den) else 2147483647.
Definition DivW32W16ResW16 (num den : Z) : Z := if negb (den =? 0) then s16 (num ÷ den) else 32767.

(** One round of the loop: [div], [L_num]. *)
Definition div_round (L_den : Z) (s : Z * Z) : Z * Z :=
  let '(div, L_num) := s in
  let div := s32 (Z.shiftl div 1) in
  let L_num := s32 (Z.shiftl L_num 1) in
  if L_den <=? L_num then (s32 (div + 1), s32 (L_num - L_den)) else (div, L_num).

Definition DivResultInQ31 (num den : Z) : Z :=
  if num =? 0 then 0
  else
    let L_num := if num <? 0 then s32 (- num) else num in
    let L_den := if den <? 0 then s32 (- den) else den in
    let change_sign := (if num <? 0 then 1 else 0) + (if den <? 0 then 1 else 0) in
    let '(div, _) := Nat.iter 31 (div_round L_den) (0, L_num) in
    if change_sign =? 1 then s32 (- div) else div.

Definition LSHIFT_W32 (x c : Z) : Z := s32 (Z.shiftl x c).

(** The high 16 bits and the next 15 bits of a word. *)
Definition hi_part (x : Z) : Z := s16 (Z.shiftr x 16).
Definition low_part (x : Z) : Z := s16 (Z.shiftr (s32 (x - s32 (Z.shiftl (hi_part x) 16))) 1).

Definition DivW32HiLow (num den_hi den_low : Z) : Z :=
  let approx := s16 (DivW32W16 536870911 den_hi) in
  let tmpW32 := s32 (s32 (Z.shiftl (den_hi * approx) 1)
                     + s32 (Z.shiftl (Z.shiftr (den_low * approx) 15) 1)) in
  let tmpW32 := s32 (2147483647 - tmpW32) in
  let tmp_hi := hi_part tmpW32 in
  let tmp_low := low_part tmpW32 in
  let tmpW32 := s32 (Z.shiftl (s32 (tmp_hi * approx + Z.shiftr (tmp_low * approx) 15)) 1) in
  let tmp_hi := hi_part tmpW32 in
  let tmp_low := low_part tmpW32 in
  let num_hi := hi_part num in
  let num_low := low_part num in
  let tmpW32 := s32 (s32 (num_hi * tmp_hi + Z.shiftr (num_hi * tmp_low) 15)
                     + Z.shiftr (num_low * tmp_hi) 15) in
  LSHIFT_W32 tmpW32 3.

(** ** spl_sqrt_floor.c *)

(** [WEBRTC_SPL_SQRT_ITER (N)] on [value] and [root]. *)
Definition SQRT_ITER (N : Z) (s : Z * Z) : Z * Z :=
  let '(value, root) := s in
  let try1 := s32 (root + Z.shiftl 1 N) in
  if s32 (Z.shiftl try1 N) <=? value then
    (s32 (value - s32 (Z.shiftl try1 N)), Z.lor root (Z.shiftl 2 N))
  else (value, root).

Definition SqrtFloor (value : Z) : Z :=
  let '(_, root) :=
    foldl (λ s N, SQRT_ITER N s) (value, 0) [15; 14; 13; 12; 11; 10; 9; 8; 7; 6; 5; 4; 3; 2; 1; 0] in
  Z.shiftr root 1.

(** ** spl_sqrt.c *)

Definition SqrtLocal (inp : Z) : Z :=
  let B := inp ÷ 2 in
  let B := s32 (B - 1073741824) in
  let x_half := s16 (Z.shiftr B 16) in
  let B := s32 (B + 1073741824) in
  let B := s32 (B + 1073741824) in
  let x2 := s32 (x_half * x_half * 2) in
  let A := s32 (- x2) in
  let B := s32 (B + Z.shiftr A 1) in
  let A := Z.shiftr A 16 in
  let A := s32 (A * A * 2) in
  let t16 := s16 (Z.shiftr A 16) in
  let B := s32 (B + s32 (-20480 * t16 * 2)) in
  let A := s32 (x_half * t16 * 2) in
  let t16 := s16 (Z.shiftr A 16) in
  let B := s32 (B + s32 (28672 * t16 * 2)) in
  let t16 := s16 (Z.shiftr x2 16) in
  let A := s32 (x_half * t16 * 2) in
  let B := s32 (B + Z.shiftr A 1) in
  s32 (B + 32768).

(** The part of [WebRtcSpl_Sqrt] after the normalisation: the square root of
    the normalised high word [x_norm], for an even or an odd shift. *)
Definition sqrt_norm (even : bool) (x_norm : Z) : Z :=
  let A := LSHIFT_W32 x_norm 16 in
  let A := if 0 <=? A then A else s32 (- A) in
  let A := SqrtLocal A in
  let A :=
    if even then
      let t16 := s16 (Z.shiftr A 16) in
      let A := s32 (23170 * t16 * 2) in
      let A := s32 (A + 32768) in
      let A := Z.land A 2147418112 in
      Z.shiftr A 15
    else Z.shiftr A 16 in
  Z.land A 65535.

Definition Sqrt (value : Z) : Z :=
  if value =? 0 then 0
  else
    let A := if value <? 0 then if value =? INT32_MIN then INT32_MAX else s32 (- value) else value in
    let sh := NormW32 A in
    let A := LSHIFT_W32 A sh in
    let A := if A <? INT32_MAX - 32767 then s32 (A + 32768) else INT32_MAX in
    let x_norm := s16 (Z.shiftr A 16) in
    let nshift := s16 (sh ÷ 2) in
    Z.shiftr (sqrt_norm (2 * nshift =? sh) x_norm) nshift.

End Spl.

(* ================================================================== *)
Section arithmetic.
Import Spl.

(** ** Leading zeros *)

(** Bit [i] of [m] says whether one of the bits [i, i + w) of [n] is set. *)
Definition smeared (w n m : Z) : Prop :=
  ∀ i, 0 ≤ i → Z.testbit m i = true ↔ ∃ j, 0 ≤ j < w ∧ Z.testbit n (i + j) = true.

Lemma smear_step w s n m :
  0 < s ≤ w → smeared w n m → smeared (w + s) n (Z.lor m (Z.shiftr m s)).
Proof.
  intros Hs Hm i Hi. rewrite Z.lor_spec, Z.shiftr_spec, orb_true_iff, (Hm i), (Hm (i + s)) by lia. split.
  - intros [(j & ? & ?)|(j & ? & Hj)]; [exists j; split; [lia|done]|].
    exists (j + s). split; [lia|]. by replace (i + (j + s)) with (i + s + j) by lia.
  - intros (j & ? & Hj). destruct (decide (j < w)); [left; exists j; split; [lia|done]|].
    right. exists (j - s). split; [lia|]. by replace (i + s + (j - s)) with (i + j) by lia.
Qed.

Lemma smeared_refl n : smeared 1 n n.
Proof.
  intros i Hi. split; [intros; exists 0; split; [lia|by rewrite Z.add_0_r]|].
  intros (j & ? & Hj). by replace (i + j) with i in Hj by lia.
Qed.

(** A word smeared to the right is all ones below its leading one. *)
Lemma smeared_ones n m : 0 < n < 4294967296 → smeared 32 n m → 0 ≤ m → m = Z.ones (Z.log2 n + 1).
Proof.
  intros Hn Hm Hm0. pose proof (Z.log2_nonneg n).
  assert (Z.log2 n < 32) by (apply Z.log2_lt_pow2; lia).
  apply Z.bits_inj'. intros i Hi. rewrite Z.testbit_ones_nonneg by lia.
  destruct (Z.ltb_spec i (Z.log2 n + 1)).
  - apply Hm; [done|]. exists (Z.log2 n - i). split; [lia|].
    replace (i + (Z.log2 n - i)) with (Z.log2 n) by lia. apply Z.bit_log2. lia.
  - destruct (Z.testbit m i) eqn:E; [|done]. exfalso. apply Hm in E as (j & ? & Hj); [|done].
    rewrite Z.bits_above_log2 in Hj; [done|lia|lia].
Qed.

Lemma clz_table_ones : ∀ k, (k ≤ 32)%nat →
  znth kCountLeadingZeros32_Table (Z.shiftr (u32 (Z.ones (Z.of_nat k) * 2349541521)) 26)
  = Some (32 - Z.of_nat k).
Proof.
  intros k Hk. do 33 (destruct k as [|k]; [vm_compute; reflexivity|]). lia.
Qed.

Lemma clz32_table n : is_u32 n → CountLeadingZeros32_NotBuiltin n = Some (CountLeadingZeros32 n).
Proof.
  intros Hn. unfold CountLeadingZeros32_NotBuiltin, CountLeadingZeros32.
  destruct (Z.eqb_spec n 0) as [->|]; [reflexivity|].
  rewrite (smeared_ones n (Z.lor _ (Z.shiftr _ 16))).
  - pose proof (Z.log2_nonneg n). assert (Z.log2 n < 32) by (apply Z.log2_lt_pow2; lia).
    replace (Z.log2 n + 1) with (Z.of_nat (Z.to_nat (Z.log2 n + 1))) by lia.
    rewrite clz_table_ones by lia. f_equal. lia.
  - lia.
  - apply (smear_step 16 16), (smear_step 8 8), (smear_step 4 4), (smear_step 2 2), (smear_step 1 1);
      [lia..|apply smeared_refl].
  - repeat (rewrite Z.lor_nonneg || rewrite Z.shiftr_nonneg). tauto.
Qed.

(** The portable leading-zero count (smear the word to the right,
    multiply by a constant found by exhaustive search and look the product's
    top six bits up in a 64-entry table with unused entries) never reads a
    hole of the table or outside it, and equals the number of leading zeros
    for every 32-bit and every 64-bit word, zero included. *)
Theorem clz_table_correct (n : Z) :
  is_u64 n →
  CountLeadingZeros64_NotBuiltin n = Some (CountLeadingZeros64 n) ∧
  (is_u32 n → CountLeadingZeros32_NotBuiltin n = Some (CountLeadingZeros32 n)).
Proof.
  intros Hn. split; [|apply clz32_table].
  unfold CountLeadingZeros64_NotBuiltin. rewrite Z.shiftr_div_pow2 by lia. change (2 ^ 32) with 4294967296.
  rewrite clz32_table by apply u32_range. cbn. f_equal. unfold CountLeadingZeros32, CountLeadingZeros64.
  destruct (Z.eqb_spec (n / 4294967296) 0) as [E|E].
  - assert (n < 4294967296) by (apply Z.div_small_iff in E; lia).
    change (32 - 32) with 0. rewrite Z.shiftr_0_r, u32_small by lia. destruct (n =? 0); lia.
  - change (32 - 0) with 32. rewrite Z.shiftr_div_pow2 by lia. change (2 ^ 32) with 4294967296.
    rewrite u32_small by (split; [apply Z.div_pos; lia|apply Z.div_lt_upper_bound; lia]).
    destruct (Z.eqb_spec (n / 4294967296) 0); [done|]. destruct (Z.eqb_spec n 0); [subst; done|].
    change 4294967296 with (2 ^ 32). rewrite <- Z.shiftr_div_pow2, Z.log2_shiftr by lia.
    assert (32 ≤ Z.log2 n); [|lia]. apply Z.log2_le_pow2; [lia|]. change (2 ^ 32) with 4294967296.
    destruct (Z.lt_ge_cases n 4294967296); [|done]. rewrite Z.div_small in E; lia.
Qed.

(** ** Saturation *)

Definition clamp (lo hi x : Z) : Z := Z.max lo (Z.min hi x).

Lemma SatW32ToW16_clamp x : SatW32ToW16 x = clamp (-32768) 32767 x.
Proof.
  unfold SatW32ToW16, clamp. destruct (Z.ltb_spec 32767 x), (Z.ltb_spec x (-32768)); try lia.
  rewrite s16_small; lia.
Qed.

Lemma AddSatW32_clamp a b : is_s32 a → is_s32 b → AddSatW32 a b = clamp INT32_MIN INT32_MAX (a + b).
Proof.
  intros Ha Hb. unfold AddSatW32, clamp, INT32_MIN, INT32_MAX.
  rewrite u32_add, s32_u32. unfold s32.
  destruct (Z.ltb_spec a 0), (Z.ltb_spec b 0); cbn -[Z.modulo Z.min Z.max];
    destruct (Z.ltb_spec ((a + b + 2147483648) mod 4294967296 - 2147483648) 0); cbn -[Z.modulo Z.min Z.max]; dlia.
Qed.

Lemma SubSatW32_clamp a b : is_s32 a → is_s32 b → SubSatW32 a b = clamp INT32_MIN INT32_MAX (a - b).
Proof.
  intros Ha Hb. unfold SubSatW32, clamp, INT32_MIN, INT32_MAX.
  rewrite u32_sub, s32_u32. unfold s32.
  destruct (Z.ltb_spec a 0), (Z.ltb_spec b 0); cbn -[Z.modulo Z.min Z.max];
    destruct (Z.ltb_spec ((a - b + 2147483648) mod 4294967296 - 2147483648) 0); cbn -[Z.modulo Z.min Z.max]; dlia.
Qed.

(** Saturating arithmetic: the 32-bit sum and difference, computed with
    wrapping unsigned words and corrected from the signs, and the 16-bit ones
    are the exact sum and difference clamped to the type's range. *)
Theorem saturating_arithmetic (a b : Z) :
  is_s32 a → is_s32 b →
  AddSatW32 a b = clamp INT32_MIN INT32_MAX (a + b) ∧
  SubSatW32 a b = clamp INT32_MIN INT32_MAX (a - b) ∧
  SatW32ToW16 a = clamp (-32768) 32767 a ∧
  AddSatW16 (s16 a) (s16 b) = clamp (-32768) 32767 (s16 a + s16 b) ∧
  SubSatW16 (s16 a) (s16 b) = clamp (-32768) 32767 (s16 a - s16 b).
Proof.
  intros Ha Hb. unfold AddSatW16, SubSatW16. rewrite !SatW32ToW16_clamp.
  auto using AddSatW32_clamp, SubSatW32_clamp.
Qed.

(** ** Normalisation *)

Lemma log2_frame n k : 0 < n < 2 ^ k →
  2 ^ (k - 1) ≤ n * 2 ^ (k - 1 - Z.log2 n) ∧ (n + 1) * 2 ^ (k - 1 - Z.log2 n) ≤ 2 ^ k.
Proof.
  intros Hn. pose proof (Z.log2_spec n ltac:(lia)) as [H1 H2]. pose proof (Z.log2_nonneg n).
  assert (Z.log2 n < k) by (apply Z.log2_lt_pow2; lia).
  replace (2 ^ (k - 1)) with (2 ^ Z.log2 n * 2 ^ (k - 1 - Z.log2 n))
    by (rewrite <- Z.pow_add_r by lia; f_equal; lia).
  replace (2 ^ k) with (2 ^ Z.succ (Z.log2 n) * 2 ^ (k - 1 - Z.log2 n))
    by (rewrite <- Z.pow_add_r by lia; f_equal; lia).
  assert (0 < 2 ^ (k - 1 - Z.log2 n)) by (apply Z.pow_pos_nonneg; lia). nia.
Qed.

(** The normalisation shift of a [w]-bit signed number. *)
Lemma norm_frame a w : 1 < w → a ≠ 0 → - 2 ^ (w - 1) ≤ a < 2 ^ (w - 1) →
  let m := if a <? 0 then Z.lnot a else a in
  let sh := (if m =? 0 then w else w - 1 - Z.log2 m) - 1 in
  0 ≤ sh ∧ sh ≤ w - 1 ∧ - 2 ^ (w - 1) ≤ a * 2 ^ sh < 2 ^ (w - 1) ∧
  (a * 2 ^ sh < - 2 ^ (w - 2) ∨ 2 ^ (w - 2) ≤ a * 2 ^ sh).
Proof.
  intros Hw Ha Hr m sh.
  assert (Hp : 2 ^ (w - 1) = 2 * 2 ^ (w - 2)) by (rewrite <- Z.pow_succ_r by lia; f_equal; lia).
  assert (0 < 2 ^ (w - 2)) by (apply Z.pow_pos_nonneg; lia).
  assert (Hm : 0 ≤ m < 2 ^ (w - 1)).
  { unfold m. destruct (Z.ltb_spec a 0); unfold Z.lnot; lia. }
  unfold sh. destruct (Z.eqb_spec m 0) as [E|E].
  - assert (a = -1) as ->.
    { unfold m in E. destruct (Z.ltb_spec a 0); unfold Z.lnot in E; lia. }
    lia.
  - pose proof (log2_frame m (w - 1) ltac:(lia)) as Hf.
    replace (w - 1 - Z.log2 m - 1) with (w - 1 - 1 - Z.log2 m) by lia.
    replace (w - 1 - 1) with (w - 2) in Hf by lia. replace (w - 1 - 1) with (w - 2) by lia.
    assert (Z.log2 m < w - 1) by (apply Z.log2_lt_pow2; lia). pose proof (Z.log2_nonneg m).
    assert (0 < 2 ^ (w - 2 - Z.log2 m)) by (apply Z.pow_pos_nonneg; lia).
    split; [lia|]. split; [lia|].
    assert (Hm' : a = m ∨ a = - (m + 1)); [|destruct Hm' as [Hm'|Hm']; rewrite Hm' at 1 2 3 4; lia].
    unfold m. destruct (Z.ltb_spec a 0); unfold Z.lnot; lia.
Qed.

(** A shift within the frame fits exactly up to the frame's shift. *)
Lemma fits_iff a lo hi sh s :
  0 ≤ sh → 0 ≤ s → lo < 0 < hi → - hi ≤ lo → (lo ≤ a * 2 ^ sh < hi) →
  (2 * (a * 2 ^ sh) < lo ∨ hi ≤ 2 * (a * 2 ^ sh)) →
  (lo ≤ a * 2 ^ s < hi) ↔ s ≤ sh.
Proof.
  intros Hsh Hs Hb Hlh Hin Hout. split.
  - intros H. destruct (Z.le_gt_cases s sh) as [|Hgt]; [done|]. exfalso.
    replace s with (sh + 1 + (s - sh - 1)) in H by lia.
    rewrite !Z.pow_add_r in H by lia. change (2 ^ 1) with 2 in H.
    assert (0 < 2 ^ (s - sh - 1)) by (apply Z.pow_pos_nonneg; lia).
    set (x := a * 2 ^ sh) in *. replace (a * (2 ^ sh * 2 * 2 ^ (s - sh - 1))) with (2 * x * 2 ^ (s - sh - 1)) in H
      by (unfold x; ring). nia.
  - intros H. replace sh with (s + (sh - s)) in Hin by lia. rewrite Z.pow_add_r in Hin by lia.
    assert (0 < 2 ^ (sh - s)) by (apply Z.pow_pos_nonneg; lia). nia.
Qed.

Lemma NormW_frame a w sh (clz := λ m, if m =? 0 then w else w - 1 - Z.log2 m) :
  1 < w ≤ 32 → a ≠ 0 → - 2 ^ (w - 1) ≤ a < 2 ^ (w - 1) →
  sh = clz (if a <? 0 then Z.lnot a else a) - 1 →
  0 ≤ sh < w ∧ ∀ s, 0 ≤ s → (- 2 ^ (w - 1) ≤ a * 2 ^ s < 2 ^ (w - 1)) ↔ s ≤ sh.
Proof.
  intros Hw Ha Hr ->. destruct (norm_frame a w ltac:(lia) Ha Hr) as (H1 & H2 & H3 & H4).
  assert (Hp : 2 ^ (w - 1) = 2 * 2 ^ (w - 2)) by (rewrite <- Z.pow_succ_r by lia; f_equal; lia).
  assert (0 < 2 ^ (w - 2)) by (apply Z.pow_pos_nonneg; lia).
  split; [unfold clz; lia|]. unfold clz. intros s Hs. apply fits_iff; lia.
Qed.

(** Normalisation: for every non-zero number of the type, [NormW32],
    [NormW16] and [NormU32] are the exact number of positions it can be
    shifted left without leaving the type: a shift by [s] fits if and only if
    [s] is at most the returned value. *)
Theorem normalisation_is_exact (a s : Z) :
  a ≠ 0 → 0 ≤ s →
  (is_s32 a → is_s32 (a * 2 ^ s) ↔ s ≤ NormW32 a) ∧
  (is_s16 a → is_s16 (a * 2 ^ s) ↔ s ≤ NormW16 a) ∧
  (is_u32 a → is_u32 (a * 2 ^ s) ↔ s ≤ NormU32 a).
Proof.
  intros Ha Hs. unfold NormW32, NormW16, NormU32, CountLeadingZeros32.
  destruct (Z.eqb_spec a 0) as [|_]; [done|].
  assert (Hm : is_s32 a → is_u32 (if a <? 0 then Z.lnot a else a))
    by (destruct (Z.ltb_spec a 0); unfold Z.lnot; lia).
  split_and!; intros Hr.
  - edestruct (NormW_frame a 32) as [Hb Hi]; [lia|done|done|reflexivity|]. cbv beta in Hb, Hi.
    change (32 - 1) with 31 in Hb, Hi.
    rewrite u32_small by (apply Hm; lia). rewrite s16_small by lia. apply (Hi s Hs).
  - edestruct (NormW_frame a 16) as [Hb Hi]; [lia|done|done|reflexivity|]. cbv beta in Hb, Hi.
    rewrite u32_small by (apply Hm; lia).
    replace (_ - 17) with ((if (if a <? 0 then Z.lnot a else a) =? 0 then 16
      else 16 - 1 - Z.log2 (if a <? 0 then Z.lnot a else a)) - 1) by (destruct (_ =? 0); lia).
    rewrite s16_small by lia. apply (Hi s Hs).
  - assert (Z.log2 a < 32) by (apply Z.log2_lt_pow2; lia). pose proof (Z.log2_nonneg a).
    pose proof (log2_frame a 32 ltac:(lia)) as Hf. change (32 - 1) with 31 in Hf. rewrite s16_small by lia.
    rewrite <- (fits_iff a (-1) 4294967296 (31 - Z.log2 a) s); [|lia..]. 
    assert (0 < 2 ^ s) by (apply Z.pow_pos_nonneg; lia). nia.
Qed.

(** ** Square roots *)

(** Before the round for bit [N]: [r] is the root found so far, a multiple of
    [2^(N+1)], with its square taken off [value]. *)
Definition sqrt_inv (v k : Z) (st : Z * Z) : Prop :=
  ∃ r, st = (v - r * r, 2 * r) ∧ 0 ≤ r ≤ 65536 - 2 ^ k ∧ (2 ^ k | r) ∧ r * r ≤ v < (r + 2 ^ k) * (r + 2 ^ k).

Lemma lor_disjoint r n : 0 ≤ n → (2 ^ (n + 1) | r) → Z.lor r (2 ^ n) = r + 2 ^ n.
Proof.
  intros Hn [q ->]. rewrite Z.lor_comm, <- Z.shiftl_mul_pow2, lor_shiftl_add by (try split;
    try apply Z.pow_nonneg; try apply Z.pow_lt_mono_r; lia). rewrite Z.shiftl_mul_pow2; lia.
Qed.

Lemma SQRT_ITER_inv v N st :
  0 ≤ N ≤ 15 → is_s32 v → sqrt_inv v (N + 1) st → sqrt_inv v N (SQRT_ITER N st).
Proof.
  intros HN Hv (r & -> & Hr & Hd & Hsq). unfold SQRT_ITER.
  assert (Hp : 2 ^ (N + 1) = 2 * 2 ^ N) by (rewrite Z.pow_add_r by lia; lia).
  rewrite Hp in Hr, Hsq. rewrite !Z.shiftl_mul_pow2, Z.mul_1_l by lia.
  assert (Hr' : r ≤ 46340) by nia.
  assert (HN' : 2 ^ N ≤ 32768) by (change 32768 with (2 ^ 15); apply Z.pow_le_mono_r; lia).
  assert (0 < 2 ^ N) by (apply Z.pow_pos_nonneg; lia).
  assert (Hfit : (2 * r + 2 ^ N) * 2 ^ N < 2147483648).
  { destruct (decide (N = 15)) as [->|].
    - assert (r = 0) as -> by (destruct Hd as [q ->]; change (2 ^ (15 + 1)) with 65536 in *; nia). done.
    - assert (2 ^ N ≤ 16384) by (change 16384 with (2 ^ 14); apply Z.pow_le_mono_r; lia). nia. }
  rewrite (s32_small (2 * r + 2 ^ N)), (s32_small (_ * _)) by nia.
  destruct (Z.leb_spec ((2 * r + 2 ^ N) * 2 ^ N) (v - r * r)) as [Hle|Hgt].
  - exists (r + 2 ^ N). rewrite s32_small by nia. split; [|split_and!].
    + f_equal; [ring|]. replace (2 * 2 ^ N) with (2 ^ (N + 1)) by done.
      rewrite lor_disjoint; [lia|lia|]. destruct Hd as [q ->]. exists q.
      rewrite (Z.pow_add_r 2 (N + 1) 1) by lia. ring.
    + lia.
    + lia.
    + destruct Hd as [q ->]. exists (2 * q + 1). rewrite Hp. ring.
    + nia.
    + nia.
  - exists r. split; [done|]. split_and!; [lia|lia| |lia|nia].
    destruct Hd as [q ->]. exists (2 * q). rewrite Hp. ring.
Qed.

Lemma SQRT_ITER_neg v N : 0 ≤ N ≤ 15 → v < 0 → SQRT_ITER N (v, 0) = (v, 0).
Proof.
  intros HN Hv. unfold SQRT_ITER. rewrite Z.add_0_l, !Z.shiftl_mul_pow2, Z.mul_1_l by lia.
  assert (0 < 2 ^ N ≤ 32768) by (split; [apply Z.pow_pos_nonneg; lia|];
    change 32768 with (2 ^ 15); apply Z.pow_le_mono_r; lia).
  rewrite !s32_small by (rewrite ?s32_small; nia). destruct (Z.leb_spec (2 ^ N * 2 ^ N) v); [nia|done].
Qed.

(** C40. [WebRtcSpl_SqrtFloor]: for every 32-bit value the unrolled bit-by-bit
    routine returns the integer square root rounded down, and 0 for a negative
    value; no intermediate value overflows. *)
Theorem SqrtFloor_correct (value : Z) : is_s32 value → SqrtFloor value = Z.sqrt value.
Proof.
  intros Hv. unfold SqrtFloor. destruct (Z.lt_ge_cases value 0) as [Hneg|Hpos].
  - rewrite Z.sqrt_neg by done. cbn [foldl]. by rewrite !SQRT_ITER_neg by lia.
  - set (st := foldl _ _ _). assert (Hinv : sqrt_inv value 0 st).
    { unfold st. cbn [foldl].
      do 16 (apply SQRT_ITER_inv; [lia|done|]).
      exists 0. split; [f_equal; lia|]. cbn. split_and!; [lia|lia|exists 0; lia|lia|lia]. }
    destruct st as [v' root]. destruct Hinv as (r & [= -> ->] & Hr & _ & Hsq).
    rewrite Z.shiftr_div_pow2, Z.mul_comm, Z.div_mul by lia. symmetry. apply Z.sqrt_unique. cbn in Hsq. lia.
Qed.

(** [f] on the [n] numbers from [z] on. *)
Fixpoint all_from (n : nat) (z : Z) (f : Z → bool) : bool :=
  match n with O => true | S n' => f z && all_from n' (z + 1) f end.

Lemma all_from_spec n z f x : all_from n z f = true → z ≤ x < z + Z.of_nat n → f x = true.
Proof.
  revert z. induction n as [|n IH]; intros z H Hx; [lia|].
  apply andb_true_iff in H as [Hz H]. destruct (decide (x = z)) as [->|]; [done|]. apply (IH (z + 1)); [done|lia].
Qed.

(** The same computation with other conversions to 32 and 16 bits, and
    conversions that are quick to evaluate on values that fit. *)
Definition SqrtLocal_at (w32 w16 : Z → Z) (inp : Z) : Z :=
  let B := inp ÷ 2 in
  let B := w32 (B - 1073741824) in
  let x_half := w16 (Z.shiftr B 16) in
  let B := w32 (B + 1073741824) in
  let B := w32 (B + 1073741824) in
  let x2 := w32 (x_half * x_half * 2) in
  let A := w32 (- x2) in
  let B := w32 (B + Z.shiftr A 1) in
  let A := Z.shiftr A 16 in
  let A := w32 (A * A * 2) in
  let t16 := w16 (Z.shiftr A 16) in
  let B := w32 (B + w32 (-20480 * t16 * 2)) in
  let A := w32 (x_half * t16 * 2) in
  let t16 := w16 (Z.shiftr A 16) in
  let B := w32 (B + w32 (28672 * t16 * 2)) in
  let t16 := w16 (Z.shiftr x2 16) in
  let A := w32 (x_half * t16 * 2) in
  let B := w32 (B + Z.shiftr A 1) in
  w32 (B + 32768).

Definition sqrt_norm_at (w32 w16 : Z → Z) (even : bool) (x_norm : Z) : Z :=
  let A := w32 (Z.shiftl x_norm 16) in
  let A := if 0 <=? A then A else w32 (- A) in
  let A := SqrtLocal_at w32 w16 A in
  let A :=
    if even then
      let t16 := w16 (Z.shiftr A 16) in
      let A := w32 (23170 * t16 * 2) in
      let A := w32 (A + 32768) in
      let A := Z.land A 2147418112 in
      Z.shiftr A 15
    else Z.shiftr A 16 in
  Z.land A 65535.

Definition s32_quick (x : Z) : Z := if (-2147483648 <=? x) && (x <? 2147483648) then x else s32 x.
Definition s16_quick (x : Z) : Z := if (-32768 <=? x) && (x <? 32768) then x else s16 x.

Lemma sqrt_norm_at_ext w32 w16 even x :
  (∀ y, w32 y = s32 y) → (∀ y, w16 y = s16 y) → sqrt_norm_at w32 w16 even x = sqrt_norm even x.
Proof.
  intros H32 H16. unfold sqrt_norm_at, sqrt_norm, SqrtLocal_at, SqrtLocal, LSHIFT_W32.
  cbv zeta. by rewrite ?H32, ?H16.
Qed.

Lemma sqrt_norm_quick even x : sqrt_norm_at s32_quick s16_quick even x = sqrt_norm even x.
Proof.
  apply sqrt_norm_at_ext; intros y; unfold s32_quick, s16_quick; destruct (_ && _) eqn:E; try done;
    apply andb_true_iff in E as [?%Z.leb_le ?%Z.ltb_lt]; symmetry; [apply s32_small|apply s16_small]; lia.
Qed.

(** The words that round to [x_norm], and how far the polynomial is from
    their square roots. *)
Definition lo_word (x : Z) : Z := x * 65536 - 32768.
Definition hi_word (x : Z) : Z := x * 65536 + (if x =? 32767 then 65535 else 32767).
Definition sqrt_norm_close (x : Z) : bool :=
  let e := sqrt_norm_at s32_quick s16_quick true x in
  let o := sqrt_norm_at s32_quick s16_quick false x in
  (Z.sqrt (hi_word x) - 3 <=? e) && (e <=? Z.sqrt (lo_word x) + 27) &&
  (Z.sqrt (hi_word x / 2) - 3 <=? o) && (o <=? Z.sqrt (lo_word x / 2) + 27).

Lemma sqrt_norm_table : all_from (Z.to_nat 16384) 16384 sqrt_norm_close = true.
Proof. vm_cast_no_check (eq_refl true). Qed.

Lemma sqrt_norm_bounds x A :
  16384 ≤ x ≤ 32767 → lo_word x ≤ A ≤ hi_word x →
  (Z.sqrt A - 3 ≤ sqrt_norm true x ≤ Z.sqrt A + 27) ∧
  (Z.sqrt (A / 2) - 3 ≤ sqrt_norm false x ≤ Z.sqrt (A / 2) + 27).
Proof.
  intros Hx HA. pose proof (all_from_spec _ _ _ x sqrt_norm_table ltac:(lia)) as H.
  unfold sqrt_norm_close in H. rewrite !sqrt_norm_quick, !andb_true_iff, !Z.leb_le in H.
  pose proof (Z.sqrt_le_mono A (hi_word x) ltac:(lia)). pose proof (Z.sqrt_le_mono (lo_word x) A ltac:(lia)).
  pose proof (Z.sqrt_le_mono (A / 2) (hi_word x / 2) ltac:(apply Z.div_le_mono; lia)).
  pose proof (Z.sqrt_le_mono (lo_word x / 2) (A / 2) ltac:(apply Z.div_le_mono; lia)). lia.
Qed.

(** Rounding down after a shift keeps a distance. *)
Lemma shiftr_close f s n :
  0 ≤ n → s - 3 ≤ f ≤ s + 27 → s / 2 ^ n - 3 ≤ Z.shiftr f n ≤ s / 2 ^ n + 27.
Proof.
  intros Hn Hf. rewrite Z.shiftr_div_pow2 by done.
  assert (Hp : 1 ≤ 2 ^ n) by (assert (0 < 2 ^ n) by (apply Z.pow_pos_nonneg; lia); lia).
  split.
  - apply Z.div_le_lower_bound; [lia|]. pose proof (Z.mul_div_le s (2 ^ n) ltac:(lia)). nia.
  - apply Z.lt_succ_r, Z.div_lt_upper_bound; [lia|]. pose proof (Z.mul_succ_div_gt s (2 ^ n) ltac:(lia)). nia.
Qed.

Lemma sqrt_scaled v n : 0 ≤ v → 0 ≤ n → Z.sqrt (v * 2 ^ (2 * n)) / 2 ^ n = Z.sqrt v.
Proof.
  intros Hv Hn. assert (Hp : 0 < 2 ^ n) by (apply Z.pow_pos_nonneg; lia).
  replace (2 ^ (2 * n)) with (2 ^ n * 2 ^ n) by (rewrite <- Z.pow_add_r by lia; f_equal; lia).
  set (p := 2 ^ n) in *. pose proof (Z.sqrt_spec v Hv). pose proof (Z.sqrt_spec (v * (p * p)) ltac:(nia)). cbv zeta in *.
  symmetry. apply (Z.div_unique_pos _ _ _ (Z.sqrt (v * (p * p)) - p * Z.sqrt v)); [|lia].
  set (r := Z.sqrt v) in *. set (q := Z.sqrt (v * (p * p))) in *.
  pose proof (Z.sqrt_nonneg v). pose proof (Z.sqrt_nonneg (v * (p * p))).
  assert (p * p * (r * r) ≤ p * p * v) by (apply Z.mul_le_mono_nonneg_l; [nia|lia]).
  assert (p * p * v < p * p * (Z.succ r * Z.succ r)) by (apply Z.mul_lt_mono_pos_l; [nia|lia]).
  assert (p * r < Z.succ q) by (apply Z.square_lt_simpl_nonneg; lia).
  assert (q < p * Z.succ r) by (apply Z.square_lt_simpl_nonneg; [nia|lia]). lia.
Qed.

Lemma NormW32_pos v :
  0 < v < 2147483648 → 0 ≤ NormW32 v < 32 ∧ 1073741824 ≤ v * 2 ^ NormW32 v < 2147483648.
Proof.
  intros Hv. unfold NormW32, CountLeadingZeros32.
  destruct (Z.eqb_spec v 0); [lia|]. destruct (Z.ltb_spec v 0); [lia|].
  rewrite u32_small by lia. destruct (Z.eqb_spec v 0); [lia|].
  pose proof (log2_frame v 31 ltac:(lia)) as Hf. change (31 - 1) with 30 in Hf.
  assert (Z.log2 v < 31) by (apply Z.log2_lt_pow2; lia). pose proof (Z.log2_nonneg v).
  rewrite s16_small by lia. replace (31 - Z.log2 v - 1) with (30 - Z.log2 v) by lia. lia.
Qed.

(** The size in bits bounds the number. *)
Lemma GetSizeInBits_bound n : is_u32 n → 0 ≤ GetSizeInBits n ≤ 32 ∧ n < 2 ^ GetSizeInBits n.
Proof.
  intros Hn. unfold GetSizeInBits, CountLeadingZeros32. destruct (Z.eqb_spec n 0) as [->|]; [done|].
  assert (Z.log2 n < 32) by (apply Z.log2_lt_pow2; lia). pose proof (Z.log2_nonneg n).
  rewrite s16_small by lia. split; [lia|]. replace (32 - (31 - Z.log2 n)) with (Z.succ (Z.log2 n)) by lia.
  apply Z.log2_spec. lia.
Qed.

Lemma Sqrt_pos v :
  0 < v < 2147483648 →
  Z.sqrt v - 3 ≤ Sqrt v ≤ Z.sqrt v + 27.
Proof.
  intros Hv. unfold Sqrt. destruct (Z.eqb_spec v 0); [lia|]. destruct (Z.ltb_spec v 0); [lia|].
  destruct (NormW32_pos v Hv) as [Hsh HA0].
  set (sh := NormW32 v) in *. unfold LSHIFT_W32. rewrite Z.shiftl_mul_pow2, s32_small by lia.
  set (A := v * 2 ^ sh) in *. set (x := s16 (Z.shiftr _ 16)).
  assert (Hx : 16384 ≤ x ≤ 32767 ∧ lo_word x ≤ A ≤ hi_word x).
  { unfold x, lo_word, hi_word, INT32_MAX. destruct (Z.ltb_spec A (2147483647 - 32767));
      rewrite Z.shiftr_div_pow2 by lia; change (2 ^ 16) with 65536.
    - rewrite s32_small, s16_small by dlia. destruct (Z.eqb_spec ((A + 32768) / 65536) 32767); dlia.
    - change (s16 (2147483647 / 65536)) with 32767. cbn. lia. }
  destruct Hx as [Hx HA]. destruct (sqrt_norm_bounds x A Hx HA) as [He Ho].
  rewrite s16_small, Z.quot_div_nonneg by (rewrite ?Z.quot_div_nonneg; dlia).
  destruct (Z.eqb_spec (2 * (sh / 2)) sh) as [E|E].
  - apply (shiftr_close _ _ (sh / 2)) in He; [|dlia]. rewrite <- (sqrt_scaled v (sh / 2)) by dlia.
    rewrite E. exact He.
  - apply (shiftr_close _ _ (sh / 2)) in Ho; [|dlia]. rewrite <- (sqrt_scaled v (sh / 2)) by dlia.
    replace (v * 2 ^ (2 * (sh / 2))) with (A / 2); [exact Ho|].
    unfold A. replace sh with (2 * (sh / 2) + 1) at 1 by dlia.
    rewrite Z.pow_add_r by dlia. rewrite Z.mul_assoc. apply Z.div_mul. lia.
Qed.

(** [WebRtcSpl_Sqrt] approximates the square root of the magnitude of
    every 32-bit number, [INT32_MIN] and 0 included: the six-term polynomial
    evaluated in 16-bit fixed point is at most 3 below and at most 27 above
    the exact integer square root. *)
Theorem Sqrt_error (value : Z) :
  is_s32 value → Z.sqrt (Z.abs value) - 3 ≤ Sqrt value ≤ Z.sqrt (Z.abs value) + 27.
Proof.
  intros Hv. destruct (Z.lt_trichotomy value 0) as [Hneg|[->|Hpos]].
  - assert (Habs : Sqrt value = Sqrt (Z.min (- value) INT32_MAX)).
    { unfold Sqrt, INT32_MAX, INT32_MIN. destruct (Z.eqb_spec value 0), (Z.ltb_spec value 0); try lia.
      destruct (Z.eqb_spec (Z.min (- value) 2147483647) 0), (Z.ltb_spec (Z.min (- value) 2147483647) 0); try lia.
      destruct (Z.eqb_spec value (-2147483648)) as [->|]; [done|].
      by rewrite Z.min_l, s32_small by lia. }
    rewrite Habs. destruct (decide (value = -2147483648)) as [->|]; [vm_compute; split; discriminate|].
    rewrite Z.min_l, Z.abs_neq by (unfold INT32_MAX; lia). apply Sqrt_pos. lia.
  - vm_compute. split; discriminate.
  - rewrite Z.abs_eq by lia. apply Sqrt_pos. lia.
Qed.

(** ** Division *)

Lemma div_rounds n d k :
  0 ≤ n < d → d ≤ 1073741824 → (k ≤ 31)%nat →
  ∃ q r, Nat.iter k (div_round d) (0, n) = (q, r) ∧ q * d + r = n * 2 ^ Z.of_nat k ∧
         0 ≤ r < d ∧ 0 ≤ q < 2 ^ Z.of_nat k.
Proof.
  intros Hn Hd. induction k as [|k IH]; intros Hk; [exists 0, n; split; [done|]; cbn; lia|].
  destruct IH as (q & r & E & Heq & Hr & Hq); [lia|]. rewrite Nat.iter_succ, E. unfold div_round.
  rewrite Nat2Z.inj_succ, Z.pow_succ_r by lia. rewrite !Z.shiftl_mul_pow2 by lia. change (2 ^ 1) with 2.
  assert (2 ^ Z.of_nat k ≤ 1073741824) by (change 1073741824 with (2 ^ 30); apply Z.pow_le_mono_r; lia).
  rewrite (s32_small (q * 2)), (s32_small (r * 2)) by lia.
  destruct (Z.leb_spec d (r * 2)).
  - rewrite !s32_small by lia. exists (q * 2 + 1), (r * 2 - d). split; [done|]. lia.
  - exists (q * 2), (r * 2). split; [done|]. lia.
Qed.

(** [WebRtcSpl_DivResultInQ31]: for a numerator smaller in magnitude than
    a denominator of magnitude at most 2^30, the shift-and-subtract loop
    returns the quotient as a Q31 fraction, truncated towards zero. *)
Theorem DivResultInQ31_correct (num den : Z) :
  Z.abs num < Z.abs den → Z.abs den ≤ 1073741824 →
  DivResultInQ31 num den = num * 2147483648 ÷ den.
Proof.
  intros Hnum Hden. unfold DivResultInQ31. destruct (Z.eqb_spec num 0) as [->|Hz]; [by rewrite Z.mul_0_l, Z.quot_0_l by lia|].
  replace (if num <? 0 then s32 (- num) else num) with (Z.abs num)
    by (destruct (Z.ltb_spec num 0); rewrite ?s32_small; lia).
  replace (if den <? 0 then s32 (- den) else den) with (Z.abs den)
    by (destruct (Z.ltb_spec den 0); rewrite ?s32_small; lia).
  destruct (div_rounds (Z.abs num) (Z.abs den) 31) as (q & r & -> & Heq & Hr & Hq); [lia..|].
  change (2 ^ Z.of_nat 31) with 2147483648 in *.
  assert (Hquot : q = Z.abs num * 2147483648 ÷ Z.abs den).
  { rewrite Z.quot_div_nonneg by lia. apply (Z.div_unique_pos _ _ _ r); lia. }
  destruct (Z.ltb_spec num 0), (Z.ltb_spec den 0); cbn -[s32 Z.quot Z.mul];
    rewrite ?s32_small by lia; rewrite Hquot.
  - by rewrite !Z.abs_neq, Z.mul_opp_l, Z.quot_opp_opp by lia.
  - by rewrite Z.abs_neq, Z.abs_eq, Z.mul_opp_l, Z.quot_opp_l, Z.opp_involutive by lia.
  - by rewrite Z.abs_eq, Z.abs_neq, Z.quot_opp_r, Z.opp_involutive by lia.
  - by rewrite !Z.abs_eq by lia.
Qed.
End arithmetic.

(** ** Witnesses *)

Lemma clz_table_correct_witness :
  Spl.CountLeadingZeros64_NotBuiltin 5 = Some 61 ∧ Spl.CountLeadingZeros32_NotBuiltin 5 = Some 29.
Proof.
  assert (H : is_u64 5) by lia. assert (H' : is_u32 5) by lia.
  exact (conj (proj1 (clz_table_correct 5 H)) (proj2 (clz_table_correct 5 H) H')).
Defined.

Lemma saturating_arithmetic_witness : Spl.AddSatW32 2147483000 1000 = 2147483647.
Proof.
  assert (H : is_s32 2147483000) by lia. assert (H' : is_s32 1000) by lia.
  exact (proj1 (saturating_arithmetic 2147483000 1000 H H')).
Defined.

Lemma normalisation_is_exact_witness : is_s32 (-3 * 2 ^ 29) ↔ 29 ≤ 29.
Proof.
  assert (H : -3 ≠ 0) by lia. assert (H' : 0 ≤ 29) by lia. assert (Hr : is_s32 (-3)) by lia.
  exact (proj1 (normalisation_is_exact (-3) 29 H H') Hr).
Defined.

Lemma SqrtFloor_correct_witness : Spl.SqrtFloor 2147395599 = 46339.
Proof. assert (H : is_s32 2147395599) by lia. exact (SqrtFloor_correct 2147395599 H). Defined.

Lemma Sqrt_error_witness : 271 - 3 ≤ Spl.Sqrt (-73632) ≤ 271 + 27.
Proof. assert (H : is_s32 (-73632)) by lia. exact (Sqrt_error (-73632) H). Defined.

Lemma DivResultInQ31_correct_witness : Spl.DivResultInQ31 (-1) 3 = -715827882.
Proof.
  assert (H : Z.abs (-1) < Z.abs 3) by lia. assert (H' : Z.abs 3 ≤ 1073741824) by lia.
  exact (DivResultInQ31_correct (-1) 3 H H').
Defined.
