(* ===== verification/Vec.v ===== *)
(** * webrtc_dsp/common_audio/signal_processing: vector operations

    [min_max_operations.c], [vector_scaling_operations.c],
    [copy_set_operations.c], [get_scaling_square.c], [energy.c],
    [auto_correlation.c], [cross_correlation.c], [downsample_fast.c],
    [filter_ar.c], [filter_ar_fast_q12.c] and [filter_ma_fast_q12.c] (the
    generic C versions).  A vector is the list of its [length] elements; a
    result array is returned.  [RTC_DCHECK] does nothing in a release build.
    [None]: an element outside an array is read. *)

From Stdlib Require Import ZArith Lia.
From stdpp Require Import base tactics list numbers option.
From S2P Require Import Prelude Words Memory Spl.
From stdpp Require Import list.
Open Scope Z_scope.

Module Vec.
Import Spl.

(** ** min_max_operations.c *)

Definition MaxAbsValueW16C (vector : list Z) : Z :=
  let maximum :=
    foldl (λ maximum v, let absolute := Z.abs v in if maximum <? absolute then absolute else maximum)
      0 vector in
  let maximum := if 32767 <? maximum then 32767 else maximum in
  s16 maximum.

(** [abs(INT_MIN)] is [INT_MIN], 0x80000000 as an unsigned word. *)
Definition MaxAbsValueW32C (vector : list Z) : Z :=
  let maximum :=
    foldl (λ maximum v, let absolute := u32 (s32 (Z.abs v)) in
                        if maximum <? absolute then absolute else maximum)
      0 vector in
  let maximum := if maximum <? 2147483647 then maximum else 2147483647 in
  s32 maximum.

(** The maximum loop from [start], the minimum loop. *)
Definition max_loop (start : Z) (vector : list Z) : Z :=
  foldl (λ maximum v, if maximum <? v then v else maximum) start vector.
Definition min_loop (start : Z) (vector : list Z) : Z :=
  foldl (λ minimum v, if v <? minimum then v else minimum) start vector.

Definition MaxValueW16C : list Z → Z := max_loop (-32768).
Definition MaxValueW32C : list Z → Z := max_loop INT32_MIN.
Definition MinValueW16C : list Z → Z := min_loop 32767.
Definition MinValueW32C : list Z → Z := min_loop INT32_MAX.

(** The index loops: [i], the best value so far and its index. *)
Definition index_loop (better : Z → Z → bool) (f : Z → Z) (start : Z) (vector : list Z) : Z :=
  let '(_, _, index) :=
    foldl (λ '(i, best, index) v, if better (f v) best then (i + 1, f v, i) else (i + 1, best, index))
      (0, start, 0) vector in
  index.

Definition MaxAbsIndexW16 : list Z → Z := index_loop (λ v best, best <? v) Z.abs 0.
Definition MaxIndexW16 : list Z → Z := index_loop (λ v best, best <? v) id (-32768).
Definition MaxIndexW32 : list Z → Z := index_loop (λ v best, best <? v) id INT32_MIN.
Definition MinIndexW16 : list Z → Z := index_loop (λ v best, v <? best) id 32767.
Definition MinIndexW32 : list Z → Z := index_loop (λ v best, v <? best) id INT32_MAX.

(** ** vector_scaling_operations.c *)

Definition VectorBitShiftW16 (inp : list Z) (right_shifts : Z) : list Z :=
  if 0 <? right_shifts then (λ x, s16 (Z.shiftr x right_shifts)) <$> inp
  else (λ x, s16 (s32 (x * s32 (Z.shiftl 1 (- right_shifts))))) <$> inp.

Definition VectorBitShiftW32 (inp : list Z) (right_shifts : Z) : list Z :=
  if 0 <? right_shifts then (λ x, Z.shiftr x right_shifts) <$> inp
  else (λ x, s32 (Z.shiftl x (- right_shifts))) <$> inp.

Definition VectorBitShiftW32ToW16 (inp : list Z) (right_shifts : Z) : list Z :=
  if 0 <=? right_shifts then (λ x, SatW32ToW16 (Z.shiftr x right_shifts)) <$> inp
  else (λ x, SatW32ToW16 (s32 (Z.shiftl x (- right_shifts)))) <$> inp.

Definition ScaleVector (inp : list Z) (gain right_shifts : Z) : list Z :=
  (λ x, s16 (Z.shiftr (s32 (x * gain)) right_shifts)) <$> inp.

Definition ScaleVectorWithSat (inp : list Z) (gain right_shifts : Z) : list Z :=
  (λ x, SatW32ToW16 (Z.shiftr (s32 (x * gain)) right_shifts)) <$> inp.

Definition ScaleAndAddVectors (in1 : list Z) (gain1 shift1 : Z) (in2 : list Z) (gain2 shift2 : Z) : list Z :=
  zip_with (λ x y, s16 (s16 (Z.shiftr (s32 (gain1 * x)) shift1) + s16 (Z.shiftr (s32 (gain2 * y)) shift2)))
    in1 in2.

(** [inl] is the error -1 (an empty vector or a negative shift; the pointers
    are not null), [inr] the output vector. *)
Definition ScaleAndAddVectorsWithRoundC (in1 : list Z) (scale1 : Z) (in2 : list Z) (scale2 right_shifts : Z) :
    Z + list Z :=
  let round_value := Z.shiftr (s32 (Z.shiftl 1 right_shifts)) 1 in
  if (zlen in1 =? 0) || (right_shifts <? 0) then inl (-1)
  else inr (zip_with (λ x y, s16 (Z.shiftr (s32 (s32 (s32 (x * scale1) + s32 (y * scale2)) + round_value))
                                     right_shifts)) in1 in2).

(** ** copy_set_operations.c *)

Definition MemSet (array : list Z) (set_value : Z) (length : nat) : list Z :=
  overwrite array 0 (replicate length set_value).

(** [dest] points at position [p] of the array and moves down. *)
Fixpoint MemCpyReversedOrder (array : list Z) (p : Z) (source : list Z) : option (list Z) :=
  match source with
  | [] => Some array
  | x :: source' => array' ← zset array p x; MemCpyReversedOrder array' (p - 1) source'
  end.

Definition CopyFromEndW16 (vector_in : list Z) (samples : nat) (vector_out : list Z) : list Z :=
  overwrite vector_out 0 (slice vector_in (length vector_in - samples) samples).

(** ** get_scaling_square.c and energy.c *)

Definition GetScalingSquare (in_vector : list Z) (times : Z) : Z :=
  let nbits := GetSizeInBits (u32 times) in
  let smax :=
    foldl (λ smax x, let sabs := if 0 <? x then x else s16 (- x) in if smax <? sabs then sabs else smax)
      (-1) in_vector in
  let t := NormW32 (s32 (smax * smax)) in
  if smax =? 0 then 0 else if nbits <? t then 0 else s16 (nbits - t).

Definition Energy (vector : list Z) : Z * Z :=
  let scaling := GetScalingSquare vector (zlen vector) in
  let en := foldl (λ en x, s32 (en + Z.shiftr (s32 (x * x)) scaling)) 0 vector in
  (en, scaling).

(** ** auto_correlation.c *)

Definition corr_scaling (in_vector : list Z) : Z :=
  let smax := MaxAbsValueW16C in_vector in
  if smax =? 0 then 0
  else
    let nbits := GetSizeInBits (u32 (zlen in_vector)) in
    let t := NormW32 (s32 (smax * smax)) in
    if nbits <? t then 0 else nbits - t.

(** [sum += (in_vector[j] * in_vector[i + j]) >> scaling] *)
Definition corr_term (v : list Z) (scaling i j sum : Z) : option Z :=
  x ← znth v j; y ← znth v (i + j); Some (s32 (sum + Z.shiftr (s32 (x * y)) scaling)).

(** The loop unrolled by four, then the rest one by one; [fuel] bounds the
    number of rounds and [None] with fuel left is a read outside the vector. *)
Fixpoint corr_rest (fuel : nat) (v : list Z) (scaling i j sum : Z) : option Z :=
  match fuel with
  | O => None
  | S fuel' =>
      if j <? zlen v - i then sum ← corr_term v scaling i j sum; corr_rest fuel' v scaling i (j + 1) sum
      else Some sum
  end.
Fixpoint corr_unrolled (fuel : nat) (v : list Z) (scaling i j sum : Z) : option (Z * Z) :=
  match fuel with
  | O => None
  | S fuel' =>
      if i + j + 3 <? zlen v then
        sum ← corr_term v scaling i j sum;
        sum ← corr_term v scaling i (j + 1) sum;
        sum ← corr_term v scaling i (j + 2) sum;
        sum ← corr_term v scaling i (j + 3) sum;
        corr_unrolled fuel' v scaling i (j + 4) sum
      else Some (j, sum)
  end.
Definition corr_at (v : list Z) (scaling i : Z) : option Z :=
  '(j, sum) ← corr_unrolled (S (length v)) v scaling i 0 0;
  corr_rest (S (length v)) v scaling i j sum.

(** The correlations for the lags [0..order] and the scaling. *)
Definition AutoCorrelation (v : list Z) (order : nat) : option (list Z * Z) :=
  let scaling := corr_scaling v in
  result ← mapM (λ i, corr_at v scaling (Z.of_nat i)) (seq 0 (order + 1));
  Some (result, scaling).

(** ** cross_correlation.c *)

(** [seq2] is read from position [p] on, which advances by [step_seq2]. *)
Definition CrossCorrelationC (seq1 seq2 : list Z) (p : Z) (dim_cross_correlation : nat)
    (right_shifts step_seq2 : Z) : option (list Z) :=
  mapM (λ i : nat,
    foldl (λ acc j, corr ← acc; x ← znth seq1 (Z.of_nat j);
                    y ← znth seq2 (p + Z.of_nat i * step_seq2 + Z.of_nat j);
                    Some (s32 (corr + Z.shiftr (s32 (x * y)) right_shifts)))
      (Some 0) (seq 0 (length seq1)))
  (seq 0 dim_cross_correlation).

(** ** downsample_fast.c *)

(** [data_in] with [history] samples before it, oldest first. *)
Definition fir (round : Z) (history data_in coefficients : list Z) (i : Z) : option Z :=
  foldl (λ acc j, o ← acc; c ← znth coefficients (Z.of_nat j);
                  x ← znth (history ++ data_in) (zlen history + i - Z.of_nat j);
                  Some (s32 (o + s32 (c * x))))
    (Some round) (seq 0 (length coefficients)).

(** [inl]: the error -1. *)
Definition DownsampleFastC (history data_in : list Z) (data_out_length : Z) (coefficients : list Z)
    (factor delay : Z) : Z + option (list Z) :=
  let endpos := u64 (delay + factor * (data_out_length - 1) + 1) in
  if (data_out_length =? 0) || (zlen coefficients =? 0) || (zlen data_in <? endpos) then inl (-1)
  else inr (mapM (λ n : nat, out ← fir 2048 history data_in coefficients (delay + factor * Z.of_nat n);
                             Some (SatW32ToW16 (Z.shiftr out 12)))
              (seq 0 (Z.to_nat data_out_length))).

(** ** filter_ma_fast_q12.c and filter_ar_fast_q12.c *)

(** [WEBRTC_SPL_SAT(a, b, c)] *)
Definition SAT (a b c : Z) : Z := if a <? b then a else if b <? c then c else b.

Definition FilterMAFastQ12 (history inp B : list Z) : option (list Z) :=
  mapM (λ i : nat, o ← fir 0 history inp B (Z.of_nat i);
                   Some (s16 (Z.shiftr (s32 (SAT 134215679 o (-134217728) + 2048)) 12)))
    (seq 0 (length inp)).

(** [data_out] holds the filter's state before position 0. *)
Fixpoint FilterARFastQ12 (out_so_far inp coefficients : list Z) : option (list Z) :=
  match inp with
  | [] => Some out_so_far
  | x :: inp' =>
      sum ← foldr (λ j acc, sum ← acc; c ← znth coefficients (Z.of_nat j);
                            y ← znth out_so_far (zlen out_so_far - Z.of_nat j);
                            Some (s64 (sum + c * y)))
              (Some 0) (seq 1 (length coefficients - 1));
      c0 ← znth coefficients 0;
      let output := s64 (c0 * x - sum) in
      let output := SAT 134215679 output (-134217728) in
      FilterARFastQ12 (out_so_far ++ [s16 (Z.shiftr (output + 2048) 12)]) inp' coefficients
  end.

(** ** filter_ar.c *)

(** The feedback terms of sample [i]: the coefficient [a[j]] with the earlier
    output, or with the saved state. *)
Definition ar_term (a filtered state : list Z) (i j : Z) : option Z :=
  c ← znth a j;
  y ← (if j <=? i then znth filtered (i - j) else znth state (zlen state - (j - i)));
  Some (c * y).

Definition ar_step (a state state_low : list Z) (acc : option (list Z * list Z)) (x : Z) :
    option (list Z * list Z) :=
  '(filtered, filtered_low) ← acc;
  let i := zlen filtered in
  '(o, oLOW) ← foldl (λ acc j, '(o, oLOW) ← acc;
                        t ← ar_term a filtered state i (Z.of_nat j);
                        t_low ← ar_term a filtered_low state_low i (Z.of_nat j);
                        Some (s64 (o - t), s32 (oLOW - t_low)))
                 (Some (s32 (x * 4096), 0)) (seq 1 (length a - 1));
  let o := s64 (o + Z.shiftr oLOW 12) in
  let f := s16 (Z.shiftr (s64 (o + 2048)) 12) in
  Some ((filtered ++ [f])%list, (filtered_low ++ [s16 (o - s32 (f * 4096))])%list).

Record ar_result := { ar_filtered : list Z; ar_filtered_low : list Z; ar_state : list Z; ar_state_low : list Z }.

(** The state loops for a block shorter than the state. *)
Definition shift_state (state : list Z) (x_length : nat) : list Z :=
  overwrite state 0 (slice state x_length (length state - x_length)).

Definition FilterAR (a x state state_low : list Z) : option ar_result :=
  '(filtered, filtered_low) ← foldl (ar_step a state state_low) (Some ([], [])) x;
  let n := (length a - 1)%nat in
  let state_length := length state in
  if (state_length <=? length x)%nat then
    Some {| ar_filtered := filtered; ar_filtered_low := filtered_low;
            ar_state := CopyFromEndW16 filtered n state;
            ar_state_low := CopyFromEndW16 filtered_low n state_low |}
  else
    let state := shift_state state (length x) in
    let state_low := shift_state state_low (length x) in
    let state := overwrite state (state_length - length x) filtered in
    let state := overwrite state (state_length - length x) filtered_low in
    Some {| ar_filtered := filtered; ar_filtered_low := filtered_low;
            ar_state := state; ar_state_low := state_low |}.
End Vec.

(* ================================================================== *)
Section extrema.
Import Spl Vec.

(** ** Minima and maxima *)

(** [m] is the largest element of [l]. *)
Definition is_max (l : list Z) (m : Z) : Prop := m ∈ l ∧ Forall (λ x, x ≤ m) l.
Definition is_min (l : list Z) (m : Z) : Prop := m ∈ l ∧ Forall (λ x, m ≤ x) l.
(** [i] is the first position of the largest [f]-value of [l]. *)
Definition is_first_max (f : Z → Z) (l : list Z) (i : Z) : Prop :=
  ∃ x, znth l i = Some x ∧ Forall (λ y, f y ≤ f x) l ∧ ∀ j y, j < i → znth l j = Some y → f y < f x.

Lemma max_loop_spec l s :
  s ≤ max_loop s l ∧ Forall (λ x, x ≤ max_loop s l) l ∧ (max_loop s l = s ∨ max_loop s l ∈ l).
Proof.
  unfold max_loop. revert s. induction l as [|x l IH]; intros s; cbn; [by auto with lia|].
  destruct (IH (if s <? x then x else s)) as (H1 & H2 & H3).
  destruct (Z.ltb_spec s x); (split; [lia|]); (split; [constructor; [lia|done]|]);
    destruct H3 as [->|]; rewrite ?elem_of_cons; auto.
Qed.

Lemma max_loop_max s l : l ≠ [] → Forall (λ x, s ≤ x) l → is_max l (max_loop s l).
Proof.
  intros Hne Hs. destruct (max_loop_spec l s) as (H1 & H2 & H3). split; [|done].
  destruct H3 as [E|]; [|done]. destruct l as [|x l]; [done|]. apply elem_of_cons. left.
  apply Forall_cons in Hs as [? _]. apply Forall_cons in H2 as [? _]. lia.
Qed.

Lemma min_loop_opp s l : min_loop s l = - max_loop (- s) (Z.opp <$> l).
Proof.
  unfold min_loop, max_loop. revert s. induction l as [|x l IH]; intros s; cbn; [lia|].
  rewrite IH. do 2 f_equal. destruct (Z.ltb_spec x s), (Z.ltb_spec (- s) (- x)); lia.
Qed.

Lemma min_loop_min s l : l ≠ [] → Forall (λ x, x ≤ s) l → is_min l (min_loop s l).
Proof.
  intros Hne Hs. rewrite min_loop_opp.
  destruct (max_loop_max (- s) (Z.opp <$> l)) as [Hin Hall].
  - by destruct l.
  - apply Forall_fmap. eapply Forall_impl; [exact Hs|]. intros x ?. cbn in *. lia.
  - apply list_elem_of_fmap in Hin as (x & Hx & Hin). rewrite Hx, Z.opp_involutive. split; [done|].
    apply Forall_forall. intros y Hy.
    pose proof (proj1 (Forall_forall _ _) Hall (- y) (list_elem_of_fmap_2 Z.opp _ _ Hy)). cbn in *. lia.
Qed.

Definition index_step (f : Z → Z) : Z * Z * Z → Z → Z * Z * Z :=
  λ '(i, best, index) v, if best <? f v then (i + 1, f v, i) else (i + 1, best, index).

(** The loop from a state that describes the elements [l1] already seen. *)
Lemma index_steps_spec f l2 l1 best index x :
  znth l1 index = Some x → f x = best → Forall (λ y, f y ≤ best) l1 →
  (∀ j y, j < index → znth l1 j = Some y → f y < best) →
  ∃ best' index', foldl (index_step f) (zlen l1, best, index) l2 = (zlen (l1 ++ l2), best', index') ∧
    is_first_max f (l1 ++ l2) index'.
Proof.
  revert l1 best index x. induction l2 as [|v l2 IH]; intros l1 best index x Hx Hb Hall Hfirst.
  { exists best, index. rewrite app_nil_r. split; [done|]. exists x. subst best. auto. }
  assert (Hz : ∀ j y, znth (l1 ++ [v]) j = Some y → znth l1 j = Some y ∨ j = zlen l1 ∧ y = v).
  { intros j y Hj. pose proof (znth_bound _ _ _ Hj) as Hb'. rewrite zlen_app in Hb'. unfold zlen in Hb' at 2. cbn in Hb'.
    unfold znth in *. destruct (decide (0 ≤ j)); [|done]. unfold zlen in *.
    destruct (decide (j < Z.of_nat (length l1))); [left; by rewrite lookup_app_l in Hj by lia|right].
    rewrite lookup_app_r in Hj by lia. replace (Z.to_nat j - length l1)%nat with 0%nat in Hj by lia.
    cbn in Hj. split; [lia|congruence]. }
  assert (Hz' : ∀ j y, znth l1 j = Some y → znth (l1 ++ [v]) j = Some y).
  { intros j y Hj. unfold znth in *. destruct (decide (0 ≤ j)); [|done]. by apply lookup_app_l_Some. }
  assert (Hv : znth (l1 ++ [v]) (zlen l1) = Some v).
  { unfold zlen. rewrite znth_of_nat, lookup_app_r, Nat.sub_diag by lia. done. }
  assert (Hlen : zlen l1 + 1 = zlen (l1 ++ [v])) by (rewrite zlen_app; done).
  cbn [foldl index_step]. replace (l1 ++ v :: l2)%list with ((l1 ++ [v]) ++ l2)%list by (by rewrite <- app_assoc).
  rewrite Hlen. destruct (Z.ltb_spec best (f v)) as [Hlt|Hge].
  - apply (IH _ _ _ v); [done|done| |].
    + apply Forall_app_2; [eapply Forall_impl; [exact Hall|]; cbn; intros; lia|by repeat constructor].
    + intros j y Hj [H|[-> ->]]%Hz; [|lia]. apply Forall_lookup_1 with (i := Z.to_nat j) (x := y) in Hall; [lia|].
      unfold znth in H. by destruct (decide (0 ≤ j)).
  - apply (IH _ _ _ x); [by apply Hz'|done| |].
    + apply Forall_app_2; [done|by repeat constructor].
    + intros j y Hj [H|[-> ->]]%Hz; [by eapply Hfirst|]. apply znth_bound in Hx. lia.
Qed.

Lemma index_loop_first_max f s l :
  l ≠ [] → Forall (λ x, s ≤ f x) l → is_first_max f l (index_loop (λ v best, best <? v) f s l).
Proof.
  intros Hne Hs. unfold index_loop.
  change (λ '(i, best, index) v, if best <? f v then (i + 1, f v, i) else (i + 1, best, index)) with (index_step f).
  destruct l as [|x l]; [done|]. apply Forall_cons in Hs as [Hx Hs]. cbn [foldl].
  assert (E : index_step f (0, s, 0) x = (1, f x, 0)).
  { cbn. destruct (Z.ltb_spec s (f x)); [done|]. by replace s with (f x) by lia. }
  rewrite E. edestruct (index_steps_spec f l [x] (f x) 0 x) as (b & i & Es & H); try done.
  3: { change (zlen [x]) with 1 in Es. by rewrite Es. }
  - by repeat constructor.
  - intros j y Hj H. apply znth_bound in H. lia.
Qed.

Lemma index_loop_opp s l :
  index_loop (λ v best, v <? best) id s l = index_loop (λ v best, best <? v) Z.opp (- s) l.
Proof.
  unfold index_loop. generalize 0 at 1 3 as i. generalize 0 as k. revert s.
  induction l as [|x l IH]; intros s k i; cbn; [done|]. unfold id.
  replace (- s <? - x) with (x <? s) by (destruct (Z.ltb_spec x s), (Z.ltb_spec (- s) (- x)); lia).
  destruct (x <? s); apply IH.
Qed.

Lemma abs_loop_max l : max_loop 0 (Z.abs <$> l) =
  foldl (λ maximum v, let absolute := Z.abs v in if maximum <? absolute then absolute else maximum) 0 l.
Proof. unfold max_loop. generalize 0. induction l; intros; cbn; auto. Qed.

Lemma MaxAbsValueW16C_spec v :
  v ≠ [] → Forall (λ x, is_s16 x) v → ∃ m, is_max (Z.abs <$> v) m ∧ MaxAbsValueW16C v = Z.min 32767 m.
Proof.
  intros Hne Hr. unfold MaxAbsValueW16C. rewrite <- abs_loop_max.
  assert (Hm : is_max (Z.abs <$> v) (max_loop 0 (Z.abs <$> v))).
  { apply max_loop_max; [by destruct v|]. apply Forall_fmap, Forall_true. intros; cbn; lia. }
  exists (max_loop 0 (Z.abs <$> v)). split; [done|].
  destruct Hm as [(x & -> & _)%list_elem_of_fmap _].
  destruct (Z.ltb_spec 32767 (Z.abs x)); rewrite s16_small; lia.
Qed.

Lemma MaxAbsValueW32C_spec v :
  v ≠ [] → Forall (λ x, is_s32 x) v → ∃ m, is_max (Z.abs <$> v) m ∧ MaxAbsValueW32C v = Z.min 2147483647 m.
Proof.
  intros Hne Hr. unfold MaxAbsValueW32C.
  assert (E : ∀ l s, Forall (λ x, is_s32 x) l →
    foldl (λ maximum v, let absolute := u32 (s32 (Z.abs v)) in
                        if maximum <? absolute then absolute else maximum) s l = max_loop s (Z.abs <$> l)).
  { intros l s Hl. unfold max_loop. revert s. induction Hl as [|x l Hx _ IH]; intros s; [done|]. csimpl.
    replace (u32 (s32 (Z.abs x))) with (Z.abs x); [apply IH|]. destruct (decide (Z.abs x = 2147483648)) as [->|]; [done|].
    rewrite s32_small, u32_small; lia. }
  rewrite E by done.
  assert (Hm : is_max (Z.abs <$> v) (max_loop 0 (Z.abs <$> v))).
  { apply max_loop_max; [by destruct v|]. apply Forall_fmap, Forall_true. intros; cbn; lia. }
  exists (max_loop 0 (Z.abs <$> v)). split; [done|].
  destruct Hm as [(x & -> & Hx)%list_elem_of_fmap _]. rewrite Forall_forall in Hr. specialize (Hr x Hx). cbn in Hr.
  destruct (Z.ltb_spec (Z.abs x) 2147483647); rewrite s32_small; lia.
Qed.

(** The extremum scans: on a non-empty vector of the element type the
    maximum and minimum functions return the largest and the smallest element,
    the maximum-magnitude functions the largest magnitude saturated to the
    type's maximum (so that |-32768| and |INT32_MIN| do not wrap), and the
    index functions the first position of the extremum. *)
Theorem vector_extrema (v : list Z) :
  v ≠ [] →
  (Forall (λ x, is_s16 x) v →
     is_max v (MaxValueW16C v) ∧ is_min v (MinValueW16C v) ∧
     is_first_max id v (MaxIndexW16 v) ∧ is_first_max Z.opp v (MinIndexW16 v) ∧
     is_first_max Z.abs v (MaxAbsIndexW16 v) ∧
     ∃ m, is_max (Z.abs <$> v) m ∧ MaxAbsValueW16C v = Z.min 32767 m) ∧
  (Forall (λ x, is_s32 x) v →
     is_max v (MaxValueW32C v) ∧ is_min v (MinValueW32C v) ∧
     is_first_max id v (MaxIndexW32 v) ∧ is_first_max Z.opp v (MinIndexW32 v) ∧
     ∃ m, is_max (Z.abs <$> v) m ∧ MaxAbsValueW32C v = Z.min 2147483647 m).
Proof.
  intros Hne. unfold MinIndexW16, MinIndexW32. rewrite !index_loop_opp.
  split; intros Hr; split_and!;
    (apply max_loop_max || apply min_loop_min || apply index_loop_first_max ||
     apply MaxAbsValueW16C_spec || apply MaxAbsValueW32C_spec); try done;
    (eapply Forall_impl; [exact Hr|]); intros x Hx; cbn in *; unfold id, INT32_MIN, INT32_MAX; lia.
Qed.
End extrema.

Section sums.
Import Spl Vec.

(** ** Scaled sums *)

(** A sum of [n] terms of magnitude at most [b] stays within [n b]. *)
Lemma zsum_take_bound (l : list Z) b j :
  Forall (λ t, - b ≤ t ≤ b) l → 0 ≤ b → Z.abs (zsum (take j l)) ≤ zlen l * b.
Proof.
  intros Hl Hb. revert j. induction Hl as [|t l Ht _ IH]; intros j; [by rewrite take_nil|].
  rewrite zlen_cons. pose proof (zlen_nonneg l). destruct j as [|j]; cbn [take]; [cbn; nia|].
  rewrite zsum_cons. specialize (IH j). lia.
Qed.

(** The scaling chosen for [n] products of magnitude at most [M] leaves terms
    that cannot overflow the sum. *)
Lemma scaling_bound n M sq t nbits scaling p :
  0 < sq < 2147483648 → t = NormW32 sq → nbits = GetSizeInBits n → 0 < n < 2147483648 →
  (M ≤ sq ∨ M * 2 ^ t ≤ 2147483648) → Z.abs p ≤ M →
  scaling = (if nbits <? t then 0 else nbits - t) →
  0 ≤ scaling ∧ Z.abs (Z.shiftr p scaling) ≤ 2 ^ (31 - nbits) ∧ n * 2 ^ (31 - nbits) < 2147483648.
Proof.
  intros Hsq -> -> Hn HM Hp ->. destruct (NormW32_pos sq Hsq) as [Ht Hsq'].
  destruct (GetSizeInBits_bound n ltac:(lia)) as [Hb Hnb]. set (nb := GetSizeInBits n) in *. set (t := NormW32 sq) in *.
  assert (Hnb31 : nb ≤ 31).
  { unfold nb, GetSizeInBits, CountLeadingZeros32. destruct (Z.eqb_spec n 0); [done|].
    assert (Z.log2 n < 31) by (apply Z.log2_lt_pow2; lia). pose proof (Z.log2_nonneg n). rewrite s16_small; lia. }
  assert (HMt : M * 2 ^ t ≤ 2147483648).
  { destruct HM as [HM|]; [|done]. assert (0 < 2 ^ t) by (apply Z.pow_pos_nonneg; lia). nia. }
  assert (Hpow : 2 ^ nb * 2 ^ (31 - nb) = 2147483648) by (rewrite <- Z.pow_add_r by lia; by replace (nb + (31 - nb)) with 31 by lia).
  assert (0 < 2 ^ (31 - nb)) by (apply Z.pow_pos_nonneg; lia).
  set (sc := if nb <? t then 0 else nb - t). assert (Hsc : 0 ≤ sc ∧ nb - t ≤ sc) by (unfold sc; destruct (Z.ltb_spec nb t); lia).
  split; [lia|]. split; [|nia].
  assert (Hshift : M ≤ 2 ^ (31 - nb) * 2 ^ sc).
  { rewrite <- Z.pow_add_r by lia.
    assert (HM31 : M ≤ 2 ^ (31 - t)).
    { assert (2 ^ (31 - t) * 2 ^ t = 2147483648)
        by (rewrite <- Z.pow_add_r by lia; by replace (31 - t + t) with 31 by lia).
      assert (0 < 2 ^ t) by (apply Z.pow_pos_nonneg; lia). nia. }
    etrans; [exact HM31|]. apply Z.pow_le_mono_r; lia. }
  rewrite Z.shiftr_div_pow2 by lia. assert (0 < 2 ^ sc) by (apply Z.pow_pos_nonneg; lia).
  apply Z.abs_le. split; [apply Z.div_le_lower_bound; nia|apply Z.div_le_upper_bound; nia].
Qed.

(** The wrapping sum of bounded terms is their exact sum. *)
Lemma wrapping_sum_exact (l : list Z) b :
  Forall (λ t, - b ≤ t ≤ b) l → 0 ≤ b → zlen l * b < 2147483648 →
  ∀ s, Z.abs s + zlen l * b < 2147483648 → foldl (λ s t, s32 (s + t)) s l = s + zsum l.
Proof.
  induction 1 as [|t l Ht _ IH]; intros Hb Hlt s Hs; cbn [foldl]; [cbn; lia|].
  rewrite zlen_cons in *. pose proof (zlen_nonneg l). rewrite Z.mul_add_distr_r in *.
  assert (0 ≤ zlen l * b) by nia. rewrite s32_small by lia. rewrite IH by lia. rewrite zsum_cons. lia.
Qed.

Lemma foldl_map_terms (f : Z → Z) (l : list Z) s :
  foldl (λ s x, s32 (s + f x)) s l = foldl (λ s t, s32 (s + t)) s (f <$> l).
Proof. revert s. induction l; intros; cbn; auto. Qed.

Lemma square_scan_max l :
  Forall (λ x, -32768 < x < 32768) l → ∀ s,
  foldl (λ smax x, let sabs := if 0 <? x then x else s16 (- x) in if smax <? sabs then sabs else smax) s l
  = max_loop s (Z.abs <$> l).
Proof.
  unfold max_loop. induction 1 as [|x l Hx _ IH]; intros s; [done|]. csimpl.
  replace (if 0 <? x then x else s16 (- x)) with (Z.abs x); [apply IH|].
  destruct (Z.ltb_spec 0 x); rewrite ?s16_small; lia.
Qed.

Lemma squares_fit v sc s :
  Forall (λ x, -32768 < x < 32768) v →
  foldl (λ en x, s32 (en + Z.shiftr (s32 (x * x)) sc)) s v = foldl (λ en x, s32 (en + Z.shiftr (x * x) sc)) s v.
Proof.
  intros Hr. revert s. induction Hr as [|x v Hx _ IH]; intros s; cbn; [done|].
  rewrite (s32_small (x * x)) by nia. apply IH.
Qed.

Lemma Energy_exact v :
  Forall (λ x, -32768 < x < 32768) v → zlen v < 2147483648 →
  (Energy v).1 = zsum ((λ x, Z.shiftr (x * x) (Energy v).2) <$> v) ∧ 0 ≤ (Energy v).1 < 2147483648.
Proof.
  intros Hr Hlen. destruct v as [|x0 v0] eqn:Ev; [by cbn|]. rewrite <- Ev in *.
  assert (Hpos : 0 < zlen v) by (subst v; rewrite zlen_cons; pose proof (zlen_nonneg v0); lia).
  unfold Energy, GetScalingSquare. rewrite square_scan_max by done. set (m := max_loop (-1) (Z.abs <$> v)).
  assert (Hm : is_max (Z.abs <$> v) m).
  { apply max_loop_max; [by rewrite Ev|]. apply Forall_fmap, Forall_true. intros; cbn; lia. }
  assert (Hm0 : 0 ≤ m < 32768).
  { destruct Hm as [(x & -> & Hx)%list_elem_of_fmap _]. rewrite Forall_forall in Hr. specialize (Hr x Hx). cbn in Hr. lia. }
  assert (Hx : Forall (λ x, Z.abs x ≤ m) v) by (apply (Forall_fmap Z.abs (λ y, y ≤ m) v), Hm).
  rewrite u32_small, (s32_small (m * m)) by nia.
  set (nb := GetSizeInBits (zlen v)). set (sc := if m =? 0 then 0 else _). cbn [fst snd].
  assert (Hterm : ∃ b, 0 ≤ b ∧ zlen v * b < 2147483648 ∧ 0 ≤ sc ∧ Forall (λ x, 0 ≤ Z.shiftr (x * x) sc ≤ b) v).
  { destruct (Z.eqb_spec m 0) as [E|E].
    - exists 0. split_and!; [lia|lia|done|]. eapply Forall_impl; [exact Hx|]. cbn. intros x ?.
      assert (x = 0) as -> by lia. by rewrite Z.mul_0_l, Z.shiftr_0_l.
    - destruct (NormW32_pos (m * m) ltac:(nia)) as [Ht _]. destruct (GetSizeInBits_bound (zlen v) ltac:(lia)) as [Hnb _].
      assert (Hsc : sc = if nb <? NormW32 (m * m) then 0 else nb - NormW32 (m * m)).
      { unfold sc, nb. destruct (_ <? _); [done|]. rewrite s16_small; lia. }
      assert (Hb := λ p Hp, scaling_bound (zlen v) (m * m) (m * m) _ nb sc p ltac:(nia) eq_refl eq_refl
                      ltac:(lia) ltac:(left; lia) Hp Hsc).
      destruct (Hb 0 ltac:(lia)) as (Hsc0 & _ & Hn).
      exists (2 ^ (31 - nb)). split_and!; [apply Z.pow_nonneg; lia|done|done|].
      eapply Forall_impl; [exact Hx|]. cbn. intros x Hxm. destruct (Hb (x * x) ltac:(nia)) as (_ & Habs & _).
      split; [apply Z.shiftr_nonneg; nia|lia]. }
  destruct Hterm as (b & Hb & Hnb & Hsc & Hall).
  assert (Hfold : foldl (λ en x, s32 (en + Z.shiftr (s32 (x * x)) sc)) 0 v
                  = zsum ((λ x, Z.shiftr (x * x) sc) <$> v)).
  { transitivity (foldl (λ en x, s32 (en + Z.shiftr (x * x) sc)) 0 v).
    - by apply squares_fit.
    - rewrite (foldl_map_terms (λ x, Z.shiftr (x * x) sc)). rewrite (wrapping_sum_exact _ b); [lia| |done| |];
        rewrite ?zlen_fmap; try (cbn; lia). apply Forall_fmap. eapply Forall_impl; [exact Hall|]. cbn. intros; lia. }
  rewrite Hfold. split; [done|]. split.
  - apply zsum_nonneg, Forall_fmap. eapply Forall_impl; [exact Hall|]. cbn. intros; lia.
  - eapply Z.le_lt_trans; [apply (zsum_le _ b)|by rewrite zlen_fmap].
    apply Forall_fmap. eapply Forall_impl; [exact Hall|]. cbn. intros; lia.
Qed.

(** [WebRtcSpl_Energy]: for a vector without the sample -32768 the
    scaling computed by [WebRtcSpl_GetScalingSquare] keeps the sum within 32
    bits, so the result is exactly the sum of the scaled squares and is not
    negative; the magnitude scan negates -32768 in 16 bits, which leaves it
    negative and unseen, and two such samples overflow the sum to a negative
    energy. *)
Theorem energy_is_exact (v : list Z) :
  (Forall (λ x, -32768 < x < 32768) v → zlen v < 2147483648 →
   (Energy v).1 = zsum ((λ x, Z.shiftr (x * x) (Energy v).2) <$> v) ∧ 0 ≤ (Energy v).1 < 2147483648) ∧
  Energy [-32768; -32768] = (INT32_MIN, 0).
Proof. split; [apply Energy_exact|vm_compute; reflexivity]. Qed.

(** *** Autocorrelation *)

(** The terms of lag [i] and their sum. *)
Definition corr_terms (v : list Z) (scaling : Z) (i : nat) : list Z :=
  zip_with (λ x y, Z.shiftr (x * y) scaling) v (drop i v).

Lemma zsum_take_S (l : list Z) j t : l !! j = Some t → zsum (take (S j) l) = zsum (take j l) + t.
Proof. intros H. rewrite (take_S_r _ _ _ H), zsum_app. cbn. lia. Qed.

Section lag.
Context (v : list Z) (scaling b : Z) (i : nat).
Hypothesis Hv : Forall (λ x, is_s16 x) v.
Hypothesis Hb : 0 ≤ b.
Hypothesis Hfit : zlen v * b < 2147483648.
Hypothesis Hterms : Forall (λ t, - b ≤ t ≤ b) (corr_terms v scaling i).
Hypothesis Hi : (i ≤ length v)%nat.
Let n := (length v - i)%nat.
Let S_ (j : nat) : Z := zsum (take j (corr_terms v scaling i)).

Lemma length_corr_terms : length (corr_terms v scaling i) = n.
Proof. unfold corr_terms, n. rewrite length_zip_with, length_drop. lia. Qed.

Lemma partial_sum_fits j : is_s32 (S_ j).
Proof.
  unfold S_. pose proof (zsum_take_bound _ b j Hterms Hb) as H. pose proof length_corr_terms as Hl.
  assert (zlen (corr_terms v scaling i) * b ≤ zlen v * b) by (unfold zlen in *; unfold n in Hl; nia). lia.
Qed.

Lemma corr_term_step j :
  (j < n)%nat → corr_term v scaling (Z.of_nat i) (Z.of_nat j) (S_ j) = Some (S_ (S j)).
Proof.
  intros Hj. unfold n in Hj. unfold corr_term.
  destruct (lookup_lt_is_Some_2 v j) as [x Hx]; [lia|]. destruct (lookup_lt_is_Some_2 v (i + j)) as [y Hy]; [lia|].
  rewrite <- Nat2Z.inj_add, !znth_of_nat, Hx, Hy. cbn [mbind option_bind]. f_equal.
  assert (Ht : corr_terms v scaling i !! j = Some (Z.shiftr (x * y) scaling)).
  { unfold corr_terms. rewrite lookup_zip_with, Hx, lookup_drop, Hy. done. }
  pose proof (partial_sum_fits (S j)) as Hf. unfold S_ in *. rewrite (zsum_take_S _ _ _ Ht) in *.
  rewrite (s32_small (x * y)); [by apply s32_small|].
  rewrite Forall_lookup in Hv. pose proof (Hv _ _ Hx). pose proof (Hv _ _ Hy). nia.
Qed.

Lemma corr_rest_sum fuel j :
  (j ≤ n)%nat → (n - j < fuel)%nat → corr_rest fuel v scaling (Z.of_nat i) (Z.of_nat j) (S_ j) = Some (S_ n).
Proof.
  revert j. induction fuel as [|fuel IH]; intros j Hj Hf; [lia|]. cbn [corr_rest].
  assert (Hz : zlen v - Z.of_nat i = Z.of_nat n) by (unfold zlen, n; lia). rewrite Hz.
  destruct (Z.ltb_spec (Z.of_nat j) (Z.of_nat n)).
  - rewrite corr_term_step by lia. cbn [mbind option_bind].
    replace (Z.of_nat j + 1) with (Z.of_nat (S j)) by lia. apply IH; lia.
  - by replace j with n by lia.
Qed.

Lemma corr_unrolled_sum fuel j :
  (j ≤ n)%nat → (n - j < fuel)%nat →
  ∃ j', corr_unrolled fuel v scaling (Z.of_nat i) (Z.of_nat j) (S_ j) = Some (Z.of_nat j', S_ j') ∧ (j' ≤ n)%nat.
Proof.
  revert j. induction fuel as [|fuel IH]; intros j Hj Hf; [lia|]. cbn [corr_unrolled].
  destruct (Z.ltb_spec (Z.of_nat i + Z.of_nat j + 3) (zlen v)) as [Hlt|]; [|by exists j].
  unfold zlen in Hlt. assert (Hj4 : (j + 4 ≤ n)%nat) by (unfold n; lia).
  replace (Z.of_nat j + 1) with (Z.of_nat (S j)) by lia. replace (Z.of_nat j + 2) with (Z.of_nat (S (S j))) by lia.
  replace (Z.of_nat j + 3) with (Z.of_nat (S (S (S j)))) by lia.
  replace (Z.of_nat j + 4) with (Z.of_nat (S (S (S (S j))))) by lia.
  do 4 (rewrite corr_term_step by lia; cbn [mbind option_bind]). apply IH; lia.
Qed.

Lemma corr_at_sum : corr_at v scaling (Z.of_nat i) = Some (zsum (corr_terms v scaling i)).
Proof.
  unfold corr_at. pose proof length_corr_terms as Hl.
  destruct (corr_unrolled_sum (S (length v)) 0) as (j' & E & Hj'); [lia|unfold n; lia|].
  change (corr_unrolled _ _ _ _ 0 0) with (corr_unrolled (S (length v)) v scaling (Z.of_nat i) (Z.of_nat 0) (S_ 0)).
  rewrite E. cbn [mbind option_bind]. rewrite corr_rest_sum by (try unfold n; lia).
  unfold S_. by rewrite take_ge by lia.
Qed.
End lag.

Lemma corr_terms_bound v b sc i m :
  Forall (λ x, Z.abs x ≤ m) v → (∀ p, Z.abs p ≤ m * m → Z.abs (Z.shiftr p sc) ≤ b) →
  Forall (λ t, - b ≤ t ≤ b) (corr_terms v sc i).
Proof.
  intros Hm Hb. apply Forall_lookup. intros j t Ht. unfold corr_terms in Ht.
  rewrite lookup_zip_with, lookup_drop in Ht.
  destruct (v !! j) as [x|] eqn:Ex; [|done]. destruct (v !! (i + j)%nat) as [y|] eqn:Ey; [|done].
  simplify_eq/=. rewrite Forall_lookup in Hm. pose proof (Hm _ _ Ex). pose proof (Hm _ _ Ey). cbn in *.
  apply Z.abs_le, Hb. rewrite Z.abs_mul. nia.
Qed.

Lemma corr_scaling_fits v i :
  v ≠ [] → Forall (λ x, is_s16 x) v → zlen v < 2147483648 →
  ∃ b, 0 ≤ b ∧ zlen v * b < 2147483648 ∧ Forall (λ t, - b ≤ t ≤ b) (corr_terms v (corr_scaling v) i).
Proof.
  intros Hne Hv Hlen. assert (Hpos : 0 < zlen v) by (destruct v; [done|rewrite zlen_cons; pose proof (zlen_nonneg v); lia]).
  destruct (MaxAbsValueW16C_spec v Hne Hv) as (m & [Hin Hall] & Es). unfold corr_scaling. rewrite Es.
  apply list_elem_of_fmap in Hin as (x & Hmx & Hx). rewrite Forall_forall in Hv. specialize (Hv x Hx). cbn in Hv.
  assert (Habs : Forall (λ x, Z.abs x ≤ m) v) by (apply (Forall_fmap Z.abs (λ y, y ≤ m) v), Hall).
  destruct (Z.eqb_spec (Z.min 32767 m) 0).
  - exists 0. split_and!; [lia|lia|]. apply (corr_terms_bound v 0 0 i m Habs). intros p Hp.
    assert (p = 0) as -> by nia. done.
  - set (sq := Z.min 32767 m * Z.min 32767 m). rewrite u32_small, (s32_small sq) by (unfold sq; nia).
    assert (HM : m * m ≤ sq ∨ m * m * 2 ^ NormW32 sq ≤ 2147483648).
    { destruct (decide (m = 32768)) as [->|]; [right; vm_compute; discriminate|left; unfold sq; nia]. }
    assert (Hb := λ p Hp, scaling_bound (zlen v) (m * m) sq _ _ _ p ltac:(unfold sq; nia) eq_refl eq_refl
                    ltac:(lia) HM Hp eq_refl).
    destruct (Hb 0 ltac:(nia)) as (_ & _ & Hn).
    exists (2 ^ (31 - GetSizeInBits (zlen v))). split_and!; [apply Z.pow_nonneg; lia|done|].
    apply (corr_terms_bound v _ _ i m Habs). intros p Hp. apply (Hb p Hp).
Qed.

(** [WebRtcSpl_AutoCorrelation]: for every vector of 16-bit samples and
    every order up to its length, the unrolled loops read inside the vector,
    terminate, and return for each lag exactly the sum of the scaled products;
    the scaling keeps every sum, and every partial sum, within 32 bits, also
    for samples of -32768. *)
Theorem autocorrelation_is_exact (v : list Z) (order : nat) :
  v ≠ [] → Forall (λ x, is_s16 x) v → zlen v < 2147483648 → (order ≤ length v)%nat →
  AutoCorrelation v order =
    Some ((λ i, zsum (corr_terms v (corr_scaling v) i)) <$> seq 0 (order + 1), corr_scaling v).
Proof.
  intros Hne Hv Hlen Ho. unfold AutoCorrelation.
  assert (E : mapM (λ i, corr_at v (corr_scaling v) (Z.of_nat i)) (seq 0 (order + 1))
              = Some ((λ i, zsum (corr_terms v (corr_scaling v) i)) <$> seq 0 (order + 1))); [|by rewrite E].
  apply mapM_Some. apply Forall2_fmap_r, Forall_Forall2_diag, Forall_forall. intros i Hi%elem_of_seq.
  destruct (corr_scaling_fits v i Hne Hv Hlen) as (b & ? & ? & ?). by apply (corr_at_sum v _ b); [..|lia].
Qed.
End sums.

Section filter_ar.
Import Vec.

Lemma ar_step_None a state state_low x : foldl (ar_step a state state_low) None x = None.
Proof. induction x; cbn; auto. Qed.

Lemma ar_steps_length a state state_low x f0 l0 f l :
  foldl (ar_step a state state_low) (Some (f0, l0)) x = Some (f, l) → length f0 = length l0 →
  length f = (length f0 + length x)%nat ∧ length l = length f.
Proof.
  revert f0 l0. induction x as [|y x IH]; intros f0 l0 H Hl; cbn in H; [simplify_eq; cbn; lia|].
  match type of H with foldl _ ?o _ = _ => destruct o as [[f1 l1]|] eqn:E end; [|by rewrite ar_step_None in H].
  match type of E with context [foldl ?g ?s ?js] => destruct (foldl g s js) as [[o oLOW]|] end; cbn in E; simplify_eq.
  apply IH in H; rewrite ?length_app in *; cbn in *; lia.
Qed.

(** [WebRtcSpl_FilterAR] on a block shorter than the filter state: the
    newest part of the state is the low-order part of the outputs, not the
    outputs, and the newest part of the low-order state is what it was before
    the block: the second assignment of the last loop stores to [state]
    instead of [state_low]. *)
Theorem FilterAR_short_block (a x state state_low : list Z) (r : ar_result) :
  FilterAR a x state state_low = Some r → (length x < length state)%nat → length state_low = length state →
  (let p := (length state - length x)%nat in
   slice (ar_state r) p (length x) = ar_filtered_low r ∧
   slice (ar_state_low r) p (length x) = slice state_low p (length x)).
Proof.
  intros H Hx Hlow p. unfold FilterAR in H.
  destruct (foldl _ _ x) as [[f l]|] eqn:E; [|done]. cbn [mbind option_bind] in H.
  destruct (ar_steps_length _ _ _ _ _ _ _ _ E eq_refl) as [Hf Hl]. cbn in Hf.
  destruct (Nat.leb_spec (length state) (length x)); [lia|]. simplify_eq. cbn. unfold shift_state.
  assert (Hs : ∀ s : list Z, length s = length state →
            (0 + length (slice s (length x) (length s - length x)) ≤ length s)%nat)
    by (intros s Es; rewrite length_slice; lia).
  split.
  - apply slice_overwrite_same; [|lia].
    rewrite (length_overwrite _ (length state - length x)); rewrite length_overwrite by (by apply Hs); lia.
  - apply slice_overwrite_disjoint; [by apply Hs|]. rewrite length_slice by lia. lia.
Qed.
End filter_ar.

(** ** Witnesses *)

Lemma FilterAR_short_block_witness :
  let r := Vec.Build_ar_result [87] [-1460] [20; 30; -1460] [2; 3; 3] in
  slice (Vec.ar_state r) 2 1 = [-1460] ∧ slice (Vec.ar_state_low r) 2 1 = [3].
Proof.
  intros r. assert (H : Vec.FilterAR [4096; -2000; 1000; 50] [77] [10; 20; 30] [1; 2; 3] = Some r) by (vm_compute; reflexivity).
  assert (Hx : (length [77%Z] < length [10%Z; 20%Z; 30%Z])%nat) by (cbn; lia).
  exact (FilterAR_short_block _ _ _ _ r H Hx eq_refl).
Defined.

Lemma vector_extrema_witness : Vec.MaxAbsIndexW16 [3; -32768; 5] = 1 ∧ is_min [3; -32768; 5] (Vec.MinValueW16C [3; -32768; 5]).
Proof.
  split; [reflexivity|]. assert (Hne : [3; -32768; 5] ≠ []) by discriminate.
  assert (Hr : Forall (λ x, is_s16 x) [3; -32768; 5]) by (repeat constructor; lia).
  exact (proj1 (proj2 (proj1 (vector_extrema [3; -32768; 5] Hne) Hr))).
Defined.

Lemma energy_is_exact_witness : (Vec.Energy [30000; -30000; 20000]).1 = zsum [450000000; 450000000; 200000000].
Proof.
  assert (Hr : Forall (λ x, -32768 < x < 32768) [30000; -30000; 20000]) by (repeat constructor; lia).
  assert (Hl : zlen [30000; -30000; 20000] < 2147483648) by (vm_compute; reflexivity).
  exact (proj1 (proj1 (energy_is_exact [30000; -30000; 20000]) Hr Hl)).
Defined.

Lemma autocorrelation_is_exact_witness :
  Vec.AutoCorrelation [100; -200; 300; 50; 7] 2 = Some ([142549; -64650; 22100], 0).
Proof.
  assert (Hne : [100; -200; 300; 50; 7] ≠ []) by discriminate.
  assert (Hr : Forall (λ x, is_s16 x) [100; -200; 300; 50; 7]) by (repeat constructor; lia).
  assert (Hl : zlen [100; -200; 300; 50; 7] < 2147483648) by (vm_compute; reflexivity).
  assert (Ho : (2 ≤ length ([100; -200; 300; 50; 7]%Z))%nat) by (cbn; lia).
  exact (autocorrelation_is_exact _ 2 Hne Hr Hl Ho).
Defined.
