(* ===== verification/Resample.v ===== *)
(** * webrtc_dsp/common_audio/signal_processing: resamplers

    [resample_by_2_internal.c], [resample_by_2.c], [resample_fractional.c],
    [resample_48khz.c], [resample.c] and [splitting_filter1.c].

    The factor-two filters are cascades of three first-order all-pass sections
    in fixed point; four words of the state array hold one cascade ([ap]), so
    [state[8]] is two of them and [state[16]] four.  The fractional filters
    work in the caller's scratch buffer [tmpmem] and overlap their input with
    their output: they are modelled on that memory, in the order of the
    stores; [None] is an access outside it. *)

From Stdlib Require Import ZArith Lia.
From stdpp Require Import base tactics list numbers option.
From S2P Require Import Prelude Words Memory Spl.
From stdpp Require Import list.
Open Scope Z_scope.

Module Resample.
Import Spl.

(** ** resample_by_2_internal.c *)

Definition kResampleAllpass0 : Z * Z * Z := (821, 6110, 12382).
Definition kResampleAllpass1 : Z * Z * Z := (3050, 9368, 15063).

(** Four consecutive words of the state array. *)
Record ap := AP { st0 : Z; st1 : Z; st2 : Z; st3 : Z }.
Definition ap0 : ap := AP 0 0 0 0.

(** [diff >> 14], rounded towards zero by the adjustment of the source. *)
Definition scale_truncate (diff : Z) : Z :=
  let diff := Z.shiftr diff 14 in if diff <? 0 then diff + 1 else diff.

(** One input sample through a cascade; the output is the new [st3]. *)
Definition allpass (k : Z * Z * Z) (s : ap) (tmp0 : Z) : ap :=
  let '(k0, k1, k2) := k in
  let diff := s32 (tmp0 - st1 s) in
  let diff := Z.shiftr (s32 (diff + 8192)) 14 in
  let tmp1 := s32 (st0 s + s32 (diff * k0)) in
  let state0 := tmp0 in
  let diff := scale_truncate (s32 (tmp1 - st2 s)) in
  let tmp0 := s32 (st1 s + s32 (diff * k1)) in
  let state1 := tmp1 in
  let diff := scale_truncate (s32 (tmp0 - st3 s)) in
  let state3 := s32 (st2 s + s32 (diff * k2)) in
  AP state0 state1 tmp0 state3.

(** The loop over the samples: the outputs and the final state. *)
Fixpoint allpass_run (k : Z * Z * Z) (s : ap) (xs : list Z) : list Z * ap :=
  match xs with
  | [] => ([], s)
  | x :: xs' =>
      let s' := allpass k s x in
      let '(ys, s'') := allpass_run k s' xs' in (st3 s' :: ys, s'')
  end.

(** The samples at the even and at the odd positions of the pairs. *)
Fixpoint evens (l : list Z) : list Z :=
  match l with x :: _ :: l' => x :: evens l' | _ => [] end.
Fixpoint odds (l : list Z) : list Z :=
  match l with _ :: y :: l' => y :: odds l' | _ => [] end.
Fixpoint interleave (l1 l2 : list Z) : list Z :=
  match l1, l2 with x :: l1', y :: l2' => x :: y :: interleave l1' l2' | _, _ => [] end.

(** A 16-bit sample as the filters' 32-bit one. *)
Definition widen (x : Z) : Z := s32 (s32 (Z.shiftl x 15) + 16384).
Definition half (x : Z) : Z := Z.shiftr x 1.
(** The two saturating [if]s of the source. *)
Definition saturate (tmp : Z) : Z :=
  let tmp := if 32767 <? tmp then 32767 else tmp in
  let tmp := if tmp <? -32768 then -32768 else tmp in
  s16 tmp.

(** [state[0..3]] and [state[4..7]]. *)
Abbreviation state8 := (ap * ap)%type.

(** The combining loop takes two outputs at a time: with an odd number of
    them it would access the arrays outside their bounds. *)
Definition DownBy2IntToShort (inp : list Z) (s : state8) : option (list Z * state8) :=
  let '(lower, sl) := allpass_run kResampleAllpass1 s.1 (evens inp) in
  let '(upper, su) := allpass_run kResampleAllpass0 s.2 (odds inp) in
  if Nat.odd (Nat.div2 (length inp)) then None
  else Some (zip_with (λ a b, saturate (Z.shiftr (s32 (half a + half b)) 15)) lower upper, (sl, su)).

Definition DownBy2ShortToInt (inp : list Z) (s : state8) : list Z * state8 :=
  let '(lower, sl) := allpass_run kResampleAllpass1 s.1 (widen <$> evens inp) in
  let '(upper, su) := allpass_run kResampleAllpass0 s.2 (widen <$> odds inp) in
  (zip_with (λ a b, s32 (half a + half b)) lower upper, (sl, su)).

Definition UpBy2ShortToInt (inp : list Z) (s : state8) : list Z * state8 :=
  let '(upper, su) := allpass_run kResampleAllpass0 s.2 (widen <$> inp) in
  let '(lower, sl) := allpass_run kResampleAllpass1 s.1 (widen <$> inp) in
  (interleave ((λ y, Z.shiftr y 15) <$> upper) ((λ y, Z.shiftr y 15) <$> lower), (sl, su)).

Definition UpBy2IntToInt (inp : list Z) (s : state8) : list Z * state8 :=
  let '(upper, su) := allpass_run kResampleAllpass0 s.2 inp in
  let '(lower, sl) := allpass_run kResampleAllpass1 s.1 inp in
  (interleave upper lower, (sl, su)).

Definition UpBy2IntToShort (inp : list Z) (s : state8) : list Z * state8 :=
  let '(upper, su) := allpass_run kResampleAllpass0 s.2 inp in
  let '(lower, sl) := allpass_run kResampleAllpass1 s.1 inp in
  (interleave ((λ y, saturate (Z.shiftr y 15)) <$> upper) ((λ y, saturate (Z.shiftr y 15)) <$> lower), (sl, su)).

(** [state[0..3]], [state[4..7]], [state[8..11]], [state[12..15]]. *)
Abbreviation state16 := (ap * ap * (ap * ap))%type.

(** The low-pass filter on samples already widened; the lower cascade of the
    even outputs lags by one odd input, kept in [state[12]]. *)
Definition lp_by_2 (inp : list Z) (s : state16) : list Z * state16 :=
  let '(sa, sb, (sc, sd)) := s in
  let n := length (odds inp) in
  let '(a, sa) := allpass_run kResampleAllpass1 sa (take n (st0 sd :: odds inp)) in
  let '(b, sb) := allpass_run kResampleAllpass0 sb (evens inp) in
  let '(c, sc) := allpass_run kResampleAllpass1 sc (evens inp) in
  let '(d, sd) := allpass_run kResampleAllpass0 sd (odds inp) in
  let average := λ x y, Z.shiftr (s32 (half x + half y)) 15 in
  (interleave (zip_with average a b) (zip_with average c d), (sa, sb, (sc, sd))).

Definition LPBy2ShortToInt (inp : list Z) (s : state16) : list Z * state16 := lp_by_2 (widen <$> inp) s.
Definition LPBy2IntToInt (inp : list Z) (s : state16) : list Z * state16 := lp_by_2 inp s.

(** ** resample_by_2.c *)

(** [WEBRTC_SPL_SCALEDIFF32(A, B, C)], converted to [int32_t]. *)
Definition SCALEDIFF32 (A B C : Z) : Z :=
  s32 (u32 (s32 (C + s32 (Z.shiftr B 16 * A)) + Z.shiftr (u32 (Z.land B 65535 * A)) 16)).

(** One cascade of this file: [state0..state3] (or [state4..state7]). *)
Definition allpass16 (k : Z * Z * Z) (s : ap) (in32 : Z) : ap :=
  let '(k0, k1, k2) := k in
  let diff := s32 (in32 - st1 s) in
  let tmp1 := SCALEDIFF32 k0 diff (st0 s) in
  let diff := s32 (tmp1 - st2 s) in
  let tmp2 := SCALEDIFF32 k1 diff (st1 s) in
  let diff := s32 (tmp2 - st3 s) in
  AP in32 tmp1 tmp2 (SCALEDIFF32 k2 diff (st2 s)).
Definition kAllpass1 : Z * Z * Z := (3284, 24441, 49528).
Definition kAllpass2 : Z * Z * Z := (12199, 37471, 60255).

Fixpoint DownsampleBy2 (inp : list Z) (s : state8) : list Z * state8 :=
  match inp with
  | x :: y :: inp' =>
      let lower := allpass16 kAllpass2 s.1 (s32 (x * 1024)) in
      let upper := allpass16 kAllpass1 s.2 (s32 (y * 1024)) in
      let out32 := Z.shiftr (s32 (s32 (st3 lower + st3 upper) + 1024)) 11 in
      let '(out, s') := DownsampleBy2 inp' (lower, upper) in
      (SatW32ToW16 out32 :: out, s')
  | _ => ([], s)
  end.

Fixpoint UpsampleBy2 (inp : list Z) (s : state8) : list Z * state8 :=
  match inp with
  | x :: inp' =>
      let in32 := s32 (x * 1024) in
      let lower := allpass16 kAllpass1 s.1 in32 in
      let out1 := SatW32ToW16 (Z.shiftr (s32 (st3 lower + 512)) 10) in
      let upper := allpass16 kAllpass2 s.2 in32 in
      let out2 := SatW32ToW16 (Z.shiftr (s32 (st3 upper + 512)) 10) in
      let '(out, s') := UpsampleBy2 inp' (lower, upper) in
      (out1 :: out2 :: out, s')
  | [] => ([], s)
  end.

(** ** splitting_filter1.c *)

Definition kAllPassFilter1 : Z * Z * Z := (6418, 36982, 57261).
Definition kAllPassFilter2 : Z * Z * Z := (21333, 49062, 63010).

(** One all-pass section over a block, [x[-1]] and [y[-1]] the two state
    words; the state left for the next block. *)
Fixpoint qmf_section (a : Z) (x1 y1 : Z) (xs : list Z) : list Z * (Z * Z) :=
  match xs with
  | [] => ([], (x1, y1))
  | x :: xs' =>
      let diff := SubSatW32 x y1 in
      let y := SCALEDIFF32 a diff x1 in
      let '(ys, st) := qmf_section a x y xs' in (y :: ys, st)
  end.

(** [WebRtcSpl_AllPassQMF] for a non-empty block: the three sections one
    after the other; the six state words. *)
Definition AllPassQMF (inp : list Z) (k : Z * Z * Z) (fs : (Z * Z) * (Z * Z) * (Z * Z)) :
    list Z * ((Z * Z) * (Z * Z) * (Z * Z)) :=
  let '(k0, k1, k2) := k in let '(f0, f1, f2) := fs in
  let '(y1, f0) := qmf_section k0 f0.1 f0.2 inp in
  let '(y2, f1) := qmf_section k1 f1.1 f1.2 y1 in
  let '(y3, f2) := qmf_section k2 f2.1 f2.2 y2 in
  (y3, (f0, f1, f2)).

(** The low band, the high band and the two filter states. *)
Definition AnalysisQMF (inp : list Z) (fs1 fs2 : (Z * Z) * (Z * Z) * (Z * Z)) :=
  let half_in2 := (λ x, s32 (x * 1024)) <$> evens inp in
  let half_in1 := (λ x, s32 (x * 1024)) <$> odds inp in
  let '(filter1, fs1) := AllPassQMF half_in1 kAllPassFilter1 fs1 in
  let '(filter2, fs2) := AllPassQMF half_in2 kAllPassFilter2 fs2 in
  (zip_with (λ a b, SatW32ToW16 (Z.shiftr (s32 (s32 (a + b) + 1024)) 11)) filter1 filter2,
   zip_with (λ a b, SatW32ToW16 (Z.shiftr (s32 (s32 (a - b) + 1024)) 11)) filter1 filter2, fs1, fs2).

Definition SynthesisQMF (low_band high_band : list Z) (fs1 fs2 : (Z * Z) * (Z * Z) * (Z * Z)) :=
  let half_in1 := zip_with (λ l h, s32 ((l + h) * 1024)) low_band high_band in
  let half_in2 := zip_with (λ l h, s32 ((l - h) * 1024)) low_band high_band in
  let '(filter1, fs1) := AllPassQMF half_in1 kAllPassFilter2 fs1 in
  let '(filter2, fs2) := AllPassQMF half_in2 kAllPassFilter1 fs2 in
  (interleave ((λ y, SatW32ToW16 (Z.shiftr (s32 (y + 512)) 10)) <$> filter2)
              ((λ y, SatW32ToW16 (Z.shiftr (s32 (y + 512)) 10)) <$> filter1), fs1, fs2).

(** ** resample_fractional.c and the fractional filters of resample.c *)

#[local] Open Scope nat_scope.

Definition kCoefficients48To32 : list (list Z) :=
  [[778; -2050; 1087; 23285; 12903; -3783; 441; 222];
   [222; 441; -3783; 12903; 23285; 1087; -2050; 778]]%Z.
Definition kCoefficients32To24 : list (list Z) :=
  [[767; -2362; 2434; 24406; 10620; -3838; 721; 90];
   [386; -381; -2646; 19062; 19062; -2646; -381; 386];
   [90; 721; -3838; 10620; 24406; 2434; -2362; 767]]%Z.
Definition kCoefficients44To32_0 : list Z := [117; -669; 2245; -6183; 26267; 13529; -3245; 845; -138]%Z.
Definition kCoefficients44To32_1 : list Z := [-101; 612; -2283; 8532; 29790; -5138; 1789; -524; 91]%Z.
Definition kCoefficients44To32_2 : list Z := [50; -292; 1016; -3064; 32010; 3933; -1147; 315; -53]%Z.
Definition kCoefficients44To32_3 : list Z := [-156; 974; -3863; 18603; 21691; -6246; 2353; -712; 126]%Z.
Definition kCoefficients32To22 : list (list Z) :=
  [[127; -712;  2359; -6333; 23456; 16775; -3695;  945; -154];
   [-39;  230;  -830;  2785; 32366; -2324;   760; -218;   38];
   [117; -663;  2222; -6133; 26634; 13070; -3174;  831; -137];
   [-77;  457; -1677;  5958; 31175; -4136;  1405; -408;   71];
   [ 98; -560;  1900; -5406; 29240;  9423; -2480;  663; -110]]%Z.

(** A store to memory. *)
Definition wr (mem : list Z) (p : nat) (v : Z) : option (list Z) :=
  if decide (p < length mem) then Some (<[p := v]> mem) else None.

(** [tmp += coef[i] * mem[at i]], coefficient by coefficient. *)
Fixpoint dot (mem : list Z) (coefs : list Z) (at_ : nat → nat) (tmp : Z) : option Z :=
  match coefs with
  | [] => Some tmp
  | c :: coefs' => x ← mem !! at_ 0; dot mem coefs' (λ i, at_ (S i)) (s32 (tmp + s32 (c * x)))
  end.
Definition up (p : nat) : nat → nat := λ i, p + i.
Definition down (p : nat) : nat → nat := λ i, p - i.

(** A block of [WebRtcSpl_Resample48khzTo32khz] and [..32khzTo24khz]: output
    [j] is the filter [j] at input [j]. *)
Fixpoint resample_block (coefs : list (list Z)) (inp out : nat) (mem : list Z) : option (list Z) :=
  match coefs with
  | [] => Some mem
  | c :: coefs' => tmp ← dot mem c (up inp) 16384; mem ← wr mem out tmp; resample_block coefs' (S inp) (S out) mem
  end.

(** The loop over the [K] blocks with the pointer updates. *)
Fixpoint blocks (block : nat → nat → list Z → option (list Z)) (step_in step_out : nat) (K inp out : nat)
    (mem : list Z) : option (list Z) :=
  match K with
  | O => Some mem
  | S K' => mem ← block inp out mem; blocks block step_in step_out K' (inp + step_in) (out + step_out) mem
  end.

Definition Resample48khzTo32khz : nat → nat → nat → list Z → option (list Z) :=
  blocks (resample_block kCoefficients48To32) 3 2.
Definition Resample32khzTo24khz : nat → nat → nat → list Z → option (list Z) :=
  blocks (resample_block kCoefficients32To24) 4 3.

(** [WebRtcSpl_ResampDotProduct] and [WebRtcSpl_DotProdIntToInt]: the first
    output is stored before the last input of the second sum is read. *)
Definition DotProduct (in1 in2 : nat) (coefs : list Z) (out1 out2 : nat) (mem : list Z) : option (list Z) :=
  tmp1 ← dot mem (take 8 coefs) (up in1) 16384;
  tmp2 ← dot mem (take 8 coefs) (down in2) 16384;
  coef ← coefs !! 8;
  x ← mem !! (in1 + 8);
  mem ← wr mem out1 (s32 (tmp1 + s32 (coef * x)));
  y ← mem !! (in2 - 8);
  wr mem out2 (s32 (tmp2 + s32 (coef * y))).

Definition block44To32 (inp out : nat) (mem : list Z) : option (list Z) :=
  x ← mem !! (inp + 3);
  mem ← wr mem out (s32 (s32 (Z.shiftl x 15) + 16384));
  tmp ← dot mem kCoefficients44To32_3 (up (inp + 5)) 16384;
  mem ← wr mem (out + 4) tmp;
  mem ← DotProduct (inp + 0) (inp + 17) kCoefficients44To32_0 (out + 1) (out + 7) mem;
  mem ← DotProduct (inp + 2) (inp + 15) kCoefficients44To32_1 (out + 2) (out + 6) mem;
  DotProduct (inp + 3) (inp + 14) kCoefficients44To32_2 (out + 3) (out + 5) mem.
Definition Resample44khzTo32khz : nat → nat → nat → list Z → option (list Z) := blocks block44To32 11 8.

(** The five symmetric pairs of the 11/16 filters: input positions from both
    ends and output positions. *)
Definition pairs32To22 : list (nat * nat * nat * nat) :=
  [(0, 22, 1, 10); (2, 20, 2, 9); (3, 19, 3, 8); (5, 17, 4, 7); (6, 16, 5, 6)].

Definition block32To22 (inp out : nat) (mem : list Z) : option (list Z) :=
  x ← mem !! (inp + 3);
  mem ← wr mem out (s32 (s32 (Z.shiftl x 15) + 16384));
  foldl (λ m '(i1, i2, o1, o2, coefs), mem ← m; DotProduct (inp + i1) (inp + i2) coefs (out + o1) (out + o2) mem)
    (Some mem) (zip_with pair pairs32To22 kCoefficients32To22).
Definition khz32To22IntToInt : nat → nat → nat → list Z → option (list Z) := blocks block32To22 16 11.

(** [WebRtcSpl_DotProdIntToShort]: two saturated samples. *)
Definition DotProdIntToShort (mem : list Z) (in1 in2 : nat) (coefs : list Z) : option (Z * Z) :=
  tmp1 ← dot mem coefs (up in1) 16384;
  tmp2 ← dot mem coefs (down in2) 16384;
  Some (saturate (Z.shiftr tmp1 15), saturate (Z.shiftr tmp2 15)).

(** The output array is separate from the input: the eleven samples. *)
Definition block32To22Short (inp : nat) (mem : list Z) : option (list Z) :=
  x ← mem !! (inp + 3);
  ps ← mapM (λ '(i1, i2, coefs), DotProdIntToShort mem (inp + i1) (inp + i2) coefs)
         (zip_with (λ '(i1, i2, _, _) c, (i1, i2, c)) pairs32To22 kCoefficients32To22);
  Some (saturate x :: (fst <$> ps) ++ reverse (snd <$> ps))%list.
Fixpoint khz32To22IntToShort (inp : nat) (K : nat) (mem : list Z) : option (list Z) :=
  match K with
  | O => Some []
  | S K' => o ← block32To22Short inp mem; os ← khz32To22IntToShort (inp + 16) K' mem; Some (o ++ os)%list
  end.

(** ** resample_48khz.c *)

(** [memcpy] of a block into memory, and out of it. *)
Definition store (mem : list Z) (p : nat) (xs : list Z) : option (list Z) :=
  if decide (p + length xs ≤ length mem) then Some (overwrite mem p xs) else None.
Definition load (mem : list Z) (p n : nat) : option (list Z) :=
  if decide (p + n ≤ length mem) then Some (slice mem p n) else None.

Record State48khzTo16khz := { S_48_48 : state16; S_48_32 : list Z; S_32_16 : state8 }.
Definition Resample48khzTo16khz (inp : list Z) (state : State48khzTo16khz) (tmpmem : list Z) :
    option (list Z * State48khzTo16khz) :=
  let '(y, s48) := LPBy2ShortToInt (take 480 inp) (S_48_48 state) in
  mem ← store tmpmem 16 y;
  mem ← store mem 8 (S_48_32 state);
  s32_ ← load mem 488 8;
  mem ← Resample48khzTo32khz 160 8 0 mem;
  z ← load mem 0 320;
  '(out, s16_) ← DownBy2IntToShort z (S_32_16 state);
  Some (out, {| S_48_48 := s48; S_48_32 := s32_; S_32_16 := s16_ |}).

Record State16khzTo48khz := { S_16_32 : state8; S_32_24 : list Z; S_24_48 : state8 }.
Definition Resample16khzTo48khz (inp : list Z) (state : State16khzTo48khz) (tmpmem : list Z) :
    option (list Z * State16khzTo48khz) :=
  let '(y, s1) := UpBy2ShortToInt (take 160 inp) (S_16_32 state) in
  mem ← store tmpmem 16 y;
  mem ← store mem 8 (S_32_24 state);
  s2 ← load mem 328 8;
  mem ← Resample32khzTo24khz 80 8 0 mem;
  z ← load mem 0 240;
  let '(out, s3) := UpBy2IntToShort z (S_24_48 state) in
  Some (out, {| S_16_32 := s1; S_32_24 := s2; S_24_48 := s3 |}).

Record State48khzTo8khz := { S_48_24 : state8; S_24_24 : state16; S_24_16 : list Z; S_16_8 : state8 }.
Definition Resample48khzTo8khz (inp : list Z) (state : State48khzTo8khz) (tmpmem : list Z) :
    option (list Z * State48khzTo8khz) :=
  let '(y, s1) := DownBy2ShortToInt (take 480 inp) (S_48_24 state) in
  mem ← store tmpmem 256 y;
  x ← load mem 256 240;
  let '(y, s2) := LPBy2IntToInt x (S_24_24 state) in
  mem ← store mem 16 y;
  mem ← store mem 8 (S_24_16 state);
  s3 ← load mem 248 8;
  mem ← Resample48khzTo32khz 80 8 0 mem;
  z ← load mem 0 160;
  '(out, s4) ← DownBy2IntToShort z (S_16_8 state);
  Some (out, {| S_48_24 := s1; S_24_24 := s2; S_24_16 := s3; S_16_8 := s4 |}).

Record State8khzTo48khz := { S_8_16 : state8; S_16_12 : list Z; S_12_24 : state8; S_24_48' : state8 }.
Definition Resample8khzTo48khz (inp : list Z) (state : State8khzTo48khz) (tmpmem : list Z) :
    option (list Z * State8khzTo48khz) :=
  let '(y, s1) := UpBy2ShortToInt (take 80 inp) (S_8_16 state) in
  mem ← store tmpmem 264 y;
  mem ← store mem 256 (S_16_12 state);
  s2 ← load mem 416 8;
  mem ← Resample32khzTo24khz 40 256 240 mem;
  x ← load mem 240 120;
  let '(y, s3) := UpBy2IntToInt x (S_12_24 state) in
  mem ← store mem 0 y;
  z ← load mem 0 240;
  let '(out, s4) := UpBy2IntToShort z (S_24_48' state) in
  Some (out, {| S_8_16 := s1; S_16_12 := s2; S_12_24 := s3; S_24_48' := s4 |}).

Definition zeros8 : state8 := (ap0, ap0).
Definition zeros16 : state16 := (ap0, ap0, (ap0, ap0)).
Definition ResetResample48khzTo16khz : State48khzTo16khz :=
  {| S_48_48 := zeros16; S_48_32 := replicate 8 0%Z; S_32_16 := zeros8 |}.
Definition ResetResample16khzTo48khz : State16khzTo48khz :=
  {| S_16_32 := zeros8; S_32_24 := replicate 8 0%Z; S_24_48 := zeros8 |}.
Definition ResetResample48khzTo8khz : State48khzTo8khz :=
  {| S_48_24 := zeros8; S_24_24 := zeros16; S_24_16 := replicate 8 0%Z; S_16_8 := zeros8 |}.
Definition ResetResample8khzTo48khz : State8khzTo48khz :=
  {| S_8_16 := zeros8; S_16_12 := replicate 8 0%Z; S_12_24 := zeros8; S_24_48' := zeros8 |}.

(** ** resample.c *)

(** A loop over sub-blocks of [n] input samples, on shared scratch memory. *)
Fixpoint sub_blocks {St} (f : list Z → St → list Z → option (list Z * St * list Z)) (n k : nat)
    (inp : list Z) (s : St) (mem : list Z) : option (list Z * St * list Z) :=
  match k with
  | O => Some ([], s, mem)
  | S k' =>
      '(o, s, mem) ← f (take n inp) s mem;
      '(os, s, mem) ← sub_blocks f n k' (drop n inp) s mem;
      Some ((o ++ os)%list, s, mem)
  end.

Record State22khzTo16khz := { S_22_44 : state8; S_44_32 : list Z; S_32_16' : state8 }.
Definition Resample22khzTo16khz : list Z → State22khzTo16khz → list Z → option (list Z * State22khzTo16khz * list Z) :=
  sub_blocks (λ inp state mem,
    let '(y, s1) := UpBy2ShortToInt inp (S_22_44 state) in
    mem ← store mem 16 y;
    mem ← store mem 8 (S_44_32 state);
    s2 ← load mem 96 8;
    mem ← Resample44khzTo32khz 8 8 0 mem;
    z ← load mem 0 64;
    '(out, s3) ← DownBy2IntToShort z (S_32_16' state);
    Some (out, {| S_22_44 := s1; S_44_32 := s2; S_32_16' := s3 |}, mem)) 44 5.

Record State16khzTo22khz := { S_16_32' : state8; S_32_22 : list Z }.
Definition Resample16khzTo22khz : list Z → State16khzTo22khz → list Z → option (list Z * State16khzTo22khz * list Z) :=
  sub_blocks (λ inp state mem,
    let '(y, s1) := UpBy2ShortToInt inp (S_16_32' state) in
    mem ← store mem 8 y;
    mem ← store mem 0 (S_32_22 state);
    s2 ← load mem 80 8;
    out ← khz32To22IntToShort 0 5 mem;
    Some (out, {| S_16_32' := s1; S_32_22 := s2 |}, mem)) 40 4.

Record State22khzTo8khz := { S_22_22 : state16; S_22_16 : list Z; S_16_8' : state8 }.
Definition Resample22khzTo8khz : list Z → State22khzTo8khz → list Z → option (list Z * State22khzTo8khz * list Z) :=
  sub_blocks (λ inp state mem,
    let '(y, s1) := LPBy2ShortToInt inp (S_22_22 state) in
    mem ← store mem 16 y;
    mem ← store mem 8 (S_22_16 state);
    s2 ← load mem 118 8;
    mem ← Resample44khzTo32khz 10 8 0 mem;
    z ← load mem 0 80;
    '(out, s3) ← DownBy2IntToShort z (S_16_8' state);
    Some (out, {| S_22_22 := s1; S_22_16 := s2; S_16_8' := s3 |}, mem)) 110 2.

Record State8khzTo22khz := { S_8_16' : state8; S_16_11 : list Z; S_11_22 : state8 }.
Definition Resample8khzTo22khz : list Z → State8khzTo22khz → list Z → option (list Z * State8khzTo22khz * list Z) :=
  sub_blocks (λ inp state mem,
    let '(y, s1) := UpBy2ShortToInt inp (S_8_16' state) in
    mem ← store mem 18 y;
    mem ← store mem 10 (S_16_11 state);
    s2 ← load mem 90 8;
    mem ← khz32To22IntToInt 5 10 0 mem;
    z ← load mem 0 55;
    let '(out, s3) := UpBy2IntToShort z (S_11_22 state) in
    Some (out, {| S_8_16' := s1; S_16_11 := s2; S_11_22 := s3 |}, mem)) 40 2.

Definition ResetResample22khzTo16khz : State22khzTo16khz :=
  {| S_22_44 := zeros8; S_44_32 := replicate 8 0%Z; S_32_16' := zeros8 |}.
Definition ResetResample16khzTo22khz : State16khzTo22khz := {| S_16_32' := zeros8; S_32_22 := replicate 8 0%Z |}.
Definition ResetResample22khzTo8khz : State22khzTo8khz :=
  {| S_22_22 := zeros16; S_22_16 := replicate 8 0%Z; S_16_8' := zeros8 |}.
Definition ResetResample8khzTo22khz : State8khzTo22khz :=
  {| S_8_16' := zeros8; S_16_11 := replicate 8 0%Z; S_11_22 := zeros8 |}.
End Resample.

(* ================================================================== *)
(** ** Streaming: a filter's state carries everything from block to block *)

(** Running a filter on two blocks in a row is running it on their
    concatenation; [ok] says where the input may be cut. *)
Class Streaming {St} (f : list Z → St → list Z * St) (ok : list Z → Prop) :=
  streaming : ∀ xs ys s, ok xs →
    f (xs ++ ys) s = let '(a, s1) := f xs s in let '(b, s2) := f ys s1 in ((a ++ b)%list, s2).

(** A filter over a list of blocks. *)
Fixpoint run_stream {St} (f : list Z → St → list Z * St) (blocks : list (list Z)) (s : St) : list Z * St :=
  match blocks with
  | [] => f [] s
  | [xs] => f xs s
  | xs :: blocks' => let '(a, s1) := f xs s in let '(b, s2) := run_stream f blocks' s1 in ((a ++ b)%list, s2)
  end.

Lemma run_stream_concat {St} (f : list Z → St → list Z * St) ok `{Streaming St f ok} blocks s :
  Forall ok blocks → run_stream f blocks s = f (concat blocks) s.
Proof.
  intros Hok. revert s. induction Hok as [|xs blocks Hxs Hbl IH]; intros s; [done|].
  destruct blocks as [|ys blocks]; [cbn; by rewrite app_nil_r|].
  change (concat (xs :: ys :: blocks)) with (xs ++ concat (ys :: blocks))%list.
  rewrite (streaming xs) by done. cbn [run_stream]. destruct (f xs s) as [a s1]. by rewrite <- IH.
Qed.

Section filters.
Import Resample.

Definition even_length (xs : list Z) : Prop := ∃ n, length xs = (2 * n)%nat.
Definition any_length (xs : list Z) : Prop := True.

(** Lists of even length by pairs. *)
Lemma even_ind (P : list Z → Prop) :
  P [] → (∀ x y l, even_length l → P l → P (x :: y :: l)) → ∀ l, even_length l → P l.
Proof.
  intros H0 H2 l [n Hn]. revert l Hn. induction n as [|n IH]; intros l Hn; [by destruct l|].
  destruct l as [|x [|y l]]; cbn in Hn; [lia|lia|]. apply H2; [exists n; lia|]. apply IH. lia.
Qed.

Lemma evens_app xs ys : even_length xs → evens (xs ++ ys) = (evens xs ++ evens ys)%list.
Proof. revert xs. apply even_ind; [done|]. intros x y l _ IH. cbn. by rewrite IH. Qed.
Lemma odds_app xs ys : even_length xs → odds (xs ++ ys) = (odds xs ++ odds ys)%list.
Proof. revert xs. apply even_ind; [done|]. intros x y l _ IH. cbn. by rewrite IH. Qed.
Lemma length_evens_aux n xs : (length xs ≤ n)%nat →
  length (evens xs) = Nat.div2 (length xs) ∧ length (odds xs) = Nat.div2 (length xs).
Proof.
  revert xs. induction n as [|n IH]; intros [|x [|y l]] H; cbn in *; try (done || lia).
  destruct (IH l ltac:(lia)) as [-> ->]. done.
Qed.
Lemma length_evens xs : length (evens xs) = Nat.div2 (length xs).
Proof. by eapply length_evens_aux. Qed.
Lemma length_odds xs : length (odds xs) = Nat.div2 (length xs).
Proof. by eapply length_evens_aux. Qed.
Lemma interleave_app a1 b1 a2 b2 :
  length a1 = length b1 → interleave (a1 ++ a2) (b1 ++ b2) = (interleave a1 b1 ++ interleave a2 b2)%list.
Proof. revert b1. induction a1 as [|x a1 IH]; intros [|y b1] H; cbn in *; try done. by rewrite IH by lia. Qed.
Lemma length_interleave a b : length a = length b → length (interleave a b) = (2 * length a)%nat.
Proof. revert b. induction a as [|x a IH]; intros [|y b] H; cbn in *; try done. rewrite IH; lia. Qed.

Lemma allpass_run_app k s xs ys :
  allpass_run k s (xs ++ ys) =
    let '(a, s1) := allpass_run k s xs in let '(b, s2) := allpass_run k s1 ys in ((a ++ b)%list, s2).
Proof.
  revert s. induction xs as [|x xs IH]; intros s; cbn; [by destruct (allpass_run k s ys)|].
  rewrite IH. destruct (allpass_run k (allpass k s x) xs) as [a s1]. by destruct (allpass_run k s1 ys).
Qed.
Lemma length_allpass_run k s xs : length (allpass_run k s xs).1 = length xs.
Proof.
  revert s. induction xs as [|x xs IH]; intros s; cbn; [done|]. specialize (IH (allpass k s x)).
  destruct (allpass_run k (allpass k s x) xs). cbn in *. by rewrite IH.
Qed.
Lemma allpass_run_st0 k s xs : st0 (allpass_run k s xs).2 = default (st0 s) (last xs).
Proof.
  revert s. induction xs as [|x xs IH]; intros s; cbn; [done|]. specialize (IH (allpass k s x)).
  destruct (allpass_run k (allpass k s x) xs) as [a s1]. cbn in IH |- *. rewrite IH.
  unfold allpass. destruct k as [[k0 k1] k2]. cbn [st0]. destruct xs as [|y xs]; [done|].
  change (last (x :: y :: xs)) with (last (y :: xs)). destruct (last (y :: xs)) eqn:E; [done|].
  by apply last_None in E.
Qed.

End filters.

(** Split an [allpass_run] into its outputs and final state, with the length. *)
Ltac run_cases :=
  repeat match goal with
  | E : Resample.allpass_run ?k ?s ?xs = _ |- context [Resample.allpass_run ?k ?s ?xs] =>
      rewrite E; cbn [fst snd]; cbv beta iota
  | |- context [Resample.allpass_run ?k ?s ?xs] =>
      let H := fresh "Hlen" in pose proof (length_allpass_run k s xs) as H;
      let a := fresh "a" in let s' := fresh "s" in
      destruct (Resample.allpass_run k s xs) as [a s'] eqn:?; cbn [fst snd] in H |- *; cbv beta iota
  end.

Section streams.
Import Resample.

#[export] Instance DownBy2ShortToInt_streaming : Streaming DownBy2ShortToInt even_length.
Proof.
  intros xs ys s He. unfold DownBy2ShortToInt. rewrite evens_app, odds_app, !fmap_app, !allpass_run_app by done.
  run_cases. cbn [fst snd]. rewrite zip_with_app; [done|].
  rewrite !length_fmap, ?length_evens, ?length_odds in *. lia.
Qed.

#[export] Instance UpBy2ShortToInt_streaming : Streaming UpBy2ShortToInt any_length.
Proof.
  intros xs ys s _. unfold UpBy2ShortToInt. rewrite !fmap_app, !allpass_run_app. run_cases.
  rewrite !fmap_app, interleave_app; [done|]. rewrite !length_fmap in *. lia.
Qed.

#[export] Instance UpBy2IntToInt_streaming : Streaming UpBy2IntToInt any_length.
Proof.
  intros xs ys s _. unfold UpBy2IntToInt. rewrite !allpass_run_app. run_cases. rewrite interleave_app; [done|]. lia.
Qed.

#[export] Instance UpBy2IntToShort_streaming : Streaming UpBy2IntToShort any_length.
Proof.
  intros xs ys s _. unfold UpBy2IntToShort. rewrite !allpass_run_app. run_cases.
  rewrite !fmap_app, interleave_app; [done|]. rewrite !length_fmap in *. lia.
Qed.

(** The delayed odd samples of two blocks. *)
Lemma delayed_app (d : Z) xs ys :
  take (length (xs ++ ys)) (d :: xs ++ ys) =
  (take (length xs) (d :: xs) ++ take (length ys) (default d (last xs) :: ys))%list.
Proof.
  destruct xs as [|x xs _] using rev_ind; [done|]. rewrite last_snoc. cbn [default]. rewrite !length_app. cbn [length].
  rewrite <- app_assoc. cbn [app]. replace (length xs + 1 + length ys)%nat with (S (length xs + length ys)) by lia.
  replace (length xs + 1)%nat with (S (length xs)) by lia. cbn [take app]. f_equal.
  by rewrite take_app_add, take_app_length.
Qed.

#[export] Instance lp_by_2_streaming : Streaming lp_by_2 even_length.
Proof.
  intros xs ys [[sa sb] [sc sd]] He. unfold lp_by_2. rewrite evens_app, odds_app, delayed_app by done.
  rewrite <- (allpass_run_st0 kResampleAllpass0 sd).
  pose proof (length_allpass_run kResampleAllpass0 sd (odds xs)) as Hd.
  destruct (allpass_run kResampleAllpass0 sd (odds xs)) as [d1 sd1] eqn:Ed. cbn [fst snd] in Hd |- *.
  rewrite !allpass_run_app. run_cases.
  rewrite !zip_with_app, interleave_app; [done|..]; rewrite ?length_zip_with;
    rewrite ?length_take, ?length_evens, ?length_odds in *; cbn [length] in *;
    rewrite ?length_evens, ?length_odds in *; lia.
Qed.

#[export] Instance LPBy2IntToInt_streaming : Streaming LPBy2IntToInt even_length := lp_by_2_streaming.
#[export] Instance LPBy2ShortToInt_streaming : Streaming LPBy2ShortToInt even_length.
Proof.
  intros xs ys s [n Hn]. unfold LPBy2ShortToInt. rewrite fmap_app.
  apply (streaming (f := lp_by_2) (ok := even_length)). exists n. by rewrite length_fmap.
Qed.

#[export] Instance DownsampleBy2_streaming : Streaming DownsampleBy2 even_length.
Proof.
  intros xs ys s He. revert xs He s. apply (even_ind (λ xs, ∀ s, _)); [intros s; cbn; by destruct (DownsampleBy2 ys s)|].
  intros x y l _ IH s. cbn. rewrite IH. destruct (DownsampleBy2 l _) as [a s1]. by destruct (DownsampleBy2 ys s1).
Qed.

#[export] Instance UpsampleBy2_streaming : Streaming UpsampleBy2 any_length.
Proof.
  intros xs ys s _. revert s. induction xs as [|x xs IH]; intros s; cbn; [by destruct (UpsampleBy2 ys s)|].
  rewrite IH. destruct (UpsampleBy2 xs _) as [a s1]. by destruct (UpsampleBy2 ys s1).
Qed.

Lemma qmf_section_app a x1 y1 xs ys :
  qmf_section a x1 y1 (xs ++ ys) =
    let '(u, st) := qmf_section a x1 y1 xs in
    let '(v, st') := qmf_section a st.1 st.2 ys in ((u ++ v)%list, st').
Proof.
  revert x1 y1. induction xs as [|x xs IH]; intros x1 y1; cbn; [by destruct (qmf_section a x1 y1 ys)|].
  rewrite IH. destruct (qmf_section a x _ xs) as [u st]. by destruct (qmf_section a st.1 st.2 ys).
Qed.

#[export] Instance AllPassQMF_streaming k : Streaming (λ xs s, AllPassQMF xs k s) any_length.
Proof.
  intros xs ys [[f0 f1] f2] _. unfold AllPassQMF. destruct k as [[k0 k1] k2]. rewrite qmf_section_app.
  destruct (qmf_section k0 f0.1 f0.2 xs) as [u0 g0]. destruct (qmf_section k0 g0.1 g0.2 ys) as [v0 h0] eqn:E0.
  rewrite qmf_section_app. destruct (qmf_section k1 f1.1 f1.2 u0) as [u1 g1].
  destruct (qmf_section k1 g1.1 g1.2 v0) as [v1 h1] eqn:E1. rewrite qmf_section_app.
  destruct (qmf_section k2 f2.1 f2.2 u1) as [u2 g2]. rewrite E0, E1.
  by destruct (qmf_section k2 g2.1 g2.2 v1).
Qed.

End streams.

(* ================================================================== *)
(** ** The fractional filters in place *)

Section in_place.
Import Resample.
#[local] Open Scope nat_scope.
Implicit Types (mem vs coefs : list Z).

(** The sums over memory contents [x]. *)
Fixpoint dot_of (x : nat → Z) coefs (at_ : nat → nat) (tmp : Z) : Z :=
  match coefs with
  | [] => tmp
  | c :: coefs' => dot_of x coefs' (λ i, at_ (S i)) (s32 (tmp + s32 (c * x (at_ 0))))
  end.

Lemma dot_spec mem coefs at_ tmp :
  (∀ i, i < length coefs → at_ i < length mem) →
  dot mem coefs at_ tmp = Some (dot_of (λ p, mem !!! p) coefs at_ tmp).
Proof.
  revert at_ tmp. induction coefs as [|c coefs IH]; intros at_ tmp H; cbn; [done|].
  rewrite (list_lookup_lookup_total_lt mem (at_ 0)) by (apply H; cbn; lia). cbn.
  apply IH. intros i Hi. apply H. cbn. lia.
Qed.

Lemma dot_of_ext x y coefs at_ tmp :
  (∀ i, i < length coefs → x (at_ i) = y (at_ i)) → dot_of x coefs at_ tmp = dot_of y coefs at_ tmp.
Proof.
  revert at_ tmp. induction coefs as [|c coefs IH]; intros at_ tmp H; cbn; [done|].
  rewrite (H 0) by (cbn; lia). apply IH. intros i Hi. apply (H (S i)). cbn. lia.
Qed.

Lemma dot_of_app x coefs coefs' at_ tmp :
  dot_of x (coefs ++ coefs') at_ tmp = dot_of x coefs' (λ i, at_ (length coefs + i)) (dot_of x coefs at_ tmp).
Proof. revert at_ tmp. induction coefs as [|c coefs IH]; intros at_ tmp; cbn; [done|]. by rewrite IH. Qed.

Lemma wr_lt mem p v : p < length mem → wr mem p v = Some (<[p := v]> mem).
Proof. intros H. unfold wr. by rewrite decide_True. Qed.

(** A block filter [block] that computes [out_of x] from the inputs [x 0],
    [x 1], ... (the first [span] of them) in place, when its output starts at
    least [gap] before its input. *)
Class BlockSpec (block : nat → nat → list Z → option (list Z)) (out_of : (nat → Z) → list Z)
    (span gap step_out : nat) := {
  block_length x : length (out_of x) = step_out;
  block_ext x y : (∀ p, p < span → x p = y p) → out_of x = out_of y;
  block_run inp out mem : inp + span ≤ length mem → out + gap ≤ inp → out + step_out ≤ length mem →
    block inp out mem = Some (overwrite mem out (out_of (λ p, mem !!! (inp + p))));
}.

(** The outputs of [K] blocks. *)
Fixpoint blocks_of (out_of : (nat → Z) → list Z) (step_in K : nat) (x : nat → Z) : list Z :=
  match K with
  | O => []
  | S K' => out_of x ++ blocks_of out_of step_in K' (λ p, x (step_in + p))
  end.

Lemma length_blocks_of block out_of span gap step_out step_in K x `{!BlockSpec block out_of span gap step_out} :
  length (blocks_of out_of step_in K x) = K * step_out.
Proof. revert x. induction K; intros x; cbn; [done|]. by rewrite length_app, block_length, IHK. Qed.

(** Only the inputs up to the last block's span matter. *)
Lemma blocks_of_within block out_of span gap step_out step_in K x y `{!BlockSpec block out_of span gap step_out} :
  (∀ p, p < (K - 1) * step_in + span → x p = y p) → blocks_of out_of step_in K x = blocks_of out_of step_in K y.
Proof.
  revert x y. induction K as [|K IH]; intros x y H; cbn; [done|]. f_equal.
  - apply block_ext. intros p Hp. apply H. nia.
  - destruct K as [|K]; [done|]. apply IH. intros p Hp. apply H. nia.
Qed.

Lemma lookup_total_overwrite mem p xs q :
  p + length xs ≤ length mem → q < p ∨ p + length xs ≤ q → overwrite mem p xs !!! q = mem !!! q.
Proof.
  intros Hp Hq. rewrite !list_lookup_total_alt, lookup_overwrite by done.
  by rewrite bool_decide_eq_false_2 by lia.
Qed.

(** In-place processing of all the blocks: the overlap is harmless. *)
Lemma blocks_run block out_of span gap step_in step_out K inp out mem `{!BlockSpec block out_of span gap step_out} :
  inp + (K - 1) * step_in + span ≤ length mem → out + gap ≤ inp → step_out ≤ step_in →
  step_out ≤ gap + step_in → out + K * step_out ≤ length mem →
  blocks block step_in step_out K inp out mem
  = Some (overwrite mem out (blocks_of out_of step_in K (λ p, mem !!! (inp + p)))).
Proof.
  intros Hin Hgap Hstep Hstep' Hout. revert inp out mem Hin Hgap Hout.
  induction K as [|K IH]; intros inp out mem Hin Hgap Hout; cbn [blocks blocks_of]; [by rewrite overwrite_nil|].
  assert (Hspan : inp + span ≤ length mem) by lia.
  rewrite block_run by lia. cbn [mbind option_bind]. set (o := out_of _).
  assert (Ho : length o = step_out) by apply block_length.
  destruct (decide (K = 0)) as [->|HK]; [cbn; by rewrite app_nil_r|].
  rewrite IH; [|rewrite length_overwrite by lia; nia|lia|rewrite length_overwrite by lia; lia].
  f_equal. rewrite <- Ho, overwrite_app.
  - do 2 f_equal. eapply blocks_of_within; [done|]. intros p Hp.
    rewrite lookup_total_overwrite by lia. f_equal. lia.
  - rewrite (length_blocks_of block out_of span gap step_out) by done. lia.
Qed.

(** *** 48 to 32 and 32 to 24 kHz *)

Fixpoint rows_of (rows : list (list Z)) (j : nat) (x : nat → Z) : list Z :=
  match rows with
  | [] => []
  | c :: rows' => dot_of x c (up j) 16384 :: rows_of rows' (S j) x
  end.

Lemma length_rows_of rows j x : length (rows_of rows j x) = length rows.
Proof. revert j. induction rows; intros; cbn; auto. Qed.

Lemma rows_of_ext rows j x y n :
  Forall (λ c, length c ≤ n) rows → (∀ p, j ≤ p < length rows + j + n - 1 → x p = y p) → rows_of rows j x = rows_of rows j y.
Proof.
  revert j. induction rows as [|c rows IH]; intros j Hn H; cbn; [done|]. apply Forall_cons in Hn as [Hc Hn]. f_equal.
  - apply dot_of_ext. intros i Hi. apply H. unfold up. cbn. lia.
  - apply IH; [done|]. intros p Hp. apply H. cbn. lia.
Qed.

Lemma dot_of_up mem coefs a b tmp :
  dot_of (λ p, mem !!! (a + p)) coefs (up b) tmp = dot_of (λ p, mem !!! p) coefs (up (a + b)) tmp.
Proof.
  assert (H : ∀ at1 at2, (∀ i, a + at1 i = at2 i) →
            ∀ tmp, dot_of (λ p, mem !!! (a + p)) coefs at1 tmp = dot_of (λ p, mem !!! p) coefs at2 tmp).
  { induction coefs as [|c coefs IH]; intros at1 at2 H tmp'; cbn; [done|]. rewrite H. apply IH. intros i. apply H. }
  apply H. intros i. unfold up. lia.
Qed.

Lemma insert_overwrite mem p v vs :
  p + S (length vs) ≤ length mem → overwrite (<[p := v]> mem) (S p) vs = overwrite mem p (v :: vs).
Proof.
  intros H. replace (<[p := v]> mem) with (overwrite mem p [v]).
  - change (v :: vs) with ([v] ++ vs)%list. rewrite <- overwrite_app; [f_equal; cbn; lia|cbn; lia].
  - rewrite <- (overwrite_nil mem p) at 2. replace p with (p + length (@nil Z)) at 2 by (cbn; lia).
    rewrite overwrite_snoc by (cbn; lia). done.
Qed.

Lemma resample_block_run rows n j inp out mem :
  Forall (λ c, length c = n) rows → inp + j + length rows + n ≤ S (length mem) → out ≤ inp + j →
  out + length rows ≤ length mem →
  resample_block rows (inp + j) out mem = Some (overwrite mem out (rows_of rows j (λ p, mem !!! (inp + p)))).
Proof.
  intros Hn. revert j out mem. induction Hn as [|c rows Hc Hrows IH]; intros j out mem Hin Hout Hlen;
    cbn [resample_block rows_of]; [by rewrite overwrite_nil|]. cbn [length] in *.
  rewrite dot_spec by (intros i Hi; unfold up; lia). cbn [mbind option_bind].
  rewrite wr_lt by lia. cbn [mbind option_bind]. rewrite dot_of_up. set (v := dot_of _ _ _ _).
  replace (S (inp + j)) with (inp + S j) by lia. rewrite IH; [|rewrite ?length_insert; lia..].
  f_equal. rewrite insert_overwrite by (rewrite length_rows_of; lia). do 2 f_equal.
  apply (rows_of_ext _ _ _ _ n); [eapply Forall_impl; [exact Hrows|]; cbn; intros; lia|].
  intros p Hp. rewrite list_lookup_total_insert_ne; [done|lia].
Qed.

Lemma resample_block_spec rows n :
  Forall (λ c, length c = n) rows → rows ≠ [] →
  BlockSpec (resample_block rows) (rows_of rows 0) (length rows + n - 1) 0 (length rows).
Proof.
  intros Hn Hne. assert (1 ≤ length rows) by (destruct rows; [done|cbn; lia]). constructor.
  - intros x. apply length_rows_of.
  - intros x y Hxy. apply (rows_of_ext _ _ _ _ n); [eapply Forall_impl; [exact Hn|]; cbn; intros; lia|].
    intros p Hp. apply Hxy. lia.
  - intros inp out mem H1 H2 H3. rewrite <- (resample_block_run rows n); [by rewrite Nat.add_0_r|done|lia..].
Qed.

#[export] Instance block48To32_spec : BlockSpec (resample_block kCoefficients48To32) (rows_of kCoefficients48To32 0) 9 0 2.
Proof. apply (resample_block_spec kCoefficients48To32 8); [by repeat constructor|done]. Qed.
#[export] Instance block32To24_spec : BlockSpec (resample_block kCoefficients32To24) (rows_of kCoefficients32To24 0) 10 0 3.
Proof. apply (resample_block_spec kCoefficients32To24 8); [by repeat constructor|done]. Qed.

(** *** 44 to 32 and 32 to 22 kHz *)

Lemma dot_of_down mem coefs a b tmp :
  length coefs ≤ S b →
  dot_of (λ p, mem !!! (a + p)) coefs (down b) tmp = dot_of (λ p, mem !!! p) coefs (down (a + b)) tmp.
Proof.
  intros Hb. assert (H : ∀ at1 at2, (∀ i, i < length coefs → a + at1 i = at2 i) →
            ∀ tmp, dot_of (λ p, mem !!! (a + p)) coefs at1 tmp = dot_of (λ p, mem !!! p) coefs at2 tmp).
  { clear. induction coefs as [|c coefs IH]; intros at1 at2 H tmp'; cbn; [done|].
    rewrite H by (cbn; lia). apply IH. intros i Hi. apply H. cbn. lia. }
  apply H. intros i Hi. unfold down. lia.
Qed.

(** The two results of [DotProduct], stored one after the other. *)
Lemma DotProduct_run in1 in2 coefs out1 out2 mem :
  length coefs = 9 → in1 + 8 < length mem → 8 ≤ in2 < length mem → out1 < length mem → out2 < length mem →
  out1 ≠ in2 - 8 →
  DotProduct in1 in2 coefs out1 out2 mem =
    Some (<[out2 := dot_of (λ p, mem !!! p) coefs (down in2) 16384]>
         (<[out1 := dot_of (λ p, mem !!! p) coefs (up in1) 16384]> mem)).
Proof.
  intros Hc H1 H2 Ho1 Ho2 Hne. unfold DotProduct.
  destruct (lookup_lt_is_Some_2 coefs 8) as [c8 Hc8]; [lia|].
  assert (Es : coefs = (take 8 coefs ++ [c8])%list).
  { rewrite <- (take_drop 8 coefs) at 1. f_equal. rewrite (drop_S _ _ _ Hc8). f_equal. apply drop_ge. lia. }
  assert (Hl : length (take 8 coefs) = 8) by (rewrite length_take; lia).
  assert (Hsplit : ∀ x at_ tmp, dot_of x coefs at_ tmp
                   = s32 (dot_of x (take 8 coefs) at_ tmp + s32 (c8 * x (at_ 8)))).
  { intros x at_ tmp. rewrite Es at 1. by rewrite dot_of_app, Hl. }
  rewrite !dot_spec by (intros i Hi; unfold up, down; lia). cbn [mbind option_bind]. rewrite Hc8. cbn [mbind option_bind].
  rewrite (list_lookup_lookup_total_lt mem (in1 + 8)) by lia. cbn [mbind option_bind].
  rewrite wr_lt by lia. cbn [mbind option_bind].
  rewrite list_lookup_insert_ne by done. rewrite (list_lookup_lookup_total_lt mem (in2 - 8)) by lia. cbn [mbind option_bind].
  rewrite wr_lt by (rewrite length_insert; lia). by rewrite !Hsplit.
Qed.

(** Stores at the offsets of a block, in any order, fill the block. *)
Definition stores (out : nat) (kvs : list (nat * Z)) mem : list Z :=
  foldr (λ kv m, <[out + kv.1 := kv.2]> m) mem kvs.

Lemma stores_cons out k v kvs mem : stores out ((k, v) :: kvs) mem = <[out + k := v]> (stores out kvs mem).
Proof. done. Qed.

Lemma length_stores out kvs mem : length (stores out kvs mem) = length mem.
Proof. induction kvs as [|[k v] kvs IH]; cbn; [done|]. by rewrite length_insert. Qed.

Lemma stores_overwrite out kvs vs mem :
  out + length vs ≤ length mem → Forall (λ kv, vs !! kv.1 = Some kv.2) kvs →
  (∀ k, k < length vs → k ∈ kvs.*1) → stores out kvs mem = overwrite mem out vs.
Proof.
  intros Hlen Hkv Hall. apply list_eq. intros q. rewrite lookup_overwrite by done.
  assert (H : (stores out kvs mem) !! q =
              if bool_decide (out ≤ q ∧ q - out ∈ kvs.*1) then vs !! (q - out) else mem !! q).
  { clear Hall. induction Hkv as [|[k v] kvs Hk _ IH].
    { cbn. rewrite bool_decide_eq_false_2; [done|]. rewrite elem_of_nil. tauto. }
    rewrite stores_cons. csimpl.
    cbn in Hk. pose proof (lookup_lt_Some _ _ _ Hk). destruct (decide (q = out + k)) as [->|Hq].
    - rewrite list_lookup_insert_eq by (rewrite length_stores; lia).
      rewrite bool_decide_eq_true_2 by (split; [lia|]; apply elem_of_cons; left; lia).
      replace (out + k - out) with k by lia. done.
    - rewrite list_lookup_insert_ne by done. rewrite IH.
      erewrite bool_decide_ext; [reflexivity|]. rewrite elem_of_cons. split; [tauto|].
      intros [? [|]]; [lia|tauto]. }
  rewrite H. case_bool_decide as H1; case_bool_decide as H2; try done.
  - exfalso. destruct H1 as [? (kv & E & Hin)%list_elem_of_fmap]. rewrite Forall_forall in Hkv.
    specialize (Hkv _ Hin). apply lookup_lt_Some in Hkv. lia.
  - exfalso. apply H1. split; [lia|]. apply Hall. lia.
Qed.

Lemma lookup_total_stores out kvs mem q :
  Forall (λ kv, out + kv.1 < q) kvs → stores out kvs mem !!! q = mem !!! q.
Proof.
  induction 1 as [|[k v] kvs Hk _ IH]; [done|].
  rewrite stores_cons. cbn in Hk.
  rewrite list_lookup_total_insert_ne; [done|lia].
Qed.

Lemma dot_of_stores out kvs mem coefs at_ tmp n :
  Forall (λ kv, out + kv.1 < n) kvs → (∀ i, i < length coefs → n ≤ at_ i) →
  dot_of (λ p, stores out kvs mem !!! p) coefs at_ tmp = dot_of (λ p, mem !!! p) coefs at_ tmp.
Proof.
  intros Hk Hat. apply dot_of_ext. intros i Hi. apply lookup_total_stores.
  eapply Forall_impl; [exact Hk|]. cbn. intros kv ?. specialize (Hat i Hi). lia.
Qed.

(** [DotProduct] after other stores of the same block. *)
Lemma DotProduct_stores in1 in2 coefs o1 o2 out kvs mem n :
  length coefs = 9 → n ≤ in1 → in1 + 8 < length mem → n + 8 ≤ in2 < length mem →
  out + o1 < length mem → out + o2 < length mem → out + o1 ≠ in2 - 8 → Forall (λ kv, out + kv.1 < n) kvs →
  DotProduct in1 in2 coefs (out + o1) (out + o2) (stores out kvs mem) =
    Some (stores out ((o2, dot_of (λ p, mem !!! p) coefs (down in2) 16384) ::
                      (o1, dot_of (λ p, mem !!! p) coefs (up in1) 16384) :: kvs) mem).
Proof.
  intros Hc H1 H1' H2 Ho1 Ho2 Hne Hk.
  rewrite DotProduct_run by (rewrite ?length_stores; lia).
  rewrite !(dot_of_stores _ _ _ _ _ _ n) by (done || intros i Hi; unfold up, down; lia). done.
Qed.

Definition out44To32 (x : nat → Z) : list Z :=
  [s32 (s32 (Z.shiftl (x 3) 15) + 16384);
   dot_of x kCoefficients44To32_0 (up 0) 16384;
   dot_of x kCoefficients44To32_1 (up 2) 16384;
   dot_of x kCoefficients44To32_2 (up 3) 16384;
   dot_of x kCoefficients44To32_3 (up 5) 16384;
   dot_of x kCoefficients44To32_2 (down 14) 16384;
   dot_of x kCoefficients44To32_1 (down 15) 16384;
   dot_of x kCoefficients44To32_0 (down 17) 16384].

Definition out32To22 (x : nat → Z) : list Z :=
  (s32 (s32 (Z.shiftl (x 3) 15) + 16384) ::
   zip_with (λ '(i1, _, _, _) c, dot_of x c (up i1) 16384) pairs32To22 kCoefficients32To22 ++
   reverse (zip_with (λ '(_, i2, _, _) c, dot_of x c (down i2) 16384) pairs32To22 kCoefficients32To22)).

(** The stores so far are below the input, the positions read are not. *)
Ltac below := repeat first [apply Forall_nil_2 | apply Forall_cons_2]; cbn [fst]; lia.

#[export] Instance block44To32_spec : BlockSpec block44To32 out44To32 18 8 8.
Proof.
  constructor; [done| |].
  - intros x y H. unfold out44To32. rewrite (H 3) by lia.
    rewrite !(dot_of_ext x y) by (intros i Hi; apply H; unfold up, down; cbn in Hi; lia). done.
  - intros inp out mem H1 H2 H3. unfold block44To32.
    rewrite (list_lookup_lookup_total_lt mem (inp + 3)) by lia. cbn [mbind option_bind].
    rewrite wr_lt by lia. cbn [mbind option_bind]. set (v0 := s32 _).
    replace (<[out := v0]> mem) with (stores out [(0, v0)] mem) by (cbn; f_equal; lia).
    rewrite dot_spec by (intros i Hi; unfold up; rewrite length_stores; cbn in Hi; lia). cbn [mbind option_bind].
    rewrite (dot_of_stores _ _ _ _ _ _ inp); [|below|intros i Hi; unfold up; lia].
    rewrite wr_lt by (rewrite length_stores; lia). cbn [mbind option_bind]. set (v4 := dot_of _ _ _ _).
    rewrite <- stores_cons.
    do 3 (rewrite (DotProduct_stores _ _ _ _ _ _ _ _ inp); [|done|lia..|below]; cbn [mbind option_bind]).
    f_equal. apply stores_overwrite; [done| |].
    + unfold out44To32. repeat constructor; cbn [lookup list_lookup fst snd];
        rewrite ?dot_of_up, ?dot_of_down by (cbn; lia); rewrite ?Nat.add_0_r; done.
    + cbn. intros k Hk. do 8 (destruct k as [|k]; [rewrite !elem_of_cons; auto 20|]). lia.
Qed.

#[export] Instance block32To22_spec : BlockSpec block32To22 out32To22 23 10 11.
Proof.
  constructor; [done| |].
  - intros x y H. unfold out32To22. rewrite (H 3) by lia. cbn [zip_with pairs32To22 kCoefficients32To22].
    rewrite !(dot_of_ext x y) by (intros i Hi; apply H; unfold up, down; cbn in Hi; lia). done.
  - intros inp out mem H1 H2 H3. unfold block32To22.
    rewrite (list_lookup_lookup_total_lt mem (inp + 3)) by lia. cbn [mbind option_bind].
    rewrite wr_lt by lia. cbn [mbind option_bind]. set (v0 := s32 _).
    replace (<[out := v0]> mem) with (stores out [(0, v0)] mem) by (cbn; f_equal; lia).
    cbn [zip_with foldl pairs32To22 kCoefficients32To22 mbind option_bind].
    rewrite (DotProduct_stores _ _ _ _ _ _ _ _ inp); [|done|lia..|below]. cbn [mbind option_bind].
    do 4 (rewrite (DotProduct_stores _ _ _ _ _ _ _ _ (inp + 2)); [|done|lia..|below]; cbn [mbind option_bind]).
    f_equal. apply stores_overwrite; [done| |].
    + unfold out32To22. cbn [zip_with pairs32To22 kCoefficients32To22].
      repeat constructor; cbn [lookup list_lookup fst snd app reverse rev_append];
        rewrite ?dot_of_up, ?dot_of_down by (cbn; lia); rewrite ?Nat.add_0_r; done.
    + cbn. intros k Hk. do 11 (destruct k as [|k]; [rewrite !elem_of_cons; auto 20|]). lia.
Qed.
End in_place.

(* ================================================================== *)
(** ** The rate converters *)

Section converters.
Import Resample.
#[local] Open Scope nat_scope.
Implicit Types (mem tail y inp : list Z).

(** The fractional filter on a signal that continues the eight samples [tail]:
    the output and the last eight samples. *)
Definition frac (out_of : (nat → Z) → list Z) (step_in K : nat) tail y : list Z * list Z :=
  (blocks_of out_of step_in K (λ q, (tail ++ y) !!! q), slice (tail ++ y) (length y) 8).

Lemma store_fits mem p xs : p + length xs ≤ length mem → store mem p xs = Some (overwrite mem p xs).
Proof. intros H. unfold store. by rewrite decide_True. Qed.
Lemma load_fits mem p n : p + n ≤ length mem → load mem p n = Some (slice mem p n).
Proof. intros H. unfold load. by rewrite decide_True. Qed.

(** The same in scratch memory: the signal at [p], the eight samples before
    it, the output at [out], overlapping. *)
Lemma frac_in_memory block out_of span gap step_in step_out K p out mem tail y
    `{!BlockSpec block out_of span gap step_out} :
  length tail = 8 → length y = K * step_in → 8 ≤ p → p + K * step_in ≤ length mem → out + gap ≤ p - 8 →
  1 ≤ K → span ≤ 8 + step_in → step_out ≤ step_in → out + K * step_out ≤ length mem →
  ∃ m1 m2 m3, store mem p y = Some m1 ∧ store m1 (p - 8) tail = Some m2 ∧
    load m2 (p - 8 + K * step_in) 8 = Some (frac out_of step_in K tail y).2 ∧
    blocks block step_in step_out K (p - 8) out m2 = Some m3 ∧
    load m3 out (K * step_out) = Some (frac out_of step_in K tail y).1 ∧ length m3 = length mem.
Proof.
  intros HS Hy Hp Hmem Hgap HK Hspan Hstep Hout.
  set (m1 := overwrite mem p y). set (m2 := overwrite m1 (p - 8) tail).
  assert (L1 : length m1 = length mem) by (apply length_overwrite; lia).
  assert (L2 : length m2 = length mem) by (unfold m2; rewrite length_overwrite; lia).
  assert (Hread : ∀ q, q < 8 + K * step_in → m2 !! (p - 8 + q) = (tail ++ y) !! q).
  { intros q Hq. unfold m2. rewrite lookup_overwrite by lia. case_bool_decide.
    - rewrite lookup_app_l by lia. f_equal. lia.
    - unfold m1. rewrite lookup_overwrite by lia. rewrite bool_decide_eq_true_2 by lia.
      rewrite lookup_app_r by lia. f_equal. lia. }
  set (o := blocks_of out_of step_in K (λ q, (tail ++ y) !!! q)).
  assert (Ho : blocks_of out_of step_in K (λ q, m2 !!! (p - 8 + q)) = o).
  { apply (blocks_of_within block out_of span gap step_out); [done|]. intros q Hq.
    rewrite !list_lookup_total_alt. f_equal. apply Hread. nia. }
  assert (Lo : length o = K * step_out) by (eapply length_blocks_of; done).
  exists m1, m2, (overwrite m2 out o). rewrite !store_fits, load_fits by lia. split; [done|]. split; [done|]. split.
  { cbn [frac snd]. f_equal. apply list_eq. intros i. rewrite !lookup_slice. case_bool_decide; [|done].
    rewrite Hy. replace (p - 8 + K * step_in + i) with (p - 8 + (K * step_in + i)) by lia. apply Hread. lia. }
  assert (HK' : (K - 1) * step_in + step_in = K * step_in) by nia.
  rewrite (blocks_run block out_of span gap); [|exact _|lia..]. rewrite Ho. split; [done|].
  rewrite load_fits, length_overwrite by (rewrite ?length_overwrite; lia). split; [|done].
  cbn [frac fst]. f_equal. apply (slice_overwrite_same m2 out o); lia.
Qed.

(** *** Lengths and ranges of the stages *)

Lemma length_DownBy2ShortToInt inp s : length (DownBy2ShortToInt inp s).1 = Nat.div2 (length inp).
Proof.
  unfold DownBy2ShortToInt. run_cases. rewrite length_zip_with, !length_fmap, ?length_evens, ?length_odds in *. lia.
Qed.
Lemma length_UpBy2ShortToInt inp s : length (UpBy2ShortToInt inp s).1 = 2 * length inp.
Proof. unfold UpBy2ShortToInt. run_cases. rewrite !length_fmap in *. rewrite length_interleave; rewrite !length_fmap; lia. Qed.
Lemma length_UpBy2IntToInt inp s : length (UpBy2IntToInt inp s).1 = 2 * length inp.
Proof. unfold UpBy2IntToInt. run_cases. rewrite length_interleave; lia. Qed.
Lemma length_lp_by_2 inp s : length (lp_by_2 inp s).1 = 2 * Nat.div2 (length inp).
Proof.
  destruct s as [[sa sb] [sc sd]]. unfold lp_by_2. run_cases.
  rewrite ?length_take, ?length_evens, ?length_odds in *. cbn [length] in *. rewrite ?length_odds in *.
  rewrite length_interleave; rewrite !length_zip_with; lia.
Qed.
Lemma length_frac block out_of span gap step_in step_out K tail y `{!BlockSpec block out_of span gap step_out} :
  length tail = 8 →
  length (frac out_of step_in K tail y).1 = K * step_out ∧ length (frac out_of step_in K tail y).2 = 8.
Proof.
  intros Ht. cbn. split; [by eapply length_blocks_of|]. rewrite length_slice; [done|]. rewrite length_app. lia.
Qed.

Lemma saturate_s16 x : is_s16 (saturate x).
Proof. apply s16_range. Qed.

Lemma Forall_interleave (P : Z → Prop) a b : Forall P a → Forall P b → Forall P (interleave a b).
Proof.
  intros Ha. revert b. induction Ha as [|x a Hx _ IH]; intros b Hb; [constructor|].
  destruct Hb as [|y b Hy Hb]; cbn; [constructor|]. auto.
Qed.

(** A converter's step succeeds with [n] 16-bit samples and a proper state. *)
Definition produces {St} (n : nat) (ok : St → Prop) (r : option (list Z * St)) : Prop :=
  ∃ out st, r = Some (out, st) ∧ length out = n ∧ Forall (λ x, is_s16 x) out ∧ ok st.

Lemma DownBy2IntToShort_produces z s n :
  length z = 4 * n → produces (2 * n) (λ _, True) (DownBy2IntToShort z s).
Proof.
  intros Hz. unfold DownBy2IntToShort. run_cases.
  assert (Hd : Nat.div2 (length z) = 2 * n) by (rewrite Hz; replace (4 * n) with (2 * (2 * n)) by lia; apply Nat.div2_double).
  rewrite Hd. replace (Nat.odd (2 * n)) with false by (rewrite Nat.odd_mul; done).
  eexists _, _. split; [done|]. rewrite ?length_evens, ?length_odds in *. split; [rewrite length_zip_with; lia|].
  split; [|done]. apply Forall_lookup. intros i x Hx. apply lookup_zip_with_Some in Hx as (u & v & -> & _).
  apply saturate_s16.
Qed.

Lemma UpBy2IntToShort_produces z s :
  produces (2 * length z) (λ _, True) (Some (UpBy2IntToShort z s)).
Proof.
  unfold UpBy2IntToShort. run_cases. eexists _, _. split; [done|]. split.
  - rewrite length_interleave; rewrite !length_fmap; lia.
  - split; [|done]. apply Forall_interleave; apply Forall_fmap, Forall_true; intros; apply saturate_s16.
Qed.

(** *** The signal flow of each converter, without the scratch memory *)

Definition flow48To16 inp (st : State48khzTo16khz) : option (list Z * State48khzTo16khz) :=
  let '(y, s1) := LPBy2ShortToInt inp (S_48_48 st) in
  let '(z, s2) := frac (rows_of kCoefficients48To32 0) 3 160 (S_48_32 st) y in
  '(out, s3) ← DownBy2IntToShort z (S_32_16 st);
  Some (out, {| S_48_48 := s1; S_48_32 := s2; S_32_16 := s3 |}).

Definition flow16To48 inp (st : State16khzTo48khz) : option (list Z * State16khzTo48khz) :=
  let '(y, s1) := UpBy2ShortToInt inp (S_16_32 st) in
  let '(z, s2) := frac (rows_of kCoefficients32To24 0) 4 80 (S_32_24 st) y in
  let '(out, s3) := UpBy2IntToShort z (S_24_48 st) in
  Some (out, {| S_16_32 := s1; S_32_24 := s2; S_24_48 := s3 |}).

Definition flow48To8 inp (st : State48khzTo8khz) : option (list Z * State48khzTo8khz) :=
  let '(x, s1) := DownBy2ShortToInt inp (S_48_24 st) in
  let '(y, s2) := LPBy2IntToInt x (S_24_24 st) in
  let '(z, s3) := frac (rows_of kCoefficients48To32 0) 3 80 (S_24_16 st) y in
  '(out, s4) ← DownBy2IntToShort z (S_16_8 st);
  Some (out, {| S_48_24 := s1; S_24_24 := s2; S_24_16 := s3; S_16_8 := s4 |}).

Definition flow8To48 inp (st : State8khzTo48khz) : option (list Z * State8khzTo48khz) :=
  let '(x, s1) := UpBy2ShortToInt inp (S_8_16 st) in
  let '(y, s2) := frac (rows_of kCoefficients32To24 0) 4 40 (S_16_12 st) x in
  let '(z, s3) := UpBy2IntToInt y (S_12_24 st) in
  let '(out, s4) := UpBy2IntToShort z (S_24_48' st) in
  Some (out, {| S_8_16 := s1; S_16_12 := s2; S_12_24 := s3; S_24_48' := s4 |}).

(** The memory operations of a fractional stage, whatever follows. *)
Lemma frac_stage {R} block out_of span gap step_in step_out K p p8 pe no out mem tail y
    `{!BlockSpec block out_of span gap step_out} :
  length tail = 8 → length y = K * step_in → p8 = p - 8 → pe = p8 + K * step_in → no = K * step_out →
  8 ≤ p → p + K * step_in ≤ length mem → out + gap ≤ p8 → 1 ≤ K → span ≤ 8 + step_in → step_out ≤ step_in →
  out + K * step_out ≤ length mem →
  ∃ m3, length m3 = length mem ∧
    length (frac out_of step_in K tail y).1 = no ∧ length (frac out_of step_in K tail y).2 = 8 ∧
    ∀ k : list Z → list Z → list Z → option R,
    (m ← store mem p y; m ← store m p8 tail; t ← load m pe 8; m ← blocks block step_in step_out K p8 out m;
     z ← load m out no; k z t m) = k (frac out_of step_in K tail y).1 (frac out_of step_in K tail y).2 m3.
Proof.
  intros Ht Hy -> -> -> Hp Hmem Hgap HK Hspan Hstep Hout.
  destruct (frac_in_memory block out_of span gap step_in step_out K p out mem tail y)
    as (m1 & m2 & m3 & E1 & E2 & E3 & E4 & E5 & E6); [done|lia..|].
  destruct (length_frac block out_of span gap step_in step_out K tail y Ht) as [Lz Ls].
  exists m3. split; [done|]. split; [done|]. split; [done|]. intros k.
  rewrite E1. cbn [mbind option_bind]. rewrite E2. cbn [mbind option_bind]. rewrite E3. cbn [mbind option_bind].
  rewrite E4. cbn [mbind option_bind]. by rewrite E5.
Qed.

(** Run a fractional stage, then hide its results behind names. *)
Ltac run_frac H :=
  let m3 := fresh "m3" in let Lm := fresh "Lm" in let Lz := fresh "Lz" in let Ls := fresh "Ls" in
  let E := fresh "E" in
  edestruct H as (m3 & Lm & Lz & Ls & E); cycle -1; [rewrite E; clear E|..];
  try first [exact _ | eassumption | reflexivity | lia].

Lemma Resample48khzTo16khz_flow inp st mem :
  length inp = 480 → length (S_48_32 st) = 8 → 496 ≤ length mem →
  Resample48khzTo16khz inp st mem = flow48To16 inp st ∧
  produces 160 (λ st, length (S_48_32 st) = 8) (flow48To16 inp st).
Proof.
  intros Hi Hs Hm. unfold Resample48khzTo16khz, flow48To16. rewrite take_ge by lia.
  pose proof (length_lp_by_2 (widen <$> inp) (S_48_48 st)) as Ly. rewrite length_fmap, Hi in Ly.
  unfold LPBy2ShortToInt. destruct (lp_by_2 (widen <$> inp) (S_48_48 st)) as [y s1]. cbn [fst] in Ly.
  unfold Resample48khzTo32khz. run_frac (frac_stage (R := list Z * State48khzTo16khz) (resample_block kCoefficients48To32)).
  destruct (frac _ 3 160 _ y) as [z s2]. cbn [fst snd] in *.
  destruct (DownBy2IntToShort_produces z (S_32_16 st) 80 Lz) as (out & s3 & -> & Lo & Ro & _). cbn.
  split; [done|]. by eexists _, _.
Qed.

Lemma Resample16khzTo48khz_flow inp st mem :
  length inp = 160 → length (S_32_24 st) = 8 → 336 ≤ length mem →
  Resample16khzTo48khz inp st mem = flow16To48 inp st ∧
  produces 480 (λ st, length (S_32_24 st) = 8) (flow16To48 inp st).
Proof.
  intros Hi Hs Hm. unfold Resample16khzTo48khz, flow16To48. rewrite take_ge by lia.
  pose proof (length_UpBy2ShortToInt inp (S_16_32 st)) as Ly. rewrite Hi in Ly.
  destruct (UpBy2ShortToInt inp (S_16_32 st)) as [y s1]. cbn [fst] in Ly.
  unfold Resample32khzTo24khz. run_frac (frac_stage (R := list Z * State16khzTo48khz) (resample_block kCoefficients32To24)).
  destruct (frac _ 4 80 _ y) as [z s2]. cbn [fst snd] in *.
  destruct (UpBy2IntToShort_produces z (S_24_48 st)) as (out & s3 & E & Lo & Ro & _).
  injection E as ->. split; [done|]. rewrite Lz in Lo. by eexists _, _.
Qed.

Lemma Resample48khzTo8khz_flow inp st mem :
  length inp = 480 → length (S_24_16 st) = 8 → 496 ≤ length mem →
  Resample48khzTo8khz inp st mem = flow48To8 inp st ∧
  produces 80 (λ st, length (S_24_16 st) = 8) (flow48To8 inp st).
Proof.
  intros Hi Hs Hm. unfold Resample48khzTo8khz, flow48To8. rewrite take_ge by lia.
  pose proof (length_DownBy2ShortToInt inp (S_48_24 st)) as Lx. rewrite Hi in Lx. change (Nat.div2 480) with 240 in Lx.
  destruct (DownBy2ShortToInt inp (S_48_24 st)) as [x s1]. cbn [fst] in Lx.
  rewrite (store_fits mem 256 x) by lia. cbn [mbind option_bind].
  rewrite (load_fits (overwrite mem 256 x)) by (rewrite length_overwrite; lia). cbn [mbind option_bind].
  rewrite (slice_overwrite_same mem 256 x) by lia.
  pose proof (length_lp_by_2 x (S_24_24 st)) as Ly. rewrite Lx in Ly. unfold LPBy2IntToInt.
  destruct (lp_by_2 x (S_24_24 st)) as [y s2]. cbn [fst] in Ly.
  assert (Lm : length (overwrite mem 256 x) = length mem) by (apply length_overwrite; lia).
  unfold Resample48khzTo32khz. run_frac (frac_stage (R := list Z * State48khzTo8khz) (resample_block kCoefficients48To32)).
  destruct (frac _ 3 80 _ y) as [z s3]. cbn [fst snd] in *.
  destruct (DownBy2IntToShort_produces z (S_16_8 st) 40 Lz) as (out & s4 & -> & Lo & Ro & _). cbn.
  split; [done|]. by eexists _, _.
Qed.

Lemma Resample8khzTo48khz_flow inp st mem :
  length inp = 80 → length (S_16_12 st) = 8 → 424 ≤ length mem →
  Resample8khzTo48khz inp st mem = flow8To48 inp st ∧
  produces 480 (λ st, length (S_16_12 st) = 8) (flow8To48 inp st).
Proof.
  intros Hi Hs Hm. unfold Resample8khzTo48khz, flow8To48. rewrite take_ge by lia.
  pose proof (length_UpBy2ShortToInt inp (S_8_16 st)) as Lx. rewrite Hi in Lx.
  destruct (UpBy2ShortToInt inp (S_8_16 st)) as [x s1]. cbn [fst] in Lx.
  unfold Resample32khzTo24khz. run_frac (frac_stage (R := list Z * State8khzTo48khz) (resample_block kCoefficients32To24)).
  destruct (frac _ 4 40 _ x) as [y s2]. cbn [fst snd] in *.
  pose proof (length_UpBy2IntToInt y (S_12_24 st)) as Lw. rewrite Lz in Lw.
  destruct (UpBy2IntToInt y (S_12_24 st)) as [w s3]. cbn [fst] in Lw.
  rewrite (store_fits m3 0 w) by lia. cbn [mbind option_bind].
  rewrite (load_fits (overwrite m3 0 w)) by (rewrite length_overwrite; lia). cbn [mbind option_bind].
  rewrite (slice_overwrite_same m3 0 w) by lia.
  destruct (UpBy2IntToShort_produces w (S_24_48' st)) as (out & s4 & E & Lo & Ro & _).
  injection E as ->. split; [done|]. rewrite Lw in Lo. by eexists _, _.
Qed.

(** The 48 kHz converters in their scratch buffer: for a frame of 10 ms
    and any scratch memory of at least the stated size (496 words, 336 for 16
    to 48 kHz as the caller allocates, 424 for 8 to 48), whatever it holds,
    no access leaves the memory, the overlap of the fractional filter's input
    with its output destroys nothing, and the samples and the new state are
    those of the signal flow without scratch memory; the output is a full
    frame of 16-bit samples. *)
Theorem converters_ignore_scratch (inp mem : list Z) :
  (∀ st, length inp = 480 → length (S_48_32 st) = 8 → 496 ≤ length mem →
     Resample48khzTo16khz inp st mem = flow48To16 inp st ∧
     produces 160 (λ st, length (S_48_32 st) = 8) (flow48To16 inp st)) ∧
  (∀ st, length inp = 160 → length (S_32_24 st) = 8 → 336 ≤ length mem →
     Resample16khzTo48khz inp st mem = flow16To48 inp st ∧
     produces 480 (λ st, length (S_32_24 st) = 8) (flow16To48 inp st)) ∧
  (∀ st, length inp = 480 → length (S_24_16 st) = 8 → 496 ≤ length mem →
     Resample48khzTo8khz inp st mem = flow48To8 inp st ∧
     produces 80 (λ st, length (S_24_16 st) = 8) (flow48To8 inp st)) ∧
  (∀ st, length inp = 80 → length (S_16_12 st) = 8 → 424 ≤ length mem →
     Resample8khzTo48khz inp st mem = flow8To48 inp st ∧
     produces 480 (λ st, length (S_16_12 st) = 8) (flow8To48 inp st)).
Proof.
  split_and!; intros st Hi Hs Hm; [by apply Resample48khzTo16khz_flow|by apply Resample16khzTo48khz_flow|
    by apply Resample48khzTo8khz_flow|by apply Resample8khzTo48khz_flow].
Qed.
End converters.

(** ** Witnesses *)


Lemma converters_ignore_scratch_witness :
  let inp := replicate 480 1000 in
  Resample.Resample48khzTo8khz inp Resample.ResetResample48khzTo8khz (replicate 500 77)
  = flow48To8 inp Resample.ResetResample48khzTo8khz ∧ (496 ≤ length (replicate 500 77))%nat.
Proof.
  intros inp. assert (Hm : (496 ≤ length (replicate 500 77))%nat) by (vm_compute; lia). split; [|exact Hm].
  assert (Hi : length inp = 480%nat) by (vm_compute; reflexivity).
  exact (proj1 (proj1 (proj2 (proj2 (converters_ignore_scratch inp (replicate 500 77))))
    Resample.ResetResample48khzTo8khz Hi eq_refl Hm)).
Defined.
