(* ===== verification/Vad.v ===== *)
(** * webrtc_dsp/common_audio/vad: the voice activity detector

    [vad_gmm.c], [vad_filterbank.c], [vad_sp.c], [vad_core.c] and
    [webrtc_vad.c].  A frame of 10, 20 or 30 ms is brought to 8 kHz, split
    into six frequency bands, and the log energy of each band is compared with
    two Gaussian mixtures (noise and speech) that are updated frame by frame;
    a hang-over keeps the decision active after speech.  The instance is the
    record [VadInst]; [None] is an access outside an array. *)

From Stdlib Require Import ZArith Lia.
From stdpp Require Import base tactics list numbers option.
From S2P Require Import Prelude Words Memory Spl Vec Resample.
From stdpp Require Import list.
Open Scope Z_scope.

Module Vad.
Import Spl Resample.

Definition kNumChannels : nat := 6.
Definition kNumGaussians : nat := 2.
Definition kTableSize : nat := kNumChannels * kNumGaussians.
Definition kMinEnergy : Z := 10.

Record VadInst := mk {
  vad : Z;
  downsampling_filter_states : list Z;
  state_48_to_8 : State48khzTo8khz;
  noise_means : list Z;
  speech_means : list Z;
  noise_stds : list Z;
  speech_stds : list Z;
  frame_counter : Z;
  over_hang : Z;
  num_of_speech : Z;
  index_vector : list Z;
  low_value_vector : list Z;
  mean_value : list Z;
  upper_state : list Z;
  lower_state : list Z;
  hp_filter_state : list Z;
  over_hang_max_1 : list Z;
  over_hang_max_2 : list Z;
  individual : list Z;
  total : list Z;
  init_flag : Z;
}.
#[export] Instance VadInst_eta : Eta VadInst := λ s,
  mk (vad s) (downsampling_filter_states s) (state_48_to_8 s) (noise_means s) (speech_means s) (noise_stds s)
     (speech_stds s) (frame_counter s) (over_hang s) (num_of_speech s) (index_vector s) (low_value_vector s)
     (mean_value s) (upper_state s) (lower_state s) (hp_filter_state s) (over_hang_max_1 s) (over_hang_max_2 s)
     (individual s) (total s) (init_flag s).

(** ** vad_gmm.c *)

Definition kCompVar : Z := 22005.
Definition kLog2Exp : Z := 5909.

(** [WebRtcVad_GaussianProbability]: the probability and [*delta]. *)
Definition GaussianProbability (input mean std : Z) : Z * Z :=
  let tmp32 := s32 (131072 + Z.shiftr std 1) in
  let inv_std := s16 (DivW32W16 tmp32 std) in
  let tmp16 := s16 (Z.shiftr inv_std 2) in
  let inv_std2 := s16 (Z.shiftr (tmp16 * tmp16) 2) in
  let tmp16 := s16 (Z.shiftl input 3) in
  let tmp16 := s16 (tmp16 - mean) in
  let delta := s16 (Z.shiftr (inv_std2 * tmp16) 10) in
  let tmp32 := Z.shiftr (delta * tmp16) 9 in
  let exp_value :=
    if tmp32 <? kCompVar then
      let tmp16 := s16 (Z.shiftr (s32 (kLog2Exp * tmp32)) 12) in
      let tmp16 := s16 (- tmp16) in
      let exp_value := s16 (Z.lor 1024 (Z.land tmp16 1023)) in
      let tmp16 := s16 (Z.lxor tmp16 65535) in
      let tmp16 := s16 (Z.shiftr tmp16 10) in
      let tmp16 := s16 (tmp16 + 1) in
      s16 (Z.shiftr exp_value tmp16)
    else 0 in
  (s32 (inv_std * exp_value), delta).

(** ** vad_filterbank.c *)

(** One sample of [HighPassFilter]; the four words of the state. *)
Definition high_pass (fs : Z * Z * Z * Z) (x : Z) : Z * Z * Z * Z :=
  let '(fs0, fs1, fs2, fs3) := fs in
  let tmp32 := s32 (6631 * x) in
  let tmp32 := s32 (tmp32 + s32 (-13262 * fs0)) in
  let tmp32 := s32 (tmp32 + s32 (6631 * fs1)) in
  let tmp32 := s32 (tmp32 - s32 (-7756 * fs2)) in
  let tmp32 := s32 (tmp32 - s32 (5620 * fs3)) in
  (x, fs0, s16 (Z.shiftr tmp32 14), fs2).

Fixpoint high_pass_run (xs : list Z) (fs : Z * Z * Z * Z) : list Z * (Z * Z * Z * Z) :=
  match xs with
  | [] => ([], fs)
  | x :: xs' =>
      let fs := high_pass fs x in
      let '(ys, fs') := high_pass_run xs' fs in (fs.1.2 :: ys, fs')
  end.

Definition HighPassFilter (data_in filter_state : list Z) : option (list Z * list Z) :=
  match filter_state with
  | [a; b; c; d] =>
      let '(out, (a, b, c, d)) := high_pass_run data_in (a, b, c, d) in Some (out, [a; b; c; d])
  | _ => None
  end.

(** [AllPassFilter] on every second input sample. *)
Fixpoint all_pass_run (filter_coefficient : Z) (xs : list Z) (state32 : Z) : list Z * Z :=
  match xs with
  | [] => ([], state32)
  | x :: xs' =>
      let tmp32 := s32 (state32 + s32 (filter_coefficient * x)) in
      let tmp16 := s16 (Z.shiftr tmp32 16) in
      let state32 := s32 (s32 (x * 16384) - s32 (filter_coefficient * tmp16)) in
      let state32 := s32 (state32 * 2) in
      let '(ys, st) := all_pass_run filter_coefficient xs' state32 in (tmp16 :: ys, st)
  end.
Definition AllPassFilter (xs : list Z) (filter_coefficient filter_state : Z) : list Z * Z :=
  let '(out, state32) := all_pass_run filter_coefficient xs (s32 (filter_state * 65536)) in
  (out, s16 (Z.shiftr state32 16)).

(** [SplitFilter]: the high-pass and the low-pass half, and the states. *)
Definition SplitFilter (data_in : list Z) (upper_state lower_state : Z) : list Z * list Z * Z * Z :=
  let '(hp, u) := AllPassFilter (evens data_in) 20972 upper_state in
  let '(lp, l) := AllPassFilter (odds data_in) 5571 lower_state in
  (zip_with (λ h l, s16 (h - l)) hp lp, zip_with (λ h l, s16 (l + h)) hp lp, u, l).

(** [LogOfEnergy]: [*total_energy] and [*log_energy]. *)
Definition LogOfEnergy (data_in : list Z) (offset total_energy : Z) : Z * Z :=
  let '(en, tot_rshifts) := Vec.Energy data_in in
  let energy := u32 en in
  if negb (energy =? 0) then
    let normalizing_rshifts := 17 - NormU32 energy in
    let tot_rshifts := tot_rshifts + normalizing_rshifts in
    let energy :=
      if normalizing_rshifts <? 0 then u32 (Z.shiftl energy (- normalizing_rshifts))
      else Z.shiftr energy normalizing_rshifts in
    let log2_energy := s16 (14336 + s16 (Z.shiftr (Z.land energy 16383) 4)) in
    let log_energy := s16 (Z.shiftr (24660 * log2_energy) 19 + Z.shiftr (tot_rshifts * 24660) 9) in
    let log_energy := if log_energy <? 0 then 0 else log_energy in
    let log_energy := s16 (log_energy + offset) in
    let total_energy :=
      if total_energy <=? kMinEnergy then
        if 0 <=? tot_rshifts then s16 (total_energy + (kMinEnergy + 1))
        else s16 (total_energy + s16 (Z.shiftr energy (- tot_rshifts)))
      else total_energy in
    (total_energy, log_energy)
  else (total_energy, offset).

(** A split with the states of band [b]. *)
Definition split_band (b : nat) (data_in : list Z) (self : VadInst) : option (list Z * list Z * VadInst) :=
  u ← upper_state self !! b; l ← lower_state self !! b;
  let '(hp, lp, u, l) := SplitFilter data_in u l in
  Some (hp, lp, self <| upper_state := <[b := u]> (upper_state self) |>
                     <| lower_state := <[b := l]> (lower_state self) |>).

(** [WebRtcVad_CalculateFeatures]: the total energy and the six features. *)
Definition CalculateFeatures (data_in : list Z) (self : VadInst) : option (Z * list Z * VadInst) :=
  '(hp_120, lp_120, self) ← split_band 0 data_in self;
  '(hp_60, lp_60, self) ← split_band 1 hp_120 self;
  let '(total_energy, f5) := LogOfEnergy hp_60 176 0 in
  let '(total_energy, f4) := LogOfEnergy lp_60 176 total_energy in
  '(hp_60, lp_60, self) ← split_band 2 lp_120 self;
  let '(total_energy, f3) := LogOfEnergy hp_60 176 total_energy in
  '(hp_120, lp_120, self) ← split_band 3 lp_60 self;
  let '(total_energy, f2) := LogOfEnergy hp_120 272 total_energy in
  '(hp_60, lp_60, self) ← split_band 4 lp_120 self;
  let '(total_energy, f1) := LogOfEnergy hp_60 368 total_energy in
  '(hp_120, hp_state) ← HighPassFilter lp_60 (hp_filter_state self);
  let self := self <| hp_filter_state := hp_state |> in
  let '(total_energy, f0) := LogOfEnergy hp_120 368 total_energy in
  Some (total_energy, [f0; f1; f2; f3; f4; f5], self).

(** ** vad_sp.c *)

(** One output sample of [WebRtcVad_Downsampling] from two input samples. *)
Fixpoint Downsampling (signal_in : list Z) (tmp32_1 tmp32_2 : Z) : list Z * Z * Z :=
  match signal_in with
  | x :: y :: signal_in' =>
      let tmp16_1 := s16 (Z.shiftr tmp32_1 1 + Z.shiftr (5243 * x) 14) in
      let tmp32_1 := s32 (x - Z.shiftr (5243 * tmp16_1) 12) in
      let tmp16_2 := s16 (Z.shiftr tmp32_2 1 + Z.shiftr (1392 * y) 14) in
      let tmp32_2 := s32 (y - Z.shiftr (1392 * tmp16_2) 12) in
      let '(out, a, b) := Downsampling signal_in' tmp32_1 tmp32_2 in
      (s16 (tmp16_1 + tmp16_2) :: out, a, b)
  | _ => ([], tmp32_1, tmp32_2)
  end.

(** The 16 entries of [channel] start at [16 channel]; element 16 of the last
    channel is behind the array, [beyond] is what is there. *)
Section find_minimum.
Context (beyond : Z).

Definition rd (l : list Z) (i : nat) : Z := default beyond (l !! i).

(** The inner loop: entries [j], [j+1], ... 15 are moved down by one. *)
Fixpoint move_down (n j : nat) (l : list Z) : list Z :=
  match n with O => l | S n' => move_down n' (S j) (<[j := rd l (S j)]> l) end.

(** The aging loop over [i]; [age] and [smallest_values] start at [o]. *)
Fixpoint age_loop (o n i : nat) (age sv : list Z) : list Z * list Z :=
  match n with
  | O => (age, sv)
  | S n' =>
      if negb (rd age (o + i) =? 100) then age_loop o n' (S i) (<[(o + i)%nat := s16 (rd age (o + i) + 1)]> age) sv
      else
        let sv := move_down (16 - i) (o + i) sv in
        let age := move_down (16 - i) (o + i) age in
        age_loop o n' (S i) (<[(o + 15)%nat := 101]> age) (<[(o + 15)%nat := 10000]> sv)
  end.

(** The decision tree on [smallest_values]. *)
Definition find_position (sv : list Z) (o : nat) (feature_value : Z) : option nat :=
  let lt := λ i : nat, feature_value <? rd sv (o + i) in
  if lt 7%nat then
    if lt 3%nat then
      if lt 1%nat then if lt 0%nat then Some 0%nat else Some 1%nat
      else if lt 2%nat then Some 2%nat else Some 3%nat
    else if lt 5%nat then if lt 4%nat then Some 4%nat else Some 5%nat
    else if lt 6%nat then Some 6%nat else Some 7%nat
  else if lt 15%nat then
    if lt 11%nat then
      if lt 9%nat then if lt 8%nat then Some 8%nat else Some 9%nat
      else if lt 10%nat then Some 10%nat else Some 11%nat
    else if lt 13%nat then if lt 12%nat then Some 12%nat else Some 13%nat
    else if lt 14%nat then Some 14%nat else Some 15%nat
  else None.

(** [for (i = 15; i > position; i--)] moves the entries up by one. *)
Fixpoint move_up (n i : nat) (l : list Z) : list Z :=
  match n with O => l | S n' => move_up n' (pred i) (<[i := rd l (pred i)]> l) end.

Definition insert_at (o position : nat) (v : Z) (l : list Z) : list Z :=
  <[(o + position)%nat := v]> (move_up (15 - position) (o + 15) l).

Definition FindMinimum (feature_value : Z) (channel : nat) (self : VadInst) : option (Z * VadInst) :=
  let offset := (16 * channel)%nat in
  let '(age, sv) := age_loop offset 16 0 (index_vector self) (low_value_vector self) in
  let '(age, sv) :=
    match find_position sv offset feature_value with
    | Some position => (insert_at offset position 1 age, insert_at offset position feature_value sv)
    | None => (age, sv)
    end in
  let current_median :=
    if 2 <? frame_counter self then rd sv (offset + 2)
    else if 0 <? frame_counter self then rd sv offset else 1600 in
  m ← mean_value self !! channel;
  let alpha :=
    if 0 <? frame_counter self then if current_median <? m then 6553 else 32439 else 0 in
  let tmp32 := s32 ((alpha + 1) * m) in
  let tmp32 := s32 (tmp32 + s32 ((32767 - alpha) * current_median)) in
  let tmp32 := s32 (tmp32 + 16384) in
  let m := s16 (Z.shiftr tmp32 15) in
  Some (m, self <| index_vector := age |> <| low_value_vector := sv |>
                <| mean_value := <[channel := m]> (mean_value self) |>).
End find_minimum.

(** ** vad_core.c *)

Definition kSpectrumWeight : list Z := [6; 8; 10; 12; 14; 16].
Definition kMinimumDifference : list Z := [544; 544; 576; 576; 576; 576].
Definition kMaximumSpeech : list Z := [11392; 11392; 11520; 11520; 11520; 11520].
Definition kMinimumMean : list Z := [640; 768].
Definition kMaximumNoise : list Z := [9216; 9088; 8960; 8832; 8704; 8576].
Definition kNoiseDataWeights : list Z := [34; 62; 72; 66; 53; 25; 94; 66; 56; 62; 75; 103].
Definition kSpeechDataWeights : list Z := [48; 82; 45; 87; 50; 47; 80; 46; 83; 41; 78; 81].
Definition kNoiseDataMeans : list Z := [6738; 4892; 7065; 6715; 6771; 3369; 7646; 3863; 7820; 7266; 5020; 4362].
Definition kSpeechDataMeans : list Z := [8306; 10085; 10078; 11823; 11843; 6309; 9473; 9571; 10879; 7581; 8180; 7483].
Definition kNoiseDataStds : list Z := [378; 1064; 493; 582; 688; 593; 474; 697; 475; 688; 421; 455].
Definition kSpeechDataStds : list Z := [555; 505; 567; 524; 585; 1231; 509; 828; 492; 1540; 1079; 850].
Definition kMaxSpeechFrames : Z := 6.
Definition kMinStd : Z := 384.

(** [WeightedAverage(&data[channel], offset, &weights[channel])]: the average
    and the updated array. *)
Definition WeightedAverage (data : list Z) (channel : nat) (offset : Z) (weights : list Z) : option (Z * list Z) :=
  d0 ← data !! channel; w0 ← weights !! channel;
  let d0 := s16 (d0 + offset) in
  let data := <[channel := d0]> data in
  let weighted_average := s32 (0 + s32 (d0 * w0)) in
  d1 ← data !! (channel + kNumChannels)%nat; w1 ← weights !! (channel + kNumChannels)%nat;
  let d1 := s16 (d1 + offset) in
  let data := <[(channel + kNumChannels)%nat := d1]> data in
  Some (s32 (weighted_average + s32 (d1 * w1)), data).

(** What the first loop computes for one channel and the second one uses. *)
Record likelihood := {
  deltaN : Z * Z; deltaS : Z * Z;        (* of the two Gaussians *)
  ngprvec : Z * Z; sgprvec : Z * Z;      (* conditional probabilities, Q14 *)
  log_likelihood_ratio : Z;
}.

(** The probabilities of the two Gaussians of [channel] of one model, their
    sum [h_test], and the two deltas. *)
Definition model_probability (feature : Z) (channel : nat) (means stds weights : list Z) :
    option (Z * Z * Z * (Z * Z)) :=
  let g1 := (channel + kNumChannels)%nat in
  m0 ← means !! channel; v0 ← stds !! channel; w0 ← weights !! channel;
  let '(p0, delta0) := GaussianProbability feature m0 v0 in
  let probability0 := s32 (w0 * p0) in
  m1 ← means !! g1; v1 ← stds !! g1; w1 ← weights !! g1;
  let '(p1, delta1) := GaussianProbability feature m1 v1 in
  let probability1 := s32 (w1 * p1) in
  Some (s32 (s32 (0 + probability0) + probability1), probability0, probability1, (delta0, delta1)).

(** The conditional probabilities of the two Gaussians, [first] the one of the
    first Gaussian when the model is improbable. *)
Definition conditional (h_test probability0 first : Z) : Z * Z :=
  let h := s16 (Z.shiftr h_test 12) in
  if 0 <? h then
    let tmp1_s32 := s32 (u32 (Z.shiftl (Z.land (u32 probability0) 4294963200) 2)) in
    let g := s16 (DivW32W16 tmp1_s32 h) in
    (g, s16 (16384 - g))
  else (first, 0).

(** The first loop's body. *)
Definition channel_likelihood (self : VadInst) (feature : Z) (channel : nat) : option likelihood :=
  '(h0_test, n0, _, dN) ← model_probability feature channel (noise_means self) (noise_stds self) kNoiseDataWeights;
  '(h1_test, s0, _, dS) ← model_probability feature channel (speech_means self) (speech_stds self) kSpeechDataWeights;
  let shifts_h0 := if h0_test =? 0 then 31 else NormW32 h0_test in
  let shifts_h1 := if h1_test =? 0 then 31 else NormW32 h1_test in
  Some {| deltaN := dN; deltaS := dS;
          ngprvec := conditional h0_test n0 16384; sgprvec := conditional h1_test s0 0;
          log_likelihood_ratio := s16 (shifts_h0 - shifts_h1) |}.

(** The first loop: the likelihoods, [sum_log_likelihood_ratios], [vadflag]. *)
Fixpoint likelihood_loop (self : VadInst) (individualTest : Z) (features weights : list Z) (channel : nat)
    (sum : Z) (vadflag : bool) : option (list likelihood * Z * bool) :=
  match features, weights with
  | feature :: features', w :: weights' =>
      l ← channel_likelihood self feature channel;
      let sum := s32 (sum + log_likelihood_ratio l * w) in
      let vadflag := if individualTest <? log_likelihood_ratio l * 4 then true else vadflag in
      '(ls, sum, vadflag) ← likelihood_loop self individualTest features' weights' (S channel) sum vadflag;
      Some (l :: ls, sum, vadflag)
  | _, _ => Some ([], sum, vadflag)
  end.

(** The mean of the noise model, updated and limited. *)
Definition update_noise_mean (vadflag : bool) (nmk ngpr dN feature_minimum tmp1_s16 : Z) (k channel : Z) : Z :=
  let nmk2 :=
    if negb vadflag then
      let delt := s16 (Z.shiftr (ngpr * dN) 11) in
      s16 (nmk + s16 (Z.shiftr (delt * 655) 22))
    else nmk in
  let ndelt := s16 (Z.shiftl feature_minimum 4 - tmp1_s16) in
  let nmk3 := s16 (nmk2 + s16 (Z.shiftr (ndelt * 154) 9)) in
  let tmp_s16 := s16 (Z.shiftl (k + 5) 7) in
  let nmk3 := if nmk3 <? tmp_s16 then tmp_s16 else nmk3 in
  let tmp_s16 := s16 (Z.shiftl (72 + k - channel) 7) in
  if tmp_s16 <? nmk3 then tmp_s16 else nmk3.

Definition update_speech_mean (smk sgpr dS maxspe minimum_mean : Z) : Z :=
  let delt := s16 (Z.shiftr (sgpr * dS) 11) in
  let tmp_s16 := s16 (Z.shiftr (delt * 6554) 21) in
  let smk2 := s16 (smk + Z.shiftr (tmp_s16 + 1) 1) in
  let maxmu := s16 (maxspe + 640) in
  let smk2 := if smk2 <? minimum_mean then minimum_mean else smk2 in
  if maxmu <? smk2 then maxmu else smk2.

(** A signed division by way of magnitudes. *)
Definition signed_div (num den : Z) : Z :=
  if 0 <? num then s16 (DivW32W16 num den) else s16 (- s16 (DivW32W16 (s32 (- num)) den)).

Definition update_speech_std (feature smk ssk sgpr dS : Z) : Z :=
  let tmp_s16 := s16 (Z.shiftr (smk + 4) 3) in
  let tmp_s16 := s16 (feature - tmp_s16) in
  let tmp1_s32 := Z.shiftr (dS * tmp_s16) 3 in
  let tmp2_s32 := s32 (tmp1_s32 - 4096) in
  let tmp_s16 := s16 (Z.shiftr sgpr 2) in
  let tmp1_s32 := s32 (tmp_s16 * tmp2_s32) in
  let tmp2_s32 := Z.shiftr tmp1_s32 4 in
  let tmp_s16 := signed_div tmp2_s32 (s16 (ssk * 10)) in
  let tmp_s16 := s16 (tmp_s16 + 128) in
  let ssk := s16 (ssk + Z.shiftr tmp_s16 8) in
  if ssk <? kMinStd then kMinStd else ssk.

Definition update_noise_std (feature nmk nsk ngpr dN : Z) : Z :=
  let tmp_s16 := s16 (feature - Z.shiftr nmk 3) in
  let tmp1_s32 := Z.shiftr (dN * tmp_s16) 3 in
  let tmp1_s32 := s32 (tmp1_s32 - 4096) in
  let tmp_s16 := s16 (Z.shiftr (ngpr + 2) 2) in
  let tmp2_s32 := s32 (tmp_s16 * tmp1_s32) in
  let tmp1_s32 := Z.shiftr tmp2_s32 14 in
  let tmp_s16 := signed_div tmp1_s32 nsk in
  let tmp_s16 := s16 (tmp_s16 + 32) in
  let nsk := s16 (nsk + Z.shiftr tmp_s16 6) in
  if nsk <? kMinStd then kMinStd else nsk.

(** The body of the loop over [k]: the Gaussian [channel + k kNumChannels]. *)
Definition update_gaussian (vadflag : bool) (feature feature_minimum tmp1_s16 maxspe : Z) (channel k : nat)
    (ngpr dN sgpr dS : Z) (self : VadInst) : option VadInst :=
  let gaussian := (channel + k * kNumChannels)%nat in
  nmk ← noise_means self !! gaussian; smk ← speech_means self !! gaussian;
  nsk ← noise_stds self !! gaussian; ssk ← speech_stds self !! gaussian;
  let nmk3 := update_noise_mean vadflag nmk ngpr dN feature_minimum tmp1_s16 (Z.of_nat k) (Z.of_nat channel) in
  let self := self <| noise_means := <[gaussian := nmk3]> (noise_means self) |> in
  if vadflag then
    minimum_mean ← kMinimumMean !! k;
    let smk2 := update_speech_mean smk sgpr dS maxspe minimum_mean in
    Some (self <| speech_means := <[gaussian := smk2]> (speech_means self) |>
               <| speech_stds := <[gaussian := update_speech_std feature smk ssk sgpr dS]> (speech_stds self) |>)
  else
    Some (self <| noise_stds := <[gaussian := update_noise_std feature nmk nsk ngpr dN]> (noise_stds self) |>).

(** Both Gaussians' means moved down by [d]: the drift limits. *)
Definition lower_means (channel : nat) (d : Z) (means : list Z) : option (list Z) :=
  m0 ← means !! channel;
  let means := <[channel := s16 (m0 - d)]> means in
  m1 ← means !! (channel + kNumChannels)%nat;
  Some (<[(channel + kNumChannels)%nat := s16 (m1 - d)]> means).

(** The second loop's body after the loop over [k]; the new [maxspe]. *)
Definition separate_models (channel : nat) (self : VadInst) : option (VadInst * Z) :=
  '(noise_global_mean, nm) ← WeightedAverage (noise_means self) channel 0 kNoiseDataWeights;
  '(speech_global_mean, sm) ← WeightedAverage (speech_means self) channel 0 kSpeechDataWeights;
  minimum_difference ← kMinimumDifference !! channel;
  let diff := s16 (s16 (Z.shiftr speech_global_mean 9) - s16 (Z.shiftr noise_global_mean 9)) in
  '(noise_global_mean, nm, speech_global_mean, sm) ←
    (if diff <? minimum_difference then
       let tmp_s16 := s16 (minimum_difference - diff) in
       let tmp1_s16 := s16 (Z.shiftr (13 * tmp_s16) 2) in
       let tmp2_s16 := s16 (Z.shiftr (3 * tmp_s16) 2) in
       '(speech_global_mean, sm) ← WeightedAverage sm channel tmp1_s16 kSpeechDataWeights;
       '(noise_global_mean, nm) ← WeightedAverage nm channel (s16 (- tmp2_s16)) kNoiseDataWeights;
       Some (noise_global_mean, nm, speech_global_mean, sm)
     else Some (noise_global_mean, nm, speech_global_mean, sm));
  maxspe ← kMaximumSpeech !! channel;
  let tmp2_s16 := s16 (Z.shiftr speech_global_mean 7) in
  sm ← (if maxspe <? tmp2_s16 then lower_means channel (s16 (tmp2_s16 - maxspe)) sm else Some sm);
  maximum_noise ← kMaximumNoise !! channel;
  let tmp2_s16 := s16 (Z.shiftr noise_global_mean 7) in
  nm ← (if maximum_noise <? tmp2_s16 then lower_means channel (s16 (tmp2_s16 - maximum_noise)) nm else Some nm);
  Some (self <| noise_means := nm |> <| speech_means := sm |>, maxspe).

Definition update_channel (beyond : Z) (vadflag : bool) (feature : Z) (l : likelihood) (channel : nat) (maxspe : Z)
    (self : VadInst) : option (VadInst * Z) :=
  '(feature_minimum, self) ← FindMinimum beyond feature channel self;
  '(noise_global_mean, nm) ← WeightedAverage (noise_means self) channel 0 kNoiseDataWeights;
  let self := self <| noise_means := nm |> in
  let tmp1_s16 := s16 (Z.shiftr noise_global_mean 6) in
  self ← update_gaussian vadflag feature feature_minimum tmp1_s16 maxspe channel 0
           (ngprvec l).1 (deltaN l).1 (sgprvec l).1 (deltaS l).1 self;
  self ← update_gaussian vadflag feature feature_minimum tmp1_s16 maxspe channel 1
           (ngprvec l).2 (deltaN l).2 (sgprvec l).2 (deltaS l).2 self;
  separate_models channel self.

Fixpoint update_loop (beyond : Z) (vadflag : bool) (features : list Z) (ls : list likelihood) (channel : nat)
    (maxspe : Z) (self : VadInst) : option VadInst :=
  match features, ls with
  | feature :: features', l :: ls' =>
      '(self, maxspe) ← update_channel beyond vadflag feature l channel maxspe self;
      update_loop beyond vadflag features' ls' (S channel) maxspe self
  | _, _ => Some self
  end.

(** "Smooth with respect to transition hysteresis": the end of
    [GmmProbability]. *)
Definition smooth (vadflag : bool) (overhead1 overhead2 : Z) (self : VadInst) : Z * VadInst :=
  if negb vadflag then
    let '(flag, self) :=
      if 0 <? over_hang self then
        (s16 (2 + over_hang self), self <| over_hang := s16 (over_hang self - 1) |>)
      else (0, self) in
    (flag, self <| num_of_speech := 0 |>)
  else
    let self := self <| num_of_speech := s16 (num_of_speech self + 1) |> in
    if kMaxSpeechFrames <? num_of_speech self then
      (1, self <| num_of_speech := kMaxSpeechFrames |> <| over_hang := overhead2 |>)
    else (1, self <| over_hang := overhead1 |>).

(** The index of the thresholds for a frame length. *)
Definition threshold_index (frame_length : Z) : nat :=
  if frame_length =? 80 then 0%nat else if frame_length =? 160 then 1%nat else 2%nat.

Definition GmmProbability (beyond : Z) (features : list Z) (total_power frame_length : Z) (self : VadInst) :
    option (Z * VadInst) :=
  let i := threshold_index frame_length in
  overhead1 ← over_hang_max_1 self !! i; overhead2 ← over_hang_max_2 self !! i;
  individualTest ← individual self !! i; totalTest ← total self !! i;
  '(vadflag, self) ←
    (if kMinEnergy <? total_power then
       '(ls, sum_log_likelihood_ratios, vadflag) ←
          likelihood_loop self individualTest features kSpectrumWeight 0 0 false;
       let vadflag := vadflag || (totalTest <=? sum_log_likelihood_ratios) in
       self ← update_loop beyond vadflag features ls 0 12800 self;
       Some (vadflag, self <| frame_counter := s32 (frame_counter self + 1) |>)
     else Some (false, self));
  Some (smooth vadflag overhead1 overhead2 self).

Definition set_thresholds (o1 o2 l t : list Z) (self : VadInst) : VadInst :=
  self <| over_hang_max_1 := o1 |> <| over_hang_max_2 := o2 |> <| individual := l |> <| total := t |>.

Definition set_mode_core (mode : Z) (self : VadInst) : Z * VadInst :=
  if mode =? 0 then (0, set_thresholds [8; 4; 3] [14; 7; 5] [24; 21; 24] [57; 48; 57] self)
  else if mode =? 1 then (0, set_thresholds [8; 4; 3] [14; 7; 5] [37; 32; 37] [100; 80; 100] self)
  else if mode =? 2 then (0, set_thresholds [6; 3; 2] [9; 5; 3] [82; 78; 82] [285; 260; 285] self)
  else if mode =? 3 then (0, set_thresholds [6; 3; 2] [9; 5; 3] [94; 94; 94] [1100; 1050; 1100] self)
  else (-1, self).

Definition kDefaultMode : Z := 0.
Definition kInitCheck : Z := 42.

(** [None]: the null pointer. *)
Definition InitCore (self : option VadInst) : Z * option VadInst :=
  match self with
  | None => (-1, None)
  | Some self =>
      let self := self <| vad := 1 |> <| frame_counter := 0 |> <| over_hang := 0 |> <| num_of_speech := 0 |>
        <| downsampling_filter_states := replicate 4 0 |> <| state_48_to_8 := ResetResample48khzTo8khz |>
        <| noise_means := kNoiseDataMeans |> <| speech_means := kSpeechDataMeans |>
        <| noise_stds := kNoiseDataStds |> <| speech_stds := kSpeechDataStds |>
        <| low_value_vector := replicate 96 10000 |> <| index_vector := replicate 96 0 |>
        <| upper_state := replicate 5 0 |> <| lower_state := replicate 5 0 |>
        <| hp_filter_state := replicate 4 0 |> <| mean_value := replicate 6 1600 |> in
      let '(r, self) := set_mode_core kDefaultMode self in
      if negb (r =? 0) then (-1, Some self) else (0, Some (self <| init_flag := kInitCheck |>))
  end.

(** ** The frame rates *)

Definition CalcVad8khz (beyond : Z) (speech_frame : list Z) (frame_length : Z) (self : VadInst) :
    option (Z * VadInst) :=
  '(total_power, feature_vector, self) ← CalculateFeatures (take (Z.to_nat frame_length) speech_frame) self;
  '(v, self) ← GmmProbability beyond feature_vector total_power frame_length self;
  Some (v, self <| vad := v |>).

(** [WebRtcVad_Downsampling] with the two states at [filter_state + p]. *)
Definition downsample_at (p : nat) (signal_in : list Z) (self : VadInst) : option (list Z * VadInst) :=
  let fs := downsampling_filter_states self in
  a ← fs !! p; b ← fs !! S p;
  let '(out, a, b) := Downsampling signal_in a b in
  Some (out, self <| downsampling_filter_states := <[S p := b]> (<[p := a]> fs) |>).

Definition CalcVad16khz (beyond : Z) (speech_frame : list Z) (frame_length : Z) (self : VadInst) :
    option (Z * VadInst) :=
  '(speechNB, self) ← downsample_at 0 speech_frame self;
  CalcVad8khz beyond speechNB (frame_length / 2) self.

Definition CalcVad32khz (beyond : Z) (speech_frame : list Z) (frame_length : Z) (self : VadInst) :
    option (Z * VadInst) :=
  '(speechWB, self) ← downsample_at 2 speech_frame self;
  '(speechNB, self) ← downsample_at 0 (take (Z.to_nat (frame_length / 2)) speechWB) self;
  CalcVad8khz beyond speechNB (frame_length / 2 / 2) self.

(** The loop over the 10 ms blocks: [speech_frame] does not move. *)
Fixpoint resample_48_to_8 (n i : nat) (speech_frame speech_nb : list Z) (self : VadInst) :
    option (list Z * VadInst) :=
  match n with
  | O => Some (speech_nb, self)
  | S n' =>
      '(out, st) ← Resample48khzTo8khz speech_frame (state_48_to_8 self) (replicate 736 0);
      speech_nb ← store speech_nb (i * 80) out;
      resample_48_to_8 n' (S i) speech_frame speech_nb (self <| state_48_to_8 := st |>)
  end.

(** [tmp_mem] is all zeros for the first block; what a block leaves in it is
    not seen by the next one.  [speech_nb] is not initialised: [garbage]. *)
Definition CalcVad48khz (beyond : Z) (garbage speech_frame : list Z) (frame_length : Z) (self : VadInst) :
    option (Z * VadInst) :=
  let num_10ms_frames := frame_length / 480 in
  '(speech_nb, self) ← resample_48_to_8 (Z.to_nat num_10ms_frames) 0 speech_frame garbage self;
  CalcVad8khz beyond speech_nb (frame_length / 6) self.

(** ** webrtc_vad.c *)

Definition kValidRates : list Z := [8000; 16000; 32000; 48000].

Definition ValidRateAndFrameLength (rate frame_length : Z) : Z :=
  match find_index (λ r, r =? rate) kValidRates with
  | Some i =>
      let r := kValidRates !!! i in
      if existsb (λ valid_length_ms, frame_length =? u64 (Z.quot r 1000 * valid_length_ms)) [10; 20; 30] then 0
      else -1
  | None => -1
  end.

(** [WebRtcVad_Create]: the memory that [malloc] returns, not initialised. *)
Definition Create (fresh : VadInst) : VadInst := fresh <| init_flag := 0 |>.
Definition Init : option VadInst → Z * option VadInst := InitCore.

Definition set_mode (handle : option VadInst) (mode : Z) : Z * option VadInst :=
  match handle with
  | None => (-1, None)
  | Some self =>
      if negb (init_flag self =? kInitCheck) then (-1, Some self)
      else let '(r, self) := set_mode_core mode self in (r, Some self)
  end.

(** [audio_frame] is [None] for the null pointer, else the [frame_length]
    samples. *)
Definition Process (beyond : Z) (garbage : list Z) (handle : option VadInst) (fs : Z)
    (audio_frame : option (list Z)) (frame_length : Z) : option (Z * option VadInst) :=
  match handle with
  | None => Some (-1, None)
  | Some self =>
      if negb (init_flag self =? kInitCheck) then Some (-1, Some self)
      else match audio_frame with
      | None => Some (-1, Some self)
      | Some frame =>
          if negb (ValidRateAndFrameLength fs frame_length =? 0) then Some (-1, Some self)
          else
            '(v, self) ←
              (if fs =? 48000 then CalcVad48khz beyond garbage frame frame_length self
               else if fs =? 32000 then CalcVad32khz beyond frame frame_length self
               else if fs =? 16000 then CalcVad16khz beyond frame frame_length self
               else if fs =? 8000 then CalcVad8khz beyond frame frame_length self
               else Some (-1, self));
            Some (if 0 <? v then 1 else v, Some self)
      end
  end.

(** The smoothing over a sequence of frame decisions. *)
Fixpoint smooth_run (flags : list bool) (o1 o2 : Z) (self : VadInst) : list Z * VadInst :=
  match flags with
  | [] => ([], self)
  | f :: flags' =>
      let '(v, self) := smooth f o1 o2 self in
      let '(vs, self) := smooth_run flags' o1 o2 self in (v :: vs, self)
  end.

(** A sequence of calls with the sampling rate and the frame of each. *)
Fixpoint vad_calls (beyond : Z) (garbage : list Z) (calls : list (Z * list Z)) (handle : option VadInst) :
    option (list Z * option VadInst) :=
  match calls with
  | [] => Some ([], handle)
  | (fs, frame) :: calls' =>
      '(v, handle) ← Process beyond garbage handle fs (Some frame) (zlen frame);
      '(vs, handle) ← vad_calls beyond garbage calls' handle;
      Some (v :: vs, handle)
  end.
End Vad.

(* ================================================================== *)
(** ** The instance invariant *)

Section invariant.
Import Resample Vad.
Context (beyond : Z).

Record vad_wf (s : VadInst) : Prop := {
  wf_down : length (downsampling_filter_states s) = 4%nat;
  wf_48 : length (S_24_16 (state_48_to_8 s)) = 8%nat;
  wf_nm : length (noise_means s) = 12%nat;
  wf_sm : length (speech_means s) = 12%nat;
  wf_ns : length (noise_stds s) = 12%nat ∧ Forall (λ x, 378 ≤ x) (noise_stds s);
  wf_ss : length (speech_stds s) = 12%nat ∧ Forall (λ x, 378 ≤ x) (speech_stds s);
  wf_hang : 0 ≤ over_hang s ≤ 14;
  wf_num : 0 ≤ num_of_speech s ≤ 6;
  wf_age : length (index_vector s) = 96%nat;
  wf_low : length (low_value_vector s) = 96%nat;
  wf_mean : length (mean_value s) = 6%nat;
  wf_upper : length (upper_state s) = 5%nat;
  wf_lower : length (lower_state s) = 5%nat;
  wf_hp : length (hp_filter_state s) = 4%nat;
  wf_o1 : length (over_hang_max_1 s) = 3%nat ∧ Forall (λ x, 0 ≤ x ≤ 14) (over_hang_max_1 s);
  wf_o2 : length (over_hang_max_2 s) = 3%nat ∧ Forall (λ x, 0 ≤ x ≤ 14) (over_hang_max_2 s);
  wf_ind : length (individual s) = 3%nat;
  wf_tot : length (total s) = 3%nat;
}.

(** An operation that succeeds and keeps the invariant and the flag. *)
Definition keeps {A} (s : VadInst) (r : option (A * VadInst)) (Q : A → Prop) : Prop :=
  ∃ a s', r = Some (a, s') ∧ vad_wf s' ∧ init_flag s' = init_flag s ∧ Q a.

Lemma wf_lookup {A} (l : list A) n i : length l = n → (i < n)%nat → ∃ x, l !! i = Some x.
Proof. intros Hl Hi. apply lookup_lt_is_Some_2. lia. Qed.

(** Rebuild the invariant after an update of some fields. *)
Ltac rebuild H := destruct H; constructor; cbn; rewrite ?length_insert; try done.

(** *** vad_filterbank.c *)

Lemma split_band_keeps b xs s :
  vad_wf s → (b < 5)%nat → ∃ hp lp s', split_band b xs s = Some (hp, lp, s') ∧ vad_wf s' ∧ init_flag s' = init_flag s.
Proof.
  intros Hwf Hb. unfold split_band.
  destruct (wf_lookup (upper_state s) 5 b) as [u ->]; [apply Hwf|done|].
  destruct (wf_lookup (lower_state s) 5 b) as [l ->]; [apply Hwf|done|]. cbn [mbind option_bind].
  destruct (SplitFilter xs u l) as [[[hp lp] u'] l']. do 3 eexists. split; [done|]. split; [|done]. rebuild Hwf.
Qed.

Lemma HighPassFilter_total xs fs :
  length fs = 4%nat → ∃ out fs', HighPassFilter xs fs = Some (out, fs') ∧ length fs' = 4%nat.
Proof.
  intros Hl. destruct fs as [|a [|b [|c [|d [|? ?]]]]]; try done. cbn.
  destruct (high_pass_run xs (a, b, c, d)) as [out [[[a' b'] c'] d']]. by do 2 eexists.
Qed.

Lemma CalculateFeatures_keeps xs s :
  vad_wf s → ∃ p fv s', CalculateFeatures xs s = Some (p, fv, s') ∧ vad_wf s' ∧ init_flag s' = init_flag s ∧
    length fv = 6%nat.
Proof.
  intros Hwf. unfold CalculateFeatures.
  destruct (split_band_keeps 0 xs s Hwf) as (hp & lp & s1 & -> & H1 & F1); [lia|]. cbn [mbind option_bind].
  destruct (split_band_keeps 1 hp s1 H1) as (hp1 & lp1 & s2 & -> & H2 & F2); [lia|]. cbn [mbind option_bind].
  destruct (LogOfEnergy hp1 176 0) as [t5 f5]. destruct (LogOfEnergy lp1 176 t5) as [t4 f4].
  destruct (split_band_keeps 2 lp s2 H2) as (hp2 & lp2 & s3 & -> & H3 & F3); [lia|]. cbn [mbind option_bind].
  destruct (LogOfEnergy hp2 176 t4) as [t3 f3].
  destruct (split_band_keeps 3 lp2 s3 H3) as (hp3 & lp3 & s4 & -> & H4 & F4); [lia|]. cbn [mbind option_bind].
  destruct (LogOfEnergy hp3 272 t3) as [t2 f2].
  destruct (split_band_keeps 4 lp3 s4 H4) as (hp4 & lp4 & s5 & -> & H5 & F5); [lia|]. cbn [mbind option_bind].
  destruct (LogOfEnergy hp4 368 t2) as [t1 f1].
  destruct (HighPassFilter_total lp4 (hp_filter_state s5)) as (out & fs & -> & Hfs); [apply H5|]. cbn [mbind option_bind].
  destruct (LogOfEnergy out 368 t1) as [t0 f0]. do 3 eexists. split; [done|]. split; [rebuild H5|].
  split; [cbn; congruence|done].
Qed.

(** *** vad_sp.c *)

Lemma length_move_down n j l : length (move_down beyond n j l) = length l.
Proof. revert j l. induction n as [|n IH]; intros j l; cbn; [done|]. by rewrite IH, length_insert. Qed.
Lemma length_move_up n i l : length (move_up beyond n i l) = length l.
Proof. revert i l. induction n as [|n IH]; intros i l; cbn; [done|]. by rewrite IH, length_insert. Qed.
Lemma length_age_loop o n i age sv :
  length (age_loop beyond o n i age sv).1 = length age ∧ length (age_loop beyond o n i age sv).2 = length sv.
Proof.
  revert i age sv. induction n as [|n IH]; intros i age sv; cbn [age_loop]; [done|]. destruct (negb _).
  - destruct (IH (S i) (<[(o + i)%nat := s16 (rd beyond age (o + i) + 1)]> age) sv) as [-> ->].
    by rewrite length_insert.
  - destruct (IH (S i) (<[(o + 15)%nat := 101]> (move_down beyond (16 - i) (o + i) age))
                (<[(o + 15)%nat := 10000]> (move_down beyond (16 - i) (o + i) sv))) as [-> ->].
    by rewrite !length_insert, !length_move_down.
Qed.

Lemma FindMinimum_keeps f c s : vad_wf s → (c < 6)%nat → keeps s (FindMinimum beyond f c s) (λ _, True).
Proof.
  intros Hwf Hc. unfold FindMinimum, keeps.
  destruct (length_age_loop (16 * c) 16 0 (index_vector s) (low_value_vector s)) as [La Ls].
  destruct (age_loop beyond (16 * c) 16 0 (index_vector s) (low_value_vector s)) as [age sv]. cbn [fst snd] in La, Ls.
  set (p := match find_position _ _ _ _ with Some position => _ | None => _ end).
  assert (Hp : length p.1 = 96%nat ∧ length p.2 = 96%nat).
  { destruct Hwf. unfold p, insert_at. destruct (find_position _ _ _ _); cbn;
      rewrite ?length_insert, ?length_move_up; split; congruence. }
  destruct p as [age' sv']. cbn [fst snd] in Hp.
  destruct (wf_lookup (mean_value s) 6 c) as [m ->]; [apply Hwf|done|]. cbn [mbind option_bind].
  do 2 eexists. split; [done|]. split; [|done]. rebuild Hwf; apply Hp.
Qed.

(** *** vad_core.c *)

Lemma WeightedAverage_total data c off w :
  length data = 12%nat → length w = 12%nat → (c < 6)%nat →
  ∃ a data', WeightedAverage data c off w = Some (a, data') ∧ length data' = 12%nat.
Proof.
  intros Hd Hw Hc. unfold WeightedAverage, kNumChannels.
  destruct (wf_lookup data 12 c) as [d0 ->]; [done|lia|]. destruct (wf_lookup w 12 c) as [w0 ->]; [done|lia|].
  cbn [mbind option_bind]. set (data1 := <[c := _]> data).
  assert (Hd1 : length data1 = 12%nat) by (unfold data1; by rewrite length_insert).
  destruct (wf_lookup data1 12 (c + 6)) as [d1 ->]; [done|lia|].
  destruct (wf_lookup w 12 (c + 6)) as [w1 ->]; [done|lia|]. cbn. do 2 eexists. split; [done|]. by rewrite length_insert.
Qed.

Lemma model_probability_total f c means stds w :
  length means = 12%nat → length stds = 12%nat → length w = 12%nat → (c < 6)%nat →
  ∃ r, model_probability f c means stds w = Some r.
Proof.
  intros Hm Hs Hw Hc. unfold model_probability, kNumChannels.
  destruct (wf_lookup means 12 c) as [? ->]; [done|lia|]. destruct (wf_lookup stds 12 c) as [? ->]; [done|lia|].
  destruct (wf_lookup w 12 c) as [? ->]; [done|lia|]. cbn [mbind option_bind]. destruct (GaussianProbability _ _ _).
  destruct (wf_lookup means 12 (c + 6)) as [? ->]; [done|lia|].
  destruct (wf_lookup stds 12 (c + 6)) as [? ->]; [done|lia|].
  destruct (wf_lookup w 12 (c + 6)) as [? ->]; [done|lia|]. cbn [mbind option_bind]. destruct (GaussianProbability _ _ _).
  by eexists.
Qed.

Lemma channel_likelihood_total s f c : vad_wf s → (c < 6)%nat → ∃ l, channel_likelihood s f c = Some l.
Proof.
  intros Hwf Hc. unfold channel_likelihood. destruct Hwf.
  destruct (model_probability_total f c (noise_means s) (noise_stds s) kNoiseDataWeights) as [[[[h0 n0] n1] dN] ->];
    [tauto..|]. cbn [mbind option_bind].
  destruct (model_probability_total f c (speech_means s) (speech_stds s) kSpeechDataWeights) as [[[[h1 s0] s1] dS] ->];
    [tauto..|]. by eexists.
Qed.

Lemma likelihood_loop_total s it fs ws c sum v :
  vad_wf s → length fs = length ws → (c + length fs ≤ 6)%nat →
  ∃ ls sum' v', likelihood_loop s it fs ws c sum v = Some (ls, sum', v') ∧ length ls = length fs.
Proof.
  intros Hwf. revert ws c sum v. induction fs as [|f fs IH]; intros [|w ws] c sum v Hl Hc; try done; [by do 3 eexists|].
  cbn in *. destruct (channel_likelihood_total s f c Hwf) as [l ->]; [lia|]. cbn [mbind option_bind].
  edestruct (IH ws (S c)) as (ls & sum' & v' & -> & Hls); [lia|lia|]. cbn. do 3 eexists. split; [done|]. cbn. lia.
Qed.

Lemma update_gaussian_keeps v f fm t ms c k a b d e s :
  vad_wf s → (c < 6)%nat → (k < 2)%nat →
  ∃ s', update_gaussian v f fm t ms c k a b d e s = Some s' ∧ vad_wf s' ∧ init_flag s' = init_flag s.
Proof.
  intros Hwf Hc Hk. unfold update_gaussian, kNumChannels. set (g := (c + k * 6)%nat).
  assert (Hg : (g < 12)%nat) by (unfold g; nia).
  destruct (wf_lookup (noise_means s) 12 g) as [nm ->]; [apply Hwf|done|].
  destruct (wf_lookup (speech_means s) 12 g) as [sm ->]; [apply Hwf|done|].
  destruct (wf_lookup (noise_stds s) 12 g) as [ns ->]; [apply Hwf|done|].
  destruct (wf_lookup (speech_stds s) 12 g) as [ss ->]; [apply Hwf|done|]. cbn [mbind option_bind].
  destruct v.
  - destruct (wf_lookup kMinimumMean 2 k) as [mm ->]; [done|done|]. cbn [mbind option_bind].
    eexists. split; [done|]. split; [|done]. rebuild Hwf. destruct wf_ss0. split; [done|].
    apply Forall_insert; [done|]. unfold update_speech_std, kMinStd. cbv zeta. case_match eqn:E; [lia|].
    apply Z.ltb_ge in E. lia.
  - eexists. split; [done|]. split; [|done]. rebuild Hwf. destruct wf_ns0. split; [done|].
    apply Forall_insert; [done|]. unfold update_noise_std, kMinStd. cbv zeta. case_match eqn:E; [lia|].
    apply Z.ltb_ge in E. lia.
Qed.

Lemma lower_means_total c d means :
  length means = 12%nat → (c < 6)%nat → ∃ means', lower_means c d means = Some means' ∧ length means' = 12%nat.
Proof.
  intros Hm Hc. unfold lower_means, kNumChannels. destruct (wf_lookup means 12 c) as [m0 ->]; [done|lia|].
  cbn [mbind option_bind]. set (m1 := <[c := _]> means).
  assert (Hm1 : length m1 = 12%nat) by (unfold m1; by rewrite length_insert).
  destruct (wf_lookup m1 12 (c + 6)) as [x ->]; [done|lia|]. eexists. split; [done|]. by rewrite length_insert.
Qed.

Lemma separate_models_keeps c s :
  vad_wf s → (c < 6)%nat → ∃ s' ms, separate_models c s = Some (s', ms) ∧ vad_wf s' ∧ init_flag s' = init_flag s.
Proof.
  intros Hwf Hc. unfold separate_models.
  destruct (WeightedAverage_total (noise_means s) c 0 kNoiseDataWeights) as (na & nm & -> & Hn); [apply Hwf|done|done|].
  cbn [mbind option_bind].
  destruct (WeightedAverage_total (speech_means s) c 0 kSpeechDataWeights) as (sa & sm & -> & Hs); [apply Hwf|done|done|].
  cbn [mbind option_bind].
  destruct (wf_lookup kMinimumDifference 6 c) as [md ->]; [done|done|]. cbn [mbind option_bind]. cbv zeta.
  match goal with |- context [mbind _ (if ?b then ?x else ?y)] => set (r := if b then x else y) end.
  assert (Hr : ∃ na' nm' sa' sm', r = Some (na', nm', sa', sm') ∧ length nm' = 12%nat ∧ length sm' = 12%nat).
  { unfold r. case_match; [|by do 4 eexists].
    edestruct (WeightedAverage_total sm c) as (sa' & sm' & -> & Hs'); [exact Hs|done|done|]. cbn [mbind option_bind].
    edestruct (WeightedAverage_total nm c) as (na' & nm' & -> & Hn'); [exact Hn|done|done|]. by do 4 eexists. }
  destruct Hr as (na' & nm' & sa' & sm' & -> & Hn' & Hs'). cbn [mbind option_bind].
  destruct (wf_lookup kMaximumSpeech 6 c) as [ms ->]; [done|done|]. cbn [mbind option_bind].
  match goal with |- context [mbind _ (if ?b then ?x else ?y)] => set (r1 := if b then x else y) end.
  assert (Hr1 : ∃ sm2, r1 = Some sm2 ∧ length sm2 = 12%nat).
  { unfold r1. case_match; [by apply lower_means_total|by eexists]. }
  destruct Hr1 as (sm2 & -> & Hs2). cbn [mbind option_bind].
  destruct (wf_lookup kMaximumNoise 6 c) as [mn ->]; [done|done|]. cbn [mbind option_bind].
  match goal with |- context [mbind _ (if ?b then ?x else ?y)] => set (r2 := if b then x else y) end.
  assert (Hr2 : ∃ nm2, r2 = Some nm2 ∧ length nm2 = 12%nat).
  { unfold r2. case_match; [by apply lower_means_total|by eexists]. }
  destruct Hr2 as (nm2 & -> & Hn2). cbn [mbind option_bind].
  do 2 eexists. split; [done|]. split; [|done]. rebuild Hwf.
Qed.

Lemma update_channel_keeps v f l c ms s :
  vad_wf s → (c < 6)%nat →
  ∃ s' ms', update_channel beyond v f l c ms s = Some (s', ms') ∧ vad_wf s' ∧ init_flag s' = init_flag s.
Proof.
  intros Hwf Hc. unfold update_channel.
  destruct (FindMinimum_keeps f c s Hwf Hc) as (fm & s1 & -> & H1 & F1 & _). cbn [mbind option_bind].
  destruct (WeightedAverage_total (noise_means s1) c 0 kNoiseDataWeights) as (na & nm & -> & Hn); [apply H1|done|done|].
  cbn [mbind option_bind]. set (s2 := s1 <| noise_means := nm |>).
  assert (H2 : vad_wf s2) by (rebuild H1). assert (F2 : init_flag s2 = init_flag s1) by done.
  edestruct (update_gaussian_keeps v f fm (s16 (Z.shiftr na 6)) ms c 0) as (s3 & -> & H3 & F3); [exact H2|done|lia|].
  cbn [mbind option_bind].
  edestruct (update_gaussian_keeps v f fm (s16 (Z.shiftr na 6)) ms c 1) as (s4 & -> & H4 & F4); [exact H3|done|lia|].
  cbn [mbind option_bind].
  destruct (separate_models_keeps c s4 H4 Hc) as (s5 & ms' & -> & H5 & F5). do 2 eexists. split; [done|].
  split; [done|congruence].
Qed.

Lemma update_loop_keeps v fs ls c ms s :
  vad_wf s → (c + length fs ≤ 6)%nat →
  ∃ s', update_loop beyond v fs ls c ms s = Some s' ∧ vad_wf s' ∧ init_flag s' = init_flag s.
Proof.
  revert ls c ms s. induction fs as [|f fs IH]; intros [|l ls] c ms s Hwf Hc; try (by eexists). cbn in *.
  destruct (update_channel_keeps v f l c ms s Hwf) as (s1 & ms' & -> & H1 & F1); [lia|]. cbn [mbind option_bind].
  destruct (IH ls (S c) ms' s1 H1) as (s2 & -> & H2 & F2); [lia|]. eexists. split; [done|]. split; [done|congruence].
Qed.

Lemma smooth_keeps v o1 o2 s :
  vad_wf s → 0 ≤ o1 ≤ 14 → 0 ≤ o2 ≤ 14 →
  vad_wf (smooth v o1 o2 s).2 ∧ init_flag (smooth v o1 o2 s).2 = init_flag s ∧
  (0 ≤ (smooth v o1 o2 s).1 ≤ 16) ∧ (v = true → (smooth v o1 o2 s).1 = 1) ∧
  (v = false → (smooth v o1 o2 s).1 = if 0 <? over_hang s then 2 + over_hang s else 0).
Proof.
  intros Hwf H1 H2. pose proof (wf_hang s Hwf). pose proof (wf_num s Hwf). unfold smooth, kMaxSpeechFrames. destruct v; cbn [negb].
  - cbn [num_of_speech]. unfold updater; cbn. rewrite s16_small by lia.
    destruct (Z.ltb_spec 6 (num_of_speech s + 1)); cbn; (split; [rebuild Hwf; lia|]); (split; [done|]); split; try lia; done.
  - destruct (Z.ltb_spec 0 (over_hang s)); cbn; rewrite ?s16_small by lia; (split; [rebuild Hwf; lia|]);
      (split; [done|]); split; try lia; done.
Qed.

Lemma GmmProbability_keeps fs p n s :
  vad_wf s → length fs = 6%nat → keeps s (GmmProbability beyond fs p n s) (λ v, 0 ≤ v ≤ 16).
Proof.
  intros Hwf Hfs. unfold GmmProbability, keeps. set (i := threshold_index n).
  assert (Hi : (i < 3)%nat) by (unfold i, threshold_index; repeat case_match; lia).
  destruct (wf_o1 s Hwf) as [L1 R1]. destruct (wf_o2 s Hwf) as [L2 R2].
  destruct (wf_lookup (over_hang_max_1 s) 3 i) as [o1 E1]; [done|done|].
  destruct (wf_lookup (over_hang_max_2 s) 3 i) as [o2 E2]; [done|done|].
  destruct (wf_lookup (individual s) 3 i) as [it E3]; [apply Hwf|done|].
  destruct (wf_lookup (total s) 3 i) as [tt E4]; [apply Hwf|done|].
  rewrite E1, E2, E3, E4. cbn [mbind option_bind].
  pose proof (Forall_lookup_1 _ _ _ _ R1 E1) as B1. pose proof (Forall_lookup_1 _ _ _ _ R2 E2) as B2. cbn in B1, B2.
  match goal with |- context [mbind _ (if ?b then ?x else ?y)] => set (r := if b then x else y) end.
  assert (Hr : ∃ v s', r = Some (v, s') ∧ vad_wf s' ∧ init_flag s' = init_flag s).
  { unfold r. case_match; [|by do 2 eexists].
    destruct (likelihood_loop_total s it fs kSpectrumWeight 0 0 false Hwf) as (ls & sum & v & -> & Hls); [by rewrite Hfs|lia|].
    cbn [mbind option_bind]. destruct (update_loop_keeps (v || (tt <=? sum)) fs ls 0 12800 s Hwf) as (s' & -> & H' & F'); [lia|].
    cbn [mbind option_bind]. do 2 eexists. split; [done|]. split; [rebuild H'|done]. }
  destruct Hr as (v & s' & -> & H' & F'). cbn [mbind option_bind].
  destruct (smooth_keeps v o1 o2 s' H' B1 B2) as (H2 & F2 & Hv & _). destruct (smooth v o1 o2 s') as [x s2]. cbn [fst snd] in *.
  do 2 eexists. split; [done|]. split; [done|]. split; [congruence|done].
Qed.

Lemma CalcVad8khz_keeps xs n s : vad_wf s → keeps s (CalcVad8khz beyond xs n s) (λ v, 0 ≤ v ≤ 16).
Proof.
  intros Hwf. unfold CalcVad8khz, keeps.
  destruct (CalculateFeatures_keeps (take (Z.to_nat n) xs) s Hwf) as (p & fv & s1 & -> & H1 & F1 & L1). cbn [mbind option_bind].
  destruct (GmmProbability_keeps fv p n s1 H1 L1) as (v & s2 & -> & H2 & F2 & Hv). cbn [mbind option_bind].
  do 2 eexists. split; [done|]. split; [rebuild H2|]. split; [cbn; congruence|done].
Qed.

Lemma downsample_at_keeps p xs s :
  vad_wf s → (p + 1 < 4)%nat → keeps s (downsample_at p xs s) (λ _, True).
Proof.
  intros Hwf Hp. unfold downsample_at, keeps.
  destruct (wf_lookup (downsampling_filter_states s) 4 p) as [a ->]; [apply Hwf|lia|].
  destruct (wf_lookup (downsampling_filter_states s) 4 (S p)) as [b ->]; [apply Hwf|lia|]. cbn [mbind option_bind].
  destruct (Downsampling xs a b) as [[out a'] b']. do 2 eexists. split; [done|]. split; [|done]. rebuild Hwf.
Qed.

(** A converter call on the first 10 ms of a longer frame. *)
Lemma first_block_48_to_8 frame st mem :
  (480 ≤ length frame)%nat → length (S_24_16 st) = 8%nat → (496 ≤ length mem)%nat →
  produces 80 (λ st, length (S_24_16 st) = 8%nat) (Resample48khzTo8khz frame st mem).
Proof.
  intros Hf Hs Hm.
  assert (E : Resample48khzTo8khz frame st mem = Resample48khzTo8khz (take 480 frame) st mem).
  { unfold Resample48khzTo8khz. by rewrite take_take. }
  rewrite E. destruct (Resample48khzTo8khz_flow (take 480 frame) st mem) as [-> H]; [rewrite length_take; lia|done|done|done].
Qed.

Lemma resample_48_to_8_keeps n i frame nb s :
  vad_wf s → (480 ≤ length frame)%nat → length nb = 240%nat → (80 * (i + n) ≤ 240)%nat →
  keeps s (resample_48_to_8 n i frame nb s) (λ _, True).
Proof.
  intros Hwf Hf. revert i nb s Hwf. induction n as [|n IH]; intros i nb s Hwf Hnb Hi; [by do 2 eexists|].
  unfold keeps. cbn [resample_48_to_8].
  destruct (first_block_48_to_8 frame (state_48_to_8 s) (replicate 736 0)) as (out & st & -> & Lo & _ & Ls);
    [done|apply Hwf|rewrite length_replicate; lia|]. cbn [mbind option_bind].
  rewrite store_fits by lia. cbn [mbind option_bind].
  destruct (IH (S i) (overwrite nb (i * 80) out) (s <| state_48_to_8 := st |>)) as (x & s' & -> & H' & F' & _);
    [rebuild Hwf|rewrite length_overwrite; lia|lia|]. by do 2 eexists.
Qed.

(** The accepted rates with the lengths of 10, 20 and 30 ms. *)
Definition valid_pairs : list (Z * Z) :=
  [(8000, 80); (8000, 160); (8000, 240); (16000, 160); (16000, 320); (16000, 480);
   (32000, 320); (32000, 640); (32000, 960); (48000, 480); (48000, 960); (48000, 1440)].

Lemma ValidRate_cases fs n :
  ValidRateAndFrameLength fs n = 0 ∧ (fs, n) ∈ valid_pairs ∨ ValidRateAndFrameLength fs n = -1 ∧ (fs, n) ∉ valid_pairs.
Proof.
  unfold ValidRateAndFrameLength, kValidRates, valid_pairs. cbn [find_index].
  destruct (Z.eqb_spec 8000 fs) as [<-|?]; [|destruct (Z.eqb_spec 16000 fs) as [<-|?];
    [|destruct (Z.eqb_spec 32000 fs) as [<-|?]; [|destruct (Z.eqb_spec 48000 fs) as [<-|?]]]]; cbn;
    repeat match goal with |- context [n =? ?k] => change k with (ltac:(let v := eval vm_compute in k in exact v));
      destruct (Z.eqb_spec n (ltac:(let v := eval vm_compute in k in exact v))) as [->|?] end; cbn.
  all: rewrite !elem_of_cons, ?elem_of_nil; naive_solver.
Qed.

Lemma calc_keeps garbage fs frame n s :
  vad_wf s → length garbage = 240%nat → zlen frame = n → (fs, n) ∈ valid_pairs →
  keeps s (if fs =? 48000 then CalcVad48khz beyond garbage frame n s
           else if fs =? 32000 then CalcVad32khz beyond frame n s
           else if fs =? 16000 then CalcVad16khz beyond frame n s
           else if fs =? 8000 then CalcVad8khz beyond frame n s
           else Some (-1, s)) (λ v, 0 ≤ v ≤ 16).
Proof.
  intros Hwf Hg Hn Hin.
  destruct (Z.eqb_spec fs 48000) as [->|?]; [|destruct (Z.eqb_spec fs 32000) as [->|?];
    [|destruct (Z.eqb_spec fs 16000) as [->|?]; [|destruct (Z.eqb_spec fs 8000) as [->|?]]]].
  - assert (Hk : (480 ≤ length frame)%nat ∧ (80 * (0 + Z.to_nat (n / 480)) ≤ 240)%nat).
    { assert (Hn3 : n = 480 ∨ n = 960 ∨ n = 1440)
        by (unfold valid_pairs in Hin; rewrite !elem_of_cons, elem_of_nil in Hin; naive_solver).
      unfold zlen in Hn. destruct Hn3 as [->|[->| ->]]; (split; [lia|vm_compute; lia]). }
    destruct Hk as [Hf Hk]. unfold CalcVad48khz, keeps.
    destruct (resample_48_to_8_keeps _ 0 frame garbage s Hwf Hf Hg Hk) as (nb & s1 & -> & H1 & F1 & _). cbn [mbind option_bind].
    destruct (CalcVad8khz_keeps nb (n / 6) s1 H1) as (v & s2 & -> & H2 & F2 & Hv). do 2 eexists. split; [done|].
    split; [done|]. split; [congruence|done].
  - unfold CalcVad32khz, keeps.
    destruct (downsample_at_keeps 2 frame s Hwf) as (wb & s1 & -> & H1 & F1 & _); [lia|]. cbn [mbind option_bind].
    destruct (downsample_at_keeps 0 (take (Z.to_nat (n / 2)) wb) s1 H1) as (nb & s2 & -> & H2 & F2 & _); [lia|].
    cbn [mbind option_bind]. destruct (CalcVad8khz_keeps nb (n / 2 / 2) s2 H2) as (v & s3 & -> & H3 & F3 & Hv).
    do 2 eexists. split; [done|]. split; [done|]. split; [congruence|done].
  - unfold CalcVad16khz, keeps.
    destruct (downsample_at_keeps 0 frame s Hwf) as (nb & s2 & -> & H2 & F2 & _); [lia|].
    cbn [mbind option_bind]. destruct (CalcVad8khz_keeps nb (n / 2) s2 H2) as (v & s3 & -> & H3 & F3 & Hv).
    do 2 eexists. split; [done|]. split; [done|]. split; [congruence|done].
  - by apply CalcVad8khz_keeps.
  - exfalso. unfold valid_pairs in Hin. rewrite !elem_of_cons, elem_of_nil in Hin. naive_solver.
Qed.

Lemma InitCore_wf s : ∃ s', InitCore (Some s) = (0, Some s') ∧ vad_wf s' ∧ init_flag s' = kInitCheck.
Proof.
  eexists. split; [reflexivity|]. split; [|done].
  constructor; cbn; rewrite ?length_replicate; try done; try lia; (split; [done|]); repeat constructor; lia.
Qed.

End invariant.

(* ================================================================== *)
(** ** The hang-over *)

Section hangover.
Import Vad.

Lemma smooth_run_app l1 l2 o1 o2 s :
  smooth_run (l1 ++ l2) o1 o2 s =
    let '(a, s1) := smooth_run l1 o1 o2 s in let '(b, s2) := smooth_run l2 o1 o2 s1 in ((a ++ b)%list, s2).
Proof.
  revert s. induction l1 as [|f l1 IH]; intros s; cbn; [by destruct (smooth_run l2 o1 o2 s)|].
  destruct (smooth f o1 o2 s) as [v s0]. rewrite IH. destruct (smooth_run l1 o1 o2 s0) as [a s1].
  by destruct (smooth_run l2 o1 o2 s1).
Qed.

Lemma speech_run n o1 o2 s :
  0 ≤ num_of_speech s ≤ 6 →
  let k := num_of_speech s + Z.of_nat n in
  (smooth_run (replicate n true) o1 o2 s).1 = replicate n 1 ∧
  num_of_speech (smooth_run (replicate n true) o1 o2 s).2 = Z.min k 6 ∧
  over_hang (smooth_run (replicate n true) o1 o2 s).2
  = if decide (n = 0%nat) then over_hang s else if k <=? 6 then o1 else o2.
Proof.
  revert s. induction n as [|n IH]; intros s Hn; [cbn -[Z.min]; split_and!; [done|lia|done]|].
  cbn [replicate smooth_run]. unfold smooth. cbn [negb]. unfold updater, kMaxSpeechFrames; cbn -[Z.min Z.of_nat].
  rewrite s16_small by lia. set (s1 := if 6 <? num_of_speech s + 1 then _ else _).
  assert (H1 : s1.1 = 1 ∧ num_of_speech s1.2 = Z.min (num_of_speech s + 1) 6 ∧
               over_hang s1.2 = if num_of_speech s + 1 <=? 6 then o1 else o2).
  { unfold s1. destruct (Z.ltb_spec 6 (num_of_speech s + 1)), (Z.leb_spec (num_of_speech s + 1) 6); cbn -[Z.min];
      split_and!; try done; lia. }
  destruct s1 as [v s1]. cbn [fst snd] in H1. destruct H1 as (-> & Hn1 & Ho1).
  destruct (IH s1) as (Hv & Hk & Ho); [lia|]. destruct (smooth_run (replicate n true) o1 o2 s1) as [vs s2]. cbn [fst snd] in *.
  split; [by rewrite Hv|]. split; [lia|]. rewrite Ho, Ho1. rewrite (decide_False (P := S n = 0%nat)) by lia.
  destruct (decide (n = 0%nat)) as [->|].
  - destruct (Z.leb_spec (num_of_speech s + 1) 6), (Z.leb_spec (num_of_speech s + Z.of_nat 1) 6); try done; lia.
  - destruct (Z.leb_spec (num_of_speech s1 + Z.of_nat n) 6), (Z.leb_spec (num_of_speech s + Z.of_nat (S n)) 6);
      try done; lia.
Qed.

(** The answers in silence after a hang-over of [h]. *)
Definition hang_tail (h : Z) (m : nat) : list Z := (λ j, if Z.of_nat j <? h then 2 + h - Z.of_nat j else 0) <$> seq 0 m.

Lemma hang_tail_S h m :
  hang_tail h (S m) = (if 0 <? h then 2 + h else 0) :: hang_tail (Z.max 0 (h - 1)) m.
Proof.
  unfold hang_tail. cbn [seq]. rewrite <- (fmap_S_seq 0 m), fmap_cons. f_equal; [change (Z.of_nat 0) with 0; destruct (0 <? h); lia|].
  rewrite <- list_fmap_compose. apply list_fmap_ext. intros i j _. cbn -[Z.of_nat Z.max].
  destruct (Z.ltb_spec (Z.of_nat (S j)) h), (Z.ltb_spec (Z.of_nat j) (Z.max 0 (h - 1))); lia.
Qed.

Lemma smooth_silent o1 o2 s :
  0 ≤ over_hang s < 32000 →
  (smooth false o1 o2 s).1 = (if 0 <? over_hang s then 2 + over_hang s else 0) ∧
  over_hang (smooth false o1 o2 s).2 = Z.max 0 (over_hang s - 1).
Proof.
  intros Hh. unfold smooth. cbn [negb]. rewrite !s16_small by lia.
  destruct (Z.ltb_spec 0 (over_hang s)); cbn -[Z.max]; split; try done; lia.
Qed.

Lemma silence_run m o1 o2 s :
  0 ≤ over_hang s < 32000 → (smooth_run (replicate m false) o1 o2 s).1 = hang_tail (over_hang s) m.
Proof.
  revert s. induction m as [|m IH]; intros s Hh; [done|]. cbn [replicate smooth_run]. rewrite hang_tail_S.
  destruct (smooth_silent o1 o2 s Hh) as [Hv Ho]. destruct (smooth false o1 o2 s) as [v s1]. cbn [fst snd] in Hv, Ho.
  specialize (IH s1 ltac:(lia)). destruct (smooth_run (replicate m false) o1 o2 s1) as [vs s2]. cbn [fst] in *.
  by rewrite Hv, IH, Ho.
Qed.

(** The hang-over: after a frame of silence, [n] frames in a row that are
    decided to be speech answer 1, and the following silent frames stay
    active for exactly the first hang-over limit if there were at most six
    speech frames and the second limit if there were more, then answer 0; an
    active silent frame answers 2 plus the remaining hang-over, so with the
    limits of the quality mode the core answers values up to 16. *)
Theorem hangover_length (n m : nat) (o1 o2 : Z) (s : VadInst) :
  (0 < n)%nat → num_of_speech s = 0 → 0 ≤ o1 < 32000 → 0 ≤ o2 < 32000 →
  (smooth_run (replicate n true ++ replicate m false) o1 o2 s).1 =
    (replicate n 1 ++ hang_tail (if (n <=? 6)%nat then o1 else o2) m)%list.
Proof.
  intros Hn Hs H1 H2. rewrite smooth_run_app. destruct (speech_run n o1 o2 s) as (Hv & _ & Ho); [lia|].
  destruct (smooth_run (replicate n true) o1 o2 s) as [a s1]. cbn [fst snd] in Hv, Ho.
  rewrite decide_False, Hs in Ho by lia.
  assert (Hh : over_hang s1 = if (n <=? 6)%nat then o1 else o2).
  { rewrite Ho. destruct (Z.leb_spec (0 + Z.of_nat n) 6), (Nat.leb_spec n 6); try done; lia. }
  pose proof (silence_run m o1 o2 s1) as Hsil. destruct (smooth_run (replicate m false) o1 o2 s1) as [b s2].
  cbn [fst] in *. rewrite Hv, Hsil, Hh; [done|]. rewrite Hh. destruct (n <=? 6)%nat; lia.
Qed.
End hangover.

(* ================================================================== *)
(** ** The sorted minima *)

Section minima.
Import Vad.
Local Open Scope nat_scope.

(** The 16 entries from [o] on are non-decreasing and at most 10000, the value
    of an empty entry. *)
Definition ascending (o : nat) (l : list Z) : Prop :=
  ∀ i j x y, i ≤ j < 16 → l !! (o + i) = Some x → l !! (o + j) = Some y → (x ≤ y ≤ 10000)%Z.

Lemma rd_lt beyond l i x : l !! i = Some x → rd beyond l i = x.
Proof. intros H. unfold rd. by rewrite H. Qed.

(** Moving entries down: position [q] gets the element after it. *)
Lemma lookup_move_down beyond n j l q :
  j + n ≤ length l →
  move_down beyond n j l !! q =
    if bool_decide (j ≤ q < j + n) then Some (rd beyond l (S q)) else l !! q.
Proof.
  revert j l. induction n as [|n IH]; intros j l Hl; cbn [move_down].
  { by rewrite bool_decide_eq_false_2 by lia. }
  rewrite IH by (rewrite length_insert; lia). destruct (decide (q = j)) as [->|Hq].
  - rewrite bool_decide_eq_false_2, bool_decide_eq_true_2 by lia. by rewrite list_lookup_insert_eq by lia.
  - repeat case_bool_decide; try lia.
    + unfold rd. by rewrite list_lookup_insert_ne by lia.
    + by rewrite list_lookup_insert_ne by lia.
Qed.

Lemma lookup_move_up beyond n i l q :
  n ≤ i < length l →
  move_up beyond n i l !! q =
    if bool_decide (i - n < q ≤ i) then l !! (q - 1) else l !! q.
Proof.
  revert i l. induction n as [|n IH]; intros i l Hl; cbn [move_up].
  { by rewrite bool_decide_eq_false_2 by lia. }
  rewrite IH by (rewrite length_insert; lia).
  destruct (lookup_lt_is_Some_2 l (pred i)) as [x Hx]; [lia|]. rewrite (rd_lt _ _ _ _ Hx).
  destruct (decide (q = i)) as [->|Hq].
  - rewrite bool_decide_eq_false_2, bool_decide_eq_true_2 by lia. rewrite list_lookup_insert_eq by lia.
    rewrite <- Hx. f_equal. lia.
  - repeat case_bool_decide; try lia; by rewrite list_lookup_insert_ne by lia.
Qed.

(** One entry taken out and an empty one put in at the end. *)
Definition removed beyond o i (last : Z) l := <[o + 15 := last]> (move_down beyond (16 - i) (o + i) l).

Lemma lookup_removed beyond o i last l q :
  i < 16 → o + 16 ≤ length l →
  removed beyond o i last l !! q =
    if decide (q = o + 15) then Some last
    else if decide (o + i ≤ q < o + 15) then l !! (S q) else l !! q.
Proof.
  intros Hi Hl. unfold removed. destruct (decide (q = o + 15)) as [->|Hq].
  - by rewrite list_lookup_insert_eq by (rewrite length_move_down; lia).
  - rewrite list_lookup_insert_ne by done. rewrite lookup_move_down by lia.
    destruct (decide (o + i ≤ q < o + 15)).
    + rewrite bool_decide_eq_true_2 by lia. destruct (lookup_lt_is_Some_2 l (S q)) as [x Hx]; [lia|].
      by rewrite (rd_lt _ _ _ _ Hx), Hx.
    + by rewrite bool_decide_eq_false_2 by lia.
Qed.

Lemma removed_beyond b b' o i last l : i < 16 → o + 16 ≤ length l → removed b o i last l = removed b' o i last l.
Proof. intros Hi Hl. apply list_eq. intros q. by rewrite !lookup_removed. Qed.

Lemma removed_ascending b o i l :
  i < 16 → o + 16 ≤ length l → ascending o l → ascending o (removed b o i 10000 l).
Proof.
  intros Hi Hl Ha a c x y Hac. rewrite !lookup_removed by done.
  assert (Hs : ∀ n, l !! S (o + n) = l !! (o + S n)) by (intros; f_equal; lia). rewrite !Hs.
  repeat case_decide; intros Hx Hy; try injection Hx as <-; try injection Hy as <-; try lia;
    match goal with
       | Hx : l !! (o + ?a') = Some x, Hy : l !! (o + ?c') = Some y |- _ => apply (Ha a' c'); [lia|done..]
       | Hx : l !! (o + ?a') = Some x |- _ => pose proof (Ha a' a' x x ltac:(lia) Hx Hx); lia
       end.
Qed.

Lemma age_loop_spec b o n i age sv :
  i + n ≤ 16 → o + 16 ≤ length sv → length age = length sv → ascending o sv →
  ascending o (age_loop b o n i age sv).2 ∧
  (∀ q, q < o ∨ o + 16 ≤ q → (age_loop b o n i age sv).2 !! q = sv !! q) ∧
  (∀ b', age_loop b' o n i age sv = age_loop b o n i age sv).
Proof.
  revert i age sv. induction n as [|n IH]; intros i age sv Hi Hl Hal Ha; [done|]. cbn [age_loop].
  destruct (lookup_lt_is_Some_2 age (o + i)) as [x Hx]; [lia|].
  assert (E : ∀ b', rd b' age (o + i) = x) by (intros; by apply rd_lt). rewrite (E b).
  destruct (negb (x =? 100)%Z) eqn:Ex.
  - destruct (IH (S i) (<[o + i := s16 (x + 1)]> age) sv) as (H1 & H2 & H3); [lia|done|by rewrite length_insert|done|].
    split; [done|]. split; [done|]. intros b'. rewrite (E b'), Ex. apply H3.
  - fold (removed b o i 101 age) (removed b o i 10000 sv).
    assert (Lr : ∀ last l, length (removed b o i last l) = length l)
      by (intros; unfold removed; by rewrite length_insert, length_move_down).
    destruct (IH (S i) (removed b o i 101 age) (removed b o i 10000 sv)) as (H1 & H2 & H3);
      [lia|by rewrite Lr|by rewrite !Lr|apply removed_ascending; [lia|done..]|].
    split; [done|]. split.
    + intros q Hq. rewrite H2 by done. rewrite lookup_removed by lia. by rewrite !decide_False by lia.
    + intros b'. rewrite (E b'), Ex. fold (removed b' o i 101 age) (removed b' o i 10000 sv).
      rewrite (removed_beyond b' b o i 101), (removed_beyond b' b o i 10000) by lia. apply H3.
Qed.

(** The decision tree finds the first larger entry. *)
Lemma find_position_spec b o sv f :
  o + 16 ≤ length sv → ascending o sv →
  match find_position b sv o f with
  | Some p => p < 16 ∧ (∀ x, sv !! (o + p) = Some x → (f < x)%Z) ∧ (∀ a x, a < p → sv !! (o + a) = Some x → (x ≤ f)%Z)
  | None => ∀ a x, a < 16 → sv !! (o + a) = Some x → (x ≤ f)%Z
  end.
Proof.
  intros Hl Ha. unfold find_position.
  assert (Hrd : ∀ a, a < 16 → ∃ x, sv !! (o + a) = Some x ∧ rd b sv (o + a) = x).
  { intros a Ha'. destruct (lookup_lt_is_Some_2 sv (o + a)) as [x Hx]; [lia|]. exists x. split; [done|by apply rd_lt]. }
  assert (Hlt : ∀ p, p < 16 → (f <? rd b sv (o + p)%nat)%Z = true → (∀ x, sv !! (o + p) = Some x → (f < x)%Z)).
  { intros p Hp H x Hx. destruct (Hrd p Hp) as (y & Hy & E). rewrite E in H. apply Z.ltb_lt in H. congruence. }
  assert (Hge : ∀ p, p < 16 → (f <? rd b sv (o + p)%nat)%Z = false → ∀ a x, a < S p → sv !! (o + a) = Some x → (x ≤ f)%Z).
  { intros p Hp H a x Hap Hx. destruct (Hrd p Hp) as (y & Hy & E). rewrite E in H. apply Z.ltb_ge in H.
    pose proof (Ha a p x y ltac:(lia) Hx Hy). lia. }
  cbv zeta beta.
  repeat match goal with |- context [if (f <? ?y)%Z then _ else _] => destruct (f <? y)%Z eqn:? end;
    first [ split; [lia|]; split; [apply Hlt; [lia|assumption]|]; intros a x Ha' | intros a x Ha' ];
    first [ lia
          | match goal with H : (f <? rd b sv (o + ?k)%nat)%Z = false |- _ => apply (Hge k ltac:(lia) H a x); lia end ].
Qed.

Lemma lookup_insert_at b o p v l q :
  p < 16 → o + 16 ≤ length l →
  insert_at b o p v l !! q =
    if decide (q = o + p) then Some v
    else if decide (o + p < q < o + 16) then l !! (q - 1) else l !! q.
Proof.
  intros Hp Hl. unfold insert_at. destruct (decide (q = o + p)) as [->|Hq].
  - by rewrite list_lookup_insert_eq by (rewrite length_move_up; lia).
  - rewrite list_lookup_insert_ne by done. rewrite lookup_move_up by lia.
    destruct (decide (o + p < q < o + 16)); [by rewrite bool_decide_eq_true_2 by lia|].
    by rewrite bool_decide_eq_false_2 by lia.
Qed.

Lemma insert_at_beyond b b' o p v l : p < 16 → o + 16 ≤ length l → insert_at b o p v l = insert_at b' o p v l.
Proof. intros Hp Hl. apply list_eq. intros q. by rewrite !lookup_insert_at. Qed.

Lemma rd_any b b' l i : i < length l → rd b l i = rd b' l i.
Proof. intros [x Hx]%lookup_lt_is_Some_2. by rewrite !(rd_lt _ _ _ _ Hx). Qed.

Lemma find_position_beyond b b' o sv f : o + 16 ≤ length sv → find_position b sv o f = find_position b' sv o f.
Proof. intros Hl. unfold find_position. cbv zeta beta. by rewrite !(rd_any b b' sv) by lia. Qed.

Lemma insert_at_ascending b o p f l :
  p < 16 → o + 16 ≤ length l → ascending o l →
  (∀ x, l !! (o + p) = Some x → (f < x)%Z) → (∀ a x, a < p → l !! (o + a) = Some x → (x ≤ f)%Z) →
  ascending o (insert_at b o p f l).
Proof.
  intros Hp Hl Ha Hlt Hge a c x y Hac. rewrite !lookup_insert_at by done.
  destruct (lookup_lt_is_Some_2 l (o + p)) as [z Hz]; [lia|].
  pose proof (Hlt z Hz). pose proof (Ha p p z z ltac:(lia) Hz Hz).
  assert (Hs : ∀ n, 0 < n → l !! (o + n - 1) = l !! (o + (n - 1))) by (intros; f_equal; lia).
  repeat case_decide; intros Hx Hy; rewrite ?Hs in Hx by lia; rewrite ?Hs in Hy by lia;
    try injection Hx as <-; try injection Hy as <-; try lia;
    match goal with
    | Hx : l !! (o + ?a') = Some x, Hy : l !! (o + ?c') = Some y |- _ => apply (Ha a' c'); [lia|done..]
    | Hy : l !! (o + ?c') = Some y |- _ => pose proof (Ha p c' z y ltac:(lia) Hz Hy); lia
    | Hx : l !! (o + ?a') = Some x |- _ => pose proof (Hge a' x ltac:(lia) Hx); lia
    end.
Qed.

(** The six channels of the memory of minima. *)
Definition minima_wf (s : VadInst) : Prop :=
  length (index_vector s) = 96 ∧ length (low_value_vector s) = 96 ∧ length (mean_value s) = 6 ∧
  ∀ c, c < 6 → ascending (16 * c) (low_value_vector s).

(** [WebRtcVad_FindMinimum]: the sixteen smallest values of every channel
    stay sorted (the hand-written decision tree finds the insertion point and
    expired values are removed in place), no other channel's values change,
    and the result and the new instance do not depend on the element behind
    the array; that element is nevertheless read: for the last channel the
    removal loop's last step stores the element at index 96 of the 96-element
    array, before it is overwritten. *)
Theorem minima_stay_sorted (beyond f : Z) (c : nat) (s : VadInst) :
  minima_wf s → c < 6 →
  (∃ m s', (∀ b', FindMinimum b' f c s = Some (m, s')) ∧ minima_wf s' ∧
     ∀ q, q < 16 * c ∨ 16 * c + 16 ≤ q → low_value_vector s' !! q = low_value_vector s !! q) ∧
  ∀ l i, length l = 96 → i < 16 → move_down beyond (16 - i) (16 * 5 + i) l !! 95 = Some beyond.
Proof.
  intros (La & Ls & Lm & Hasc) Hc. split; cycle 1.
  { intros l i Hl Hi. rewrite lookup_move_down by lia. rewrite bool_decide_eq_true_2 by lia.
    unfold rd. rewrite lookup_ge_None_2 by lia. done. }
  set (o := 16 * c). assert (Ho : o + 16 ≤ 96) by (unfold o; lia).
  destruct (age_loop_spec beyond o 16 0 (index_vector s) (low_value_vector s)) as (H1 & H2 & H3);
    [lia|lia|congruence|by apply Hasc|].
  destruct (length_age_loop beyond o 16 0 (index_vector s) (low_value_vector s)) as [La1 Ls1].
  destruct (lookup_lt_is_Some_2 (mean_value s) c) as [mv Emv]; [lia|].
  unfold FindMinimum. fold o. setoid_rewrite H3. rewrite Emv.
  destruct (age_loop beyond o 16 0 (index_vector s) (low_value_vector s)) as [age sv]. cbn [fst snd] in *.
  set (r := match find_position beyond sv o f with
            | Some p => (insert_at beyond o p 1 age, insert_at beyond o p f sv) | None => (age, sv) end).
  assert (Hr : ∀ b', match find_position b' sv o f with
            | Some p => (insert_at b' o p 1 age, insert_at b' o p f sv) | None => (age, sv) end = r).
  { intros b'. unfold r. rewrite (find_position_beyond b' beyond) by lia.
    pose proof (find_position_spec beyond o sv f ltac:(lia) H1) as Hp. destruct (find_position beyond sv o f); [|done].
    f_equal; apply insert_at_beyond; lia. }
  assert (Hr' : length r.1 = 96 ∧ length r.2 = 96 ∧ ascending o r.2 ∧
                ∀ q, q < o ∨ o + 16 ≤ q → r.2 !! q = low_value_vector s !! q).
  { unfold r. pose proof (find_position_spec beyond o sv f ltac:(lia) H1) as Hp.
    destruct (find_position beyond sv o f) as [p|]; cbn [fst snd]; [|split_and!; [lia|lia|done|done]].
    destruct Hp as (Hp & Hlt & Hge).
    split; [unfold insert_at; rewrite length_insert, length_move_up; lia|].
    split; [unfold insert_at; rewrite length_insert, length_move_up; lia|].
    split; [apply insert_at_ascending; [done|lia|done..]|]. intros q Hq. rewrite lookup_insert_at by lia.
    rewrite !decide_False by lia. by apply H2. }
  destruct r as [age' sv']. cbn [fst snd] in Hr'. destruct Hr' as (L1 & L2 & Hs' & Hout).
  do 2 eexists. split; [|split].
  - intros b'. rewrite Hr. rewrite !(rd_any b' beyond sv') by lia. cbn [mbind option_bind]. reflexivity.
  - split; [done|]. split; [done|]. split; [cbn; by rewrite length_insert|]. intros c' Hc' i j x y Hij. cbn.
    destruct (decide (c' = c)) as [->|Hne]; [by apply Hs'|]. rewrite !Hout by (unfold o; lia).
    by apply (Hasc c' Hc' i j x y).
  - done.
Qed.
End minima.

(* ================================================================== *)
(** ** 48 kHz *)

Section wideband.
Import Resample Vad.

Lemma resample_48_to_8_first n i f1 f2 nb s :
  take 480 f1 = take 480 f2 → resample_48_to_8 n i f1 nb s = resample_48_to_8 n i f2 nb s.
Proof.
  intros E. revert i nb s. induction n as [|n IH]; intros i nb s; [done|]. cbn [resample_48_to_8].
  assert (Er : ∀ st mem, Resample48khzTo8khz f1 st mem = Resample48khzTo8khz f2 st mem)
    by (intros; unfold Resample48khzTo8khz; by rewrite E).
  rewrite Er. destruct (Resample48khzTo8khz f2 _ _) as [[out st]|]; [|done]. cbn [mbind option_bind].
  destruct (store nb (i * 80) out) as [nb'|]; [|done]. cbn [mbind option_bind]. apply IH.
Qed.

(** [WebRtcVad_CalcVad48khz] on a frame of 20 or 30 ms sees only its first
    10 ms: the loop resamples the same 480 samples for every block, so two
    frames that agree on them get the same decision and leave the same
    instance. *)
Theorem vad48_sees_first_block (beyond : Z) (garbage f1 f2 : list Z) (n : Z) (s : VadInst) :
  take 480 f1 = take 480 f2 → CalcVad48khz beyond garbage f1 n s = CalcVad48khz beyond garbage f2 n s.
Proof. intros E. unfold CalcVad48khz. by rewrite (resample_48_to_8_first _ _ f1 f2). Qed.
End wideband.

(** ** Witnesses *)

Definition blank_vad : Vad.VadInst :=
  Vad.mk 0 [] Resample.ResetResample48khzTo8khz [] [] [] [] 0 0 0 [] [] [] [] [] [] [] [] [] [] 0.
Definition fresh_vad : Vad.VadInst := default blank_vad (Vad.Init (Some (Vad.Create blank_vad))).2.


Lemma hangover_length_witness :
  (Vad.smooth_run (replicate 7 true ++ replicate 16 false) 8 14 fresh_vad).1
  = [1; 1; 1; 1; 1; 1; 1; 16; 15; 14; 13; 12; 11; 10; 9; 8; 7; 6; 5; 4; 3; 0; 0].
Proof.
  assert (Hn : (0 < 7)%nat) by lia. assert (H1 : 0 ≤ 8 < 32000) by lia. assert (H2 : 0 ≤ 14 < 32000) by lia.
  exact (hangover_length 7 16 8 14 fresh_vad Hn eq_refl H1 H2).
Defined.

Lemma minima_stay_sorted_witness :
  ∃ m s', (∀ b, Vad.FindMinimum b 700 5 fresh_vad = Some (m, s')) ∧ minima_wf s'.
Proof.
  assert (Hwf : minima_wf fresh_vad).
  { split_and!; [reflexivity..|]. intros c Hc i j x y Hij Hx Hy.
    change (Vad.low_value_vector fresh_vad) with (replicate 96 10000) in Hx, Hy.
    apply lookup_replicate in Hx as [-> _]. apply lookup_replicate in Hy as [-> _]. lia. }
  assert (Hc : (5 < 6)%nat) by lia.
  destruct (proj1 (minima_stay_sorted 3 700 5 fresh_vad Hwf Hc)) as (m & s' & H1 & H2 & _).
  exact (ex_intro _ m (ex_intro _ s' (conj H1 H2))).
Defined.

(** A frame of 20 ms whose second half is loud, and one of silence. *)
Lemma vad48_sees_first_block_witness :
  Vad.CalcVad48khz 0 (replicate 240 0) (replicate 480 0 ++ replicate 480 20000) 960 fresh_vad
  = Vad.CalcVad48khz 0 (replicate 240 0) (replicate 960 0) 960 fresh_vad.
Proof.
  assert (E : take 480 (replicate 480 0 ++ replicate 480 20000) = take 480 (replicate 960 0)) by (vm_compute; reflexivity).
  exact (vad48_sees_first_block 0 (replicate 240 0) _ _ 960 fresh_vad E).
Defined.
