(* ===== verification/Samples.v ===== *)
(** * libtgvoip: blocks of samples

    What is done to the samples a decoder returns: a frame of 60 ms is played
    in 80 or 40 ([Rescale60To80], [Rescale60To40] of [audio/Resampler.cpp]),
    the volume is changed ([effects::Volume] of [EchoCanceller.cpp]), the
    streams of a group call are mixed and the level of the signal is followed
    ([AudioMixer], [AudioLevelMeter] of [MediaStreamItf.cpp]).  A block is the
    list of its 16-bit samples; [None] is a read outside an array or a cast of
    a [float] that does not fit.  The functions of the mathematical library
    are parameters. *)

From Stdlib Require Import ZArith Lia List SpecFloat.
From stdpp Require Import base tactics list numbers option.
From S2P Require Import Prelude Words Memory Double Single.
From stdpp Require Import list.
Open Scope Z_scope.

(* ------------------------------------------------------------------ *)
Module Resampler.

(** The rising half of a window, in fixed point of 15 bits. *)
Definition hann : list Z := [
  0; 0; 0; 1; 1; 2; 3; 4; 6; 7; 9; 11; 13; 15; 17; 20; 22; 25; 28; 32;
  35; 39; 42; 46; 51; 55; 59; 64; 69; 74; 79; 84; 90; 96; 101; 107; 114; 120; 127; 133;
  140; 147; 155; 162; 170; 178; 185; 194; 202; 210; 219; 228; 237; 246; 255; 265; 275; 284; 295; 305;
  315; 326; 336; 347; 358; 370; 381; 393; 404; 416; 428; 441; 453; 466; 479; 492; 505; 518; 531; 545;
  559; 573; 587; 601; 616; 630; 645; 660; 675; 691; 706; 722; 738; 754; 770; 786; 803; 819; 836; 853;
  870; 888; 905; 923; 941; 959; 977; 995; 1014; 1032; 1051; 1070; 1089; 1109; 1128; 1148; 1168; 1188; 1208; 1228;
  1248; 1269; 1290; 1311; 1332; 1353; 1375; 1396; 1418; 1440; 1462; 1484; 1506; 1529; 1552; 1575; 1598; 1621; 1644; 1668;
  1691; 1715; 1739; 1763; 1788; 1812; 1837; 1861; 1886; 1911; 1937; 1962; 1987; 2013; 2039; 2065; 2091; 2117; 2144; 2170;
  2197; 2224; 2251; 2278; 2306; 2333; 2361; 2389; 2417; 2445; 2473; 2502; 2530; 2559; 2588; 2617; 2646; 2675; 2705; 2734;
  2764; 2794; 2824; 2854; 2884; 2915; 2945; 2976; 3007; 3038; 3069; 3101; 3132; 3164; 3195; 3227; 3259; 3292; 3324; 3356;
  3389; 3422; 3455; 3488; 3521; 3554; 3588; 3621; 3655; 3689; 3723; 3757; 3791; 3825; 3860; 3895; 3929; 3964; 3999; 4034;
  4070; 4105; 4141; 4177; 4212; 4248; 4284; 4321; 4357; 4394; 4430; 4467; 4504; 4541; 4578; 4615; 4653; 4690; 4728; 4765;
  4803; 4841; 4879; 4918; 4956; 4995; 5033; 5072; 5111; 5150; 5189; 5228; 5268; 5307; 5347; 5386; 5426; 5466; 5506; 5546;
  5587; 5627; 5667; 5708; 5749; 5790; 5831; 5872; 5913; 5954; 5996; 6037; 6079; 6121; 6163; 6205; 6247; 6289; 6331; 6374;
  6416; 6459; 6501; 6544; 6587; 6630; 6673; 6717; 6760; 6803; 6847; 6891; 6935; 6978; 7022; 7066; 7111; 7155; 7199; 7244;
  7288; 7333; 7378; 7423; 7468; 7513; 7558; 7603; 7648; 7694; 7739; 7785; 7831; 7876; 7922; 7968; 8014; 8060; 8107; 8153;
  8199; 8246; 8293; 8339; 8386; 8433; 8480; 8527; 8574; 8621; 8669; 8716; 8763; 8811; 8858; 8906; 8954; 9002; 9050; 9098;
  9146; 9194; 9242; 9291; 9339; 9387; 9436; 9485; 9533; 9582; 9631; 9680; 9729; 9778; 9827; 9876; 9925; 9975; 10024; 10074;
  10123; 10173; 10222; 10272; 10322; 10372; 10422; 10472; 10522; 10572; 10622; 10672; 10723; 10773; 10823; 10874; 10924; 10975; 11026; 11076;
  11127; 11178; 11229; 11280; 11331; 11382; 11433; 11484; 11535; 11587; 11638; 11689; 11741; 11792; 11844; 11895; 11947; 11999; 12050; 12102;
  12154; 12206; 12258; 12310; 12362; 12414; 12466; 12518; 12570; 12622; 12674; 12727; 12779; 12831; 12884; 12936; 12989; 13041; 13094; 13146;
  13199; 13251; 13304; 13357; 13409; 13462; 13515; 13568; 13621; 13674; 13727; 13780; 13832; 13885; 13939; 13992; 14045; 14098; 14151; 14204;
  14257; 14310; 14364; 14417; 14470; 14523; 14577; 14630; 14683; 14737; 14790; 14844; 14897; 14950; 15004; 15057; 15111; 15164; 15218; 15271;
  15325; 15378; 15432; 15485; 15539; 15593; 15646; 15700; 15753; 15807; 15861; 15914; 15968; 16021; 16075; 16129; 16182; 16236; 16290; 16343;
  16397; 16451; 16504; 16558; 16611; 16665; 16719; 16772; 16826; 16880; 16933; 16987; 17040; 17094; 17148; 17201; 17255; 17308; 17362; 17415;
  17469; 17522; 17576; 17629; 17683; 17736; 17790; 17843; 17897; 17950; 18004; 18057; 18110; 18164; 18217; 18270; 18323; 18377; 18430; 18483;
  18536; 18590; 18643; 18696; 18749; 18802; 18855; 18908; 18961; 19014; 19067; 19120; 19173; 19226; 19278; 19331; 19384; 19437; 19489; 19542;
  19595; 19647; 19700; 19752; 19805; 19857; 19910; 19962; 20014; 20067; 20119; 20171; 20223; 20275; 20327; 20379; 20431; 20483; 20535; 20587;
  20639; 20691; 20742; 20794; 20846; 20897; 20949; 21000; 21052; 21103; 21155; 21206; 21257; 21308; 21359; 21411; 21462; 21513; 21563; 21614;
  21665; 21716; 21767; 21817; 21868; 21918; 21969; 22019; 22070; 22120; 22170; 22220; 22270; 22320; 22370; 22420; 22470; 22520; 22569; 22619;
  22669; 22718; 22768; 22817; 22866; 22916; 22965; 23014; 23063; 23112; 23161; 23209; 23258; 23307; 23355; 23404; 23452; 23501; 23549; 23597;
  23645; 23693; 23741; 23789; 23837; 23885; 23932; 23980; 24027; 24075; 24122; 24169; 24217; 24264; 24311; 24358; 24404; 24451; 24498; 24544;
  24591; 24637; 24683; 24730; 24776; 24822; 24868; 24914; 24959; 25005; 25051; 25096; 25141; 25187; 25232; 25277; 25322; 25367; 25412; 25456;
  25501; 25546; 25590; 25634; 25678; 25723; 25767; 25811; 25854; 25898; 25942; 25985; 26029; 26072; 26115; 26158; 26201; 26244; 26287; 26330;
  26372; 26415; 26457; 26499; 26541; 26583; 26625; 26667; 26709; 26750; 26792; 26833; 26875; 26916; 26957; 26998; 27039; 27079; 27120; 27160;
  27201; 27241; 27281; 27321; 27361; 27401; 27440; 27480; 27519; 27558; 27598; 27637; 27676; 27714; 27753; 27792; 27830; 27868; 27907; 27945;
  27983; 28020; 28058; 28096; 28133; 28170; 28208; 28245; 28282; 28318; 28355; 28392; 28428; 28464; 28501; 28537; 28573; 28608; 28644; 28680;
  28715; 28750; 28785; 28820; 28855; 28890; 28924; 28959; 28993; 29027; 29061; 29095; 29129; 29163; 29196; 29230; 29263; 29296; 29329; 29362;
  29394; 29427; 29459; 29491; 29524; 29556; 29587; 29619; 29651; 29682; 29713; 29744; 29775; 29806; 29837; 29867; 29898; 29928; 29958; 29988;
  30018; 30048; 30077; 30107; 30136; 30165; 30194; 30223; 30251; 30280; 30308; 30336; 30364; 30392; 30420; 30448; 30475; 30502; 30529; 30556;
  30583; 30610; 30636; 30663; 30689; 30715; 30741; 30767; 30792; 30818; 30843; 30868; 30893; 30918; 30943; 30967; 30992; 31016; 31040; 31064;
  31088; 31111; 31135; 31158; 31181; 31204; 31227; 31249; 31272; 31294; 31316; 31338; 31360; 31382; 31403; 31425; 31446; 31467; 31488; 31508;
  31529; 31549; 31569; 31589; 31609; 31629; 31649; 31668; 31687; 31706; 31725; 31744; 31763; 31781; 31799; 31817; 31835; 31853; 31871; 31888;
  31905; 31922; 31939; 31956; 31973; 31989; 32005; 32021; 32037; 32053; 32069; 32084; 32099; 32114; 32129; 32144; 32159; 32173; 32187; 32201;
  32215; 32229; 32242; 32256; 32269; 32282; 32295; 32308; 32320; 32332; 32345; 32357; 32369; 32380; 32392; 32403; 32414; 32425; 32436; 32447;
  32457; 32467; 32478; 32487; 32497; 32507; 32516; 32526; 32535; 32544; 32552; 32561; 32569; 32577; 32586; 32593; 32601; 32609; 32616; 32623;
  32630; 32637; 32644; 32650; 32656; 32663; 32669; 32674; 32680; 32685; 32691; 32696; 32701; 32705; 32710; 32714; 32719; 32723; 32726; 32730;
  32734; 32737; 32740; 32743; 32746; 32749; 32751; 32753; 32755; 32757; 32759; 32761; 32762; 32763; 32764; 32765; 32766; 32766; 32767; 32767].

(** One sample of a cross-fade: what fades out, what fades in. *)
Definition cross (a b : Z) (i : nat) : option Z :=
  down ← znth hann (959 - Z.of_nat i);
  up ← znth hann (Z.of_nat i);
  Some (s16 (s16 (Z.shiftr (a * down) 15) + s16 (Z.shiftr (b * up) 15))).
(** A block that fades from the block at [p] to the one at [q]. *)
Definition fade (l : list Z) (p q : Z) : option (list Z) :=
  mapM (λ i : nat, a ← znth l (p + Z.of_nat i); b ← znth l (q + Z.of_nat i); cross a b i) (List.seq 0 960).
(** [memcpy] of 960 samples. *)
Definition block (l : list Z) (p : Z) : option (list Z) :=
  mapM (λ i : nat, znth l (p + Z.of_nat i)) (List.seq 0 960).

Definition Rescale60To80 (l : list Z) : option (list Z) :=
  a ← block l 0;
  d ← block l 1920;
  b ← fade l 960 480;
  c ← fade l 1440 960;
  Some (a ++ b ++ c ++ d).
(** Both halves cross-fade blocks 480 samples apart. *)
Definition Rescale60To40 (l : list Z) : option (list Z) :=
  a ← fade l 0 480;
  b ← fade l 1440 1920;
  Some (a ++ b).

(** The place in the input of a sample of the output, [offset*denom/num],
    and the samples around it ([floorf] and [ceilf]; no place is negative). *)
Definition place (num denom : Z) (offset : nat) : float :=
  F.div (F.mul (F.of_Z (Z.of_nat offset)) (F.of_Z denom)) (F.of_Z num).
Definition around (x : float) : option (Z * Z) :=
  lo ← D.trunc x; Some (lo, if F.eqb (F.of_Z lo) x then lo else lo + 1).
Definition interpolate (from : list Z) (num denom : Z) (offset : nat) : option Z :=
  let offsetf := place num denom offset in
  '(lo, hi) ← around offsetf;
  let factor := F.sub offsetf (F.of_Z lo) in
  a ← znth from lo;
  b ← znth from hi;
  F.to_s16 (F.add (F.mul (F.of_Z a) (F.sub (F.of_Z 1) factor)) (F.mul (F.of_Z b) factor)).
(** [Convert(from, to, fromLen, toLen, num, denom)]: what is put into [to]. *)
Definition Convert (from : list Z) (toLen num denom : Z) : option (list Z) :=
  let outLen := zlen from * num / denom in
  mapM (interpolate from num denom) (List.seq 0 (Z.to_nat (if toLen <? outLen then toLen else outLen))).
Definition Convert48To44 (from : list Z) (toLen : Z) : option (list Z) := Convert from toLen 147 160.
Definition Convert44To48 (from : list Z) (toLen : Z) : option (list Z) := Convert from toLen 160 147.
End Resampler.

(** [expf] and [logf]. *)
Class Libm := { expf : float → float; logf : float → float }.
(** The factor of a gain in decibels. *)
Definition gain `{Libm} (db : float) : float :=
  expf (F.mul (F.div db (F.of_Z 20)) (logf (F.of_Z 10))).

(* ------------------------------------------------------------------ *)
Module Volume.

Record t := mk { level : float; multiplier : float; passThrough : bool }.
#[global] Instance volume_eta : Eta t := λ v, mk (level v) (multiplier v) (passThrough v).

Definition ctor : t := mk (F.of_Z 1) (F.of_Z 1) false.
Definition SetPassThrough (b : bool) (v : t) : t := v <| passThrough := b |>.
Definition GetLevel (v : t) : float := level v.

Definition decibels (l : float) : float :=
  if F.ltb l (F.of_Z 1) then F.mul (F.of_Z (-50)) (F.sub (F.of_Z 1) l)
  else if F.gtb l (F.of_Z 1) && F.leb l (F.of_Z 2) then F.mul (F.of_Z 10) (F.sub l (F.of_Z 1))
  else F.zero.
Definition SetLevel `{Libm} (l : float) (v : t) : t :=
  v <| level := l |> <| multiplier := gain (decibels l) |>.

Definition Process (v : t) (samples : list Z) : option (list Z) :=
  if F.eqb (level v) (F.of_Z 1) || passThrough v then Some samples
  else mapM (λ x, F.clamp (F.mul (F.of_Z x) (multiplier v))) samples.
End Volume.

(* ------------------------------------------------------------------ *)
Module AudioMixer.

(** The inputs: the stream and its multiplier. *)
Definition inputs : Type := list (Z * float).

Definition AddInput (source : Z) (l : inputs) : inputs := l ++ [(source, F.of_Z 1)].
Fixpoint RemoveInput (source : Z) (l : inputs) : inputs :=
  match l with
  | [] => []
  | i :: l' => if i.1 =? source then l' else i :: RemoveInput source l'
  end.
Fixpoint SetInputVolume `{Libm} (source : Z) (volumeDB : float) (l : inputs) : inputs :=
  match l with
  | [] => []
  | i :: l' =>
      if i.1 =? source then
        (i.1, if F.eqb volumeDB (S754_infinity true) then F.zero else gain volumeDB) :: l'
      else i :: SetInputVolume source volumeDB l'
  end.

(** What an input adds to the sums. *)
Definition add_input (k : float) (input : list Z) (out : list float) : list float :=
  zip_with (λ o x, F.add o (if F.eqb k (F.of_Z 1) then F.of_Z x else F.mul (F.of_Z x) k)) out input.

(** A block of the mixer: each input's callback returned a block, or nothing
    ([None]); the inputs are mixed in order. *)
Definition mix (blocks : list (option (list Z) * float)) : option (list Z) :=
  let used := omap (λ b : option (list Z) * float, x ← b.1; if F.eqb b.2 F.zero then None else Some (x, b.2)) blocks in
  match used with
  | [] => Some (replicate 960 0)
  | _ => mapM F.clamp (foldl (λ out b, add_input b.2 b.1 out) (replicate 960 F.zero) used)
  end.
End AudioMixer.

(* ------------------------------------------------------------------ *)
Module AudioLevelMeter.

Record t := mk { absMax : Z; count : Z; currentLevel : Z; currentLevelFullRange : Z }.
#[global] Instance meter_eta : Eta t := λ m, mk (absMax m) (count m) (currentLevel m) (currentLevelFullRange m).

Definition ctor : t := mk 0 0 0 0.
Definition GetLevel (m : t) : float := F.div (F.of_Z (currentLevel m)) (F.of_Z 9).

Definition permutation : list Z :=
  [0; 1; 2; 3; 4; 4; 5; 5; 5; 5; 6; 6; 6; 6; 6; 7; 7; 7; 7; 8; 8; 8; 9; 9; 9; 9; 9; 9; 9; 9; 9; 9; 9].

(** The largest absolute value, as 16-bit integers have it. *)
Definition abs_value (samples : list Z) : Z :=
  foldl (λ m x, let a := s16 (Z.abs x) in if m <? a then a else m) 0 samples.

Definition Update (samples : list Z) (m : t) : option t :=
  let absValue := abs_value samples in
  let m := if absMax m <? absValue then m <| absMax := absValue |> else m in
  let was := count m in
  let m := m <| count := s16 (was + 1) |> in
  if was =? 10 then
    let m := m <| currentLevelFullRange := absMax m |> <| count := 0 |> in
    level ← znth permutation (Z.quot (absMax m) 1000);
    Some (m <| currentLevel := level |> <| absMax := Z.shiftr (absMax m) 2 |>)
  else Some m.
End AudioLevelMeter.

(* ------------------------------------------------------------------ *)
(** ** Rescaling *)

Section rescale.
Import Resampler.

Lemma hann_pairs :
  Forall (λ i, match hann !! (959 - i)%nat, hann !! i with
               | Some d, Some u => 0 ≤ d ∧ 0 ≤ u ∧ d + u ≤ 32767
               | _, _ => False
               end) (List.seq 0 960).
Proof.
  assert (forallb (λ i, match hann !! (959 - i)%nat, hann !! i with
    | Some d, Some u => (0 <=? d) && (0 <=? u) && (d + u <=? 32767) | _, _ => false end) (List.seq 0 960) = true) as H by (vm_compute; reflexivity).
  rewrite forallb_forall in H. apply Forall_forall. intros i Hi%list_elem_of_In. specialize (H i Hi).
  destruct (hann !! (959 - i)%nat), (hann !! i); [|done..].
  apply andb_true_iff in H as [[?%Z.leb_le ?%Z.leb_le]%andb_true_iff ?%Z.leb_le]. lia.
Qed.
Lemma hann_pair i : (i < 960)%nat → ∃ d u, znth hann (959 - Z.of_nat i) = Some d ∧ znth hann (Z.of_nat i) = Some u ∧
  0 ≤ d ∧ 0 ≤ u ∧ d + u ≤ 32767.
Proof.
  intros Hi. pose proof hann_pairs as H. rewrite Forall_forall in H. specialize (H i). specialize (H ltac:(apply list_elem_of_In, in_seq; lia)). destruct (hann !! (959 - i)%nat) as [d|] eqn:Ed, (hann !! i) as [u|] eqn:Eu; [|done..].
  exists d, u. rewrite znth_of_nat. replace (959 - Z.of_nat i) with (Z.of_nat (959 - i)) by lia. by rewrite znth_of_nat.
Qed.

(** The sum does not wrap around, and is not louder than what is faded. *)
Lemma cross_range lo hi a b i : -32768 ≤ lo ≤ 0 → 0 ≤ hi ≤ 32767 → lo ≤ a ≤ hi → lo ≤ b ≤ hi → (i < 960)%nat →
  ∃ v, cross a b i = Some v ∧ lo - 1 ≤ v ≤ hi ∧ is_s16 v.
Proof.
  intros Hlo Hhi Ha Hb Hi. destruct (hann_pair i Hi) as (d & u & Ed & Eu & Hd & Hu & Hs). unfold cross. rewrite Ed, Eu. cbn [mbind option_bind].
  rewrite !Z.shiftr_div_pow2 by lia. change (2 ^ 15) with 32768.
  set (x := (a * d) / 32768). set (y := (b * u) / 32768).
  assert (32768 * x ≤ a * d < 32768 * x + 32768) as Hx by (subst x; pose proof (Z.mul_div_le (a * d) 32768); pose proof (Z.mul_succ_div_gt (a * d) 32768); lia).
  assert (32768 * y ≤ b * u < 32768 * y + 32768) as Hy by (subst y; pose proof (Z.mul_div_le (b * u) 32768); pose proof (Z.mul_succ_div_gt (b * u) 32768); lia).
  clearbody x y. assert (lo * d ≤ a * d ≤ hi * d) by nia. assert (lo * u ≤ b * u ≤ hi * u) by nia.
  assert (hi * (d + u) ≤ hi * 32768) by nia.
  assert (lo * 32768 ≤ lo * d ∧ hi * d ≤ hi * 32768 ∧ lo * 32768 ≤ lo * u ∧ hi * u ≤ hi * 32768) as (?&?&?&?) by nia.
  assert (lo * 32767 ≤ lo * (d + u)) by nia.
  assert (is_s16 x ∧ is_s16 y ∧ is_s16 (x + y) ∧ lo - 1 ≤ x + y ≤ hi) as (Hx16 & Hy16 & Hs16 & Hr) by lia.
  rewrite (s16_small x), (s16_small y), (s16_small (x + y)) by done. by exists (x + y).
Qed.

Definition within (lo hi : Z) (l : list Z) : Prop := Forall (λ x, lo ≤ x ≤ hi) l.
Lemma within_lookup lo hi l k : within lo hi l → 0 ≤ k < zlen l → ∃ x, znth l k = Some x ∧ lo ≤ x ≤ hi.
Proof.
  intros Hl Hk. destruct (znth_Some l k Hk) as [x Hx]. exists x. split; [done|].
  unfold znth in Hx. destruct (decide _); [|done]. by eapply Forall_lookup_1 in Hl.
Qed.
Lemma mapM_seq (P : Z → Prop) (f : nat → option Z) n :
  (∀ i, (i < n)%nat → ∃ x, f i = Some x ∧ P x) → ∃ out, mapM f (List.seq 0 n) = Some out ∧ length out = n ∧ Forall P out.
Proof.
  intros Hf. assert (∃ out, mapM f (List.seq 0 n) = Some out ∧ Forall P out) as (out & E & HP).
  { assert (∀ i, i ∈ List.seq 0 n → ∃ x, f i = Some x ∧ P x) as H by (intros i Hi; apply Hf; apply list_elem_of_In, in_seq in Hi; lia).
    clear Hf. induction (List.seq 0 n) as [|i ks IH]; [by exists []|].
    destruct (H i) as (x & Ex & Hx); [by left|]. destruct IH as (out & E & Ho); [intros j Hj; apply H; by right|].
    exists (x :: out). simpl. rewrite Ex. simpl. rewrite E. split; [done|by constructor]. }
  exists out. split_and!; [done| |done]. apply length_mapM in E. by rewrite length_seq in E.
Qed.

Section bounds.
Context (lo hi : Z) (l : list Z) (Hlo : -32768 ≤ lo ≤ 0) (Hhi : 0 ≤ hi ≤ 32767) (Hl : within lo hi l).

Lemma block_run p : 0 ≤ p → p + 960 ≤ zlen l →
  ∃ out, block l p = Some out ∧ length out = 960%nat ∧ Forall (λ v, lo - 1 ≤ v ≤ hi ∧ is_s16 v) out.
Proof.
  intros Hp Hn. apply mapM_seq. intros i Hi. destruct (within_lookup lo hi l (p + Z.of_nat i) Hl) as (x & Ex & Hx); [lia|].
  exists x. split; [done|lia].
Qed.
Lemma fade_run p q : 0 ≤ p → p + 960 ≤ zlen l → 0 ≤ q → q + 960 ≤ zlen l →
  ∃ out, fade l p q = Some out ∧ length out = 960%nat ∧ Forall (λ v, lo - 1 ≤ v ≤ hi ∧ is_s16 v) out.
Proof.
  intros Hp Hpn Hq Hqn. apply mapM_seq. intros i Hi.
  destruct (within_lookup lo hi l (p + Z.of_nat i) Hl) as (x & Ex & Hx); [lia|].
  destruct (within_lookup lo hi l (q + Z.of_nat i) Hl) as (y & Ey & Hy); [lia|].
  destruct (cross_range lo hi x y i) as (v & Ev & Hv); [done..|]. exists v. rewrite Ex. simpl. by rewrite Ey.
Qed.
End bounds.

Lemma rescale_run lo hi l : -32768 ≤ lo ≤ 0 → 0 ≤ hi ≤ 32767 → 2880 ≤ zlen l → within lo hi l →
  (∃ out, Rescale60To80 l = Some out ∧ zlen out = 3840 ∧ Forall (λ v, lo - 1 ≤ v ≤ hi ∧ is_s16 v) out) ∧
  (∃ out, Rescale60To40 l = Some out ∧ zlen out = 1920 ∧ Forall (λ v, lo - 1 ≤ v ≤ hi ∧ is_s16 v) out).
Proof.
  intros Hlo Hhi Hn Hl. split.
  - destruct (block_run lo hi l Hlo Hhi Hl 0) as (a & Ea & Ha & Fa); [lia..|].
    destruct (block_run lo hi l Hlo Hhi Hl 1920) as (d & Ed & Hd & Fd); [lia..|].
    destruct (fade_run lo hi l Hlo Hhi Hl 960 480) as (b & Eb & Hb & Fb); [lia..|].
    destruct (fade_run lo hi l Hlo Hhi Hl 1440 960) as (c & Ec & Hc & Fc); [lia..|].
    exists (a ++ b ++ c ++ d). unfold Rescale60To80. rewrite Ea, Ed, Eb, Ec. split_and!; [done| |by repeat apply Forall_app_2].
    unfold zlen. rewrite !length_app. lia.
  - destruct (fade_run lo hi l Hlo Hhi Hl 0 480) as (a & Ea & Ha & Fa); [lia..|].
    destruct (fade_run lo hi l Hlo Hhi Hl 1440 1920) as (b & Eb & Hb & Fb); [lia..|].
    exists (a ++ b). unfold Rescale60To40. rewrite Ea, Eb. split_and!; [done| |by apply Forall_app_2].
    unfold zlen. rewrite !length_app. lia.
Qed.

(** C14. A frame of 60 ms that is stretched to 80 ms or squeezed to 40 ms:
    nothing outside it is read, the result has 3840 or 1920 samples, no sum
    of the cross-fades wraps around 16 bits, and the result is not louder
    than the frame (but for one unit of rounding towards minus infinity). *)
Theorem rescaling_never_wraps lo hi l : -32768 ≤ lo ≤ 0 → 0 ≤ hi ≤ 32767 → 2880 ≤ zlen l → within lo hi l →
  (∃ out, Rescale60To80 l = Some out ∧ zlen out = 3840 ∧ Forall (λ v, lo - 1 ≤ v ≤ hi ∧ is_s16 v) out) ∧
  (∃ out, Rescale60To40 l = Some out ∧ zlen out = 1920 ∧ Forall (λ v, lo - 1 ≤ v ≤ hi ∧ is_s16 v) out).
Proof. apply rescale_run. Qed.
Lemma rescaling_never_wraps_witness :
  (∃ out, Rescale60To80 (replicate 2880 (-32768)) = Some out ∧ zlen out = 3840 ∧ Forall (λ v, -32768 - 1 ≤ v ≤ 0 ∧ is_s16 v) out) ∧
  (∃ out, Rescale60To40 (replicate 2880 (-32768)) = Some out ∧ zlen out = 1920 ∧ Forall (λ v, -32768 - 1 ≤ v ≤ 0 ∧ is_s16 v) out).
Proof.
  apply (rescaling_never_wraps (-32768) 0); [lia|lia|rewrite zlen_replicate; lia|apply Forall_replicate; lia].
Defined.
End rescale.

(* ------------------------------------------------------------------ *)
(** ** The level *)

Section level.
Import AudioLevelMeter.

Record meter_ok (m : t) : Prop := {
  me_max : 0 ≤ absMax m ≤ 32767;
  me_count : 0 ≤ count m ≤ 10;
  me_level : 0 ≤ currentLevel m ≤ 9;
}.
Lemma abs_value_range l : Forall (λ x, is_s16 x) l → 0 ≤ abs_value l ≤ 32767.
Proof.
  intros Hl. unfold abs_value. cut (∀ m, 0 ≤ m ≤ 32767 → 0 ≤ foldl (λ m x, let a := s16 (Z.abs x) in if m <? a then a else m) m l ≤ 32767);
    [intros H; apply H; lia|].
  induction Hl as [|x l Hx Hl IH]; intros m Hm; [done|]. cbn [foldl]. cbv zeta. apply IH.
  pose proof (s16_range (Z.abs x)). destruct (Z.ltb_spec m (s16 (Z.abs x))); lia.
Qed.
Lemma level_of p : 0 ≤ p ≤ 32 → ∃ v, znth permutation p = Some v ∧ 0 ≤ v ≤ 9.
Proof.
  intros Hp. assert (Forall (λ v, 0 ≤ v ≤ 9) permutation) as Hf by (repeat constructor; lia).
  apply (within_lookup 0 9 permutation p Hf). change (zlen permutation) with 33. lia.
Qed.
Lemma Update_ok samples m : Forall (λ x, is_s16 x) samples → meter_ok m → ∃ m', Update samples m = Some m' ∧ meter_ok m'.
Proof.
  intros Hs [Hm Hc Hl]. pose proof (abs_value_range samples Hs) as Ha. unfold Update.
  set (m1 := if absMax m <? abs_value samples then _ else m).
  assert (0 ≤ absMax m1 ≤ 32767 ∧ count m1 = count m ∧ currentLevel m1 = currentLevel m) as (Hm1 & Hc1 & Hl1).
  { subst m1. by destruct (_ <? _). }
  clearbody m1. cbv zeta. destruct (Z.eqb_spec (count m1) 10) as [E|E].
  - destruct (level_of (Z.quot (absMax m1) 1000)) as (v & Ev & Hv); [rewrite Z.quot_div_nonneg by lia; split;
      [apply Z.div_pos; lia|apply Z.lt_succ_r, Z.div_lt_upper_bound; lia]|].
    cbn [absMax]. change (absMax (m1 <| count := _ |> <| currentLevelFullRange := _ |> <| count := 0 |>)) with (absMax m1).
    rewrite Ev. eexists. split; [done|]. constructor; cbn; [|lia|lia].
    rewrite Z.shiftr_div_pow2 by lia. split; [apply Z.div_pos; lia|apply Z.lt_succ_r, Z.div_lt_upper_bound; lia].
  - eexists. split; [done|]. constructor; cbn; [lia| |lia]. rewrite s16_small; lia.
Qed.

(** The loudest sample there is does not count: its absolute value has no
    16-bit representation. *)
Example loudest_is_silent : abs_value [-32768] = 0 ∧ abs_value [32767] = 32767.
Proof. by vm_compute. Qed.
End level.

(* ------------------------------------------------------------------ *)
(** ** The volume *)

Section volume.
Import Volume.

(** With a factor that is a number, nothing is undefined and no sample is
    lost or leaves its range. *)
Lemma Process_ok v samples :
  F.is_finite (multiplier v) = true → Forall (λ x, is_s16 x) samples →
  ∃ out, Process v samples = Some out ∧ length out = length samples ∧ Forall (λ x, is_s16 x) out.
Proof.
  intros Hm Hs. unfold Process. destruct (_ || _); [by exists samples|].
  induction Hs as [|x samples Hx Hs (out & E & Hl & Ho)]; [by exists []|].
  destruct (clamp_normal (F.mul (F.of_Z x) (multiplier v))) as (z & Ez & Hz).
  { apply mul_normal; [by apply of_Z_finite|done]. }
  exists (z :: out). simpl. rewrite Ez. simpl. rewrite E. simpl. split_and!; [done|by rewrite Hl|by constructor].
Qed.
(** Whatever the factor, what is returned has the length and the range. *)
Lemma Process_samples v samples out : Process v samples = Some out → Forall (λ x, is_s16 x) samples →
  zlen out = zlen samples ∧ Forall (λ x, is_s16 x) out.
Proof.
  unfold Process. intros E Hs. destruct (_ || _); [by injection E as <-|]. split; [unfold zlen; by rewrite (length_mapM _ _ _ E)|].
  apply mapM_Some_1 in E. clear Hs. induction E as [|x y l k Hxy _ IH]; constructor; [by eapply clamp_s16|done].
Qed.
End volume.

(* ------------------------------------------------------------------ *)
(** ** The conversions between 44.1 and 48 kHz *)

Section conversions.
Import Resampler.

(** The places read for the output up to [n] are inside the shortest input
    that has so much output. *)
Definition reads_inside (num denom : Z) (n : nat) : bool :=
  forallb (λ o, match around (place num denom o) with
                | Some (lo, hi) => (0 <=? lo) && (lo <=? hi) && (hi * num <? (Z.of_nat o + 1) * denom)
                | None => false
                end) (List.seq 0 n).
Lemma reads_inside_spec num denom n o : reads_inside num denom n = true → (o < n)%nat →
  ∃ lo hi, around (place num denom o) = Some (lo, hi) ∧ 0 ≤ lo ≤ hi ∧ hi * num < (Z.of_nat o + 1) * denom.
Proof.
  unfold reads_inside. rewrite forallb_forall. intros Hi Ho. specialize (Hi o). rewrite in_seq in Hi. specialize (Hi ltac:(lia)).
  destruct (around _) as [[lo hi]|]; [|done]. exists lo, hi. split; [done|]. lia.
Qed.
Lemma inside_48_44 : reads_inside 147 160 1764 = true.
Proof. by vm_compute. Qed.

(** From 48 to 44.1 kHz every sample that is read is there, for blocks of
    up to 40 ms. *)
Theorem downsampling_reads_inside (l : list Z) (o : nat) :
  zlen l ≤ 1920 → Z.of_nat o < zlen l * 147 / 160 →
  ∃ lo hi, around (place 147 160 o) = Some (lo, hi) ∧ is_Some (znth l lo) ∧ is_Some (znth l hi).
Proof.
  intros Hl Ho. assert ((Z.of_nat o + 1) * 160 ≤ zlen l * 147) as Hm.
  { pose proof (Z.mul_div_le (zlen l * 147) 160 ltac:(lia)). lia. }
  destruct (reads_inside_spec _ _ _ o inside_48_44) as (lo & hi & E & H1 & H2); [lia|]. exists lo, hi.
  split_and!; [done|destruct (znth_Some l lo) as [x ->]; [lia|done]|destruct (znth_Some l hi) as [x ->]; [lia|done]].
Qed.

(** To 48 kHz the last sample of a block of [147 * k] needs the sample after
    the block. *)
Lemma past_the_end k :
  (1 ≤ k ≤ 60)%nat → (λ p, p.2) <$> around (place 160 147 (160 * k - 1)) = Some (147 * Z.of_nat k).
Proof.
  intros Hk. assert (forallb (λ k, bool_decide ((λ p, p.2) <$> around (place 160 147 (160 * k - 1)) = Some (147 * Z.of_nat k))) (List.seq 1 60) = true) as Hf by by vm_compute.
  rewrite forallb_forall in Hf. specialize (Hf k). rewrite in_seq in Hf. specialize (Hf ltac:(lia)). by apply bool_decide_eq_true in Hf.
Qed.
Lemma mapM_None {A B} (f : A → option B) x l : x ∈ l → f x = None → mapM f l = None.
Proof.
  induction 1 as [y l|y z l _ IH]; intros Hf; cbn; [by rewrite Hf|]. destruct (f z); cbn; [|done]. by rewrite IH.
Qed.
Theorem upsampling_reads_past_the_end (l : list Z) (k : nat) :
  (1 ≤ k ≤ 60)%nat → zlen l = 147 * Z.of_nat k → Convert44To48 l (160 * Z.of_nat k) = None.
Proof.
  intros Hk Hl. unfold Convert44To48, Convert. rewrite Hl.
  replace (147 * Z.of_nat k * 160 / 147) with (160 * Z.of_nat k) by (replace (147 * Z.of_nat k * 160) with (160 * Z.of_nat k * 147) by lia; by rewrite Z.div_mul).
  rewrite Z.ltb_irrefl. apply (mapM_None _ (160 * k - 1)%nat); [apply list_elem_of_In, in_seq; lia|].
  pose proof (past_the_end k Hk) as Hp. unfold interpolate. destruct (around _) as [[lo hi]|]; [|done]. cbn in Hp. injection Hp as ->. cbn.
  destruct (znth l lo); [|done]. cbn. by rewrite (proj2 (znth_None l (147 * Z.of_nat k)) ltac:(lia)).
Qed.
End conversions.
