(* ===== verification/Decoder.v ===== *)
(** * libtgvoip: playing a stream (OpusDecoder.cpp)

    The decoder takes packets from the jitter buffer of its stream, decodes
    them with the Opus library (the class [Opus]), hides losses, stretches
    the result to the duration the jitter buffer asks for and gives the audio
    device blocks of 20 ms.  This file has the decoding itself
    ([DecodeNextFrame]), the blocks the decoder thread hands over and the
    callback of a decoder without a thread; the two threads are in
    [Pipeline].  Memory is bytes, samples are little-endian. *)

From Stdlib Require Import ZArith Lia List SpecFloat.
From stdpp Require Import base tactics list numbers option sets.
From S2P Require Import Prelude Words Memory Double Single Buffers History Jitter Samples.
From stdpp Require Import list.
Open Scope Z_scope.

(* ------------------------------------------------------------------ *)
(** ** Samples in memory *)

Fixpoint to_samples (l : bytes) : list Z :=
  match l with
  | a :: b :: l' => s16 (a + 256 * b) :: to_samples l'
  | _ => []
  end.
Definition of_sample (x : Z) : bytes := [u16 x mod 256; u16 x / 256].
Definition of_samples (l : list Z) : bytes := l ≫= of_sample.
(** Samples stored from the byte [p] on; [None] is outside the array. *)
Definition store_samples (l : bytes) (p : Z) (xs : list Z) : option bytes :=
  if (0 <=? p) && (p + 2 * zlen xs <=? zlen l) then Some (overwrite l (Z.to_nat p) (of_samples xs)) else None.
(** [n] bytes read from [p] on. *)
Definition load (l : bytes) (p n : Z) : option bytes :=
  if (0 <=? p) && (0 <=? n) && (p + n <=? zlen l) then Some (slice l (Z.to_nat p) (Z.to_nat n)) else None.

(* ------------------------------------------------------------------ *)
Module OpusDecoder.

(** [opus_decode(decoder, data, len, pcm, frame_size, decode_fec)]: of the
    second decoder or of the first; without data the loss is concealed.  Its
    result and the samples it stored. *)
Class Opus (W : Type) := opus_decode : bool → option bytes → Z → bool → W → Z * list Z * W.
(** What its documentation promises: the number of samples decoded, which are
    stored, or a negative number; never more than [frame_size]. *)
Class OpusLaws (W : Type) `{Opus W} := opus_fits : ∀ second data n fec w, 0 ≤ n →
  let '(r, pcm, _) := opus_decode second data n fec w in
  r ≤ n ∧ zlen pcm ≤ n ∧ (0 ≤ r → zlen pcm = r) ∧ Forall (λ x, is_s16 x) pcm.

Definition PACKET_SIZE : Z := 1920.

(** What [processedBuffer] points to. *)
Inductive place := Buffer | DecodeBuffer.

Record t (W : Type) := mk {
  codec : W;
  ecDec : bool;                 (** the second decoder was created *)
  jitterBuffer : JitterBuffer.t;
  buffer : bytes;
  decodeBuffer : bytes;
  nextBuffer : bytes;
  processedBuffer : option place;
  frameDuration : Z;
  packetsPerFrame : Z;
  consecutiveLostPackets : Z;
  enableDTX : bool;
  silentPacketCount : Z;
  remainingDataLen : Z;
  prevWasEC : bool;
  prevLastSample : Z;
  levelMeter : option AudioLevelMeter.t;
  postProcEffects : list Z;     (** pointers to volumes *)
}.
#[global] Arguments mk {W}. #[global] Arguments codec {W}. #[global] Arguments ecDec {W}.
#[global] Arguments jitterBuffer {W}. #[global] Arguments buffer {W}. #[global] Arguments decodeBuffer {W}.
#[global] Arguments nextBuffer {W}. #[global] Arguments processedBuffer {W}. #[global] Arguments frameDuration {W}.
#[global] Arguments packetsPerFrame {W}. #[global] Arguments consecutiveLostPackets {W}. #[global] Arguments enableDTX {W}.
#[global] Arguments silentPacketCount {W}. #[global] Arguments remainingDataLen {W}. #[global] Arguments prevWasEC {W}.
#[global] Arguments prevLastSample {W}. #[global] Arguments levelMeter {W}. #[global] Arguments postProcEffects {W}.
#[global] Instance decoder_eta {W} : Eta (t W) := λ s,
  mk (codec s) (ecDec s) (jitterBuffer s) (buffer s) (decodeBuffer s) (nextBuffer s) (processedBuffer s) (frameDuration s)
     (packetsPerFrame s) (consecutiveLostPackets s) (enableDTX s) (silentPacketCount s) (remainingDataLen s) (prevWasEC s)
     (prevLastSample s) (levelMeter s) (postProcEffects s).

Section ops.
Context {W : Type} `{OP : Opus W}.
Implicit Types s : t W.

(** The constructor; [fresh] is what the memory holds. *)
Definition Initialize (w : W) (needEC : bool) (j : JitterBuffer.t) (fresh : bytes * bytes * bytes) : t W :=
  mk w needEC j fresh.1.1 fresh.1.2 fresh.2 None 20 0 0 false 0 0 false 0 None [].
Definition SetFrameDuration (duration : Z) s : t W :=
  s <| frameDuration := duration |> <| packetsPerFrame := duration / 20 |>.
Definition SetJitterBuffer (j : JitterBuffer.t) s : t W := s <| jitterBuffer := j |>.
Definition SetDTX (enable : bool) s : t W := s <| enableDTX := enable |>.
Definition SetLevelMeter (m : option AudioLevelMeter.t) s : t W := s <| levelMeter := m |>.
Definition AddAudioEffect (e : Z) s : t W := s <| postProcEffects ::= λ l, l ++ [e] |>.
Fixpoint remove_first (e : Z) (l : list Z) : list Z :=
  match l with [] => [] | x :: l' => if x =? e then l' else x :: remove_first e l' end.
Definition RemoveAudioEffect (e : Z) s : t W := s <| postProcEffects ::= remove_first e |>.

Definition on_jitter {A} : M JitterBuffer.t A → M (t W) A :=
  zoom jitterBuffer (λ j s, s <| jitterBuffer := j |>).
(** Public calls of other threads, between two locked calls of this one. *)
Fixpoint others (l : list JitterOps.op) : M JitterBuffer.t unit :=
  match l with [] => mret tt | o :: l' => JitterOps.run o;; others l' end.

(** [jitterBuffer->HandleOutput(buffer, 8192, 0, advance, playbackDuration, isEC)]. *)
Definition HandleOutput (advance : bool) : M (t W) (Z * Z * option bool) :=
  o ← on_jitter (JitterBuffer.HandleOutput 8192 0 advance);
  (match JitterBuffer.o_data o with
   | Some (d, _, _) => modify (λ s, s <| buffer ::= λ b, overwrite b 0 d |>)
   | None => mret tt
   end);;
  mret (JitterBuffer.o_size o, JitterBuffer.o_duration o, JitterBuffer.o_isEC o).

(** A call of the library; the second decoder may be [NULL]. *)
Definition decode (second : bool) (data : option bytes) (fec : bool) : M (t W) (Z * list Z) :=
  s ← get;
  if second && negb (ecDec s) then crash_with UndefinedBehaviour
  else
    let '(r, pcm, w) := opus_decode second data (packetsPerFrame s * 960) fec (codec s) in
    put (s <| codec := w |>);; mret (r, pcm).
Definition to_decodeBuffer (pcm : list Z) : M (t W) unit :=
  s ← get; l ← defined (store_samples (decodeBuffer s) 0 pcm); put (s <| decodeBuffer := l |>).
Definition to_nextBuffer (pcm : list Z) : M (t W) unit :=
  s ← get; l ← defined (store_samples (nextBuffer s) 0 pcm); put (s <| nextBuffer := l |>).

(** The 20 coefficients, in millionths. *)
Definition coeffs : list float :=
  (λ m, F.of_double (D.of_dec m 6)) <$>
  [999802; 995062; 984031; 966778; 943413; 914084; 878975; 838309; 792344;
   741368; 685706; 625708; 561754; 494249; 423619; 350311; 274788; 197527; 119018; 39757].
(** One sample of the transition between the decoders. *)
Definition blend (plc x : Z) (c : float) : option Z :=
  round_s16 (D.add (F.to_double (F.mul (F.of_Z plc) c))
                   (D.mul (F.to_double (F.of_Z x)) (D.sub (D.of_Z 1) (F.to_double c)))).
Definition cast {A} (o : option A) : M (t W) A :=
  match o with Some a => mret a | None => crash_with BadCast end.
Definition smooth : M (t W) unit :=
  s ← get;
  let plc := to_samples (take 40 (nextBuffer s)) in
  let x := to_samples (take 40 (decodeBuffer s)) in
  out ← cast (mapM (λ p : Z * Z * float, blend p.1.1 p.1.2 p.2) (zip (zip plc x) coeffs));
  to_decodeBuffer out.

(** A packet was found. *)
Definition decode_packet (len : Z) (isEC fec : bool) : M (t W) Z :=
  s ← get;
  data ← defined (load (buffer s) 0 len);
  '(size, pcm) ← decode isEC (Some data) fec;
  to_decodeBuffer pcm;;
  modify (λ s, s <| consecutiveLostPackets := 0 |>);;
  s ← get;
  size ← (if negb (Bool.eqb (prevWasEC s) isEC) && negb (size =? 0) then
            '(size, pcm) ← decode (prevWasEC s) None false;
            to_nextBuffer pcm;;
            (if negb (size =? 0) then smooth else mret tt);;
            mret size
          else mret size);
  modify (λ s, s <| prevWasEC := isEC |>);;
  s ← get;
  last ← defined (znth (decodeBuffer s) (size - 1));
  modify (λ s, s <| prevLastSample := last |>);;
  mret size.

(** No packet was found: the loss is concealed. *)
Definition conceal : M (t W) Z :=
  modify (λ s, s <| consecutiveLostPackets := s32 (consecutiveLostPackets s + 1) |>);;
  s ← get;
  if (2 <? consecutiveLostPackets s) && enableDTX s then
    modify (λ s, s <| silentPacketCount := u64 (silentPacketCount s + packetsPerFrame s) |>);;
    mret (packetsPerFrame s * 960)
  else
    '(size, pcm) ← decode (prevWasEC s) None false;
    to_decodeBuffer pcm;;
    mret size.

(** [processedBuffer] for the duration asked for. *)
Definition rescale (duration : Z) : M (t W) unit :=
  s ← get;
  let into (out : option (list Z)) :=
    out ← defined out; l ← defined (store_samples (buffer s) 0 out);
    put (s <| processedBuffer := Some Buffer |> <| buffer := l |>) in
  if duration =? 80 then into (Resampler.Rescale60To80 (to_samples (decodeBuffer s)))
  else if duration =? 40 then into (Resampler.Rescale60To40 (to_samples (decodeBuffer s)))
  else put (s <| processedBuffer := Some DecodeBuffer |>).

Definition DecodeNextFrame (between : list JitterOps.op) : M (t W) Z :=
  '(len, duration, isEC) ← HandleOutput true;
  let isEC := default false isEC in
  '(len, duration, isEC, fec) ←
    (if len =? 0 then
       on_jitter (others between);;
       '(len, duration, isEC') ← HandleOutput false;
       mret (len, duration, default isEC isEC', true)
     else mret (len, duration, isEC, false));
  size ← (if negb (len =? 0) then decode_packet len isEC fec else conceal);
  modify (λ s, s <| remainingDataLen := size |>);;
  rescale duration;;
  mret duration.

(** The memory [processedBuffer] points to. *)
Definition processed s : option bytes :=
  p ← processedBuffer s; Some (match p with Buffer => buffer s | DecodeBuffer => decodeBuffer s end).
Definition set_processed (l : bytes) s : t W :=
  match processedBuffer s with
  | Some Buffer => s <| buffer := l |>
  | Some DecodeBuffer => s <| decodeBuffer := l |>
  | None => s
  end.

(** An effect on the block at [p]; [vol] is what the pointers point to. *)
Definition apply_effect (vol : Z → Volume.t) (p : Z) (e : Z) : M (t W) unit :=
  s ← get;
  mem ← defined (processed s);
  block ← defined (load mem p PACKET_SIZE);
  out ← cast (Volume.Process (vol e) (to_samples block));
  mem' ← defined (store_samples mem p out);
  put (set_processed mem' s).
Fixpoint apply_effects (vol : Z → Volume.t) (p : Z) (l : list Z) : M (t W) unit :=
  match l with [] => mret tt | e :: l' => apply_effect vol p e;; apply_effects vol p l' end.

(** The [i]-th block the thread hands over. *)
Definition block (vol : Z → Volume.t) (i : Z) : M (t W) bytes :=
  s ← get;
  if 0 <? remainingDataLen s then
    apply_effects vol (PACKET_SIZE * i) (postProcEffects s);;
    s ← get;
    mem ← defined (processed s);
    defined (load mem (PACKET_SIZE * i) PACKET_SIZE)
  else mret (replicate (Z.to_nat PACKET_SIZE) 0).
Fixpoint blocks (vol : Z → Volume.t) (n : nat) : M (t W) (list bytes) :=
  match n with
  | O => mret []
  | S k => l ← blocks vol k; b ← block vol (Z.of_nat k); mret (l ++ [b])
  end.
(** A round of [RunThread]: a frame and its blocks. *)
Definition round (vol : Z → Volume.t) (between : list JitterOps.op) : M (t W) (list bytes) :=
  duration ← DecodeNextFrame between;
  blocks vol (Z.to_nat (duration / 20)).

(** [levelMeter->Update] of what was played, or of nothing. *)
Definition meter (samples : list Z) : M (t W) unit :=
  s ← get;
  match levelMeter s with
  | Some m => m ← defined (AudioLevelMeter.Update samples m); put (s <| levelMeter := Some m |>)
  | None => mret tt
  end.

(** [HandleCallback] of a decoder without a thread: the result and the
    block. *)
Definition HandleCallback (len : Z) (between : list JitterOps.op) : M (t W) (Z * bytes) :=
  s ← get;
  (if (remainingDataLen s =? 0) && (silentPacketCount s =? 0) then
     duration ← DecodeNextFrame between;
     modify (λ s, s <| remainingDataLen := u64 (s32 (duration / 20 * 960 * 2)) |>)
   else mret tt);;
  s ← get;
  if (0 <? silentPacketCount s) || (remainingDataLen s =? 0) || bool_decide (processedBuffer s = None) then
    (if 0 <? silentPacketCount s then modify (λ s, s <| silentPacketCount := silentPacketCount s - 1 |>) else mret tt);;
    meter [];;
    mret (0, replicate (Z.to_nat PACKET_SIZE) 0)
  else
    mem ← defined (processed s);
    data ← defined (load mem 0 PACKET_SIZE);
    modify (λ s, s <| remainingDataLen := remainingDataLen s - PACKET_SIZE |>);;
    s ← get;
    (if 0 <? remainingDataLen s then
       rest ← defined (load mem PACKET_SIZE (remainingDataLen s));
       modify (set_processed (overwrite mem 0 rest))
     else mret tt);;
    meter (to_samples (take (Z.to_nat len) data));;
    mret (len, data).
End ops.
End OpusDecoder.

(* ------------------------------------------------------------------ *)
(** ** Samples in memory *)

Section sample_memory.
Lemma length_of_samples l : length (of_samples l) = (2 * length l)%nat.
Proof. induction l as [|x l IH]; [done|]. cbn. unfold of_samples in IH. rewrite IH. lia. Qed.
Lemma length_to_samples n l : length l = (2 * n)%nat → length (to_samples l) = n.
Proof.
  revert l. induction n as [|n IH]; intros l Hl; [by destruct l|].
  destruct l as [|a [|b l]]; cbn in *; [lia..|]. by rewrite IH by lia.
Qed.
Lemma to_samples_s16 l : Forall (λ x, is_s16 x) (to_samples l).
Proof.
  assert (∀ n (l : bytes), (length l ≤ n)%nat → Forall (λ x, is_s16 x) (to_samples l)) as H; [|by eapply H].
  clear l. induction n as [|n IH]; intros [|a [|b l]] Hl; simpl in *; try done; try lia.
  constructor; [apply s16_range|apply IH; lia].
Qed.
Lemma of_sample_s16 x : is_s16 x → ∀ a b, of_sample x = [a; b] → s16 (a + 256 * b) = x.
Proof.
  intros Hx a b [= <- <-]. pose proof (Z.div_mod (u16 x) 256). replace (u16 x mod 256 + 256 * (u16 x / 256)) with (u16 x) by lia.
  unfold u16, s16. rewrite Z.add_mod_idemp_l by lia. pose proof (s16_small x Hx) as E. unfold s16 in E. exact E.
Qed.
(** What is stored is read back. *)
Lemma to_of_samples l : Forall (λ x, is_s16 x) l → to_samples (of_samples l) = l.
Proof.
  induction 1 as [|x l Hx Hl IH]; [done|]. cbn. unfold of_samples in IH. rewrite IH. f_equal. by eapply of_sample_s16.
Qed.

Lemma store_run l p xs : 0 ≤ p → p + 2 * zlen xs ≤ zlen l →
  ∃ l', store_samples l p xs = Some l' ∧ zlen l' = zlen l ∧ l' = overwrite l (Z.to_nat p) (of_samples xs).
Proof.
  intros Hp Hl. eexists. unfold store_samples. rewrite (proj2 (Z.leb_le _ _) Hp), (proj2 (Z.leb_le _ _) Hl). cbn [andb].
  split; [done|]. split; [|done]. apply zlen_overwrite. rewrite length_of_samples. unfold zlen in *. lia.
Qed.
Lemma store_zlen l p xs l' : store_samples l p xs = Some l' → zlen l' = zlen l.
Proof.
  unfold store_samples. intros E. destruct (Z.leb_spec 0 p); [|done]. destruct (Z.leb_spec (p + 2 * zlen xs) (zlen l)); [|done].
  cbn [andb] in E. simplify_eq. apply zlen_overwrite. rewrite length_of_samples. unfold zlen in *. lia.
Qed.
Lemma load_run l p n : 0 ≤ p → 0 ≤ n → p + n ≤ zlen l →
  ∃ x, load l p n = Some x ∧ zlen x = n ∧ x = slice l (Z.to_nat p) (Z.to_nat n).
Proof.
  intros Hp Hn Hl. eexists. unfold load. rewrite (proj2 (Z.leb_le _ _) Hp), (proj2 (Z.leb_le _ _) Hn), (proj2 (Z.leb_le _ _) Hl).
  cbn [andb]. split; [done|]. split; [|done]. unfold zlen in *. rewrite length_slice; lia.
Qed.
End sample_memory.

(* ------------------------------------------------------------------ *)
(** ** Decoding is safe *)

Section decoding.
Import OpusDecoder.
Context {W : Type} `{OP : Opus W} {OL : OpusLaws W} (ppf : Z) (Hppf : 3 ≤ ppf ≤ 4).
Implicit Types s : t W.

Record decoder_ok s : Prop := {
  do_jitter : inv (jitterBuffer s);
  do_buffer : zlen (buffer s) = 8192;
  do_decode : zlen (decodeBuffer s) = 8192;
  do_next : zlen (nextBuffer s) = 8192;
  do_frame : packetsPerFrame s = ppf;
  do_ec : ecDec s = true;
  do_silent : 0 ≤ silentPacketCount s;
  do_meter : ∀ m, levelMeter s = Some m → meter_ok m;
}.

(** The library did not decode something. *)
Definition rejected : Prop := ∃ second data fec (w : W), (opus_decode second data (ppf * 960) fec w).1.1 ≤ 0.
(** What is left: a cast of the jitter buffer's or of the blending, and the
    sample before the first one, which is read when nothing was decoded. *)
Definition decode_crash : crash → Prop := λ c, c = BadCast ∨ (c = UndefinedBehaviour ∧ rejected).
Definition never {X} : exn → X → Prop := λ _ _, False.

#[local] Abbreviation wpd m s Q := (wp m s Q never decode_crash).

Lemma jitter_weaken {A} (m : M JitterBuffer.t A) j Q :
  wp m j Q no_throw only_cast → wp m j Q never decode_crash.
Proof. intros H. eapply wp_weaken; [exact H|done|done|]. intros c ->. by left. Qed.

Definition finish (r : JitterBuffer.result) (out : JitterBuffer.got) (d : Z) : JitterBuffer.output :=
  match r with
  | JitterBuffer.JR_OK => JitterBuffer.mkout (match out with Some (_, n, _) => n | None => 8192 end) out d ((λ g, g.2) <$> out)
  | _ => JitterBuffer.mkout 0 None d None
  end.
(** What the decoder relies on: the data fits its buffer. *)
Definition fits (o : JitterBuffer.output) : Prop :=
  0 ≤ JitterBuffer.o_size o ≤ 8192 ∧ JitterBuffer.o_duration o ∈ [40; 60; 80] ∧
  (∀ d n ec, JitterBuffer.o_data o = Some (d, n, ec) → zlen d ≤ 8192).
Lemma finish_fits ts j r out j' d : get_post 8192 ts j (r, out) j' → d ∈ [40; 60; 80] → fits (finish r out d).
Proof.
  intros [_ Hout] Hd. cbn [fst snd] in *. unfold fits, finish. destruct r; cbn; [|by split_and!..].
  destruct Hout as (x & ec & _ & -> & _). destruct (Z.ltb_spec 8192 (zlen x)); [by split_and!|].
  pose proof (zlen_nonneg x). split_and!; [lia|lia|done|]. intros x' n ec' [= <- <- <-]. lia.
Qed.

Lemma wp_HandleOutput_fits adv j : inv j →
  wp (JitterBuffer.HandleOutput 8192 0 adv) j (λ o j', inv j' ∧ fits o) no_throw only_cast.
Proof.
  intros Hj. unfold JitterBuffer.HandleOutput. apply wp_bind.
  eapply wp_mono with (Q' := λ _, inv); [eapply wp_mono; [by apply safe_catch_up|by intros [] j1 []]|].
  intros [] j1 H1. apply wp_bind.
  eapply wp_mono; [by apply GetInternal_spec|]. intros [r out] j2 Hget.
  assert (inv j2) as H2 by (by destruct Hget as [[? _] _]).
  apply wp_bind, wp_get, wp_bind.
  pose proof (λ d, finish_fits _ _ _ _ _ d Hget) as Hfin.
  assert (∀ d j', d ∈ [40; 60; 80] → inv j' → wp (mret (finish r out d)) j' (λ o j', inv j' ∧ fits o) no_throw only_cast) as Hend
    by (intros d j' Hd Hj'; apply wp_ret; auto).
  repeat (apply wp_if; intros _); try (apply wp_bind, wp_modify); apply wp_ret, Hend;
    try (by destruct H2); set_solver.
Qed.

(** A change that keeps what the invariant talks about. *)
Lemma decoder_same s s' : decoder_ok s →
  inv (jitterBuffer s') → zlen (buffer s') = 8192 → zlen (decodeBuffer s') = 8192 → zlen (nextBuffer s') = 8192 →
  packetsPerFrame s' = packetsPerFrame s → ecDec s' = ecDec s → 0 ≤ silentPacketCount s' →
  levelMeter s' = levelMeter s → decoder_ok s'.
Proof. intros [] ? ? ? ? E1 E2 ? E3. constructor; try congruence. by rewrite E3. Qed.
#[local] Ltac same := first [eapply decoder_same; [eassumption|cbn -[zlen overwrite]; try (by apply do_jitter); try (by apply do_buffer);
  try (by apply do_decode); try (by apply do_next); try (by apply do_silent); try done..]].

Lemma wp_output adv s Q : decoder_ok s →
  (∀ len d ec s', decoder_ok s' → 0 ≤ len ≤ 8192 → d ∈ [40; 60; 80] → Q (len, d, ec) s') → wpd (HandleOutput adv) s Q.
Proof.
  intros Hs HQ. unfold HandleOutput. apply wp_bind, wp_zoom, jitter_weaken.
  eapply wp_mono; [by apply wp_HandleOutput_fits, do_jitter|]. intros o j [Hj (Hsz & Hd & Hdata)].
  assert (decoder_ok (s <| jitterBuffer := j |>)) as H1 by same.
  apply wp_bind. destruct (JitterBuffer.o_data o) as [[[d n] ec]|]; [|apply wp_ret, wp_ret; by apply HQ].
  apply wp_modify, wp_ret, HQ; [|done..]. same. rewrite zlen_overwrite; [by apply do_buffer|].
  specialize (Hdata d n ec eq_refl). pose proof (do_buffer _ Hs) as Hb. unfold zlen in *. cbn. lia.
Qed.
Lemma wp_others l s Q : Forall JitterOps.valid l → decoder_ok s → (∀ s', decoder_ok s' → Q tt s') → wpd (on_jitter (others l)) s Q.
Proof.
  intros Hl Hs HQ. apply wp_zoom. apply jitter_weaken. eapply wp_mono with (Q' := λ _, inv);
    [|intros [] j Hj; apply HQ; same]. generalize (do_jitter _ Hs). generalize (jitterBuffer s).
  induction Hl as [|o l Ho Hl IH]; intros j Hj; [by apply wp_ret|]. apply wp_bind.
  eapply wp_mono; [by apply run_safe|]. intros [] j' Hj'. by apply IH.
Qed.

Lemma wp_decode second data fec s Q : decoder_ok s →
  (∀ r pcm s', decoder_ok s' → r ≤ ppf * 960 → (r ≤ 0 → rejected) → zlen pcm ≤ ppf * 960 → (0 ≤ r → zlen pcm = r) → Q (r, pcm) s') →
  wpd (decode second data fec) s Q.
Proof.
  intros Hs HQ. unfold decode. apply wp_bind, wp_get. rewrite (do_ec _ Hs), andb_false_r, (do_frame _ Hs).
  pose proof (opus_fits second data (ppf * 960) fec (codec s)) as Hf.
  destruct (opus_decode _ _ _ _ _) as [[r pcm] w] eqn:E. destruct Hf as (H1 & H2 & H3 & _); [lia|].
  apply wp_bind, wp_put, wp_ret, HQ; [same|done| |done|done].
  intros Hr. exists second, data, fec, (codec s). by rewrite E.
Qed.
Lemma wp_to_decode pcm s Q : decoder_ok s → 2 * zlen pcm ≤ 8192 → (∀ s', decoder_ok s' → prevWasEC s' = prevWasEC s → Q tt s') → wpd (to_decodeBuffer pcm) s Q.
Proof.
  intros Hs Hn HQ. apply wp_bind, wp_get, wp_bind. destruct (store_run (decodeBuffer s) 0 pcm) as (l & E & Hl & _); [lia|rewrite (do_decode _ Hs); lia|].
  eapply wp_defined; [exact E|]. apply wp_put, HQ; [|done]. rewrite (do_decode _ Hs) in Hl. same.
Qed.
Lemma wp_to_next pcm s Q : decoder_ok s → 2 * zlen pcm ≤ 8192 → (∀ s', decoder_ok s' → Q tt s') → wpd (to_nextBuffer pcm) s Q.
Proof.
  intros Hs Hn HQ. apply wp_bind, wp_get, wp_bind. destruct (store_run (nextBuffer s) 0 pcm) as (l & E & Hl & _); [lia|rewrite (do_next _ Hs); lia|].
  eapply wp_defined; [exact E|]. apply wp_put, HQ. rewrite (do_next _ Hs) in Hl. same.
Qed.
Lemma wp_cast {A} (o : option A) s Q : (∀ a, o = Some a → Q a s) → wpd (cast o) s Q.
Proof. intros HQ. destruct o; [by apply wp_ret, HQ|by apply wp_crash; left]. Qed.
Lemma wp_smooth s Q : decoder_ok s → (∀ s', decoder_ok s' → Q tt s') → wpd smooth s Q.
Proof.
  intros Hs HQ. unfold smooth. apply wp_bind, wp_get, wp_bind, wp_cast. intros out Hout. apply wp_to_decode; [done| |auto].
  apply length_mapM in Hout. rewrite !length_zip in Hout. change (length coeffs) with 20%nat in Hout. unfold zlen. lia.
Qed.

Lemma wp_decode_packet len ec fec s Q : decoder_ok s → 0 ≤ len ≤ 8192 → (∀ size s', decoder_ok s' → Q size s') →
  wpd (decode_packet len ec fec) s Q.
Proof.
  intros Hs Hlen HQ. unfold decode_packet. apply wp_bind, wp_get, wp_bind.
  destruct (load_run (buffer s) 0 len) as (x & Ex & _); [lia|lia|rewrite (do_buffer _ Hs); lia|].
  eapply wp_defined; [exact Ex|]. apply wp_bind, wp_decode; [done|]. intros r pcm s1 H1 Hr Hrej Hn Hsz.
  apply wp_bind, wp_to_decode; [done|lia|]. intros s2 H2 _. apply wp_bind, wp_modify.
  set (s3 := s2 <| consecutiveLostPackets := 0 |>). assert (decoder_ok s3) as H3 by same. clearbody s3.
  apply wp_bind, wp_get, wp_bind.
  eapply wp_mono with (Q' := λ size s', decoder_ok s' ∧ size ≤ ppf * 960 ∧ (size ≤ 0 → rejected)).
  - apply wp_if; intros _; [|by apply wp_ret]. apply wp_bind, wp_decode; [done|]. intros r' pcm' s4 H4 Hr' Hrej' Hn' _.
    apply wp_bind, wp_to_next; [done|lia|]. intros s5 H5. apply wp_bind.
    apply wp_if; intros _; [apply wp_smooth; [done|]; intros s6 H6|apply wp_ret]; by apply wp_ret.
  - intros size s4 (H4 & Hsize & Hrj). apply wp_bind, wp_modify. set (s5 := s4 <| prevWasEC := ec |>).
    assert (decoder_ok s5) as H5 by same. clearbody s5. apply wp_bind, wp_get, wp_bind.
    destruct (decide (size ≤ 0)) as [Hz|Hz].
    + unfold wp, defined. destruct (znth _ _) as [v|] eqn:Ev; [|right; auto]. apply znth_bound in Ev. lia.
    + destruct (znth_Some (decodeBuffer s5) (size - 1)) as [v Ev]; [rewrite (do_decode _ H5); lia|].
      eapply wp_defined; [exact Ev|]. apply wp_bind, wp_modify, wp_ret, HQ. same.
Qed.
Lemma wp_conceal s Q : decoder_ok s → (∀ size s', decoder_ok s' → Q size s') → wpd conceal s Q.
Proof.
  intros Hs HQ. unfold conceal. apply wp_bind, wp_modify.
  set (s1 := s <| consecutiveLostPackets := _ |>). assert (decoder_ok s1) as H1 by same. clearbody s1.
  apply wp_bind, wp_get. apply wp_if; intros _.
  - apply wp_bind, wp_modify, wp_ret, HQ. same. apply u64_range.
  - apply wp_bind, wp_decode; [done|]. intros r pcm s2 H2 _ _ Hn _. apply wp_bind, wp_to_decode; [done|lia|]. intros s3 H3 _. by apply wp_ret, HQ.
Qed.

(** There is memory to play from. *)
Definition ready s : Prop := decoder_ok s ∧ is_Some (processedBuffer s).
Lemma ready_memory s : ready s → ∃ mem, processed s = Some mem ∧ zlen mem = 8192.
Proof.
  intros [Hs [p Hp]]. unfold processed. rewrite Hp. destruct p; eexists; split; [done|by apply do_buffer|done|by apply do_decode].
Qed.
Lemma ready_set mem s : ready s → zlen mem = 8192 → ready (set_processed mem s).
Proof. intros [Hs [p Hp]] Hm. unfold set_processed. rewrite Hp. destruct p; (split; [same|cbn; by rewrite Hp]). Qed.
Lemma set_processed_len mem s : remainingDataLen (set_processed mem s) = remainingDataLen s.
Proof. unfold set_processed. by destruct (processedBuffer s) as [[]|]. Qed.

Lemma wp_rescale d s Q : decoder_ok s → (∀ s', ready s' → Q tt s') → wpd (rescale d) s Q.
Proof.
  intros Hs HQ. unfold rescale. apply wp_bind, wp_get.
  assert (zlen (to_samples (decodeBuffer s)) = 4096) as Hlen.
  { pose proof (do_decode _ Hs) as Hd. unfold zlen in *. rewrite (length_to_samples 4096); lia. }
  destruct (rescale_run (-32768) 32767 (to_samples (decodeBuffer s))) as [(a & Ea & Ha & _) (b & Eb & Hb & _)]; [lia|lia|lia| |].
  { eapply Forall_impl; [apply to_samples_s16|]. intros x Hx. cbn in Hx. lia. }
  assert (∀ out, 2 * zlen out ≤ 8192 →
    wpd (out ← defined (Some out); l ← defined (store_samples (buffer s) 0 out);
         put (s <| processedBuffer := Some Buffer |> <| buffer := l |>)) s Q) as Hinto.
  { intros out Hout. apply wp_bind. eapply wp_defined; [done|]. apply wp_bind.
    destruct (store_run (buffer s) 0 out) as (l & El & Hl & _); [lia|rewrite (do_buffer _ Hs); lia|].
    eapply wp_defined; [exact El|]. apply wp_put, HQ. rewrite (do_buffer _ Hs) in Hl. split; [same|by eexists]. }
  cbv zeta. apply wp_if; intros _; [rewrite Ea; apply Hinto; lia|].
  apply wp_if; intros _; [rewrite Eb; apply Hinto; lia|]. apply wp_put, HQ. split; [same|by eexists].
Qed.

Lemma wp_DecodeNextFrame between s Q : Forall JitterOps.valid between → decoder_ok s →
  (∀ d s', ready s' → d ∈ [40; 60; 80] → Q d s') → wpd (DecodeNextFrame between) s Q.
Proof.
  intros Hb Hs HQ. unfold DecodeNextFrame. apply wp_bind, wp_output; [done|]. intros len d ec s1 H1 Hlen Hd. cbv zeta. apply wp_bind.
  eapply wp_mono with (Q' := λ r s', decoder_ok s' ∧ 0 ≤ r.1.1.1 ≤ 8192 ∧ r.1.1.2 ∈ [40; 60; 80]).
  { apply wp_if; intros _; [|by apply wp_ret]. apply wp_bind, wp_others; [done..|]. intros s2 H2.
    apply wp_bind, wp_output; [done|]. intros len' d' ec' s3 H3 Hlen' Hd'. by apply wp_ret. }
  intros [[[n dur] e] fec] s2 (H2 & Hn & Hdur). cbn [fst snd] in *. apply wp_bind.
  eapply wp_mono with (Q' := λ _ s', decoder_ok s').
  { apply wp_if; intros _; [by apply wp_decode_packet|by apply wp_conceal]. }
  intros size s3 H3. apply wp_bind, wp_modify. set (s4 := s3 <| remainingDataLen := size |>). assert (decoder_ok s4) as H4 by same. clearbody s4.
  apply wp_bind, wp_rescale; [done|]. intros s5 H5. by apply wp_ret, HQ.
Qed.

Lemma wp_apply_effects vol p l s Q : ready s → 0 ≤ p ≤ 8192 - PACKET_SIZE → (∀ s', ready s' → Q tt s') → wpd (apply_effects vol p l) s Q.
Proof.
  intros Hs Hp HQ. revert s Hs. induction l as [|e l IH]; intros s Hs; [by apply wp_ret, HQ|]. unfold PACKET_SIZE in *.
  cbn [apply_effects]. apply wp_bind. unfold apply_effect. apply wp_bind, wp_get, wp_bind.
  destruct (ready_memory s Hs) as (mem & Em & Hm). eapply wp_defined; [exact Em|]. apply wp_bind.
  destruct (load_run mem p PACKET_SIZE) as (x & Ex & Hx & _); [unfold PACKET_SIZE; lia..|]. eapply wp_defined; [exact Ex|].
  apply wp_bind, wp_cast. intros out Hout. apply wp_bind.
  assert (zlen out = 960) as Hlen.
  { unfold Volume.Process in Hout. unfold PACKET_SIZE, zlen in *.
    assert (length (to_samples x) = 960%nat) as Hts by (apply length_to_samples; lia).
    destruct (_ || _); [simplify_eq; lia|]. apply length_mapM in Hout. lia. }
  destruct (store_run mem p out) as (mem' & Es & Hl & _); [lia|lia|]. eapply wp_defined; [exact Es|].
  apply wp_put, IH. apply ready_set; [done|lia].
Qed.
Lemma wp_block vol i s Q : ready s → 0 ≤ i ≤ 3 → (∀ b s', ready s' → zlen b = PACKET_SIZE → Q b s') → wpd (block vol i) s Q.
Proof.
  intros Hs Hi HQ. unfold block. apply wp_bind, wp_get. apply wp_if; intros _; [|apply wp_ret, HQ; [done|by rewrite zlen_replicate]].
  apply wp_bind, wp_apply_effects; [done|unfold PACKET_SIZE; lia|]. intros s1 H1. apply wp_bind, wp_get, wp_bind.
  destruct (ready_memory s1 H1) as (mem & Em & Hm). eapply wp_defined; [exact Em|].
  destruct (load_run mem (PACKET_SIZE * i) PACKET_SIZE) as (x & Ex & Hx & _); [unfold PACKET_SIZE; lia..|].
  eapply wp_defined; [exact Ex|]. by apply HQ.
Qed.
Lemma wp_blocks vol n s Q : ready s → (n ≤ 4)%nat →
  (∀ l s', ready s' → length l = n → Forall (λ b, zlen b = PACKET_SIZE) l → Q l s') → wpd (blocks vol n) s Q.
Proof.
  intros Hs. revert Q. induction n as [|n IH]; intros Q Hn HQ; [by apply wp_ret, HQ|]. cbn [blocks]. apply wp_bind, IH; [lia|].
  intros l s1 H1 Hl Hf. apply wp_bind, wp_block; [done|lia|]. intros b s2 H2 Hb. apply wp_ret, HQ; [done| |].
  - rewrite length_app. cbn. lia.
  - apply Forall_app_2; [done|by constructor].
Qed.


(** Of the decoder without a thread: what is left to play is whole blocks. *)
Record callback_ok s : Prop := {
  cb_ok : decoder_ok s;
  cb_left : ∃ k, remainingDataLen s = PACKET_SIZE * k ∧ 0 ≤ k ≤ 4;
  cb_ready : 0 < remainingDataLen s → is_Some (processedBuffer s);
}.
Lemma wp_meter l s Q : decoder_ok s → Forall (λ x, is_s16 x) l →
  (∀ m, decoder_ok (s <| levelMeter := m |>) → Q tt (s <| levelMeter := m |>)) → wpd (meter l) s Q.
Proof.
  intros Hs Hl HQ. unfold meter. apply wp_bind, wp_get. destruct (levelMeter s) as [m|] eqn:Em.
  - apply wp_bind. destruct (Update_ok l m Hl (do_meter _ Hs m Em)) as (m' & E & Hm). eapply wp_defined; [exact E|].
    apply wp_put, HQ. destruct Hs. constructor; try done. by intros ? [= <-].
  - apply wp_ret. replace s with (s <| levelMeter := None |>) by (destruct s; cbn in Em; by subst). apply HQ.
    destruct Hs. by constructor.
Qed.

(** Every callback of such a decoder returns a block, and another may
    follow. *)
Lemma wp_HandleCallback between s : callback_ok s → Forall JitterOps.valid between →
  wp (HandleCallback PACKET_SIZE between) s (λ r s', callback_ok s' ∧ zlen r.2 = PACKET_SIZE ∧ r.1 ∈ [0; PACKET_SIZE]) never decode_crash.
Proof.
  intros Hs Hb. unfold HandleCallback. apply wp_bind, wp_get, wp_bind.
  eapply wp_mono with (Q' := λ _, callback_ok).
  { apply wp_if; intros _; [|by apply wp_ret]. apply wp_bind, wp_DecodeNextFrame; [done|by apply cb_ok|].
    intros d s1 [H1 Hp] Hd. apply wp_modify. constructor; [same| |done].
    exists (d / 20). assert (d / 20 ∈ [2; 3; 4]) as Hq by (repeat (apply elem_of_cons in Hd as [->|Hd]; [vm_compute; set_solver|]); by apply elem_of_nil in Hd).
    unfold PACKET_SIZE. cbn. repeat (apply elem_of_cons in Hq as [->|Hq]; [by vm_compute|]). by apply elem_of_nil in Hq. }
  intros [] s1 [H1 (k & Ek & Hk) Hp]. apply wp_bind, wp_get. apply wp_if; intros Hc.
  - apply wp_bind. eapply wp_mono with (Q' := λ _, callback_ok).
    { apply wp_if; intros Hz; [apply wp_modify|by apply wp_ret; constructor; eauto].
      apply Z.ltb_lt in Hz. constructor; [same; cbn; lia|by exists k|done]. }
    intros [] s2 [H2 Hl2 Hp2]. apply wp_bind, wp_meter; [done|done|]. intros m Hm. apply wp_ret. split_and!; [by constructor|done|set_solver].
  - apply orb_false_iff in Hc as [[_ Hz%Z.eqb_neq]%orb_false_iff _].
    destruct Hp as [q Hq]; [unfold PACKET_SIZE in *; lia|].
    assert (ready s1) as Hr by (split; [done|by eexists]). destruct (ready_memory s1 Hr) as (mem & Em & Hmem).
    apply wp_bind. eapply wp_defined; [exact Em|]. apply wp_bind.
    destruct (load_run mem 0 PACKET_SIZE) as (x & Ex & Hx & _); [unfold PACKET_SIZE; lia..|]. eapply wp_defined; [exact Ex|].
    apply wp_bind, wp_modify. set (s2 := s1 <| remainingDataLen := _ |>).
    assert (ready s2) as H2 by (split; [same|by eexists]). apply wp_bind, wp_get, wp_bind.
    eapply wp_mono with (Q' := λ _, callback_ok).
    { assert (remainingDataLen s2 = PACKET_SIZE * (k - 1)) as E2 by (subst s2; cbn; rewrite Ek; unfold PACKET_SIZE; lia).
      apply wp_if; intros Hrest.
      - apply Z.ltb_lt in Hrest. apply wp_bind. destruct (load_run mem PACKET_SIZE (remainingDataLen s2)) as (y & Ey & Hy & _); [unfold PACKET_SIZE in *; lia..|].
        eapply wp_defined; [exact Ey|]. apply wp_modify.
        assert (ready (set_processed (overwrite mem 0 y) s2)) as [H3 H3'].
        { apply ready_set; [done|]. rewrite zlen_overwrite; [done|]. unfold PACKET_SIZE, zlen in *. lia. }
        constructor; [done| |done]. rewrite set_processed_len, E2. exists (k - 1). split; [done|]. unfold PACKET_SIZE in *. lia.
      - apply wp_ret. constructor; [apply H2| |intros _; apply H2]. exists (k - 1). split; [done|].
        apply Z.ltb_ge in Hrest. unfold PACKET_SIZE in *. lia. }
    intros [] s3 [H3 Hl3 Hp3]. apply wp_bind, wp_meter; [done|apply to_samples_s16|]. intros m Hm.
    apply wp_ret. split_and!; [by constructor|done|set_solver].
Qed.

(** Without effects the blocks are the memory, piece by piece. *)
Lemma blocks_plain vol n s mem : postProcEffects s = [] → 0 < remainingDataLen s → processed s = Some mem → PACKET_SIZE * Z.of_nat n ≤ zlen mem →
  ∃ l, blocks vol n s = Ret l s ∧ length l = n ∧ concat l = take (Z.to_nat (PACKET_SIZE * Z.of_nat n)) mem.
Proof.
  intros He Hr Hm. induction n as [|n IH]; intros Hn; [by exists []|]. destruct IH as (l & E & Hl & Hc); [unfold PACKET_SIZE in *; lia|].
  destruct (load_run mem (PACKET_SIZE * Z.of_nat n) PACKET_SIZE) as (x & Ex & Hx & Ex'); [unfold PACKET_SIZE in *; lia..|].
  assert (block vol (Z.of_nat n) s = Ret x s) as Eb.
  { unfold block, mbind, M_bind, get. destruct (Z.ltb_spec 0 (remainingDataLen s)); [|lia]. rewrite He. cbn [apply_effects].
    unfold mret, M_ret, defined. by rewrite Hm, Ex. }
  exists (l ++ [x]). split_and!; [|rewrite length_app; cbn; lia|].
  - cbn [blocks]. unfold mbind, M_bind. by rewrite E, Eb.
  - rewrite concat_app, Hc. cbn [concat]. rewrite app_nil_r, Ex'. unfold slice, PACKET_SIZE.
    replace (Z.to_nat (1920 * Z.of_nat (S n))) with (Z.to_nat (1920 * Z.of_nat n) + 1920)%nat by lia.
    change (Z.to_nat 1920) with 1920%nat. by rewrite take_take_drop.
Qed.

(** A packet of a whole frame, decoded by the decoder of the last one. *)
Lemma wp_decode_whole d pcm w fec s Q : decoder_ok s → ppf = 3 → 0 < zlen d ≤ 8192 → slice (buffer s) 0 (length d) = d →
  opus_decode (prevWasEC s) (Some d) 2880 fec (codec s) = (2880, pcm, w) →
  (∀ last, Q 2880 (s <| codec := w |> <| decodeBuffer := overwrite (decodeBuffer s) 0 (of_samples pcm) |> <| consecutiveLostPackets := 0 |>
                  <| prevWasEC := prevWasEC s |> <| prevLastSample := last |>)) →
  wp (decode_packet (zlen d) (prevWasEC s) fec) s Q never (λ _, False).
Proof.
  intros Hs Hp Hd Hmem Hop HQ. pose proof (opus_fits (prevWasEC s) (Some d) 2880 fec (codec s)) as Hf. rewrite Hop in Hf.
  destruct Hf as (_ & _ & Hn & _); [lia|]. specialize (Hn ltac:(lia)).
  unfold decode_packet. apply wp_bind, wp_get, wp_bind.
  destruct (load_run (buffer s) 0 (zlen d)) as (x & Ex & _ & Ex'); [lia|lia|rewrite (do_buffer _ Hs); lia|].
  assert (x = d) as ->. { rewrite Ex'. unfold zlen. by rewrite Nat2Z.id. }
  eapply wp_defined; [exact Ex|]. apply wp_bind. unfold decode. apply wp_bind, wp_get.
  rewrite (do_ec _ Hs), andb_false_r, (do_frame _ Hs), Hp. change (3 * 960) with 2880. rewrite Hop. apply wp_bind, wp_put, wp_ret, wp_bind.
  destruct (store_run (decodeBuffer s) 0 pcm) as (l & El & Hl & ->); [lia|rewrite (do_decode _ Hs); lia|]. rewrite (do_decode _ Hs) in Hl.
  apply wp_bind, wp_get, wp_bind. eapply wp_defined; [exact El|]. apply wp_put, wp_bind, wp_modify, wp_bind, wp_get, wp_bind.
  cbn [prevWasEC]. rewrite eqb_reflx. apply wp_ret, wp_bind, wp_modify, wp_bind, wp_get, wp_bind.
  destruct (znth_Some (overwrite (decodeBuffer s) (Z.to_nat 0) (of_samples pcm)) (2880 - 1)) as [v Ev]; [lia|].
  eapply wp_defined; [exact Ev|]. apply wp_bind, wp_modify, wp_ret, HQ.
Qed.

(** What is played is what was decoded: when the jitter buffer has a packet
    for the time that is due and asks for no change of speed, the library
    decodes a whole frame of it with the decoder of the last frame, and no
    effect is set, the three blocks of this round are together the decoded
    samples, in order and none twice. *)
Theorem decoded_is_played vol between s d j pcm w : decoder_ok s → ppf = 3 → postProcEffects s = [] →
  JitterBuffer.HandleOutput 8192 0 true (jitterBuffer s) = Ret (JitterBuffer.mkout (zlen d) (Some (d, zlen d, prevWasEC s)) 60 (Some (prevWasEC s))) j →
  0 < zlen d ≤ 8192 → opus_decode (prevWasEC s) (Some d) 2880 false (codec s) = (2880, pcm, w) →
  wp (round vol between) s (λ l s', length l = 3%nat ∧ concat l = of_samples pcm ∧ to_samples (concat l) = pcm ∧
    jitterBuffer s' = j ∧ codec s' = w) never (λ _, False).
Proof.
  intros Hs Hp He Hout Hd Hop.
  pose proof (opus_fits (prevWasEC s) (Some d) 2880 false (codec s)) as Hf. rewrite Hop in Hf. destruct Hf as (_ & _ & Hn & Hpcm); [lia|].
  specialize (Hn ltac:(lia)). unfold round. apply wp_bind.
  eapply wp_mono with (Q' := λ d' s', d' = 60 ∧ postProcEffects s' = [] ∧ remainingDataLen s' = 2880 ∧
    processed s' = Some (overwrite (decodeBuffer s) 0 (of_samples pcm)) ∧ jitterBuffer s' = j ∧ codec s' = w).
  - unfold DecodeNextFrame. apply wp_bind. unfold HandleOutput. apply wp_bind, wp_zoom. unfold wp at 1. rewrite Hout.
    cbn [JitterBuffer.o_data JitterBuffer.o_size JitterBuffer.o_duration JitterBuffer.o_isEC].
    apply wp_bind, wp_modify, wp_ret. cbv zeta. assert ((zlen d =? 0) = false) as Hz by lia. rewrite Hz. apply wp_bind, wp_ret, wp_bind. rewrite Hz. cbn [negb default from_option id].
    set (s1 := s <| jitterBuffer := j |> <| buffer ::= λ b, overwrite b 0 d |>). change (prevWasEC s) with (prevWasEC s1).
    pose proof (do_buffer _ Hs) as Hb. assert (0 + length d ≤ length (buffer s))%nat as Hfit by (unfold zlen in *; lia).
    apply (wp_decode_whole d pcm w false s1).
    + assert (inv j) as Hj.
      { pose proof (wp_HandleOutput_fits true _ (do_jitter _ Hs)) as H. unfold wp in H. rewrite Hout in H. by destruct H. }
      subst s1. same. rewrite zlen_overwrite; [done|lia].
    + done.
    + done.
    + by apply slice_overwrite_same.
    + done.
    + intros last. apply wp_bind, wp_modify, wp_bind. unfold rescale. apply wp_bind, wp_get, wp_put, wp_ret. by split_and!.
  - intros d' s' (-> & He' & Hr & Hm & Hj & Hw). destruct (blocks_plain vol 3 s' _ He' ltac:(lia) Hm) as (l & E & Hl & Hc).
    { rewrite zlen_overwrite; [rewrite (do_decode _ Hs); unfold PACKET_SIZE; lia|]. pose proof (do_decode _ Hs). rewrite length_of_samples. unfold zlen in *. lia. }
    change (Z.to_nat (60 / 20)) with 3%nat. unfold wp. rewrite E.
    assert (concat l = of_samples pcm) as Hcat.
    { rewrite Hc. unfold overwrite. rewrite take_0. cbn [app]. rewrite take_app_le; [apply take_ge|]; rewrite length_of_samples; unfold PACKET_SIZE, zlen in *; lia. }
    split_and!; [done|done|by rewrite Hcat, to_of_samples|done|done].
Qed.
End decoding.

(* ------------------------------------------------------------------ *)
(** ** Examples *)

Section example.
Import OpusDecoder.

(** A library that answers every packet with a frame of its first byte, but
    rejects packets that start with 255. *)
Definition toy_opus : Opus unit := λ _ data n _ w,
  match data with
  | Some (255 :: _) => (-4, [], w)
  | Some (b :: _) => (n, replicate (Z.to_nat n) (s16 b), w)
  | _ => (n, replicate (Z.to_nat n) 0, w)
  end.
#[local] Existing Instance toy_opus.
#[local] Instance toy_opus_laws : OpusLaws unit.
Proof.
  intros second data n fec w Hn. unfold opus_decode, toy_opus.
  assert (∀ b, n ≤ n ∧ zlen (replicate (Z.to_nat n) (s16 b)) ≤ n ∧ (0 ≤ n → zlen (replicate (Z.to_nat n) (s16 b)) = n) ∧
    Forall (λ x, is_s16 x) (replicate (Z.to_nat n) (s16 b))) as H.
  { intros b. rewrite zlen_replicate. split_and!; [lia..|]. apply Forall_replicate, s16_range. }
  pose proof (H 0) as H0. destruct data as [[|b l]|]; [done| |done].
  destruct (decide (b = 255)) as [->|Hb]; [split_and!; [lia|rewrite zlen_nil; lia|intros; lia|constructor]|].
  specialize (H b). by destruct b as [|p|p]; [done| |done]; do 8 (destruct p as [p|p|]; try done).
Qed.

#[local] Existing Instance JitterBuffer.jb_eta.
(** A packet is due. *)
Definition due (d : bytes) : JitterBuffer.t :=
  match JitterBuffer.HandleInput d 1000 false (D.of_Z 1) start with Ret _ j => j <| JitterBuffer.nextTimestamp := 1000 |> | _ => start end.
Definition example_decoder (j : JitterBuffer.t) (needEC : bool) : t unit :=
  SetFrameDuration 60 (Initialize tt needEC j (replicate (Z.to_nat 8192) 0, replicate (Z.to_nat 8192) 0, replicate (Z.to_nat 8192) 0)).
Lemma received_inv d ts time j j' : is_u32 ts → inv j → JitterBuffer.HandleInput d ts false time j = Ret tt j' → inv j'.
Proof.
  intros Hts Hj E. pose proof (run_safe (JitterOps.OpInput d ts false time) j Hts Hj) as H.
  unfold wp in H. cbn [JitterOps.run] in H. by rewrite E in H.
Qed.
Lemma jitter_start_inv : inv start.
Proof.
  apply jb_reachable_inv. exists JitterOps.default_config, 4096, 20, start. split_and!; [by intros k v Hv|exact start_ctor|constructor].
Qed.
Lemma due_inv d j : JitterBuffer.HandleInput d 1000 false (D.of_Z 1) start = Ret tt j → inv (due d).
Proof.
  intros E. pose proof (received_inv d 1000 _ _ _ ltac:(lia) jitter_start_inv E) as Hj. unfold due. rewrite E. by destruct Hj.
Qed.
Lemma example_decoder_ok j : inv j → decoder_ok 3 (example_decoder j true).
Proof. intros Hj. by constructor. Qed.

(** The example's packets are stored, and due. *)
Lemma example_due_inv : inv (due [7]) ∧ inv (due [255]).
Proof. split; (eapply due_inv; vm_compute; reflexivity). Qed.

(** A packet the library rejects: the byte before the buffer is read. *)
Example rejected_packet_reads_outside :
  DecodeNextFrame [] (example_decoder (due [255]) true) = Crash UndefinedBehaviour.
Proof. vm_compute. reflexivity. Qed.

(** A packet of the second kind for a decoder that was created for an old
    peer: the second decoder is not there. *)
Definition due_ec : JitterBuffer.t :=
  match JitterBuffer.HandleInput [7] 1000 true (D.of_Z 1) start with Ret _ j => j <| JitterBuffer.nextTimestamp := 1000 |> | _ => start end.
Example missing_second_decoder :
  DecodeNextFrame [] (example_decoder due_ec false) = Crash UndefinedBehaviour ∧
  ret_value (DecodeNextFrame [] (example_decoder due_ec true)) = Some 80.
Proof. by vm_compute. Qed.

(** A lost packet takes two steps of the delay the jitter buffer wanted to
    change by. *)
Example lost_packet_adjusts_twice :
  (JitterBuffer.outstandingDelayChange ∘ jitterBuffer) <$>
    end_state (DecodeNextFrame [] (example_decoder (start <| JitterBuffer.outstandingDelayChange := 60 |>) true)) = Some 20.
Proof. by vm_compute. Qed.


(** Another packet waits behind it. *)
Definition due_two : JitterBuffer.t :=
  match JitterBuffer.HandleInput [8] 1020 false (D.of_Z 2) (due [7]) with Ret _ j => j | _ => start end.
Lemma due_two_inv : inv due_two.
Proof.
  apply (received_inv [8] 1020 (D.of_Z 2) (due [7])); [lia|exact (proj1 example_due_inv)|vm_compute; reflexivity].
Qed.
Definition played : JitterBuffer.t :=
  match JitterBuffer.HandleOutput 8192 0 true due_two with Ret _ j => j | _ => start end.
Lemma decoded_is_played_witness :
  wp (round (λ _, Volume.ctor) [] : M (t unit) (list bytes)) (example_decoder due_two true)
    (λ l s', length l = 3%nat ∧ concat l = of_samples (replicate (Z.to_nat 2880) 7) ∧ to_samples (concat l) = replicate (Z.to_nat 2880) 7 ∧
       jitterBuffer s' = played ∧ codec s' = tt) never (λ _, False).
Proof.
  apply (decoded_is_played 3 ltac:(lia) (λ _, Volume.ctor) [] (example_decoder due_two true) [7]);
    [exact (example_decoder_ok _ due_two_inv)|done|done|vm_compute; reflexivity|by vm_compute|vm_compute; reflexivity].
Defined.
End example.
