(* ===== verification/Encoder.v ===== *)
(** * libtgvoip: recording a stream (OpusEncoder.cpp, EchoCanceller.cpp)

    Blocks of 20 ms from the microphone go through the echo canceller (the
    audio processing module of WebRTC is the class [Apm]) and the effects, are
    put together to frames and encoded with the Opus library (the class
    [OpusEnc]); the controller is called with every frame.  The thread's loop
    is [on_packet] for each block taken from the queue; the queue and the
    thread that fills it are in [Pipeline]. *)

From Stdlib Require Import ZArith Lia List SpecFloat.
From stdpp Require Import base tactics list numbers option.
From S2P Require Import Prelude Words Memory Double Single Buffers Samples.
From stdpp Require Import list.
Open Scope Z_scope.

(* ------------------------------------------------------------------ *)
Module EchoCanceller.

(** The audio processing module: the near end, the far end, the detection of
    speech. *)
Class Apm (A : Type) := {
  ProcessStream : list Z → A → list Z * A;
  ProcessReverseStream : list Z → A → A;
  stream_has_voice : A → bool;
  set_stream_delay_ms : Z → A → A;
  enable_detection : bool → A → A;
}.
(** A frame is processed in place. *)
Class ApmLaws (A : Type) `{Apm A} := stream_in_place : ∀ l a, Forall (λ x, is_s16 x) l →
  zlen (ProcessStream l a).1 = zlen l ∧ Forall (λ x, is_s16 x) (ProcessStream l a).1.

Record t (A : Type) := mk {
  enableAEC : bool; enableAGC : bool; enableNS : bool; enableVAD : bool; isOn : bool;
  apm : A;
  didBufferFarend : bool;
}.
#[global] Arguments mk {A}. #[global] Arguments enableAEC {A}. #[global] Arguments enableAGC {A}. #[global] Arguments enableNS {A}.
#[global] Arguments enableVAD {A}. #[global] Arguments isOn {A}. #[global] Arguments apm {A}. #[global] Arguments didBufferFarend {A}.
#[global] Instance echo_eta {A} : Eta (t A) := λ e,
  mk (enableAEC e) (enableAGC e) (enableNS e) (enableVAD e) (isOn e) (apm e) (didBufferFarend e).

Section ops.
Context {A : Type} `{Apm A}.

Definition ctor (aec ns agc : bool) (a : A) : t A := mk aec agc ns false true a false.
Definition Enable (b : bool) (e : t A) : t A := e <| isOn := b |>.
Definition SetVoiceDetectionEnabled (b : bool) (e : t A) : t A := e <| enableVAD := b |> <| apm ::= enable_detection b |>.

(** Half a block; [delay] is the estimated delay of the audio devices. *)
Definition process_half (delay : Z) (l : list Z) (e : t A) : list Z * t A :=
  let e := if enableAEC e then e <| apm ::= set_stream_delay_ms delay |> else e in
  let '(out, a) := ProcessStream l (apm e) in
  (out, e <| apm := a |>).
(** [ProcessInput(inOut, 960, hasVoice)]. *)
Definition ProcessInput (delay : Z) (inOut : list Z) (hasVoice : bool) (e : t A) : list Z * bool * t A :=
  if negb (isOn e) || (negb (enableAEC e) && negb (enableAGC e) && negb (enableNS e)) then (inOut, hasVoice, e)
  else
    let '(l1, e) := process_half delay (take 480 inOut) e in
    let hasVoice := if enableVAD e then stream_has_voice (apm e) else hasVoice in
    let '(l2, e) := process_half delay (drop 480 inOut) e in
    let hasVoice := if enableVAD e then hasVoice || stream_has_voice (apm e) else hasVoice in
    (l1 ++ l2, hasVoice, e).
(** What the thread of the far end does with a block. *)
Definition BufferFarend (samplesIn : list Z) (e : t A) : t A :=
  e <| apm ::= λ a, ProcessReverseStream (drop 480 samplesIn) (ProcessReverseStream (take 480 samplesIn) a) |>
    <| didBufferFarend := true |>.
(** The test of [SpeakerOutCallback]. *)
Definition wants_farend (len : Z) (e : t A) : bool := negb (negb (len =? 1920) || negb (enableAEC e) || negb (isOn e)).
End ops.
End EchoCanceller.

(* ------------------------------------------------------------------ *)
Module OpusEncoder.

Inductive bandwidth := NARROWBAND | SUPERWIDEBAND | FULLBAND.
(** [opus_encoder_ctl]. *)
Inductive request :=
  | SET_COMPLEXITY (n : Z) | SET_PACKET_LOSS_PERC (n : Z) | SET_INBAND_FEC (n : Z) | SET_SIGNAL_VOICE
  | SET_BANDWIDTH (b : bandwidth) | SET_BITRATE (n : Z) | SET_DTX (n : Z).

(** The library; the first argument says which of the two encoders.
    [opus_encode] returns the length of the packet, or a negative number. *)
Class OpusEnc (W : Type) := {
  opus_encode : bool → list Z → Z → W → Z * bytes * W;
  opus_encoder_ctl : bool → request → W → W;
}.
Class OpusEncLaws (W : Type) `{OpusEnc W} := packet_fits : ∀ second pcm max w, 0 ≤ max →
  let '(r, packet, _) := opus_encode second pcm max w in is_s32 r ∧ r ≤ max ∧ zlen packet = Z.max 0 r.

(** A call of the controller: the frame, the length of the second one and
    what its buffer holds. *)
Record call := mkcall { c_data : bytes; c_secondaryLength : Z; c_secondaryData : bytes }.

Record t (W A : Type) := mk {
  enc : W;
  secondaryEncoder : bool;
  requestedBitrate : Z;
  currentBitrate : Z;
  echoCanceller : option (EchoCanceller.t A);
  complexity : Z;
  running : bool;
  frameDuration : Z;
  packetLossPercent : Z;
  mediumCorrectionBitrate : Z;
  strongCorrectionBitrate : Z;
  mediumCorrectionMultiplier : double;
  strongCorrectionMultiplier : double;
  levelMeter : option AudioLevelMeter.t;
  secondaryEncoderEnabled : bool;
  vadMode : bool;
  vadNoVoiceBitrate : Z;
  postProcEffects : list Z;
  (** the locals of the thread *)
  packetsPerFrame : Z;
  bufferedCount : Z;
  frame : list Z;
  frameHasVoice : bool;
  wasVadMode : bool;
  (** history: the calls of the controller, the blocks given to the library
      and the blocks as they came out of the effects *)
  calls : list call;
  encoded : list (list Z);
  blocks : list (list Z);
}.
#[global] Arguments mk {W A}. #[global] Arguments enc {W A}. #[global] Arguments secondaryEncoder {W A}.
#[global] Arguments requestedBitrate {W A}. #[global] Arguments currentBitrate {W A}. #[global] Arguments echoCanceller {W A}.
#[global] Arguments complexity {W A}. #[global] Arguments running {W A}. #[global] Arguments frameDuration {W A}.
#[global] Arguments packetLossPercent {W A}. #[global] Arguments mediumCorrectionBitrate {W A}.
#[global] Arguments strongCorrectionBitrate {W A}. #[global] Arguments mediumCorrectionMultiplier {W A}.
#[global] Arguments strongCorrectionMultiplier {W A}. #[global] Arguments levelMeter {W A}.
#[global] Arguments secondaryEncoderEnabled {W A}. #[global] Arguments vadMode {W A}. #[global] Arguments vadNoVoiceBitrate {W A}.
#[global] Arguments postProcEffects {W A}. #[global] Arguments packetsPerFrame {W A}. #[global] Arguments bufferedCount {W A}. #[global] Arguments frame {W A}.
#[global] Arguments frameHasVoice {W A}. #[global] Arguments wasVadMode {W A}. #[global] Arguments calls {W A}.
#[global] Arguments encoded {W A}. #[global] Arguments blocks {W A}.
#[global] Instance opus_encoder_eta {W A} : Eta (t W A) := λ s,
  mk (enc s) (secondaryEncoder s) (requestedBitrate s) (currentBitrate s) (echoCanceller s) (complexity s) (running s)
     (frameDuration s) (packetLossPercent s) (mediumCorrectionBitrate s) (strongCorrectionBitrate s)
     (mediumCorrectionMultiplier s) (strongCorrectionMultiplier s) (levelMeter s) (secondaryEncoderEnabled s) (vadMode s)
     (vadNoVoiceBitrate s) (postProcEffects s) (packetsPerFrame s) (bufferedCount s) (frame s) (frameHasVoice s) (wasVadMode s)
     (calls s) (encoded s) (blocks s).

Section ops.
Context {W A : Type} `{OE : OpusEnc W} `{AP : EchoCanceller.Apm A}.
Implicit Types s : t W A.

Definition ctl (second : bool) (r : request) s : t W A := s <| enc ::= opus_encoder_ctl second r |>.
(** A request to the second encoder, where there is one. *)
Definition ctl_second (r : request) s : t W A := if secondaryEncoder s then ctl true r s else s.

Definition SetBitrate (b : Z) s : t W A := s <| requestedBitrate := b |>.
Definition GetBitrate s : Z := requestedBitrate s.
Definition SetEchoCanceller (e : option (EchoCanceller.t A)) s : t W A := s <| echoCanceller := e |>.
Definition SetOutputFrameDuration (d : Z) s : t W A := s <| frameDuration := d |>.
(** The percentage that is kept is limited, the one the library gets is not;
    [None]: the cast is undefined. *)
Definition SetPacketLoss (percent : Z) s : option (t W A) :=
  let s := s <| packetLossPercent := Z.min 20 percent |> in
  let multiplier :=
    if currentBitrate s <=? strongCorrectionBitrate s then strongCorrectionMultiplier s
    else if currentBitrate s <=? mediumCorrectionBitrate s then mediumCorrectionMultiplier s
    else D.of_Z 1 in
  n ← D.to_s32 (D.mul (D.of_Z percent) multiplier);
  Some (ctl false (SET_PACKET_LOSS_PERC n) s).
Definition GetPacketLoss s : Z := packetLossPercent s.
Definition SetDTX (b : bool) s : t W A := ctl false (SET_DTX (if b then 1 else 0)) s.
Definition SetLevelMeter (m : option AudioLevelMeter.t) s : t W A := s <| levelMeter := m |>.
Definition SetSecondaryEncoderEnabled (b : bool) s : t W A := s <| secondaryEncoderEnabled := b |>.
Definition SetVadMode (b : bool) s : t W A := s <| vadMode := b |>.
Definition AddAudioEffect (e : Z) s : t W A := s <| postProcEffects ::= λ l, l ++ [e] |>.
Definition GetComplexity s : Z := complexity s.
(** A block for which there was no buffer left: the encoder is too slow. *)
Definition no_buffer s : t W A :=
  if 1 <? complexity s then ctl false (SET_COMPLEXITY (complexity s - 1)) (s <| complexity := complexity s - 1 |>) else s.

Definition meter (samples : list Z) : M (t W A) unit :=
  s ← get;
  match levelMeter s with
  | Some m => m ← defined (AudioLevelMeter.Update samples m); put (s <| levelMeter := Some m |>)
  | None => mret tt
  end.
Definition encode (second : bool) (pcm : list Z) (max : Z) : M (t W A) (Z * bytes) :=
  s ← get;
  let '(r, packet, w) := opus_encode second pcm max (enc s) in
  put (s <| enc := w |> <| encoded ::= λ l, if second then l else l ++ [pcm] |>);;
  mret (r, packet).

(** [Encode(data, len)]. *)
Definition Encode (data : list Z) : M (t W A) unit :=
  modify (λ s, if requestedBitrate s =? currentBitrate s then s
               else ctl false (SET_BITRATE (requestedBitrate s)) s <| currentBitrate := requestedBitrate s |>);;
  meter data;;
  '(r, packet) ← encode false data 4096;
  s ← get;
  if r <=? 0 then mret tt
  else if r =? 1 then mret tt
  else if running s then
    '(n, second) ← (if secondaryEncoderEnabled s && secondaryEncoder s then encode true data 128 else mret (0, []));
    modify (λ s, s <| calls ::= λ l, l ++ [mkcall packet (u64 n) second] |>)
  else mret tt.

(** The requests for a frame with or without speech. *)
Definition follow_voice s : t W A :=
  let both (rate : Z) (first second : bandwidth) s :=
    ctl_second (SET_BANDWIDTH second) (ctl_second (SET_BITRATE rate)
      (ctl false (SET_BANDWIDTH first) (ctl false (SET_BITRATE rate) s))) in
  if vadMode s then
    (if frameHasVoice s then both (currentBitrate s) SUPERWIDEBAND SUPERWIDEBAND s
     else both (vadNoVoiceBitrate s) NARROWBAND NARROWBAND s) <| wasVadMode := true |>
  else if wasVadMode s then both (currentBitrate s) FULLBAND SUPERWIDEBAND (s <| wasVadMode := false |>)
  else s.

Definition cast {X} (o : option X) : M (t W A) X :=
  match o with Some a => mret a | None => crash_with BadCast end.
Fixpoint effects (vol : Z → Volume.t) (l : list Z) (packet : list Z) : option (list Z) :=
  match l with [] => Some packet | e :: l' => out ← Volume.Process (vol e) packet; effects vol l' out end.

(** [memcpy(frame+960*bufferedCount, packet, 960*2)]. *)
Definition into_frame (packet : list Z) (s : t W A) : option (list Z) :=
  let p := 960 * bufferedCount s in
  if p + 960 <=? zlen (frame s) then Some (overwrite (frame s) (Z.to_nat p) packet) else None.

(** The loop of [RunThread] for a block of the queue. *)
Definition on_packet (delay : Z) (vol : Z → Volume.t) (packet : list Z) : M (t W A) unit :=
  s ← get;
  let '(packet, hasVoice, e) :=
    match echoCanceller s with
    | Some e => let '(p, v, e) := EchoCanceller.ProcessInput delay packet true e in (p, v, Some e)
    | None => (packet, true, None)
    end in
  put (s <| echoCanceller := e |>);;
  packet ← cast (effects vol (postProcEffects s) packet);
  modify (λ s, s <| blocks ::= λ l, l ++ [packet] |>);;
  s ← get;
  if packetsPerFrame s =? 1 then Encode packet
  else
    f ← defined (into_frame packet s);
    put (s <| frame := f |> <| frameHasVoice := frameHasVoice s || hasVoice |> <| bufferedCount := u32 (bufferedCount s + 1) |>);;
    s ← get;
    if bufferedCount s =? packetsPerFrame s then
      modify follow_voice;;
      s ← get;
      Encode (frame s);;
      modify (λ s, s <| bufferedCount := 0 |> <| frameHasVoice := false |>)
    else mret tt.

(** The locals when the thread starts; [fresh] is what the frame's memory
    holds. *)
Definition RunThread_start (fresh : list Z) s : t W A :=
  s <| packetsPerFrame := frameDuration s / 20 |> <| bufferedCount := 0 |>
    <| frame := if 1 <? frameDuration s / 20 then fresh else [] |> <| frameHasVoice := false |> <| wasVadMode := false |>.
Fixpoint on_packets (vol : Z → Volume.t) (l : list (Z * list Z)) : M (t W A) unit :=
  match l with [] => mret tt | p :: l' => on_packet p.1 vol p.2;; on_packets vol l' end.
End ops.

(** The constructor; the parameters sent by the server and the memory of
    [packetLossPercent] are arguments. *)
Definition ctor {W A} `{OpusEnc W} (w : W) (needSecondary : bool) (medium strong noVoice : Z) (mediumM strongM : double) (memory : Z) : t W A :=
  let w := foldl (λ w r, opus_encoder_ctl false r w) w
    [SET_COMPLEXITY 10; SET_PACKET_LOSS_PERC 15; SET_INBAND_FEC 1; SET_SIGNAL_VOICE; SET_BANDWIDTH FULLBAND] in
  let w := if needSecondary then foldl (λ w r, opus_encoder_ctl true r w) w
    [SET_COMPLEXITY 10; SET_SIGNAL_VOICE; SET_BITRATE 8000; SET_INBAND_FEC 1; SET_PACKET_LOSS_PERC 15; SET_BANDWIDTH SUPERWIDEBAND] else w in
  mk w needSecondary 20000 0 None 10 false 20 memory (u32 medium) (u32 strong) mediumM strongM None false false (u32 noVoice) []
     1 0 [] false false [] [] [].
End OpusEncoder.

(* ------------------------------------------------------------------ *)
(** ** Every sample is encoded once *)

Section encoding.
Import OpusEncoder.
Context {W A : Type} `{OE : OpusEnc W} `{AP : EchoCanceller.Apm A} {OL : OpusEncLaws W} {AL : EchoCanceller.ApmLaws A}.
Context (n : Z) (Hn : 1 ≤ n ≤ 6).
Implicit Types s : t W A.

Abbreviation samples := (Forall (λ x, is_s16 x)).
(** What the controller is called with: the second frame fits its buffer, or
    the second encoder failed. *)
Definition call_fits (c : call) : Prop :=
  2 ≤ zlen (c_data c) ≤ 4096 ∧ zlen (c_secondaryData c) ≤ 128 ∧
  (c_secondaryLength c = zlen (c_secondaryData c) ∨ 2 ^ 63 ≤ c_secondaryLength c).

Record encoder_ok s : Prop := {
  eo_ppf : packetsPerFrame s = n;
  eo_count : 0 ≤ bufferedCount s < n;
  eo_frame : n ≠ 1 → zlen (frame s) = 960 * n;
  eo_samples : samples (frame s);
  eo_once : concat (encoded s) ++ take (Z.to_nat (960 * bufferedCount s)) (frame s) = concat (blocks s);
  eo_encoded : Forall (λ f, zlen f = 960 * n) (encoded s);
  eo_calls : Forall call_fits (calls s);
  eo_meter : ∀ m, levelMeter s = Some m → meter_ok m;
}.
Definition never {X} : exn → X → Prop := λ _ _, False.
#[local] Abbreviation wpe m s Q := (wp m s Q never (λ c, c = BadCast)).

Lemma effects_samples vol l packet out : effects vol l packet = Some out → samples packet → zlen out = zlen packet ∧ samples out.
Proof.
  revert packet. induction l as [|e l IH]; intros packet E Hp; [by injection E as ->|]. cbn in E.
  destruct (Volume.Process (vol e) packet) as [x|] eqn:Ex; [|done]. cbn in E. destruct (Process_samples _ _ _ Ex Hp) as [Hl Hx].
  destruct (IH x E Hx) as [-> Ho]. done.
Qed.
Lemma ProcessInput_samples delay (l : list Z) v (e : EchoCanceller.t A) : zlen l = 960 → samples l →
  zlen (EchoCanceller.ProcessInput delay l v e).1.1 = 960 ∧ samples (EchoCanceller.ProcessInput delay l v e).1.1.
Proof.
  intros Hl Hs. unfold EchoCanceller.ProcessInput. destruct (_ || _); [done|].
  assert (∀ (x : list Z) (e : EchoCanceller.t A), samples x → zlen (EchoCanceller.process_half delay x e).1 = zlen x ∧ samples (EchoCanceller.process_half delay x e).1) as Hhalf.
  { intros x e' Hx. unfold EchoCanceller.process_half. set (e2 := if EchoCanceller.enableAEC e' then _ else _).
    pose proof (EchoCanceller.stream_in_place x (EchoCanceller.apm e2) Hx) as H. by destruct (EchoCanceller.ProcessStream x (EchoCanceller.apm e2)). }
  pose proof (Hhalf (take 480 l) e (Forall_take _ _ _ Hs)) as [H1 H1']. destruct (EchoCanceller.process_half delay (take 480 l) e) as [l1 e1].
  pose proof (Hhalf (drop 480 l) e1 (Forall_drop _ _ _ Hs)) as [H2 H2']. destruct (EchoCanceller.process_half delay (drop 480 l) e1) as [l2 e2].
  cbn [fst snd] in *. split; [|by apply Forall_app_2]. unfold zlen in *. rewrite length_app, length_take, length_drop in *. lia.
Qed.

(** What stays as it is while a block is encoded. *)
Definition like s s' : Prop :=
  packetsPerFrame s' = packetsPerFrame s ∧ bufferedCount s' = bufferedCount s ∧ frame s' = frame s ∧ blocks s' = blocks s.
Lemma wp_encoder_meter l s Q : samples l → (∀ m, levelMeter s = Some m → meter_ok m) →
  (∀ m, (∀ m', m = Some m' → meter_ok m') → Q tt (s <| levelMeter := m |>)) → wpe (meter l) s Q.
Proof.
  intros Hl Hm HQ. unfold meter. apply wp_bind, wp_get. destruct (levelMeter s) as [m|] eqn:Em.
  - apply wp_bind. destruct (Update_ok l m Hl (Hm m eq_refl)) as (m' & E & Hm'). eapply wp_defined; [exact E|].
    apply wp_put, HQ. by intros ? [= <-].
  - apply wp_ret. replace s with (s <| levelMeter := None |>) by (destruct s; cbn in Em; by subst). by apply HQ.
Qed.
Lemma wp_encode (second : bool) (pcm : list Z) (max : Z) s Q : 0 ≤ max →
  (∀ (r : Z) (packet : bytes) (w : W), is_s32 r → r ≤ max → zlen packet = Z.max 0 r →
     Q (r, packet) (s <| enc := w |> <| encoded ::= λ l, if second then l else l ++ [pcm] |>)) → wpe (encode second pcm max) s Q.
Proof.
  intros Hmax HQ. unfold encode. apply wp_bind, wp_get. pose proof (packet_fits second pcm max (enc s) Hmax) as Hf.
  destruct (opus_encode _ _ _ _) as [[r packet] w]. destruct Hf as (H1 & H2 & H3). apply wp_bind, wp_put, wp_ret. by apply HQ.
Qed.
Lemma wp_Encode data s Q : samples data → (∀ m, levelMeter s = Some m → meter_ok m) → Forall call_fits (calls s) →
  (∀ s', like s s' → encoded s' = encoded s ++ [data] → (∀ m, levelMeter s' = Some m → meter_ok m) → Forall call_fits (calls s') → Q tt s') →
  wpe (Encode data) s Q.
Proof.
  intros Hd Hm Hc HQ. unfold Encode. apply wp_bind, wp_modify. set (s1 := if requestedBitrate s =? currentBitrate s then s else _).
  assert (like s s1 ∧ encoded s1 = encoded s ∧ levelMeter s1 = levelMeter s ∧ calls s1 = calls s) as (L1 & E1 & M1 & C1)
    by (subst s1; by destruct (_ =? _)).
  clearbody s1. apply wp_bind, wp_encoder_meter; [done|by rewrite M1|]. intros m Hm2. apply wp_bind, wp_encode; [lia|]. intros r packet w H32 Hr Hl.
  set (s2 := _ <| encoded ::= _ |>).
  assert (like s s2 ∧ encoded s2 = encoded s ++ [data] ∧ levelMeter s2 = m ∧ calls s2 = calls s) as (L2 & E2 & M2 & C2)
    by (subst s2; cbn; by rewrite E1).
  clearbody s2. apply wp_bind, wp_get. destruct (Z.leb_spec r 0); [apply wp_ret, HQ; [done|done|by rewrite M2|by rewrite C2]|].
  destruct (Z.eqb_spec r 1); [apply wp_ret, HQ; [done|done|by rewrite M2|by rewrite C2]|].
  apply wp_if; intros _; [|apply wp_ret, HQ; [done|done|by rewrite M2|by rewrite C2]].
  assert (∀ (k : Z) (second : bytes) (s3 : t W A), like s s3 → encoded s3 = encoded s ++ [data] → levelMeter s3 = m → calls s3 = calls s →
    zlen second = Z.max 0 k → k ≤ 128 → is_s32 k →
    Q tt (s3 <| calls ::= λ l, l ++ [mkcall packet (u64 k) second] |>)) as Hend.
  { intros k second s3 L3 E3 M3 C3 Hk Hk2 Hk3. apply HQ; [done|done|cbn; by rewrite M3|]. cbn. rewrite C3.
    apply Forall_app_2; [done|]. constructor; [|done]. split_and!; cbn; [lia|lia|lia|].
    destruct (decide (0 ≤ k)); [left; rewrite u64_small; lia|right]. unfold u64. rewrite <- (Z_mod_plus_full k 1). rewrite Z.mod_small; lia. }
  apply wp_bind, wp_if; intros _.
  - apply wp_encode; [lia|]. intros k second w' Hk32 Hk Hk2. apply wp_modify, Hend; done.
  - apply wp_ret, wp_modify. by apply Hend.
Qed.

Lemma follow_voice_like s : like s (follow_voice s) ∧ encoded (follow_voice s) = encoded s ∧ levelMeter (follow_voice s) = levelMeter s ∧
  calls (follow_voice s) = calls s.
Proof.
  unfold follow_voice, ctl_second. destruct (vadMode s); [destruct (frameHasVoice s)|destruct (wasVadMode s)];
    cbn; repeat match goal with |- context [if ?b then _ else _] => destruct b end; done.
Qed.

Lemma wp_on_packet delay vol packet s : encoder_ok s → zlen packet = 960 → samples packet →
  wpe (on_packet delay vol packet) s (λ _ s', encoder_ok s' ∧ length (blocks s') = S (length (blocks s))).
Proof.
  intros Hs Hl Hp. unfold on_packet. apply wp_bind, wp_get.
  assert (∃ p v e, match echoCanceller s with
    | Some e => let '(p, v, e) := EchoCanceller.ProcessInput delay packet true e in (p, v, Some e)
    | None => (packet, true, None) end = (p, v, e) ∧ zlen p = 960 ∧ samples p) as (p & v & e & -> & Hpl & Hps).
  { destruct (echoCanceller s) as [e|]; [|by exists packet, true, None]. pose proof (ProcessInput_samples delay packet true e Hl Hp) as [H1 H2].
    destruct (EchoCanceller.ProcessInput delay packet true e) as [[p v] e']. by exists p, v, (Some e'). }
  apply wp_bind, wp_put, wp_bind. destruct (effects vol (postProcEffects s) p) as [q|] eqn:Eq; [|by apply wp_crash].
  destruct (effects_samples _ _ _ _ Eq Hps) as [Hql Hqs]. rewrite Hpl in Hql. apply wp_ret, wp_bind, wp_modify, wp_bind, wp_get.
  set (s1 := s <| echoCanceller := e |> <| blocks ::= λ l, l ++ [q] |>). destruct Hs as [Hppf Hcnt Hfr Hsm Honce Henc Hcalls Hmeter].
  change (packetsPerFrame s1) with (packetsPerFrame s). rewrite Hppf. destruct (Z.eqb_spec n 1) as [E1|E1].
  - apply wp_Encode; [done..|]. intros s2 (L1 & L2 & L3 & L4) Hen Hm Hc.
    assert (bufferedCount s = 0) as Hz by lia.
    split; [constructor; [by rewrite L1|by rewrite L2|done|by rewrite L3| | |done|done]|].
    + rewrite Hen, L3, L4, concat_app, L2. cbn. rewrite Hz in *. rewrite concat_app. cbn. rewrite <- Honce. cbn. by rewrite take_0, !app_nil_r.
    + rewrite Hen. apply Forall_app_2; [done|]. constructor; [lia|done].
    + rewrite L4. cbn. rewrite length_app. cbn. lia.
  - assert (into_frame q s1 = Some (overwrite (frame s) (Z.to_nat (960 * bufferedCount s)) q)) as Ef.
    { unfold into_frame. cbn. rewrite (proj2 (Z.leb_le _ _)); [done|]. rewrite Hfr by done. lia. }
    apply wp_bind. eapply wp_defined; [exact Ef|]. set (f := overwrite _ _ _).
    assert (Z.to_nat (960 * bufferedCount s) + length q ≤ length (frame s))%nat as Hfit by (specialize (Hfr E1); unfold zlen in *; lia).
    assert (zlen f = 960 * n) as Hfl by (subst f; rewrite zlen_overwrite; [by apply Hfr|done]).
    assert (samples f) as Hfs by (subst f; unfold overwrite; repeat apply Forall_app_2; [by apply Forall_take|done|by apply Forall_drop]).
    assert (concat (encoded s) ++ take (Z.to_nat (960 * (bufferedCount s + 1))) f = concat (blocks s1)) as Honce'.
    { cbn. rewrite concat_app, <- Honce, <- app_assoc. f_equal. cbn. rewrite app_nil_r. subst f. unfold overwrite.
      rewrite take_app, length_take_le by lia. rewrite take_ge by (rewrite length_take; lia). f_equal.
      rewrite take_app_le by (unfold zlen in *; lia). apply take_ge. unfold zlen in *; lia. }
    apply wp_bind, wp_put, wp_bind, wp_get. cbn [bufferedCount packetsPerFrame]. cbn -[zlen]. rewrite (u32_small (bufferedCount s + 1)) by lia.
    rewrite Hppf. destruct (Z.eqb_spec (bufferedCount s + 1) n) as [En|En].
    + apply wp_bind, wp_modify. set (s3 := s1 <| frame := f |> <| frameHasVoice := frameHasVoice s || v |> <| bufferedCount := bufferedCount s + 1 |>).
      change (wp (s0 ← get; Encode (frame s0);; modify (λ s0, s0 <| bufferedCount := 0 |> <| frameHasVoice := false |>)) (follow_voice s3)
        (λ _ s', encoder_ok s' ∧ length (blocks s') = S (length (blocks s))) never (λ c, c = BadCast)).
      destruct (follow_voice_like s3) as ((F1 & F2 & F3 & F4) & F5 & F6 & F7). set (s4 := follow_voice s3) in *. clearbody s4.
      apply wp_bind, wp_get, wp_bind, wp_Encode; [by rewrite F3|by rewrite F6|by rewrite F7|].
      intros s5 (L1 & L2 & L3 & L4) Hen Hm Hc. apply wp_modify. rewrite F3 in *. cbn [frame] in Hen.
      change (frame s3) with f in *. change (blocks s3) with (blocks s1) in *. change (encoded s3) with (encoded s) in *. change (packetsPerFrame s3) with (packetsPerFrame s) in *.
      split; [constructor; [cbn; congruence|cbn; lia|cbn; by rewrite L3|cbn; by rewrite L3| | |done|done]|].
      * cbn -[take]. rewrite take_0, app_nil_r, Hen, F5, L4, F4, concat_app, <- Honce'. f_equal. cbn. rewrite app_nil_r, En. symmetry. apply take_ge. unfold zlen in *; lia.
      * cbn. rewrite Hen, F5. apply Forall_app_2; [done|]. by constructor.
      * cbn. rewrite L4, F4. cbn. rewrite length_app. cbn. lia.
    + apply wp_ret. split; [constructor; cbn -[zlen take]; try done; lia|]. cbn. rewrite length_app. cbn. lia.
Qed.

Lemma wp_on_packets vol l s : encoder_ok s → Forall (λ p : Z * list Z, zlen p.2 = 960 ∧ samples p.2) l →
  wpe (on_packets vol l) s (λ _ s', encoder_ok s' ∧ length (blocks s') = (length (blocks s) + length l)%nat).
Proof.
  intros Hs Hl. revert s Hs. induction Hl as [|p l [Hp1 Hp2] Hl IH]; intros s Hs; [apply wp_ret; split; [done|cbn; lia]|].
  apply wp_bind. eapply wp_mono; [by apply wp_on_packet|]. intros [] s1 [H1 E1]. cbn beta.
  eapply wp_mono; [by apply IH|]. intros [] s2 [H2 E2]. cbn beta in *. split; [done|]. rewrite E2, E1. cbn. lia.
Qed.

(** C13. The encoder thread, for any blocks of 20 ms from the microphone and any
    answers of the library: nothing is written outside the frame, every
    sample that comes out of the echo canceller and the effects is given to
    the library exactly once and in order (or still waits in the frame), in
    frames of exactly the configured duration; and the controller is called
    with frames that fit its buffers, unless the second encoder failed, whose
    error is passed on as a length.  What remains is the cast of a volume. *)
Theorem every_sample_is_encoded_once vol l fresh s :
  frameDuration s / 20 = n → zlen fresh = 960 * n → samples fresh →
  encoded s = [] → blocks s = [] → Forall call_fits (calls s) → (∀ m, levelMeter s = Some m → meter_ok m) →
  Forall (λ p : Z * list Z, zlen p.2 = 960 ∧ samples p.2) l →
  wp (on_packets vol l) (RunThread_start fresh s) (λ _ s',
    length (blocks s') = length l ∧
    concat (encoded s') ++ take (Z.to_nat (960 * bufferedCount s')) (frame s') = concat (blocks s') ∧
    Forall (λ f, zlen f = 960 * n) (encoded s') ∧ 0 ≤ bufferedCount s' < n ∧ Forall call_fits (calls s'))
    never (λ c, c = BadCast).
Proof.
  intros Hd Hf Hfs He Hb Hc Hm Hl. eapply wp_mono; [apply (wp_on_packets vol l); [|done]|].
  - unfold RunThread_start. constructor; cbn -[zlen take]; rewrite ?Hd; [done|lia| | | |by rewrite He|done|done].
    + intros Hn1. destruct (Z.ltb_spec 1 n); [done|lia].
    + by destruct (1 <? n).
    + by rewrite He, Hb, take_0.
  - intros [] s' [[] E]. split_and!; try done; [|lia..]. rewrite E. unfold RunThread_start. cbn. by rewrite Hb.
Qed.
End encoding.

(* ------------------------------------------------------------------ *)
(** ** Examples *)

Section example.
Import OpusEncoder.

(** A library that answers with a byte for every ten samples, and an audio
    processing module that does nothing. *)
Definition toy_encoder : OpusEnc (list (bool * request)) := {|
  opus_encode second pcm max w :=
    let p := replicate (Z.to_nat (Z.min (Z.min max 4096) (zlen pcm / 10))) 1 in (zlen p, p, w);
  opus_encoder_ctl second r w := w ++ [(second, r)] |}.
#[local] Existing Instance toy_encoder.
#[local] Instance toy_encoder_laws : OpusEncLaws (list (bool * request)).
Proof.
  intros second pcm max w Hmax. unfold opus_encode, toy_encoder. rewrite !zlen_replicate. pose proof (zlen_nonneg pcm).
  assert (0 ≤ zlen pcm / 10) by (apply Z.div_pos; lia). lia.
Qed.
Definition toy_apm : EchoCanceller.Apm unit := {|
  EchoCanceller.ProcessStream l a := (l, a); EchoCanceller.ProcessReverseStream l a := a; EchoCanceller.stream_has_voice a := true;
  EchoCanceller.set_stream_delay_ms n a := a; EchoCanceller.enable_detection b a := a |}.
#[local] Existing Instance toy_apm.
#[local] Instance toy_apm_laws : EchoCanceller.ApmLaws unit.
Proof. by intros l a Hl. Qed.

Definition example_encoder : t (list (bool * request)) unit :=
  SetOutputFrameDuration 60 (SetEchoCanceller (Some (EchoCanceller.ctor true true true tt))
    (ctor [] true 10000 8000 6000 (D.of_dec 8 1) (D.of_dec 5 1) 0)).
Definition example_input : list (Z * list Z) := (λ x, (20, replicate (Z.to_nat 960) x)) <$> [1; 2; 3; 4].

(** After four blocks one frame was encoded, of the first three. *)
Example four_blocks :
  (encoded <$> end_state (on_packets (λ _, Volume.ctor) example_input (RunThread_start (replicate (Z.to_nat 2880) 0) example_encoder))) =
  Some [replicate (Z.to_nat 960) 1 ++ replicate (Z.to_nat 960) 2 ++ replicate (Z.to_nat 960) 3].
Proof. by vm_compute. Qed.

(** The percentage the library gets is not limited. *)
Example packet_loss_is_not_limited :
  (λ s, (GetPacketLoss s, last (enc s))) <$> SetPacketLoss 40 (example_encoder <| currentBitrate := 20000 |>) =
  Some (20, Some (false, SET_PACKET_LOSS_PERC 40)).
Proof. by vm_compute. Qed.

Lemma every_sample_is_encoded_once_witness :
  wp (on_packets (λ _, Volume.ctor) example_input) (RunThread_start (replicate (Z.to_nat 2880) 0) example_encoder) (λ _ s',
    length (blocks s') = length example_input ∧
    concat (encoded s') ++ take (Z.to_nat (960 * bufferedCount s')) (frame s') = concat (blocks s') ∧
    Forall (λ f, zlen f = 960 * 3) (encoded s') ∧ 0 ≤ bufferedCount s' < 3 ∧ Forall call_fits (calls s'))
    never (λ c, c = BadCast).
Proof.
  apply (every_sample_is_encoded_once 3 ltac:(lia) (λ _, Volume.ctor) example_input (replicate (Z.to_nat 2880) 0) example_encoder);
    [reflexivity|by rewrite zlen_replicate|apply Forall_replicate; lia|reflexivity|reflexivity|constructor|done|].
  apply Forall_fmap. repeat (constructor; [split; [cbn -[replicate Z.to_nat]; by rewrite zlen_replicate|apply Forall_replicate; lia]|]). constructor.
Defined.
End example.
