(* ===== verification/Pipeline.v ===== *)
(** * libtgvoip: audio between threads

    Blocks of audio go from one thread to another through a [BufferPool] and a
    [BlockingQueue].  [Recording] is the way of the microphone's blocks to the
    encoder thread ([OpusEncoder::Callback], [RunThread], [Stop]); the far end
    of the echo canceller ([SpeakerOutCallback], [RunBufferFarendThread]) is
    the same without the end.  [Playing] is the way of the decoder thread's
    blocks to the audio device ([OpusDecoder::RunThread], [HandleCallback],
    [Stop]), with a semaphore that limits how far the decoder runs ahead.
    Every access to shared memory and every call of a pool, queue or semaphore
    is a step of its own; a step that ends in [None] aborts the program. *)

From Stdlib Require Import ZArith Lia List.
From stdpp Require Import base tactics list numbers option sets.
From S2P Require Import Prelude Words Buffers Queues.
From stdpp Require Import list.
Open Scope Z_scope.

(* ------------------------------------------------------------------ *)
(** ** Threads *)

Section threads.
Context {T S : Type} (step : T → S → option S → Prop).

(** The steps of the threads in some order. *)
Inductive run : list T → S → S → Prop :=
| run_nil s : run [] s s
| run_cons t l s s1 s2 : step t s (Some s1) → run l s1 s2 → run (t :: l) s s2.

Lemma run_invariant (P : S → Prop) : (∀ t s s', step t s (Some s') → P s → P s') → ∀ l s s', run l s s' → P s → P s'.
Proof. intros HP l s s'. induction 1; eauto. Qed.
Lemma run_app l l' s s1 s2 : run l s s1 → run l' s1 s2 → run (l ++ l') s s2.
Proof. induction 1; [done|]. intros. econstructor; eauto. Qed.

(** A thread whose steps go down a measure that no other step raises takes
    at most that many steps. *)
Lemma run_measure `{EqDecision T} (t : T) (m : S → nat) (P : S → Prop) :
  (∀ t' s s', step t' s (Some s') → P s → P s') →
  (∀ s s', step t s (Some s') → P s → (m s' < m s)%nat) →
  (∀ t' s s', t' ≠ t → step t' s (Some s') → P s → (m s' ≤ m s)%nat) →
  ∀ l s s', run l s s' → P s → (length (filter (λ x, x = t) l) + m s' ≤ m s)%nat.
Proof.
  intros HP Hdown Hkeep l s s'. induction 1 as [s|t' l s s1 s2 Hs Hr IH]; intros Hp; [done|].
  specialize (IH (HP _ _ _ Hs Hp)). rewrite filter_cons. case_decide as Ht.
  - subst t'. pose proof (Hdown _ _ Hs Hp). cbn. lia.
  - pose proof (Hkeep _ _ _ Ht Hs Hp). lia.
Qed.
End threads.

(** The memory of a pool's buffers, by address. *)
Definition memory : Type := Z → bytes.
Definition write (a : Z) (d : bytes) (m : memory) : memory := λ b, if decide (b = a) then d else m b.
Lemma write_same a d m : write a d m a = d.
Proof. unfold write. by rewrite decide_True. Qed.
Lemma write_other a d m (l : list Z) : a ∉ l → write a d m <$> l = m <$> l.
Proof.
  intros Ha. apply list_fmap_ext. intros i b Hb%list_elem_of_lookup_2. unfold write. rewrite decide_False; [done|]. by intros ->.
Qed.

Lemma drop_nothing {X} cap cb (l : list X) : zlen l ≤ cap → BlockingQueue.drop_overflow cap cb l = Some (l, []).
Proof. intros Hl. destruct l; cbn [BlockingQueue.drop_overflow]; by rewrite (proj2 (Z.ltb_ge _ _) Hl). Qed.
(** A queue with room takes an element, whatever its callback. *)
Lemma Put_room {X} (x : X) q : zlen (BlockingQueue.queue q) < BlockingQueue.capacity q →
  BlockingQueue.Put x q = Some (BlockingQueue.mk (BlockingQueue.queue q ++ [x]) (BlockingQueue.capacity q) (BlockingQueue.semaphore q + 1)
                                  (BlockingQueue.overflowCallback q), []).
Proof.
  intros Hq. unfold BlockingQueue.Put. rewrite drop_nothing; [done|]. rewrite zlen_app. change (zlen [x]) with 1. lia.
Qed.

(* ------------------------------------------------------------------ *)
Module Recording.

(** The audio thread, in [Callback]. *)
Inductive producer :=
| PIdle
| PGot (a : Z) (data : bytes)      (** [bufferPool.Get()] returned a buffer *)
| PFilled (a : Z).                 (** [memcpy] done, before [queue.Put] *)
(** The thread of the consumer, in [RunThread]. *)
Inductive consumer :=
| CTest                            (** at [while(running)] *)
| CBlocking                        (** in [GetBlocking], at the semaphore *)
| CAcquired                        (** past it, before the lock *)
| CWorking (a : Z)                 (** with a block *)
| CReturning (a : Z)               (** the block was processed, before [Reuse] *)
| CExited.
(** The thread that calls [Stop]. *)
Inductive stopper :=
| SIdle
| SStopping                        (** [running=false] done, before [queue.Put(NULL)] *)
| SJoining                         (** in [thread->Join()] *)
| SDone.

Inductive thread := Producer | Consumer | Stopper.
#[global] Instance thread_eq_dec : EqDecision thread.
Proof. solve_decision. Defined.

Record t := mk {
  pool : BufferPool.t;
  mem : memory;
  queue : BlockingQueue.t (option Z);     (** addresses; [None] is [NULL] *)
  running : bool;
  prod : producer;
  cons : consumer;
  stop : stopper;
  accepted : list bytes;                  (** history: what was put into the queue *)
  handled : list bytes;                   (** history: what the consumer processed *)
  missed : Z;                             (** history: blocks without a buffer *)
}.
#[global] Instance recording_eta : Eta t := λ s,
  mk (pool s) (mem s) (queue s) (running s) (prod s) (cons s) (stop s) (accepted s) (handled s) (missed s).

(** [bufferPool(960*2, 10)], [queue(11)], the consumer started. *)
Definition start (base : Z) : option t :=
  p ← BufferPool.ctor base 1920 10;
  Some (mk p (λ _, []) (BlockingQueue.ctor 11) true PIdle CTest SIdle [] [] 0).

Definition put (x : option Z) (s : t) : option t :=
  r ← BlockingQueue.Put x (queue s); Some (s <| queue := r.1 |>).

(** [Callback(data, 960*2)]; also [SpeakerOutCallback]. *)
Inductive step_producer : t → option t → Prop :=
| p_get s data a p : prod s = PIdle → BufferPool.Get (pool s) = (Some a, p) →
    step_producer s (Some (s <| pool := p |> <| prod := PGot a data |>))
| p_miss s p : prod s = PIdle → BufferPool.Get (pool s) = (None, p) →
    step_producer s (Some (s <| pool := p |> <| missed := missed s + 1 |>))
| p_copy s a data : prod s = PGot a data →
    step_producer s (Some (s <| mem := write a data (mem s) |> <| prod := PFilled a |>))
| p_put s a : prod s = PFilled a →
    step_producer s ((λ s' : t, s' <| prod := PIdle |> <| accepted ::= λ l, l ++ [mem s a] |>) <$> put (Some a) s).

(** [RunThread]; also [RunBufferFarendThread]. *)
Inductive step_consumer : t → option t → Prop :=
| c_test s : cons s = CTest → step_consumer s (Some (s <| cons := if running s then CBlocking else CExited |>))
| c_acquire s q : cons s = CBlocking → BlockingQueue.Acquire (queue s) = Some q →
    step_consumer s (Some (s <| queue := q |> <| cons := CAcquired |>))
| c_pop s : cons s = CAcquired →
    step_consumer s (r ← BlockingQueue.GetInternal (queue s);
                     Some (s <| queue := r.2 |> <| cons := match r.1 with Some a => CWorking a | None => CTest end |>))
| c_work s a : cons s = CWorking a →
    step_consumer s (Some (s <| handled := handled s ++ [mem s a] |> <| cons := CReturning a |>))
| c_reuse s a : cons s = CReturning a →
    step_consumer s (p ← BufferPool.Reuse a (pool s); Some (s <| pool := p |> <| cons := CTest |>)).

(** [Stop()]. *)
Inductive step_stopper : t → option t → Prop :=
| s_stop s : stop s = SIdle → running s = true → step_stopper s (Some (s <| running := false |> <| stop := SStopping |>))
| s_put s : stop s = SStopping → step_stopper s ((λ s' : t, s' <| stop := SJoining |>) <$> put None s)
| s_join s : stop s = SJoining → cons s = CExited → step_stopper s (Some (s <| stop := SDone |>)).

Definition step (who : thread) : t → option t → Prop :=
  match who with Producer => step_producer | Consumer => step_consumer | Stopper => step_stopper end.

(** Reached from the start. *)
Definition reachable (base : Z) (s : t) : Prop := ∃ s0 l, start base = Some s0 ∧ run step l s0 s.
(** How many steps the consumer takes to its end, once [running] is reset. *)
Definition steps_left (c : consumer) : nat :=
  match c with CExited => 0 | CTest => 1 | CReturning _ => 2 | CWorking _ => 3 | CAcquired => 4 | CBlocking => 5 end.

(** Buffers on their way. *)
Definition at_producer (p : producer) : list Z := match p with PIdle => [] | PGot a _ | PFilled a => [a] end.
Definition at_consumer (c : consumer) : list Z := match c with CWorking a | CReturning a => [a] | _ => [] end.
Definition queued (s : t) : list Z := omap id (BlockingQueue.queue (queue s)).
(** Of the consumer's block, what was not processed yet. *)
Definition unprocessed (c : consumer) : list Z := match c with CWorking a => [a] | _ => [] end.
Definition has_acquired (c : consumer) : Z := match c with CAcquired => 1 | _ => 0 end.

Record inv (s : t) : Prop := {
  in_pool : BufferPool.wf (pool s);
  in_count : BufferPool.bufferCount (pool s) = 10;
  in_cap : BlockingQueue.capacity (queue s) = 11;
  in_owned : BufferPool.outstanding (pool s) ≡ₚ at_consumer (cons s) ++ queued s ++ at_producer (prod s);
  in_length : zlen (BlockingQueue.queue (queue s)) = zlen (queued s) + (if bool_decide (None ∈ BlockingQueue.queue (queue s)) then 1 else 0);
  in_null : None ∈ BlockingQueue.queue (queue s) → stop s = SJoining ∨ stop s = SDone;
  in_sem : BlockingQueue.semaphore (queue s) + has_acquired (cons s) = zlen (BlockingQueue.queue (queue s));
  in_pos : 0 ≤ BlockingQueue.semaphore (queue s);
  in_running : running s = true ↔ stop s = SIdle;
  in_wake : stop s = SJoining → cons s = CBlocking → None ∈ BlockingQueue.queue (queue s);
  in_done : stop s = SDone → cons s = CExited;
  in_fifo : handled s ++ (mem s <$> unprocessed (cons s) ++ queued s) = accepted s;
}.
End Recording.

(* ------------------------------------------------------------------ *)
(** ** What the pool and the queue hold *)

Section ownership.
Lemma length_outstanding p : (length (BufferPool.outstanding p) ≤ Z.to_nat (BufferPool.bufferCount p))%nat.
Proof.
  unfold BufferPool.outstanding. rewrite <- (length_seq (Z.to_nat (BufferPool.bufferCount p)) 0) at 2.
  generalize (seq 0 (Z.to_nat (BufferPool.bufferCount p))). intros l. induction l as [|i l IH]; [done|]. cbn.
  destruct (if BufferPool.used p i then _ else _); cbn; lia.
Qed.
Lemma length_omap_id (l : list (option Z)) :
  (length (omap id l) + (if bool_decide (None ∈ l) then 1 else 0) ≤ length l)%nat.
Proof.
  induction l as [|[x|] l IH]; [done| |].
  - replace (bool_decide (None ∈ Some x :: l)) with (bool_decide (None ∈ l)); [cbn; lia|].
    apply bool_decide_ext. rewrite elem_of_cons. naive_solver.
  - rewrite bool_decide_true by (by left). cbn. destruct (bool_decide _); lia.
Qed.
End ownership.

Section recording.
Import Recording.
Implicit Types s : t.

Lemma start_ok base s : start base = Some s → inv s.
Proof.
  unfold start. destruct (BufferPool.ctor base 1920 10) as [p|] eqn:E; [|done]. intros [= <-].
  destruct (pool_ctor_wf base 1920 10 p) as (Hwf & Ho & Hc); [lia..|done|]. constructor; cbn; try done; [by rewrite Ho|set_solver].
Qed.

(** At most ten buffers are on their way. *)
Lemma queued_bound s : inv s → (length (at_consumer (cons s)) + length (queued s) + length (at_producer (prod s)) ≤ 10)%nat.
Proof.
  intros Hs. pose proof (length_outstanding (pool s)) as H. rewrite (in_count _ Hs), (in_owned _ Hs), !length_app in H. lia.
Qed.
Lemma owned_NoDup s : inv s → NoDup (at_consumer (cons s) ++ queued s ++ at_producer (prod s)).
Proof. intros Hs. rewrite <- (in_owned _ Hs). apply outstanding_NoDup, Hs. Qed.
Lemma unprocessed_owned c : unprocessed c ⊆+ at_consumer c.
Proof. destruct c; cbn; try done. apply submseteq_nil_l. Qed.

Lemma producer_ok s o : inv s → step_producer s o → ∃ s', o = Some s' ∧ inv s'.
Proof.
  intros Hs Hstep. pose proof (queued_bound s Hs) as Hb. pose proof (owned_NoDup s Hs) as Hnd. pose proof Hs as [H1 H2 H3 H4 H5 H6 H7 Hpos H8 H9 Hdone H10].
  destruct Hstep as [s data a p Hp Hg|s p Hp Hg|s a data Hp|s a Hp].
  - destruct (Get_fresh _ _ _ H1 Hg) as (Hwf & Ho & _). eexists. split; [done|]. constructor; cbn; try done.
    + pose proof (Get_count (pool s)) as Hc. rewrite Hg in Hc. cbn in Hc. by rewrite Hc.
    + rewrite Ho, H4, Hp. cbn. rewrite app_nil_r, app_assoc. apply Permutation_cons_append.
  - destruct (Get_exhausted _ _ H1 Hg) as [-> _]. eexists. split; [done|]. by constructor.
  - eexists. split; [done|]. constructor; cbn; try done; [by rewrite H4, Hp|]. rewrite write_other; [done|].
    rewrite Hp in Hnd. cbn in Hnd. rewrite app_assoc in Hnd. apply NoDup_app in Hnd as (_ & Hnd & _).
    intros Ha. apply (Hnd a); [|by left]. apply elem_of_app in Ha as [Ha|Ha]; apply elem_of_app; [left|by right].
    by eapply elem_of_submseteq, unprocessed_owned.
  - rewrite Hp in *. cbn in Hb. unfold put. rewrite Put_room.
    2:{ rewrite H5, H3. unfold zlen. destruct (bool_decide _); lia. }
    cbn. eexists. split; [done|]. constructor; cbn; try done.
    + rewrite H4. unfold queued. cbn. rewrite omap_app. cbn. by rewrite app_nil_r.
    + unfold queued. cbn. rewrite zlen_app, omap_app, zlen_app, H5. cbn. unfold queued.
      replace (bool_decide (None ∈ BlockingQueue.queue (queue s) ++ [Some a])) with (bool_decide (None ∈ BlockingQueue.queue (queue s))); [|apply bool_decide_ext; set_solver].
      change (zlen [Some a]) with 1. change (zlen [a]) with 1. lia.
    + intros Hnone. apply H6. set_solver.
    + rewrite zlen_app. change (zlen [Some a]) with 1. lia.
    + lia.
    + intros Hst Hc. apply elem_of_app. left. auto.
    + unfold queued. cbn. rewrite omap_app. cbn. rewrite app_assoc, fmap_app, app_assoc. unfold queued in H10. by rewrite H10.
Qed.

Lemma consumer_ok s o : inv s → step_consumer s o → ∃ s', o = Some s' ∧ inv s'.
Proof.
  intros Hs Hstep. pose proof Hs as [H1 H2 H3 H4 H5 H6 H7 Hpos H8 H9 Hdone H10].
  destruct Hstep as [s Hc|s q Hc Hq|s Hc|s a Hc|s a Hc]; rewrite Hc in *; cbn in *.
  - eexists. split; [done|]. constructor; cbn; try done; try (intros Hd; discriminate (Hdone Hd)); [by destruct (running s)|by destruct (running s)| |by destruct (running s)].
    intros Hst Hbl. destruct (running s); [|done]. pose proof (proj1 H8 eq_refl). congruence.
  - unfold BlockingQueue.Acquire in Hq. destruct (Z.ltb_spec 0 (BlockingQueue.semaphore (queue s))); [|done]. injection Hq as <-.
    eexists. split; [done|]. constructor; cbn; try done; try (intros Hd; discriminate (Hdone Hd)); lia.
  - unfold BlockingQueue.GetInternal. destruct (BlockingQueue.queue (queue s)) as [|x l] eqn:Eq.
    { rewrite zlen_nil in H7. lia. }
    cbn. eexists. split; [done|]. unfold queued in *. rewrite Eq in *. rewrite zlen_cons in *. pose proof (length_omap_id l) as Hlen.
    destruct x as [a|]; cbn in *; (constructor; cbn; unfold queued; cbn; try done; try (intros Hd; discriminate (Hdone Hd))).
    + rewrite zlen_cons in H5. replace (bool_decide (None ∈ Some a :: l)) with (bool_decide (None ∈ l)) in H5 by (apply bool_decide_ext; set_solver). lia.
    + intros Hn. apply H6. by right.
    + lia.
    + rewrite bool_decide_true in H5 by (by left). unfold zlen in *. destruct (bool_decide (None ∈ l)); lia.
    + intros Hn. apply H6. by right.
    + lia.
  - eexists. split; [done|]. constructor; cbn; try done; try (intros Hd; discriminate (Hdone Hd)). rewrite <- app_assoc. cbn. exact H10.
  - assert (a ∈ BufferPool.outstanding (pool s)) as Ha by (rewrite H4; by left).
    destruct (Reuse_outstanding _ a H1 Ha) as (p & Ep & Hwf & Ho & _). rewrite Ep. cbn. eexists. split; [done|]. constructor; cbn; try done; try (intros Hd; discriminate (Hdone Hd)).
    + by rewrite (Reuse_count _ _ _ Ep).
    + rewrite Ho in H4. by apply Permutation_cons_inv in H4.
Qed.

Lemma stopper_ok s o : inv s → step_stopper s o → ∃ s', o = Some s' ∧ inv s'.
Proof.
  intros Hs Hstep. pose proof (queued_bound s Hs) as Hb. pose proof Hs as [H1 H2 H3 H4 H5 H6 H7 Hpos H8 H9 Hdone H10].
  destruct Hstep as [s Hst Hr|s Hst|s Hst Hc].
  - eexists. split; [done|]. constructor; cbn; try done. intros Hn. destruct (H6 Hn); congruence.
  - assert (None ∉ BlockingQueue.queue (queue s)) as Hn by (intros Hn; destruct (H6 Hn); congruence).
    rewrite bool_decide_false in H5 by done. unfold put. rewrite Put_room by (rewrite H5, H3; unfold zlen; lia). cbn. eexists. split; [done|].
    constructor; cbn; unfold queued; cbn; try done.
    + rewrite omap_app. cbn. by rewrite app_nil_r.
    + rewrite zlen_app, omap_app. cbn. rewrite app_nil_r, H5. rewrite bool_decide_true by set_solver. change (zlen [@None Z]) with 1. unfold queued. lia.
    + by left.
    + rewrite zlen_app. change (zlen [@None Z]) with 1. lia.
    + lia.
    + rewrite H8, Hst. done.
    + set_solver.
    + rewrite omap_app. cbn. by rewrite app_nil_r.
  - eexists. split; [done|]. constructor; cbn; try done; [naive_solver|]. rewrite H8, Hst. done.
Qed.
Lemma recording_step_ok who s o : inv s → step who s o → ∃ s', o = Some s' ∧ inv s'.
Proof. destruct who; [apply producer_ok|apply consumer_ok|apply stopper_ok]. Qed.

Lemma recording_reachable_ok base s : reachable base s → inv s.
Proof.
  intros (s0 & l & H0 & Hr). pose proof (start_ok base s0 H0) as H1. revert Hr H1. apply (run_invariant step). intros who s1 s2 Hs Hi.
  by destruct (recording_step_ok _ _ _ Hi Hs) as (s' & [= ->] & H).
Qed.

(** C12. From the microphone to the encoder, in every interleaving of the audio
    thread, the encoder thread and [Stop]: no step aborts (the queue never
    overflows its eleven places, the pool never gets back a buffer that is
    not its own, nothing is taken from an empty queue), the buffers between
    the threads are distinct, the encoder processes exactly the blocks that
    were put, unchanged and in order, and a block is dropped only when all
    ten buffers are on their way. *)
Theorem recording_is_safe base s : reachable base s →
  (∀ who o, step who s o → is_Some o) ∧
  zlen (BlockingQueue.queue (queue s)) ≤ 11 ∧
  NoDup (at_consumer (cons s) ++ queued s ++ at_producer (prod s)) ∧
  handled s ++ (mem s <$> unprocessed (cons s) ++ queued s) = accepted s ∧
  (∀ p, BufferPool.Get (pool s) = (None, p) → zlen (at_consumer (cons s) ++ queued s ++ at_producer (prod s)) = 10).
Proof.
  intros Hs%recording_reachable_ok. pose proof (queued_bound s Hs) as Hb. split_and!.
  - intros who o Ho. destruct (recording_step_ok _ _ _ Hs Ho) as (s' & -> & _). by eexists.
  - rewrite (in_length _ Hs). unfold zlen. destruct (bool_decide _); lia.
  - by apply owned_NoDup.
  - apply (in_fifo _ Hs).
  - intros p Hp. destruct (Get_exhausted _ _ (in_pool _ Hs) Hp) as [_ Hl].
    rewrite (in_owned _ Hs), (in_count _ Hs) in Hl. unfold zlen. rewrite Hl. done.
Qed.

(** The consumer can go on. *)
Lemma consumer_goes_on s : inv s → stop s = SJoining → cons s ≠ CExited → ∃ s', step_consumer s (Some s').
Proof.
  intros Hs Hst Hc. destruct (cons s) as [| | |a|a|] eqn:Ec; [eexists; by apply c_test| | |eexists; by apply c_work| |done].
  - pose proof (in_wake _ Hs Hst Ec) as Hn. pose proof (in_sem _ Hs) as Hsem. rewrite Ec in Hsem. cbn in Hsem.
    assert (0 < zlen (BlockingQueue.queue (queue s))) by (destruct (BlockingQueue.queue (queue s)); [by apply elem_of_nil in Hn|rewrite zlen_cons; pose proof (zlen_nonneg l); lia]).
    eexists. apply c_acquire; [done|]. unfold BlockingQueue.Acquire. destruct (Z.ltb_spec 0 (BlockingQueue.semaphore (queue s))); [done|lia].
  - pose proof (c_pop s Ec) as Hp. destruct (consumer_ok _ _ Hs Hp) as (s' & E & _). exists s'. by rewrite <- E.
  - pose proof (c_reuse s a Ec) as Hp. destruct (consumer_ok _ _ Hs Hp) as (s' & E & _). exists s'. by rewrite <- E.
Qed.
Definition ending s : Prop := inv s ∧ running s = false ∧ (stop s = SJoining ∨ stop s = SDone).
Lemma ending_step who s s' : step who s (Some s') → ending s → ending s'.
Proof.
  intros Hstep (Hs & Hr & Hst). destruct (recording_step_ok _ _ _ Hs Hstep) as (s2 & [= <-] & Hi). split; [done|].
  destruct who; cbn in Hstep; inversion Hstep; subst; cbn; try done; unfold put in *;
    repeat match goal with
    | H : _ <$> _ = Some _ |- _ => apply fmap_Some in H as (? & ? & ->)
    | H : _ ≫= _ = Some _ |- _ => apply bind_Some in H as (? & ? & [= <-])
    end; cbn; auto; destruct Hst; congruence.
Qed.
Lemma ending_down s s' : step_consumer s (Some s') → running s = false → (steps_left (cons s') < steps_left (cons s))%nat.
Proof.
  intros Hstep Hr. inversion Hstep; subst; match goal with H : cons s = _ |- _ => rewrite H end; cbn; rewrite ?Hr; try (cbn; lia);
    match goal with H : _ ≫= _ = Some _ |- _ => apply bind_Some in H as (r & _ & [= <-]) end; cbn; [|lia].
  destruct r.1; cbn; lia.
Qed.
Lemma others_keep_consumer who s s' : who ≠ Consumer → step who s (Some s') → cons s' = cons s.
Proof.
  intros Hw Hstep. destruct who; [| done|]; inversion Hstep; subst; cbn; try done; unfold put in *;
    repeat match goal with
    | H : _ <$> _ = Some _ |- _ => apply fmap_Some in H as (? & ? & ->)
    | H : _ ≫= _ = Some _ |- _ => apply bind_Some in H as (? & ? & [= <-])
    end; done.
Qed.

(** [Stop] comes to its end: from the moment it waits for the thread,
    whatever the order of the steps and however many blocks the microphone
    still delivers, the encoder thread takes at most five steps, is never
    blocked before it has ended, and then [Stop] returns. *)
Theorem recording_stop_terminates base s l s' : reachable base s → stop s = SJoining → run step l s s' →
  (length (filter (λ who, who = Consumer) l) ≤ 5)%nat ∧
  (cons s' ≠ CExited → ∃ s'', step Consumer s' (Some s'')) ∧
  (cons s' = CExited → stop s' = SDone ∨ ∃ s'', step Stopper s' (Some s'')).
Proof.
  intros Hs%recording_reachable_ok Hst Hr.
  assert (ending s) as He.
  { split; [done|]. split; [|by left]. destruct (running s) eqn:E; [|done]. apply (in_running _ Hs) in E. congruence. }
  pose proof (run_invariant step ending ending_step _ _ _ Hr He) as (Hs' & Hr' & Hst'). split_and!.
  - assert (length (filter (λ x, x = Consumer) l) + steps_left (cons s') ≤ steps_left (cons s))%nat as H.
    { apply (run_measure step Consumer (λ s, steps_left (cons s)) ending ending_step); [|intros who s1 s2 Hw H12 _|done|done].
      - intros s1 s2 H12 (_ & H1 & _). by apply ending_down.
      - by rewrite (others_keep_consumer _ _ _ Hw H12). }
    assert (steps_left (cons s) ≤ 5)%nat by (destruct (cons s); cbn; lia). lia.
  - intros Hc. destruct Hst' as [Hst'|Hst']; [by apply consumer_goes_on|]. by apply (in_done _ Hs') in Hst'.
  - intros Hc. destruct Hst' as [Hst'|Hst']; [right; eexists; by apply s_join|by left].
Qed.

Lemma p_put_run s a s1 : prod s = PFilled a → put (Some a) s = Some s1 →
  step_producer s (Some (s1 <| prod := PIdle |> <| accepted ::= λ l, l ++ [mem s a] |>)).
Proof. intros Hp E. pose proof (p_put s a Hp) as H. by rewrite E in H. Qed.
Lemma s_put_run s s1 : stop s = SStopping → put None s = Some s1 → step_stopper s (Some (s1 <| stop := SJoining |>)).
Proof. intros Hp E. pose proof (s_put s Hp) as H. by rewrite E in H. Qed.
(** A block is on its way when [Stop] is called. *)
Lemma recording_example : ∃ s, reachable 4096 s ∧ stop s = SJoining ∧ cons s = CBlocking ∧ accepted s = [[1; 2]].
Proof.
  eexists. split; [|split; [|split]].
  - eexists _, [Consumer; Producer; Producer; Producer; Stopper; Stopper]. split; [reflexivity|].
    eapply run_cons; [apply c_test; reflexivity|].
    eapply run_cons; [apply (p_get _ [1; 2]); reflexivity|].
    eapply run_cons; [eapply p_copy; reflexivity|].
    eapply run_cons; [eapply p_put_run; reflexivity|].
    eapply run_cons; [apply s_stop; reflexivity|].
    eapply run_cons; [eapply s_put_run; reflexivity|]. apply run_nil.
  - reflexivity.
  - reflexivity.
  - reflexivity.
Qed.
Lemma recording_is_safe_witness : ∃ s, reachable 4096 s ∧ accepted s = [[1; 2]] ∧
  (∀ who o, step who s o → is_Some o) ∧
  zlen (BlockingQueue.queue (queue s)) ≤ 11 ∧
  NoDup (at_consumer (cons s) ++ queued s ++ at_producer (prod s)) ∧
  handled s ++ (mem s <$> unprocessed (cons s) ++ queued s) = accepted s ∧
  (∀ p, BufferPool.Get (pool s) = (None, p) → zlen (at_consumer (cons s) ++ queued s ++ at_producer (prod s)) = 10).
Proof.
  destruct recording_example as (s & Hs & _ & _ & Ha). exists s. split; [exact Hs|]. split; [exact Ha|]. exact (recording_is_safe 4096 s Hs).
Defined.
Lemma recording_stop_terminates_witness : ∃ s, reachable 4096 s ∧ stop s = SJoining ∧ cons s = CBlocking ∧
  (length (filter (λ who, who = Consumer) []) ≤ 5)%nat ∧
  (cons s ≠ CExited → ∃ s'', step Consumer s (Some s'')) ∧
  (cons s = CExited → stop s = SDone ∨ ∃ s'', step Stopper s (Some s'')).
Proof.
  destruct recording_example as (s & Hs & Hst & Hc & _). exists s. split; [exact Hs|]. split; [exact Hst|]. split; [exact Hc|].
  exact (recording_stop_terminates 4096 s [] s Hs Hst (run_nil step s)).
Defined.
End recording.

(* ------------------------------------------------------------------ *)
Module Playing.

(** The thread of the audio device, in [HandleCallback(data, 960*2)]. *)
Inductive device :=
| VIdle
| VWaiting                         (** in [decodedQueue->GetBlocking()], at the semaphore *)
| VAcquired                        (** past it, before the lock *)
| VHolding (a : Z)                 (** with a block *)
| VCopied (a : Z)                  (** [memcpy] done, before [bufferPool->Reuse] *)
| VReleasing.                      (** before [semaphore->Release()] *)
(** The decoder thread, in [RunThread]; the list is what the frame has left. *)
Inductive decoder :=
| DTest                            (** at [while(running)] *)
| DBlock (l : list bytes)          (** at the inner loop, or at [semaphore->Acquire()] in it *)
| DAcquired (l : list bytes)       (** past it *)
| DChecked (l : list bytes)        (** [running] was seen, before [bufferPool->Get()] *)
| DGot (a : Z) (l : list bytes)    (** with a buffer, before the copy *)
| DFilled (a : Z) (l : list bytes) (** before [decodedQueue->Put] *)
| DExited.
Inductive stopper := SIdle | SStopping | SJoining | SDone.

Inductive thread := Device | Decoder | Stopper.
#[global] Instance playing_thread_eq_dec : EqDecision thread.
Proof. solve_decision. Defined.

Record t := mk {
  pool : BufferPool.t;
  mem : memory;
  decodedQueue : BlockingQueue.t Z;
  semaphore : Z;
  running : bool;
  outputBufferSize : Z;
  dev : device;
  dec : decoder;
  stop : stopper;
  produced : list bytes;                  (** history: the blocks put into the queue *)
  played : list bytes;                    (** history: the blocks copied to the device *)
  lost : Z;                               (** history: blocks for which no buffer was left *)
}.
#[global] Instance playing_eta : Eta t := λ s,
  mk (pool s) (mem s) (decodedQueue s) (semaphore s) (running s) (outputBufferSize s) (dev s) (dec s) (stop s)
     (produced s) (played s) (lost s).

(** [Initialize] of a decoder with a thread, and [Start]. *)
Definition start (base : Z) : option t :=
  p ← BufferPool.ctor base 1920 32;
  Some (mk p (λ _, []) (BlockingQueue.ctor 33) 0 true 0 VIdle DTest SIdle [] [] 0).

(** [HandleCallback]; a call that finds the decoder stopped returns silence
    at once. *)
Inductive step_device : t → option t → Prop :=
| v_stopped s : dev s = VIdle → running s = false → step_device s (Some s)
| v_call s : dev s = VIdle → running s = true →
    step_device s (Some ((if outputBufferSize s =? 0 then s <| outputBufferSize := 1920 |> <| semaphore := semaphore s + 2 |> else s)
                         <| dev := VWaiting |>))
| v_acquire s q : dev s = VWaiting → BlockingQueue.Acquire (decodedQueue s) = Some q →
    step_device s (Some (s <| decodedQueue := q |> <| dev := VAcquired |>))
| v_pop s : dev s = VAcquired →
    step_device s (r ← BlockingQueue.GetInternal (decodedQueue s); Some (s <| decodedQueue := r.2 |> <| dev := VHolding r.1 |>))
| v_copy s a : dev s = VHolding a → step_device s (Some (s <| played := played s ++ [mem s a] |> <| dev := VCopied a |>))
| v_reuse s a : dev s = VCopied a →
    step_device s (p ← BufferPool.Reuse a (pool s); Some (s <| pool := p |> <| dev := VReleasing |>))
| v_release s : dev s = VReleasing → step_device s (Some (s <| semaphore := semaphore s + 1 |> <| dev := VIdle |>)).

(** [RunThread]; the blocks of a frame are those of [OpusDecoder.round]. *)
Inductive step_decoder : t → option t → Prop :=
| d_exit s : dec s = DTest → running s = false → step_decoder s (Some (s <| dec := DExited |>))
| d_decode s l : dec s = DTest → running s = true → (2 ≤ length l ≤ 4)%nat → step_decoder s (Some (s <| dec := DBlock l |>))
| d_frame s : dec s = DBlock [] → step_decoder s (Some (s <| dec := DTest |>))
| d_acquire s b l : dec s = DBlock (b :: l) → 0 < semaphore s →
    step_decoder s (Some (s <| semaphore := semaphore s - 1 |> <| dec := DAcquired (b :: l) |>))
| d_check s l : dec s = DAcquired l → step_decoder s (Some (s <| dec := if running s then DChecked l else DExited |>))
| d_get s b l a p : dec s = DChecked (b :: l) → BufferPool.Get (pool s) = (Some a, p) →
    step_decoder s (Some (s <| pool := p |> <| dec := DGot a (b :: l) |>))
| d_lost s b l p : dec s = DChecked (b :: l) → BufferPool.Get (pool s) = (None, p) →
    step_decoder s (Some (s <| pool := p |> <| lost := lost s + 1 |> <| dec := DBlock l |>))
| d_copy s a b l : dec s = DGot a (b :: l) → step_decoder s (Some (s <| mem := write a b (mem s) |> <| dec := DFilled a l |>))
| d_put s a l : dec s = DFilled a l →
    step_decoder s (r ← BlockingQueue.Put a (decodedQueue s);
                    Some (s <| decodedQueue := r.1 |> <| dec := DBlock l |> <| produced ::= λ p, p ++ [mem s a] |>)).

(** [Stop()]. *)
Inductive step_stopper : t → option t → Prop :=
| s_stop s : stop s = SIdle → running s = true → step_stopper s (Some (s <| running := false |> <| stop := SStopping |>))
| s_release s : stop s = SStopping → step_stopper s (Some (s <| semaphore := semaphore s + 1 |> <| stop := SJoining |>))
| s_join s : stop s = SJoining → dec s = DExited → step_stopper s (Some (s <| stop := SDone |>)).

Definition step (who : thread) : t → option t → Prop :=
  match who with Device => step_device | Decoder => step_decoder | Stopper => step_stopper end.
Definition reachable (base : Z) (s : t) : Prop := ∃ s0 l, start base = Some s0 ∧ run step l s0 s.

(** Buffers on their way. *)
Definition at_device (v : device) : list Z := match v with VHolding a | VCopied a => [a] | _ => [] end.
Definition at_decoder (d : decoder) : list Z := match d with DGot a _ | DFilled a _ => [a] | _ => [] end.
Definition unplayed (v : device) : list Z := match v with VHolding a => [a] | _ => [] end.
Definition queued (s : t) : list Z := BlockingQueue.queue (decodedQueue s).
(** Permits that a thread took and did not give on. *)
Definition permit_device (v : device) : Z := match v with VHolding _ | VCopied _ | VReleasing => 1 | _ => 0 end.
Definition permit_decoder (d : decoder) : Z := match d with DAcquired _ | DChecked _ | DGot _ _ | DFilled _ _ => 1 | _ => 0 end.
Definition has_acquired (v : device) : Z := match v with VAcquired => 1 | _ => 0 end.
(** A permit is a permit of the semaphore, a block under way or queued. *)
Definition permits (s : t) : Z := semaphore s + permit_decoder (dec s) + zlen (queued s) + permit_device (dev s).
(** Loops of the decoder have a block to hand over. *)
Definition has_block (d : decoder) : Prop :=
  match d with DAcquired [] | DChecked [] | DGot _ [] => False | _ => True end.

Record inv (s : t) : Prop := {
  in_pool : BufferPool.wf (pool s);
  in_count : BufferPool.bufferCount (pool s) = 32;
  in_cap : BlockingQueue.capacity (decodedQueue s) = 33;
  in_owned : BufferPool.outstanding (pool s) ≡ₚ at_device (dev s) ++ queued s ++ at_decoder (dec s);
  in_queue : BlockingQueue.semaphore (decodedQueue s) + has_acquired (dev s) = zlen (queued s) ∧ 0 ≤ BlockingQueue.semaphore (decodedQueue s);
  in_sem : 0 ≤ semaphore s;
  in_permits : permits s ≤ 3;
  in_two : running s = true → permits s = (if outputBufferSize s =? 0 then 0 else 2) ∧ (outputBufferSize s = 0 → dev s = VIdle);
  in_block : has_block (dec s);
  in_running : running s = true ↔ stop s = SIdle;
  in_stopping : stop s = SIdle ∨ stop s = SStopping → permits s ≤ 2;
  in_wake : stop s = SJoining → 0 < semaphore s ∨ dec s = DExited ∨ ∃ l, dec s = DAcquired l;
  in_done : stop s = SDone → dec s = DExited;
  in_fifo : played s ++ (mem s <$> unplayed (dev s) ++ queued s) = produced s;
  in_none_lost : lost s = 0;
  in_exited : dec s = DExited → running s = false;
}.
(** How many steps the decoder takes to its end, once [running] is reset. *)
Definition steps_left (d : decoder) : nat :=
  match d with DExited => 0 | DTest => 1 | DAcquired _ => 1 | DBlock _ => 2 | DFilled _ _ => 3 | DGot _ _ => 4 | DChecked _ => 5 end.
End Playing.

Section playing.
Import Playing.
Implicit Types s : t.

Lemma playing_start_ok base s : start base = Some s → inv s.
Proof.
  unfold start. destruct (BufferPool.ctor base 1920 32) as [p|] eqn:E; [|done]. intros [= <-].
  destruct (pool_ctor_wf base 1920 32 p) as (Hwf & Ho & Hc); [lia..|done|]. constructor; cbn; try done; [by rewrite Ho|naive_solver..].
Qed.

Lemma way_bound s : inv s → (length (at_device (dev s)) + length (queued s) + length (at_decoder (dec s)) ≤ 3)%nat.
Proof.
  intros Hs. pose proof (in_permits _ Hs) as H. pose proof (in_sem _ Hs). unfold permits, zlen in H.
  destruct (dev s), (dec s); cbn in *; lia.
Qed.
Lemma way_NoDup s : inv s → NoDup (at_device (dev s) ++ queued s ++ at_decoder (dec s)).
Proof. intros Hs. rewrite <- (in_owned _ Hs). apply outstanding_NoDup, Hs. Qed.

Lemma unplayed_owned v : unplayed v ⊆+ at_device v.
Proof. destruct v; cbn; try done. apply submseteq_nil_l. Qed.

Lemma zlen_snoc {X} (l : list X) x : zlen (l ++ [x]) = zlen l + 1.
Proof. unfold zlen. rewrite length_app. cbn. lia. Qed.
(** The clauses that follow by counting permits and by cases. *)
#[local] Ltac by_cases :=
  intros;
  repeat match goal with
  | H : ?P ∨ ?Q → _, H' : ?P |- _ => specialize (H (or_introl H'))
  | H : ?P ∨ ?Q → _, H' : ?Q |- _ => specialize (H (or_intror H'))
  | H : ?P → _, H' : ?P |- _ => specialize (H H')
  | H : _ ∧ _ |- _ => destruct H
  | H : _ ∨ _ |- _ => destruct H
  | H : ∃ _, _ |- _ => destruct H
  end; try congruence; try lia; try (left; lia); try (right; left; congruence); try (right; right; by eexists);
  split_and?; first [congruence|lia|intros; repeat match goal with H : ?P → _, H' : ?P |- _ => specialize (H H') end; congruence|idtac].
#[local] Ltac counting :=
  constructor; unfold permits, queued in *; cbn in *; rewrite ?zlen_snoc, ?zlen_cons in *;
  try done; try lia;
  match goal with
  | |- _ = _ → _ => by_cases
  | |- _ ∨ _ → _ => by_cases
  | |- _ ∧ _ => by_cases
  | |- _ ↔ _ => try (split; congruence)
  | |- _ => idtac
  end.

Lemma device_ok s o : inv s → step_device s o → ∃ s', o = Some s' ∧ inv s'.
Proof.
  intros Hs Hstep. pose proof Hs as [H1 H2 H3 H4 [H5 H5'] H6 H7 H8 Hb H9 H10 H11 Hdone H12 H13 Hex].
  destruct Hstep as [s Hv Hr|s Hv Hr|s q Hv Hq|s Hv|s a Hv|s a Hv|s Hv]; unfold permits in *; rewrite Hv in *; cbn in *.
  - by exists s.
  - eexists. split; [done|]. destruct (H8 Hr) as [Hp _]. destruct (Z.eqb_spec (outputBufferSize s) 0) as [E|E]; counting.
    by rewrite (proj2 (Z.eqb_neq _ _) E).
  - unfold BlockingQueue.Acquire in Hq. destruct (Z.ltb_spec 0 (BlockingQueue.semaphore (decodedQueue s))); [|done]. injection Hq as <-.
    eexists. split; [done|]. counting.
  - unfold BlockingQueue.GetInternal, queued in *. destruct (BlockingQueue.queue (decodedQueue s)) as [|a l] eqn:Eq; [rewrite zlen_nil in H5; lia|].
    cbn in *. rewrite zlen_cons in *. eexists. split; [done|]. counting.
  - eexists. split; [done|]. counting. rewrite <- app_assoc. exact H12.
  - assert (a ∈ BufferPool.outstanding (pool s)) as Ha by (rewrite H4; by left).
    destruct (Reuse_outstanding _ a H1 Ha) as (p & Ep & Hwf & Ho & _). rewrite Ep. cbn. eexists. split; [done|]. counting.
    + by rewrite (Reuse_count _ _ _ Ep).
    + rewrite Ho in H4. by apply Permutation_cons_inv in H4.
  - eexists. split; [done|]. counting.
Qed.

Lemma decoder_step_ok s o : inv s → step_decoder s o → ∃ s', o = Some s' ∧ inv s'.
Proof.
  intros Hs Hstep. pose proof (way_bound s Hs) as Hw. pose proof (way_NoDup s Hs) as Hnd.
  pose proof Hs as [H1 H2 H3 H4 [H5 H5'] H6 H7 H8 Hb H9 H10 H11 Hdone H12 H13 Hex].
  destruct Hstep as [s Hc Hr|s l Hc Hr Hl|s Hc|s b l Hc Hp|s l Hc|s b l a p Hc Hg|s b l p Hc Hg|s a b l Hc|s a l Hc];
    unfold permits in *; rewrite Hc in *; cbn in *.
  - eexists. split; [done|]. counting.
  - eexists. split; [done|]. counting.
  - eexists. split; [done|]. counting.
  - eexists. split; [done|]. counting.
  - eexists. split; [done|]. assert (running s = true ∨ running s = false) as [Er|Er] by (destruct (running s); auto); rewrite Er; counting.
    pose proof (proj1 H9 Er). congruence.
  - destruct (Get_fresh _ _ _ H1 Hg) as (Hwf & Ho & _). eexists. split; [done|]. pose proof (Get_count (pool s)) as Hcnt. rewrite Hg in Hcnt. cbn in Hcnt.
    counting. rewrite Ho, H4. rewrite app_nil_r, app_assoc. apply Permutation_cons_append.
  - exfalso. destruct (Get_exhausted _ _ H1 Hg) as [_ Hl]. rewrite H2, H4, !length_app in Hl. cbn in Hl. lia.
  - eexists. split; [done|]. counting. rewrite write_other; [done|]. rewrite app_assoc in Hnd. apply NoDup_app in Hnd as (_ & Hnd & _).
    intros Ha. apply (Hnd a); [|by left]. apply elem_of_app in Ha as [Ha|Ha]; apply elem_of_app; [left|by right].
    by eapply elem_of_submseteq, unplayed_owned.
  - rewrite Put_room by (rewrite H3; unfold queued, zlen in *; lia). cbn. eexists. split; [done|]. counting.
    + rewrite H4. by rewrite app_nil_r.
    + rewrite app_assoc, fmap_app, app_assoc. by rewrite H12.
Qed.

Lemma playing_stopper_ok s o : inv s → step_stopper s o → ∃ s', o = Some s' ∧ inv s'.
Proof.
  intros Hs Hstep. pose proof Hs as [H1 H2 H3 H4 [H5 H5'] H6 H7 H8 Hb H9 H10 H11 Hdone H12 H13 Hex].
  destruct Hstep as [s Hc Hr|s Hc|s Hc Hd]; (eexists; split; [done|]); unfold permits in *; rewrite Hc in *; cbn in *.
  - specialize (H10 (or_introl eq_refl)). counting.
  - assert (running s = false) as Hrf by (destruct (running s); [discriminate (proj1 H9 eq_refl)|done]).
    assert (running s = true ↔ SJoining = SIdle) by (split; congruence). specialize (H10 (or_intror eq_refl)). counting.
  - assert (running s = false) as Hrf by (destruct (running s); [discriminate (proj1 H9 eq_refl)|done]).
    assert (running s = true ↔ SDone = SIdle) by (split; congruence). counting.
Qed.
Lemma playing_step_ok who s o : inv s → step who s o → ∃ s', o = Some s' ∧ inv s'.
Proof. destruct who; [apply device_ok|apply decoder_step_ok|apply playing_stopper_ok]. Qed.
Lemma playing_reachable_ok base s : reachable base s → inv s.
Proof.
  intros (s0 & l & H0 & Hr). pose proof (playing_start_ok base s0 H0) as H1. revert Hr H1. apply (run_invariant step).
  intros who s1 s2 Hs Hi. by destruct (playing_step_ok _ _ _ Hi Hs) as (s' & [= ->] & H).
Qed.

(** The decoder can go on, where it has a permit or takes one. *)
Lemma decoder_goes_on s : inv s → dec s ≠ DExited → (∀ b l, dec s = DBlock (b :: l) → 0 < semaphore s) → ∃ s', step_decoder s (Some s').
Proof.
  intros Hs Hd Hp. pose proof (in_block _ Hs) as Hb. destruct (dec s) as [|[|b l]|l|[|b l]|a [|b l]|a l|] eqn:E; try done.
  - destruct (running s) eqn:Er; [|eexists; by apply d_exit]. eexists. apply (d_decode _ [[]; []]); [done..|cbn; lia].
  - eexists. by apply d_frame.
  - eexists. eapply d_acquire; [done|by eapply Hp].
  - eexists. by apply d_check.
  - destruct (BufferPool.Get (pool s)) as [[a|] p] eqn:Eg; eexists; [by eapply d_get|by eapply d_lost].
  - eexists. by eapply d_copy.
  - pose proof (d_put s a l E) as Hput. destruct (decoder_step_ok _ _ Hs Hput) as (s' & Es & _). exists s'. by rewrite <- Es.
Qed.

(** C10. From the decoder thread to the audio device, in every interleaving of
    the two threads and [Stop]: no step aborts, the device plays exactly the
    blocks that were decoded, unchanged and in order, no block is lost for
    want of a buffer, and the decoder is never more than two blocks ahead
    (three permits, once [Stop] gave one): neither the 32 buffers nor the 33
    places are ever used up.  And while the decoder runs, a device that waits
    for a block gets one: a step of the device or of the decoder is possible. *)
Theorem playing_is_safe base s : reachable base s →
  (∀ who o, step who s o → is_Some o) ∧
  played s ++ (mem s <$> unplayed (dev s) ++ queued s) = produced s ∧ lost s = 0 ∧
  NoDup (at_device (dev s) ++ queued s ++ at_decoder (dec s)) ∧
  zlen (queued s) + zlen (at_decoder (dec s)) ≤ (if running s then 2 else 3) ∧
  (running s = true → dev s = VWaiting → (∃ s', step Device s (Some s')) ∨ ∃ s', step Decoder s (Some s')).
Proof.
  intros Hs%playing_reachable_ok. split_and!.
  - intros who o Ho. destruct (playing_step_ok _ _ _ Hs Ho) as (s' & -> & _). by eexists.
  - apply (in_fifo _ Hs).
  - apply (in_none_lost _ Hs).
  - by apply way_NoDup.
  - pose proof (in_permits _ Hs) as Hp. pose proof (in_two _ Hs) as H2. pose proof (in_sem _ Hs) as Hsem. unfold permits in *.
    assert (0 ≤ permit_device (dev s)) by (destruct (dev s); cbn; lia).
    assert (zlen (at_decoder (dec s)) ≤ permit_decoder (dec s)) by (destruct (dec s); done).
    destruct (running s); [|lia]. destruct (H2 eq_refl) as [E _]. destruct (outputBufferSize s =? 0); lia.
  - intros Hr Hv. destruct (decide (0 < BlockingQueue.semaphore (decodedQueue s))) as [Hq|Hq].
    + left. eexists. apply v_acquire; [done|]. unfold BlockingQueue.Acquire. by rewrite (proj2 (Z.ltb_lt _ _) Hq).
    + right. apply decoder_goes_on; [done| |].
      * intros Hd. discriminate (eq_trans (eq_sym Hr) (in_exited _ Hs Hd)).
      * intros b l Hd. destruct (in_queue _ Hs) as [Hz Hz']. destruct (in_two _ Hs Hr) as [Hp Ho]. unfold permits in *. rewrite Hd, Hv in *. cbn in *.
        destruct (Z.eqb_spec (outputBufferSize s) 0) as [E|E]; [discriminate (Ho E)|lia].
Qed.

Definition finishing s : Prop := inv s ∧ running s = false ∧ (stop s = SJoining ∨ stop s = SDone).
Lemma finishing_step who s s' : step who s (Some s') → finishing s → finishing s'.
Proof.
  intros Hstep (Hs & Hr & Hst). destruct (playing_step_ok _ _ _ Hs Hstep) as (s2 & [= <-] & Hi). split; [done|].
  destruct who; cbn in Hstep; inversion Hstep; subst; cbn; try done;
    repeat match goal with
    | H : _ ≫= _ = Some _ |- _ => apply bind_Some in H as (? & ? & [= <-])
    end; cbn; auto; try congruence; destruct Hst; try congruence; by (split; [|right]).
Qed.
Lemma finishing_down s s' : step_decoder s (Some s') → running s = false → (steps_left (dec s') < steps_left (dec s))%nat.
Proof.
  intros Hstep Hr. inversion Hstep; subst; try congruence; match goal with H : dec s = _ |- _ => rewrite H end; cbn; rewrite ?Hr; try (cbn; lia).
  match goal with H : _ ≫= _ = Some _ |- _ => apply bind_Some in H as (r & _ & [= <-]) end. cbn. lia.
Qed.
Lemma others_keep_decoder who s s' : who ≠ Decoder → step who s (Some s') → dec s' = dec s.
Proof.
  intros Hw Hstep. destruct who; [| done|]; inversion Hstep; subst; cbn; try done;
    repeat match goal with
    | H : _ ≫= _ = Some _ |- _ => apply bind_Some in H as (? & ? & [= <-])
    end; cbn; try done. by destruct (outputBufferSize s =? 0).
Qed.

(** C11. [Stop] of the decoder comes to its end: from the moment it waits for
    the thread, the decoder thread takes at most five steps, is never blocked
    before it has ended (the permit [Stop] gave cannot go to anyone else), and
    then [Stop] returns. *)
Theorem playing_stop_terminates base s l s' : reachable base s → stop s = SJoining → run step l s s' →
  (length (filter (λ who, who = Decoder) l) ≤ 5)%nat ∧
  (dec s' ≠ DExited → ∃ s'', step Decoder s' (Some s'')) ∧
  (dec s' = DExited → stop s' = SDone ∨ ∃ s'', step Stopper s' (Some s'')).
Proof.
  intros Hs%playing_reachable_ok Hst Hr.
  assert (finishing s) as He.
  { split; [done|]. split; [|by left]. destruct (running s) eqn:E; [|done]. apply (in_running _ Hs) in E. congruence. }
  pose proof (run_invariant step finishing finishing_step _ _ _ Hr He) as (Hs' & Hr' & Hst'). split_and!.
  - assert (length (filter (λ x, x = Decoder) l) + steps_left (dec s') ≤ steps_left (dec s))%nat as H.
    { apply (run_measure step Decoder (λ s, steps_left (dec s)) finishing finishing_step); [|intros who s1 s2 Hw H12 _|done|done].
      - intros s1 s2 H12 (_ & H1 & _). by apply finishing_down.
      - by rewrite (others_keep_decoder _ _ _ Hw H12). }
    assert (steps_left (dec s) ≤ 5)%nat by (destruct (dec s); cbn; lia). lia.
  - intros Hd. destruct Hst' as [Hst'|Hst']; [|by apply (in_done _ Hs') in Hst'].
    apply decoder_goes_on; [done..|]. intros b k E. destruct (in_wake _ Hs' Hst') as [?|[?|[? ?]]]; [done|congruence..].
  - intros Hd. destruct Hst' as [Hst'|Hst']; [right; eexists; by apply s_join|by left].
Qed.

(** But [Stop] can leave the audio device behind: a callback that waits for
    a block while the decoder thread, past its semaphore, sees that it is to
    stop, waits for ever, since the thread ends without a block and nobody
    else fills the queue.  Every thread has come to a halt in this state. *)
Theorem stop_can_leave_the_device : ∃ s, reachable 4096 s ∧ stop s = SDone ∧ dev s = VWaiting ∧ ∀ who o, ¬ step who s o.
Proof.
  eexists. split; [|split; [|split]].
  - eexists _, [Decoder; Device; Decoder; Stopper; Decoder; Stopper; Stopper]. split; [reflexivity|].
    eapply run_cons; [apply (d_decode _ [[]; []]); [reflexivity|reflexivity|cbn; lia]|].
    eapply run_cons; [apply v_call; reflexivity|].
    eapply run_cons; [eapply d_acquire; reflexivity|].
    eapply run_cons; [apply s_stop; reflexivity|].
    eapply run_cons; [eapply d_check; reflexivity|].
    eapply run_cons; [apply s_release; reflexivity|].
    eapply run_cons; [apply s_join; reflexivity|]. apply run_nil.
  - reflexivity.
  - reflexivity.
  - intros who o Hstep. destruct who; cbn in Hstep; inversion Hstep; subst; cbn in *; try discriminate.
Qed.

(** A block on its way when [Stop] is called. *)
Lemma playing_example : ∃ s, reachable 4096 s ∧ stop s = SJoining ∧ ∃ a l, dec s = DGot a l.
Proof.
  eexists. split; [|split; [|eexists _, _]].
  - eexists _, [Decoder; Device; Decoder; Decoder; Decoder; Stopper; Stopper]. split; [reflexivity|].
    eapply run_cons; [apply (d_decode _ [[1]; [2]]); [reflexivity|reflexivity|cbn; lia]|].
    eapply run_cons; [apply v_call; reflexivity|].
    eapply run_cons; [eapply d_acquire; reflexivity|].
    eapply run_cons; [eapply d_check; reflexivity|].
    eapply run_cons; [eapply d_get; reflexivity|].
    eapply run_cons; [apply s_stop; reflexivity|].
    eapply run_cons; [apply s_release; reflexivity|]. apply run_nil.
  - reflexivity.
  - reflexivity.
Qed.
Lemma playing_is_safe_witness : ∃ s, reachable 4096 s ∧ (∃ a l, dec s = DGot a l) ∧
  (∀ who o, step who s o → is_Some o) ∧
  played s ++ (mem s <$> unplayed (dev s) ++ queued s) = produced s ∧ lost s = 0 ∧
  NoDup (at_device (dev s) ++ queued s ++ at_decoder (dec s)) ∧
  zlen (queued s) + zlen (at_decoder (dec s)) ≤ (if running s then 2 else 3) ∧
  (running s = true → dev s = VWaiting → (∃ s', step Device s (Some s')) ∨ ∃ s', step Decoder s (Some s')).
Proof.
  destruct playing_example as (s & Hs & _ & Hd). exists s. split; [exact Hs|]. split; [exact Hd|]. exact (playing_is_safe 4096 s Hs).
Defined.
Lemma playing_stop_terminates_witness : ∃ s, reachable 4096 s ∧ stop s = SJoining ∧
  (length (filter (λ who, who = Decoder) []) ≤ 5)%nat ∧
  (dec s ≠ DExited → ∃ s'', step Decoder s (Some s'')) ∧
  (dec s = DExited → stop s = SDone ∨ ∃ s'', step Stopper s (Some s'')).
Proof.
  destruct playing_example as (s & Hs & Hst & _). exists s. split; [exact Hs|]. split; [exact Hst|].
  exact (playing_stop_terminates 4096 s [] s Hs Hst (run_nil step s)).
Defined.
End playing.
