(* ===== verification/Devices.v ===== *)
(** * tg2sip's audio devices (libtgvoip/audio/SoftwareAudio*.cpp)

    The ports of the SIP library's conference bridge that take the place of a
    microphone and a loudspeaker: [SoftwareAudioInput] gives every frame of
    20 ms it is sent to the recording side, [SoftwareAudioOutput] plays blocks
    of 20 ms in two frames of 10 ms.  The callback that is set
    ([MediaStreamItf::SetCallback]) is an argument, with the state it works
    on; [None] is a null pointer. *)

From Stdlib Require Import ZArith Lia List.
From stdpp Require Import base tactics list numbers option.
From S2P Require Import Prelude Words Memory.
From stdpp Require Import list.
Open Scope Z_scope.

(** [pjmedia_frame]. *)
Inductive frame_type := FRAME_NONE | FRAME_AUDIO.
Record frame := mkframe { f_type : frame_type; f_size : Z; f_buf : bytes }.
#[global] Instance frame_eta : Eta frame := λ f, mkframe (f_type f) (f_size f) (f_buf f).

(** [MediaStreamItf::InvokeCallback(data, length)]: the memory the callback
    leaves, and its result. *)
Definition callback (X : Type) : Type := option (bytes → X → Z * bytes * X).
Definition InvokeCallback {X} (f : callback X) (data : bytes) (x : X) : Z * bytes * X :=
  match f with Some f => f data x | None => (0, data, x) end.

(* ------------------------------------------------------------------ *)
Module SoftwareAudioInput.

Record t := mk { isActive : bool }.
Definition ctor : t := mk false.
Definition Start (s : t) : t := mk true.
Definition Stop (s : t) : t := mk false.

(** [PutFrameCallback]; a frame of another size is not accepted. *)
Definition PutFrameCallback {X} (f : callback X) (fr : frame) (s : t) : M X unit := λ x,
  match f_type fr with
  | FRAME_NONE => Ret tt x
  | FRAME_AUDIO =>
      if negb (f_size fr =? 1920) then Crash AssertFailed
      else if negb (isActive s) then Ret tt x
      else Ret tt (InvokeCallback f (f_buf fr) x).2
  end.
Definition GetFrameCallback (fr : frame) : frame := mkframe FRAME_NONE 0 (f_buf fr).
End SoftwareAudioInput.

(* ------------------------------------------------------------------ *)
Module SoftwareAudioOutput.

Record t := mk { isActive : bool; read_buffer : bool; buffer : bytes }.
#[global] Instance output_eta : Eta t := λ s, mk (isActive s) (read_buffer s) (buffer s).

(** [fresh] is what the memory of the buffer holds. *)
Definition ctor (fresh : bytes) : t := mk false true fresh.
Definition Start (s : t) : t := s <| isActive := true |>.
Definition Stop (s : t) : t := s <| isActive := false |>.
Definition IsPlaying (s : t) : bool := isActive s.

Definition PutFrameCallback (fr : frame) : frame := mkframe FRAME_NONE 0 (f_buf fr).
(** [memcpy] of half the buffer over the frame. *)
Definition half (p : nat) (buf : bytes) (fr : frame) : frame :=
  fr <| f_buf := overwrite (f_buf fr) 0 (slice buf p 960) |>.
Definition GetFrameCallback {X} (f : callback X) (fr : frame) (s : t) (x : X) : frame * t * X :=
  if negb (isActive s) then (mkframe FRAME_NONE 0 (f_buf fr), s, x)
  else if read_buffer s then
    let '(_, buf, x) := InvokeCallback f (buffer s) x in
    (half 0 buf fr, s <| read_buffer := negb (read_buffer s) |> <| buffer := buf |>, x)
  else (half 960 (buffer s) fr, s <| read_buffer := negb (read_buffer s) |>, x).
End SoftwareAudioOutput.

(* ------------------------------------------------------------------ *)
(** ** Two frames make a block *)

Section output.
Import SoftwareAudioOutput.
Context {X : Type} (block : X → bytes * X) (Hblock : ∀ x, length (block x).1 = 1920%nat).

(** The playing side writes the whole buffer. *)
Definition player : callback X := Some (λ _ x, (1920, (block x).1, (block x).2)).
(** The conference bridge asks for frames one after the other, each in memory
    of 960 bytes. *)
Fixpoint frames (l : list frame) (s : t) (x : X) : list frame * t * X :=
  match l with
  | [] => ([], s, x)
  | fr :: l' =>
      let '(out, s, x) := GetFrameCallback player fr s x in
      let '(outs, s, x) := frames l' s x in
      (out :: outs, s, x)
  end.
Fixpoint played (n : nat) (x : X) : list bytes * X :=
  match n with O => ([], x) | S n => let '(b, x) := block x in let '(l, x) := played n x in (b :: l, x) end.

Lemma half_whole p b fr : length (f_buf fr) = 960%nat → (p + 960 ≤ length b)%nat → f_buf (half p b fr) = slice b p 960.
Proof.
  intros Hf Hb. unfold half. cbn. unfold overwrite. rewrite take_0, drop_ge; [by rewrite app_nil_r|].
  rewrite (length_slice b p 960 Hb). lia.
Qed.

(** While the device plays, the frames the conference bridge gets are the
    blocks of the decoder, cut in two: nothing is skipped, repeated or
    played before its other half. *)
Theorem frames_are_the_blocks n l s x :
  isActive s = true → read_buffer s = true → length l = (2 * n)%nat → Forall (λ fr, length (f_buf fr) = 960%nat) l →
  ∃ out s', frames l s x = (out, s', (played n x).2) ∧ concat (f_buf <$> out) = concat (played n x).1 ∧
    isActive s' = true ∧ read_buffer s' = true.
Proof.
  revert l s x. induction n as [|n IH]; intros l s x Ha Hr Hl Hf.
  { destruct l; [|done]. by exists [], s. }
  destruct l as [|f1 [|f2 l]]; [done|cbn in Hl; lia|]. inversion Hf as [|? ? H1 Hf']; subst. inversion Hf' as [|? ? H2 Hf'']; subst.
  cbn [frames]. unfold GetFrameCallback at 1. rewrite Ha, Hr. cbn [negb]. unfold InvokeCallback, player.
  pose proof (Hblock x) as Hb. cbn [played]. destruct (block x) as [b x1]. cbn [fst snd] in *.
  unfold GetFrameCallback at 1. cbn [isActive read_buffer buffer negb].
  change (isActive (s <| read_buffer := false |> <| buffer := b |>)) with (isActive s). rewrite Ha. cbn [negb].
  set (s2 := (s <| read_buffer := false |> <| buffer := b |>) <| read_buffer := _ |>).
  destruct (IH l s2 x1) as (out & s' & E & Ec & Ha' & Hr'); [done|done|cbn in Hl; lia|done|].
  destruct (played n x1) as [bs x2]. cbn [fst snd] in *.
  exists (half 0 b f1 :: half 960 b f2 :: out), s'. split_and!; [|  |done..].
  - change (read_buffer (s <| read_buffer := false |> <| buffer := b |>)) with false. cbn [negb]. by rewrite E.
  - cbn [fmap list_fmap concat]. rewrite !half_whole by lia. rewrite app_assoc. f_equal; [|exact Ec].
    change 960%nat with (0 + 960)%nat at 2. rewrite slice_app. unfold slice. cbn [drop]. apply take_ge. lia.
Qed.
End output.

Section example.
Import SoftwareAudioOutput.
Definition counting (x : Z) : bytes * Z := (replicate (Z.to_nat 1920) x, x + 1).
Lemma frames_are_the_blocks_witness :
  ∃ out s', frames counting (replicate 4 (mkframe FRAME_NONE 0 (replicate (Z.to_nat 960) 0))) (Start (ctor [])) 7 = (out, s', 9) ∧
    concat (f_buf <$> out) = replicate (Z.to_nat 1920) 7 ++ replicate (Z.to_nat 1920) 8 ++ [] ∧ isActive s' = true ∧ read_buffer s' = true.
Proof.
  apply (frames_are_the_blocks counting (λ x, length_replicate (Z.to_nat 1920) x) 2); [reflexivity|reflexivity|reflexivity|].
  apply Forall_replicate. apply length_replicate.
Defined.

(** After a pause between two halves the rest of the old block is played. *)
Example stale_half :
  let s := Start (ctor []) in
  let '(_, s, x) := GetFrameCallback (player counting) (mkframe FRAME_NONE 0 []) s 7 in
  let s := Start (Stop s) in
  (GetFrameCallback (player counting) (mkframe FRAME_NONE 0 []) s x).1.1 = mkframe FRAME_NONE 0 (replicate (Z.to_nat 960) 7).
Proof. by vm_compute. Qed.
End example.
