(* ===== verification/Ini.v ===== *)
(** * include/INIReader.h

    The settings-file reader: the line scanner [ini_parse_stream] and the
    [INIReader] class on top of it, with the header's default options
    (multi-line values, a byte-order mark, inline comments after [;], lines
    of at most 199 characters, no stop on the first error).  A C string is
    the list of its characters before the terminator, and a pointer into a
    line is an offset.  The file is its list of bytes, [None] when it cannot
    be opened.  [GetReal], which nothing calls, is not modelled. *)

From Stdlib Require Import ZArith Lia Ascii String.
From stdpp Require Import base tactics numbers option strings gmap list.
From S2P Require Import Prelude Words.
From stdpp Require Import list.
Open Scope string_scope.
Open Scope list_scope.
Open Scope Z_scope.

Abbreviation chars := (list ascii).

(** ** Characters of the C locale *)
Module CType.
Definition code (c : ascii) : Z := Z.of_nat (nat_of_ascii c).
Definition isspace (c : ascii) : bool := (code c =? 32) || ((9 <=? code c) && (code c <=? 13)).
Definition isdigit (c : ascii) : bool := (48 <=? code c) && (code c <=? 57).
Definition tolower (c : ascii) : ascii :=
  if (65 <=? code c) && (code c <=? 90) then ascii_of_nat (nat_of_ascii c + 32) else c.
Definition nul : ascii := "000"%char.
Definition newline : ascii := "010"%char.
Definition eqb (a b : ascii) : bool := bool_decide (a = b).

(** The value of an alphanumeric digit in the bases of [strtol]. *)
Definition digit_value (c : ascii) : option Z :=
  let z := code c in
  if isdigit c then Some (z - 48)
  else if (97 <=? z) && (z <=? 122) then Some (z - 87)
  else if (65 <=? z) && (z <=? 90) then Some (z - 55)
  else None.

Definition digit_in (base : Z) (c : ascii) : option Z :=
  d ← digit_value c; if d <? base then Some d else None.

(** The digits of [strtol] in a given base: value and how many were read. *)
Fixpoint digits (base acc : Z) (s : chars) : Z * nat :=
  match s with
  | [] => (acc, O)
  | c :: s' =>
      match digit_in base c with
      | Some d => let '(v, n) := digits base (acc * base + d) s' in (v, S n)
      | None => (acc, O)
      end
  end.

Definition clamp_long (z : Z) : Z :=
  Z.max (-9223372036854775808) (Z.min 9223372036854775807 z).

Fixpoint skip_space (s : chars) : chars :=
  match s with c :: s' => if isspace c then skip_space s' else s | [] => [] end.

(** The digits after the prefix that [strtol] with base 0 recognises: "0x"
    before a hexadecimal digit, "0" for octal, decimal otherwise.  [None]
    when there is no digit. *)
Definition prefixed (s : chars) : option Z :=
  let go base s := let '(v, n) := digits base 0 s in if (n =? 0)%nat then None else Some v in
  match s with
  | "0"%char :: x :: d :: s' =>
      if (eqb (tolower x) "x"%char) && bool_decide (is_Some (digit_in 16 d))
      then go 16 (d :: s') else go 8 s
  | "0"%char :: _ => go 8 s
  | _ => go 10 s
  end.

(** [strtol(s, &end, 0)]: [None] when nothing was converted ([end == s]). *)
Definition strtol (s : chars) : option Z :=
  match skip_space s with
  | "-"%char :: s' => (λ v, clamp_long (- v)) <$> prefixed s'
  | "+"%char :: s' => clamp_long <$> prefixed s'
  | s' => clamp_long <$> prefixed s'
  end.
End CType.

(** ** The line scanner *)
Module Ini.
Import CType.

Definition INI_MAX_LINE : nat := 200.
Definition MAX_SECTION : nat := 50.
Definition MAX_NAME : nat := 50.
Definition INI_INLINE_COMMENT_PREFIXES : chars := [";"%char].

(** The C string in a buffer: what precedes the first NUL. *)
Fixpoint c_string (s : chars) : chars :=
  match s with
  | [] => []
  | c :: s' => if eqb c nul then [] else c :: c_string s'
  end.

Fixpoint lskip (s : chars) : chars :=
  match s with
  | c :: s' => if isspace c then lskip s' else s
  | [] => []
  end.

Definition rstrip (s : chars) : chars := rev (lskip (rev s)).

(** [strchr(l, c) != NULL] for a [c] that is not the terminator. *)
Definition strchr (l : chars) (c : ascii) : bool := existsb (eqb c) l.

(** [find_chars_or_comment]: the text before the place found, and the text
    from there ([[]]: the terminator was reached). *)
Fixpoint find_from (was_space : bool) (s : chars) (cs : option chars) : chars * chars :=
  match s with
  | [] => ([], [])
  | c :: s' =>
      if (match cs with Some l => strchr l c | None => false end)
         || (was_space && strchr INI_INLINE_COMMENT_PREFIXES c)
      then ([], s)
      else let '(a, b) := find_from (isspace c) s' cs in (c :: a, b)
  end.
Definition find_chars_or_comment : chars → option chars → chars * chars := find_from false.

(** [strncpy0(dest, src, size)], as the C string left in [dest]. *)
Definition strncpy0 (src : chars) (size : nat) : chars := take (size - 1) src.

(** The reader object and the scanner's locals. *)
Record reader := mkreader {
  _error : Z;
  _values : gmap string string;
  _sections : gset string;
}.

Definition str (s : chars) : string := string_of_list_ascii s.
Definition lower (s : chars) : chars := tolower <$> s.

Definition MakeKey (section name : chars) : string :=
  str (lower (section ++ ["="%char] ++ name)).

Definition ValueHandler (section name value : chars) (r : reader) : reader :=
  let key := MakeKey section name in
  let old := default "" (_values r !! key) in
  let old := if (0 <? Z.of_nat (String.length old)) then old +:+ String newline EmptyString else old in
  mkreader (_error r) (<[key := old +:+ str value]> (_values r)) ({[str section]} ∪ _sections r).

Record scan := mkscan {
  section : chars;
  prev_name : chars;
  lineno : Z;
  error : Z;
  user : reader;
}.
#[export] Instance scan_eta : Eta scan := λ s,
  mkscan (section s) (prev_name s) (lineno s) (error s) (user s).

Definition fail (s : scan) : scan :=
  if error s =? 0 then s <| error := lineno s |> else s.

Definition bom : chars := ["239"; "187"; "191"]%char.

(** Cut an inline comment and the spaces before it. *)
Definition cut_comment (s : chars) : chars := rstrip (find_chars_or_comment s None).1.

(** The body of the [while] loop, on the line [fgets] returned.  The tests
    that come first are: comment, continuation, section, pair. *)
Definition parse_line (s : scan) (buf : chars) : scan :=
  let s := s <| lineno ::= Z.succ |> in
  let line := c_string buf in
  let skipped := if (lineno s =? 1) && bool_decide (take 3 line = bom) then 3%nat else 0%nat in
  let stripped := rstrip (drop skipped line) in
  let start := lskip stripped in
  let moved := (0 <? skipped + (List.length stripped - List.length start))%nat in
  match start with
  | ";"%char :: _ | "#"%char :: _ => s
  | [] => s
  | c :: tl =>
      if negb (bool_decide (prev_name s = [])) && moved then
        s <| user ::= ValueHandler (section s) (prev_name s) (cut_comment start) |>
      else if eqb c "["%char then
        match find_chars_or_comment tl (Some ["]"%char]) with
        | (name, "]"%char :: _) =>
            s <| section := strncpy0 name MAX_SECTION |> <| prev_name := [] |>
        | _ => fail s
        end
      else
        match find_chars_or_comment start (Some ["="; ":"]%char) with
        | (n, e :: v) =>
            if eqb e "="%char || eqb e ":"%char then
              let name := rstrip n in
              let value := cut_comment (lskip v) in
              s <| prev_name := strncpy0 name MAX_NAME |>
                <| user ::= ValueHandler (section s) name value |>
            else fail s
        | _ => fail s
        end
  end.

(** [fgets(line, 200, file)]: up to 199 bytes, up to and including a
    newline.  [room] is what is left of the 199. *)
Fixpoint fgets (room : nat) (s : chars) : chars * chars :=
  match room, s with
  | O, _ => ([], s)
  | _, [] => ([], [])
  | S n, c :: s' =>
      if eqb c newline then ([c], s')
      else let '(l, rest) := fgets n s' in (c :: l, rest)
  end.

Fixpoint lines_of (fuel : nat) (s : chars) : list chars :=
  match fuel, s with
  | S n, _ :: _ =>
      let '(l, rest) := fgets (INI_MAX_LINE - 1) s in l :: lines_of n rest
  | _, _ => []
  end.

(** Each [fgets] takes at least one byte, so the length is enough fuel. *)
Definition ini_parse_stream (file : chars) (u : reader) : Z * reader :=
  let s := foldl parse_line (mkscan [] [] 0 0 u) (lines_of (List.length file) file) in
  (error s, user s).

Definition ini_parse (file : option chars) (u : reader) : Z * reader :=
  match file with
  | Some f => ini_parse_stream f u
  | None => (-1, u)
  end.

Definition empty : reader := mkreader 0 ∅ ∅.

Definition INIReader (file : option chars) : reader :=
  let '(e, r) := ini_parse file empty in mkreader e (_values r) (_sections r).

Definition ParseError (r : reader) : Z := _error r.
Definition Sections (r : reader) : gset string := _sections r.

Definition key_of (section name : string) : string :=
  MakeKey (list_ascii_of_string section) (list_ascii_of_string name).

Definition Get (r : reader) (section name default_value : string) : string :=
  default default_value (_values r !! key_of section name).

Definition GetInteger (r : reader) (section name : string) (default_value : Z) : Z :=
  default default_value (strtol (list_ascii_of_string (Get r section name ""))).

Definition GetBoolean (r : reader) (section name : string) (default_value : bool) : bool :=
  let v := str (lower (list_ascii_of_string (Get r section name ""))) in
  if bool_decide (v = "true") || bool_decide (v = "yes") || bool_decide (v = "on") || bool_decide (v = "1")
  then true
  else if bool_decide (v = "false") || bool_decide (v = "no") || bool_decide (v = "off") || bool_decide (v = "0")
  then false
  else default_value.

End Ini.

(* ================================================================== *)
(** ** Reading back what was written *)

Section scanner.
Import CType Ini.

Lemma lskip_app a b :
  lskip (a ++ b) = match lskip a with [] => lskip b | l => l ++ b end.
Proof. induction a as [|c a IH]; simpl; [done|]. by destruct (isspace c). Qed.

Lemma rev_nil_iff (a : chars) : rev a = [] ↔ a = [].
Proof.
  split; [|by intros ->]. intros H. apply (f_equal (@rev ascii)) in H.
  by rewrite rev_involutive in H.
Qed.

Lemma rstrip_app a b :
  rstrip (a ++ b) = if decide (rstrip b = []) then rstrip a else a ++ rstrip b.
Proof.
  unfold rstrip. rewrite rev_app_distr, lskip_app. case_decide as H.
  - rewrite rev_nil_iff in H. by rewrite H.
  - rewrite rev_nil_iff in H. destruct (lskip (rev b)) as [|x l]; [done|].
    by rewrite rev_app_distr, rev_involutive.
Qed.

Lemma lskip_id a : Forall (λ c, isspace c = false) a → lskip a = a.
Proof. destruct 1 as [|c a Hc]; simpl; [done|]. by rewrite Hc. Qed.

Lemma rstrip_id a : Forall (λ c, isspace c = false) a → rstrip a = a.
Proof.
  intros H. unfold rstrip. rewrite lskip_id, rev_involutive; [done|].
  by apply List.Forall_rev.
Qed.

Lemma rstrip_newline a : rstrip (a ++ [newline]) = rstrip a.
Proof. rewrite rstrip_app. done. Qed.

Lemma rstrip_keeps a c v : isspace c = false → rstrip v = v → rstrip (a ++ c :: v) = a ++ c :: v.
Proof.
  intros Hc Hv. rewrite rstrip_app.
  assert (E : rstrip (c :: v) = c :: v).
  { change (c :: v) with ([c] ++ v). rewrite rstrip_app, Hv. case_decide; [|done]. subst v.
    rewrite app_nil_r. apply rstrip_id. by constructor. }
  by rewrite E.
Qed.

Lemma c_string_id s : Forall (λ c, c ≠ nul) s → c_string s = s.
Proof.
  induction 1 as [|c s Hc _ IH]; simpl; [done|]. unfold eqb. by rewrite bool_decide_false, IH.
Qed.

Lemma eqb_neq a b : a ≠ b → eqb a b = false.
Proof. intros. unfold eqb. by rewrite bool_decide_false. Qed.
Lemma eqb_refl a : eqb a a = true.
Proof. unfold eqb. by rewrite bool_decide_true. Qed.

(** The characters of section names and of keys. *)
Definition plain (c : ascii) : bool :=
  negb (isspace c) && negb (strchr [nul; ";"; "#"; "["; "]"; "="; ":"; "239"]%char c).

Lemma strchr_In l c : strchr l c = true ↔ c ∈ l.
Proof.
  unfold strchr. rewrite existsb_exists. split.
  - intros (x & Hx & He). unfold eqb in He. apply bool_decide_eq_true in He as ->.
    by apply list_elem_of_In.
  - intros H. exists c. split; [by apply list_elem_of_In|apply eqb_refl].
Qed.

Lemma plain_spec c :
  plain c = true →
  isspace c = false ∧ c ≠ nul ∧ c ≠ ";"%char ∧ c ≠ "#"%char ∧ c ≠ "["%char ∧ c ≠ "]"%char ∧
  c ≠ "="%char ∧ c ≠ ":"%char ∧ c ≠ "239"%char ∧ c ≠ newline.
Proof.
  unfold plain. rewrite andb_true_iff, !negb_true_iff. intros [Hs Hc].
  assert (c ∉ [nul; ";"; "#"; "["; "]"; "="; ":"; "239"]%char) as Hn
    by (intros Hin%strchr_In; congruence).
  rewrite !not_elem_of_cons in Hn. destruct_and! Hn. split_and!; try done. by intros ->.
Qed.

(** The scan stops at the first of the wanted characters. *)
Lemma find_plain w n stop l rest :
  Forall (λ c, plain c = true) n → (∀ c, plain c = true → strchr l c = false) → strchr l stop = true →
  (w = false ∨ n ≠ []) →
  find_from w (n ++ stop :: rest) (Some l) = (n, stop :: rest).
Proof.
  intros Hn Hl Hstop. revert w. induction Hn as [|c n Hc _ IH]; intros w Hw; simpl.
  - by rewrite Hstop.
  - destruct (plain_spec c Hc) as (Hs & _ & Hsemi & _). rewrite Hl by done. simpl.
    rewrite Hs, IH by auto. rewrite (eqb_neq c ";"%char) by done. by rewrite andb_false_r.
Qed.

(** No inline comment: no [;] after a white-space character. *)
Definition no_comment (v : chars) : Prop :=
  ∀ i c, v !! i = Some c → isspace c = true → v !! S i ≠ Some ";"%char.

Lemma find_value w v :
  no_comment v → (w = true → head v ≠ Some ";"%char) → find_from w v None = (v, []).
Proof.
  revert w. induction v as [|c v IH]; intros w Hv Hw; simpl; [done|].
  rewrite orb_false_r. destruct (w && eqb c ";"%char) eqn:E.
  - apply andb_true_iff in E as [-> E]. unfold eqb in E. apply bool_decide_eq_true in E as ->.
    by destruct (Hw eq_refl).
  - rewrite IH; [done| |].
    + intros i x Hx. apply (Hv (S i) x Hx).
    + intros Hc Hh. apply (Hv 0%nat c eq_refl Hc). simpl. by destruct v.
Qed.

(** A value that a file can carry on one line. *)
Record value_ok (v : chars) : Prop := {
  v_left : lskip v = v;
  v_right : rstrip v = v;
  v_comment : no_comment v;
  v_chars : Forall (λ c, c ≠ nul ∧ c ≠ newline) v;
}.
Definition name_ok (n : chars) : Prop := n ≠ [] ∧ Forall (λ c, plain c = true) n.

Lemma plain_not_nul n : Forall (λ c, plain c = true) n → Forall (λ c, c ≠ nul ∧ c ≠ newline) n.
Proof. intros H. eapply Forall_impl; [exact H|]. intros c Hc. by destruct (plain_spec c Hc) as (?&?&?&?&?&?&?&?&?&?). Qed.
Lemma plain_not_space n : Forall (λ c, plain c = true) n → Forall (λ c, isspace c = false) n.
Proof. intros H. eapply Forall_impl; [exact H|]. intros c Hc. by destruct (plain_spec c Hc). Qed.

Definition section_line (n : chars) : chars := "["%char :: n ++ ["]"; newline]%char.
Definition pair_line (n v : chars) : chars := n ++ "="%char :: v ++ [newline].

Lemma parse_section s n :
  name_ok n → (length n < MAX_SECTION)%nat →
  parse_line s (section_line n) = s <| lineno ::= Z.succ |> <| section := n |> <| prev_name := [] |>.
Proof.
  intros [_ Hn] Hlen. unfold parse_line, section_line.
  assert (Hns : Forall (λ c, c ≠ nul) ("["%char :: n ++ ["]"; newline]%char)).
  { constructor; [done|]. apply Forall_app. split; [|by repeat constructor].
    eapply Forall_impl; [by apply plain_not_nul|]. by intros c []. }
  rewrite c_string_id by done.
  rewrite bool_decide_false by done. rewrite andb_false_r.
  assert (E : rstrip (drop 0 ("["%char :: n ++ ["]"; newline]%char)) = ("["%char :: n) ++ ["]"%char]).
  { rewrite drop_0. change ("["%char :: n ++ ["]"; newline]%char)
      with (("["%char :: n) ++ "]"%char :: [newline]).
    replace (("["%char :: n) ++ "]"%char :: [newline]) with ((("["%char :: n) ++ ["]"%char]) ++ [newline])
      by by rewrite <- app_assoc.
    rewrite rstrip_newline. by apply rstrip_keeps. }
  rewrite E. simpl. rewrite Nat.sub_diag. simpl. rewrite andb_false_r. simpl.
  unfold find_chars_or_comment. rewrite (find_plain false n "]"%char ["]"%char] []); [|done| | |by left].
  - unfold strncpy0. rewrite take_ge by (unfold MAX_SECTION in *; lia). done.
  - intros c Hc. destruct (plain_spec c Hc) as (_&_&_&_&_&?&_). simpl. by rewrite eqb_neq.
  - done.
Qed.

Lemma parse_pair s n v :
  name_ok n → value_ok v →
  parse_line s (pair_line n v) =
  s <| lineno ::= Z.succ |> <| prev_name := strncpy0 n MAX_NAME |>
    <| user ::= ValueHandler (section s) n v |>.
Proof.
  intros [Hne Hn] [Hl Hr Hc Hv]. destruct n as [|x n]; [done|]. clear Hne.
  assert (Hx : plain x = true) by by inversion Hn.
  unfold parse_line, pair_line.
  assert (Hns : Forall (λ c, c ≠ nul) ((x :: n) ++ "="%char :: v ++ [newline])).
  { apply Forall_app. split.
    - eapply Forall_impl; [by apply plain_not_nul|]. by intros c [].
    - constructor; [done|]. apply Forall_app. split; [|by repeat constructor].
      eapply Forall_impl; [exact Hv|]. by intros c []. }
  destruct (plain_spec x Hx) as (Hsp & _ & Hsemi & Hhash & Hbr & _ & _ & _ & Hbom & _).
  rewrite c_string_id by done. rewrite bool_decide_false by (intros [= E]; done).
  rewrite andb_false_r.
  assert (E : rstrip (drop 0 ((x :: n) ++ "="%char :: v ++ [newline])) = (x :: n) ++ "="%char :: v).
  { rewrite drop_0. replace ((x :: n) ++ "="%char :: v ++ [newline])
      with (((x :: n) ++ "="%char :: v) ++ [newline]) by by rewrite <- app_assoc.
    rewrite rstrip_newline. by apply rstrip_keeps. }
  rewrite E. cbv zeta.
  assert (E2 : lskip ((x :: n) ++ "="%char :: v) = (x :: n) ++ "="%char :: v).
  { simpl. by rewrite Hsp. }
  rewrite E2, Nat.sub_diag. simpl (0 <? 0 + 0)%nat. rewrite andb_false_r.
  change ((x :: n) ++ "="%char :: v) with (x :: n ++ "="%char :: v).
  assert (Hcase : ∀ A (a b : A), match x with ";"%char => a | "#"%char => a | _ => b end = b).
  { intros A a b. clear -Hsemi Hhash. destruct x as [[] [] [] [] [] [] [] []]; done. }
  transitivity (if eqb x "["%char then s else
    match find_chars_or_comment (x :: n ++ "="%char :: v) (Some ["="; ":"]%char) with
    | (n0, e :: v0) =>
        if eqb e "="%char || eqb e ":"%char then
          s <| lineno ::= Z.succ |> <| prev_name := strncpy0 (rstrip n0) MAX_NAME |>
            <| user ::= ValueHandler (section s) (rstrip n0) (cut_comment (lskip v0)) |>
        else fail (s <| lineno ::= Z.succ |>)
    | _ => fail (s <| lineno ::= Z.succ |>)
    end).
  { rewrite (eqb_neq x "["%char) by done. clear -Hsemi Hhash.
    destruct x as [[] [] [] [] [] [] [] []]; done. }
  rewrite (eqb_neq x "["%char) by done.
  unfold find_chars_or_comment. change (x :: n ++ "="%char :: v) with ((x :: n) ++ "="%char :: v).
  rewrite (find_plain false (x :: n) "="%char ["="; ":"]%char v); [|done| |done|by left].
  - rewrite eqb_refl. simpl orb. rewrite (rstrip_id (x :: n)) by by apply plain_not_space.
    unfold cut_comment, find_chars_or_comment. rewrite Hl, find_value by done. simpl. by rewrite Hr.
  - intros c Hpc. destruct (plain_spec c Hpc) as (_&_&_&_&_&_&?&?&_). simpl.
    by rewrite !eqb_neq.
Qed.

(** ** Lines *)

Lemma fgets_line room l rest :
  Forall (λ c, c ≠ newline) l → (length l < room)%nat →
  fgets room (l ++ newline :: rest) = (l ++ [newline], rest).
Proof.
  intros Hl. revert room. induction Hl as [|c l Hc _ IH]; intros [|room] Hlt; simpl in *; try lia.
  - done.
  - rewrite eqb_neq by done. rewrite IH by lia. done.
Qed.

(** A line that one [fgets] returns whole. *)
Definition fits (l : chars) : Prop :=
  ∃ l', l = l' ++ [newline] ∧ Forall (λ c, c ≠ newline) l' ∧ (length l < INI_MAX_LINE)%nat.

Lemma lines_of_cons fuel s :
  s ≠ [] →
  lines_of (S fuel) s = let '(l, rest) := fgets (INI_MAX_LINE - 1) s in l :: lines_of fuel rest.
Proof. by destruct s. Qed.

Lemma lines_of_concat ls fuel :
  Forall fits ls → (length (concat ls) ≤ fuel)%nat → lines_of fuel (concat ls) = ls.
Proof.
  intros Hls. revert fuel. induction Hls as [|l ls (l' & -> & Hl & Hlen) _ IH]; intros fuel Hf.
  - by destruct fuel.
  - simpl in *. rewrite !length_app in Hf. simpl in Hf. destruct fuel as [|fuel]; [lia|].
    assert (E : (l' ++ [newline]) ++ concat ls = l' ++ newline :: concat ls) by by rewrite <- app_assoc.
    rewrite E. rewrite length_app in Hlen. simpl in Hlen.
    rewrite lines_of_cons by by destruct l'.
    rewrite fgets_line by (done || unfold INI_MAX_LINE in *; lia). rewrite IH by lia. done.
Qed.

(** ** Documents *)

Definition document : Type := list (chars * list (chars * chars)).

Definition print_section (sec : chars * list (chars * chars)) : list chars :=
  section_line sec.1 :: ((λ nv : chars * chars, pair_line nv.1 nv.2) <$> sec.2).
Definition print (d : document) : chars := concat (concat (print_section <$> (d : list _))).

Definition pair_ok (nv : chars * chars) : Prop :=
  name_ok nv.1 ∧ value_ok nv.2 ∧ (length nv.1 + length nv.2 + 2 < INI_MAX_LINE)%nat.
Definition section_ok (sec : chars * list (chars * chars)) : Prop :=
  name_ok sec.1 ∧ (length sec.1 < MAX_SECTION)%nat ∧ Forall pair_ok sec.2.

(** The settings of a document, with the keys as the reader stores them. *)
Definition settings_of (d : document) : list (string * string) :=
  concat ((λ sec : chars * list (chars * chars),
             (λ nv : chars * chars, (MakeKey sec.1 nv.1, str nv.2)) <$> sec.2) <$> (d : list _)).

Lemma section_line_fits n : name_ok n → (length n < MAX_SECTION)%nat → fits (section_line n).
Proof.
  intros [_ Hn] Hl. exists ("["%char :: n ++ ["]"%char]). unfold section_line. split_and!.
  - simpl. by rewrite <- app_assoc.
  - constructor; [done|]. apply Forall_app. split; [|by repeat constructor].
    eapply Forall_impl; [by apply plain_not_nul|]. by intros c [].
  - simpl. rewrite length_app. simpl. unfold MAX_SECTION, INI_MAX_LINE in *. lia.
Qed.

Lemma pair_line_fits nv : pair_ok nv → fits (pair_line nv.1 nv.2).
Proof.
  intros ([_ Hn] & Hv & Hl). exists (nv.1 ++ "="%char :: nv.2). unfold pair_line. split_and!.
  - by rewrite <- app_assoc.
  - apply Forall_app. split.
    + eapply Forall_impl; [by apply plain_not_nul|]. by intros c [].
    + constructor; [done|]. eapply Forall_impl; [apply Hv|]. by intros c [].
  - rewrite length_app. simpl. rewrite length_app. simpl. lia.
Qed.

(** What the scanner has accumulated after the lines of a document. *)
Definition reads (s s' : scan) (kvs : list (string * string)) : Prop :=
  error s' = error s ∧ _values (user s') = list_to_map kvs ∪ _values (user s).

Lemma ValueHandler_fresh sec n v r :
  _values r !! MakeKey sec n = None →
  _values (ValueHandler sec n v r) = <[MakeKey sec n := str v]> (_values r).
Proof. intros H. unfold ValueHandler. simpl. by rewrite H. Qed.

Lemma parse_pairs sec kvs s :
  Forall pair_ok kvs → section s = sec →
  NoDup ((λ nv : chars * chars, MakeKey sec nv.1) <$> kvs) →
  (∀ nv, nv ∈ kvs → _values (user s) !! MakeKey sec nv.1 = None) →
  let s' := foldl parse_line s ((λ nv : chars * chars, pair_line nv.1 nv.2) <$> kvs) in
  section s' = sec ∧
  reads s s' ((λ nv : chars * chars, (MakeKey sec nv.1, str nv.2)) <$> kvs).
Proof.
  intros Hk. revert s. induction Hk as [|[n v] kvs (Hn & Hv & _) _ IH]; intros s Hs Hnd Hfresh.
  - simpl. split; [done|]. split; [done|]. simpl. by rewrite (left_id_L ∅ (∪)).
  - csimpl in *. rewrite parse_pair, Hs by done.
    set (s1 := s <| lineno ::= Z.succ |> <| prev_name := strncpy0 n MAX_NAME |>
                 <| user ::= ValueHandler sec n v |>).
    apply NoDup_cons in Hnd as [Hnin Hnd].
    assert (E1 : _values (user s1) = <[MakeKey sec n := str v]> (_values (user s))).
    { apply ValueHandler_fresh. apply (Hfresh (n, v)). by left. }
    destruct (IH s1) as [Hsec [He Hvals]]; [done|done| |].
    { intros nv Hin. rewrite E1, lookup_insert_ne; [apply Hfresh; by right|].
      intros Heq. apply Hnin. rewrite Heq. apply list_elem_of_fmap. by exists nv. }
    split; [done|]. split; [done|]. rewrite Hvals, E1.
    rewrite <- insert_union_r, insert_union_l; [done|].
    apply not_elem_of_list_to_map_1. rewrite <- list_fmap_compose. exact Hnin.
Qed.

Lemma reads_trans s1 s2 s3 l1 l2 :
  reads s1 s2 l1 → reads s2 s3 l2 → l1.*1 ## l2.*1 → reads s1 s3 (l1 ++ l2).
Proof.
  intros [E1 V1] [E2 V2] Hd. split; [congruence|]. rewrite V2, V1, list_to_map_app.
  rewrite (assoc_L (∪)). f_equal. apply map_union_comm, map_disjoint_spec.
  intros k x y Hx%elem_of_list_to_map_2 Hy%elem_of_list_to_map_2.
  apply (Hd k); apply list_elem_of_fmap; [by exists (k, y)|by exists (k, x)].
Qed.

Lemma parse_document d s :
  Forall section_ok d → NoDup (settings_of d).*1 →
  (∀ k, k ∈ (settings_of d).*1 → _values (user s) !! k = None) →
  reads s (foldl parse_line s (concat (print_section <$> d))) (settings_of d).
Proof.
  intros Hd. revert s. induction Hd as [|[sec kvs] d (Hn & Hl & Hk) _ IH]; intros s Hnd Hfresh.
  { split; [done|]. simpl. by rewrite (left_id_L ∅ (∪)). }
  unfold settings_of in *. csimpl in *. rewrite fmap_app in Hnd, Hfresh.
  apply NoDup_app in Hnd as (Hnd1 & Hdisj & Hnd2).
  rewrite parse_section by done. rewrite foldl_app.
  set (s1 := s <| lineno ::= Z.succ |> <| section := sec |> <| prev_name := [] |>).
  rewrite <- list_fmap_compose in Hnd1.
  destruct (parse_pairs sec kvs s1 Hk eq_refl Hnd1) as [_ H1].
  { intros nv Hin. apply Hfresh. apply elem_of_app. left. rewrite <- list_fmap_compose.
    apply list_elem_of_fmap. by exists nv. }
  eapply reads_trans; [|apply IH; [done|]|].
  - exact H1.
  - intros k Hk'. destruct H1 as [_ ->]. apply lookup_union_None. split.
    + apply not_elem_of_list_to_map_1. intros Hin. by apply (Hdisj k).
    + apply Hfresh. apply elem_of_app. by right.
  - intros k. apply Hdisj.
Qed.

Lemma document_fits d : Forall section_ok d → Forall fits (concat (print_section <$> d)).
Proof.
  induction 1 as [|[sec kvs] d (Hn & Hl & Hk) _ IH]; csimpl; [constructor|].
  constructor; [by apply section_line_fits|]. apply Forall_app. split; [|done].
  apply Forall_fmap. eapply Forall_impl; [exact Hk|]. intros nv. apply pair_line_fits.
Qed.

(** Reading back a settings file: for every document whose section names
    and keys are plain, whose values have no outer white space and no inline
    comment, whose lines fit the reader's line buffer and whose keys are
    distinct up to case, the reader reports no error and [Get] returns every
    value, and the default for every key that is not in the document. *)
Theorem ini_roundtrip d :
  Forall section_ok d → NoDup (settings_of d).*1 →
  let r := INIReader (Some (print d)) in
  ParseError r = 0 ∧
  (∀ sec kvs n v dflt, (sec, kvs) ∈ d → (n, v) ∈ kvs → Get r (str sec) (str n) dflt = str v) ∧
  (∀ sec n dflt, key_of sec n ∉ (settings_of d).*1 → Get r sec n dflt = dflt).
Proof.
  intros Hd Hnd. unfold INIReader, ini_parse, ini_parse_stream, print.
  rewrite lines_of_concat by (done || by apply document_fits).
  destruct (parse_document d (mkscan [] [] 0 0 empty) Hd Hnd) as [He Hv]; [done|].
  simpl in He, Hv. rewrite (right_id_L ∅ (∪)) in Hv.
  unfold ParseError, Get. simpl. split; [done|]. rewrite Hv. split.
  - intros sec kvs n v dflt Hs Hk.
    assert (key_of (str sec) (str n) = MakeKey sec n) as ->.
    { unfold key_of, str. by rewrite !list_ascii_of_string_of_list_ascii. }
    erewrite elem_of_list_to_map_1; [done|done|].
    unfold settings_of. apply list_elem_of_In, in_concat.
    exists ((λ nv : chars * chars, (MakeKey sec nv.1, str nv.2)) <$> kvs).
    split; apply list_elem_of_In, list_elem_of_fmap; [by exists (sec, kvs)|by exists (n, v)].
  - intros sec n dflt Hk. by rewrite not_elem_of_list_to_map_1.
Qed.
End scanner.

(** ** The settings of the example file, read back *)
Section ini_examples.
Import CType Ini.
Definition chs (s : string) : chars := list_ascii_of_string s.

Definition sample_doc : document :=
  [(chs "telegram", [(chs "api_id", chs "12345"); (chs "device_model", chs "My PC; v2")]);
   (chs "sip", [(chs "callback_uri", chs "sip:tg@localhost")])].

Lemma value_ok_dec v :
  bool_decide (lskip v = v) && bool_decide (rstrip v = v) &&
  forallb (λ i, negb (match v !! i, v !! S i with
                      | Some c, Some d => isspace c && eqb d ";"%char | _, _ => false end)) (seq 0 (length v)) &&
  forallb (λ c, negb (eqb c nul) && negb (eqb c newline)) v = true →
  value_ok v.
Proof.
  rewrite !andb_true_iff, !bool_decide_eq_true, !forallb_forall. intros [[[H1 H2] H3] H4].
  constructor; [done..| |].
  - intros i c Hi Hc Hs.
    specialize (H3 i). rewrite in_seq, Hi, Hs in H3. unfold eqb in H3.
    rewrite Hc, bool_decide_true in H3 by done. simpl in H3.
    apply lookup_lt_Some in Hi. discriminate H3. lia.
  - apply Forall_forall. intros c Hc. apply list_elem_of_In in Hc.
    specialize (H4 c Hc). unfold eqb in H4. rewrite andb_true_iff, !negb_true_iff, !bool_decide_eq_false in H4.
    done.
Qed.

Lemma ini_roundtrip_witness :
  let r := INIReader (Some (print sample_doc)) in
  ParseError r = 0 ∧
  (∀ sec kvs n v dflt, (sec, kvs) ∈ sample_doc → (n, v) ∈ kvs → Get r (str sec) (str n) dflt = str v) ∧
  (∀ sec n dflt, key_of sec n ∉ (settings_of sample_doc).*1 → Get r sec n dflt = dflt).
Proof.
  apply (ini_roundtrip sample_doc).
  - repeat (constructor; try done); apply value_ok_dec; reflexivity.
  - apply (bool_decide_unpack _). vm_compute. exact I.
Defined.

(** The header says that [GetInteger] takes decimal and hexadecimal; a
    leading zero makes it octal. *)
Example leading_zero_is_octal :
  GetInteger (INIReader (Some (chs "[sip]" ++ newline :: chs "port=010"))) "sip" "port" 0 = 8.
Proof. vm_compute. reflexivity. Qed.
End ini_examples.
