(* ===== verification/Settings.v ===== *)
(** * tg2sip/settings.h, settings.cpp, utils.cpp

    The settings object, filled from the [INIReader], and [is_digits].  The
    members that the constructor leaves unset when the file cannot be read
    are absent: a settings object that is not loaded is never used
    ([main] returns). *)

From Stdlib Require Import ZArith Lia Ascii String.
From stdpp Require Import base tactics numbers option strings gmap list.
From S2P Require Import Prelude Words Ini.
Import Ini.
Open Scope string_scope.
Open Scope Z_scope.

(** [is_digits(str)]. *)
Definition is_digits (s : string) : bool := forallb CType.isdigit (list_ascii_of_string s).

(** [std::clamp(v, lo, hi)]. *)
Definition clamp (v lo hi : Z) : Z := if v <? lo then lo else if hi <? v then hi else v.

Module Settings.

Record t := mk {
  console_min_level : Z;
  file_min_level : Z;
  log_level : Z;
  pjsip_log_level : Z;
  pjsip_log_sip_messages : bool;
  tgvoip_log_level : Z;
  tdlib_log_level : Z;
  sip_port : Z;
  id_uri : string;
  callback_uri : string;
  public_address : string;
  stun_server : string;
  raw_pcm : bool;
  sip_thread_count : Z;
  sip_port_range : Z;
  api_id : Z;
  api_hash : string;
  phone_number : string;
  db_folder : string;
  sys_lang_code : string;
  device_model : string;
  system_version : string;
  app_version : string;
  udp_p2p : bool;
  udp_reflector : bool;
  aec_enabled : bool;
  ns_enabled : bool;
  agc_enabled : bool;
  proxy_enabled : bool;
  proxy_address : string;
  proxy_port : Z;
  proxy_username : string;
  proxy_password : string;
  voip_proxy_enabled : bool;
  voip_proxy_address : string;
  voip_proxy_port : Z;
  voip_proxy_username : string;
  voip_proxy_password : string;
  extra_wait_time : Z;
  peer_flood_time : Z;
  is_loaded : bool;
}.

(** The constructor; [None] when it returns before any member is read.  The
    casts are to [int] and [unsigned int] of 32 bits and to [uint16_t]. *)
Definition ctor (reader : reader) : option t :=
  if ParseError reader <? 0 then None
  else
    let int s n d := s32 (GetInteger reader s n d) in
    let uns s n d := u32 (GetInteger reader s n d) in
    let level n d := clamp (int "logging" n d) 0 6 in
    let str := Get reader in
    let flag := GetBoolean reader in
    let api_id_ := int "telegram" "api_id" 0 in
    let api_hash_ := str "telegram" "api_hash" "" in
    Some {|
      console_min_level := level "console_min_level" 0;
      file_min_level := level "file_min_level" 0;
      log_level := level "core" 2;
      tdlib_log_level := level "tdlib" 3;
      tgvoip_log_level := level "tgvoip" 5;
      pjsip_log_level := level "pjsip" 2;
      pjsip_log_sip_messages := flag "logging" "sip_messages" true;
      sip_port := uns "sip" "port" 0;
      id_uri := str "sip" "id_uri" "sip:localhost";
      callback_uri := str "sip" "callback_uri" "";
      public_address := str "sip" "public_address" "";
      stun_server := str "sip" "stun_server" "";
      raw_pcm := flag "sip" "raw_pcm" true;
      sip_thread_count := uns "sip" "thread_count" 1;
      sip_port_range := uns "sip" "port_range" 0;
      api_id := api_id_;
      api_hash := api_hash_;
      phone_number := str "telegram" "phone_number" "";
      db_folder := str "telegram" "database_folder" "";
      sys_lang_code := str "telegram" "database_folder" "en-US";
      device_model := str "telegram" "device_model" "PC";
      system_version := str "telegram" "system_version" "Linux";
      app_version := str "telegram" "application_version" "1.0";
      udp_p2p := flag "telegram" "udp_p2p" false;
      udp_reflector := flag "telegram" "udp_reflector" true;
      aec_enabled := flag "telegram" "enable_aec" false;
      ns_enabled := flag "telegram" "enable_ns" false;
      agc_enabled := flag "telegram" "enable_agc" false;
      proxy_enabled := flag "telegram" "use_proxy" false;
      proxy_address := str "telegram" "proxy_address" "";
      proxy_port := int "telegram" "proxy_port" 0;
      proxy_username := str "telegram" "proxy_username" "";
      proxy_password := str "telegram" "proxy_password" "";
      voip_proxy_enabled := flag "telegram" "use_voip_proxy" false;
      voip_proxy_address := str "telegram" "voip_proxy_address" "";
      voip_proxy_port := u16 (GetInteger reader "telegram" "voip_proxy_port" 0);
      voip_proxy_username := str "telegram" "voip_proxy_username" "";
      voip_proxy_password := str "telegram" "voip_proxy_password" "";
      extra_wait_time := uns "other" "extra_wait_time" 30;
      peer_flood_time := uns "other" "peer_flood_time" 86400;
      is_loaded := negb ((api_id_ =? 0) || bool_decide (api_hash_ = ""));
    |}.

End Settings.

(* ================================================================== *)
Section settings.
Import Settings.
Implicit Types (s : t) (r : reader).

Lemma clamp_range v lo hi : lo ≤ hi → lo ≤ clamp v lo hi ≤ hi.
Proof. intros. unfold clamp. destruct (Z.ltb_spec v lo), (Z.ltb_spec hi v); lia. Qed.

(** The settings are loaded exactly when the file was readable and both
    TDLib credentials are set, whatever else the file says. *)
Theorem settings_loaded r :
  (∃ s, Settings.ctor r = Some s ∧ is_loaded s = true) ↔
  0 ≤ ParseError r ∧ s32 (GetInteger r "telegram" "api_id" 0) ≠ 0 ∧
  Get r "telegram" "api_hash" "" ≠ "".
Proof.
  unfold Settings.ctor. destruct (Z.ltb_spec (ParseError r) 0).
  - split; [intros (s & ? & _); done|intros [? _]; lia].
  - split.
    + intros (s & [= <-] & Hl). simpl in Hl.
      apply negb_true_iff, orb_false_iff in Hl as [H1%Z.eqb_neq H2%bool_decide_eq_false]. done.
    + intros (_ & H1 & H2). eexists. split; [done|]. simpl.
      apply negb_true_iff, orb_false_iff. split; [by apply Z.eqb_neq|by apply bool_decide_eq_false].
Qed.

(** Whatever the file says, every log level is within 0..6 and every port
    and waiting time within its machine type. *)
Theorem settings_in_range r s :
  Settings.ctor r = Some s →
  0 ≤ console_min_level s ≤ 6 ∧ 0 ≤ file_min_level s ≤ 6 ∧ 0 ≤ log_level s ≤ 6 ∧
  0 ≤ tdlib_log_level s ≤ 6 ∧ 0 ≤ tgvoip_log_level s ≤ 6 ∧ 0 ≤ pjsip_log_level s ≤ 6 ∧
  is_u32 (sip_port s) ∧ is_u16 (voip_proxy_port s) ∧ is_s32 (proxy_port s) ∧
  is_u32 (extra_wait_time s) ∧ is_u32 (peer_flood_time s).
Proof.
  unfold Settings.ctor. destruct (ParseError r <? 0); [done|]. intros [= <-]. cbn.
  split_and!; apply clamp_range || apply u32_range || apply u16_range || apply s32_range; lia.
Qed.

(** The key [system_language_code], which the example settings file
    documents, has no effect: two files that agree on every other key give
    the same settings, and the language code sent to Telegram is the
    database folder. *)
Theorem language_code_is_ignored r1 r2 s :
  ParseError r1 = ParseError r2 →
  (∀ k, k ≠ key_of "telegram" "system_language_code" → _values r1 !! k = _values r2 !! k) →
  Settings.ctor r1 = Some s →
  Settings.ctor r2 = Some s ∧ sys_lang_code s = Get r1 "telegram" "database_folder" "en-US".
Proof.
  intros He Hk H1.
  assert (HG : ∀ sec n d, key_of sec n ≠ key_of "telegram" "system_language_code" →
    Get r1 sec n d = Get r2 sec n d).
  { intros sec n d Hne. unfold Get. by rewrite Hk. }
  assert (HI : ∀ sec n d, key_of sec n ≠ key_of "telegram" "system_language_code" →
    GetInteger r1 sec n d = GetInteger r2 sec n d).
  { intros sec n d Hne. unfold GetInteger. by rewrite HG. }
  assert (HB : ∀ sec n d, key_of sec n ≠ key_of "telegram" "system_language_code" →
    GetBoolean r1 sec n d = GetBoolean r2 sec n d).
  { intros sec n d Hne. unfold GetBoolean. by rewrite HG. }
  split.
  - rewrite <- H1. unfold Settings.ctor. rewrite He. destruct (ParseError r2 <? 0); [done|].
    by rewrite !HG, !HI, !HB by (vm_compute; discriminate).
  - unfold Settings.ctor in H1. destruct (ParseError r1 <? 0); [done|]. by injection H1 as <-.
Qed.
End settings.

Section settings_witness.
Definition lang_file (lang : string) : chars :=
  chs "[telegram]" ++ CType.newline :: chs "api_id=1" ++ CType.newline :: chs "api_hash=x" ++
  CType.newline :: chs "database_folder=db" ++ CType.newline :: chs "system_language_code=" ++ chs lang.

Definition lang_settings : Settings.t :=
  Eval vm_compute in
  match Settings.ctor (INIReader (Some (lang_file "de"))) with
  | Some s => s
  | None => Settings.mk 0 0 0 0 false 0 0 0 "" "" "" "" false 0 0 0 "" "" "" "" "" "" "" false false
              false false false false "" 0 "" "" false "" 0 "" "" 0 0 false
  end.

Lemma settings_in_range_witness : 0 ≤ Settings.console_min_level lang_settings ≤ 6.
Proof.
  destruct (settings_in_range (INIReader (Some (lang_file "de"))) lang_settings) as [H _]; [|exact H].
  vm_compute. reflexivity.
Defined.

Definition lang_values (lang : string) : gmap string string :=
  <[key_of "telegram" "system_language_code" := lang]>
    (<[key_of "telegram" "database_folder" := "db"]> (<[key_of "telegram" "api_hash" := "x"]>
      (<[key_of "telegram" "api_id" := "1"]> ∅))).
Lemma lang_values_de : _values (INIReader (Some (lang_file "de"))) = lang_values "de".
Proof. vm_compute. reflexivity. Qed.
Lemma lang_values_fr : _values (INIReader (Some (lang_file "fr"))) = lang_values "fr".
Proof. vm_compute. reflexivity. Qed.

Lemma language_code_is_ignored_witness :
  Settings.ctor (INIReader (Some (lang_file "fr"))) = Some lang_settings ∧
  Settings.sys_lang_code lang_settings =
    Get (INIReader (Some (lang_file "de"))) "telegram" "database_folder" "en-US".
Proof.
  apply (language_code_is_ignored (INIReader (Some (lang_file "de")))
           (INIReader (Some (lang_file "fr"))) lang_settings).
  - vm_compute. reflexivity.
  - intros k Hk.
    rewrite lang_values_de, lang_values_fr. unfold lang_values.
    by rewrite (lookup_insert_ne _ _ k "de"), (lookup_insert_ne _ _ k "fr") by done.
  - vm_compute. reflexivity.
Defined.
End settings_witness.
