(* ===== verification/Env.v ===== *)
(** * The libraries the gateway drives

    TDLib, PJSIP and the clock are parameters of the model: an [Env] answers
    the calls the gateway makes, threading a state of its own.  The data
    exchanged with them is what the gateway reads and writes.  Every call
    out is also recorded in a trace, in the order it was made, so that
    theorems can say what the gateway did. *)

From Stdlib Require Import ZArith Lia String.
From stdpp Require Import base tactics numbers option strings gmap list.
From S2P Require Import Prelude Words.
Open Scope string_scope.
Open Scope Z_scope.

(** ** Telegram objects *)

Inductive call_state :=
  | callStatePending
  | callStateExchangingKeys
  | callStateReady
  | callStateHangingUp
  | callStateDiscarded
  | callStateError.
#[export] Instance call_state_eq_dec : EqDecision call_state.
Proof. solve_decision. Defined.

(** The fields of [td_api::call] that are used. *)
Record tg_call := mkcall { c_id : Z; c_user_id : Z; c_is_outgoing : bool; c_state : call_state }.

Inductive message_sender := messageSenderUser (user_id : Z) | messageSenderChat (chat_id : Z).
Inductive message_content := messageText (text : string) | messageOther.
Record tg_message := mkmessage { m_sender : message_sender; m_content : message_content }.

Record tg_user := mkuser {
  u_id : Z; u_first_name : string; u_last_name : string; u_username : string;
  u_phone_number : string; u_have_access : bool;
}.

(** The queries the gateway sends; [callProtocol] carries the two UDP flags. *)
Inductive query :=
  | getUser (user_id : Z)
  | acceptCall (call_id : Z) (udp_p2p udp_reflector : bool)
  | createCall (user_id : Z) (udp_p2p udp_reflector : bool)
  | discardCall (call_id : Z)
  | importContacts (phone : string)
  | searchPublicChat (username : string)
  | searchContacts.

Inductive response :=
  | R_error (code : Z) (message : string)
  | R_ok
  | R_user (u : tg_user)
  | R_callId (id : Z)
  | R_importedContacts (user_ids : list Z)
  | R_chat (id : Z) (is_private : bool)
  | R_users (user_ids : list Z).

(** The result type TDLib documents for each function; any function may
    fail.  One user id is returned per imported contact. *)
Definition typed (q : query) (r : response) : bool :=
  match q, r with
  | _, R_error _ _ => true
  | getUser _, R_user _ => true
  | acceptCall _ _ _, R_ok => true
  | createCall _ _ _, R_callId _ => true
  | discardCall _, R_ok => true
  | importContacts _, R_importedContacts l => (List.length l =? 1)%nat
  | searchPublicChat _, R_chat _ _ => true
  | searchContacts, R_users _ => true
  | _, _ => false
  end.

(** ** SIP data *)

(** [pj::CallOpParam]: status code, reason, extra headers. *)
Record CallOpParam := mkprm {
  statusCode : Z; reason : string; headers : list (string * string);
}.
Definition no_prm : CallOpParam := mkprm 0 "" [].

Inductive inv_state :=
  | PJSIP_INV_STATE_NULL | PJSIP_INV_STATE_CALLING | PJSIP_INV_STATE_INCOMING
  | PJSIP_INV_STATE_EARLY | PJSIP_INV_STATE_CONNECTING | PJSIP_INV_STATE_CONFIRMED
  | PJSIP_INV_STATE_DISCONNECTED.
#[export] Instance inv_state_eq_dec : EqDecision inv_state.
Proof. solve_decision. Defined.

Definition PJSUA_INVALID_ID : Z := -1.
Definition PJSIP_SC_RINGING : Z := 180.
Definition PJSIP_SC_OK : Z := 200.
Definition PJSIP_SC_NOT_FOUND : Z := 404.
Definition PJSIP_SC_BAD_EXTENSION : Z := 420.
Definition PJSIP_SC_INTERNAL_SERVER_ERROR : Z := 500.

(** ** Calls out *)

Inductive effect :=
  | Tg (q : query)
  | PjMakeCall (uri : string) (prm : CallOpParam)
  | PjAnswer (id : Z) (prm : CallOpParam)
  | PjHangup (id : Z) (prm : CallOpParam)
  | PjDtmf (id : Z) (digits : string)
  | PjConnect (id : Z)
  | VoipStart (tg_call_id : Z)
  | VoipStop (tg_call_id : Z).

(** A PJSUA2 call throws [pj::Error] with a reason, or succeeds. *)
Definition pj_result (A : Type) : Type := A + string.

Record Env (W : Type) := mkenv {
  tg_query : query → W → response * W;
  clock : W → Z * W;                     (** steady_clock, in nanoseconds *)
  make_call : string → CallOpParam → W → pj_result Z * W;
  answer : Z → CallOpParam → W → pj_result unit * W;
  hangup : Z → CallOpParam → W → pj_result unit * W;
  dial_dtmf : Z → string → W → pj_result unit * W;
  (** Has the call an audio stream; connecting it to the two ports. *)
  audio_media : Z → W → pj_result bool * W;
  connect_audio : Z → W → pj_result unit * W;
}.
Arguments mkenv {W}.
Arguments tg_query {W}.
Arguments clock {W}.
Arguments make_call {W}.
Arguments answer {W}.
Arguments hangup {W}.
Arguments dial_dtmf {W}.
Arguments audio_media {W}.
Arguments connect_audio {W}.

(** TDLib answers a query with the type it documents. *)
Definition tg_typed {W} (E : Env W) : Prop := ∀ q w, typed q (tg_query E q w).1 = true.

(** The outside: the libraries' state and what was asked of them, most
    recent first. *)
Record outside (W : Type) := mkoutside { world : W; trace : list effect }.
Arguments mkoutside {W}.
Arguments world {W}.
Arguments trace {W}.

(** ** A well-behaved environment for the examples

    Every query succeeds, user 77 is the only user, calls are numbered from
    the counter that is the state. *)
Definition demo_env : Env Z := {|
  tg_query q w :=
    (match q with
     | getUser u => R_user (mkuser u "Ann" "" "ann" "4477" true)
     | createCall _ _ _ => R_callId (w + 100)
     | importContacts _ => R_importedContacts [77]
     | searchPublicChat _ => R_chat 77 true
     | searchContacts => R_users [77]
     | acceptCall _ _ _ | discardCall _ => R_ok
     end, w + 1);
  clock w := (w, w);
  make_call _ _ w := (inl (w + 1), w + 1);
  answer _ _ w := (inl tt, w);
  hangup _ _ w := (inl tt, w);
  dial_dtmf _ _ w := (inl tt, w);
  audio_media _ w := (inl true, w);
  connect_audio _ w := (inl tt, w);
|}.

Lemma demo_env_typed : tg_typed demo_env.
Proof. intros [] w; reflexivity. Qed.
