(* ===== verification/Sip.v ===== *)
(** * tg2sip/sip.h, sip.cpp: [sip::Client]

    The map of calls and the operations on them; the handlers that PJSIP
    runs push events.  [pj::Error] and [std::runtime_error] are the two ways
    an operation fails. *)

From Stdlib Require Import ZArith Lia String.
From stdpp Require Import base tactics numbers option strings gmap list.
From S2P Require Import Prelude Words Env.
Open Scope string_scope.
Open Scope Z_scope.

Module Sip.

Inductive Event :=
  | IncomingCall (id : Z) (extension : string)
  | CallStateUpdate (id : Z) (state : inv_state)
  | CallMediaStateUpdate (id : Z) (has_media : bool).

(** [sip::Call]: what is kept beside the PJSUA2 object. *)
Record Call := mkCall { local_user : string }.

Record client := mk { calls : gmap Z Call; events : list Event }.
#[export] Instance client_eta : Eta client := λ c, mk (calls c) (events c).

(** [LogWriter::write]: PJSIP's level to spdlog's. *)
Definition spd_log_level (level : Z) : Z := if 5 <? level then 0 else 5 - level.

(** Exceptions with their text. *)
Inductive failure := PjError (reason : string) | RuntimeError (what : string).

Section ops.
Context {W : Type} (E : Env W).

(** State: the client and the outside. *)
Definition st : Type := client * outside W.
Definition R (A : Type) : Type := st → (A + failure) * st.

Definition ret {A} (a : A) : R A := λ s, (inl a, s).
Definition fail {A} (f : failure) : R A := λ s, (inr f, s).
Definition bind {A B} (m : R A) (k : A → R B) : R B := λ s,
  match m s with
  | (inl a, s') => k a s'
  | (inr f, s') => (inr f, s')
  end.

(** Call PJSUA2: recorded, and its exception is [pj::Error]. *)
Definition pj {A} (e : effect) (op : W → pj_result A * W) : R A := λ s,
  let '(r, w) := op (world s.2) in
  (match r with inl a => inl a | inr reason => inr (PjError reason) end,
   (s.1, mkoutside w (e :: trace s.2))).

(** A PJSUA2 getter: not recorded. *)
Definition pj_get {A} (op : W → pj_result A * W) : R A := λ s,
  let '(r, w) := op (world s.2) in
  (match r with inl a => inl a | inr reason => inr (PjError reason) end,
   (s.1, mkoutside w (trace s.2))).

Definition upd (f : client → client) : R unit := λ s, (inl tt, (f s.1, s.2)).

(** [calls.emplace(id, call)] keeps an existing entry. *)
Definition emplace_call (id : Z) (c : Call) (cl : client) : client :=
  match calls cl !! id with
  | Some _ => cl
  | None => cl <| calls ::= <[id := c]> |>
  end.

Definition Dial (uri : string) (prm : CallOpParam) : R Z :=
  bind (pj (PjMakeCall uri prm) (make_call E uri prm)) (λ sip_id,
  bind (upd (emplace_call sip_id (mkCall ""))) (λ _, ret sip_id)).

Definition find (id : Z) : R (option Call) := λ s, (inl (calls s.1 !! id), s).

Definition Hangup (call_id : Z) (prm : CallOpParam) : R unit :=
  bind (find call_id) (λ it,
  match it with
  | Some _ =>
      bind (pj (PjHangup call_id prm) (hangup E call_id prm)) (λ _,
      upd (λ cl, cl <| calls ::= delete call_id |>))
  | None => ret tt
  end).

Definition BridgeAudio (call_id : Z) : R unit :=
  bind (find call_id) (λ it,
  match it with
  | None => fail (RuntimeError "CALL_NOT_FOUND")
  | Some _ =>
      bind (pj_get (audio_media E call_id)) (λ sip_audio,
      if sip_audio then pj (PjConnect call_id) (connect_audio E call_id)
      else fail (RuntimeError "SIP_MEDIA_NOT_READY"))
  end).

Definition Answer (call_id : Z) (prm : CallOpParam) : R unit :=
  bind (find call_id) (λ it,
  match it with
  | None => fail (RuntimeError "CALL_NOT_FOUND")
  | Some _ => pj (PjAnswer call_id prm) (answer E call_id prm)
  end).

Definition DialDtmf (call_id : Z) (dtmf_digits : string) : R unit :=
  bind (find call_id) (λ it,
  match it with
  | None => fail (RuntimeError "CALL_NOT_FOUND")
  | Some _ => pj (PjDtmf call_id dtmf_digits) (dial_dtmf E call_id dtmf_digits)
  end).
End ops.

(** ** The handlers PJSIP runs *)

(** [events.emplace(...)]. *)
Definition push (e : Event) (c : client) : client := c <| events ::= λ l, (l ++ [e])%list |>.

(** The incoming-call handler: [id] and the user part of the local URI. *)
Definition on_incoming_call (id : Z) (user : string) (c : client) : client :=
  push (IncomingCall id user) (emplace_call id (mkCall user) c).

(** The default handlers hold a weak pointer to the call; [alive]: it could
    be locked. *)
Definition on_call_state (alive : bool) (id : Z) (state : inv_state) (c : client) : client :=
  if alive then push (CallStateUpdate id state) c else c.
Definition on_call_media_state (alive : bool) (id : Z) (has_media : bool) (c : client) : client :=
  if alive then push (CallMediaStateUpdate id has_media) c else c.

End Sip.

(* ================================================================== *)
Section sip.
Import Sip.
Context {W : Type} (E : Env W).
Implicit Types (c : client) (o : outside W).

(** A call that could not be hung up stays registered: when PJSIP fails
    the hangup, the call's entry is still in the map after [Hangup], and the
    next incoming call that PJSIP gives the same id does not replace it. *)
Theorem failed_hangup_leaks_call c o id prm call why w user :
  calls c !! id = Some call → hangup E id prm (world o) = (inr why, w) →
  ∃ c', Hangup E id prm (c, o) = (inr (PjError why), (c', mkoutside w (PjHangup id prm :: trace o))) ∧
        calls c' !! id = Some call ∧
        calls (on_incoming_call id user c') !! id = Some call.
Proof.
  intros Hc Hh. exists c. unfold Hangup, bind, find, pj. simpl. rewrite Hc. simpl. rewrite Hh.
  split_and!; [done..|]. unfold on_incoming_call, emplace_call. rewrite Hc. done.
Qed.

(** What [Hangup] does: an unknown call is ignored; a known one is hung
    up once with the given parameters and forgotten. *)
Theorem hangup_spec c o id prm w :
  hangup E id prm (world o) = (inl tt, w) →
  Hangup E id prm (c, o) =
  (inl tt, (c <| calls ::= delete id |>,
            match calls c !! id with
            | Some _ => mkoutside w (PjHangup id prm :: trace o)
            | None => o
            end)).
Proof.
  intros Hh. unfold Hangup, bind, find, pj, upd, ret. simpl.
  destruct (calls c !! id) as [call|] eqn:Hc; simpl; [by rewrite Hh|].
  destruct c as [cs ev]; simpl in *. unfold updater; cbn. by rewrite delete_id.
Qed.
End sip.

Lemma failed_hangup_leaks_call_witness :
  ∃ c', Sip.Hangup (mkenv (tg_query demo_env) (clock demo_env) (make_call demo_env) (answer demo_env)
          (λ _ _ w, (inr "no session", w)) (dial_dtmf demo_env) (audio_media demo_env)
          (connect_audio demo_env)) 3 no_prm (Sip.mk {[3 := Sip.mkCall "a"]} [], mkoutside 0 [])
        = (inr (Sip.PjError "no session"), (c', mkoutside 0 [PjHangup 3 no_prm])) ∧
        Sip.calls c' !! 3 = Some (Sip.mkCall "a") ∧
        Sip.calls (Sip.on_incoming_call 3 "b" c') !! 3 = Some (Sip.mkCall "a").
Proof.
  apply (failed_hangup_leaks_call (mkenv (tg_query demo_env) (clock demo_env) (make_call demo_env)
    (answer demo_env) (λ _ _ w, (inr "no session", w)) (dial_dtmf demo_env) (audio_media demo_env)
    (connect_audio demo_env)) (Sip.mk {[3 := Sip.mkCall "a"]} []) (mkoutside 0 []) 3 no_prm
    (Sip.mkCall "a") "no session" 0 "b"); reflexivity.
Defined.
