(* ===== verification/Machine.v ===== *)
(** * tg2sip/gateway.cpp: guards, actions and transition tables

    The per-call state machine.  Actions run on the context of one bridge
    and on what all bridges share: the SIP client, the outside, the contact
    cache, the flood-wait deadline and the queue of internal errors.

    The tables are lists of transitions in the order of the source, run as
    Boost.SML runs them: in a composite state the inner machine sees the
    event first; the first transition whose source state, event type and
    guard match is taken; the state changes (an entered composite state
    starts at its initial state) before the action runs; entering [X] runs
    [CleanUp]; an event that nothing matches is dropped.  An exception that
    leaves an action terminates the program, since SML's [process_event] is
    [noexcept] here. *)

From Stdlib Require Import ZArith Lia Ascii String.
From stdpp Require Import base tactics numbers option strings pretty gmap list.
From S2P Require Import Prelude Words Ini Settings Env Sip.
From stdpp Require Import list.
Open Scope string_scope.
Open Scope Z_scope.

Module Machine.

(** ** Data *)

Record Cache := mkCache { username_cache : gmap string Z; phone_cache : gmap string Z }.
#[export] Instance cache_eta : Eta Cache := λ c, mkCache (username_cache c) (phone_cache c).

(** [Context]; the controller is identified by the Telegram call it serves. *)
Record Context := mkContext {
  id : string;
  sip_call_id : Z;
  tg_call_id : Z;
  controller : option Z;
  ext_phone : string;
  ext_username : string;
  user_id : Z;
  hangup_prm : CallOpParam;
}.
#[export] Instance context_eta : Eta Context := λ c,
  mkContext (id c) (sip_call_id c) (tg_call_id c) (controller c) (ext_phone c)
            (ext_username c) (user_id c) (hangup_prm c).
Definition new_context (i : string) : Context :=
  mkContext i PJSUA_INVALID_ID 0 None "" "" 0 no_prm.

Inductive event :=
  | EvCall (call : tg_call)
  | EvMessage (m : tg_message)
  | EvSip (e : Sip.Event)
  | EvInternalError (ctx_id : string) (prm : CallOpParam).

Record act (W : Type) := mkact {
  ctx : Context;
  sip : Sip.client;
  out : outside W;
  cache : Cache;
  block_until : Z;
  internal_events : list (string * CallOpParam);
}.
Arguments mkact {W}.
Arguments ctx {W}.
Arguments sip {W}.
Arguments out {W}.
Arguments cache {W}.
Arguments block_until {W}.
Arguments internal_events {W}.
#[export] Instance act_eta {W} : Eta (act W) := λ s,
  mkact (ctx s) (sip s) (out s) (cache s) (block_until s) (internal_events s).

(** ** Guards *)

Definition guard : Type := Settings.t → event → bool.
Definition IsIncoming : guard := λ _ e,
  match e with EvCall c => negb (c_is_outgoing c) | _ => false end.
Definition IsInState (st : call_state) : guard := λ _ e,
  match e with EvCall c => bool_decide (c_state c = st) | _ => false end.
Definition IsSipInState (st : inv_state) : guard := λ _ e,
  match e with EvSip (Sip.CallStateUpdate _ s) => bool_decide (s = st) | _ => false end.
Definition CallbackUriIsSet : guard := λ settings _,
  negb (bool_decide (Settings.callback_uri settings = "")).
Definition IsMediaReady : guard := λ _ e,
  match e with EvSip (Sip.CallMediaStateUpdate _ has_media) => has_media | _ => false end.
Definition IsTextContent : guard := λ _ e,
  match e with EvMessage m => match m_content m with messageText _ => true | _ => false end | _ => false end.

(** [^[0-9A-D*#]{1,32}$]. *)
Definition dtmf_char (c : ascii) : bool :=
  CType.isdigit c || ((65 <=? CType.code c) && (CType.code c <=? 68))
  || CType.eqb c "*"%char || CType.eqb c "#"%char.
Definition is_dtmf (text : string) : bool :=
  (1 <=? String.length text)%nat && (String.length text <=? 32)%nat
  && forallb dtmf_char (list_ascii_of_string text).
Definition IsDtmfString : guard := λ _ e,
  match e with
  | EvMessage m => match m_content m with messageText t => is_dtmf t | _ => false end
  | _ => false
  end.
Definition always : guard := λ _ _, true.
Definition gand (g h : guard) : guard := λ s e, g s e && h s e.
Definition gor (g h : guard) : guard := λ s e, g s e || h s e.
Definition gnot (g : guard) : guard := λ s e, negb (g s e).

(** ** Actions *)

Section actions.
Context {W : Type} (E : Env W) (settings : Settings.t).
Abbreviation A := (M (act W)).

Definition action : Type := event → A unit.

(** A call to the SIP client, its exception caught as a value. *)
Definition sip_try {T} (m : Sip.R (W := W) T) : A (T + Sip.failure) := λ s,
  let '(r, (c, o)) := m (sip s, out s) in Ret r (s <| sip := c |> <| out := o |>).

(** [tg_client.send_query_async(q).get()]. *)
Definition ask (q : query) : A response := λ s,
  let '(r, w) := tg_query E q (world (out s)) in
  Ret r (s <| out := mkoutside w (Tg q :: trace (out s)) |>).

Definition now : A Z := λ s,
  let '(t, w) := clock E (world (out s)) in Ret t (s <| out := mkoutside w (trace (out s)) |>).

Definition note (e : effect) : A unit :=
  modify (λ s, s <| out ::= λ o, mkoutside (world o) (e :: trace o) |>).

Definition internal_error (prm : CallOpParam) : A unit :=
  modify (λ s, s <| internal_events ::= λ l, (l ++ [(id (ctx s), prm)])%list |>).
Definition server_error (why : string) : A unit :=
  internal_error (mkprm PJSIP_SC_INTERNAL_SERVER_ERROR why []).
Definition failure_text (f : Sip.failure) : string :=
  match f with Sip.PjError r => r | Sip.RuntimeError w => w end.
Definition tg_error_text (code : Z) (msg : string) : string := pretty code +:+ "; " +:+ msg.

Definition StoreSipId : action := λ e,
  match e with
  | EvSip (Sip.IncomingCall i _) => modify (λ s, s <| ctx ::= λ c, c <| sip_call_id := i |> |>)
  | _ => mret tt
  end.
Definition StoreTgId : action := λ e,
  match e with
  | EvCall c => modify (λ s, s <| ctx ::= λ x, x <| tg_call_id := c_id c |> |>)
  | _ => mret tt
  end.
Definition StoreTgUserId : action := λ e,
  match e with
  | EvCall c => modify (λ s, s <| ctx ::= λ x, x <| user_id := c_user_id c |> |>)
  | _ => mret tt
  end.
Definition CleanTgId : action := λ _, modify (λ s, s <| ctx ::= λ x, x <| tg_call_id := 0 |> |>).
Definition CleanSipId : action := λ _,
  modify (λ s, s <| ctx ::= λ x, x <| sip_call_id := PJSUA_INVALID_ID |> |>).
Definition SetHangupPrm : action := λ e,
  match e with
  | EvInternalError _ prm => modify (λ s, s <| ctx ::= λ x, x <| hangup_prm := prm |> |>)
  | _ => mret tt
  end.

(** [CleanUp]: [Hangup] throws nothing but [pj::Error], which is logged. *)
Definition CleanUp : A unit :=
  s ← get;
  (match controller (ctx s) with Some c => note (VoipStop c) | None => mret tt end);;
  (if negb (tg_call_id (ctx s) =? 0) then
     ask (discardCall (tg_call_id (ctx s)));;
     modify (λ s, s <| ctx ::= λ x, x <| tg_call_id := 0 |> |>)
   else mret tt);;
  (if negb (sip_call_id (ctx s) =? PJSUA_INVALID_ID) then
     sip_try (Sip.Hangup E (sip_call_id (ctx s)) (hangup_prm (ctx s)));;
     modify (λ s, s <| ctx ::= λ x, x <| sip_call_id := PJSUA_INVALID_ID |> |>)
   else mret tt).

Definition header_if (name value : string) : list (string * string) :=
  if bool_decide (value = "") then [] else [(name, value)].

(** The headers of the call to the callback URI. *)
Definition dial_headers (ctx_id : string) (uid : Z) (u : tg_user) : list (string * string) :=
  ([("X-GW-Context", ctx_id); ("X-TG-ID", pretty uid)]
   ++ header_if "X-TG-FirstName" (u_first_name u)
   ++ header_if "X-TG-LastName" (u_last_name u)
   ++ header_if "X-TG-Username" (u_username u)
   ++ header_if "X-TG-Phone" (u_phone_number u))%list.

Definition DialSip : action := λ e,
  match e with
  | EvCall c =>
      r ← ask (getUser (c_user_id c));
      match r with
      | R_error _ msg => throw (Prelude.RuntimeError msg)
      | R_user u =>
          s ← get;
          d ← sip_try (Sip.Dial E (Settings.callback_uri settings)
                         (mkprm 0 "" (dial_headers (id (ctx s)) (c_user_id c) u)));
          match d with
          | inl i => modify (λ s, s <| ctx ::= λ x, x <| sip_call_id := i |> |>)
          | inr (Sip.PjError why) => server_error why
          | inr (Sip.RuntimeError what) => throw (Prelude.RuntimeError what)
          end
      | _ => crash_with UndefinedBehaviour
      end
  | _ => mret tt
  end.

Definition AnswerTg : action := λ _,
  s ← get;
  r ← ask (acceptCall (tg_call_id (ctx s)) (Settings.udp_p2p settings) (Settings.udp_reflector settings));
  match r with
  | R_error code msg => server_error (tg_error_text code msg)
  | _ => mret tt
  end.

(** An extension dialled from SIP. *)
Inductive extension := ExtUsername (u : string) | ExtPhone (p : string) | ExtId (n : Z) | ExtInvalid.

(** [std::stol] of a string of digits. *)
Definition stol (s : string) : option Z :=
  let '(v, n) := CType.digits 10 0 (list_ascii_of_string s) in
  if (n =? 0)%nat then None else if decide (is_s64 v) then Some v else None.

Definition parse_extension (ext : string) : extension :=
  let cs := list_ascii_of_string ext in
  let sub n := string_of_list_ascii (drop n cs) in
  if (3 <? List.length cs)%nat && bool_decide (take 3 cs = list_ascii_of_string "tg#") then ExtUsername (sub 3%nat)
  else if (1 <? List.length cs)%nat && bool_decide (head cs = Some "+"%char) && is_digits (sub 1%nat)
  then ExtPhone (sub 1%nat)
  else if is_digits ext then
    match stol ext with Some n => ExtId n | None => ExtInvalid end
  else ExtInvalid.

(** Ring or pick up the SIP call of the context. *)
Definition answer_sip (code : Z) : A unit :=
  s ← get;
  r ← sip_try (Sip.Answer E (sip_call_id (ctx s)) (mkprm code "" []));
  match r with
  | inl _ => mret tt
  | inr f => server_error (failure_text f)
  end.

Definition AcceptIncomingSip : action := λ e,
  match e with
  | EvSip (Sip.IncomingCall _ ext) =>
      match parse_extension ext with
      | ExtUsername u => modify (λ s, s <| ctx ::= λ x, x <| ext_username := u |> |>);; answer_sip PJSIP_SC_RINGING
      | ExtPhone p => modify (λ s, s <| ctx ::= λ x, x <| ext_phone := p |> |>);; answer_sip PJSIP_SC_RINGING
      | ExtId n => modify (λ s, s <| ctx ::= λ x, x <| user_id := n |> |>);; answer_sip PJSIP_SC_RINGING
      | ExtInvalid => internal_error (mkprm PJSIP_SC_BAD_EXTENSION "" [])
      end
  | _ => mret tt
  end.

Definition AnswerSip : action := λ _, answer_sip PJSIP_SC_OK.

(** [CreateTgVoip]: the controller is configured, started and connected. *)
Definition CreateTgVoip : action := λ e,
  match e with
  | EvCall c =>
      match c_state c with
      | callStateReady =>
          s ← get;
          note (VoipStart (tg_call_id (ctx s)));;
          modify (λ s, s <| ctx ::= λ x, x <| controller := Some (tg_call_id x) |> |>)
      | _ => crash_with UndefinedBehaviour
      end
  | _ => mret tt
  end.

(** [BridgeAudio]: the media ports are read through [ctx.controller]. *)
Definition BridgeAudio : action := λ _,
  s ← get;
  match controller (ctx s) with
  | None => crash_with UndefinedBehaviour
  | Some _ =>
      r ← sip_try (Sip.BridgeAudio E (sip_call_id (ctx s)));
      match r with
      | inl _ => mret tt
      | inr f => server_error (failure_text f)
      end
  end.

(** *** [DialTg] *)

Definition second : Z := 1000000000.

(** [std::regex_search(msg, "...(\\d+)")]: the digits after the first
    occurrence of the text that is followed by a digit. *)
Fixpoint search_digits (pat : chars) (s : chars) : option chars :=
  let here :=
    if bool_decide (take (List.length pat) s = pat) then
      match CType.digits 10 0 (drop (List.length pat) s) with
      | (_, O) => None
      | (_, n) => Some (take n (drop (List.length pat) s))
      end
    else None in
  match here with
  | Some d => Some d
  | None => match s with [] => None | _ :: s' => search_digits pat s' end
  end.
Fixpoint contains (pat : chars) (s : chars) : bool :=
  bool_decide (take (List.length pat) s = pat) ||
  match s with [] => false | _ :: s' => contains pat s' end.

Definition retry_text : chars := list_ascii_of_string "Too Many Requests: retry after ".
Definition flood_text : chars := list_ascii_of_string "PEER_FLOOD".

(** [std::stoi] throws [out_of_range] beyond [int]. *)
Definition parse_error (msg : string) : A unit :=
  match search_digits retry_text (list_ascii_of_string msg) with
  | Some d =>
      let seconds := (CType.digits 10 0 d).1 in
      if 2147483647 <? seconds then throw OutOfRange
      else
        t ← now;
        modify (λ s, s <| block_until := t + second * u32 (seconds + Settings.extra_wait_time settings) |>)
  | None =>
      if contains flood_text (list_ascii_of_string msg) then
        t ← now;
        modify (λ s, s <| block_until := t + second * Settings.peer_flood_time settings |>)
      else mret tt
  end.

Definition tg_failure (code : Z) (msg : string) : A unit :=
  server_error (tg_error_text code msg);; parse_error msg.

Definition dial_by_id (uid : Z) : A unit :=
  r ← ask (createCall uid (Settings.udp_p2p settings) (Settings.udp_reflector settings));
  match r with
  | R_error code msg => tg_failure code msg
  | R_callId i => modify (λ s, s <| ctx ::= λ x, x <| tg_call_id := i |> |>)
  | _ => crash_with UndefinedBehaviour
  end.

(** [std::map::emplace] keeps an existing entry. *)
Definition emplace (k : string) (v : Z) (m : gmap string Z) : gmap string Z :=
  match m !! k with Some _ => m | None => <[k := v]> m end.

Definition dial_by_phone : A unit :=
  s ← get;
  let phone := ext_phone (ctx s) in
  match phone_cache (cache s) !! phone with
  | Some i => dial_by_id i
  | None =>
      r ← ask (importContacts phone);
      match r with
      | R_error code msg => tg_failure code msg
      | R_importedContacts (i :: _) =>
          if i =? 0 then internal_error (mkprm PJSIP_SC_NOT_FOUND "not registered in telegram" [])
          else
            modify (λ s, s <| cache ::= λ c, c <| phone_cache ::= emplace phone i |> |>);;
            dial_by_id i
      | _ => crash_with UndefinedBehaviour
      end
  end.

Definition dial_by_username : A unit :=
  s ← get;
  let name := ext_username (ctx s) in
  match username_cache (cache s) !! name with
  | Some i => dial_by_id i
  | None =>
      r ← ask (searchPublicChat name);
      match r with
      | R_error code msg => tg_failure code msg
      | R_chat i is_private =>
          if negb is_private then server_error "not a user"
          else
            modify (λ s, s <| cache ::= λ c, c <| username_cache ::= emplace name i |> |>);;
            dial_by_id i
      | _ => crash_with UndefinedBehaviour
      end
  end.

(** The clock is read again for the seconds left (truncated). *)
Definition DialTg : action := λ _,
  t ← now;
  s ← get;
  if t <? block_until s then
    t' ← now;
    server_error ("FLOOD_WAIT " +:+ pretty (Z.quot (block_until s - t') second))
  else if negb (bool_decide (ext_username (ctx s) = "")) then dial_by_username
  else if negb (bool_decide (ext_phone (ctx s) = "")) then dial_by_phone
  else dial_by_id (user_id (ctx s)).

(** Only [pj::Error] is caught. *)
Definition DialDtmf : action := λ e,
  match e with
  | EvMessage m =>
      match m_content m with
      | messageText t =>
          s ← get;
          r ← sip_try (Sip.DialDtmf E (sip_call_id (ctx s)) t);
          match r with
          | inl _ | inr (Sip.PjError _) => mret tt
          | inr (Sip.RuntimeError what) => throw (Prelude.RuntimeError what)
          end
      | messageOther => crash_with UndefinedBehaviour
      end
  | _ => mret tt
  end.

(** ** Transition tables *)

Inductive kind := KCall | KMessage | KIncoming | KCallState | KMedia | KInternal.
Definition kind_of (e : event) : kind :=
  match e with
  | EvCall _ => KCall
  | EvMessage _ => KMessage
  | EvSip (Sip.IncomingCall _ _) => KIncoming
  | EvSip (Sip.CallStateUpdate _ _) => KCallState
  | EvSip (Sip.CallMediaStateUpdate _ _) => KMedia
  | EvInternalError _ _ => KInternal
  end.
#[export] Instance kind_eq_dec : EqDecision kind.
Proof. solve_decision. Defined.

(** source + event [guard] / (actions) = target *)
Record transition (S : Type) := trans {
  t_src : S; t_event : kind; t_guard : guard; t_actions : list action; t_dst : S;
}.

(** First match wins. *)
Definition pick {S} `{EqDecision S} (table : list (transition S)) (s : S) (e : event)
    : option (transition S) :=
  List.find (λ t, bool_decide (t_src _ t = s) && bool_decide (t_event _ t = kind_of e)
                  && t_guard _ t settings e) table.

Fixpoint run_actions (l : list action) (e : event) : A unit :=
  match l with [] => mret tt | a :: l' => a e;; run_actions l' e end.

Inductive tg_state := T_sip_wait_media | T_wait_tg | T_wait_dtmf.
Inductive sip_state := S_sip_wait_confirm | S_wait_tg | S_sip_wait_media | S_wait_dtmf.
#[export] Instance tg_state_eq_dec : EqDecision tg_state.
Proof. solve_decision. Defined.
#[export] Instance sip_state_eq_dec : EqDecision sip_state.
Proof. solve_decision. Defined.

Definition from_tg : list (transition tg_state) := [
  trans _ T_sip_wait_media KMedia IsMediaReady [AnswerTg] T_wait_tg;
  trans _ T_wait_tg KCall (IsInState callStateReady) [CreateTgVoip; BridgeAudio] T_wait_dtmf;
  trans _ T_wait_dtmf KMessage (gand IsTextContent IsDtmfString) [DialDtmf] T_wait_dtmf
].

Definition from_sip : list (transition sip_state) := [
  trans _ S_sip_wait_confirm KCallState (IsSipInState PJSIP_INV_STATE_EARLY) [DialTg] S_wait_tg;
  trans _ S_wait_tg KCall (IsInState callStateReady) [StoreTgUserId; CreateTgVoip; AnswerSip] S_sip_wait_media;
  trans _ S_sip_wait_media KMedia IsMediaReady [BridgeAudio] S_wait_dtmf;
  trans _ S_wait_dtmf KMessage (gand IsTextContent IsDtmfString) [DialDtmf] S_wait_dtmf
].

(** The outer states; [FromTg] and [FromSip] are the composite ones. *)
Inductive outer := Init | FromTg | FromSip | X.
#[export] Instance outer_eq_dec : EqDecision outer.
Proof. solve_decision. Defined.

Definition over : guard := gor (IsInState callStateDiscarded) (IsInState callStateError).

Definition StateMachine : list (transition outer) := [
  trans _ Init KCall (gand (gand IsIncoming (IsInState callStatePending)) CallbackUriIsSet)
    [StoreTgId; StoreTgUserId; DialSip] FromTg;
  trans _ Init KCall (gand (gand IsIncoming (IsInState callStatePending)) (gnot CallbackUriIsSet))
    [StoreTgId] X;
  trans _ Init KCall always [] X;
  trans _ Init KIncoming always [StoreSipId; AcceptIncomingSip] FromSip;
  trans _ Init KCallState always [] X;
  trans _ Init KMedia always [] X;

  trans _ FromTg KCall over [CleanTgId] X;
  trans _ FromTg KCallState (IsSipInState PJSIP_INV_STATE_DISCONNECTED) [CleanSipId] X;
  trans _ FromTg KInternal always [SetHangupPrm] X;

  trans _ FromSip KCall over [CleanTgId] X;
  trans _ FromSip KInternal always [SetHangupPrm] X;
  trans _ FromSip KCallState (IsSipInState PJSIP_INV_STATE_DISCONNECTED) [CleanSipId] X
].

(** The current state of a machine. *)
Inductive state := SInit | STg (s : tg_state) | SSip (s : sip_state) | SX.
#[export] Instance state_eq_dec : EqDecision state.
Proof. solve_decision. Defined.
Definition outer_of (s : state) : outer :=
  match s with SInit => Init | STg _ => FromTg | SSip _ => FromSip | SX => X end.
(** Entering an outer state, at the initial state of a composite one. *)
Definition enter (o : outer) : state :=
  match o with Init => SInit | FromTg => STg T_sip_wait_media | FromSip => SSip S_sip_wait_confirm | X => SX end.

(** The outer machine. *)
Definition outer_step (s : state) (e : event) : A state :=
  match pick StateMachine (outer_of s) e with
  | Some t =>
      run_actions (t_actions _ t) e;;
      (match t_dst _ t with X => CleanUp | _ => mret tt end);;
      mret (enter (t_dst _ t))
  | None => mret s
  end.

Definition machine_step (s : state) (e : event) : A state :=
  match s with
  | STg i =>
      match pick from_tg i e with
      | Some t => run_actions (t_actions _ t) e;; mret (STg (t_dst _ t))
      | None => outer_step s e
      end
  | SSip i =>
      match pick from_sip i e with
      | Some t => run_actions (t_actions _ t) e;; mret (SSip (t_dst _ t))
      | None => outer_step s e
      end
  | _ => outer_step s e
  end.

(** [sm.process_event(e)]: [noexcept]. *)
Definition process_event (s : state) (e : event) : A state := λ a,
  match machine_step s e a with
  | Throw _ _ => Crash UncaughtException
  | r => r
  end.

End actions.
End Machine.

(* ================================================================== *)
(** ** What the transitions do

    The actions keep the context's identity and, given TDLib's documented
    result types, never read an object as a type it is not; a machine that
    ends has released both legs of its call. *)
Open Scope list_scope.
Open Scope Z_scope.

Section actions.
Import Machine.
Context {W : Type} (E : Env W) (settings : Settings.t).
Implicit Types (a : act W) (s : state) (e : event).

(** The identity of the context is fixed and a controller, once there, stays. *)
Definition keeps a a' : Prop :=
  id (ctx a') = id (ctx a) ∧ (is_Some (controller (ctx a)) → is_Some (controller (ctx a'))).

#[local] Instance keeps_preorder : PreOrder keeps.
Proof. split; [by split|]. intros a b c [] []. split; [congruence|auto]. Qed.

Definition sound {T} (m : M (act W) T) : Prop :=
  ∀ a, wp m a (λ _, keeps a) (λ _ _, True) (λ _, False).

Lemma sound_bind {T U} (m : M (act W) T) (k : T → M (act W) U) :
  sound m → (∀ x, sound (k x)) → sound (m ≫= k).
Proof.
  intros Hm Hk a. apply wp_bind. eapply wp_mono; [apply Hm|]. intros x a1 H1. cbv beta.
  eapply wp_mono; [apply Hk|]. intros y a2 H2. exact (PreOrder_Transitive _ _ _ H1 H2).
Qed.
Lemma sound_ret {T} (x : T) : sound (mret x).
Proof. intros a. apply wp_ret. reflexivity. Qed.
Lemma sound_get : sound get.
Proof. intros a. apply wp_get. reflexivity. Qed.
Lemma sound_throw {T} x : sound (T := T) (throw x).
Proof. by intros a. Qed.
Lemma sound_if {T} (b : bool) (m m' : M (act W) T) : sound m → sound m' → sound (if b then m else m').
Proof. by destruct b. Qed.
Lemma sound_modify f : (∀ a, keeps a (f a)) → sound (modify f).
Proof. intros Hf a. apply wp_modify, Hf. Qed.
Lemma sound_sip {T} (m : Sip.R T) : sound (sip_try m).
Proof. intros a. unfold wp, sip_try. destruct (m _) as [r [c o]]. by split. Qed.
Lemma sound_now : sound (now E).
Proof. intros a. unfold wp, now. destruct (clock E _). by split. Qed.
Lemma sound_ask {T} q (k : response → M (act W) T) :
  tg_typed E → (∀ r, typed q r = true → sound (k r)) → sound (ask E q ≫= k).
Proof.
  intros HE Hk a. apply wp_bind. unfold wp at 1, ask.
  specialize (HE q (world (out a))). destruct (tg_query E q _) as [r w]. simpl in HE.
  eapply wp_mono; [by apply Hk|]. intros x a2 H2. refine (PreOrder_Transitive _ _ _ _ H2). by split.
Qed.

Hint Resolve sound_ret sound_get sound_throw sound_sip sound_now : core.

(** Split a program; close the updates that do not touch identity or
    controller. *)
Ltac sound_step :=
  lazymatch goal with
  | |- sound (ask E _ ≫= _) => apply sound_ask; [done|intros ? ?]
  | |- sound (_ ≫= _) => apply sound_bind; [|intros ?]
  | |- sound (if _ then _ else _) => apply sound_if
  | |- sound (modify _) => apply sound_modify; intros ?; split; simpl; auto
  | |- sound (match ?x with _ => _ end) => destruct x
  | |- sound (crash_with _) => exfalso
  | |- sound _ => auto; fail
  end.
Ltac sound := repeat sound_step; try done.

Hypothesis HE : tg_typed E.

Lemma sound_server_error why : sound (server_error why).
Proof. unfold server_error, internal_error. sound. Qed.
Lemma sound_internal_error p : sound (internal_error p).
Proof. unfold internal_error. sound. Qed.
Lemma sound_note x : sound (note x).
Proof. unfold note. sound. Qed.
Hint Resolve sound_server_error sound_internal_error sound_note : core.

Lemma sound_CleanUp : sound (CleanUp E).
Proof. unfold CleanUp. sound. Qed.
Lemma sound_parse_error msg : sound (parse_error E settings msg).
Proof. unfold parse_error. sound. Qed.
Hint Resolve sound_parse_error : core.
Lemma sound_tg_failure c m : sound (tg_failure E settings c m).
Proof. unfold tg_failure. sound. Qed.
Hint Resolve sound_tg_failure : core.
Lemma sound_dial_by_id u : sound (dial_by_id E settings u).
Proof. unfold dial_by_id. sound. Qed.
Hint Resolve sound_dial_by_id : core.
Lemma sound_dial_by_phone : sound (dial_by_phone E settings).
Proof. unfold dial_by_phone. sound. Qed.
Lemma sound_dial_by_username : sound (dial_by_username E settings).
Proof. unfold dial_by_username. sound. Qed.
Hint Resolve sound_dial_by_phone sound_dial_by_username : core.
Lemma sound_DialTg e : sound (DialTg E settings e).
Proof. unfold DialTg. sound. Qed.
Lemma sound_DialSip e : sound (DialSip E settings e).
Proof. unfold DialSip. sound. Qed.
Lemma sound_AnswerTg e : sound (AnswerTg E settings e).
Proof. unfold AnswerTg. sound. Qed.
Lemma sound_answer_sip c : sound (answer_sip E c).
Proof. unfold answer_sip. sound. Qed.
Hint Resolve sound_answer_sip : core.
Lemma sound_AcceptIncomingSip e : sound (AcceptIncomingSip E e).
Proof. unfold AcceptIncomingSip. sound. Qed.
Lemma sound_AnswerSip e : sound (AnswerSip E e).
Proof. unfold AnswerSip. sound. Qed.
Lemma sound_StoreSipId e : sound (StoreSipId e).
Proof. unfold StoreSipId. sound. Qed.
Lemma sound_StoreTgId e : sound (StoreTgId e).
Proof. unfold StoreTgId. sound. Qed.
Lemma sound_StoreTgUserId e : sound (StoreTgUserId e).
Proof. unfold StoreTgUserId. sound. Qed.
Lemma sound_CleanTgId e : sound (CleanTgId e).
Proof. unfold CleanTgId. sound. Qed.
Lemma sound_CleanSipId e : sound (CleanSipId e).
Proof. unfold CleanSipId. sound. Qed.
Lemma sound_SetHangupPrm e : sound (SetHangupPrm e).
Proof. unfold SetHangupPrm. sound. Qed.
Hint Resolve sound_CleanUp sound_DialTg sound_DialSip sound_AnswerTg sound_AcceptIncomingSip
  sound_AnswerSip sound_StoreSipId sound_StoreTgId sound_StoreTgUserId sound_CleanTgId
  sound_CleanSipId sound_SetHangupPrm : core.

Lemma sound_DialDtmf e : IsTextContent settings e = true → sound (DialDtmf E e).
Proof. intros H. unfold DialDtmf. unfold IsTextContent in H. sound. Qed.

Lemma CreateTgVoip_spec e a :
  IsInState callStateReady settings e = true →
  wp (CreateTgVoip e) a (λ _ a', keeps a a' ∧ is_Some (controller (ctx a'))) (λ _ _, True) (λ _, False).
Proof.
  unfold IsInState, CreateTgVoip. destruct e as [c| | |]; try done. intros H%bool_decide_eq_true.
  rewrite H. by repeat split.
Qed.

Lemma BridgeAudio_spec e a :
  is_Some (controller (ctx a)) → wp (BridgeAudio E e) a (λ _, keeps a) (λ _ _, True) (λ _, False).
Proof.
  intros [c Hc]. unfold BridgeAudio. apply wp_bind, wp_get. rewrite Hc.
  match goal with |- wp ?m a _ _ _ => assert (Hs : sound m) by sound; apply Hs end.
Qed.

(** ** The machine *)

(** The states after [CreateTgVoip] have a controller. *)
Definition ctrl_ok s (c : Context) : Prop :=
  match s with
  | STg T_wait_dtmf | SSip S_sip_wait_media | SSip S_wait_dtmf => is_Some (controller c)
  | _ => True
  end.

Lemma pick_Some {S} `{EqDecision S} (table : list (transition (W := W) S)) (x : S) e t :
  pick settings table x e = Some t →
  t ∈ table ∧ t_src _ t = x ∧ t_event _ t = kind_of e ∧ t_guard _ t settings e = true.
Proof.
  unfold pick. intros [Hin H]%find_some. apply list_elem_of_In in Hin.
  rewrite !andb_true_iff, !bool_decide_eq_true in H. naive_solver.
Qed.

Definition step_post a s' a' : Prop := keeps a a' ∧ ctrl_ok s' (ctx a').

Lemma sound_run_actions l e : Forall (λ x : action (W := W), sound (x e)) l → sound (run_actions l e).
Proof. induction 1; simpl; [auto|]. by apply sound_bind. Qed.

Lemma run_sound_post (l : list (action (W := W))) e s' a :
  Forall (λ x : action, sound (x e)) l → (∀ a', keeps a a' → ctrl_ok s' (ctx a')) →
  wp (run_actions l e;; mret s') a (step_post a) (λ _ _, True) (λ _, False).
Proof.
  intros Hl Hok. apply wp_bind. eapply wp_mono; [by apply sound_run_actions|].
  intros ? a' H'. apply wp_ret. split; auto.
Qed.

Lemma outer_step_post s e a :
  ctrl_ok s (ctx a) →
  wp (outer_step E settings s e) a (step_post a) (λ _ _, True) (λ _, False).
Proof.
  intros Hok. unfold outer_step. destruct (pick _ _ _ _) as [t|] eqn:Hp.
  2:{ apply wp_ret. split; [reflexivity|done]. }
  apply pick_Some in Hp as (Hin & _ & _ & _).
  assert (Hl : Forall (λ x : action, sound (x e)) (t_actions _ t)).
  { revert Hin. unfold StateMachine. rewrite !elem_of_cons, elem_of_nil.
    intros Hin; repeat destruct Hin as [->|Hin]; try done; repeat constructor; auto. }
  apply wp_bind. eapply wp_mono; [by apply sound_run_actions|]. intros ? a1 H1.
  assert (Hc : sound (match t_dst _ t with X => CleanUp E | _ => mret tt end)).
  { destruct (t_dst _ t); auto. }
  apply wp_bind. eapply wp_mono; [apply Hc|]. intros ? a2 H2. apply wp_ret.
  split; [exact (PreOrder_Transitive _ _ _ H1 H2)|]. by destruct (t_dst _ t).
Qed.

Lemma from_tg_post i e t a :
  ctrl_ok (STg i) (ctx a) → pick settings (from_tg E settings) i e = Some t →
  wp (run_actions (t_actions _ t) e;; mret (STg (t_dst _ t))) a (step_post a) (λ _ _, True) (λ _, False).
Proof.
  intros Hok (Hin & Hsrc & _ & Hg)%pick_Some. unfold from_tg in Hin.
  rewrite !elem_of_cons, elem_of_nil in Hin. destruct Hin as [->|[->|[->|[]]]];
    cbn [t_actions t_dst t_src t_guard] in *.
  - apply run_sound_post; [repeat constructor; auto|done].
  - cbn [run_actions]. apply wp_bind, wp_bind. eapply wp_mono; [by apply CreateTgVoip_spec|]. intros [] a1 [H1 Hc].
    apply wp_bind. eapply wp_mono; [by apply BridgeAudio_spec|]. intros ? a2 H2.
    apply wp_ret, wp_ret. split; [exact (PreOrder_Transitive _ _ _ H1 H2)|]. by apply H2.
  - apply andb_true_iff in Hg as [Hg _]. subst i.
    apply run_sound_post; [repeat constructor; by apply sound_DialDtmf|].
    intros a' [_ Hk]. by apply Hk.
Qed.

Lemma from_sip_post i e t a :
  ctrl_ok (SSip i) (ctx a) → pick settings (from_sip E settings) i e = Some t →
  wp (run_actions (t_actions _ t) e;; mret (SSip (t_dst _ t))) a (step_post a) (λ _ _, True) (λ _, False).
Proof.
  intros Hok (Hin & Hsrc & _ & Hg)%pick_Some. unfold from_sip in Hin.
  rewrite !elem_of_cons, elem_of_nil in Hin. destruct Hin as [->|[->|[->|[->|[]]]]];
    cbn [t_actions t_dst t_src t_guard] in *; subst i.
  - apply run_sound_post; [repeat constructor; auto|done].
  - cbn [run_actions]. apply wp_bind, wp_bind. eapply wp_mono; [apply sound_StoreTgUserId|]. intros [] a0 H0.
    apply wp_bind. eapply wp_mono; [by apply CreateTgVoip_spec|]. intros [] a1 [H1 Hc].
    apply wp_bind. eapply wp_mono; [apply sound_AnswerSip|]. intros ? a2 H2. apply wp_ret, wp_ret.
    split; [exact (PreOrder_Transitive _ _ _ H0 (PreOrder_Transitive _ _ _ H1 H2))|]. by apply H2.
  - cbn [run_actions]. apply wp_bind, wp_bind. eapply wp_mono; [by apply BridgeAudio_spec|]. intros ? a2 H2.
    apply wp_ret, wp_ret. split; [exact H2|]. by apply H2.
  - apply andb_true_iff in Hg as [Hg _].
    apply run_sound_post; [repeat constructor; by apply sound_DialDtmf|].
    intros a' [_ Hk]. by apply Hk.
Qed.

(** Processing an event never reads an object as another type. *)
Lemma process_event_post s e a :
  ctrl_ok s (ctx a) →
  wp (process_event E settings s e) a (step_post a) (λ _ _, False) (λ c, c = UncaughtException).
Proof.
  intros Hok. assert (H : wp (machine_step E settings s e) a (step_post a) (λ _ _, True) (λ _, False)).
  { unfold machine_step. destruct s as [|i|i|]; try by apply outer_step_post.
    - destruct (pick _ _ i e) as [t|] eqn:Hp; [by eapply from_tg_post|by apply outer_step_post].
    - destruct (pick _ _ i e) as [t|] eqn:Hp; [by eapply from_sip_post|by apply outer_step_post]. }
  unfold wp, process_event in *. by destruct (machine_step E settings s e a).
Qed.
End actions.

(** ** Teardown *)

Section teardown.
Import Machine.
Context {W : Type} (E : Env W) (settings : Settings.t).
Implicit Types (a : act W) (s : state) (e : event).

(** What [CleanUp] asks of the libraries, most recent first. *)
Definition cleanup_trace (c : Context) (calls : gmap Z Sip.Call) : list effect :=
  (if (negb (sip_call_id c =? PJSUA_INVALID_ID)) && bool_decide (is_Some (calls !! sip_call_id c))
   then [PjHangup (sip_call_id c) (hangup_prm c)] else [])
  ++ (if negb (tg_call_id c =? 0) then [Tg (discardCall (tg_call_id c))] else [])
  ++ (match controller c with Some v => [VoipStop v] | None => [] end).

Lemma Hangup_trace i prm (c : Sip.client) (o : outside W) :
  ∃ r c' w, Sip.Hangup E i prm (c, o) =
    (r, (c', mkoutside w ((if bool_decide (is_Some (Sip.calls c !! i)) then [PjHangup i prm] else [])
                          ++ trace o))).
Proof.
  unfold Sip.Hangup, Sip.bind, Sip.find, Sip.pj, Sip.upd, Sip.ret. simpl.
  destruct (Sip.calls c !! i) as [x|]; simpl.
  - destruct (hangup E i prm (world o)) as [[[]|why] w]; eauto.
  - destruct o. eauto.
Qed.

Lemma CleanUp_spec a :
  ∃ a', CleanUp E a = Ret tt a' ∧ tg_call_id (ctx a') = 0 ∧
    sip_call_id (ctx a') = PJSUA_INVALID_ID ∧
    trace (out a') = cleanup_trace (ctx a) (Sip.calls (sip a)) ++ trace (out a).
Proof.
  unfold CleanUp, cleanup_trace. unfold mbind, M_bind, get. cbn [mret M_ret].
  destruct a as [[i sid tid ctl ph un uid prm] cl o ca bl ie]; simpl.
  destruct ctl as [v|]; simpl; destruct (Z.eqb_spec tid 0) as [->|Ht]; simpl;
    destruct (Z.eqb_spec sid PJSUA_INVALID_ID) as [->|Hs]; simpl;
    unfold ask, sip_try, note, modify; simpl;
    repeat match goal with
    | |- context [tg_query E ?q ?w] => destruct (tg_query E q w) as [? ?]; simpl
    | |- context [Sip.Hangup E ?i ?p (?c, ?o)] =>
        destruct (Hangup_trace i p c o) as (? & ? & ? & ->); simpl
    end; eexists; split_and!; reflexivity || (simpl; by rewrite <- ?app_assoc).
Qed.

(** A composite state: a call is set up or in progress. *)
Definition in_call s : Prop := (∃ i, s = STg i) ∨ (∃ i, s = SSip i).

(** The context as the closing transition leaves it to [CleanUp]: the leg
    that ended by itself is forgotten, an internal error sets the hangup
    parameters. *)
Definition closing (e : event) (c : Context) : Context :=
  match e with
  | EvCall _ => c <| tg_call_id := 0 |>
  | EvSip _ => c <| sip_call_id := PJSUA_INVALID_ID |>
  | EvInternalError _ prm => c <| hangup_prm := prm |>
  | EvMessage _ => c
  end.

Lemma outer_step_X s e a a' :
  in_call s → outer_step E settings s e a = Ret SX a' →
  ∃ a1, a1 = a <| ctx ::= closing e |> ∧ CleanUp E a1 = Ret tt a'.
Proof.
  intros Hin. unfold outer_step. destruct (pick _ _ _ _) as [t|] eqn:Hp.
  2:{ intros [= -> _]. destruct Hin as [[i Hi]|[i Hi]]; done. }
  apply pick_Some in Hp as (Ht & Hsrc & Hk & _). intros Hrun.
  assert (Hs : outer_of s = FromTg ∨ outer_of s = FromSip)
    by (destruct Hin as [[i ->]|[i ->]]; auto).
  unfold StateMachine in Ht. rewrite !elem_of_cons, elem_of_nil in Ht.
  repeat destruct Ht as [->|Ht]; try done; simpl in Hsrc; try (destruct Hs; congruence);
    simpl in Hk; destruct e as [c|m|[]|]; try done; simpl in Hrun;
    unfold mbind, M_bind in Hrun; simpl in Hrun;
    (destruct (CleanUp E _) as [[] a2| |] eqn:Hc in Hrun; [|done..]);
    injection Hrun as <-; eexists; (split; [|exact Hc]); reflexivity.
Qed.

(** C4. Every call that ends is torn down on both sides: when a machine that
    handles a call reaches its final state, the voice controller was stopped,
    the Telegram call was discarded unless Telegram itself reported its end,
    and the SIP call was hung up, with the parameters of the internal error
    if there was one, unless SIP itself reported its end; each exactly once,
    and nothing else was asked of either side. *)
Theorem teardown s e a a' :
  in_call s → process_event E settings s e a = Ret SX a' →
  tg_call_id (ctx a') = 0 ∧ sip_call_id (ctx a') = PJSUA_INVALID_ID ∧
  trace (out a') = cleanup_trace (closing e (ctx a)) (Sip.calls (sip a)) ++ trace (out a).
Proof.
  intros Hin Hp. unfold process_event in Hp.
  assert (Hm : outer_step E settings s e a = Ret SX a').
  { destruct (machine_step E settings s e a) as [s' a1| |] eqn:Hm; [|done..].
    injection Hp as -> ->. unfold machine_step in Hm. destruct s as [|i|i|]; try done.
    - destruct (pick _ _ i e); [|done]. unfold mbind, M_bind in Hm.
      destruct (run_actions _ e a); simplify_eq/=.
    - destruct (pick _ _ i e); [|done]. unfold mbind, M_bind in Hm.
      destruct (run_actions _ e a); simplify_eq/=. }
  destruct (outer_step_X s e a a' Hin Hm) as (a1 & -> & Hc).
  destruct (CleanUp_spec (a <| ctx ::= closing e |>)) as (a2 & Hc2 & ?). rewrite Hc in Hc2.
  by injection Hc2 as <-.
Qed.
End teardown.

(** ** Dialling Telegram *)

Section dialling.
Import Machine.
Context {W : Type} (E : Env W) (settings : Settings.t).
Implicit Types (a : act W).

(** While Telegram has asked the gateway to wait, no call goes out: if
    the deadline has not passed, [DialTg] sends no query, leaves the cache
    and the deadline as they are, and queues an internal error for this
    context with the text FLOOD_WAIT. *)
Theorem flood_wait_blocks e a t w t' w' :
  clock E (world (out a)) = (t, w) → clock E w = (t', w') → t < block_until a →
  ∃ a', DialTg E settings e a = Ret tt a' ∧ trace (out a') = trace (out a) ∧
    cache a' = cache a ∧ block_until a' = block_until a ∧
    internal_events a' = internal_events a ++
      [(id (ctx a), mkprm PJSIP_SC_INTERNAL_SERVER_ERROR
          ("FLOOD_WAIT " +:+ pretty (Z.quot (block_until a - t') second)) [])].
Proof.
  intros Hc Hc' Hlt. unfold DialTg, mbind, M_bind, get, now. rewrite Hc. cbn.
  destruct (Z.ltb_spec t (block_until a)); [|lia]. cbn. rewrite Hc'. eexists. split_and!; reflexivity.
Qed.

(** A phone number that is in the contact cache costs no lookup: dialling
    it asks Telegram only to create the call, to the cached user; and a
    number that a lookup resolves is in the cache afterwards, so the next
    dialling of it is such a hit. *)
Theorem phone_cache_saves_lookup e a t w :
  clock E (world (out a)) = (t, w) → block_until a ≤ t →
  ext_username (ctx a) = "" → ext_phone (ctx a) ≠ "" →
  match phone_cache (cache a) !! ext_phone (ctx a) with
  | Some uid =>
      ∀ call w', tg_query E (createCall uid (Settings.udp_p2p settings) (Settings.udp_reflector settings)) w
                 = (R_callId call, w') →
      ∃ a', DialTg E settings e a = Ret tt a' ∧ tg_call_id (ctx a') = call ∧ cache a' = cache a ∧
        trace (out a') = Tg (createCall uid (Settings.udp_p2p settings) (Settings.udp_reflector settings))
                         :: trace (out a)
  | None =>
      ∀ uid rest w1 call w2, uid ≠ 0 →
      tg_query E (importContacts (ext_phone (ctx a))) w = (R_importedContacts (uid :: rest), w1) →
      tg_query E (createCall uid (Settings.udp_p2p settings) (Settings.udp_reflector settings)) w1
        = (R_callId call, w2) →
      ∃ a', DialTg E settings e a = Ret tt a' ∧ tg_call_id (ctx a') = call ∧
        phone_cache (cache a') !! ext_phone (ctx a) = Some uid
  end.
Proof.
  intros Hc Hle Hu Hp.
  assert (Hstart : DialTg E settings e a
                   = dial_by_phone E settings (a <| out := mkoutside w (trace (out a)) |>)).
  { unfold DialTg, mbind, M_bind, get, now. rewrite Hc. cbn.
    destruct (Z.ltb_spec t (block_until a)); [lia|].
    by rewrite (bool_decide_true _ Hu), (bool_decide_false _ Hp). }
  destruct (phone_cache (cache a) !! ext_phone (ctx a)) as [uid|] eqn:Hcache; rewrite Hstart;
    unfold dial_by_phone, mbind, M_bind, get; cbn; rewrite Hcache.
  - intros call w' Hq. unfold dial_by_id, ask, mbind, M_bind. cbn. rewrite Hq. cbn.
    eexists. split_and!; reflexivity.
  - intros uid rest w1 call w2 Hne Hi Hq. unfold ask at 1. cbn. rewrite Hi. cbn.
    destruct (Z.eqb_spec uid 0); [done|]. cbn. unfold dial_by_id, ask, mbind, M_bind. cbn. rewrite Hq. cbn.
    eexists. split_and!; [reflexivity..|]. cbn. unfold emplace. rewrite Hcache. apply lookup_insert_eq.
Qed.
End dialling.

(** ** Extensions dialled from SIP *)

Section extensions.
Import Machine.

Definition char_digit (c : ascii) : Z := CType.code c - 48.
(** The number a string of decimal digits writes. *)
Definition decimal (s : string) : Z :=
  foldl (λ acc c, acc * 10 + char_digit c) 0 (list_ascii_of_string s).

Lemma digits_decimal s acc :
  forallb CType.isdigit s = true →
  CType.digits 10 acc s = (foldl (λ acc c, acc * 10 + char_digit c) acc s, length s).
Proof.
  revert acc. induction s as [|c s IH]; intros acc H; simpl in *; [done|].
  apply andb_true_iff in H as [Hc Hs].
  assert (E : CType.digit_in 10 c = Some (char_digit c)).
  { unfold CType.digit_in, CType.digit_value. rewrite Hc. simpl.
    unfold CType.isdigit in Hc. destruct (Z.ltb_spec (CType.code c - 48) 10); [done|lia]. }
  rewrite E, IH by done. done.
Qed.

Lemma not_digit_first (c : ascii) s s' :
  CType.isdigit c = true → list_ascii_of_string s = c :: s' →
  bool_decide (take 3 (list_ascii_of_string s) = list_ascii_of_string "tg#") = false ∧
  bool_decide (head (list_ascii_of_string s) = Some "+"%char) = false.
Proof.
  intros Hc ->. split; apply bool_decide_eq_false; simpl; intros [= ->]; done.
Qed.

(** How an extension dialled from SIP is read: "tg#" and a non-empty rest
    is a user name, a plus and digits a phone number, and digits alone the
    number they write in decimal, if it fits 64 bits; the empty extension,
    a number that does not fit, and everything else is invalid. *)
Theorem extension_reading :
  (∀ u, u ≠ "" → parse_extension ("tg#" +:+ u) = ExtUsername u) ∧
  (∀ p, p ≠ "" → is_digits p = true → parse_extension ("+" +:+ p) = ExtPhone p) ∧
  (∀ s, s ≠ "" → is_digits s = true →
     parse_extension s = if decide (decimal s < 9223372036854775808) then ExtId (decimal s) else ExtInvalid) ∧
  parse_extension "" = ExtInvalid.
Proof.
  split_and!; [..|done].
  - intros u Hu. unfold parse_extension. simpl.
    destruct u as [|c u]; [done|]. simpl. by rewrite string_of_list_ascii_of_string.
  - intros p Hp Hd. unfold parse_extension.
    change (list_ascii_of_string ("+" +:+ p)) with ("+"%char :: list_ascii_of_string p).
    rewrite (bool_decide_false (take 3 _ = _)) by done. rewrite andb_false_r.
    change (drop 1 ("+"%char :: list_ascii_of_string p)) with (list_ascii_of_string p).
    rewrite string_of_list_ascii_of_string, Hd. by destruct p.
  - intros s Hs Hd. unfold parse_extension.
    destruct (list_ascii_of_string s) as [|c l] eqn:E.
    { apply (f_equal string_of_list_ascii) in E. by rewrite string_of_list_ascii_of_string in E. }
    pose proof Hd as Hd'. unfold is_digits in Hd'. rewrite E in Hd'. simpl in Hd'.
    apply andb_true_iff in Hd' as [Hc _].
    destruct (not_digit_first c s l Hc E) as [E1 E2]. rewrite E in E1, E2.
    rewrite E1, E2, !andb_false_r. simpl. rewrite Hd.
    unfold stol, decimal. unfold is_digits in Hd. rewrite digits_decimal by done. rewrite E. simpl.
    assert (Hpos : ∀ (l : list ascii) acc, forallb CType.isdigit l = true → 0 ≤ acc →
              0 ≤ foldl (λ acc c, acc * 10 + char_digit c) acc l).
    { clear. induction l as [|c l IH]; intros acc H Ha; simpl in *; [done|].
      apply andb_true_iff in H as [Hc Hs]. apply IH; [done|].
      unfold CType.isdigit in Hc. unfold char_digit. lia. }
    rewrite E in Hd. specialize (Hpos (c :: l) 0 Hd ltac:(lia)). simpl in Hpos.
    set (v := foldl _ _ l) in *. repeat case_decide; try done; lia.
Qed.
End extensions.

