(* ===== verification/Gateway.v ===== *)
(** * tg2sip/gateway.cpp: [Gateway]

    The bridges, the routing of events to them, and the main loop, which
    takes at most one event from each queue per tick: internal errors first,
    then Telegram, then SIP.  [static_cast] of a chat sender to a user sender
    reads whatever the cast yields: a parameter. *)

From Stdlib Require Import ZArith Lia Ascii String.
From stdpp Require Import base tactics numbers option strings pretty gmap.
From S2P Require Import Prelude Words Ini Settings Env Sip Machine.
From stdpp Require Import list.
Open Scope string_scope.
Open Scope list_scope.
Open Scope Z_scope.

Module Gateway.
Import Machine.

Inductive tg_object := updateCall (c : tg_call) | updateNewMessage (m : tg_message) | updateOther.

Record Bridge := mkBridge { b_sm : state; b_ctx : Context }.

Record t (W : Type) := mk {
  bridges : list Bridge;
  g_sip : Sip.client;
  g_out : outside W;
  g_cache : Cache;
  g_block_until : Z;
  g_internal_events : list (string * CallOpParam);
  tg_events : list tg_object;
  ctx_counter : Z;
}.
Arguments mk {W}.
Arguments bridges {W}.
Arguments g_sip {W}.
Arguments g_out {W}.
Arguments g_cache {W}.
Arguments g_block_until {W}.
Arguments g_internal_events {W}.
Arguments tg_events {W}.
Arguments ctx_counter {W}.
#[export] Instance gw_eta {W} : Eta (t W) := λ g,
  mk (bridges g) (g_sip g) (g_out g) (g_cache g) (g_block_until g) (g_internal_events g)
     (tg_events g) (ctx_counter g).

Section ops.
Context {W : Type} (E : Env W) (settings : Settings.t) (id_prefix : string).
(** What the cast of a chat sender to a user sender reads. *)
Variable chat_as_user : Z → Z.
Abbreviation G := (M (t W)).

(** [next_ctx_id()]; the counter is an [int64_t], whose overflow is
    undefined. *)
Definition next_ctx_id (n : Z) : string := id_prefix +:+ pretty n.

(** [search_call(predicate)]: the index of the first match, or of a new
    bridge at the end. *)
Definition search_call (predicate : Context → bool) : G nat :=
  g ← get;
  match find_index (λ b, predicate (b_ctx b)) (bridges g) with
  | Some i => mret i
  | None =>
      if ctx_counter g =? 9223372036854775807 then crash_with UndefinedBehaviour
      else
        let n := ctx_counter g + 1 in
        modify (λ g, g <| ctx_counter := n |>
                       <| bridges ::= λ l, l ++ [mkBridge SInit (new_context (next_ctx_id n))] |>);;
        mret (length (bridges g))
  end.

(** [( *iter)->sm->process_event(event)]. *)
Definition feed (i : nat) (e : event) : G unit := λ g,
  match bridges g !! i with
  | None => Crash UndefinedBehaviour
  | Some b =>
      match process_event E settings (b_sm b) e
              (mkact (b_ctx b) (g_sip g) (g_out g) (g_cache g) (g_block_until g) (g_internal_events g)) with
      | Ret s a =>
          Ret tt (g <| bridges := <[i := mkBridge s (ctx a)]> (bridges g) |>
                    <| g_sip := sip a |> <| g_out := out a |> <| g_cache := cache a |>
                    <| g_block_until := block_until a |>
                    <| g_internal_events := internal_events a |>)
      | Throw x a => Crash UncaughtException
      | Crash c => Crash c
      end
  end.

(** [if (sm->is(sml::X)) { delete *iter; bridges.erase(iter); }]. *)
Definition reap (i : nat) : G unit :=
  modify (λ g, match bridges g !! i with
               | Some b => if bool_decide (b_sm b = SX) then g <| bridges ::= delete i |> else g
               | None => g
               end).

Definition process_event_call (c : tg_call) : G unit :=
  i ← search_call (λ x, tg_call_id x =? c_id c);
  feed i (EvCall c);;
  reap i.

(** The sender test returns for users. *)
Definition process_event_message (m : tg_message) : G unit :=
  match m_sender m with
  | messageSenderUser _ => mret tt
  | messageSenderChat chat =>
      g ← get;
      let matches := List.filter (λ i, match bridges g !! i with
                                       | Some b => user_id (b_ctx b) =? chat_as_user chat
                                       | None => false end) (seq 0 (length (bridges g))) in
      match matches with
      | [i] => feed i (EvMessage m)
      | _ => mret tt
      end
  end.

Definition process_event_internal (ctx_id : string) (prm : CallOpParam) : G unit :=
  g ← get;
  match find_index (λ b, bool_decide (id (b_ctx b) = ctx_id)) (bridges g) with
  | None => mret tt
  | Some i => feed i (EvInternalError ctx_id prm);; reap i
  end.

Definition sip_event_id (e : Sip.Event) : Z :=
  match e with Sip.IncomingCall i _ | Sip.CallStateUpdate i _ | Sip.CallMediaStateUpdate i _ => i end.

Definition process_event_sip (e : Sip.Event) : G unit :=
  i ← search_call (λ x, sip_call_id x =? sip_event_id e);
  feed i (EvSip e);;
  reap i.

(** One turn of the loop of [start]. *)
Definition tick : G unit :=
  g ← get;
  (match g_internal_events g with
   | (c, prm) :: l => modify (λ g, g <| g_internal_events := l |>);; process_event_internal c prm
   | [] => mret tt
   end);;
  g ← get;
  (match tg_events g with
   | o :: l =>
       modify (λ g, g <| tg_events := l |>);;
       match o with
       | updateCall c => process_event_call c
       | updateNewMessage m => process_event_message m
       | updateOther => mret tt
       end
   | [] => mret tt
   end);;
  g ← get;
  (match Sip.events (g_sip g) with
   | e :: l => modify (λ g, g <| g_sip ::= λ c, Sip.mk (Sip.calls c) l |>);; process_event_sip e
   | [] => mret tt
   end).

(** [load_cache()]: one [getUser] per contact, then their answers in order;
    the first user without access ends the loading. *)
Fixpoint cache_users (rs : list response) (c : Cache) : option Cache :=
  match rs with
  | [] => Some c
  | R_error _ _ :: rs' => cache_users rs' c
  | R_user u :: rs' =>
      if negb (u_have_access u) then Some c
      else
        let c := if bool_decide (u_username u = "") then c
                 else c <| username_cache ::= emplace (u_username u) (u_id u) |> in
        let c := if bool_decide (u_phone_number u = "") then c
                 else c <| phone_cache ::= emplace (u_phone_number u) (u_id u) |> in
        cache_users rs' c
  | _ :: _ => None
  end.

Definition ask_out (q : query) (o : outside W) : response * outside W :=
  let '(r, w) := tg_query E q (world o) in (r, mkoutside w (Tg q :: trace o)).

Fixpoint ask_users (ids : list Z) (o : outside W) : list response * outside W :=
  match ids with
  | [] => ([], o)
  | i :: ids' =>
      let '(r, o1) := ask_out (getUser i) o in
      let '(rs, o2) := ask_users ids' o1 in (r :: rs, o2)
  end.

Definition load_cache : G unit := λ g,
  match ask_out searchContacts (g_out g) with
  | (R_error _ _, o) => Ret tt (g <| g_out := o |>)
  | (R_users ids, o) =>
      let '(rs, o') := ask_users ids o in
      match cache_users rs (g_cache g) with
      | Some c => Ret tt (g <| g_out := o' |> <| g_cache := c |>)
      | None => Crash UndefinedBehaviour
      end
  | (_, _) => Crash UndefinedBehaviour
  end.

(** ** The program: the gateway thread between events from outside *)

Inductive step : t W → t W → Prop :=
  | step_tick g g' : tick g = Ret tt g' → step g g'
  | step_tg o g : step g (g <| tg_events ::= λ l, l ++ [o] |>)
  | step_incoming i u g : step g (g <| g_sip ::= Sip.on_incoming_call i u |>)
  | step_call_state a i s g : step g (g <| g_sip ::= Sip.on_call_state a i s |>)
  | step_media a i h g : step g (g <| g_sip ::= Sip.on_call_media_state a i h |>)
  | step_world w g : step g (g <| g_out ::= λ o, mkoutside w (trace o) |>).

Definition initial (w : W) (t0 : Z) : t W :=
  mk [] (Sip.mk ∅ []) (mkoutside w []) (mkCache ∅ ∅) t0 [] [] 0.

(** Started, cache loaded, then any sequence of steps. *)
Definition reachable (g : t W) : Prop :=
  ∃ w t0 g0, load_cache (initial w t0) = Ret tt g0 ∧ star step g0 g.

End ops.
End Gateway.

(* ================================================================== *)
(** ** Runs of the whole gateway *)

Section runs.
Import Machine Gateway.

Definition demo_settings : Settings.t :=
  Settings.mk 0 0 0 0 false 0 0 0 "sip:gw" "sip:pbx@localhost" "" "" true 1 0 1 "hash" "" "" ""
    "" "" "" false true false false false false "" 0 "" "" false "" 0 "" "" 30 86400 true.

Definition turn : M (Gateway.t Z) unit := Gateway.tick demo_env demo_settings "7-" (λ z, z).
Fixpoint turns (n : nat) : M (Gateway.t Z) unit :=
  match n with O => mret tt | S n' => turn;; turns n' end.
Definition gw0 : Gateway.t Z := Gateway.initial 0 0.
Definition pj (f : Sip.client → Sip.client) : M (Gateway.t Z) unit :=
  modify (λ g, g <| g_sip ::= f |>).
Definition td (o : Gateway.tg_object) : M (Gateway.t Z) unit :=
  modify (λ g, g <| tg_events ::= λ l, l ++ [o] |>).

(** A SIP caller dials a Telegram user by phone number, talks and hangs up. *)
Definition sip_call_run : M (Gateway.t Z) unit :=
  pj (Sip.on_incoming_call 5 "+4477");; turn;;
  pj (Sip.on_call_state true 5 PJSIP_INV_STATE_EARLY);; turn;;
  td (updateCall (mkcall 101 77 true callStatePending));; turn;;
  td (updateCall (mkcall 101 77 true callStateReady));; turn;;
  pj (Sip.on_call_media_state true 5 true);; turn;;
  pj (Sip.on_call_state true 5 PJSIP_INV_STATE_DISCONNECTED);; turn.

Example sip_call_trace :
  (λ g, (rev (trace (g_out g)), bridges g)) <$> end_state (sip_call_run gw0) =
  Some ([PjAnswer 5 (mkprm 180 "" []); Tg (importContacts "4477"); Tg (createCall 77 false true);
         VoipStart 101; PjAnswer 5 (mkprm 200 "" []); PjConnect 5;
         VoipStop 101; Tg (discardCall 101)], []).
Proof. vm_compute. reflexivity. Qed.

(** A Telegram user calls; the callback URI is dialled; the user hangs up. *)
Definition tg_call_run : M (Gateway.t Z) unit :=
  td (updateCall (mkcall 900 77 false callStatePending));; turn;;
  pj (Sip.on_call_media_state true 2 true);; turn;;
  td (updateCall (mkcall 900 77 false callStateReady));; turn;;
  td (updateCall (mkcall 900 77 false callStateDiscarded));; turn.

Example tg_call_trace :
  (λ g, (rev (trace (g_out g)), bridges g)) <$> end_state (tg_call_run gw0) =
  Some ([Tg (getUser 77);
         PjMakeCall "sip:pbx@localhost" (mkprm 0 "" [("X-GW-Context", "7-1"); ("X-TG-ID", "77");
           ("X-TG-FirstName", "Ann"); ("X-TG-Username", "ann"); ("X-TG-Phone", "4477")]);
         Tg (acceptCall 900 false true); VoipStart 900; PjConnect 2;
         VoipStop 900; PjHangup 2 no_prm], []).
Proof. vm_compute. reflexivity. Qed.
End runs.

(* ================================================================== *)
(** ** Invariants of the main loop, routing *)

Section invariant.
Import Machine Gateway.
Context {W : Type} (E : Env W) (settings : Settings.t) (id_prefix : string) (chat_as_user : Z → Z).
Implicit Types (g : Gateway.t W) (b : Bridge).

Definition bridge_ok (n : Z) b : Prop :=
  ctrl_ok (b_sm b) (b_ctx b) ∧ ∃ k, 0 < k ≤ n ∧ id (b_ctx b) = next_ctx_id id_prefix k.

Record weak_inv g : Prop := {
  wi_bridges : Forall (bridge_ok (ctx_counter g)) (bridges g);
  wi_ids : NoDup ((λ b, id (b_ctx b)) <$> bridges g);
  wi_counter : 0 ≤ ctx_counter g;
}.
(** Between ticks no machine is in its final state. *)
Definition inv g : Prop := weak_inv g ∧ Forall (λ b, b_sm b ≠ SX) (bridges g).
(** While event [i] is handled, only bridge [i] may have ended. *)
Definition inv_but (i : nat) g : Prop :=
  weak_inv g ∧ ∀ j b, bridges g !! j = Some b → j ≠ i → b_sm b ≠ SX.

Hypothesis HE : tg_typed E.
Definition no_exn : exn → Gateway.t W → Prop := λ _ _, False.
(** What may stop the program: an uncaught exception, or the context counter
    [n], two contexts before it overflows. *)
Variable n : Z.
Definition uncaught : crash → Prop := λ c, c = UncaughtException ∨ 9223372036854775805 ≤ n.

Lemma prefix_inj (x y : string) : id_prefix +:+ x = id_prefix +:+ y → x = y.
Proof. intros H. by apply (inj (String.append id_prefix)). Qed.

Lemma next_ctx_id_inj k m : next_ctx_id id_prefix k = next_ctx_id id_prefix m → k = m.
Proof. intros H%prefix_inj. by apply (inj pretty) in H. Qed.

Lemma bridge_ok_mono k m b : k ≤ m → bridge_ok k b → bridge_ok m b.
Proof. intros Hle [H (i & Hk & Hid)]. split; [done|]. exists i. split; [lia|done]. Qed.

Lemma fresh_id g :
  weak_inv g → next_ctx_id id_prefix (ctx_counter g + 1) ∉ ((λ b, id (b_ctx b)) <$> bridges g).
Proof.
  intros Hw (b & Hid & Hb)%list_elem_of_fmap. pose proof (wi_bridges g Hw) as Hf.
  rewrite Forall_forall in Hf. destruct (Hf b Hb) as [_ (k & Hk & Hidk)].
  rewrite Hidk in Hid. apply next_ctx_id_inj in Hid. lia.
Qed.

Lemma search_call_post pred g :
  inv g → ctx_counter g ≤ n + 2 →
  wp (search_call id_prefix pred) g (λ i g', inv g' ∧ (i < length (bridges g'))%nat ∧
        ctx_counter g' ≤ ctx_counter g + 1) no_exn uncaught.
Proof.
  intros [Hw HX] Hc. unfold search_call. apply wp_bind, wp_get.
  destruct (find_index _ _) as [i|] eqn:Hf.
  - apply wp_ret. split; [by split|]. split; [by eapply find_index_lt|lia].
  - destruct (Z.eqb_spec (ctx_counter g) 9223372036854775807); [apply wp_crash; right; lia|].
    apply wp_bind, wp_modify, wp_ret. simpl. split_and!; [|rewrite length_app; simpl; lia|lia].
    pose proof (wi_counter g Hw). split; [constructor; simpl|simpl].
    + apply Forall_app. split.
      * eapply Forall_impl; [apply (wi_bridges g Hw)|]. intros b. apply bridge_ok_mono. lia.
      * constructor; [|constructor]. split; [done|]. exists (ctx_counter g + 1). split; [lia|done].
    + rewrite fmap_app. apply NoDup_app. split_and!; [apply Hw| |apply NoDup_singleton].
      intros x Hx Hin. apply list_elem_of_singleton in Hin as ->. by apply (fresh_id g Hw).
    + lia.
    + apply Forall_app. split; [done|]. by repeat constructor.
Qed.

Lemma feed_post i e g :
  inv g → (i < length (bridges g))%nat →
  wp (feed E settings i e) g (λ _ g', inv_but i g' ∧ ctx_counter g' = ctx_counter g) no_exn uncaught.
Proof.
  intros [Hw HX] Hi. unfold wp, feed. destruct (lookup_lt_is_Some_2 _ _ Hi) as [b Hb]. rewrite Hb.
  pose proof (proj1 (Forall_lookup _ _) (wi_bridges g Hw) i b Hb) as [Hctl (k & Hk & Hid)].
  set (a := mkact _ _ _ _ _ _).
  pose proof (process_event_post E settings HE (b_sm b) e a Hctl) as Hp. unfold wp in Hp.
  destruct (process_event E settings (b_sm b) e a) as [s a'|x a'|c]; [|done|by left].
  destruct Hp as [[Hkid _] Hctl']. split; [|done]. split; [constructor; simpl|simpl].
  - apply Forall_insert; [apply Hw|]. split; [done|]. exists k. split; [done|]. simpl. by rewrite Hkid.
  - rewrite list_fmap_insert. simpl. rewrite Hkid.
    rewrite list_insert_id; [apply Hw|]. rewrite list_lookup_fmap, Hb. done.
  - apply Hw.
  - intros j b' Hj Hne. rewrite list_lookup_insert_ne in Hj by done.
    by apply (proj1 (Forall_lookup _ _) HX j).
Qed.

Lemma reap_post i g :
  inv_but i g → wp (reap (W := W) i) g (λ _ g', inv g' ∧ ctx_counter g' = ctx_counter g) no_exn uncaught.
Proof.
  intros [Hw HX]. apply wp_modify. destruct (bridges g !! i) as [b|] eqn:Hb.
  - case_bool_decide as Hs.
    + split; [|done]. split; [constructor; simpl|simpl].
      * apply Forall_delete, Hw.
      * rewrite list_fmap_delete. eapply sublist_NoDup; [apply (wi_ids g Hw)|]. apply sublist_delete.
      * apply Hw.
      * apply Forall_lookup. intros j b' Hj.
        destruct (decide (j < i)%nat).
        -- rewrite list_lookup_delete_lt in Hj by done. eapply HX; [done|lia].
        -- rewrite list_lookup_delete_ge in Hj by lia. eapply HX; [done|lia].
    + split; [|done]. split; [done|]. apply Forall_lookup. intros j b' Hj.
      destruct (decide (j = i)) as [->|]; [congruence|]. by eapply HX.
  - split; [|done]. split; [done|]. apply Forall_lookup. intros j b' Hj.
    eapply HX; [done|]. intros ->. congruence.
Qed.

(** One event keeps the invariant and opens at most one context. *)
Definition event_post g (_ : unit) g' : Prop := inv g' ∧ ctx_counter g' ≤ ctx_counter g + 1.

Lemma routed_post pred e g :
  inv g → ctx_counter g ≤ n + 2 →
  wp (i ← search_call id_prefix pred; feed E settings i e;; reap i) g (event_post g) no_exn uncaught.
Proof.
  intros Hi Hc. apply wp_bind. eapply wp_mono; [by apply search_call_post|].
  intros i g1 (Hi1 & Hlt & Hc1). apply wp_bind. eapply wp_mono; [by apply feed_post|].
  intros ? g2 [Hi2 Hc2]. eapply wp_mono; [by apply reap_post|]. intros ? g3 [Hi3 Hc3].
  split; [done|lia].
Qed.

(** A message never ends a call. *)
Lemma message_not_X s m a a' : process_event E settings s (EvMessage m) a = Ret SX a' → s = SX.
Proof.
  unfold process_event. destruct (machine_step E settings s (EvMessage m) a) as [s' a1| |] eqn:Hm; [|done..].
  intros [= -> ->]. unfold machine_step in Hm.
  assert (Ho : ∀ o, pick settings (StateMachine E settings) o (EvMessage m) = None) by by intros [].
  destruct s as [|i|i|]; try (unfold outer_step in Hm; rewrite Ho in Hm; by injection Hm).
  - destruct (pick _ _ i _); [|unfold outer_step in Hm; rewrite Ho in Hm; by injection Hm].
    unfold mbind, M_bind in Hm. destruct (run_actions _ _ a); simplify_eq/=.
  - destruct (pick _ _ i _); [|unfold outer_step in Hm; rewrite Ho in Hm; by injection Hm].
    unfold mbind, M_bind in Hm. destruct (run_actions _ _ a); simplify_eq/=.
Qed.

Lemma feed_message i m g :
  inv g → (i < length (bridges g))%nat →
  wp (feed E settings i (EvMessage m)) g (λ _ g', ∀ b, bridges g' !! i = Some b → b_sm b ≠ SX)
     no_exn uncaught.
Proof.
  intros Hi Hlt. pose proof (feed_post i (EvMessage m) g Hi Hlt) as Hp. unfold wp, feed in *.
  destruct (bridges g !! i) as [b|] eqn:Hb; [|done].
  destruct (process_event _ _ _ _ _) as [s a'|x a'|c] eqn:He; [|done..]. simpl.
  intros b' Hb'. rewrite list_lookup_insert_eq in Hb' by done. injection Hb' as <-. simpl.
  intros ->. apply message_not_X in He. by eapply (proj1 (Forall_lookup _ _) (proj2 Hi)).
Qed.

Lemma message_post m g :
  inv g → wp (process_event_message E settings chat_as_user m) g (event_post g) no_exn uncaught.
Proof.
  intros Hi. unfold process_event_message. destruct (m_sender m) as [u|chat].
  { apply wp_ret. split; [done|lia]. }
  apply wp_bind, wp_get. cbv zeta.
  destruct (List.filter _ _) as [|i [|]] eqn:Hf; try (apply wp_ret; split; [done|lia]).
  assert (Hin : In i [i]) by by left. rewrite <- Hf in Hin. apply filter_In in Hin as [Hlt%in_seq _].
  eapply wp_mono; [apply wp_and; [apply feed_post|apply feed_message]; done || lia|].
  intros [] g' [[[Hw HX] Hc] Hm]. split; [|lia]. split; [done|].
  apply Forall_lookup. intros j b Hj. destruct (decide (j = i)) as [->|]; [by apply Hm|by eapply HX].
Qed.

Lemma internal_post c prm g :
  inv g → wp (process_event_internal E settings c prm) g (event_post g) no_exn uncaught.
Proof.
  intros Hi. unfold process_event_internal. apply wp_bind, wp_get.
  destruct (find_index _ _) as [i|] eqn:Hf; [|apply wp_ret; split; [done|lia]].
  apply find_index_lt in Hf. apply wp_bind. eapply wp_mono; [by apply feed_post|].
  intros ? g2 [Hi2 Hc2]. eapply wp_mono; [by apply reap_post|]. intros ? g3 [Hi3 Hc3].
  split; [done|lia].
Qed.

Lemma inv_same g g' :
  bridges g' = bridges g → ctx_counter g' = ctx_counter g → inv g → inv g'.
Proof. intros E1 E2 [[] ?]. split; [constructor|]; by rewrite ?E1, ?E2. Qed.

Lemma tick_post g :
  inv g → ctx_counter g = n →
  wp (tick E settings id_prefix chat_as_user) g (λ _, inv) no_exn uncaught.
Proof.
  intros Hi Hc. unfold tick. apply wp_bind, wp_get, wp_bind.
  apply (wp_mono _ _ _ _ _ (event_post g)).
  { destruct (g_internal_events g) as [|[c prm] l]; [apply wp_ret; split; [done|lia]|].
    apply wp_bind, wp_modify. eapply wp_mono; [apply internal_post; by apply (inv_same g)|].
    intros ? g' [H1 H2]. by split. }
  intros ? g1 [Hi1 Hc1]. apply wp_bind, wp_get, wp_bind.
  apply (wp_mono _ _ _ _ _ (event_post g1)).
  { destruct (tg_events g1) as [|o l]; [apply wp_ret; split; [done|lia]|].
    apply wp_bind, wp_modify.
    assert (H1 : inv (g1 <| tg_events := l |>)) by by apply (inv_same g1).
    destruct o as [c|m|].
    - eapply wp_mono; [apply routed_post; [done|simpl; lia]|]. intros ? g' [? ?]. by split.
    - eapply wp_mono; [by apply message_post|]. intros ? g' [? ?]. by split.
    - apply wp_ret. split; [done|simpl; lia]. }
  intros ? g2 [Hi2 Hc2]. apply wp_bind, wp_get.
  destruct (Sip.events (g_sip g2)) as [|e l]; [by apply wp_ret|].
  apply wp_bind, wp_modify.
  eapply wp_mono; [apply routed_post; [by apply (inv_same g2)|simpl; lia]|]. by intros ? g' [? ?].
Qed.

End invariant.

Section whole.
Import Machine Gateway.
Context {W : Type} (E : Env W) (settings : Settings.t) (id_prefix : string) (chat_as_user : Z → Z).
Implicit Types (g : Gateway.t W) (b : Bridge).

Lemma load_cache_bridges g g' :
  load_cache E g = Ret tt g' → bridges g' = bridges g ∧ ctx_counter g' = ctx_counter g.
Proof.
  unfold load_cache. destruct (ask_out E searchContacts (g_out g)) as [r o].
  destruct r; try done; [intros [= <-]; done|].
  destruct (ask_users E user_ids o) as [rs o']. destruct (cache_users rs (g_cache g)); [|done].
  by intros [= <-].
Qed.

Lemma reachable_inv g :
  tg_typed E → reachable E settings id_prefix chat_as_user g → inv id_prefix g.
Proof.
  intros HE (w & t0 & g0 & Hl & Hstar).
  assert (H0 : inv id_prefix g0).
  { apply load_cache_bridges in Hl as [Hb Hc].
    apply (inv_same id_prefix (initial w t0)); [done..|].
    split; [constructor; simpl; [constructor|constructor|lia]|constructor]. }
  revert H0. apply (star_invariant (step E settings id_prefix chat_as_user) (inv id_prefix)); [|done].
  clear g Hstar.
  intros g g' Hs Hi. destruct Hs as [g g' Ht|o g|i u g|a i s g|a i h g|w' g];
    try (by apply (inv_same id_prefix g)).
  pose proof (tick_post E settings id_prefix chat_as_user HE (ctx_counter g) g Hi eq_refl) as Hp.
  unfold wp in Hp. by rewrite Ht in Hp.
Qed.


Lemma feed_eq i e g b :
  bridges g !! i = Some b →
  feed E settings i e g =
  match process_event E settings (b_sm b) e
          (mkact (b_ctx b) (g_sip g) (g_out g) (g_cache g) (g_block_until g) (g_internal_events g)) with
  | Ret s a =>
      Ret tt (g <| bridges := <[i := mkBridge s (ctx a)]> (bridges g) |>
                <| g_sip := sip a |> <| g_out := out a |> <| g_cache := cache a |>
                <| g_block_until := block_until a |>
                <| g_internal_events := internal_events a |>)
  | Throw x a => Crash UncaughtException
  | Crash c => Crash c
  end.
Proof. intros Hb. unfold feed. by rewrite Hb. Qed.

(** Text messages from users never reach a call: the sender test of
    [process_event] returns exactly for the senders it is meant to route, so
    the DTMF digits a user types are dropped whatever the state of the call. *)
Theorem user_messages_are_dropped g m u :
  m_sender m = messageSenderUser u →
  process_event_message E settings chat_as_user m g = Ret tt g.
Proof. intros Hm. unfold process_event_message. by rewrite Hm. Qed.

(** An incoming Telegram call whose caller cannot be looked up stops the
    program: when TDLib answers [getUser] with an error, the exception that
    [DialSip] throws is not caught anywhere. *)
Theorem failed_user_lookup_terminates g call code msg w :
  c_is_outgoing call = false → c_state call = callStatePending →
  Settings.callback_uri settings ≠ "" →
  find_index (λ b, tg_call_id (b_ctx b) =? c_id call) (bridges g) = None →
  ctx_counter g < 9223372036854775807 →
  tg_query E (getUser (c_user_id call)) (world (g_out g)) = (R_error code msg, w) →
  process_event_call E settings id_prefix call g = Crash UncaughtException.
Proof.
  intros Ho Hst Hcb Hf Hc Hq. unfold process_event_call, search_call.
  unfold mbind, M_bind, get, modify. cbn [mret M_ret]. rewrite Hf.
  destruct (Z.eqb_spec (ctx_counter g) 9223372036854775807); [lia|]. cbv beta zeta iota.
  set (b0 := mkBridge SInit (new_context (next_ctx_id id_prefix (ctx_counter g + 1)))).
  assert (Hl : (bridges g ++ [b0]) !! length (bridges g) = Some b0)
    by (rewrite lookup_app_r, Nat.sub_diag by lia; done).
  unfold mret, M_ret. cbv beta iota.
  rewrite (feed_eq _ _ _ b0) by exact Hl. unfold b0. cbn [b_sm b_ctx]. unfold process_event, machine_step, outer_step.
  assert (pick settings (StateMachine E settings) (outer_of SInit) (EvCall call)
          = Some (trans _ Init KCall (gand (gand IsIncoming (IsInState callStatePending)) CallbackUriIsSet)
                    [StoreTgId; StoreTgUserId; DialSip E settings] FromTg)) as ->.
  { unfold pick, StateMachine. cbn -[gand bool_decide]. unfold gand, IsIncoming, IsInState, CallbackUriIsSet.
    rewrite Ho, Hst. rewrite (bool_decide_false (Settings.callback_uri settings = "")) by done. done. }
  unfold run_actions, StoreTgId, StoreTgUserId, DialSip, ask, mbind, M_bind, modify.
  cbn. by rewrite Hq.
Qed.

End whole.

(** ** Concrete instances *)

Section instances.
Import Machine Gateway.

Lemma loaded : load_cache demo_env gw0 = Ret tt (default gw0 (end_state (load_cache demo_env gw0))).
Proof. vm_compute. reflexivity. Qed.
Definition loaded_gw : Gateway.t Z := default gw0 (end_state (load_cache demo_env gw0)).
Definition ringing_gw : Gateway.t Z := loaded_gw <| g_sip ::= Sip.on_incoming_call 5 "77" |>.

Lemma ringing_reachable : reachable demo_env demo_settings "7-" (λ z, z) ringing_gw.
Proof.
  exists 0, 0, loaded_gw. split; [exact loaded|]. apply star_one, step_incoming.
Qed.


Lemma user_messages_are_dropped_witness :
  process_event_message demo_env demo_settings (λ z, z)
    (mkmessage (messageSenderUser 77) (messageText "1")) ringing_gw = Ret tt ringing_gw.
Proof. apply (user_messages_are_dropped demo_env demo_settings (λ z, z) _ _ 77). reflexivity. Defined.

(** TDLib that fails every query. *)
Definition failing_env : Env Z :=
  mkenv (λ _ w, (R_error 500 "x", w)) (clock demo_env) (make_call demo_env) (answer demo_env)
    (hangup demo_env) (dial_dtmf demo_env) (audio_media demo_env) (connect_audio demo_env).

Lemma failed_user_lookup_terminates_witness :
  process_event_call failing_env demo_settings "7-" (mkcall 9 77 false callStatePending) gw0
  = Crash UncaughtException.
Proof.
  apply (failed_user_lookup_terminates failing_env demo_settings "7-" gw0
           (mkcall 9 77 false callStatePending) 500 "x" 0); reflexivity || discriminate.
Defined.

Definition dialing : act Z :=
  mkact (new_context "7-1" <| ext_phone := "4477" |>) (Sip.mk ∅ []) (mkoutside 0 [])
    (mkCache ∅ ∅) 0 [].
Definition blocked : act Z := dialing <| block_until := 5000000000 |>.
Definition early : event := EvSip (Sip.CallStateUpdate 5 PJSIP_INV_STATE_EARLY).

Lemma flood_wait_blocks_witness :
  ∃ a', DialTg demo_env demo_settings early blocked = Ret tt a' ∧ trace (out a') = trace (out blocked) ∧
    cache a' = cache blocked ∧ block_until a' = block_until blocked ∧
    internal_events a' = [("7-1", mkprm 500 "FLOOD_WAIT 5" [])].
Proof.
  apply (flood_wait_blocks demo_env demo_settings early blocked 0 0 0 0); reflexivity.
Defined.

Lemma phone_cache_saves_lookup_witness :
  ∃ a', DialTg demo_env demo_settings early dialing = Ret tt a' ∧ tg_call_id (ctx a') = 101 ∧
    phone_cache (cache a') !! "4477" = Some 77.
Proof.
  apply (phone_cache_saves_lookup demo_env demo_settings early dialing 0 0
           ltac:(reflexivity) ltac:(reflexivity) ltac:(reflexivity) ltac:(discriminate)
           77 [] 1 101 2); reflexivity || discriminate.
Defined.

Definition talking : act Z :=
  mkact (new_context "7-1" <| sip_call_id := 5 |> <| tg_call_id := 101 |> <| controller := Some 101 |>)
    (Sip.mk {[5 := Sip.mkCall ""]} []) (mkoutside 0 []) (mkCache ∅ ∅) 0 [].
Definition failed : event := EvInternalError "7-1" (mkprm 500 "no media" []).
Definition torn_down : act Z :=
  match process_event demo_env demo_settings (SSip S_wait_dtmf) failed talking with
  | Ret _ a => a
  | _ => talking
  end.

Lemma teardown_witness :
  tg_call_id (ctx torn_down) = 0 ∧ sip_call_id (ctx torn_down) = PJSUA_INVALID_ID ∧
  trace (out torn_down) =
    [PjHangup 5 (mkprm 500 "no media" []); Tg (discardCall 101); VoipStop 101].
Proof.
  apply (teardown demo_env demo_settings (SSip S_wait_dtmf) failed talking torn_down);
    [right; by eexists|reflexivity].
Defined.
End instances.
