(* ===== verification/Endpoints.v ===== *)
(** * libtgvoip/VoIPController.cpp: the endpoints of a call

    A call has a map of endpoints (relays by UDP or TCP, the address of the
    peer on the Internet and in the local network), one that packets are
    sent to now and a preferred relay to fall back to.  This file has the
    class [Endpoint], the map, and the parts of the controller that add
    endpoints and choose among them.

    Sockets of TCP relays are objects on the heap that endpoints point to;
    the destructor of an endpoint deletes its socket, and copies of an
    endpoint share the pointer. *)

From Stdlib Require Import ZArith Lia SpecFloat List.
From stdpp Require Import base tactics list numbers option gmap strings.
From S2P Require Import Prelude Words Double History Buffers Streams Net Link.
From stdpp Require Import list.
Open Scope Z_scope.

(** Parameters sent by the server ([ServerConfig::GetSharedInstance()]): a
    key and its default to the configured value. *)
Class ServerConfig := {
  GetInt : string → Z → Z;
  GetDouble : string → double → double;
  GetBoolean : string → bool → bool;
}.

(* ------------------------------------------------------------------ *)
(** ** [std::map] with integer keys, in the order of iteration *)
Module OMap.
Section ops.
Context {A : Type}.
Definition t : Type := list (Z * A).

Fixpoint find (k : Z) (m : t) : option A :=
  match m with
  | [] => None
  | (k', a) :: m' => if k' =? k then Some a else find k m'
  end.
Fixpoint insert (k : Z) (a : A) (m : t) : t :=
  match m with
  | [] => [(k, a)]
  | (k', b) :: m' =>
      if k' =? k then (k, a) :: m'
      else if k <? k' then (k, a) :: (k', b) :: m'
      else (k', b) :: insert k a m'
  end.
Definition erase (k : Z) (m : t) : t := List.filter (λ p, negb (p.1 =? k)) m.
(** Change one element in place. *)
Fixpoint update (k : Z) (f : A → A) (m : t) : t :=
  match m with
  | [] => []
  | (k', a) :: m' => if k' =? k then (k', f a) :: m' else (k', a) :: update k f m'
  end.
Definition keys (m : t) : list Z := m.*1.
Definition values (m : t) : list A := m.*2.
Definition map_values (f : A → A) (m : t) : t := (λ p, (p.1, f p.2)) <$> m.
End ops.
Arguments t : clear implicits.
End OMap.

Section omap.
Context {A : Type}.
Implicit Types m : OMap.t A.

Lemma find_insert_eq k a m : OMap.find k (OMap.insert k a m) = Some a.
Proof.
  induction m as [|[k' b] m IH]; simpl; [by rewrite Z.eqb_refl|].
  destruct (Z.eqb_spec k' k); simpl; [by rewrite Z.eqb_refl|].
  destruct (k <? k'); simpl; [by rewrite Z.eqb_refl|]. by destruct (Z.eqb_spec k' k).
Qed.
Lemma find_insert_ne k k' a m : k ≠ k' → OMap.find k' (OMap.insert k a m) = OMap.find k' m.
Proof.
  intros Hk. induction m as [|[j b] m IH]; simpl; [by destruct (Z.eqb_spec k k')|].
  destruct (Z.eqb_spec j k) as [->|]; simpl; [by destruct (Z.eqb_spec k k')|].
  destruct (k <? j); simpl; [by destruct (Z.eqb_spec k k')|]. by rewrite IH.
Qed.
Lemma find_erase_ne k k' m : k ≠ k' → OMap.find k' (OMap.erase k m) = OMap.find k' m.
Proof.
  intros Hk. induction m as [|[j b] m IH]; simpl; [done|].
  destruct (Z.eqb_spec j k) as [->|]; simpl; [by destruct (Z.eqb_spec k k')|]. by rewrite IH.
Qed.
Lemma find_update k k' f m :
  OMap.find k' (OMap.update k f m) = (if k' =? k then f else id) <$> OMap.find k' m.
Proof.
  induction m as [|[j b] m IH]; simpl; [done|]. destruct (Z.eqb_spec j k) as [->|Hj]; simpl.
  - rewrite (Z.eqb_sym k' k). destruct (Z.eqb_spec k k') as [->|]; [done|].
    by destruct (OMap.find k' m).
  - rewrite IH. destruct (Z.eqb_spec j k') as [->|]; [|done]. by rewrite (proj2 (Z.eqb_neq k' k)).
Qed.
Lemma find_map k (f : A → A) m : OMap.find k (OMap.map_values f m) = f <$> OMap.find k m.
Proof. induction m as [|[j b] m IH]; simpl; [done|]. by destruct (j =? k). Qed.
Lemma find_elem k a m : OMap.find k m = Some a → (k, a) ∈ m.
Proof.
  induction m as [|[j b] m IH]; simpl; [done|]. destruct (Z.eqb_spec j k) as [->|].
  - intros [= ->]. by left.
  - intros. right. auto.
Qed.
Lemma is_Some_find k m : is_Some (OMap.find k m) ↔ k ∈ OMap.keys m.
Proof.
  unfold OMap.keys. induction m as [|[j b] m IH]; simpl.
  - split; [by intros []|]. by intros ?%elem_of_nil.
  - rewrite elem_of_cons, <- IH. destruct (Z.eqb_spec j k) as [->|]; simpl; naive_solver.
Qed.
End omap.

(* ------------------------------------------------------------------ *)
Module Endpoint.

Inductive Type_ := UDP_P2P_INET | UDP_P2P_LAN | UDP_RELAY | TCP_RELAY.
#[global] Instance type_eq_dec : EqDecision Type_.
Proof. solve_decision. Defined.

Record t := mk {
  id : Z;
  port : Z;
  address : NetworkAddress.t;      (** an [IPv4Address] *)
  v6address : NetworkAddress.t;    (** an [IPv6Address] *)
  type : Type_;
  peerTag : bytes;
  lastPingTime : double;
  lastPingSeq : Z;
  rtts : HistoricBuffer.t double;
  averageRTT : double;
  socket : option Z;               (** where the socket is *)
  udpPongCount : Z;
}.
#[global] Instance endpoint_eta : Eta t := λ e,
  mk (id e) (port e) (address e) (v6address e) (type e) (peerTag e) (lastPingTime e) (lastPingSeq e) (rtts e)
     (averageRTT e) (socket e) (udpPongCount e).

Definition noIPv4 : NetworkAddress.t := NetworkAddress.IPv4 0.
Definition noIPv6 : NetworkAddress.t := NetworkAddress.IPv6 (replicate 16 0).

(** [Endpoint(id, port, address, v6address, type, peerTag)]. *)
Definition ctor `{ServerConfig} (id port : Z) (address v6address : NetworkAddress.t) (type : Type_) (peerTag : bytes) : t :=
  mk id port address v6address
     (if bool_decide (type = UDP_RELAY) && GetBoolean "force_tcp" false then TCP_RELAY else type)
     peerTag D.zero 0 (HistoricBuffer.ctor 6) D.zero None 0.

Definition IsIPv6Only (e : t) : bool :=
  NetworkAddress.IsEmpty (address e) && negb (NetworkAddress.IsEmpty (v6address e)).
Definition GetAddress (e : t) : NetworkAddress.t := if IsIPv6Only e then v6address e else address e.

Definition is_relay (e : t) : bool :=
  bool_decide (type e = UDP_RELAY) || bool_decide (type e = TCP_RELAY).

(** [averageRTT=0; rtts.Reset();] *)
Definition forget_rtt (e : t) : t := e <| averageRTT := D.zero |> <| rtts ::= HistoricBuffer.Reset (A := double) |>.
End Endpoint.

Definition FOURCC (a b c d : Z) : Z := Z.lor (Z.lor (Z.lor d (Z.shiftl c 8)) (Z.shiftl b 16)) (Z.shiftl a 24).
(** [(int64_t)(FOURCC('P','2','P','4')) << 32] and the like. *)
Definition p2pID : Z := Z.shiftl (FOURCC 80 50 80 52) 32.
Definition p2pID6 : Z := Z.shiftl (FOURCC 80 50 80 54) 32.
Definition lanID : Z := Z.shiftl (FOURCC 76 65 78 52) 32.
Definition ipv6Bit : Z := Z.shiftl (FOURCC 73 80 118 54) 32.
Definition tcpBit : Z := Z.shiftl (FOURCC 84 67 80 0) 32.

Module Endpoints.
Import Endpoint.

(** A socket: is it ready to send, did it fail. *)
Record sock := mksock { ready : bool; failed : bool }.

(** The members of the controller that say where packets go. *)
Record t := mk {
  endpoints : OMap.t Endpoint.t;
  currentEndpoint : Z;
  preferredRelay : Z;
  peerPreferredRelay : Z;
  useTCP : bool;
  useUDP : bool;
  didAddTcpRelays : bool;
  setCurrentEndpointToTCP : bool;
  didAddIPv6Relays : bool;
  myIPv6 : NetworkAddress.t;
  allowP2p : bool;
  sockets : gmap Z sock;           (** the sockets that are alive *)
  nextSocket : Z;                  (** where the next one is allocated *)
}.
#[global] Instance endpoints_eta : Eta t := λ s,
  mk (endpoints s) (currentEndpoint s) (preferredRelay s) (peerPreferredRelay s) (useTCP s) (useUDP s)
     (didAddTcpRelays s) (setCurrentEndpointToTCP s) (didAddIPv6Relays s) (myIPv6 s) (allowP2p s) (sockets s) (nextSocket s).

(** [useIPv6] and the addresses as the constructor leaves them. *)
Definition initial : t := mk [] 0 0 0 false true false false false noIPv6 true ∅ 1.

(** [endpoints.at(id)]. *)
Definition at_ (i : Z) : M t Endpoint.t :=
  s ← get;
  match OMap.find i (endpoints s) with Some e => mret e | None => throw OutOfRange end.

(** A use of the socket at [p]: undefined when it was deleted. *)
Definition socket_at (p : Z) : M t sock := s ← get; defined (sockets s !! p).

(** [~Endpoint]: the socket is closed and deleted. *)
Definition destroy (e : Endpoint.t) : M t unit :=
  match socket e with
  | None => mret tt
  | Some p => _ ← socket_at p; modify (λ s, s <| sockets ::= delete p |>)
  end.
Fixpoint destroy_all (l : list Endpoint.t) : M t unit :=
  match l with [] => mret tt | e :: l' => destroy e;; destroy_all l' end.

Definition set_endpoint (e : Endpoint.t) : M t unit :=
  modify (λ s, s <| endpoints ::= OMap.insert (id e) e |>).
Definition erase_endpoint (i : Z) : M t unit :=
  s ← get;
  match OMap.find i (endpoints s) with
  | None => mret tt
  | Some e => destroy e;; modify (λ s, s <| endpoints ::= OMap.erase i |>)
  end.
(** A change of every endpoint in place. *)
Definition for_each (f : Endpoint.t → Endpoint.t) : M t unit :=
  modify (λ s, s <| endpoints ::= OMap.map_values f |>).

(** ** Adding endpoints *)

(** The body of the loop of [AddIPv6Relays] for a copy of an endpoint. *)
Definition v6_copy (e : Endpoint.t) : Endpoint.t :=
  e <| address := noIPv4 |> <| Endpoint.id := s64 (Z.lxor (Endpoint.id e) ipv6Bit) |>
    <| averageRTT := D.zero |> <| lastPingSeq := 0 |> <| lastPingTime := D.zero |>
    <| rtts ::= HistoricBuffer.Reset (A := double) |> <| udpPongCount := 0 |>.
Fixpoint set_all (l : list Endpoint.t) : M t unit :=
  match l with [] => mret tt | e :: l' => set_endpoint e;; set_all l' end.

(** [AddIPv6Relays].  The map from addresses to vectors of copies is only
    iterated over, so the copies are taken in the order of the endpoints;
    their destructors run when it goes out of scope. *)
Definition AddIPv6Relays : M t unit :=
  s ← get;
  if negb (NetworkAddress.IsEmpty (myIPv6 s)) && negb (didAddIPv6Relays s) then
    let copies := v6_copy <$> List.filter (λ e,
      is_relay e && negb (NetworkAddress.IsEmpty (v6address e)) && negb (NetworkAddress.IsEmpty (address e))) (OMap.values (endpoints s)) in
    (if bool_decide (copies = []) then mret tt else modify (λ s, s <| didAddIPv6Relays := true |>));;
    set_all copies;;
    destroy_all copies
  else mret tt.

(** The copy of a relay in [AddTCPRelays]. *)
Definition tcp_copy (e : Endpoint.t) : Endpoint.t :=
  e <| type := TCP_RELAY |> <| averageRTT := D.zero |> <| lastPingSeq := 0 |> <| lastPingTime := D.zero |>
    <| rtts ::= HistoricBuffer.Reset (A := double) |> <| udpPongCount := 0 |>
    <| Endpoint.id := s64 (Z.lxor (Endpoint.id e) tcpBit) |>.

(** Its first loop, over the keys of the map; the copies made. *)
Fixpoint copy_relays (wasSetCurrentToTCP : bool) (ks : list Z) : M t (list Endpoint.t) :=
  match ks with
  | [] => mret []
  | k :: ks' =>
      s ← get;
      e ← defined (OMap.find k (endpoints s));
      if negb (bool_decide (type e = UDP_RELAY)) then copy_relays wasSetCurrentToTCP ks'
      else
        let e := if wasSetCurrentToTCP && negb (useUDP s) then forget_rtt e <| lastPingSeq := 0 |> else e in
        modify (λ s, s <| endpoints ::= OMap.update k (λ _, e) |>);;
        let tcpRelay := tcp_copy e in
        s ← get;
        (if setCurrentEndpointToTCP s then
           cur ← at_ (currentEndpoint s);
           if bool_decide (type cur = TCP_RELAY) then mret tt
           else modify (λ s, s <| setCurrentEndpointToTCP := false |> <| currentEndpoint := Endpoint.id tcpRelay |>
                               <| preferredRelay := Endpoint.id tcpRelay |>)
         else mret tt);;
        relays ← copy_relays wasSetCurrentToTCP ks';
        mret (tcpRelay :: relays)
  end.
Definition AddTCPRelays : M t unit :=
  s ← get;
  if didAddTcpRelays s then mret tt
  else
    relays ← copy_relays (setCurrentEndpointToTCP s) (OMap.keys (endpoints s));
    set_all relays;;
    modify (λ s, s <| didAddTcpRelays := true |>).

(** The loop of [SetRemoteEndpoints]. *)
Fixpoint add_remote (l : list Endpoint.t) : M t unit :=
  match l with
  | [] => mret tt
  | e :: l' =>
      set_endpoint e;;
      modify (λ s, if currentEndpoint s =? 0 then s <| currentEndpoint := Endpoint.id e |> else s);;
      (if bool_decide (type e = TCP_RELAY) then modify (λ s, s <| didAddTcpRelays := true |>) else mret tt);;
      (if bool_decide (type e = UDP_RELAY) then modify (λ s, s <| useTCP := false |>) else mret tt);;
      add_remote l'
  end.
(** [SetRemoteEndpoints]; the maximum layer is kept by the controller. *)
Definition SetRemoteEndpoints (l : list Endpoint.t) (p2p : bool) : M t unit :=
  modify (λ s, s <| preferredRelay := 0 |>);;
  s ← get;
  destroy_all (OMap.values (endpoints s));;
  modify (λ s, s <| endpoints := [] |> <| didAddTcpRelays := false |> <| useTCP := true |>);;
  add_remote l;;
  modify (λ s, s <| preferredRelay := currentEndpoint s |> <| allowP2p := p2p |>);;
  AddIPv6Relays.

(** ** Finding endpoints *)

Definition first_of (ty : Type_) (s : t) : option Endpoint.t :=
  List.find (λ e, bool_decide (type e = ty)) (OMap.values (endpoints s)).
Definition GetEndpointByType (ty : Type_) : M t Endpoint.t :=
  s ← get;
  if bool_decide (ty = UDP_RELAY) && negb (preferredRelay s =? 0) then at_ (preferredRelay s)
  else match first_of ty s with Some e => mret e | None => throw OutOfRange end.

(** [GetEndpointForPacket]: [None] when the packet names an endpoint that
    does not exist. *)
Definition GetEndpointForPacket (endpoint : Z) : M t (option Endpoint.t) :=
  s ← get;
  if endpoint =? 0 then Some <$> at_ (currentEndpoint s)
  else mret (OMap.find endpoint (endpoints s)).

(** The protocol an endpoint is spoken to by. *)
Inductive Protocol := PROTO_UDP | PROTO_TCP.
#[global] Instance protocol_eq_dec : EqDecision Protocol.
Proof. solve_decision. Defined.
Definition by_protocol (p : Protocol) (e : Endpoint.t) : bool :=
  (negb (bool_decide (type e = TCP_RELAY)) && bool_decide (p = PROTO_UDP)) ||
  (bool_decide (type e = TCP_RELAY) && bool_decide (p = PROTO_TCP)).

(** The part of [RunRecvThread] that finds where a packet comes from; 0
    when from nowhere known. *)
Definition source_endpoint (from : NetworkAddress.t) (fromPort : Z) (p : Protocol) : M t Z :=
  s ← get;
  match from with
  | NetworkAddress.IPv4 _ =>
      match List.find (λ e, NetworkAddress.eqb (address e) from && (port e =? fromPort) && by_protocol p e) (OMap.values (endpoints s)) with
      | Some e => mret (Endpoint.id e)
      | None =>
          if bool_decide (p = PROTO_UDP) then
            try_catch
              (p2p ← GetEndpointByType UDP_P2P_INET;
               rtt ← defined (HistoricBuffer.index (rtts p2p) 0);
               if D.eqb rtt D.zero then
                 m ← defined (NetworkAddress.PrefixMatches 24 (address p2p) from);
                 mret (if m : bool then Endpoint.id p2p else 0)
               else mret 0)
              (λ _, mret 0)
          else mret 0
      end
  | NetworkAddress.IPv6 _ =>
      mret (match List.find (λ e, NetworkAddress.eqb (v6address e) from && (port e =? fromPort) && IsIPv6Only e && by_protocol p e)
                    (OMap.values (endpoints s)) with
            | Some e => Endpoint.id e
            | None => 0
            end)
  end.

Definition ResetEndpointPingStats : M t unit := for_each forget_rtt.
End Endpoints.
