(* ===== verification/Posix.v ===== *)
(** * libtgvoip/os/posix/NetworkSocketPosix.cpp: sockets

    [NetworkSocketPosix]: datagrams to IPv4 addresses through mapped or
    NAT64 addresses, the packet a TCP socket keeps while the kernel does not
    take it, [Open], [Connect], [Close]; and [Select], which waits for
    several sockets.

    The kernel is outside: what it answers to a call is an argument of the
    operation that makes the call; what it was given is recorded. *)

From Stdlib Require Import ZArith Lia SpecFloat List.
From stdpp Require Import base tactics list numbers option gmap strings.
From S2P Require Import Prelude Words Double Net Socks Endpoints.
From stdpp Require Import list.
Open Scope Z_scope.

Module Posix.
Import Socks.

(** The errors the code tells apart. *)
Inductive error := EAGAIN | ENETUNREACH | EOTHER.
#[global] Instance error_eq_dec : EqDecision error.
Proof. solve_decision. Defined.
(** The result of [sendto] and [send], with [errno]. *)
Record answer := mkanswer { res : Z; errno : error }.
(** What the kernel was given: datagrams to a [sockaddr_in6], bytes of a
    connection, descriptors to close. *)
Inductive given := Datagram (address : bytes) (port : Z) (data : bytes) | Bytes (data : bytes) | Closed (fd : Z).
Record packet := mkpacket { data : bytes; address : option NetworkAddress.t; port : Z; p_protocol : NetworkProtocol }.

Record t := mk {
  protocol : NetworkProtocol;
  fd : Z;
  failed : bool;
  readyToSend : bool;
  closing : bool;
  lastSuccessfulOperationTime : double;
  timeout : double;
  ipv6Timeout : double;
  needUpdateNat64Prefix : bool;
  nat64Present : bool;
  nat64Prefix : bytes;
  switchToV6at : double;
  isV4Available : bool;
  tcpConnectedAddress : option NetworkAddress.t;
  tcpConnectedPort : Z;
  pendingOutgoingPacket : option bytes;
  ticks : nat;                     (** how often the clock was read *)
  log : list given;                (** the last one first *)
}.
#[global] Instance posix_eta : Eta t := λ s,
  mk (protocol s) (fd s) (failed s) (readyToSend s) (closing s) (lastSuccessfulOperationTime s) (timeout s) (ipv6Timeout s)
     (needUpdateNat64Prefix s) (nat64Present s) (nat64Prefix s) (switchToV6at s) (isV4Available s) (tcpConnectedAddress s)
     (tcpConnectedPort s) (pendingOutgoingPacket s) (ticks s) (log s).

Definition give (g : given) : M t unit := modify (λ s, s <| log ::= cons g |>).
(** [GenerateLocalPort] with the bytes of [rand_bytes] as a number. *)
Definition GenerateLocalPort (rnd : Z) : Z := rnd mod (32768 - 16384) + 16384.

(** ** Addresses *)

(** The first and second half of the test addresses of NAT64: among the
    addresses of "ipv4only.arpa" those that end with 192.0.0.170 and
    192.0.0.171, with the same first twelve octets. *)
Definition ends_with (v4 : bytes) (a : bytes) : bool := bool_decide (drop 12 a = v4).
Definition find_prefix (l : list bytes) : option bytes :=
  match List.find (ends_with [192; 0; 0; 170]) l, List.find (ends_with [192; 0; 0; 171]) l with
  | Some a, Some b => if bool_decide (take 12 a = take 12 b) then Some (take 12 a) else None
  | _, _ => None
  end.
Definition mapped : bytes := replicate 10 0 ++ [255; 255].
(** [sin6_addr] of a destination, and the address a source stands for. *)
Definition destination (s : t) (a : NetworkAddress.t) : bytes :=
  match a with
  | NetworkAddress.IPv4 x => (if nat64Present s then nat64Prefix s else mapped) ++ le_bytes 4 x
  | NetworkAddress.IPv6 l => l
  end.
Definition source (s : t) (sin6 : bytes) : NetworkAddress.t :=
  if bool_decide (take 12 sin6 = mapped) || (nat64Present s && bool_decide (nat64Prefix s = take 12 sin6))
  then NetworkAddress.IPv4 (le_val (drop 12 sin6)) else NetworkAddress.IPv6 sin6.

Section ops.
Context `{Clock, ServerConfig}.

Definition GetCurrentTime : M t double := s ← get; modify (λ s, s <| ticks ::= S |>);; mret (clock (ticks s)).

(** The constructor; the prefix is not initialised. *)
Definition ctor (protocol : NetworkProtocol) (now : double) (garbage : bytes) : t :=
  mk protocol (-1) false false false now (if bool_decide (protocol = PROTO_TCP) then D.of_Z 10 else D.zero)
     (GetDouble "nat64_fallback_timeout" (D.of_Z 3)) true false garbage D.zero false None 0 None 0 [].

(** ** Sending *)

(** The prefix is looked up once after a switch to IPv6; [resolved] are the
    IPv6 addresses [getaddrinfo] found, [None] when it failed. *)
Definition update_prefix (resolved : option (list bytes)) : M t unit :=
  s ← get;
  if needUpdateNat64Prefix s && negb (isV4Available s) then
    now ← GetCurrentTime;
    if D.gtb now (switchToV6at s) && negb (D.eqb (switchToV6at s) D.zero) then
      modify (λ s, s <| nat64Present := false |>);;
      match resolved ≫= find_prefix with
      | Some p => modify (λ s, s <| nat64Present := true |> <| nat64Prefix := p |>)
      | None => mret tt
      end;;
      modify (λ s, s <| needUpdateNat64Prefix := false |>)
    else mret tt
  else mret tt.

(** The packet is kept until the kernel can take it. *)
Definition keep_pending (rest : bytes) : M t unit :=
  s ← get;
  match pendingOutgoingPacket s with
  | Some _ => modify (λ s, s <| failed := true |>)
  | None => modify (λ s, s <| pendingOutgoingPacket := Some rest |> <| readyToSend := false |>)
  end.
Definition after_send (p : packet) (a : answer) : M t unit :=
  if res a <=? 0 then
    match errno a with
    | EAGAIN => keep_pending (data p)
    | e =>
        s ← get;
        if bool_decide (e = ENETUNREACH) && negb (isV4Available s) then
          now ← GetCurrentTime;
          if D.ltb now (switchToV6at s) then now' ← GetCurrentTime; modify (λ s, s <| switchToV6at := now' |>) else mret tt
        else mret tt
    end
  else if negb (res a =? zlen (data p)) && bool_decide (p_protocol p = PROTO_TCP) then
    keep_pending (drop (Z.to_nat (res a)) (data p))
  else mret tt.
(** [Send(packet)].  [give] records what the kernel took. *)
Definition Send (p : packet) (resolved : option (list bytes)) (a : answer) : M t unit :=
  s ← get;
  match protocol s, address p with
  | PROTO_UDP, None => mret tt
  | PROTO_UDP, Some addr =>
      match addr with NetworkAddress.IPv4 _ => update_prefix resolved | NetworkAddress.IPv6 _ => mret tt end;;
      s ← get;
      (if 0 <? res a then give (Datagram (destination s addr) (port p) (take (Z.to_nat (res a)) (data p))) else mret tt);;
      after_send p a
  | PROTO_TCP, _ =>
      (if 0 <? res a then give (Bytes (take (Z.to_nat (res a)) (data p))) else mret tt);;
      after_send p a
  end.
(** [NetworkSocket::Send(buffer, len)]: all other members of the packet are
    zero, which is [PROTO_UDP]. *)
Definition buffer_packet (l : bytes) : packet := mkpacket l None 0 PROTO_UDP.
Definition SendBuffer (l : bytes) (a : answer) : M t unit := Send (buffer_packet l) None a.

(** [OnReadyToSend()]; the packet it makes is zero as well. *)
Definition OnReadyToSend (a : answer) : M t bool :=
  s ← get;
  match pendingOutgoingPacket s with
  | Some l => Send (buffer_packet l) None a;; modify (λ s, s <| pendingOutgoingPacket := None |>);; mret false
  | None => modify (λ s, s <| readyToSend := true |>);; mret true
  end.

(** ** Receiving *)

(** [Receive(packet)]; [None]: the length is set to 0, nothing else.  The
    argument is what [recvfrom] or [recv] gave, if anything. *)
Definition Receive (r : option (bytes * bytes * Z)) : M t (option packet) :=
  s ← get;
  if failed s then mret None
  else
    match protocol s, r with
    | PROTO_UDP, None => mret None
    | PROTO_UDP, Some (l, sin6, sin6_port) =>
        (if negb (isV4Available s) && bool_decide (take 12 sin6 = mapped) then modify (λ s, s <| isV4Available := true |>) else mret tt);;
        mret (Some (mkpacket l (Some (source s sin6)) sin6_port PROTO_UDP))
    | PROTO_TCP, None => modify (λ s, s <| failed := true |>);; mret None
    | PROTO_TCP, Some (l, _, _) => mret (Some (mkpacket l (tcpConnectedAddress s) (tcpConnectedPort s) PROTO_TCP))
    end.

(** ** Opening and closing *)

(** Up to ten random ports are tried, then any port; the ports of the calls
    of [bind] and whether one succeeded.  [binds] are the answers. *)
Fixpoint bind_port (rnds : list Z) (binds : list bool) : list Z * bool :=
  match rnds, binds with
  | rnd :: rnds', ok :: binds' =>
      let port := GenerateLocalPort rnd in
      if ok then ([port], true) else let '(l, b) := bind_port rnds' binds' in (port :: l, b)
  | _, ok :: _ => ([0], ok)
  | _, [] => ([0], false)
  end.
Definition fail : M t unit := modify (λ s, s <| failed := true |>).
(** [Open()]: [sock] is the result of [socket], [dual] whether IPv4 could be
    enabled. *)
Definition Open (sock : Z) (dual : bool) (rnds : list Z) (binds : list bool) : M t unit :=
  s ← get;
  match protocol s with
  | PROTO_TCP => mret tt
  | PROTO_UDP =>
      modify (λ s, s <| fd := sock |>);;
      if sock <? 0 then fail
      else if negb dual then fail
      else if negb (bind_port (take 10 rnds) (take 11 binds)).2 then fail
      else
        modify (λ s, s <| needUpdateNat64Prefix := true |> <| isV4Available := false |>);;
        now ← GetCurrentTime;
        modify (λ s, s <| switchToV6at := D.add now (ipv6Timeout s) |>)
  end.
Definition Close : M t unit :=
  modify (λ s, s <| closing := true |> <| failed := true |>);;
  s ← get;
  if 0 <=? fd s then give (Closed (fd s));; modify (λ s, s <| fd := -1 |>) else mret tt.
(** The destructor. *)
Definition dtor : M t unit := s ← get; if 0 <=? fd s then Close else mret tt.
(** [Connect(address, port)]; [connected]: the connection is made or being
    made. *)
Definition Connect (address : option NetworkAddress.t) (port : Z) (sock : Z) (connected : bool) : M t unit :=
  match address with
  | None => fail
  | Some a =>
      modify (λ s, s <| fd := sock |>);;
      if sock <? 0 then fail
      else if negb connected then give (Closed sock);; fail
      else modify (λ s, s <| tcpConnectedAddress := Some a |> <| tcpConnectedPort := port |>)
  end.
Definition OnActiveInterfaceChanged : M t unit :=
  modify (λ s, s <| needUpdateNat64Prefix := true |> <| isV4Available := false |>);;
  now ← GetCurrentTime;
  modify (λ s, s <| switchToV6at := D.add now (ipv6Timeout s) |>).
End ops.
End Posix.

(* ------------------------------------------------------------------ *)
(** ** Datagrams and addresses *)

Section datagrams.
Context {CK : Clock} {SC : ServerConfig}.
Import Socks Posix.

Lemma take_destination s x : (nat64Present s = true → length (nat64Prefix s) = 12%nat) →
  take 12 (destination s (NetworkAddress.IPv4 x)) = (if nat64Present s then nat64Prefix s else mapped) ∧
  drop 12 (destination s (NetworkAddress.IPv4 x)) = le_bytes 4 x.
Proof.
  intros Hp. unfold destination. assert (length (if nat64Present s then nat64Prefix s else mapped) = 12%nat) as <-.
  { destruct (nat64Present s); [by apply Hp|done]. }
  by rewrite take_app_length, drop_app_length.
Qed.
(** The address of a destination is the address of its answers. *)
Lemma source_destination s a : NetworkAddress.wf a → (nat64Present s = true → length (nat64Prefix s) = 12%nat) →
  (∀ l, a = NetworkAddress.IPv6 l → take 12 l ≠ mapped ∧ (nat64Present s = true → take 12 l ≠ nat64Prefix s)) →
  source s (destination s a) = a.
Proof.
  intros Hwf Hp H6. destruct a as [x|l]; unfold source.
  - destruct (take_destination s x Hp) as [-> ->]. rewrite le_val_le_bytes. cbn [NetworkAddress.wf] in Hwf.
    rewrite Z.mod_small by done. destruct (nat64Present s).
    { rewrite (bool_decide_eq_true_2 (nat64Prefix s = nat64Prefix s)) by done. by destruct (bool_decide (nat64Prefix s = mapped)). }
    by rewrite bool_decide_eq_true_2.
  - destruct (H6 l eq_refl) as [Hm Hn]. cbn [destination]. rewrite (bool_decide_eq_false_2 (take 12 l = _)) by done.
    destruct (nat64Present s); [|done]. rewrite bool_decide_eq_false_2; [done|]. intros E. by apply Hn.
Qed.

(** A prefix has twelve octets. *)
Definition prefix_ok (s : t) : Prop := nat64Present s = true → length (nat64Prefix s) = 12%nat.
(** Neither a mapped address nor one of the NAT64. *)
Definition native (s : t) (l : bytes) : Prop := take 12 l ≠ mapped ∧ (nat64Present s = true → take 12 l ≠ nat64Prefix s).

Lemma find_prefix_length l p : Forall (λ a, length a = 16%nat) l → find_prefix l = Some p → length p = 12%nat.
Proof.
  unfold find_prefix. intros Hl E. destruct (List.find (ends_with [192; 0; 0; 170]) l) as [a|] eqn:Ea; [|done].
  destruct (List.find (ends_with [192; 0; 0; 171]) l); [|done]. case_bool_decide; [|done]. injection E as <-.
  apply List.find_some in Ea as [Ha _]. rewrite Forall_forall in Hl. rewrite length_take, (Hl a); [done|by apply list_elem_of_In].
Qed.
Lemma wp_GetCurrentTime s (Q : double → t → Prop) T D : Q (clock (ticks s)) (s <| ticks ::= S |>) → wp GetCurrentTime s Q T D.
Proof. intros HQ. unfold GetCurrentTime. by apply wp_bind, wp_get, wp_bind, wp_modify, wp_ret. Qed.

(** What [update_prefix] leaves alone. *)
Record same_socket (s s' : t) : Prop := {
  ss_protocol : protocol s' = protocol s;
  ss_failed : failed s' = failed s;
  ss_pending : pendingOutgoingPacket s' = pendingOutgoingPacket s;
  ss_ready : readyToSend s' = readyToSend s;
  ss_log : log s' = log s;
}.
Lemma wp_update_prefix resolved s : Forall (λ a, length a = 16%nat) (default [] resolved) → prefix_ok s →
  wp (update_prefix resolved) s (λ _ s', same_socket s s' ∧ prefix_ok s') (λ _ _, False) (λ _, False).
Proof.
  intros Hr Hp. unfold update_prefix. apply wp_bind, wp_get. destruct (_ && _); [|by apply wp_ret].
  apply wp_bind, wp_GetCurrentTime. destruct (_ && _); [|by apply wp_ret]. apply wp_bind, wp_modify, wp_bind.
  destruct (resolved ≫= find_prefix) as [p|] eqn:E.
  - apply wp_modify, wp_modify. split; [by split|]. intros _. cbn. destruct resolved as [l|]; [|done]. by eapply find_prefix_length.
  - by apply wp_ret, wp_modify.
Qed.
Lemma wp_after_send_whole p a s (Q : unit → t → Prop) T D : 0 < res a → res a = zlen (data p) → Q tt s → wp (after_send p a) s Q T D.
Proof.
  intros H0 Hr HQ. unfold after_send. destruct (Z.leb_spec (res a) 0); [lia|]. rewrite Hr, Z.eqb_refl. by apply wp_ret.
Qed.

End datagrams.

(* ------------------------------------------------------------------ *)
(** ** The bytes of a connection *)

Section connection.
Context {CK : Clock} {SC : ServerConfig}.
Import Socks Posix.

(** The bytes the kernel took. *)
Fixpoint taken (l : list given) : bytes :=
  match l with
  | [] => []
  | Bytes d :: l' => taken l' ++ d
  | _ :: l' => taken l'
  end.
(** What is done with a socket: a packet is written when it is ready, as
    every caller tests, or [select] reports that it can be written to. *)
Inductive tcp_op := Write (l : bytes) (a : answer) | Writable (a : answer).
Definition tcp_step (o : tcp_op) : M t unit :=
  match o with
  | Write l a => s ← get; if readyToSend s then SendBuffer l a else mret tt
  | Writable a => _ ← OnReadyToSend a; mret tt
  end.
Definition asked (s : t) (o : tcp_op) : bytes := match o with Write l _ => if readyToSend s then l else [] | Writable _ => [] end.
(** The kernel takes what it is given as a whole, or nothing for now. *)
Definition whole (n : Z) (a : answer) : Prop := 0 < n ∧ res a = n ∨ res a ≤ 0 ∧ errno a = EAGAIN.
Definition taken_whole (s : t) (o : tcp_op) : Prop :=
  match o with
  | Write l a => whole (zlen l) a
  | Writable a => match pendingOutgoingPacket s with Some l => whole (zlen l) a | None => True end
  end.

(** A connection from its start, with all that was written. *)
Inductive session : t → bytes → Prop :=
| session_start s : protocol s = PROTO_TCP → pendingOutgoingPacket s = None → log s = [] → session s []
| session_step s l o s' : session s l → taken_whole s o → tcp_step o s = Ret tt s' → session s' (l ++ asked s o).

Record session_ok (s : t) (l : bytes) : Prop := {
  so_tcp : protocol s = PROTO_TCP;
  so_pending : is_Some (pendingOutgoingPacket s) → readyToSend s = false;
  so_bytes : failed s = true ∨ taken (log s) ++ default [] (pendingOutgoingPacket s) = l;
}.

Lemma wp_SendBuffer l a s (Q : unit → t → Prop) T D : protocol s = PROTO_TCP → whole (zlen l) a →
  Q tt (s <| log ::= cons (Bytes l) |>) → wp (keep_pending l) s Q T D → wp (SendBuffer l a) s Q T D.
Proof.
  intros Ht Hw H1 H2. unfold SendBuffer, Send. apply wp_bind, wp_get. rewrite Ht. apply wp_bind.
  destruct Hw as [[H0 Hr]|[H0 He]].
  - destruct (Z.ltb_spec 0 (res a)); [|lia]. rewrite Hr. unfold zlen at 1. rewrite Nat2Z.id. cbn [data buffer_packet]. rewrite firstn_all.
    apply wp_modify, wp_after_send_whole; [lia|done|exact H1].
  - destruct (Z.ltb_spec 0 (res a)); [lia|]. apply wp_ret. unfold after_send. destruct (Z.leb_spec (res a) 0); [|lia]. by rewrite He.
Qed.
Lemma wp_keep_pending l s (Q : unit → t → Prop) T D :
  Q tt (match pendingOutgoingPacket s with
        | Some _ => s <| failed := true |>
        | None => s <| pendingOutgoingPacket := Some l |> <| readyToSend := false |>
        end) → wp (keep_pending l) s Q T D.
Proof. intros HQ. unfold keep_pending. apply wp_bind, wp_get. by destruct (pendingOutgoingPacket s); apply wp_modify. Qed.
Lemma wp_tcp_step o s l : taken_whole s o → session_ok s l →
  wp (tcp_step o) s (λ _ s', session_ok s' (l ++ asked s o)) (λ _ _, False) (λ _, False).
Proof.
  intros Hw [Ht Hp Hb]. destruct o as [d a|a]; cbn [tcp_step asked taken_whole] in *.
  - apply wp_bind, wp_get. destruct (readyToSend s) eqn:Er; [|apply wp_ret; rewrite app_nil_r; by split].
    assert (pendingOutgoingPacket s = None) as Hn.
    { destruct (pendingOutgoingPacket s) as [q|]; [|done]. by specialize (Hp (mk_is_Some _ q eq_refl)). }
    rewrite Hn in Hb. cbn in Hb. rewrite app_nil_r in Hb.
    apply wp_SendBuffer; [done..| |apply wp_keep_pending; rewrite Hn]; split; cbn; try done.
    + by rewrite Hn; intros [].
    + destruct Hb as [Hb| <-]; [by left|right]. by rewrite Hn; cbn; rewrite app_nil_r.
    + destruct Hb as [Hb| <-]; [by left|by right].
  - rewrite app_nil_r. apply wp_bind. unfold OnReadyToSend. apply wp_bind, wp_get. destruct (pendingOutgoingPacket s) as [d|] eqn:En.
    + apply wp_bind, wp_SendBuffer; [done..| |apply wp_keep_pending; rewrite En]; apply wp_bind, wp_modify, wp_ret, wp_ret; split; cbn; try done.
      * destruct Hb as [Hb| <-]; [by left|right]. by rewrite app_nil_r.
      * by left.
    + apply wp_bind, wp_modify, wp_ret, wp_ret. split; cbn; [done|by rewrite En; intros []|by rewrite En].
Qed.


(** When the kernel takes a part of it, the rest is nowhere: the packets of
    [NetworkSocket::Send(buffer, len)] do not say that they are for TCP. *)
Theorem rest_of_a_packet_is_lost l a s : protocol s = PROTO_TCP → 0 < res a < zlen l →
  SendBuffer l a s = Ret tt (s <| log ::= cons (Bytes (take (Z.to_nat (res a)) l)) |>).
Proof.
  intros Ht Hr. unfold SendBuffer, Send, mbind, M_bind, get. rewrite Ht. cbn [address buffer_packet data].
  destruct (Z.ltb_spec 0 (res a)); [|lia]. cbn. unfold after_send. destruct (Z.leb_spec (res a) 0); [lia|]. by rewrite andb_false_r.
Qed.
(** A datagram the kernel did not take at once is kept without its address
    and dropped when it could be sent. *)
Theorem blocked_datagram_is_lost p addr resolved a a' s : protocol s = PROTO_UDP → address p = Some addr → pendingOutgoingPacket s = None →
  prefix_ok s → Forall (λ a, length a = 16%nat) (default [] resolved) → res a ≤ 0 → errno a = EAGAIN →
  ∃ s', (Send p resolved a;; OnReadyToSend a') s = Ret false s' ∧ log s' = log s ∧ pendingOutgoingPacket s' = None ∧ readyToSend s' = false.
Proof.
  intros Hu Ha Hp Hpre Hres H0 He.
  enough (wp (Send p resolved a;; OnReadyToSend a') s (λ b s', b = false ∧ log s' = log s ∧ pendingOutgoingPacket s' = None ∧ readyToSend s' = false)
    (λ _ _, False) (λ _, False)) as Hw.
  { unfold wp in Hw. destruct ((Send p resolved a;; OnReadyToSend a') s) as [b s'| |]; [|done..]. destruct Hw as (-> & ?). by exists s'. }
  apply wp_bind. unfold Send. apply wp_bind, wp_get. rewrite Hu, Ha. apply wp_bind.
  apply wp_mono with (Q' := λ _ s', same_socket s s').
  { destruct addr; [|by apply wp_ret]. eapply wp_mono; [by apply wp_update_prefix|]. by intros [] s1 []. }
  intros [] s1 [Hu1 _ Hp1 _ Hl1]. apply wp_bind, wp_get, wp_bind. destruct (Z.ltb_spec 0 (res a)); [lia|]. apply wp_ret.
  unfold after_send. destruct (Z.leb_spec (res a) 0); [|lia]. rewrite He. unfold keep_pending. apply wp_bind, wp_get. rewrite Hp1, Hp. apply wp_modify.
  unfold OnReadyToSend. apply wp_bind, wp_get. cbn. apply wp_bind, wp_bind, wp_get. cbn. rewrite Hu1, Hu. by apply wp_ret, wp_bind, wp_modify, wp_ret.
Qed.
(** A connection that fails at once leaves its descriptor in the object,
    whose destructor closes it a second time. *)
Theorem failed_connect_closes_twice s a port sock : 0 ≤ sock →
  ∃ s', (Connect (Some a) port sock false;; dtor) s = Ret tt s' ∧ log s' = Closed sock :: Closed sock :: log s.
Proof.
  intros H0. unfold Connect, dtor, Close, fail, give, modify, mbind, M_bind, get. cbn. destruct (Z.ltb_spec sock 0); [lia|]. cbn.
  rewrite (proj2 (Z.leb_le 0 sock) H0). cbn. rewrite (proj2 (Z.leb_le 0 sock) H0). by eexists.
Qed.
Lemma GenerateLocalPort_range rnd : 16384 ≤ GenerateLocalPort rnd < 32768.
Proof. unfold GenerateLocalPort. change (32768 - 16384) with 16384. pose proof (Z.mod_pos_bound rnd 16384 ltac:(lia)). lia. Qed.
End connection.

(* ------------------------------------------------------------------ *)
(** ** Examples *)

Section example.
#[local] Existing Instance stopped.
#[local] Instance example_settings : ServerConfig := { GetInt _ d := d; GetDouble _ d := d; GetBoolean _ d := d }.
Import Socks Posix.

(** A network with NAT64: a packet for 192.0.2.1 goes to 64:ff9b::192.0.2.1. *)
Definition nat64_addresses : list bytes :=
  [[0; 100; 255; 155; 0; 0; 0; 0; 0; 0; 0; 0; 192; 0; 0; 171]; [0; 100; 255; 155; 0; 0; 0; 0; 0; 0; 0; 0; 192; 0; 0; 170]].
Definition switching : t := ctor PROTO_UDP D.zero [] <| switchToV6at := D.div (D.of_Z 1) (D.of_Z 2) |>.
Definition hello : packet := mkpacket [1; 2; 3] (Some (NetworkAddress.IPv4 (le_val [192; 0; 2; 1]))) 7 PROTO_UDP.
Example sent_through_nat64 :
  (log <$> match Send hello (Some nat64_addresses) (mkanswer 3 EOTHER) switching with Ret _ s => Some s | _ => None end) =
  Some [Datagram [0; 100; 255; 155; 0; 0; 0; 0; 0; 0; 0; 0; 192; 0; 2; 1] 7 [1; 2; 3]].
Proof. by vm_compute. Qed.

(** The first packet must wait, the second one is written after it. *)
Definition connected : t := ctor PROTO_TCP D.zero [] <| readyToSend := true |>.
Definition ex_ops : list tcp_op :=
  [Write [1; 2] (mkanswer (-1) EAGAIN); Writable (mkanswer 2 EOTHER); Writable (mkanswer 0 EOTHER); Write [3] (mkanswer 1 EOTHER)].
Definition after (n : nat) : t :=
  foldl (λ s o, match tcp_step o s with Ret _ s' => s' | _ => s end) connected (take n ex_ops).
Lemma ex_session : session (after 4) [1; 2; 3].
Proof.
  assert (session (after 1) [1; 2]) as H1.
  { apply (session_step connected [] (Write [1; 2] (mkanswer (-1) EAGAIN))); [by constructor|by right|done]. }
  assert (session (after 2) [1; 2]) as H2.
  { apply (session_step (after 1) [1; 2] (Writable (mkanswer 2 EOTHER))); [done|by left|done]. }
  assert (session (after 3) [1; 2]) as H3.
  { by apply (session_step (after 2) [1; 2] (Writable (mkanswer 0 EOTHER))). }
  apply (session_step (after 3) [1; 2] (Write [3] (mkanswer 1 EOTHER))); [done|by left|done].
Qed.
End example.
