(* ===== verification/Selecting.v ===== *)
(** * libtgvoip/os/posix/NetworkSocketPosix.cpp: waiting for sockets

    [NetworkSocketPosix::Select] with the sockets as objects on a heap; what
    it asks of a socket is the class [Socket], which [Posix.t] implements.
    The kernel's [select] is a function from the sets it is given to the
    sets it returns. *)

From Stdlib Require Import ZArith Lia SpecFloat List.
From stdpp Require Import base tactics list numbers option gmap strings.
From S2P Require Import Prelude Words Double Streams Net Socks Endpoints Posix.
From stdpp Require Import list.
Open Scope Z_scope.

(** The virtual methods and members of a [NetworkSocket] that [Select]
    uses; [descriptor] is [GetDescriptorFromSocket], 0 where there is none. *)
Class Socket (T : Type) := {
  descriptor : T → Z;
  IsFailed : T → bool;
  timeout : T → double;
  lastSuccessfulOperationTime : T → double;
  set_failed : T → T;
  set_time : double → T → T;
  OnReadyToReceive : M T bool;
  OnReadyToSend : M T bool;
}.
(** A socket that was marked stays so, and none of this changes the
    descriptor. *)
Definition stays {T} `{Socket T} (x x' : T) : Prop := descriptor x' = descriptor x ∧ (IsFailed x = true → IsFailed x' = true).
Class SocketLaws (T : Type) `{Socket T} : Prop := {
  set_failed_stays x : stays x (set_failed x);
  set_failed_failed x : IsFailed (set_failed x) = true;
  set_time_stays d x : stays x (set_time d x);
  receive_stays x : wp OnReadyToReceive x (λ _, stays x) (λ _ _, False) (λ _, False);
  send_stays x : wp OnReadyToSend x (λ _, stays x) (λ _ _, False) (λ _, False);
}.

(** The three [fd_set]s. *)
Record fds := mkfds { readSet : gset Z; writeSet : gset Z; errorSet : gset Z }.
Class Kernel := select : fds → fds.
(** It leaves in a set what was in it. *)
Class KernelLaws `{Kernel} : Prop := {
  select_read k : readSet (select k) ⊆ readSet k;
  select_write k : writeSet (select k) ⊆ writeSet k;
  select_error k : errorSet (select k) ⊆ errorSet k;
}.

Module Selecting.
Record t (T : Type) := mk { sockets : gmap Z T; ticks : nat }.
Arguments mk {T}.
Arguments sockets {T}.
Arguments ticks {T}.
#[global] Instance selecting_eta {T} : Eta (t T) := λ s, mk (sockets s) (ticks s).

Section ops.
Context {T : Type} `{Socket T, Clock, Kernel}.

Definition GetCurrentTime : M (t T) double := s ← get; modify (λ s, s <| ticks ::= S |>);; mret (clock (ticks s)).
(** A call of a method of the socket at [p]. *)
Definition socket_at (p : Z) : M (t T) T := s ← get; defined (sockets s !! p).
Definition on_socket {A} (p : Z) (m : M T A) : M (t T) A :=
  x ← socket_at p;
  zoom (λ _, x) (λ x' s, s <| sockets ::= <[p := x']> |>) m.

(** [FD_SETSIZE] is 1024; another index is outside the array. *)
Definition FD_SET (fd : Z) (l : gset Z) : M (t T) (gset Z) :=
  if (0 <=? fd) && (fd <? 1024) then mret ({[fd]} ∪ l) else crash_with UndefinedBehaviour.
Definition FD_ISSET (fd : Z) (l : gset Z) : M (t T) bool :=
  if (0 <=? fd) && (fd <? 1024) then mret (bool_decide (fd ∈ l)) else crash_with UndefinedBehaviour.

(** The sockets to read from and to write to. *)
Fixpoint add_fds (l : list Z) (set : gset Z) : M (t T) (gset Z) :=
  match l with
  | [] => mret set
  | p :: l' =>
      x ← socket_at p;
      if descriptor x =? 0 then add_fds l' set
      else set ← FD_SET (descriptor x) set; add_fds l' set
  end.
(** A socket that did nothing for longer than its timeout has failed. *)
Definition expire (p : Z) (x : T) : M (t T) unit :=
  if D.gtb (timeout x) D.zero then
    now ← GetCurrentTime;
    if D.gtb (D.sub now (lastSuccessfulOperationTime x)) (timeout x) then on_socket p (modify set_failed) else mret tt
  else mret tt.
(** The sockets whose errors are reported; has one of them failed? *)
Fixpoint add_errors (l : list Z) (set : gset Z) (anyFailed : bool) : M (t T) (gset Z * bool) :=
  match l with
  | [] => mret (set, anyFailed)
  | p :: l' =>
      x ← socket_at p;
      if descriptor x =? 0 then add_errors l' set anyFailed
      else
        expire p x;;
        x ← socket_at p;
        set ← FD_SET (descriptor x) set;
        add_errors l' set (anyFailed || IsFailed x)
  end.

(** What stays in each list. *)
Fixpoint keep_readable (l : list Z) (set : gset Z) : M (t T) (list Z) :=
  match l with
  | [] => mret []
  | p :: l' =>
      x ← socket_at p;
      b ← FD_ISSET (descriptor x) set;
      (if b : bool then now ← GetCurrentTime; on_socket p (modify (set_time now)) else mret tt);;
      keep ← (if (descriptor x =? 0) || negb b then mret false else on_socket p OnReadyToReceive);
      r ← keep_readable l' set;
      mret (if keep : bool then p :: r else r)
  end.
Fixpoint keep_writable (l : list Z) (set : gset Z) : M (t T) (list Z) :=
  match l with
  | [] => mret []
  | p :: l' =>
      x ← socket_at p;
      b ← (if descriptor x =? 0 then mret false else FD_ISSET (descriptor x) set);
      keep ← (if b : bool then
                now ← GetCurrentTime;
                on_socket p (modify (set_time now));;
                on_socket p OnReadyToSend
              else mret false);
      r ← keep_writable l' set;
      mret (if keep : bool then p :: r else r)
  end.
Fixpoint keep_failed (l : list Z) (set : gset Z) : M (t T) (list Z) :=
  match l with
  | [] => mret []
  | p :: l' =>
      x ← socket_at p;
      b ← (if descriptor x =? 0 then mret false else FD_ISSET (descriptor x) set);
      r ← keep_failed l' set;
      mret (if b || IsFailed x then p :: r else r)
  end.
Definition any (l : list Z) : bool := match l with [] => false | _ => true end.

(** [Select(readFds, writeFds, errorFds, canceller)]: the lists it leaves
    and what it returns; [pipe] is the canceller's descriptor. *)
Definition Select (pipe : option Z) (readFds writeFds errorFds : list Z) : M (t T) (list Z * list Z * list Z * bool) :=
  reads ← (match pipe with Some fd => FD_SET fd ∅ | None => mret ∅ end);
  reads ← add_fds readFds reads;
  writes ← add_fds writeFds ∅;
  '(errors, anyFailed) ← add_errors errorFds ∅ false;
  let k := select (mkfds reads writes errors) in
  cancelled ← (match pipe with Some fd => FD_ISSET fd (readSet k) | None => mret false end);
  if cancelled && negb anyFailed then mret (readFds, writeFds, errorFds, false)
  else
    r ← keep_readable readFds (if anyFailed then ∅ else readSet k);
    w ← keep_writable writeFds (if anyFailed then ∅ else writeSet k);
    e ← keep_failed errorFds (errorSet k);
    mret (r, w, e, any r || any e || any w).
End ops.
End Selecting.

(* ------------------------------------------------------------------ *)
(** ** What is reported *)

Section reports.
Context {T : Type} {SO : Socket T} {SL : SocketLaws T} {CK : Clock} {KN : Kernel} {KL : KernelLaws}.
Import Selecting.
#[local] Abbreviation W := (Selecting.t T).
#[local] Abbreviation none := (λ (_ : exn) (_ : W), False).
#[local] Abbreviation never := (λ _ : crash, False).

(** The sockets of a list exist and are open, with descriptors that fit in a
    set. *)
Definition open_at (s : W) (p : Z) : Prop := ∃ x, sockets s !! p = Some x ∧ 0 < descriptor x < 1024.
Definition fd_of (s : W) (p : Z) : Z := from_option descriptor 0 (sockets s !! p).
Definition failed_at (s : W) (p : Z) : Prop := ∃ x, sockets s !! p = Some x ∧ IsFailed x = true.
(** How the heap can change. *)
Definition moves (s s' : W) : Prop := ∀ p x, sockets s !! p = Some x → ∃ x', sockets s' !! p = Some x' ∧ stays x x'.

Lemma moves_refl s : moves s s.
Proof. intros p x Hx. by exists x. Qed.
Lemma moves_same s s' : sockets s' = sockets s → moves s s'.
Proof. intros E p x Hx. exists x. by rewrite E. Qed.
Lemma moves_trans s s' s'' : moves s s' → moves s' s'' → moves s s''.
Proof.
  intros H1 H2 p x Hx. destruct (H1 p x Hx) as (x' & Hx' & Hd & Hf). destruct (H2 p x' Hx') as (x'' & Hx'' & Hd' & Hf').
  exists x''. split; [done|]. split; [congruence|auto].
Qed.
Lemma moves_set s p x x' : sockets s !! p = Some x → stays x x' → moves s (s <| sockets ::= <[p := x']> |>).
Proof.
  intros Hx Hs q y Hy. cbn. destruct (decide (q = p)) as [->|Hne].
  - rewrite lookup_insert_eq. exists x'. split; [done|]. by simplify_eq.
  - rewrite lookup_insert_ne by done. by exists y.
Qed.
Lemma moves_fd s s' p : moves s s' → open_at s p → fd_of s' p = fd_of s p.
Proof. intros Hm (x & Hx & _). destruct (Hm p x Hx) as (x' & Hx' & Hd & _). unfold fd_of. by rewrite Hx, Hx'. Qed.
Lemma moves_open s s' p : moves s s' → open_at s p → open_at s' p.
Proof. intros Hm (x & Hx & Hr). destruct (Hm p x Hx) as (x' & Hx' & Hd & _). exists x'. by rewrite Hd. Qed.
Lemma moves_failed s s' p : moves s s' → failed_at s p → failed_at s' p.
Proof. intros Hm (x & Hx & Hf). destruct (Hm p x Hx) as (x' & Hx' & _ & Hf'). exists x'. auto. Qed.
Lemma moves_all s s' l : moves s s' → Forall (open_at s) l → Forall (open_at s') l.
Proof. intros Hm Hl. eapply Forall_impl; [exact Hl|]. intros p. by apply moves_open. Qed.

Lemma wp_pointer p s (Q : T → W → Prop) : open_at s p →
  (∀ x, sockets s !! p = Some x → 0 < descriptor x < 1024 → descriptor x = fd_of s p → Q x s) → wp (socket_at p) s Q none never.
Proof.
  intros (x & Hx & Hr) HQ. unfold socket_at. apply wp_bind, wp_get. eapply wp_defined; [exact Hx|].
  apply HQ; [done..|]. unfold fd_of. by rewrite Hx.
Qed.
Lemma wp_on_socket {A} p x (m : M T A) s (Q : A → W → Prop) : sockets s !! p = Some x →
  wp m x (λ a x', Q a (s <| sockets ::= <[p := x']> |>)) (λ _ _, False) never → wp (on_socket p m) s Q none never.
Proof. intros Hx Hm. unfold on_socket, socket_at. apply wp_bind, wp_bind, wp_get. eapply wp_defined; [exact Hx|]. by apply wp_zoom. Qed.
Lemma wp_tick s (Q : double → W → Prop) : (∀ now s', sockets s' = sockets s → Q now s') → wp GetCurrentTime s Q none never.
Proof. intros HQ. unfold GetCurrentTime. by apply wp_bind, wp_get, wp_bind, wp_modify, wp_ret, HQ. Qed.
(** The clock is read and a method of a socket that changes nothing else. *)
Lemma wp_time_then {A} s x p (m : double → M T A) : sockets s !! p = Some x →
  (∀ now, wp (m now) x (λ _, stays x) (λ _ _, False) never) → wp (now ← GetCurrentTime; on_socket p (m now)) s (λ _ s', moves s s') none never.
Proof.
  intros Hx Hm. apply wp_bind, wp_tick. intros now s1 E. eapply (wp_on_socket p x); [by rewrite E|]. eapply wp_mono; [apply Hm|].
  intros a x' Hs. eapply moves_trans; [by apply moves_same|]. apply (moves_set s1 p x); [by rewrite E|done].
Qed.
Lemma wp_FD_SET fd l s (Q : gset Z → W → Prop) : 0 < fd < 1024 → Q ({[fd]} ∪ l) s → wp (FD_SET fd l) s Q none never.
Proof.
  intros Hr HQ. unfold FD_SET. destruct (Z.leb_spec 0 fd); [|lia]. destruct (Z.ltb_spec fd 1024); [|lia]. by apply wp_ret.
Qed.
Lemma wp_FD_ISSET fd l s (Q : bool → W → Prop) : 0 < fd < 1024 → Q (bool_decide (fd ∈ l)) s → wp (FD_ISSET fd l) s Q none never.
Proof.
  intros Hr HQ. unfold FD_ISSET. destruct (Z.leb_spec 0 fd); [|lia]. destruct (Z.ltb_spec fd 1024); [|lia]. by apply wp_ret.
Qed.

Lemma wp_add_fds l set s : Forall (open_at s) l →
  wp (add_fds l set) s (λ r s', s' = s ∧ ∀ fd, fd ∈ r → fd ∈ set ∨ fd ∈ (fd_of s <$> l)) none never.
Proof.
  revert set. induction l as [|p l IH]; intros set Hl; cbn [add_fds]; [apply wp_ret; split; [done|by left]|].
  apply Forall_cons in Hl as [Hp Hl]. apply wp_bind, wp_pointer; [done|]. intros x Hx Hr Hfd.
  destruct (Z.eqb_spec (descriptor x) 0); [lia|]. apply wp_bind, wp_FD_SET; [done|].
  eapply wp_mono; [by apply IH|]. intros r s' [-> Hin]. split; [done|]. intros fd [Hs|Hs]%Hin.
  - apply elem_of_union in Hs as [->%elem_of_singleton|Hs]; [|by left]. right. rewrite Hfd. by left.
  - right. by right.
Qed.
Lemma wp_expire p x s : sockets s !! p = Some x → wp (expire p x) s (λ _ s', moves s s') none never.
Proof.
  intros Hx. unfold expire. destruct (D.gtb _ _); [|by apply wp_ret, moves_refl]. apply wp_bind, wp_tick. intros now s1 E.
  destruct (D.gtb _ _); [|by apply wp_ret, moves_same]. eapply (wp_on_socket p x); [by rewrite E|]. apply wp_modify.
  eapply moves_trans; [by apply moves_same|]. apply (moves_set s1 p x); [by rewrite E|apply set_failed_stays].
Qed.
Lemma wp_add_errors l set a s : Forall (open_at s) l →
  wp (add_errors l set a) s (λ '(_, b) s', moves s s' ∧ (a = true → b = true) ∧ (∀ p, p ∈ l → failed_at s p → b = true) ∧
    (b = true → a = true ∨ ∃ p, p ∈ l ∧ failed_at s' p)) none never.
Proof.
  revert set a s. induction l as [|p l IH]; intros set a s Hl; cbn [add_errors].
  { apply wp_ret. split; [by apply moves_refl|]. split; [done|]. split; [by intros p ?%not_elem_of_nil|by left]. }
  apply Forall_cons in Hl as [Hp Hl]. apply wp_bind, wp_pointer; [done|]. intros x Hx Hr Hfd.
  destruct (Z.eqb_spec (descriptor x) 0); [lia|]. apply wp_bind. eapply wp_mono; [by apply wp_expire|]. intros [] s1 H1.
  apply wp_bind, wp_pointer; [by eapply moves_open|]. intros x1 Hx1 Hr1 _. apply wp_bind, wp_FD_SET; [done|].
  eapply wp_mono; [apply IH; by eapply moves_all|]. intros [r b] s2 (H2 & Ha & Hall & Hb).
  split; [by eapply moves_trans|]. split; [intros ->; by apply Ha|]. split.
  - intros q Hq Hf. apply (moves_failed _ s1) in Hf; [|done]. apply elem_of_cons in Hq as [->|Hq]; [|by eapply Hall].
    apply Ha. destruct Hf as (y & Hy & Hfy). simplify_eq. by rewrite Hfy, orb_true_r.
  - intros [Hor|(q & Hq & Hf)]%Hb; [|right; exists q; split; [by right|done]].
    apply orb_true_iff in Hor as [->|Hf]; [by left|]. right. exists p. split; [by left|]. eapply moves_failed; [exact H2|]. by exists x1.
Qed.

(** The two steps for a socket that the kernel named. *)
Lemma wp_now p s : open_at s p → wp (now ← GetCurrentTime; on_socket p (modify (set_time now))) s (λ _ s', moves s s') none never.
Proof. intros (x & Hx & _). eapply wp_time_then; [exact Hx|]. intros now. apply wp_modify, set_time_stays. Qed.
Lemma wp_ask p (m : M T bool) s : (∀ x, wp m x (λ _, stays x) (λ _ _, False) never) → open_at s p → wp (on_socket p m) s (λ _ s', moves s s') none never.
Proof.
  intros Hm (x & Hx & _). eapply wp_on_socket; [exact Hx|]. eapply wp_mono; [apply Hm|]. intros k x' Hs. by eapply moves_set.
Qed.

(** A socket stays in a list only if the kernel named it. *)
Definition kept s (l : list Z) (set : gset Z) (r : list Z) s' : Prop :=
  moves s s' ∧ r `sublist_of` l ∧ ∀ p, p ∈ r → fd_of s p ∈ set.
Lemma kept_nil s set : kept s [] set [] s.
Proof. split; [apply moves_refl|]. split; [done|]. by intros p ?%not_elem_of_nil. Qed.
Lemma kept_cons s p l set s2 r s3 (keep : bool) : Forall (open_at s) l → moves s s2 → (keep = true → fd_of s p ∈ set) → kept s2 l set r s3 →
  kept s (p :: l) set (if keep then p :: r else r) s3.
Proof.
  intros Hl H02 Hk (H3 & Hsub & Hin). split; [by eapply moves_trans|]. assert (∀ q, q ∈ r → fd_of s q ∈ set) as Hr.
  { intros q Hq. rewrite <- (moves_fd s s2 q H02); [by apply Hin|]. rewrite Forall_forall in Hl. apply Hl. by eapply elem_of_sublist. }
  destruct keep; [|split; [by apply sublist_cons|done]]. split; [by apply sublist_skip|]. intros q [->|Hq]%elem_of_cons; auto.
Qed.
Lemma wp_keep_readable l set s : Forall (open_at s) l → wp (keep_readable l set) s (kept s l set) none never.
Proof.
  revert s. induction l as [|p l IH]; intros s Hl; cbn [keep_readable]; [by apply wp_ret, kept_nil|].
  apply Forall_cons in Hl as [Hp Hl]. apply wp_bind, wp_pointer; [done|]. intros x Hx Hr Hfd. apply wp_bind, wp_FD_ISSET; [done|].
  rewrite Hfd. apply wp_bind. apply wp_mono with (Q' := λ _ s1, moves s s1).
  { case_bool_decide; [by apply wp_now|apply wp_ret, moves_refl]. }
  intros [] s1 H1. apply wp_bind. apply wp_mono with (Q' := λ keep s2, moves s s2 ∧ (keep = true → fd_of s p ∈ set)).
  { rewrite <- Hfd. destruct (Z.eqb_spec (descriptor x) 0); [lia|]. rewrite Hfd. case_bool_decide; cbn; [|done].
    eapply wp_mono; [apply wp_ask; [apply receive_stays|by eapply moves_open]|]. intros k s2 H2. split; [by eapply moves_trans|done]. }
  intros keep s2 [H2 Hk]. apply wp_bind. eapply wp_mono; [apply IH; by eapply moves_all|]. intros r s3 H3. apply wp_ret. by eapply kept_cons.
Qed.
Lemma wp_keep_writable l set s : Forall (open_at s) l → wp (keep_writable l set) s (kept s l set) none never.
Proof.
  revert s. induction l as [|p l IH]; intros s Hl; cbn [keep_writable]; [by apply wp_ret, kept_nil|].
  apply Forall_cons in Hl as [Hp Hl]. apply wp_bind, wp_pointer; [done|]. intros x Hx Hr Hfd.
  destruct (Z.eqb_spec (descriptor x) 0); [lia|]. apply wp_bind, wp_FD_ISSET; [done|]. rewrite Hfd.
  apply wp_bind. apply wp_mono with (Q' := λ keep s2, moves s s2 ∧ (keep = true → fd_of s p ∈ set)).
  { case_bool_decide; [|by apply wp_ret; split; [apply moves_refl|]]. unfold wp at 1. rewrite <- bind_assoc. apply wp_bind.
    eapply wp_mono; [by apply wp_now|]. intros [] s1 H1.
    eapply wp_mono; [apply wp_ask; [apply send_stays|by eapply moves_open]|]. intros k s2 H2. split; [by eapply moves_trans|done]. }
  intros keep s2 [H2 Hk]. apply wp_bind. eapply wp_mono; [apply IH; by eapply moves_all|]. intros r s3 H3. apply wp_ret. by eapply kept_cons.
Qed.
Lemma wp_keep_failed l set s : Forall (open_at s) l →
  wp (keep_failed l set) s (λ r s', s' = s ∧ r `sublist_of` l ∧ ∀ p, p ∈ l → p ∈ r ↔ fd_of s p ∈ set ∨ failed_at s p) none never.
Proof.
  induction l as [|p l IH]; intros Hl; cbn [keep_failed].
  { apply wp_ret. split; [done|]. split; [done|]. by intros p ?%not_elem_of_nil. }
  apply Forall_cons in Hl as [Hp Hl]. apply wp_bind, wp_pointer; [done|]. intros x Hx Hr Hfd.
  destruct (Z.eqb_spec (descriptor x) 0); [lia|]. apply wp_bind, wp_FD_ISSET; [done|]. rewrite Hfd. apply wp_bind.
  eapply wp_mono; [by apply IH|]. intros r s' (-> & Hsub & Hin). apply wp_ret. split; [done|].
  assert (bool_decide (fd_of s p ∈ set) || IsFailed x = true ↔ fd_of s p ∈ set ∨ failed_at s p) as Hiff.
  { rewrite orb_true_iff, bool_decide_eq_true. unfold failed_at. rewrite Hx. naive_solver. }
  destruct (_ || _); [split; [by apply sublist_skip|]|split; [by apply sublist_cons|]]; intros q Hq; apply elem_of_cons in Hq.
  - rewrite elem_of_cons. destruct Hq as [->|Hq]; [naive_solver|]. rewrite (Hin q Hq). destruct (decide (q = p)) as [->|]; naive_solver.
  - destruct Hq as [->|Hq]; [|by apply Hin]. split; [|intros Hx'; by apply Hiff in Hx'].
    intros Hpr. apply Hin; [|done]. by eapply elem_of_sublist.
Qed.
Lemma any_false l : any l = false ↔ l = [].
Proof. by destruct l. Qed.

(** What is known after waiting; [k]: what the kernel returned. *)
Definition reported (pipe : Z) (readFds writeFds errorFds : list Z) (s : W) (k : fds) (r w e : list Z) (b : bool) (s' : W) : Prop :=
  moves s s' ∧
  ((∃ p, p ∈ errorFds ∧ failed_at s p) → b = true ∧ r = [] ∧ w = [] ∧ ∀ p, p ∈ errorFds → failed_at s p → p ∈ e) ∧
  (b = true → r `sublist_of` readFds ∧ w `sublist_of` writeFds ∧ e `sublist_of` errorFds ∧
     (∀ p, p ∈ r → fd_of s p ∈ readSet k) ∧ (∀ p, p ∈ w → fd_of s p ∈ writeSet k) ∧
     (∀ p, p ∈ errorFds → p ∈ e ↔ fd_of s p ∈ errorSet k ∨ failed_at s' p)) ∧
  (b = false → r = [] ∧ w = [] ∧ e = [] ∨ pipe ∈ readSet k ∧ r = readFds ∧ w = writeFds ∧ e = errorFds).

End reports.

(* ------------------------------------------------------------------ *)
(** ** The sockets of POSIX *)

(** What the kernel answers when a waiting packet is written. *)
Class Answers := answer_to : Posix.t → Posix.answer.

Section posix.
Context `{Clock, Answers}.

#[global] Instance posix_socket : Socket Posix.t := {
  descriptor := Posix.fd;
  IsFailed := Posix.failed;
  timeout := Posix.timeout;
  lastSuccessfulOperationTime := Posix.lastSuccessfulOperationTime;
  set_failed s := s <| Posix.failed := true |>;
  set_time d s := s <| Posix.lastSuccessfulOperationTime := d |>;
  OnReadyToReceive := mret true;
  OnReadyToSend := s ← get; Posix.OnReadyToSend (answer_to s);
}.

(** An operation of a socket that returns. *)
Definition patient {A} (m : M Posix.t A) : Prop := ∀ x, wp m x (λ _, stays x) (λ _ _, False) (λ _, False).
Lemma patient_bind {A B} (m : M Posix.t A) (f : A → M Posix.t B) : patient m → (∀ a, patient (f a)) → patient (m ≫= f).
Proof.
  intros Hm Hf x. apply wp_bind. eapply wp_mono; [apply Hm|]. intros a x' [Hd Hx]. eapply wp_mono; [apply Hf|].
  intros b x'' [Hd' Hx']. split; [congruence|auto].
Qed.
Lemma patient_ret {A} (a : A) : patient (mret a).
Proof. intros x. by apply wp_ret. Qed.
Lemma patient_get : patient get.
Proof. intros x. by apply wp_get. Qed.
Lemma patient_modify f : (∀ x, stays x (f x)) → patient (modify f).
Proof. intros Hf x. apply wp_modify, Hf. Qed.
#[local] Ltac patient_step :=
  lazymatch goal with
  | |- patient (_ ≫= _) => apply patient_bind; [|intros ?]
  | |- patient (mret _) => apply patient_ret
  | |- patient get => apply patient_get
  | |- patient (modify _) => apply patient_modify; intros ?; by split
  | |- patient (if ?b then _ else _) => destruct b
  | |- patient (match ?x with _ => _ end) => destruct x
  end.

Lemma patient_after_send p a : patient (Posix.after_send p a).
Proof. unfold Posix.after_send, Posix.keep_pending, Posix.GetCurrentTime. repeat patient_step. Qed.
Lemma patient_Send l resolved a : patient (Posix.Send (Posix.buffer_packet l) resolved a).
Proof.
  unfold Posix.Send, Posix.give. cbn [Posix.address Posix.buffer_packet]. repeat first [apply patient_after_send | patient_step].
Qed.
#[global] Instance posix_laws : SocketLaws Posix.t.
Proof.
  split; [by intros x|done|by intros d x|apply patient_ret|]. change (patient (s ← get; Posix.OnReadyToSend (answer_to s))).
  unfold Posix.OnReadyToSend. repeat first [apply patient_Send | patient_step].
Qed.
End posix.

(* ------------------------------------------------------------------ *)
(** ** Example *)

(** Two connections, of which one failed; the kernel says that all can be
    read, and answers everything with success. *)
Section example.
#[local] Existing Instance stopped.
#[local] Instance quiet_kernel : Kernel := λ k, mkfds (readSet k) (writeSet k) ∅.
#[local] Instance quiet_laws : KernelLaws.
Proof. split; cbn; set_solver. Qed.
#[local] Instance taking : Answers := λ _, Posix.mkanswer 1 Posix.EOTHER.
#[local] Instance select_server : ServerConfig := { GetInt _ d := d; GetDouble _ d := d; GetBoolean _ d := d }.

Definition a_socket (fd : Z) : Posix.t := Posix.ctor Socks.PROTO_TCP D.zero [] <| Posix.fd := fd |>.
Definition two_sockets : Selecting.t Posix.t :=
  Selecting.mk {[1 := a_socket 5; 2 := a_socket 6 <| Posix.failed := true |>]} 0.
Example the_failed_one_is_reported :
  match Selecting.Select (Some 4) [1; 2] [2] [1; 2] two_sockets with
  | Ret (r, w, e, b) _ => r = [] ∧ w = [] ∧ e = [2] ∧ b = true
  | _ => False
  end.
Proof. by vm_compute. Qed.
End example.
