(* ===== verification/Controller.v ===== *)
(** * libtgvoip/VoIPController.cpp: the controller of a call

    The state of a call and the functions that change it when a packet is
    received ([ProcessIncomingPacket], [ProcessExtraData]) or the program
    calls: the state machine, the streams, the endpoints, what is sent and
    what is posted to the message thread.

    The parts modelled elsewhere are fields of the state: [Link] (sequence
    numbers), [Wire.config] (encryption), [Endpoints], a [JitterBuffer] or
    [PacketReassembler] for every incoming stream.  The world is a trace of
    [effect]s; what it decides (whether sockets are ready, whether the audio
    devices work) are fields that nothing here changes.  Random bytes and
    the clock are parameters. *)

From Stdlib Require Import ZArith Lia SpecFloat List.
From stdpp Require Import base tactics list numbers option gmap strings.
From S2P Require Import Prelude Words Double History Memory Buffers Streams Seq Congestion Link Net Wire Packet.
From S2P Require Import Jitter Reassembler Endpoints.
From stdpp Require Import list.
Open Scope Z_scope.

(** [crypto.rand_bytes]: the bytes of the [n]-th call. *)
Class Random := random : nat → nat → bytes.

Module Controller.
Import Packet.

Inductive State := STATE_WAIT_INIT | STATE_WAIT_INIT_ACK | STATE_ESTABLISHED | STATE_FAILED | STATE_RECONNECTING.
#[global] Instance state_eq_dec : EqDecision State.
Proof. solve_decision. Defined.

Inductive NetType :=
| NET_TYPE_UNKNOWN | NET_TYPE_GPRS | NET_TYPE_EDGE | NET_TYPE_3G | NET_TYPE_HSPA | NET_TYPE_LTE | NET_TYPE_WIFI
| NET_TYPE_ETHERNET | NET_TYPE_OTHER_HIGH_SPEED | NET_TYPE_OTHER_LOW_SPEED | NET_TYPE_DIALUP | NET_TYPE_OTHER_MOBILE.
#[global] Instance net_eq_dec : EqDecision NetType.
Proof. solve_decision. Defined.
Inductive DataSaving := DATA_SAVING_NEVER | DATA_SAVING_MOBILE | DATA_SAVING_ALWAYS.
#[global] Instance saving_eq_dec : EqDecision DataSaving.
Proof. solve_decision. Defined.
Inductive UdpState := UDP_UNKNOWN | UDP_PING_PENDING | UDP_PING_SENT | UDP_AVAILABLE | UDP_NOT_AVAILABLE | UDP_BAD.
#[global] Instance udp_eq_dec : EqDecision UdpState.
Proof. solve_decision. Defined.

Definition PROTOCOL_VERSION : Z := 9.
Definition MIN_PROTOCOL_VERSION : Z := 3.
Definition STREAM_TYPE_AUDIO : Z := 1.
Definition STREAM_TYPE_VIDEO : Z := 2.
Definition CODEC_OPUS : Z := FOURCC 79 80 85 83.
Definition CODEC_OPUS_OLD : Z := 1.
Definition CODEC_AVC : Z := FOURCC 65 86 67 32.
Definition CODEC_HEVC : Z := FOURCC 72 69 86 67.
Definition CODEC_VP8 : Z := FOURCC 86 80 56 48.

Definition INIT_FLAG_DATA_SAVING_ENABLED : Z := 1.
Definition INIT_FLAG_GROUP_CALLS_SUPPORTED : Z := 2.
Definition INIT_FLAG_VIDEO_SEND_SUPPORTED : Z := 4.
Definition INIT_FLAG_VIDEO_RECV_SUPPORTED : Z := 8.
Definition TGVOIP_PEER_CAP_GROUP_CALLS : Z := 1.
Definition TGVOIP_PEER_CAP_VIDEO_CAPTURE : Z := 2.
Definition TGVOIP_PEER_CAP_VIDEO_DISPLAY : Z := 4.
Definition STREAM_DATA_FLAG_LEN16 : Z := 0x40.
Definition STREAM_DATA_XFLAG_KEYFRAME : Z := Z.shiftl 1 15.
Definition STREAM_DATA_XFLAG_FRAGMENTED : Z := Z.shiftl 1 14.
Definition STREAM_DATA_XFLAG_EXTRA_FEC : Z := Z.shiftl 1 13.
Definition STREAM_FLAG_ENABLED : Z := 1.
Definition STREAM_FLAG_EXTRA_EC : Z := 4.
Definition EXTRA_TYPE_STREAM_FLAGS : Z := 1.
Definition EXTRA_TYPE_STREAM_CSD : Z := 2.
Definition EXTRA_TYPE_LAN_ENDPOINT : Z := 3.
Definition EXTRA_TYPE_NETWORK_CHANGED : Z := 4.
Definition EXTRA_TYPE_GROUP_CALL_KEY : Z := 5.
Definition EXTRA_TYPE_REQUEST_GROUP : Z := 6.
Definition EXTRA_TYPE_IPV6_ENDPOINT : Z := 7.
Definition TLID_UDP_REFLECTOR_PEER_INFO : Z := 0x27D9371C.
Definition TLID_UDP_REFLECTOR_SELF_INFO : Z := 0xc01572c7.

(** [VoIPController::Stream].  The decoder is a part of the audio pipeline:
    here only whether there is one. *)
Record Stream := mkstream {
  s_id : Z; s_type : Z; codec : Z; enabled : bool; extraECEnabled : bool; frameDuration : Z;
  jitterBuffer : option JitterBuffer.t;
  packetReassembler : option PacketReassembler.t;
  decoder : bool;
  codecSpecificData : list bytes; csdIsValid : bool; width : Z; height : Z;
}.
#[global] Instance stream_eta : Eta Stream := λ s,
  mkstream (s_id s) (s_type s) (codec s) (enabled s) (extraECEnabled s) (frameDuration s) (jitterBuffer s)
    (packetReassembler s) (decoder s) (codecSpecificData s) (csdIsValid s) (width s) (height s).

(** [make_shared<Stream>()]. *)
Definition new_stream : Stream := mkstream 0 0 0 false false 0 None None false [] false 0 0.

(** The part of [VoIPController::Config] used. *)
Record Config := mkcfg {
  initTimeout : double; recvTimeout : double; dataSaving : DataSaving;
  enableCallUpgrade : bool; enableVideoSend : bool; enableVideoReceive : bool;
}.
#[global] Instance cfg_eta : Eta Config := λ c,
  mkcfg (initTimeout c) (recvTimeout c) (dataSaving c) (enableCallUpgrade c) (enableVideoSend c) (enableVideoReceive c).

(** The server parameters the constructor reads. *)
Record Limits := mklimits {
  maxAudioBitrate : Z; maxAudioBitrateGPRS : Z; maxAudioBitrateEDGE : Z; maxAudioBitrateSaving : Z;
  initAudioBitrate : Z; initAudioBitrateGPRS : Z; initAudioBitrateEDGE : Z; initAudioBitrateSaving : Z;
  audioBitrateStepIncr : Z; audioBitrateStepDecr : Z; minAudioBitrate : Z;
  relaySwitchThreshold : double; p2pToRelaySwitchThreshold : double; relayToP2pSwitchThreshold : double;
  reconnectingTimeout : double; needRateFlags : Z; rateMaxAcceptableRTT : double;
  rateMaxAcceptableSendLoss : double; packetLossToEnableExtraEC : double; maxUnsentStreamPackets : Z;
}.

(** What the controller sets on the Opus encoder. *)
Record Encoder := mkencoder { bitrate : Z; vadMode : bool; packetLoss : Z; secondary : bool; running : bool }.
#[global] Instance encoder_eta : Eta Encoder := λ e,
  mkencoder (bitrate e) (vadMode e) (packetLoss e) (secondary e) (running e).

(** The audio objects: whether they exist, what the devices answer. *)
Record Audio := mkaudio {
  encoder : option Encoder;
  echoCanceller : bool;
  audioInput : bool;
  audioOutput : bool;
  input_ok : bool;         (** [audioInput->IsInitialized()] *)
  output_ok : bool;        (** [audioOutput->IsInitialized()] *)
  playing : bool;          (** [audioOutput->IsPlaying()] *)
}.
#[global] Instance audio_eta : Eta Audio := λ a,
  mkaudio (encoder a) (echoCanceller a) (audioInput a) (audioOutput a) (input_ok a) (output_ok a) (playing a).

(** The bodies posted to the message thread. *)
Inductive task :=
| ConnectionStateChanged (st : State)
| UpdateRTT_ | UpdateAudioBitrate_ | UpdateCongestion_ | UpdateSignalBars_ | Tick_
| SendNopPacket_ | UpdateQueuedPackets_ | SendInitAgain | ResendPublicEndpointsRequest
| SendUdpPings_ | EvaluateUdpPingResults_ | SendRelayPings_ | InitTimeout
| ResumeSending | EstablishIfWaiting | Establish
| GroupCallKeyReceived | GroupCallKeySent | UpgradeRequested.
#[global] Instance task_eq_dec : EqDecision task.
Proof. solve_decision. Defined.
Record message := mkmessage { m_id : Z; m_task : task; m_delay : double; m_interval : double }.

(** What other objects are told. *)
Inductive effect :=
| Datagram (endpoint : Z) (d : bytes)                               (** a packet, to its endpoint *)
| RawDatagram (to : NetworkAddress.t) (port : Z) (d : bytes)        (** a request to a relay *)
| ConnectSocket (endpoint : Z)
| CancelSelect
| InputStart | InputStop | OutputStart | OutputStop
| EchoCancellerEnable (b : bool) | EchoCancellerVoiceDetection (b : bool)
| DecoderStart (stream : Z)
| VideoFrame (d : PacketReassembler.delivery).

Record Stats := mkstats { bytesSentWifi : Z; bytesSentMobile : Z; bytesRecvdWifi : Z; bytesRecvdMobile : Z }.
#[global] Instance stats_eta : Eta Stats := λ s,
  mkstats (bytesSentWifi s) (bytesSentMobile s) (bytesRecvdWifi s) (bytesRecvdMobile s).

Record t := mk {
  link : Link.t;
  wire : Wire.config;                  (** [waiting] is not used: see [conf] *)
  routes : Endpoints.t;
  audio : Audio;
  config : Config;
  limits : Limits;
  stats : Stats;
  state : State;
  lastError : Error;
  stopping : bool;
  udpReady : bool;                     (** [realUdpSocket->IsReadyToSend()] *)
  stateChangeTime : double;
  lastRecvPacketTime : double;
  networkType : NetType;
  sendQueue : list Link.PendingOutgoingPacket;
  micMuted : bool;
  maxBitrate : Z;
  outgoingStreams : list Stream;
  incomingStreams : list Stream;
  waitingForRelayPeerInfo : bool;
  dataSavingMode : bool;
  dataSavingRequestedByPeer : bool;
  publicEndpointsReqTime : double;
  publicEndpointsReqCount : Z;
  receivedInit : bool;
  receivedInitAck : bool;
  audioStarted : bool;
  audioOutStarted : bool;
  audioTimestampIn : Z;
  udpConnectivityState : UdpState;
  udpPingCount : Z;
  peerCapabilities : Z;
  didReceiveGroupCallKey : bool;
  didReceiveGroupCallKeyAck : bool;
  didSendGroupCallKey : bool;
  didSendUpgradeRequest : bool;
  didInvokeUpgradeCallback : bool;
  lastReceivedExtrasByType : gmap Z Z;
  useIPv6 : bool;
  peerIPv6Available : bool;
  didSendIPv6Endpoint : bool;
  wasEstablished : bool;
  receivedFirstStreamPacket : bool;
  unsentStreamPackets : Z;
  needRate : bool;
  wasNetworkHandover : bool;
  peerVideoDecoders : list Z;
  peerMaxVideoResolution : Z;
  initTimeoutID : Z;
  noStreamsNopID : Z;
  udpPingTimeoutID : Z;
  messages : list message;             (** posted and not yet run or cancelled *)
  lastMessageID : Z;
  draws : nat;                         (** calls of [rand_bytes] so far *)
  trace : list effect;                 (** the last one first *)
}.
#[global] Instance controller_eta : Eta t := λ s,
  mk (link s) (wire s) (routes s) (audio s) (config s) (limits s) (stats s) (state s) (lastError s) (stopping s)
     (udpReady s) (stateChangeTime s) (lastRecvPacketTime s) (networkType s) (sendQueue s) (micMuted s) (maxBitrate s)
     (outgoingStreams s) (incomingStreams s) (waitingForRelayPeerInfo s) (dataSavingMode s) (dataSavingRequestedByPeer s)
     (publicEndpointsReqTime s) (publicEndpointsReqCount s) (receivedInit s) (receivedInitAck s) (audioStarted s)
     (audioOutStarted s) (audioTimestampIn s) (udpConnectivityState s) (udpPingCount s) (peerCapabilities s)
     (didReceiveGroupCallKey s) (didReceiveGroupCallKeyAck s) (didSendGroupCallKey s) (didSendUpgradeRequest s)
     (didInvokeUpgradeCallback s) (lastReceivedExtrasByType s) (useIPv6 s) (peerIPv6Available s) (didSendIPv6Endpoint s)
     (wasEstablished s) (receivedFirstStreamPacket s) (unsentStreamPackets s) (needRate s) (wasNetworkHandover s)
     (peerVideoDecoders s) (peerMaxVideoResolution s) (initTimeoutID s) (noStreamsNopID s) (udpPingTimeoutID s)
     (messages s) (lastMessageID s) (draws s) (trace s).

(** The parts of the state, and operations of them. *)
Definition on_link {A} : M Link.t A → M t A := zoom link (λ l s, s <| link := l |>).
Definition on_routes {A} : M Endpoints.t A → M t A := zoom routes (λ r s, s <| routes := r |>).
Definition on_audio (f : Audio → Audio) : M t unit := modify (λ s, s <| audio ::= f |>).
Definition emit (e : effect) : M t unit := modify (λ s, s <| trace ::= cons e |>).

Section ops.
Context `{CryptoFunctions, Clock, Random, ServerConfig}.

Definition GetCurrentTime : M t double := on_link Link.GetCurrentTime.
Definition rand_bytes (n : nat) : M t bytes :=
  k ← gets draws;
  modify (λ s, s <| draws := S k |>);;
  mret (take n (random k n)).

(** [messageThread.Post] and [Cancel]. *)
Definition Post (f : task) (delay interval : double) : M t Z :=
  i ← gets lastMessageID;
  modify (λ s, s <| lastMessageID := u32 (i + 1) |> <| messages ::= λ l, l ++ [mkmessage i f delay interval] |>);;
  mret i.
Definition post (f : task) (delay interval : double) : M t unit := _ ← Post f delay interval; mret tt.
Definition Cancel (i : Z) : M t unit :=
  modify (λ s, s <| messages ::= List.filter (λ m, negb (m_id m =? i)) |>).
Definition INVALID_ID : Z := 0.

(** The formats in the present state. *)
Definition conf (s : t) : Wire.config :=
  let c := wire s in
  Wire.mkconfig (Wire.encryptionKey c) (Wire.keyFingerprint c) (Wire.callID c) (Wire.isOutgoing c) (Wire.peerVersion c)
    (Wire.connectionMaxLayer c) (Wire.useMTProto2 c)
    (bool_decide (state s = STATE_WAIT_INIT) || bool_decide (state s = STATE_WAIT_INIT_ACK)).
Definition peerVersion (s : t) : Z := Wire.peerVersion (wire s).
Definition set_peerVersion (v : Z) (s : t) : t :=
  let c := wire s in
  s <| wire := Wire.mkconfig (Wire.encryptionKey c) (Wire.keyFingerprint c) (Wire.callID c) (Wire.isOutgoing c) v
                 (Wire.connectionMaxLayer c) (Wire.useMTProto2 c) (Wire.waiting c) |>.
Definition set_useMTProto2 (b : bool) (s : t) : t :=
  let c := wire s in
  s <| wire := Wire.mkconfig (Wire.encryptionKey c) (Wire.keyFingerprint c) (Wire.callID c) (Wire.isOutgoing c)
                 (Wire.peerVersion c) (Wire.connectionMaxLayer c) b (Wire.waiting c) |>.

(** ** Sending *)

(** The counters of [ActuallySendPacket] and [RunRecvThread]. *)
Definition is_mobile (n : NetType) : bool :=
  match n with
  | NET_TYPE_GPRS | NET_TYPE_EDGE | NET_TYPE_3G | NET_TYPE_HSPA | NET_TYPE_LTE | NET_TYPE_OTHER_MOBILE => true
  | _ => false
  end.
Definition count_sent (n : Z) : M t unit :=
  modify (λ s, s <| stats ::= λ st,
    if is_mobile (networkType s) then st <| bytesSentMobile := u64 (bytesSentMobile st + n) |>
    else st <| bytesSentWifi := u64 (bytesSentWifi st + n) |> |>).
Definition count_received (n : Z) : M t unit :=
  modify (λ s, s <| stats ::= λ st,
    if is_mobile (networkType s) then st <| bytesRecvdMobile := u64 (bytesRecvdMobile st + n) |>
    else st <| bytesRecvdWifi := u64 (bytesRecvdWifi st + n) |> |>).

Definition relay_tag (e : Endpoint.t) : option bytes :=
  if Endpoint.is_relay e then Some (Endpoint.peerTag e) else None.

(** [ActuallySendPacket]. *)
Definition ActuallySendPacket (e : Endpoint.t) (d : bytes) : M t unit :=
  count_sent (zlen d);;
  if bool_decide (Endpoint.type e = Endpoint.TCP_RELAY) then
    match Endpoint.socket e with
    | None => mret tt
    | Some p =>
        k ← on_routes (Endpoints.socket_at p);
        if Endpoints.failed k then mret tt else emit (Datagram (Endpoint.id e) d)
    end
  else emit (Datagram (Endpoint.id e) d).

(** [SendPacket(data, len, ep, srcPacket)]. *)
Definition SendPacket (e : Endpoint.t) (data : bytes) : M t unit :=
  s ← get;
  if stopping s then mret tt
  else if bool_decide (Endpoint.type e = Endpoint.TCP_RELAY) && negb (Endpoints.useTCP (routes s)) then mret tt
  else
    rand ← rand_bytes 32;
    ActuallySendPacket e (Wire.SendPacket (conf s) (relay_tag e) rand data).

(** A socket for a TCP relay that has none: it is not ready before it is
    connected. *)
Definition connect_socket (e : Endpoint.t) : M t unit :=
  on_routes (modify (λ r, let p := Endpoints.nextSocket r in
    r <| Endpoints.nextSocket := p + 1 |> <| Endpoints.sockets ::= <[p := Endpoints.mksock false false]> |>
      <| Endpoints.endpoints ::= OMap.update (Endpoint.id e) (λ e, e <| Endpoint.socket := Some p |>) |>));;
  emit (ConnectSocket (Endpoint.id e));;
  emit CancelSelect.

(** [SendOrEnqueuePacket(pkt, enqueue)]. *)
Definition SendOrEnqueuePacket (pkt : Link.PendingOutgoingPacket) (enqueue : bool) : M t bool :=
  endpoint ← on_routes (Endpoints.GetEndpointForPacket (Link.p_endpoint pkt));
  match endpoint with
  | None => crash_with AbortCalled
  | Some e =>
      canSend ←
        (if negb (bool_decide (Endpoint.type e = Endpoint.TCP_RELAY)) then gets udpReady
         else
           match Endpoint.socket e with
           | None => connect_socket e;; mret false
           | Some p => k ← on_routes (Endpoints.socket_at p); mret (Endpoints.ready k && negb (Endpoints.failed k))
           end);
      if negb canSend then
        (if enqueue then modify (λ s, s <| sendQueue ::= λ q, q ++ [pkt] |>) else mret tt);;
        mret false
      else
        s ← get;
        (if (bool_decide (Endpoint.type e = Endpoint.TCP_RELAY) && Endpoints.useTCP (routes s)) ||
            (negb (bool_decide (Endpoint.type e = Endpoint.TCP_RELAY)) && Endpoints.useUDP (routes s)) then
           rand ← rand_bytes 15;
           plain ← on_link (Packet.packet (conf s) rand pkt);
           SendPacket e plain;;
           (if Link.p_type pkt =? PKT_STREAM_DATA
            then modify (λ s, s <| unsentStreamPackets := u32 (unsentStreamPackets s - 1) |>) else mret tt)
         else mret tt);;
        mret true
  end.

(** A packet with a new number. *)
Definition send_new (type : Z) (data : bytes) (endpoint : Z) : M t unit :=
  sq ← on_link Link.GenerateOutSeq;
  _ ← SendOrEnqueuePacket (Link.mkpending sq type (zlen data) data endpoint) true;
  mret tt.

Definition SendPacketReliably (type : Z) (data : bytes) (retryInterval timeout : double) : M t unit :=
  on_link (Link.enqueue_reliable type data retryInterval timeout);;
  post UpdateQueuedPackets_ D.zero D.zero;;
  if D.gtb timeout D.zero then post UpdateQueuedPackets_ timeout D.zero else mret tt.

Definition SendExtra (data : bytes) (type : Z) : M t unit := on_link (Link.SendExtra data type).

Definition SendStreamFlags (stream : Stream) : M t unit :=
  let flags := if enabled stream then STREAM_FLAG_ENABLED else 0 in
  let flags := if extraECEnabled stream then Z.lor flags STREAM_FLAG_EXTRA_EC else flags in
  buf ← built (BufferOutputStream.ctor 5)
          (BufferOutputStream.WriteByte (s_id stream);; BufferOutputStream.WriteInt32 flags);
  SendExtra buf EXTRA_TYPE_STREAM_FLAGS.

(** [SendPublicEndpointsRequest(relay)]. *)
Definition SendPublicEndpointsRequest_to (relay : Endpoint.t) : M t unit :=
  s ← get;
  if negb (Endpoints.useUDP (routes s)) then mret tt
  else
    now ← GetCurrentTime;
    modify (λ s, s <| publicEndpointsReqTime := now |> <| waitingForRelayPeerInfo := true |>);;
    emit (RawDatagram (Endpoint.address relay) (Endpoint.port relay) (take 16 (Endpoint.peerTag relay) ++ replicate 16 255)).
Fixpoint each_endpoint (f : Endpoint.t → M t unit) (l : list Endpoint.t) : M t unit :=
  match l with [] => mret tt | e :: l' => f e;; each_endpoint f l' end.
Definition SendPublicEndpointsRequest : M t unit :=
  s ← get;
  if negb (Endpoints.allowP2p (routes s)) then mret tt
  else
    each_endpoint (λ e, if bool_decide (Endpoint.type e = Endpoint.UDP_RELAY) && negb (Endpoint.IsIPv6Only e)
                        then SendPublicEndpointsRequest_to e else mret tt)
      (OMap.values (Endpoints.endpoints (routes s)));;
    modify (λ s, s <| publicEndpointsReqCount := s32 (publicEndpointsReqCount s + 1) |>);;
    s ← get;
    if publicEndpointsReqCount s <? 10 then post ResendPublicEndpointsRequest (D.of_Z 5) D.zero
    else modify (λ s, s <| publicEndpointsReqCount := 0 |>).

(** ** State *)

(** [SetState(state)] before [STATE_ESTABLISHED] is treated. *)
Definition enter_state (st : State) : M t unit :=
  modify (λ s, s <| state := st |>);;
  now ← GetCurrentTime;
  modify (λ s, s <| stateChangeTime := now |>);;
  post (ConnectionStateChanged st) D.zero D.zero.

(** The loop of [SetMicMute] over the outgoing streams. *)
Fixpoint mute_streams (mute : bool) (l : list Stream) : M t (list Stream) :=
  match l with
  | [] => mret []
  | st :: l' =>
      st ← (if s_type st =? STREAM_TYPE_AUDIO then
              let st := st <| enabled := negb mute |> in
              s ← get;
              (if peerVersion s <? 6
               then SendPacketReliably PKT_STREAM_STATE [s_id st; if mute then 0 else 1] (D.of_dec 5 1) (D.of_Z 20)
               else SendStreamFlags st);;
              mret st
            else mret st);
      l' ← mute_streams mute l';
      mret (st :: l')
  end.
Definition SetMicMute (mute : bool) : M t unit :=
  s ← get;
  if Bool.eqb (micMuted s) mute then mret tt
  else
    modify (λ s, s <| micMuted := mute |>);;
    (if audioInput (audio s) then emit (if mute then InputStop else InputStart) else mret tt);;
    if audioInput (audio s) && negb (input_ok (audio s)) then
      modify (λ s, s <| lastError := ERROR_AUDIO_IO |>);;
      enter_state STATE_FAILED
    else
      (if echoCanceller (audio s) then emit (EchoCancellerEnable (negb mute)) else mret tt);;
      (if bool_decide (state s = STATE_ESTABLISHED) then
         streams ← mute_streams mute (outgoingStreams s);
         modify (λ s, s <| outgoingStreams := streams |>)
       else mret tt);;
      s ← get;
      if mute then
        if noStreamsNopID s =? INVALID_ID then
          i ← Post SendNopPacket_ (D.of_dec 2 1) (D.of_dec 2 1);
          modify (λ s, s <| noStreamsNopID := i |>)
        else mret tt
      else if negb (noStreamsNopID s =? INVALID_ID) then
        Cancel (noStreamsNopID s);;
        modify (λ s, s <| noStreamsNopID := INVALID_ID |>)
      else mret tt.

Definition SetState (st : State) : M t unit :=
  enter_state st;;
  if bool_decide (st = STATE_ESTABLISHED) then
    s ← get;
    SetMicMute (micMuted s);;
    s ← get;
    if wasEstablished s then mret tt
    else
      modify (λ s, s <| wasEstablished := true |>);;
      post UpdateRTT_ (D.of_dec 1 1) (D.of_dec 5 1);;
      post UpdateAudioBitrate_ D.zero (D.of_dec 3 1);;
      post UpdateCongestion_ D.zero (D.of_Z 1);;
      post UpdateSignalBars_ (D.of_Z 1) (D.of_Z 1);;
      post Tick_ D.zero (D.of_dec 1 1)
  else mret tt.

Definition fail (e : Error) : M t unit :=
  modify (λ s, s <| lastError := e |>);;
  SetState STATE_FAILED.

Definition UpdateDataSavingState : M t unit :=
  modify (λ s, s <| dataSavingMode :=
    match dataSaving (config s) with
    | DATA_SAVING_ALWAYS => true
    | DATA_SAVING_MOBILE => is_mobile (networkType s)
    | DATA_SAVING_NEVER => false
    end |>).

Definition UpdateAudioBitrateLimit : M t unit :=
  s ← get;
  match encoder (audio s) with
  | None => mret tt
  | Some e =>
      let saving := dataSavingMode s || dataSavingRequestedByPeer s in
      let '(mx, init) :=
        if saving then (maxAudioBitrateSaving (limits s), initAudioBitrateSaving (limits s))
        else match networkType s with
             | NET_TYPE_GPRS => (maxAudioBitrateGPRS (limits s), initAudioBitrateGPRS (limits s))
             | NET_TYPE_EDGE => (maxAudioBitrateEDGE (limits s), initAudioBitrateEDGE (limits s))
             | _ => (maxAudioBitrate (limits s), initAudioBitrate (limits s))
             end in
      modify (λ s, s <| maxBitrate := mx |> <| audio ::= λ a, a <| encoder := Some (e <| bitrate := init |> <| vadMode := saving |>) |> |>);;
      if echoCanceller (audio s) then emit (EchoCancellerVoiceDetection saving) else mret tt
  end.

Definition UpdateAudioOutputState : M t unit :=
  s ← get;
  let areAnyAudioStreamsEnabled := existsb (λ st, (s_type st =? STREAM_TYPE_AUDIO) && enabled st) (incomingStreams s) in
  if audioOutput (audio s) then
    if Bool.eqb (playing (audio s)) areAnyAudioStreamsEnabled then mret tt
    else
      emit (if areAnyAudioStreamsEnabled then OutputStart else OutputStop);;
      on_audio (λ a, a <| playing := areAnyAudioStreamsEnabled |>)
  else mret tt.

(** [OnAudioOutputReady] and [StartAudio]. *)
Definition StartAudio : M t unit :=
  s ← get;
  match incomingStreams s with
  | [] => crash_with UndefinedBehaviour
  | st :: l =>
      modify (λ s, s <| incomingStreams := st <| decoder := true |> :: l |>);;
      emit (DecoderStart (s_id st));;
      e ← defined (encoder (audio s));
      on_audio (λ a, a <| encoder := Some (e <| running := true |>) |>);;
      if micMuted s then mret tt
      else if audioInput (audio s) then
        emit InputStart;;
        if input_ok (audio s) then mret tt else fail ERROR_AUDIO_IO
      else crash_with UndefinedBehaviour
  end.
Definition start_audio_once : M t unit :=
  StartAudio;;
  modify (λ s, s <| audioStarted := true |>).
End ops.
End Controller.
