(* ===== verification/Setup.v ===== *)
(** * libtgvoip/VoIPController.cpp: setting up a call

    What the program does with a controller before packets arrive: the
    constructor, [SetConfig], [SetEncryptionKey], [SetRemoteEndpoints],
    [Start], [Connect] with the body of the send thread ([InitializeAudio],
    [InitializeTimers], [SendInit]), and what the receive thread does first. *)

From Stdlib Require Import ZArith Lia SpecFloat List.
From stdpp Require Import base tactics list numbers option gmap strings.
From S2P Require Import Prelude Words Double History Memory Buffers Streams Seq Congestion Link Net Wire Packet.
From S2P Require Import Jitter Reassembler Endpoints Controller.
From stdpp Require Import list.
Open Scope Z_scope.

(** What the machine decides: do the devices work, is the socket open and
    ready to send, what is in memory that the constructor leaves alone. *)
Class Platform := {
  inputInitialized : bool;
  outputInitialized : bool;
  socketFailed : bool;
  socketReady : bool;
  uninitializedBytes : nat → bytes;      (** that many bytes *)
  uninitializedInt : Z;
  uninitializedDouble : double;
  uninitializedBool : bool;
  uninitializedError : Packet.Error;
}.

Module Setup.
Import Packet Controller.
#[local] Open Scope string_scope.
#[local] Open Scope Z_scope.

(** [VideoRenderer::GetAvailableDecoders] and [GetMaximumResolution] where
    there is no Android. *)
Definition GetAvailableDecoders : list Z := [].
Definition GetMaximumResolution : Z := 0.

Section ops.
Context `{CryptoFunctions, Clock, Random, ServerConfig, Platform}.

(** ** The constructor *)

Definition limits : Limits :=
  let i k d := u32 (GetInt k d) in
  mklimits (i "audio_max_bitrate" 20000) (i "audio_max_bitrate_gprs" 8000) (i "audio_max_bitrate_edge" 16000)
    (i "audio_max_bitrate_saving" 8000) (i "audio_init_bitrate" 16000) (i "audio_init_bitrate_gprs" 8000)
    (i "audio_init_bitrate_edge" 8000) (i "audio_init_bitrate_saving" 8000) (i "audio_bitrate_step_incr" 1000)
    (i "audio_bitrate_step_decr" 1000) (i "audio_min_bitrate" 8000)
    (GetDouble "relay_switch_threshold" (D.of_dec 8 1)) (GetDouble "p2p_to_relay_switch_threshold" (D.of_dec 6 1))
    (GetDouble "relay_to_p2p_switch_threshold" (D.of_dec 8 1)) (GetDouble "reconnecting_state_timeout" (D.of_Z 2))
    (i "rate_flags" 0xFFFFFFFF) (GetDouble "rate_min_rtt" (D.of_dec 6 1)) (GetDouble "rate_min_send_loss" (D.of_dec 2 1))
    (GetDouble "packet_loss_for_extra_ec" (D.of_dec 2 2)) (i "max_unsent_stream_packets" 2).

(** The default [Config]. *)
Definition default_config : Config := mkcfg (D.of_Z 30) (D.of_Z 20) DATA_SAVING_NEVER false false false.

(** The outgoing audio stream. *)
Definition audio_stream : Stream :=
  new_stream <| s_id := 1 |> <| s_type := STREAM_TYPE_AUDIO |> <| codec := CODEC_OPUS |> <| enabled := true |>
             <| frameDuration := 60 |>.

Definition create : t := {|
  link := Link.ctor uninitializedInt (GetInt "audio_congestion_window" 1024);
  wire := Wire.mkconfig (uninitializedBytes 256) (uninitializedBytes 8) (uninitializedBytes 16) uninitializedBool 0 0 false true;
  routes := Endpoints.initial;
  audio := mkaudio None false false false inputInitialized outputInitialized false;
  config := default_config;
  Controller.limits := limits;
  stats := mkstats 0 0 0 0;
  state := STATE_WAIT_INIT;
  lastError := uninitializedError;
  stopping := false;
  udpReady := socketReady;
  stateChangeTime := uninitializedDouble;
  lastRecvPacketTime := D.zero;
  networkType := NET_TYPE_UNKNOWN;
  sendQueue := [];
  micMuted := false;
  maxBitrate := uninitializedInt;
  outgoingStreams := [audio_stream];
  incomingStreams := [];
  waitingForRelayPeerInfo := false;
  dataSavingMode := false;
  dataSavingRequestedByPeer := false;
  publicEndpointsReqTime := D.zero;
  publicEndpointsReqCount := 0;
  receivedInit := false;
  receivedInitAck := false;
  audioStarted := false;
  audioOutStarted := false;
  audioTimestampIn := 0;
  udpConnectivityState := UDP_UNKNOWN;
  udpPingCount := 0;
  peerCapabilities := 0;
  didReceiveGroupCallKey := false;
  didReceiveGroupCallKeyAck := false;
  didSendGroupCallKey := false;
  didSendUpgradeRequest := false;
  didInvokeUpgradeCallback := false;
  lastReceivedExtrasByType := ∅;
  useIPv6 := false;
  peerIPv6Available := false;
  didSendIPv6Endpoint := false;
  wasEstablished := false;
  receivedFirstStreamPacket := false;
  unsentStreamPackets := 0;
  needRate := false;
  wasNetworkHandover := false;
  peerVideoDecoders := [];
  peerMaxVideoResolution := 0;
  initTimeoutID := INVALID_ID;
  noStreamsNopID := INVALID_ID;
  udpPingTimeoutID := INVALID_ID;
  messages := [];
  lastMessageID := 1;
  draws := 0;
  trace := [];
|}.

(** ** Before the threads run *)

(** [SetConfig(cfg)] without its log files. *)
Definition SetConfig (cfg : Config) : M t unit :=
  modify (λ s, s <| config := cfg |>);;
  UpdateDataSavingState;;
  UpdateAudioBitrateLimit.

Definition SetEncryptionKey (key : bytes) (isOutgoing : bool) : M t unit :=
  modify (λ s, s <| wire ::= Wire.SetEncryptionKey key isOutgoing |>).

Definition SetRemoteEndpoints (l : list Endpoint.t) (p2p : bool) (maxLayer : Z) : M t unit :=
  on_routes (Endpoints.SetRemoteEndpoints l p2p);;
  modify (λ s, let c := wire s in
    s <| wire := Wire.mkconfig (Wire.encryptionKey c) (Wire.keyFingerprint c) (Wire.callID c) (Wire.isOutgoing c)
           (Wire.peerVersion c) maxLayer (if 74 <=? maxLayer then true else Wire.useMTProto2 c) (Wire.waiting c) |>).

(** [Start()]; do the threads run? *)
Definition Start : M t bool :=
  if socketFailed then SetState STATE_FAILED;; mret false else mret true.

(** What [RunRecvThread] does before its loop, without a proxy. *)
Definition receive_thread_starts : M t unit :=
  modify (λ s, s <| udpConnectivityState := UDP_PING_PENDING |>);;
  i ← Post SendUdpPings_ D.zero (D.of_dec 5 1);
  modify (λ s, s <| udpPingTimeoutID := i |>).

(** ** The send thread *)

(** The encoder as its constructor leaves it. *)
Definition new_encoder : Encoder := mkencoder 20000 false 15 false false.

Definition InitializeAudio : M t unit :=
  _ ← GetCurrentTime;
  on_audio (λ a, a <| encoder := Some new_encoder |> <| echoCanceller := true |> <| audioInput := true |>
                   <| audioOutput := true |>);;
  s ← get;
  if negb (output_ok (audio s)) then fail ERROR_AUDIO_IO
  else
    UpdateAudioBitrateLimit;;
    _ ← GetCurrentTime;
    mret tt.

(** [InitializeTimers] without the file of statistics. *)
Definition InitializeTimers : M t unit :=
  s ← get;
  i ← Post InitTimeout (initTimeout (config s)) D.zero;
  modify (λ s, s <| initTimeoutID := i |>);;
  post SendRelayPings_ D.zero (D.of_Z 2).

(** The contents of [PKT_INIT]. *)
Definition init_flags (s : t) : Z :=
  let c := config s in
  let flags := if enableCallUpgrade c then INIT_FLAG_GROUP_CALLS_SUPPORTED else 0 in
  let flags := if enableVideoReceive c then Z.lor flags INIT_FLAG_VIDEO_RECV_SUPPORTED else flags in
  let flags := if enableVideoSend c then Z.lor flags INIT_FLAG_VIDEO_SEND_SUPPORTED else flags in
  if dataSavingMode s then Z.lor flags INIT_FLAG_DATA_SAVING_ENABLED else flags.
Fixpoint write_ids (l : list Z) : M BufferOutputStream.t unit :=
  match l with [] => mret tt | i :: l' => BufferOutputStream.WriteInt32 (s32 i);; write_ids l' end.
Definition codecs (s : t) : M BufferOutputStream.t unit :=
  let maxLayer := Wire.connectionMaxLayer (wire s) in
  if maxLayer <? 74 then
    BufferOutputStream.WriteByte 2;;
    BufferOutputStream.WriteByte CODEC_OPUS_OLD;;
    BufferOutputStream.WriteByte 0;;
    BufferOutputStream.WriteByte 0;;
    BufferOutputStream.WriteByte 0;;
    BufferOutputStream.WriteInt32 (s32 CODEC_OPUS);;
    BufferOutputStream.WriteByte 0;;
    BufferOutputStream.WriteByte 0
  else
    BufferOutputStream.WriteByte 1;;
    BufferOutputStream.WriteInt32 (s32 CODEC_OPUS);;
    let decoders := if enableVideoReceive (config s) then GetAvailableDecoders else [] in
    BufferOutputStream.WriteByte (u8 (zlen decoders));;
    write_ids decoders;;
    BufferOutputStream.WriteByte (if 92 <=? maxLayer then u8 GetMaximumResolution else 0).
Definition init_body (s : t) : M BufferOutputStream.t unit :=
  BufferOutputStream.WriteInt32 PROTOCOL_VERSION;;
  BufferOutputStream.WriteInt32 MIN_PROTOCOL_VERSION;;
  BufferOutputStream.WriteInt32 (s32 (init_flags s));;
  codecs s.

(** The loop over the endpoints. *)
Fixpoint send_inits (initSeq : Z) (ks : list Z) : M t unit :=
  match ks with
  | [] => mret tt
  | k :: ks' =>
      s ← get;
      e ← defined (OMap.find k (Endpoints.endpoints (routes s)));
      (if bool_decide (Endpoint.type e = Endpoint.TCP_RELAY) && negb (Endpoints.useTCP (routes s)) then mret tt
       else
         out ← built (BufferOutputStream.ctor 1024) (init_body s);
         _ ← SendOrEnqueuePacket (Link.mkpending initSeq PKT_INIT (zlen out) out (Endpoint.id e)) true;
         mret tt);;
      send_inits initSeq ks'
  end.
Definition SendInit : M t unit :=
  initSeq ← on_link Link.GenerateOutSeq;
  s ← get;
  send_inits initSeq (OMap.keys (Endpoints.endpoints (routes s)));;
  s ← get;
  (if bool_decide (state s = STATE_WAIT_INIT) then SetState STATE_WAIT_INIT_ACK else mret tt);;
  post SendInitAgain (D.of_dec 5 1) D.zero.

Definition RunSendThread : M t unit :=
  InitializeAudio;;
  InitializeTimers;;
  SendInit.

(** [Connect()] and the thread it starts. *)
Definition Connect : M t unit :=
  s ← get;
  assert_ (negb (bool_decide (state s = STATE_WAIT_INIT_ACK)));;
  _ ← GetCurrentTime;
  s ← get;
  (if D.eqb (initTimeout (config s)) D.zero
   then modify (λ s, s <| config ::= λ c, c <| initTimeout := D.of_Z 30 |> |>) else mret tt);;
  RunSendThread.

(** [CreateVoIP] of the gateway: the calls it makes on a new controller.
    Its threads run from [Start] and [Connect] on; they are taken one after
    the other. *)
Definition set_up (cfg : Config) (key : bytes) (isOutgoing : bool) (l : list Endpoint.t) (p2p : bool) (maxLayer : Z) : M t bool :=
  SetConfig cfg;;
  SetEncryptionKey key isOutgoing;;
  SetRemoteEndpoints l p2p maxLayer;;
  b ← Start;
  (if b : bool then receive_thread_starts else mret tt);;
  Connect;;
  mret b.
End ops.
End Setup.
