(* ===== verification/Incoming.v ===== *)
(** * libtgvoip/VoIPController.cpp: receiving

    [ProcessIncomingPacket] and [ProcessExtraData], as the receive thread
    calls them ([RunRecvThread]), on the state of [Controller]. *)

From Stdlib Require Import ZArith Lia SpecFloat List.
From stdpp Require Import base tactics list numbers option gmap strings.
From S2P Require Import Prelude Words Double History Memory Buffers Streams Seq Congestion Link Net Wire Packet.
From S2P Require Import Jitter Reassembler Endpoints Controller.
From stdpp Require Import list.
Open Scope Z_scope.

(** What the machine tells: the port and address of the local socket, the
    encoders of the video source, where the pool of a jitter buffer is
    allocated (its address matters to that pool only), what the members
    that the constructor of [PacketReassembler] leaves alone contain. *)
Class Host := {
  localPort : Z;
  localAddress : Z;
  videoEncoders : list Z;
  poolAddress : Z;
  garbageTimestamp : Z;
  garbageKeyframe : bool;
}.

Module Incoming.
Import Packet Controller.
#[local] Abbreviation I := BufferInputStream.t.
#[local] Abbreviation C := Controller.t.

(** A datagram: the receive buffer, which starts with it, its length, where
    it comes from. *)
Record NetworkPacket := mkpacket {
  n_data : bytes; n_length : Z; n_address : NetworkAddress.t; n_port : Z; n_protocol : Endpoints.Protocol;
}.

Section ops.
Context `{CryptoFunctions, Clock, Random, ServerConfig, Host}.

Definition set_current (i : Z) : M C unit := on_routes (modify (λ r, r <| Endpoints.currentEndpoint := i |>)).
Definition to_preferred : M C unit :=
  on_routes (modify (λ r, r <| Endpoints.currentEndpoint := Endpoints.preferredRelay r |>)).
(** The local [peerTag] that is copied into an endpoint of the peer without
    being initialised; only the tags of relays are used. *)
Definition no_tag : bytes := replicate 16 0.

(** The first stream with an id, and changes of it. *)
Definition stream_of (i : Z) (s : C) : option Stream := List.find (λ st, s_id st =? i) (incomingStreams s).
Fixpoint change_first (i : Z) (f : Stream → Stream) (l : list Stream) : list Stream :=
  match l with
  | [] => []
  | st :: l' => if s_id st =? i then f st :: l' else st :: change_first i f l'
  end.
Definition change_stream (i : Z) (f : Stream → Stream) : M C unit :=
  modify (λ s, s <| incomingStreams ::= change_first i f |>).

(** [jitterBuffer->HandleInput(...)] of the stream with an id. *)
Definition HandleInput (i : Z) (d : bytes) (ts : Z) (isEC : bool) : M C unit :=
  now ← GetCurrentTime;
  s ← get;
  match stream_of i s ≫= jitterBuffer with
  | None => mret tt
  | Some j =>
      match JitterBuffer.HandleInput d ts isEC now j with
      | Ret _ j' => change_stream i (λ st, st <| jitterBuffer := Some j' |>)
      | Throw e _ => throw e
      | Crash c => crash_with c
      end
  end.

(** ** Extra data *)
Section extra.
Import BufferInputStream.

(** The codec specific data of a stream. *)
Fixpoint read_csd (i : Z) (n : nat) : M (I * C) unit :=
  match n with
  | O => mret tt
  | S n' =>
      len ← on_stream ReadByte;
      csd ← on_stream (ReadBytes len);
      on_self (change_stream i (λ st, st <| codecSpecificData ::= λ l, l ++ [csd] |>));;
      read_csd i n'
  end.

Definition extra_stream_flags : M (I * C) unit :=
  i ← on_stream ReadByte;
  flags ← on_stream ReadInt32;
  let flags := u32 flags in
  s ← on_self get;
  match stream_of i s with
  | None => mret tt
  | Some _ =>
      on_self (change_stream i (λ st,
        let st := st <| enabled := has flags STREAM_FLAG_ENABLED |> in
        if has flags STREAM_FLAG_EXTRA_EC then
          if extraECEnabled st then st
          else st <| extraECEnabled := true |> <| jitterBuffer ::= fmap (JitterBuffer.SetMinPacketCount 4) |>
        else
          if extraECEnabled st then st <| extraECEnabled := false |> <| jitterBuffer ::= fmap (JitterBuffer.SetMinPacketCount 2) |>
          else st));;
      on_self UpdateAudioOutputState
  end.

Definition extra_stream_csd : M (I * C) unit :=
  streamID ← on_stream ReadByte;
  s ← on_self get;
  match stream_of streamID s with
  | None => mret tt
  | Some _ =>
      on_self (change_stream streamID (λ st, st <| codecSpecificData := [] |> <| csdIsValid := false |>));;
      w ← on_stream ReadInt16;
      on_self (change_stream streamID (λ st, st <| width := u32 w |>));;
      h ← on_stream ReadInt16;
      on_self (change_stream streamID (λ st, st <| height := u32 h |>));;
      count ← on_stream ReadByte;
      read_csd streamID (Z.to_nat count)
  end.

(** [endpoints[lanID]=lan] in both places that do it. *)
Definition add_lan_endpoint (addr prt : Z) : M C unit :=
  s ← get;
  (if Endpoints.currentEndpoint (routes s) =? lanID then to_preferred else mret tt);;
  on_routes (Endpoints.set_endpoint
    (Endpoint.ctor lanID prt (NetworkAddress.IPv4 addr) Endpoint.noIPv6 Endpoint.UDP_P2P_LAN no_tag)).

Definition extra_lan_endpoint : M (I * C) unit :=
  s ← on_self get;
  if negb (Endpoints.allowP2p (routes s)) then mret tt
  else
    peerAddr ← on_stream ReadInt32;
    peerPort ← on_stream ReadInt32;
    on_self (add_lan_endpoint (u32 peerAddr) (u16 peerPort)).

(** The flags of a change of network. *)
Definition peer_network_flags (flags : Z) : M C unit :=
  modify (λ s, s <| dataSavingRequestedByPeer := has flags INIT_FLAG_DATA_SAVING_ENABLED |>);;
  UpdateDataSavingState;;
  UpdateAudioBitrateLimit;;
  on_routes Endpoints.ResetEndpointPingStats.

Definition extra_network_changed : M (I * C) unit :=
  on_self (modify (λ s, s <| wasNetworkHandover := true |>));;
  s ← on_self get;
  cur ← on_self (on_routes (Endpoints.at_ (Endpoints.currentEndpoint (routes s))));
  (if Endpoint.is_relay cur then mret tt else on_self to_preferred);;
  (if Endpoints.allowP2p (routes s) then on_self SendPublicEndpointsRequest else mret tt);;
  flags ← on_stream ReadInt32;
  on_self (peer_network_flags (u32 flags)).

Definition extra_group_call_key : M (I * C) unit :=
  s ← on_self get;
  if didReceiveGroupCallKey s || didSendGroupCallKey s then mret tt
  else
    _ ← on_stream (ReadBytes 256);
    on_self (post GroupCallKeyReceived D.zero D.zero);;
    on_self (modify (λ s, s <| didReceiveGroupCallKey := true |>)).

Definition extra_request_group : M (I * C) unit :=
  s ← on_self get;
  if didInvokeUpgradeCallback s then mret tt
  else
    on_self (post UpgradeRequested D.zero D.zero);;
    on_self (modify (λ s, s <| didInvokeUpgradeCallback := true |>)).

Definition extra_ipv6_endpoint : M (I * C) unit :=
  s ← on_self get;
  if negb (Endpoints.allowP2p (routes s)) then mret tt
  else
    addr ← on_stream (ReadBytes 16);
    prt ← on_stream ReadInt16;
    on_self (modify (λ s, s <| peerIPv6Available := true |>));;
    on_self (on_routes (Endpoints.set_endpoint
      (Endpoint.mk p2pID6 (u16 prt) Endpoint.noIPv4 (NetworkAddress.IPv6 addr) Endpoint.UDP_P2P_INET no_tag
         D.zero 0 (HistoricBuffer.ctor 6) D.zero None 0)));;
    if negb (NetworkAddress.IsEmpty (Endpoints.myIPv6 (routes s))) then on_self (set_current p2pID6) else mret tt.

(** [ProcessExtraData(data)]. *)
Definition ProcessExtraData (d : bytes) : M C unit :=
  with_stream (ctor d (zlen d))
    (type ← on_stream ReadByte;
     let hash := le_val (take 8 (sha1 d)) in
     s ← on_self get;
     if default 0 (lastReceivedExtrasByType s !! type) =? hash then mret tt
     else
       on_self (modify (λ s, s <| lastReceivedExtrasByType ::= <[type := hash]> |>));;
       if type =? EXTRA_TYPE_STREAM_FLAGS then extra_stream_flags
       else if type =? EXTRA_TYPE_STREAM_CSD then extra_stream_csd
       else if type =? EXTRA_TYPE_LAN_ENDPOINT then extra_lan_endpoint
       else if type =? EXTRA_TYPE_NETWORK_CHANGED then extra_network_changed
       else if type =? EXTRA_TYPE_GROUP_CALL_KEY then extra_group_call_key
       else if type =? EXTRA_TYPE_REQUEST_GROUP then extra_request_group
       else if type =? EXTRA_TYPE_IPV6_ENDPOINT then extra_ipv6_endpoint
       else mret tt).

Definition ProcessAcknowledgedOutgoingExtra (x : Link.UnacknowledgedExtraData) : M C unit :=
  if Link.x_type x =? EXTRA_TYPE_GROUP_CALL_KEY then
    s ← get;
    if didReceiveGroupCallKeyAck s then mret tt
    else
      modify (λ s, s <| didReceiveGroupCallKeyAck := true |>);;
      post GroupCallKeySent D.zero D.zero
  else mret tt.
Fixpoint acknowledged_extras (l : list Link.UnacknowledgedExtraData) : M C unit :=
  match l with [] => mret tt | x :: l' => ProcessAcknowledgedOutgoingExtra x;; acknowledged_extras l' end.
End extra.

(** ** Replies of relays *)
Section relay.
Import BufferInputStream.

(** The address of this end as a relay sees it. *)
Definition reflector_self_info (src : Z) : M (I * C) unit :=
  e ← on_self (on_routes (Endpoints.at_ src));
  n ← on_stream (gets Remaining);
  if bool_decide (Endpoint.type e = Endpoint.UDP_RELAY) && (32 <=? n) then
    _ ← on_stream ReadInt32;
    _ ← on_stream ReadInt64;
    myIP ← on_stream (ReadBytes 16);
    _ ← on_stream ReadInt32;
    on_self (on_routes (modify (λ r, r <| Endpoints.endpoints ::=
      OMap.update src (λ e, e <| Endpoint.udpPongCount := s32 (Endpoint.udpPongCount e + 1) |>) |>)));;
    s ← on_self get;
    if Endpoint.IsIPv6Only e && negb (didSendIPv6Endpoint s) &&
       NetworkAddress.eqb (NetworkAddress.IPv6 myIP) (Endpoints.myIPv6 (routes s)) then
      on_self (modify (λ s, s <| useIPv6 := true |>));;
      if Endpoints.allowP2p (routes s) then
        on_self (modify (λ s, s <| didSendIPv6Endpoint := true |>));;
        o ← on_self (built (BufferOutputStream.ctor 18)
              (BufferOutputStream.WriteBytes myIP;; BufferOutputStream.WriteInt16 (s16 localPort)));
        on_self (SendExtra o EXTRA_TYPE_IPV6_ENDPOINT)
      else mret tt
    else mret tt
  else mret tt.

(** The address of the peer as a relay sees it. *)
Definition reflector_peer_info : M (I * C) unit :=
  n ← on_stream (gets Remaining);
  if 16 <=? n then
    myAddr ← on_stream ReadInt32;
    _ ← on_stream ReadInt32;
    peerAddr ← on_stream ReadInt32;
    peerPort ← on_stream ReadInt32;
    s ← on_self get;
    let cur := Endpoints.currentEndpoint (routes s) in
    (if (cur =? p2pID) || (cur =? lanID) then on_self to_preferred else mret tt);;
    on_self (on_routes (Endpoints.erase_endpoint lanID));;
    if waitingForRelayPeerInfo s then
      on_self (on_routes (Endpoints.set_endpoint
        (Endpoint.ctor p2pID (u16 peerPort) (NetworkAddress.IPv4 (u32 peerAddr)) Endpoint.noIPv6 Endpoint.UDP_P2P_INET no_tag)));;
      (if u32 myAddr =? u32 peerAddr then
         pkt ← on_self (built (BufferOutputStream.ctor 8)
                 (BufferOutputStream.WriteInt32 (s32 localAddress);; BufferOutputStream.WriteInt32 (s32 localPort)));
         on_self (if peerVersion s <? 6 then SendPacketReliably PKT_LAN_ENDPOINT pkt (D.of_dec 5 1) (D.of_Z 10)
                  else SendExtra pkt EXTRA_TYPE_LAN_ENDPOINT)
       else mret tt);;
      on_self (modify (λ s, s <| waitingForRelayPeerInfo := false |>))
    else mret tt
  else mret tt.

Definition relay_reply (src : Z) : M (I * C) unit :=
  tlid ← on_stream ReadInt32;
  if u32 tlid =? TLID_UDP_REFLECTOR_SELF_INFO then reflector_self_info src
  else if u32 tlid =? TLID_UDP_REFLECTOR_PEER_INFO then reflector_peer_info
  else mret tt.
End relay.

(** ** Packets by type *)
Section packets.
Import BufferInputStream.

Fixpoint skip_codecs (version : Z) (n : nat) : M I unit :=
  match n with
  | O => mret tt
  | S n' => _ ← (if version <? 5 then ReadByte else ReadInt32); skip_codecs version n'
  end.
Fixpoint read_decoders (n : nat) : M (I * C) unit :=
  match n with
  | O => mret tt
  | S n' =>
      d ← on_stream ReadInt32;
      on_self (modify (λ s, s <| peerVideoDecoders ::= λ l, l ++ [u32 d] |>));;
      read_decoders n'
  end.

(** [SetupOutgoingVideoStream]. *)
Definition SetupOutgoingVideoStream : M C unit :=
  s ← get;
  let common c := existsb (Z.eqb c) videoEncoders && existsb (Z.eqb c) (peerVideoDecoders s) in
  let vstm c := new_stream <| s_id := 2 |> <| s_type := STREAM_TYPE_VIDEO |> <| codec := c |> in
  let add c := modify (λ s, s <| outgoingStreams ::= λ l, l ++ [vstm c] |>) in
  if common CODEC_HEVC then add CODEC_HEVC
  else if common CODEC_AVC then add CODEC_AVC
  else if common CODEC_VP8 then add CODEC_VP8
  else mret tt.

(** The answer to [PKT_INIT]. *)
Definition ack_stream (version : Z) (st : Stream) : M BufferOutputStream.t unit :=
  BufferOutputStream.WriteByte (s_id st);;
  BufferOutputStream.WriteByte (s_type st);;
  (if version <? 5 then BufferOutputStream.WriteByte (if codec st =? CODEC_OPUS then CODEC_OPUS_OLD else 0)
   else BufferOutputStream.WriteInt32 (s32 (codec st)));;
  BufferOutputStream.WriteInt16 (s16 (frameDuration st));;
  BufferOutputStream.WriteByte (if enabled st then 1 else 0).
Fixpoint ack_streams (version : Z) (l : list Stream) : M BufferOutputStream.t unit :=
  match l with [] => mret tt | st :: l' => ack_stream version st;; ack_streams version l' end.
Definition init_ack : M C bytes :=
  s ← get;
  built (BufferOutputStream.ctor 1024)
    (BufferOutputStream.WriteInt32 PROTOCOL_VERSION;;
     BufferOutputStream.WriteInt32 MIN_PROTOCOL_VERSION;;
     BufferOutputStream.WriteByte (u8 (zlen (outgoingStreams s)));;
     ack_streams (peerVersion s) (outgoingStreams s)).

(** The answer to [PKT_INIT], and what the first one decides. *)
Definition answer_init (src : Z) : M (I * C) unit :=
  out ← on_self init_ack;
  on_self (send_new PKT_INIT_ACK out 0);;
  e ← on_self (on_routes (Endpoints.at_ src));
  s ← on_self get;
  (if receivedInit s then mret tt
   else
     on_self (modify (λ s, s <| receivedInit := true |>));;
     let udp := bool_decide (Endpoint.type e = Endpoint.UDP_RELAY) in
     let tcp := bool_decide (Endpoint.type e = Endpoint.TCP_RELAY) in
     if (udp && negb (bool_decide (udpConnectivityState s = UDP_BAD)) && negb (bool_decide (udpConnectivityState s = UDP_NOT_AVAILABLE))) || tcp
     then
       on_self (set_current src);;
       if udp || (Endpoints.useTCP (routes s) && tcp)
       then on_self (on_routes (modify (λ r, r <| Endpoints.preferredRelay := src |>))) else mret tt
     else mret tt);;
  if negb (audioStarted s) && receivedInitAck s then on_self start_audio_once else mret tt.

Definition handle_init (src : Z) : M (I * C) unit :=
  ver ← on_stream ReadInt32;
  s ← on_self get;
  (if receivedInit s then mret tt else on_self (modify (set_peerVersion ver)));;
  minVer ← on_stream ReadInt32;
  s ← on_self get;
  if (PROTOCOL_VERSION <? u32 minVer) || (peerVersion s <? MIN_PROTOCOL_VERSION) then on_self (fail ERROR_INCOMPATIBLE)
  else
    flags ← on_stream ReadInt32;
    let flags := u32 flags in
    (if receivedInit s then mret tt
     else
       (if has flags INIT_FLAG_DATA_SAVING_ENABLED then
          on_self (modify (λ s, s <| dataSavingRequestedByPeer := true |>);; UpdateDataSavingState;; UpdateAudioBitrateLimit)
        else mret tt);;
       let cap f c := if has flags f then on_self (modify (λ s, s <| peerCapabilities ::= λ p, Z.lor p c |>)) else mret tt in
       cap INIT_FLAG_GROUP_CALLS_SUPPORTED TGVOIP_PEER_CAP_GROUP_CALLS;;
       cap INIT_FLAG_VIDEO_RECV_SUPPORTED TGVOIP_PEER_CAP_VIDEO_DISPLAY;;
       cap INIT_FLAG_VIDEO_SEND_SUPPORTED TGVOIP_PEER_CAP_VIDEO_CAPTURE);;
    numSupportedAudioCodecs ← on_stream ReadByte;
    on_stream (skip_codecs (peerVersion s) (Z.to_nat numSupportedAudioCodecs));;
    (if negb (receivedInit s) &&
        ((has flags INIT_FLAG_VIDEO_SEND_SUPPORTED && enableVideoReceive (config s)) ||
         (has flags INIT_FLAG_VIDEO_RECV_SUPPORTED && enableVideoSend (config s))) then
       numSupportedVideoDecoders ← on_stream ReadByte;
       read_decoders (Z.to_nat numSupportedVideoDecoders);;
       r ← on_stream ReadByte;
       on_self (modify (λ s, s <| peerMaxVideoResolution := r |>);; SetupOutgoingVideoStream)
     else mret tt);;
    answer_init src.

(** The jitter buffer of an incoming audio stream of 60 ms frames. *)
Definition new_jitter_buffer : M C JitterBuffer.t :=
  λ s, match JitterBuffer.ctor (JitterBuffer.mkconfig GetInt GetDouble) poolAddress 60 with
       | Ret _ j => Ret (JitterBuffer.SetMinPacketCount (u32 (GetInt "jitter_initial_delay_60" 2)) j) s
       | Throw e _ => Throw e s
       | Crash c => Crash c
       end.

(** The streams of [PKT_INIT_ACK]. *)
Fixpoint read_streams (n : nat) : M (I * C) unit :=
  match n with
  | O => mret tt
  | S n' =>
      i ← on_stream ReadByte;
      ty ← on_stream ReadByte;
      s ← on_self get;
      cdc ← (if peerVersion s <? 5 then c ← on_stream ReadByte; mret (if c =? CODEC_OPUS_OLD then CODEC_OPUS else 0)
             else c ← on_stream ReadInt32; mret (u32 c));
      _ ← on_stream ReadInt16;
      en ← on_stream ReadByte;
      let stm := new_stream <| s_id := i |> <| s_type := ty |> <| codec := cdc |> <| frameDuration := 60 |> <| enabled := en =? 1 |> in
      (if ty =? STREAM_TYPE_AUDIO then
         j ← on_self new_jitter_buffer;
         on_self (modify (λ s, s <| incomingStreams ::= λ l, l ++ [stm <| jitterBuffer := Some j |>] |>))
       else if ty =? STREAM_TYPE_VIDEO then
         on_self (modify (λ s, s <| incomingStreams ::= λ l, l ++ [stm <| packetReassembler := Some (PacketReassembler.ctor garbageTimestamp garbageKeyframe) |>] |>))
       else mret tt);;
      read_streams n'
  end.

Definition handle_init_ack (h : header) : M (I * C) unit :=
  s ← on_self get;
  if receivedInitAck s then mret tt
  else
    on_self (modify (λ s, s <| receivedInitAck := true |>));;
    on_self (Cancel (initTimeoutID s));;
    on_self (modify (λ s, s <| initTimeoutID := INVALID_ID |>));;
    compatible ←
      (if 10 <? packetInnerLen h then
         ver ← on_stream ReadInt32;
         on_self (modify (set_peerVersion ver));;
         minVer ← on_stream ReadInt32;
         mret (negb ((PROTOCOL_VERSION <? u32 minVer) || (ver <? MIN_PROTOCOL_VERSION)))
       else
         on_self (modify (set_peerVersion 1));;
         mret true);
    if negb compatible then on_self (fail ERROR_INCOMPATIBLE)
    else
      streamCount ← on_stream ReadByte;
      if streamCount =? 0 then mret tt
      else
        read_streams (Z.to_nat streamCount);;
        s' ← on_self get;
        let new := drop (Datatypes.length (incomingStreams s)) (incomingStreams s') in
        if negb (existsb (λ st, s_type st =? STREAM_TYPE_AUDIO) new) then mret tt
        else
          (if (5 <=? peerVersion s') && negb (Wire.useMTProto2 (wire s')) then on_self (modify (set_useMTProto2 true)) else mret tt);;
          (if negb (audioStarted s') && receivedInit s' then on_self start_audio_once else mret tt);;
          on_self (post EstablishIfWaiting (GetDouble "established_delay_if_no_stream_data" (D.of_dec 15 1)) D.zero);;
          if Endpoints.allowP2p (routes s') then on_self SendPublicEndpointsRequest else mret tt.

(** Error correction packets: the data and the time before it. *)
Fixpoint read_fec (streamID pts duration : Z) (count j : Z) (n : nat) : M (I * C) unit :=
  match n with
  | O => mret tt
  | S n' =>
      dlen ← on_stream ReadByte;
      d ← on_stream (ReadBytes dlen);
      on_self (HandleInput streamID d (u32 (pts - u32 (u32 (count - j - 1) * duration))) true);;
      read_fec streamID pts duration count (j + 1) n'
  end.

(** One packet of stream data; [mem] is the receive buffer, [len] the length
    of the datagram.  The result tells whether to go on. *)
Definition stream_data (mem : bytes) (len : Z) (last : bool) : M (I * C) bool :=
  streamID ← on_stream ReadByte;
  let flags := Z.land streamID 0xC0 in
  let streamID := Z.land streamID 0x3F in
  sdlen ← (if has flags STREAM_DATA_FLAG_LEN16 then l ← on_stream ReadInt16; mret (u16 l) else on_stream ReadByte);
  pts ← on_stream ReadInt32;
  let pts := u32 pts in
  on_self (modify (λ s, s <| audioTimestampIn := pts |>));;
  s ← on_self get;
  (if negb (audioOutStarted s) && audioOutput (audio s) then
     on_self (emit OutputStart;; on_audio (λ a, a <| playing := true |>);; modify (λ s, s <| audioOutStarted := true |>))
   else mret tt);;
  let fragmented := has sdlen STREAM_DATA_XFLAG_FRAGMENTED in
  let extraFEC := has sdlen STREAM_DATA_XFLAG_EXTRA_FEC in
  let keyframe := has sdlen STREAM_DATA_XFLAG_KEYFRAME in
  frag ← (if fragmented then i ← on_stream ReadByte; n ← on_stream ReadByte; mret (i, n) else mret (0, 0));
  let sdlen := Z.land sdlen 0x7FF in
  o ← on_stream (gets GetOffset);
  if len <? u64 (o + sdlen) then mret false
  else
    d ← Wire.at_array mem o sdlen;
    match stream_of streamID s with
    | Some stm =>
        if s_type stm =? STREAM_TYPE_AUDIO then
          match jitterBuffer stm with
          | None => mret tt
          | Some _ =>
              on_self (HandleInput streamID d pts false);;
              if extraFEC then
                on_stream (Seek (u64 (o + sdlen)));;
                fecCount ← on_stream ReadByte;
                read_fec streamID pts (frameDuration stm) fecCount 0 (Z.to_nat fecCount)
              else mret tt
          end
        else if s_type stm =? STREAM_TYPE_VIDEO then
          match packetReassembler stm with
          | None => mret tt
          | Some r =>
              match PacketReassembler.AddFragment (Buffer.of_bytes d) frag.1 frag.2 pts keyframe r with
              | Ret out r' =>
                  on_self (change_stream streamID (λ st, st <| packetReassembler := Some r' |>);;
                           modify (λ s, s <| trace ::= λ t, rev (VideoFrame <$> out) ++ t |>))
              | Throw e _ => throw e
              | Crash c => crash_with c
              end
          end
        else mret tt
    | None => mret tt
    end;;
    (if last then mret tt else o ← on_stream (gets GetOffset); on_stream (Seek (u64 (o + sdlen))));;
    mret true.
Fixpoint stream_datas (mem : bytes) (len : Z) (n : nat) : M (I * C) unit :=
  match n with
  | O => mret tt
  | S n' =>
      go ← stream_data mem len (bool_decide (n' = O));
      if go : bool then stream_datas mem len n' else mret tt
  end.

Definition handle_stream_data (src : Z) (type : Z) (mem : bytes) (len : Z) : M (I * C) unit :=
  s ← on_self get;
  (if receivedFirstStreamPacket s then mret tt
   else
     on_self (modify (λ s, s <| receivedFirstStreamPacket := true |>));;
     if negb (bool_decide (state s = STATE_ESTABLISHED)) && receivedInitAck s
     then on_self (post Establish (D.of_dec 5 1) D.zero) else mret tt);;
  let count := if type =? PKT_STREAM_DATA_X2 then 2%nat else if type =? PKT_STREAM_DATA_X3 then 3%nat else 1%nat in
  e ← on_self (on_routes (Endpoints.at_ src));
  (if bool_decide (Endpoint.type e = Endpoint.UDP_RELAY) && negb (src =? Endpoints.peerPreferredRelay (routes s))
   then on_self (on_routes (modify (λ r, r <| Endpoints.peerPreferredRelay := src |>))) else mret tt);;
  stream_datas mem len count.

Definition handle_ping (src : Z) (pseq : Z) : M (I * C) unit :=
  e ← on_self (on_routes (Endpoints.at_ src));
  s ← on_self get;
  if negb (Endpoint.is_relay e) && negb (Endpoints.allowP2p (routes s)) then mret tt
  else
    pkt ← on_self (built (BufferOutputStream.ctor 128) (BufferOutputStream.WriteInt32 (s32 pseq)));
    on_self (send_new PKT_PONG pkt src).

Definition handle_pong (src : Z) (h : header) : M (I * C) unit :=
  if 4 <=? packetInnerLen h then
    pingSeq ← on_stream ReadInt32;
    e ← on_self (on_routes (Endpoints.at_ src));
    if u32 pingSeq =? Endpoint.lastPingSeq e then
      now ← on_self GetCurrentTime;
      let rtts := HistoricBuffer.Add (D.sub now (Endpoint.lastPingTime e)) (Endpoint.rtts e) in
      let avg := HistoricBuffer.NonZeroAverage rtts in
      on_self (on_routes (modify (λ r, r <| Endpoints.endpoints ::=
        OMap.update src (λ e, e <| Endpoint.rtts := rtts |> <| Endpoint.averageRTT := avg |>) |>)));;
      s ← on_self get;
      if D.gtb avg (rateMaxAcceptableRTT (limits s)) then on_self (modify (λ s, s <| needRate := true |>)) else mret tt
    else mret tt
  else mret tt.

Definition handle_stream_state : M (I * C) unit :=
  i ← on_stream ReadByte;
  en ← on_stream ReadByte;
  s ← on_self get;
  match stream_of i s with
  | None => mret tt
  | Some _ => on_self (change_stream i (λ st, st <| enabled := en =? 1 |>);; UpdateAudioOutputState)
  end.

Definition handle_lan_endpoint : M (I * C) unit :=
  peerAddr ← on_stream ReadInt32;
  peerPort ← on_stream ReadInt32;
  on_self (add_lan_endpoint (u32 peerAddr) (u16 peerPort)).

(** [cur] is the endpoint that was current when the header was read. *)
Definition handle_network_changed (cur : Z) : M (I * C) unit :=
  e ← on_self (on_routes (Endpoints.at_ cur));
  if Endpoint.is_relay e then mret tt
  else
    on_self to_preferred;;
    s ← on_self get;
    (if Endpoints.allowP2p (routes s) then on_self SendPublicEndpointsRequest else mret tt);;
    if 2 <=? peerVersion s then
      flags ← on_stream ReadInt32;
      on_self (peer_network_flags (u32 flags))
    else mret tt.

Definition handle_stream_ec : M (I * C) unit :=
  streamID ← on_stream ReadByte;
  lastTimestamp ← on_stream ReadInt32;
  count ← on_stream ReadByte;
  s ← on_self get;
  match stream_of streamID s with
  | None => mret tt
  | Some stm => read_fec streamID (u32 lastTimestamp) (frameDuration stm) count 0 (Z.to_nat count)
  end.

Definition dispatch (src cur : Z) (mem : bytes) (len : Z) (h : header) : M (I * C) unit :=
  if type h =? PKT_INIT then handle_init src
  else if type h =? PKT_INIT_ACK then handle_init_ack h
  else if (type h =? PKT_STREAM_DATA) || (type h =? PKT_STREAM_DATA_X2) || (type h =? PKT_STREAM_DATA_X3)
  then handle_stream_data src (type h) mem len
  else if type h =? PKT_PING then handle_ping src (pseq h)
  else if type h =? PKT_PONG then handle_pong src h
  else if type h =? PKT_STREAM_STATE then handle_stream_state
  else if type h =? PKT_LAN_ENDPOINT then handle_lan_endpoint
  else if type h =? PKT_NETWORK_CHANGED then handle_network_changed cur
  else if type h =? PKT_STREAM_EC then handle_stream_ec
  else mret tt.
End packets.

(** ** A packet *)
Section packet.
Import BufferInputStream.

(** A peer that is heard from another address than the one known. *)
Definition roam (src : Z) (from : NetworkAddress.t) (fromPort : Z) : M C unit :=
  e ← on_routes (Endpoints.at_ src);
  if bool_decide (Endpoint.type e = Endpoint.UDP_P2P_INET) && negb (Endpoint.IsIPv6Only e) &&
     (negb (Endpoint.port e =? fromPort) || negb (NetworkAddress.eqb (Endpoint.address e) from)) then
    match from with
    | NetworkAddress.IPv4 _ =>
        on_routes (modify (λ r, r <| Endpoints.endpoints ::=
          OMap.update src (λ e, e <| Endpoint.address := from |> <| Endpoint.port := fromPort |>) |>))
    | NetworkAddress.IPv6 _ => mret tt
    end
  else mret tt.

(** The peer is heard through a relay while what is sent to it is not
    acknowledged: it moved; the endpoint that is current afterwards. *)
Definition follow (src : Z) : M C Z :=
  s ← get;
  let cur := Endpoints.currentEndpoint (routes s) in
  c ← on_routes (Endpoints.at_ cur);
  e ← on_routes (Endpoints.at_ src);
  if negb (src =? cur) && Endpoint.is_relay e && (negb (Endpoint.is_relay c) || D.eqb (Endpoint.averageRTT c) D.zero) &&
     seqgt (u32 (Link.lastSentSeq (link s) - 32)) (Link.lastRemoteAckSeq (link s)) then
    set_current src;;
    (if Endpoints.allowP2p (routes s) then SendPublicEndpointsRequest else mret tt);;
    mret src
  else mret cur.

(** What acknowledgements lead to: sending resumes, extras are delivered. *)
Definition acknowledged (a : bool * list Link.UnacknowledgedExtraData) : M C unit :=
  let '(resume, gone) := a in
  (if resume : bool then post ResumeSending (D.of_Z 1) D.zero else mret tt);;
  acknowledged_extras gone.

(** From the header on. *)
Definition process_header (src : Z) (mem : bytes) (len : Z) (h : header) : M (I * C) unit :=
  r ← on_self (on_link (Link.receive_seq (pseq h)));
  match r with
  | Link.Duplicated | Link.TooLate => mret tt
  | Link.Accepted =>
      a ← on_self (on_link (Link.receive_ack (ackId h) (acks h)));
      on_self (acknowledged a);;
      cur ← on_self (follow src);
      read_extras ProcessExtraData h;;
      dispatch src cur mem len h
  end.

(** [ProcessIncomingPacket(packet, srcEndpoint)]; [src] is the key of the
    endpoint. *)
Definition ProcessIncomingPacket (packet : NetworkPacket) (src : Z) : M C unit :=
  let mem := n_data packet in
  with_stream (ctor (take (Z.to_nat (n_length packet)) mem) (n_length packet))
    (s ← on_self get;
     e ← on_self (on_routes (Endpoints.at_ src));
     o ← on_stream (Wire.open_packet (conf s) (relay_tag e) mem);
     match o with
     | Wire.Dropped => mret tt
     | Wire.RelayReply i => on_stream (put i);; relay_reply src
     | Wire.Packet i innerLen upgrade =>
         on_stream (put i);;
         (if upgrade then on_self (modify (set_useMTProto2 true)) else mret tt);;
         now ← on_self GetCurrentTime;
         on_self (modify (λ s, s <| lastRecvPacketTime := now |>));;
         (if bool_decide (state s = STATE_RECONNECTING) then on_self (SetState STATE_ESTABLISHED) else mret tt);;
         on_self (roam src (n_address packet) (n_port packet));;
         p ← on_stream (read_header (conf s) innerLen);
         match p with
         | Ignored => mret tt
         | CallFailed err => on_self (fail err)
         | Header h => process_header src (overwrite mem 0 (buffer i)) (n_length packet) h
         end
     end).
End packet.

(** ** The receive thread *)

(** A datagram that a socket received; exceptions of parsing are caught. *)
Definition receive (packet : NetworkPacket) : M C unit :=
  if n_length packet =? 0 then mret tt
  else
    src ← on_routes (Endpoints.source_endpoint (n_address packet) (n_port packet) (n_protocol packet));
    if src =? 0 then mret tt
    else
      count_received (n_length packet);;
      try_catch (ProcessIncomingPacket packet src) (λ _, mret tt).

(** The packets that wait for a socket; those whose endpoint is gone are
    dropped. *)
Fixpoint flush (l : list Link.PendingOutgoingPacket) : M C (list Link.PendingOutgoingPacket) :=
  match l with
  | [] => mret []
  | pkt :: l' =>
      endpoint ← on_routes (Endpoints.GetEndpointForPacket (Link.p_endpoint pkt));
      match endpoint with
      | None => flush l'
      | Some e =>
          s ← get;
          canSend ← (if negb (bool_decide (Endpoint.type e = Endpoint.TCP_RELAY)) then mret (udpReady s)
                     else match Endpoint.socket e with
                          | None => mret false
                          | Some p => k ← on_routes (Endpoints.socket_at p); mret (Endpoints.ready k && negb (Endpoints.failed k))
                          end);
          if canSend : bool then _ ← SendOrEnqueuePacket pkt false; flush l'
          else l' ← flush l'; mret (pkt :: l')
      end
  end.
Definition flush_send_queue : M C unit :=
  s ← get;
  q ← flush (sendQueue s);
  modify (λ s, s <| sendQueue := q |>).
End ops.
End Incoming.
