(* ===== verification/Timers.v ===== *)
(** * libtgvoip/VoIPController.cpp: timers and audio input

    What the message thread runs while a call lasts (the "timer methods" and
    the bodies posted by other functions) and what the encoder thread calls
    for every frame of the microphone ([HandleAudioInput]).

    [Call.t] is the state of [Controller] with the members that only these
    functions use.  A proxy for UDP is one flag: is [udpSocket] another
    socket than [realUdpSocket]? *)

From Stdlib Require Import ZArith Lia SpecFloat List.
From stdpp Require Import base tactics list numbers option gmap strings.
From S2P Require Import Prelude Words Double History Memory Buffers Streams Seq Congestion Link Net Wire Packet.
From S2P Require Import Jitter Reassembler Endpoints Controller Setup.
From stdpp Require Import list.
Open Scope Z_scope.

(** [HistoricBuffer<unsigned int, 5>] and [HistoricBuffer<unsigned char, 4, int>]. *)
Definition uint_ops : HistoricOps Z Z := {|
  t_zero := 0; a_zero := 0; a_add a i := u32 (a + i); a_div a n := a / n;
  t_ltb := Z.ltb; t_nonzero x := negb (x =? 0); t_limit_min := 0; t_limit_max := 4294967295;
|}.
Definition uchar_int_ops : HistoricOps Z Z := {|
  t_zero := 0; a_zero := 0; a_add a i := a + i; a_div a n := Z.quot a n;
  t_ltb := Z.ltb; t_nonzero x := negb (x =? 0); t_limit_min := 0; t_limit_max := 255;
|}.

Module Call.
Import Packet Controller.
#[local] Abbreviation C := Controller.t.

Definition NEED_RATE_FLAG_SHITTY_INTERNET_MODE : Z := 1.
Definition NEED_RATE_FLAG_UDP_NA : Z := 2.
Definition NEED_RATE_FLAG_UDP_BAD : Z := 4.
Definition NEED_RATE_FLAG_RECONNECTING : Z := 8.
Definition DBL_MAX : double := S754_finite false 9007199254740991 971.

Record t := mk {
  base : C;
  audioTimestampOut : Z;
  recvLossCount : Z;
  prevSendLossCount : Z;
  sendLossCountHistory : HistoricBuffer.t Z;
  signalBarsHistory : HistoricBuffer.t Z;
  unsentStreamPacketsHistory : HistoricBuffer.t Z;
  shittyInternetMode : bool;
  extraEcLevel : Z;
  ecAudioPackets : list bytes;
  wasExtraEC : bool;
  wasReconnecting : bool;
  wasEncoderLaggy : bool;
  complexity : Z;                (** of the encoder, which lowers it when it is late *)
  udpProxy : bool;               (** [proxyProtocol==PROXY_SOCKS5 && udpSocket!=realUdpSocket] *)
  proxySupportsUDP : bool;
  videoSource : bool;            (** is there one? *)
  cancelCurrent : bool;          (** [messageThread.CancelSelf()] was called *)
  barsReported : list Z;         (** calls of [callbacks.signalBarCountChanged], the last one first *)
  statesReported : list State;   (** calls of [callbacks.connectionStateChanged] *)
}.
#[global] Instance call_eta : Eta t := λ s,
  mk (base s) (audioTimestampOut s) (recvLossCount s) (prevSendLossCount s) (sendLossCountHistory s) (signalBarsHistory s)
     (unsentStreamPacketsHistory s) (shittyInternetMode s) (extraEcLevel s) (ecAudioPackets s) (wasExtraEC s)
     (wasReconnecting s) (wasEncoderLaggy s) (complexity s) (udpProxy s) (proxySupportsUDP s) (videoSource s)
     (cancelCurrent s) (barsReported s) (statesReported s).

(** A new call around a controller. *)
Definition create (c : C) (supports : bool) : t :=
  mk c 0 0 0 (HistoricBuffer.ctor (A := double) 10) (HistoricBuffer.ctor (H := uchar_int_ops) 4)
     (HistoricBuffer.ctor (H := uint_ops) 5) false 0 [] false false false 10 false supports false false [] [].

Definition on_base {X} : M C X → M t X := zoom base (λ c s, s <| base := c |>).
(** A member of the controller. *)
Definition the {X} (f : C → X) : M t X := s ← get; mret (f (base s)).

Section ops.
Context `{CryptoFunctions, Clock, Random, ServerConfig}.

(** ** Availability of UDP *)

(** [SendUdpPing(endpoint)]. *)
Definition SendUdpPing (e : Endpoint.t) : M C unit :=
  if negb (bool_decide (Endpoint.type e = Endpoint.UDP_RELAY)) then mret tt
  else
    id ← rand_bytes 8;
    emit (RawDatagram (Endpoint.GetAddress e) (Endpoint.port e)
            (take 16 (Endpoint.peerTag e) ++ replicate 12 255 ++ le_bytes 4 (u32 (-2)) ++ id)).

Definition ResetUdpAvailability : M C unit :=
  s ← get;
  (if negb (udpPingTimeoutID s =? INVALID_ID) then Cancel (udpPingTimeoutID s) else mret tt);;
  on_routes (Endpoints.for_each (λ e, e <| Endpoint.udpPongCount := 0 |>));;
  modify (λ s, s <| udpPingCount := 0 |> <| udpConnectivityState := UDP_PING_PENDING |>);;
  i ← Post SendUdpPings_ D.zero (D.of_dec 5 1);
  modify (λ s, s <| udpPingTimeoutID := i |>).

Definition SendUdpPings : M t unit :=
  es ← the (λ c, OMap.values (Endpoints.endpoints (routes c)));
  on_base (each_endpoint (λ e, if bool_decide (Endpoint.type e = Endpoint.UDP_RELAY) then SendUdpPing e else mret tt) es);;
  on_base (modify (λ c,
    let u := udpConnectivityState c in
    (if bool_decide (u = UDP_UNKNOWN) || bool_decide (u = UDP_PING_PENDING) then c <| udpConnectivityState := UDP_PING_SENT |> else c)
      <| udpPingCount ::= λ n, s32 (n + 1) |>));;
  n ← the udpPingCount;
  if (n =? 4) || (n =? 10) then
    modify (λ s, s <| cancelCurrent := true |>);;
    on_base (i ← Post EvaluateUdpPingResults_ (D.of_Z 1) D.zero; modify (λ c, c <| udpPingTimeoutID := i |>))
  else mret tt.

(** The average over the relays that answered. *)
Definition average_pongs (es : list Endpoint.t) : double :=
  let answered := List.filter (λ e, bool_decide (Endpoint.type e = Endpoint.UDP_RELAY) && (0 <? Endpoint.udpPongCount e)) es in
  let sum := foldl (λ a e, D.add a (D.of_Z (Endpoint.udpPongCount e))) D.zero answered in
  if (0 <? Datatypes.length answered)%nat then D.div sum (D.of_Z (zlen answered)) else D.zero.

Definition set_needRate (flag : Z) : M C unit :=
  modify (λ c, if has (needRateFlags (limits c)) flag then c <| needRate := true |> else c).

Definition EvaluateUdpPingResults : M t unit :=
  es ← the (λ c, OMap.values (Endpoints.endpoints (routes c)));
  let avgPongs := average_pongs es in
  s ← get;
  if D.eqb avgPongs D.zero && udpProxy s then
    modify (λ s, s <| udpProxy := false |> <| proxySupportsUDP := false |>);;
    on_base (emit CancelSelect;; ResetUdpAvailability)
  else on_base (
    if GetBoolean "use_tcp" true then
      c ← get;
      if D.eqb avgPongs D.zero || (bool_decide (udpConnectivityState c = UDP_BAD) && D.ltb avgPongs (D.of_Z 7)) then
        set_needRate NEED_RATE_FLAG_UDP_NA;;
        modify (λ c, c <| udpConnectivityState := UDP_NOT_AVAILABLE |>);;
        on_routes (modify (λ r, r <| Endpoints.useTCP := true |> <| Endpoints.useUDP := D.gtb avgPongs (D.of_Z 1) |>));;
        cur ← on_routes (Endpoints.at_ (Endpoints.currentEndpoint (routes c)));
        (if bool_decide (Endpoint.type cur = Endpoint.TCP_RELAY) then mret tt
         else on_routes (modify (λ r, r <| Endpoints.setCurrentEndpointToTCP := true |>)));;
        on_routes Endpoints.AddTCPRelays;;
        modify (λ c, c <| waitingForRelayPeerInfo := false |>)
      else if D.ltb avgPongs (D.of_Z 3) then
        set_needRate NEED_RATE_FLAG_UDP_BAD;;
        modify (λ c, c <| udpConnectivityState := UDP_BAD |>);;
        on_routes (modify (λ r, r <| Endpoints.useTCP := true |> <| Endpoints.setCurrentEndpointToTCP := true |>));;
        on_routes Endpoints.AddTCPRelays;;
        i ← Post SendUdpPings_ (D.of_dec 5 1) (D.of_dec 5 1);
        modify (λ c, c <| udpPingTimeoutID := i |>)
      else modify (λ c, c <| udpPingTimeoutID := INVALID_ID |> <| udpConnectivityState := UDP_AVAILABLE |>)
    else modify (λ c, c <| udpPingTimeoutID := INVALID_ID |> <| udpConnectivityState := UDP_NOT_AVAILABLE |>)).

(** ** Choosing the endpoint *)

(** A ping to an endpoint, every ten seconds. *)
Definition ping_if_due (k : Z) : M C unit :=
  s ← get;
  e ← defined (OMap.find k (Endpoints.endpoints (routes s)));
  now ← GetCurrentTime;
  if D.geb (D.sub now (Endpoint.lastPingTime e)) (D.of_Z 10) then
    sq ← on_link Link.GenerateOutSeq;
    on_routes (modify (λ r, r <| Endpoints.endpoints ::= OMap.update k (λ e, e <| Endpoint.lastPingSeq := sq |>) |>));;
    _ ← SendOrEnqueuePacket (Link.mkpending sq PKT_PING 0 [] (Endpoint.id e)) true;
    now ← GetCurrentTime;
    on_routes (modify (λ r, r <| Endpoints.endpoints ::= OMap.update k (λ e, e <| Endpoint.lastPingTime := now |>) |>))
  else mret tt.

(** The loop of [SendRelayPings]: the shortest ping so far and whose it is. *)
Fixpoint ping_relays (ks : list Z) (best : double * Z) : M C (double * Z) :=
  match ks with
  | [] => mret best
  | k :: ks' =>
      s ← get;
      e ← defined (OMap.find k (Endpoints.endpoints (routes s)));
      let r := routes s in
      let udp := bool_decide (Endpoint.type e = Endpoint.UDP_RELAY) in
      let tcp := bool_decide (Endpoint.type e = Endpoint.TCP_RELAY) in
      if tcp && negb (Endpoints.useTCP r) then ping_relays ks' best
      else if udp && negb (Endpoints.useUDP r) then ping_relays ks' best
      else
        ping_if_due k;;
        let '(minPing, _) := best in
        let ping := D.mul (Endpoint.averageRTT e) (D.of_Z (if udp then 1 else 2)) in
        let better := ((Endpoints.useUDP r && udp) || (Endpoints.useTCP r && tcp)) &&
          D.gtb (Endpoint.averageRTT e) D.zero && D.ltb ping (D.mul minPing (relaySwitchThreshold (limits s))) in
        ping_relays ks' (if better then (ping, Endpoint.id e) else best)
  end.

(** What follows the loop: [cur] is the key of [_currentEndpoint]. *)
Definition average_of (k : Z) (r : Endpoints.t) : option double := Endpoint.averageRTT <$> OMap.find k (Endpoints.endpoints r).
Definition set_current (k : Z) : M C unit := on_routes (modify (λ r, r <| Endpoints.currentEndpoint := k |>)).
Definition switch_endpoint (minPing : double) (cur : Z) : M C unit :=
  s ← get;
  let r := routes s in
  c ← defined (OMap.find cur (Endpoints.endpoints r));
  if bool_decide (Endpoint.type c = Endpoint.UDP_RELAY) && Endpoints.useUDP r then
    let limit := D.mul minPing (relayToP2pSwitchThreshold (limits s)) in
    let good a := D.gtb a D.zero && D.ltb a limit in
    match average_of p2pID r with
    | None => mret tt
    | Some p2p =>
        if match average_of lanID r with Some lan => good lan | None => false end then set_current lanID
        else if good p2p then set_current p2pID
        else mret tt
    end
  else if D.gtb minPing D.zero && D.ltb minPing (D.mul (Endpoint.averageRTT c) (p2pToRelaySwitchThreshold (limits s)))
  then set_current (Endpoints.preferredRelay r)
  else mret tt.

Definition SendRelayPings : M C unit :=
  s ← get;
  if (bool_decide (state s = STATE_ESTABLISHED) || bool_decide (state s = STATE_RECONNECTING)) &&
     (1 <? Datatypes.length (Endpoints.endpoints (routes s)))%nat then
    let r := routes s in
    p ← on_routes (Endpoints.at_ (Endpoints.preferredRelay r));
    c ← on_routes (Endpoints.at_ (Endpoints.currentEndpoint r));
    let ping := D.mul (Endpoint.averageRTT p) (D.of_Z (if bool_decide (Endpoint.type p = Endpoint.TCP_RELAY) then 2 else 1)) in
    let ping := if D.eqb ping D.zero then DBL_MAX else ping in
    '(minPing, best) ← ping_relays (OMap.keys (Endpoints.endpoints r)) (ping, Endpoint.id p);
    cur ←
      (if negb (best =? Endpoints.preferredRelay r) then
         on_routes (modify (λ r, r <| Endpoints.preferredRelay := best |>));;
         if Endpoint.is_relay c then set_current best;; mret best else mret (Endpoints.currentEndpoint r)
       else mret (Endpoints.currentEndpoint r));
    switch_endpoint minPing cur
  else mret tt.

(** ** Round-trip time and losses *)

(** An operation of the jitter buffer of every incoming stream that has one. *)
Fixpoint jitter_buffers {X} (m : M JitterBuffer.t X) (f : X → M t unit) (done : list Stream) (l : list Stream) : M t unit :=
  match l with
  | [] => mret tt
  | st :: l' =>
      match jitterBuffer st with
      | None => jitter_buffers m f (done ++ [st]) l'
      | Some j =>
          match m j with
          | Ret x j' =>
              let st' := st <| jitterBuffer := Some j' |> in
              on_base (modify (λ c, c <| incomingStreams := done ++ st' :: l' |>));;
              f x;;
              jitter_buffers m f (done ++ [st']) l'
          | Throw e _ => throw e
          | Crash c => crash_with c
          end
      end
  end.
Definition each_jitter_buffer {X} (m : M JitterBuffer.t X) (f : X → M t unit) : M t unit :=
  l ← the incomingStreams;
  jitter_buffers m f [] l.

Definition take_lost : M JitterBuffer.t Z := λ j, let '(n, j') := JitterBuffer.GetAndResetLostPacketCount j in Ret n j'.
Definition UpdateRTT : M t unit :=
  on_base (on_link (modify (λ l, l <| Link.rttHistory ::= HistoricBuffer.Add (Link.GetAverageRTT l) |>)));;
  c ← the id;
  let h := Link.rttHistory (link c) in
  r0 ← defined (HistoricBuffer.index h 0);
  r8 ← (if D.gtb r0 (D.of_Z 10) then defined (HistoricBuffer.index h 8) else mret D.zero);
  let slow := D.gtb r0 (D.of_Z 10) && D.gtb r8 (D.of_Z 10) &&
    (bool_decide (networkType c = NET_TYPE_EDGE) || bool_decide (networkType c = NET_TYPE_GPRS)) in
  on_base (on_link (modify (λ l, l <| Link.waitingForAcks := slow |>)));;
  each_jitter_buffer take_lost (λ lost,
    let lostCount := s32 lost in
    modify (λ s, if (0 <? lostCount) || ((lostCount <? 0) && (u32 (- lostCount) <? recvLossCount s))
                 then s <| recvLossCount ::= λ n, u32 (n + lostCount) |> else s)).

(** [1000/(double) outgoingStreams[0]->frameDuration]. *)
Definition packetsPerSec (c : C) : option double :=
  st ← head (outgoingStreams c);
  Some (D.div (D.of_Z 1000) (D.of_Z (frameDuration st))).
Definition avgSendLossCount (s : t) (perSec : double) : double :=
  D.div (HistoricBuffer.Average (A := double) (sendLossCountHistory s)) perSec.

(** The first outgoing audio stream starts or stops sending extra error
    correction. *)
Fixpoint set_extra_ec (b : bool) (done l : list Stream) : M C unit :=
  match l with
  | [] => mret tt
  | st :: l' =>
      if s_type st =? STREAM_TYPE_AUDIO then
        let st := st <| extraECEnabled := b |> in
        modify (λ c, c <| outgoingStreams := done ++ st :: l' |>);;
        SendStreamFlags st
      else set_extra_ec b (done ++ [st]) l'
  end.
Definition extra_ec (b : bool) : M C unit :=
  c ← get;
  set_extra_ec b [] (outgoingStreams c);;
  on_audio (λ a, a <| encoder ::= fmap (λ e, e <| secondary := b |>) |>).

(** [encoder->SetPacketLoss(percent)]. *)
Definition SetPacketLoss (percent : Z) : M C unit :=
  on_audio (λ a, a <| encoder ::= fmap (λ e, e <| packetLoss := Z.min 20 percent |>) |>).
(** The percentage for a loss, and the level of error correction when it
    changes. *)
Definition loss_level (avg : double) : Z * option Z :=
  if D.gtb avg (D.of_dec 8 2) then (40, Some 4)
  else if D.gtb avg (D.of_dec 75 3) then (35, Some 3)
  else if D.gtb avg (D.of_dec 5 2) then (30, Some 3)
  else if D.gtb avg (D.of_dec 3 2) then (25, Some 2)
  else if D.gtb avg (D.of_dec 2 2) then (20, Some 2)
  else if D.gtb avg (D.of_dec 1 2) then (17, None)
  else (15, None).
Definition slow_network (c : C) : bool :=
  bool_decide (networkType c = NET_TYPE_GPRS) || bool_decide (networkType c = NET_TYPE_EDGE).

Definition UpdateCongestion : M t unit :=
  c ← the id;
  match encoder (audio c) with
  | None => mret tt
  | Some _ =>
      let sendLossCount := CongestionControl.GetSendLossCount (Link.conctl (link c)) in
      modify (λ s, s <| sendLossCountHistory ::= HistoricBuffer.Add (u32 (sendLossCount - prevSendLossCount s)) |>
                     <| prevSendLossCount := sendLossCount |>);;
      perSec ← defined (packetsPerSec c);
      s ← get;
      let avg := avgSendLossCount s perSec in
      (if D.gtb avg (packetLossToEnableExtraEC (limits c)) && negb (slow_network c) && negb (shittyInternetMode s) then
         modify (λ s, s <| shittyInternetMode := true |>);;
         on_base (extra_ec true;; set_needRate NEED_RATE_FLAG_SHITTY_INTERNET_MODE);;
         modify (λ s, s <| wasExtraEC := true |>)
       else mret tt);;
      let '(loss, level) := loss_level avg in
      on_base (SetPacketLoss loss);;
      (if level is Some l then modify (λ s, s <| extraEcLevel := l |>) else mret tt);;
      (if D.gtb avg (rateMaxAcceptableSendLoss (limits c)) then on_base (modify (λ c, c <| needRate := true |>)) else mret tt);;
      s ← get;
      (if (D.ltb avg (packetLossToEnableExtraEC (limits c)) || slow_network c) && shittyInternetMode s then
         modify (λ s, s <| shittyInternetMode := false |>);;
         on_base (extra_ec false)
       else mret tt);;
      modify (λ s, if negb (wasEncoderLaggy s) && (complexity s <? 10) then s <| wasEncoderLaggy := true |> else s)
  end.

(** ** Bitrate and connectivity *)

(** [conctl->GetBandwidthControlAction()] reads the clock again when there is
    something to do. *)
Definition bandwidth_action : M Link.t CongestionControl.action :=
  now ← Link.GetCurrentTime;
  l ← get;
  match CongestionControl.GetBandwidthControlAction now now (Link.conctl l) with
  | (CongestionControl.ACT_NONE, _) => mret CongestionControl.ACT_NONE
  | (a, _) =>
      now2 ← Link.GetCurrentTime;
      modify (λ l, l <| Link.conctl ::= λ c, (CongestionControl.GetBandwidthControlAction now now2 c).2 |>);;
      mret a
  end.

Definition SetBitrate (b : Z) : M C unit := on_audio (λ a, a <| encoder ::= fmap (λ e, e <| bitrate := b |>) |>).
(** The new bitrate. *)
Definition next_bitrate (shitty : bool) (act : CongestionControl.action) (l : Limits) (mx b : Z) : Z :=
  if shitty then 8000
  else match act with
       | CongestionControl.ACT_DECREASE =>
           if 8000 <? b then
             if b <? u32 (minAudioBitrate l + audioBitrateStepDecr l) then minAudioBitrate l
             else u32 (b - audioBitrateStepDecr l)
           else b
       | CongestionControl.ACT_INCREASE => if b <? mx then u32 (b + audioBitrateStepIncr l) else b
       | CongestionControl.ACT_NONE => b
       end.

(** The flags of the network are sent to the peer. *)
Definition send_network_changed : M C unit :=
  s ← get;
  buf ← built (BufferOutputStream.ctor 4)
          (BufferOutputStream.WriteInt32 (if dataSavingMode s then INIT_FLAG_DATA_SAVING_ENABLED else 0));
  if peerVersion s <? 6 then SendPacketReliably PKT_NETWORK_CHANGED buf (D.of_Z 1) (D.of_Z 20)
  else SendExtra buf EXTRA_TYPE_NETWORK_CHANGED.

(** Nothing was received for too long. *)
Definition receive_timeout (time : double) : M C unit :=
  s ← get;
  cur ← on_routes (Endpoints.at_ (Endpoints.currentEndpoint (routes s)));
  if negb (Endpoint.is_relay cur) then
    on_routes (modify (λ r, r <| Endpoints.currentEndpoint := Endpoints.preferredRelay r |>));;
    on_routes (Endpoints.for_each (λ e, if Endpoint.is_relay e then e else Endpoint.forget_rtt e));;
    (if Endpoints.allowP2p (routes s) then SendPublicEndpointsRequest else mret tt);;
    UpdateDataSavingState;;
    UpdateAudioBitrateLimit;;
    send_network_changed;;
    modify (λ s, s <| lastRecvPacketTime := time |>)
  else fail ERROR_TIMEOUT.

Definition UpdateAudioBitrate : M t unit :=
  c ← the id;
  match encoder (audio c) with
  | None => mret tt
  | Some _ =>
      time ← on_base GetCurrentTime;
      let a := audio c in
      (if (audioInput a && negb (input_ok a)) || (audioOutput a && negb (output_ok a)) then on_base (fail ERROR_AUDIO_IO) else mret tt);;
      act ← on_base (on_link bandwidth_action);
      s ← get;
      on_base (c ← get;
        e ← defined (encoder (audio c));
        SetBitrate (next_bitrate (shittyInternetMode s) act (limits c) (maxBitrate c) (bitrate e)));;
      c ← the id;
      (if bool_decide (state c = STATE_ESTABLISHED) &&
          D.geb (D.sub time (lastRecvPacketTime c)) (reconnectingTimeout (limits c)) then
         on_base (SetState STATE_RECONNECTING;; set_needRate NEED_RATE_FLAG_RECONNECTING);;
         modify (λ s, s <| wasReconnecting := true |>);;
         on_base ResetUdpAvailability
       else mret tt);;
      c ← the id;
      if (bool_decide (state c = STATE_ESTABLISHED) || bool_decide (state c = STATE_RECONNECTING)) &&
         D.geb (D.sub time (lastRecvPacketTime c)) (recvTimeout (config c))
      then on_base (receive_timeout time)
      else mret tt
  end.

(** ** Signal bars *)

Definition GetSignalBarsCount (s : t) : Z := HistoricBuffer.NonZeroAverage (H := uchar_int_ops) (signalBarsHistory s).

(** The number of bars before the jitter buffers are asked. *)
Definition bars_of (reconnecting waiting tcp : bool) (avg : double) : Z :=
  let n := if reconnecting || waiting then 1 else 4 in
  let n := if tcp then Z.min n 3 else n in
  if D.gtb avg (D.of_dec 1 1) then 1
  else if D.gtb avg (D.of_dec 625 4) then Z.min n 2
  else if D.gtb avg (D.of_dec 25 3) then Z.min n 3
  else n.
(** The late packets of one jitter buffer. *)
Definition late_bars (n : Z) (late : double) : Z :=
  if D.geb late (D.of_dec 2 1) then 1 else if D.geb late (D.of_dec 1 1) then Z.min n 2 else n.
Fixpoint all_late_bars (n : Z) (l : list Stream) : M t Z :=
  match l with
  | [] => mret n
  | st :: l' =>
      match jitterBuffer st with
      | None => all_late_bars n l'
      | Some j =>
          late ← defined (JitterBuffer.GetAverageLateCount j);
          all_late_bars (late_bars n late.2) l'
      end
  end.

Definition UpdateSignalBars : M t unit :=
  s ← get;
  let prev := GetSignalBarsCount s in
  let c := base s in
  perSec ← defined (packetsPerSec c);
  cur ← on_base (on_routes (Endpoints.at_ (Endpoints.currentEndpoint (routes c))));
  n ← all_late_bars (bars_of (bool_decide (state c = STATE_RECONNECTING)) (Link.waitingForAcks (link c))
        (bool_decide (Endpoint.type cur = Endpoint.TCP_RELAY)) (avgSendLossCount s perSec)) (incomingStreams c);
  modify (λ s, s <| signalBarsHistory ::= HistoricBuffer.Add (u8 n) |>);;
  s ← get;
  let count := GetSignalBarsCount s in
  if negb (count =? prev) then modify (λ s, s <| barsReported ::= cons count |>) else mret tt.

(** ** Packets sent by timers *)

(** The updates to come are posted before anything is sent. *)
Fixpoint post_updates (l : list (Link.PendingOutgoingPacket * double)) : M C unit :=
  match l with [] => mret tt | (_, delay) :: l' => post UpdateQueuedPackets_ delay D.zero;; post_updates l' end.
Fixpoint send_all (l : list (Link.PendingOutgoingPacket * double)) : M C unit :=
  match l with [] => mret tt | (pkt, _) :: l' => _ ← SendOrEnqueuePacket pkt true; send_all l' end.
Definition UpdateQueuedPackets : M C unit :=
  l ← on_link Link.update_queued_packets;
  post_updates l;;
  send_all l.

Definition SendNopPacket : M C unit :=
  s ← get;
  if negb (bool_decide (state s = STATE_ESTABLISHED)) then mret tt
  else
    sq ← on_link Link.GenerateOutSeq;
    on_link (modify (λ l, l <| Link.firstSentPing := sq |>));;
    _ ← SendOrEnqueuePacket (Link.mkpending sq PKT_NOP 0 [] 0) true;
    mret tt.

(** [TickJitterBufferAngCongestionControl]; every slot of the congestion
    control has a reading of the clock of its own. *)
Definition tick_conctl : M Link.t unit :=
  n ← gets Link.ticks;
  modify (λ l, l <| Link.ticks := (n + 100)%nat |> <| Link.conctl ::= CongestionControl.Tick (λ i, clock (n + i)) |>).
Definition Tick : M t unit :=
  each_jitter_buffer JitterBuffer.Tick (λ _, mret tt);;
  on_base (on_link tick_conctl).

(** ** The message thread *)

(** The bodies of the messages. *)
Definition perform (f : task) : M t unit :=
  match f with
  | ConnectionStateChanged st => modify (λ s, s <| statesReported ::= cons st |>)
  | UpdateRTT_ => UpdateRTT
  | UpdateAudioBitrate_ => UpdateAudioBitrate
  | UpdateCongestion_ => UpdateCongestion
  | UpdateSignalBars_ => UpdateSignalBars
  | Tick_ => Tick
  | SendNopPacket_ => on_base SendNopPacket
  | UpdateQueuedPackets_ => on_base UpdateQueuedPackets
  | SendInitAgain =>
      on_base (c ← get; if bool_decide (state c = STATE_WAIT_INIT_ACK) then Setup.SendInit else mret tt)
  | ResendPublicEndpointsRequest =>
      on_base (c ← get; if waitingForRelayPeerInfo c then SendPublicEndpointsRequest else mret tt)
  | SendUdpPings_ => SendUdpPings
  | EvaluateUdpPingResults_ => EvaluateUdpPingResults
  | SendRelayPings_ => on_base SendRelayPings
  | InitTimeout => on_base (fail ERROR_TIMEOUT)
  | ResumeSending => on_base (on_link (modify (λ l, l <| Link.dontSendPackets := 0 |>)))
  | EstablishIfWaiting =>
      on_base (c ← get; if bool_decide (state c = STATE_WAIT_INIT_ACK) then SetState STATE_ESTABLISHED else mret tt)
  | Establish => on_base (SetState STATE_ESTABLISHED)
  | GroupCallKeyReceived | GroupCallKeySent | UpgradeRequested => mret tt
  end.

(** One round of the message thread for a message that is due: it leaves the
    queue, runs, and is posted again when it repeats and did not cancel
    itself ([MessageThread] has the queue and its order). *)
Definition run_message (m : message) : M t unit :=
  on_base (Cancel (m_id m));;
  modify (λ s, s <| cancelCurrent := false |>);;
  perform (m_task m);;
  s ← get;
  if negb (cancelCurrent s) && D.gtb (m_interval m) D.zero
  then on_base (modify (λ c, c <| messages ::= λ l, l ++ [m] |>)) else mret tt.

(** ** Audio input *)

(** The last four frames of the second encoder; those that are sent are the
    last [extraEcLevel]. *)
Definition remember_ec (secondary : bytes) : M t unit :=
  modify (λ s, s <| ecAudioPackets ::= λ l, let l := l ++ [secondary] in drop (Datatypes.length l - 4) l |>).
Fixpoint write_frames (l : list bytes) : M BufferOutputStream.t unit :=
  match l with
  | [] => mret tt
  | d :: l' => BufferOutputStream.WriteByte (u8 (zlen d));; BufferOutputStream.WriteBytes d;; write_frames l'
  end.
Definition write_ec (s : t) : M BufferOutputStream.t unit :=
  let l := ecAudioPackets s in
  BufferOutputStream.WriteByte (u8 (Z.min (zlen l) (extraEcLevel s)));;
  write_frames (drop (Z.to_nat (Z.max 0 (zlen l - extraEcLevel s))) l).

(** A packet of audio: the frame, and earlier ones when [fec]. *)
Definition audio_packet (fec : bool) (frame : bytes) (s : t) : M BufferOutputStream.t unit :=
  let long := (255 <? zlen frame) || fec in
  BufferOutputStream.WriteByte (if long then Z.lor 1 STREAM_DATA_FLAG_LEN16 else 1);;
  (if long then BufferOutputStream.WriteInt16 (s16 (if fec then Z.lor (s16 (zlen frame)) STREAM_DATA_XFLAG_EXTRA_FEC else zlen frame))
   else BufferOutputStream.WriteByte (u8 (zlen frame)));;
  BufferOutputStream.WriteInt32 (s32 (audioTimestampOut s));;
  BufferOutputStream.WriteBytes frame;;
  (if fec then write_ec s else mret tt).

(** [conctl->PacketSent(seq, size)]. *)
Definition conctl_sent (sq len : Z) : M Link.t unit :=
  now ← Link.GetCurrentTime;
  l ← get;
  match CongestionControl.PacketSent sq len now (Link.conctl l) with
  | None => crash_with AssertFailed
  | Some c => put (l <| Link.conctl := c |>)
  end.

(** The queue does not move any more. *)
Definition reset_stalled : M t unit :=
  s ← get;
  modify (λ s, s <| unsentStreamPacketsHistory ::= HistoricBuffer.Add (unsentStreamPackets (base s)) |>);;
  s ← get;
  if (maxUnsentStreamPackets (limits (base s)) <=? HistoricBuffer.Average (H := uint_ops) (unsentStreamPacketsHistory s)) &&
     negb (videoSource s) then
    modify (λ s, s <| unsentStreamPacketsHistory ::= HistoricBuffer.Reset (H := uint_ops) |>
                   <| base ::= λ c, c <| sendQueue := [] |> <| unsentStreamPackets := 0 |> |>)
  else mret tt.

(** [HandleAudioInput(data, len, secondaryData, secondaryLen)]. *)
Definition HandleAudioInput (frame secondary : bytes) : M t unit :=
  s ← get;
  if stopping (base s) then mret tt
  else
    reset_stalled;;
    s ← get;
    let c := base s in
    if Link.waitingForAcks (link c) || (0 <? Link.dontSendPackets (link c)) ||
       (maxUnsentStreamPackets (limits c) <=? unsentStreamPackets c) then mret tt
    else if negb (receivedInitAck c) then mret tt
    else
      let has_secondary := negb (bool_decide (secondary = [])) in
      let fec := (7 <=? peerVersion c) && has_secondary && shittyInternetMode s in
      (if fec then remember_ec secondary else mret tt);;
      s ← get;
      pkt ← built (BufferOutputStream.ctor 1500) (audio_packet fec frame s);
      on_base (modify (λ c, c <| unsentStreamPackets := u32 (unsentStreamPackets c + 1) |>));;
      sq ← on_base (on_link Link.GenerateOutSeq);
      on_base (on_link (conctl_sent sq (zlen pkt)));;
      _ ← on_base (SendOrEnqueuePacket (Link.mkpending sq PKT_STREAM_DATA (zlen pkt) pkt 0) true);
      st ← defined (head (outgoingStreams c));
      (if (peerVersion c <? 7) && has_secondary && shittyInternetMode s then
         remember_ec secondary;;
         s ← get;
         pkt ← built (BufferOutputStream.ctor 1500)
                 (BufferOutputStream.WriteByte (s_id st);; BufferOutputStream.WriteInt32 (s32 (audioTimestampOut s));; write_ec s);
         on_base (send_new PKT_STREAM_EC pkt 0)
       else mret tt);;
      modify (λ s, s <| audioTimestampOut ::= λ n, u32 (n + frameDuration st) |>).
End ops.
End Call.
