(* ===== verification/Api.v ===== *)
(** * libtgvoip/VoIPController.cpp: what a program may ask of a call

    The public methods that change a call that runs: a change of network,
    the upgrade to a group call, the debugging requests, stopping. *)

From Stdlib Require Import ZArith Lia SpecFloat List.
From stdpp Require Import base tactics list numbers option gmap strings.
From S2P Require Import Prelude Words Double History Memory Buffers Streams Seq Congestion Link Net Wire Packet.
From S2P Require Import Jitter Reassembler Endpoints Controller Setup Timers.
From stdpp Require Import list.
Open Scope Z_scope.

Module Api.
Import Packet Controller.
#[local] Abbreviation C := Controller.t.

Section ops.
Context `{CryptoFunctions, Clock, Random, ServerConfig}.

(** ** A change of network *)

(** [socket->Close()]. *)
Definition close_socket (p : Z) : M Endpoints.t unit :=
  k ← Endpoints.socket_at p;
  modify (λ r, r <| Endpoints.sockets ::= <[p := Endpoints.mksock (Endpoints.ready k) true]> |>).
(** The loop over the endpoints: the first relay by UDP that is usable again
    replaces a preferred relay by TCP; sockets of the others are closed. *)
Fixpoint leave_network (preferred_tcp : bool) (ks : list Z) : M Endpoints.t unit :=
  match ks with
  | [] => mret tt
  | k :: ks' =>
      r ← get;
      e ← defined (OMap.find k (Endpoints.endpoints r));
      (if bool_decide (Endpoint.type e = Endpoint.UDP_RELAY) && Endpoints.useTCP r then
         modify (λ r, r <| Endpoints.useTCP := false |>);;
         if preferred_tcp then modify (λ r, r <| Endpoints.currentEndpoint := Endpoint.id e |> <| Endpoints.preferredRelay := Endpoint.id e |>)
         else mret tt
       else
         match Endpoint.socket e with
         | Some p => if bool_decide (Endpoint.type e = Endpoint.TCP_RELAY) then close_socket p else mret tt
         | None => mret tt
         end);;
      modify (λ r, r <| Endpoints.endpoints ::= OMap.update k Endpoint.forget_rtt |>);;
      leave_network preferred_tcp ks'
  end.
(** The endpoints when the interface is another one. *)
Definition change_interface : M Endpoints.t unit :=
  r ← get;
  if Endpoints.currentEndpoint r =? 0 then mret tt
  else
    cur ← Endpoints.at_ (Endpoints.currentEndpoint r);
    pref ← Endpoints.at_ (Endpoints.preferredRelay r);
    if bool_decide (Endpoint.type cur = Endpoint.UDP_RELAY) then mret tt
    else
      (if bool_decide (Endpoint.type pref = Endpoint.UDP_RELAY)
       then modify (λ r, r <| Endpoints.currentEndpoint := Endpoints.preferredRelay r |>) else mret tt);;
      Endpoints.erase_endpoint lanID;;
      r ← get;
      leave_network (bool_decide (Endpoint.type pref = Endpoint.TCP_RELAY)) (OMap.keys (Endpoints.endpoints r)).

(** [SetNetworkType(type)] without a proxy.  [active] is [activeNetItfName];
    [itf] and [v6] are what [GetLocalInterfaceInfo] finds.  The result is the
    interface that is active from now on. *)
Definition SetNetworkType (type : NetType) (active itf : string) (v6 : NetworkAddress.t) : M C string :=
  modify (λ s, s <| networkType := type |>);;
  UpdateDataSavingState;;
  UpdateAudioBitrateLimit;;
  on_routes (modify (λ r, r <| Endpoints.myIPv6 := v6 |>));;
  if String.eqb itf active then mret active
  else
    s ← get;
    if String.eqb active EmptyString && negb (bool_decide (state s = STATE_ESTABLISHED)) && negb (bool_decide (state s = STATE_RECONNECTING))
    then mret itf
    else
      modify (λ s, s <| wasNetworkHandover := true |>);;
      on_routes change_interface;;
      s ← get;
      (if Endpoints.allowP2p (routes s) && negb (Endpoints.currentEndpoint (routes s) =? 0) then SendPublicEndpointsRequest else mret tt);;
      Call.send_network_changed;;
      emit CancelSelect;;
      modify (λ s, s <| didSendIPv6Endpoint := false |>);;
      on_routes Endpoints.AddIPv6Relays;;
      Call.ResetUdpAvailability;;
      on_routes Endpoints.ResetEndpointPingStats;;
      mret itf.

(** ** Group calls *)

(** [SendGroupCallKey(key)]: 256 bytes. *)
Definition SendGroupCallKey (key : bytes) : M C unit :=
  s ← get;
  if negb (has (peerCapabilities s) TGVOIP_PEER_CAP_GROUP_CALLS) then mret tt
  else if didSendGroupCallKey s then mret tt
  else if negb (Wire.isOutgoing (wire s)) then mret tt
  else
    modify (λ s, s <| didSendGroupCallKey := true |>);;
    SendExtra (take 256 key) EXTRA_TYPE_GROUP_CALL_KEY.
Definition RequestCallUpgrade : M C unit :=
  s ← get;
  if negb (has (peerCapabilities s) TGVOIP_PEER_CAP_GROUP_CALLS) then mret tt
  else if didSendUpgradeRequest s then mret tt
  else if Wire.isOutgoing (wire s) then mret tt
  else
    modify (λ s, s <| didSendUpgradeRequest := true |>);;
    SendExtra [] EXTRA_TYPE_REQUEST_GROUP.

(** ** The rest *)

Definition DebugCtl (request param : Z) : M C unit :=
  if request =? 1 then
    modify (λ s, s <| maxBitrate := u32 param |>);;
    Call.SetBitrate (u32 param)
  else if request =? 2 then Call.SetPacketLoss param
  else if request =? 3 then
    on_routes (modify (λ r, r <| Endpoints.allowP2p := param =? 1 |>));;
    s ← get;
    buf ← built (BufferOutputStream.ctor 4)
            (BufferOutputStream.WriteInt32 (if dataSavingMode s then INIT_FLAG_DATA_SAVING_ENABLED else 0));
    SendPacketReliably PKT_NETWORK_CHANGED buf (D.of_Z 1) (D.of_Z 20)
  else if request =? 4 then
    s ← get;
    if echoCanceller (audio s) then emit (EchoCancellerEnable (param =? 1)) else mret tt
  else mret tt.

(** [Stop()]: the sockets and threads it ends are not here; afterwards
    nothing is sent. *)
Definition Stop : M C unit :=
  modify (λ s, s <| stopping := true |>);;
  emit CancelSelect;;
  s ← get;
  (if audioInput (audio s) then emit InputStop else mret tt);;
  if audioOutput (audio s) then emit OutputStop;; on_audio (λ a, a <| playing := false |>) else mret tt.

Definition NeedRate (s : C) : bool := needRate s && GetBoolean "bad_call_rating" false.
Definition GetPreferredRelayID (s : C) : Z := Endpoints.preferredRelay (routes s).
Definition GetPeerCapabilities (s : C) : Z := peerCapabilities s.
Definition GetConnectionState (s : C) : State := state s.
End ops.
End Api.
