(* ===== verification/CallSafety.v ===== *)
(** * Receiving is safe

    The invariant of the state of a call, and that every function called
    for a received datagram keeps it: nothing is read or written out of
    bounds, no pointer of a deleted socket is used, packets are sent to
    endpoints that exist, the current endpoint and the preferred relay stay
    in the map, and the only exception is the [std::out_of_range] that the
    receive loop catches. *)

From Stdlib Require Import ZArith Lia SpecFloat List.
From stdpp Require Import base tactics list numbers option gmap strings.
From S2P Require Import Prelude Words Double History Memory Buffers Streams Seq Congestion Link Net Wire Packet.
From S2P Require Import Jitter Reassembler Endpoints Controller Incoming.
From stdpp Require Import list.
Open Scope Z_scope.

(* ------------------------------------------------------------------ *)
(** ** The invariants of the parts *)

(** The assertions of the congestion control hold. *)
Definition conctl_ok (c : CongestionControl.t) : Prop := ∃ acc ack, CongestionControl.inv c acc ack.

Record link_ok (l : Link.t) : Prop := {
  lo_times : length (Link.recvPacketTimes l) = 32%nat;
  lo_queue : queue_wf l;
  lo_data : Forall (λ q, zlen (Link.q_data q) ≤ 1048576) (Link.queuedPackets l);
  lo_remote : is_u32 (Link.lastRemoteSeq l);
  lo_extras : Forall (λ x, 1 ≤ Link.x_type x ≤ 7 ∧ zlen (Link.x_data x) ≤ 254) (Link.currentExtras l);
  lo_types : NoDup (Link.x_type <$> Link.currentExtras l);
  lo_rtts : HistoricBuffer.wf (Link.rttHistory l) ∧ HistoricBuffer.size (Link.rttHistory l) = 32;
  lo_conctl : conctl_ok (Link.conctl l);
}.

(** A relay whose copies for TCP or IPv6 have the number of the endpoint in
    the local network would be confused with it. *)
Definition lan_ids : list Z :=
  [lanID; s64 (Z.lxor lanID tcpBit); s64 (Z.lxor lanID ipv6Bit); s64 (Z.lxor (Z.lxor lanID tcpBit) ipv6Bit)].

Record endpoint_ok (socks : gmap Z Endpoints.sock) (e : Endpoint.t) : Prop := {
  eo_rtts : HistoricBuffer.wf (Endpoint.rtts e);
  eo_socket : ∀ p, Endpoint.socket e = Some p → Endpoint.type e = Endpoint.TCP_RELAY ∧ is_Some (socks !! p);
  eo_lan : Endpoint.id e ∈ lan_ids → Endpoint.is_relay e = false;
  eo_range : is_s64 (Endpoint.id e);
}.
Lemma lanID_elem : lanID ∈ lan_ids.
Proof. by left. Qed.

(** [ids] are endpoints that are known to exist. *)
Record routes_ok (ids : list Z) (r : Endpoints.t) : Prop := {
  ro_ids : Forall (λ i, is_Some (OMap.find i (Endpoints.endpoints r))) ids;
  ro_current : is_Some (OMap.find (Endpoints.currentEndpoint r) (Endpoints.endpoints r));
  ro_preferred : is_Some (OMap.find (Endpoints.preferredRelay r) (Endpoints.endpoints r)) ∧ Endpoints.preferredRelay r ≠ lanID;
  ro_all : Forall (λ p, p.1 = Endpoint.id p.2 ∧ endpoint_ok (Endpoints.sockets r) p.2) (Endpoints.endpoints r);
}.

(** The parts of a frame that are there. *)
Record reassembler_ok (r : PacketReassembler.t) : Prop := {
  re_count : 0 ≤ PacketReassembler.currentPacketPartCount r ≤ 255;
  re_parts : zlen (PacketReassembler.parts r) = 255;
  re_sizes : Forall (λ b, zlen (Buffer.contents b) ≤ 2047) (PacketReassembler.parts r);
}.

Definition stream_ok (st : Controller.Stream) : Prop :=
  (∀ j, Controller.jitterBuffer st = Some j → inv j) ∧
  (∀ r, Controller.packetReassembler st = Some r → reassembler_ok r).

Record audio_ok (a : Controller.Audio) : Prop := {
  ao_encoder : is_Some (Controller.encoder a);
  ao_input : Controller.audioInput a = true;
}.

(** The state of a call.  [U] holds whenever the acknowledgement arrived but
    brought no stream; there are one to [n] outgoing streams; [b]: was
    [PKT_INIT] received. *)
Record parts_ok (U : Prop) (n : nat) (b : bool) (ids : list Z) (l : Link.t) (c : Wire.config) (r : Endpoints.t)
    (a : Controller.Audio) (out inc : list Controller.Stream) (q : list Link.PendingOutgoingPacket) (ri ria : bool) : Prop := {
  po_link : link_ok l;
  po_call : zlen (Wire.callID c) = 16;
  po_routes : routes_ok ids r;
  po_audio : audio_ok a;
  po_out : (1 ≤ length out ≤ n)%nat;
  po_in : Forall stream_ok inc;
  po_queue : Forall (λ p, zlen (Link.p_data p) ≤ 1048576) q;
  po_init : ri = b;
  po_streams : ria = true → inc = [] → U;
}.
Definition ok U n b ids (s : Controller.t) : Prop :=
  parts_ok U n b ids (Controller.link s) (Controller.wire s) (Controller.routes s) (Controller.audio s)
    (Controller.outgoingStreams s) (Controller.incomingStreams s) (Controller.sendQueue s)
    (Controller.receivedInit s) (Controller.receivedInitAck s).

Lemma wp_fmap {S X Y} (f : X → Y) (m : M S X) (s : S) (Q : Y → S → Prop) T D :
  wp m s (λ x, Q (f x)) T D → wp (f <$> m) s Q T D.
Proof. unfold wp, fmap, M_fmap. by destruct (m s). Qed.

(** A stream over a buffer of any real size. *)
Definition reader_ok (i : BufferInputStream.t) : Prop := BufferInputStream.wf i ∧ BufferInputStream.length i ≤ 4294967296.

(** Reading moves the position only. *)
Section same_length.
Import BufferInputStream.
Definition same_length (x y : t) : Prop := length y = length x.
#[export] Instance same_length_preorder : PreOrder same_length.
Proof. split; [by intros ?|]. unfold same_length. intros x y z. congruence. Qed.
Lemma along_ensure k : along same_length (EnsureEnoughRemaining k).
Proof. intros s. unfold wp, EnsureEnoughRemaining. by destruct (_ <? _). Qed.
Lemma along_at k : along same_length (at_ k).
Proof. unfold at_. repeat along_step. Qed.
Lemma along_advance k : along same_length (advance k).
Proof. by apply along_modify. Qed.
Ltac along_read := repeat first [along_step | apply along_ensure | apply along_at | apply along_advance].
Lemma along_ReadByte : along same_length ReadByte.
Proof. unfold ReadByte. along_read. Qed.
Lemma along_ReadInt16 : along same_length ReadInt16.
Proof. unfold ReadInt16. along_read. Qed.
Lemma along_ReadInt32 : along same_length ReadInt32.
Proof. unfold ReadInt32. along_read. Qed.
Lemma along_ReadInt64 : along same_length ReadInt64.
Proof. unfold ReadInt64. along_read. Qed.
Lemma along_ReadBytes k : along same_length (ReadBytes k).
Proof. unfold ReadBytes. along_read. Qed.
Lemma along_ReadTlLength : along same_length ReadTlLength.
Proof.
  unfold ReadTlLength. along_step; [apply along_ReadByte|]. along_read. intros s. unfold wp, assert_. by destruct (_ <=? _).
Qed.
Lemma along_Seek k : along same_length (Seek k).
Proof. intros s. unfold wp, Seek. by destruct (_ <? _). Qed.

Lemma wp_along {X} (m : M t X) i (Q : X → t → Prop) T D :
  along same_length m → wp m i (λ x i', length i' = length i → Q x i') T D → wp m i Q T D.
Proof. intros Ha Hm. specialize (Ha i). unfold wp in *. destruct (m i); [by apply Hm|done..]. Qed.
End same_length.

(* ------------------------------------------------------------------ *)
(** ** Programs that keep the invariant *)

Section keeps.
Context {CF : CryptoFunctions} {CL : CryptoLaws} {CK : Clock} {RD : Random} {SC : ServerConfig} {HO : Host}.
Context (A V U W : Prop) (n : nat) (b : bool) (ids : list Z).
Hypothesis (Hn : (n ≤ 100)%nat).
Import Controller Incoming.
Implicit Types s : Controller.t.
#[local] Abbreviation I := BufferInputStream.t.
#[local] Abbreviation C := Controller.t.
#[local] Abbreviation good := (ok U n b ids).

(** A cast of a delay that does not fit; the assertion of the older formats;
    audio that starts without a stream. *)
Definition allowed (c : crash) : Prop :=
  c = BadCast ∨ (c = AssertFailed ∧ A) ∨ (c = UndefinedBehaviour ∧ V).

(** [W]: may it throw? *)
Definition throws (e : exn) s : Prop := W ∧ e = OutOfRange ∧ good s.
Definition keeps {X} (m : M C X) : Prop := ∀ s, good s → wp m s (λ _, good) throws allowed.
(** The same with a stream. *)
Definition keepsI {X} (m : M (I * C) X) : Prop :=
  ∀ i s, reader_ok i → good s →
    wp m (i, s) (λ _ p, reader_ok p.1 ∧ good p.2) (λ e p, throws e p.2) allowed.

Lemma keeps_ret {X} (x : X) : keeps (mret x).
Proof. by intros s ?. Qed.
Lemma keeps_bind {X Y} (m : M C X) (f : X → M C Y) : keeps m → (∀ x, keeps (f x)) → keeps (m ≫= f).
Proof. intros Hm Hf s Hs. apply wp_bind. eapply wp_mono; [by apply Hm|]. intros x s' ?. by apply Hf. Qed.
Lemma keeps_get : keeps get.
Proof. by intros s ?. Qed.
Lemma keeps_gets {X} (f : C → X) : keeps (gets f).
Proof. by intros s ?. Qed.
Lemma keeps_if {X} (t : bool) (m m' : M C X) : keeps m → keeps m' → keeps (if t then m else m').
Proof. by destruct t. Qed.
Lemma keeps_modify f : (∀ s, good s → good (f s)) → keeps (modify f).
Proof. intros Hf s ?. by apply wp_modify, Hf. Qed.
Lemma keeps_emit e : keeps (emit e).
Proof. apply keeps_modify. intros s Hs. exact Hs. Qed.
Lemma keeps_cast {X} : keeps (X := X) (crash_with BadCast).
Proof. intros s _. by left. Qed.

Lemma keepsI_ret {X} (x : X) : keepsI (mret x).
Proof. by intros i s ? ?. Qed.
Lemma keepsI_bind {X Y} (m : M (I * C) X) (f : X → M (I * C) Y) : keepsI m → (∀ x, keepsI (f x)) → keepsI (m ≫= f).
Proof. intros Hm Hf i s Hi Hs. apply wp_bind. eapply wp_mono; [by apply Hm|]. intros x [i' s'] [? ?]. by apply Hf. Qed.
Lemma keepsI_if {X} (t : bool) (m m' : M (I * C) X) : keepsI m → keepsI m' → keepsI (if t then m else m').
Proof. by destruct t. Qed.
Lemma keepsI_self {X} (m : M C X) : keeps m → keepsI (on_self m).
Proof. intros Hm i s Hi Hs. apply wp_on_self. unfold wp. specialize (Hm s Hs). unfold wp in Hm. by destruct (m s). Qed.
(** A read is safe on any bytes. *)
Definition reads {X} (m : M I X) : Prop :=
  ∀ i, reader_ok i → wp m i (λ _, reader_ok) (λ e _, e = OutOfRange) (λ c, c = AssertFailed ∧ A).
Lemma keepsI_stream {X} (m : M I X) : W → reads m → keepsI (on_stream m).
Proof.
  intros HT Hm i s Hi Hs. apply wp_on_stream. unfold wp. specialize (Hm i Hi). unfold wp in Hm.
  destruct (m i); [done|by subst|by right; left].
Qed.
Lemma keeps_with_stream {X} i (m : M (I * C) X) : reader_ok i → keepsI m → keeps (with_stream i m).
Proof.
  intros Hi Hm s Hs. apply wp_with_stream. specialize (Hm i s Hi Hs). unfold wp in *.
  destruct (m (i, s)); [apply Hm|exact Hm|exact Hm].
Qed.

Lemma reads_ret {X} (x : X) : reads (mret x).
Proof. by intros i ?. Qed.
Lemma reads_bind {X Y} (m : M I X) (f : X → M I Y) : reads m → (∀ x, reads (f x)) → reads (m ≫= f).
Proof. intros Hm Hf i Hi. apply wp_bind. eapply wp_mono; [by apply Hm|]. intros x i' ?. by apply Hf. Qed.
Lemma reads_along {X} (m : M I X) : along same_length m →
  (∀ i, BufferInputStream.wf i → wp m i (λ _, BufferInputStream.wf) (λ e _, e = OutOfRange) (λ c, c = AssertFailed ∧ A)) → reads m.
Proof.
  intros Ha Hm i [Hi Hl]. apply wp_along; [done|]. eapply wp_mono; [by apply Hm|]. intros x i' Hi' E. split; [done|]. by rewrite E.
Qed.
Lemma reads_ReadByte : reads BufferInputStream.ReadByte.
Proof. apply reads_along; [apply along_ReadByte|]. intros i Hi. by apply wp_ReadByte_any. Qed.
Lemma reads_ReadInt16 : reads BufferInputStream.ReadInt16.
Proof. apply reads_along; [apply along_ReadInt16|]. intros i Hi. by apply wp_ReadInt16_any. Qed.
Lemma reads_ReadInt32 : reads BufferInputStream.ReadInt32.
Proof. apply reads_along; [apply along_ReadInt32|]. intros i Hi. by apply wp_ReadInt32_any. Qed.
Lemma reads_ReadInt64 : reads BufferInputStream.ReadInt64.
Proof. apply reads_along; [apply along_ReadInt64|]. intros i Hi. by apply wp_ReadInt64_any. Qed.
Lemma reads_ReadBytes k : 0 ≤ k → reads (BufferInputStream.ReadBytes k).
Proof. intros Hk. apply reads_along; [apply along_ReadBytes|]. intros i Hi. by apply wp_ReadBytes_any. Qed.
Lemma reads_Seek k : 0 ≤ k → reads (BufferInputStream.Seek k).
Proof. intros Hk. apply reads_along; [apply along_Seek|]. intros i Hi. by apply wp_Seek_any. Qed.
Lemma reads_ReadTlLength : A → reads BufferInputStream.ReadTlLength.
Proof. intros HA. apply reads_along; [apply along_ReadTlLength|]. intros i Hi. by apply wp_ReadTlLength_any. Qed.
Lemma reads_gets {X} (f : I → X) : reads (gets f).
Proof. by intros i Hi. Qed.

Lemma keepsI_byte {X} (f : Z → M (I * C) X) :
  W → (∀ x, is_u8 x → keepsI (f x)) → keepsI (on_stream BufferInputStream.ReadByte ≫= f).
Proof.
  intros HT Hf i s [Hi Hl] Hs. apply wp_bind, wp_on_stream, wp_along; [apply along_ReadByte|].
  apply wp_ReadByte_any; [done| |].
  - intros x i' Hi' Hx E. apply Hf; [done|split; [done|by rewrite E]|done].
  - intros i' _. by split_and!.
Qed.
Lemma reads_byte {X} (f : Z → M I X) : (∀ x, is_u8 x → reads (f x)) → reads (BufferInputStream.ReadByte ≫= f).
Proof.
  intros Hf i [Hi Hl]. apply wp_bind, wp_along; [apply along_ReadByte|]. apply wp_ReadByte_any; [done| |done].
  intros x i' Hi' Hx E. apply Hf; [done|split; [done|by rewrite E]].
Qed.

(** ** Parts of the state *)


Definition safe_routes {X} (m : M Endpoints.t X) : Prop :=
  ∀ r, routes_ok ids r → wp m r (λ _, routes_ok ids) (λ e r', e = OutOfRange ∧ routes_ok ids r') (λ _, False).
Lemma keeps_routes {X} (m : M Endpoints.t X) : W → safe_routes m → keeps (on_routes m).
Proof.
  intros HT Hm s Hs. apply wp_zoom. destruct Hs as [H1 H2 H3 H4 H5 H6 Hq H7 H8]. specialize (Hm _ H3). unfold wp in *.
  destruct (m (routes s)) as [x r|e r|c]; [|destruct Hm as [-> Hm]; split_and!; [done..|]|done]; by constructor.
Qed.
Lemma keeps_link {X} (m : M Link.t X) :
  (∀ l, link_ok l → wp m l (λ _, link_ok) (λ _ _, False) (λ _, False)) → keeps (on_link m).
Proof.
  intros Hm s Hs. apply wp_zoom. destruct Hs as [H1 H2 H3 H4 H5 H6 Hq H7 H8]. specialize (Hm _ H1). unfold wp in *.
  destruct (m (link s)) as [x l| |]; [|done..]. by constructor.
Qed.
Lemma keeps_link_modify f : (∀ l, link_ok l → link_ok (f l)) → keeps (on_link (modify f)).
Proof. intros Hf. apply keeps_link. intros l Hl. by apply wp_modify, Hf. Qed.
Lemma keeps_audio f : (∀ a, audio_ok a → audio_ok (f a)) → keeps (on_audio f).
Proof. intros Hf. apply keeps_modify. intros s []. constructor; try done. by apply Hf. Qed.

Lemma keeps_GetCurrentTime : keeps GetCurrentTime.
Proof. apply keeps_link. by intros l []. Qed.
Lemma keeps_rand_bytes k : keeps (rand_bytes k).
Proof. by intros s ?. Qed.
Lemma keeps_Post f d i : keeps (Post f d i).
Proof. by intros s ?. Qed.
Lemma keeps_post f d i : keeps (post f d i).
Proof. by intros s ?. Qed.
Lemma keeps_Cancel i : keeps (Cancel i).
Proof. by intros s ?. Qed.
Lemma keeps_GenerateOutSeq : keeps (on_link Link.GenerateOutSeq).
Proof. apply keeps_link. by intros l []. Qed.
End keeps.

(** Split a program along its structure, leaving the calls and the changes
    of a part of the state that matter. *)
Ltac keep_step :=
  lazymatch goal with
  | |- keepsI _ _ _ _ _ _ _ (on_stream BufferInputStream.ReadByte ≫= _) => apply keepsI_byte; [done|intros ? ?]
  | |- keepsI _ _ _ _ _ _ _ (_ ≫= _) => apply keepsI_bind; [|intros ?]
  | |- keepsI _ _ _ _ _ _ _ (mret _) => apply keepsI_ret
  | |- keepsI _ _ _ _ _ _ _ (on_self _) => apply keepsI_self
  | |- keepsI _ _ _ _ _ _ _ (on_stream _) => apply keepsI_stream; [done|]
  | |- keepsI _ _ _ _ _ _ _ (if ?t then _ else _) => first [apply keepsI_if | destruct t]
  | |- keepsI _ _ _ _ _ _ _ (match ?x with _ => _ end) => destruct x
  | |- keepsI _ _ _ _ _ _ _ (let _ := _ in _) => cbv zeta
  | |- keeps _ _ _ _ _ _ _ (_ ≫= _) => apply keeps_bind; [|intros ?]
  | |- keeps _ _ _ _ _ _ _ (mret _) => apply keeps_ret
  | |- keeps _ _ _ _ _ _ _ get => apply keeps_get
  | |- keeps _ _ _ _ _ _ _ (gets _) => apply keeps_gets
  | |- keeps _ _ _ _ _ _ _ (Controller.emit _) => apply keeps_emit
  | |- keeps _ _ _ _ _ _ _ (Controller.post _ _ _) => apply keeps_post
  | |- keeps _ _ _ _ _ _ _ (Controller.Post _ _ _) => apply keeps_Post
  | |- keeps _ _ _ _ _ _ _ (Controller.Cancel _) => apply keeps_Cancel
  | |- keeps _ _ _ _ _ _ _ Controller.GetCurrentTime => apply keeps_GetCurrentTime
  | |- keeps _ _ _ _ _ _ _ (modify _) => apply keeps_modify; try (let s := fresh "s" in let H := fresh "Hs" in intros s H; exact H)
  | |- keeps _ _ _ _ _ _ _ (if ?t then _ else _) => first [apply keeps_if | destruct t]
  | |- keeps _ _ _ _ _ _ _ (match ?x with _ => _ end) => destruct x
  | |- keeps _ _ _ _ _ _ _ (let _ := _ in _) => cbv zeta
  | |- reads _ (_ ≫= _) => apply reads_bind; [|intros ?]
  | |- reads _ (mret _) => apply reads_ret
  | |- reads _ (gets _) => apply reads_gets
  | |- reads _ BufferInputStream.ReadByte => apply reads_ReadByte
  | |- reads _ BufferInputStream.ReadInt16 => apply reads_ReadInt16
  | |- reads _ BufferInputStream.ReadInt32 => apply reads_ReadInt32
  | |- reads _ BufferInputStream.ReadInt64 => apply reads_ReadInt64
  | |- reads _ (BufferInputStream.ReadBytes _) => apply reads_ReadBytes; lia
  | |- reads _ (BufferInputStream.Seek _) => apply reads_Seek; apply u64_range || lia
  | |- reads _ (if ?t then _ else _) => destruct t
  end.
Ltac keep := repeat keep_step.

(* ------------------------------------------------------------------ *)
(** ** Link and endpoints *)

Lemma HistoricBuffer_Reset_size (h : HistoricBuffer.t double) :
  HistoricBuffer.size (HistoricBuffer.Reset (A := double) h) = HistoricBuffer.size h.
Proof. unfold HistoricBuffer.size, zlen; cbn; by rewrite length_replicate. Qed.
Lemma HistoricBuffer_Reset_wf (h : HistoricBuffer.t double) : HistoricBuffer.wf h → HistoricBuffer.wf (HistoricBuffer.Reset (A := double) h).
Proof. intros [Hs Ho]. constructor; rewrite HistoricBuffer_Reset_size; [done|]. cbn. lia. Qed.

Section parts.
Context {CK : Clock}.

(** Few extras, and short ones: a header can be written. *)
Lemma link_sendable l : link_ok l → sendable l.
Proof.
  intros [_ _ _ _ Hx Ht _ _]. constructor.
  - eapply Forall_impl; [exact Hx|]. by intros x [].
  - enough (Datatypes.length (Link.currentExtras l) ≤ 7)%nat by (unfold zlen; lia).
    rewrite <- (length_fmap Link.x_type).
    assert (Link.x_type <$> Link.currentExtras l ⊆ [1; 2; 3; 4; 5; 6; 7]) as Hsub.
    { intros ty (x & -> & Hin)%list_elem_of_fmap. rewrite Forall_forall in Hx. specialize (Hx x Hin).
      rewrite !elem_of_cons. lia. }
    apply (submseteq_length _ [1; 2; 3; 4; 5; 6; 7]). by apply NoDup_submseteq.
Qed.

Lemma put_extra_types d ty l :
  Link.x_type <$> Link.put_extra d ty l = if bool_decide (ty ∈ Link.x_type <$> l) then Link.x_type <$> l else (Link.x_type <$> l) ++ [ty].
Proof.
  induction l as [|x l IH]; [done|]. cbn [Link.put_extra fmap list_fmap]. destruct (Z.eqb_spec (Link.x_type x) ty) as [<-|Hne].
  - rewrite bool_decide_eq_true_2; [done|]. apply elem_of_cons. by left.
  - cbn [fmap list_fmap]. rewrite IH. case_bool_decide as Hin.
    + rewrite bool_decide_eq_true_2; [done|]. apply elem_of_cons. by right.
    + rewrite bool_decide_eq_false_2; [done|]. rewrite elem_of_cons. intros [?|?]; congruence.
Qed.
Lemma put_extra_all (P : Link.UnacknowledgedExtraData → Prop) d ty l :
  Forall P l → (∀ x, P x → Link.x_type x = ty → P (Link.mkextra (Link.x_type x) d 0)) → P (Link.mkextra ty d 0) → Forall P (Link.put_extra d ty l).
Proof.
  intros Hl Hp Hn. induction Hl as [|x l Hx Hl IH]; [by apply Forall_singleton|]. cbn [Link.put_extra].
  destruct (Z.eqb_spec (Link.x_type x) ty) as [e|]; constructor; try done. exact (Hp x Hx e).
Qed.
Lemma link_SendExtra d ty l : 1 ≤ ty ≤ 7 → zlen d ≤ 254 → link_ok l →
  wp (Link.SendExtra d ty) l (λ _, link_ok) (λ _ _, False) (λ _, False).
Proof.
  intros Hty Hd [Ht Hq Hqd Hr Hx Hn Hh Hcc]. apply wp_modify. constructor; try done.
  - apply put_extra_all; [done|by intros x [? _] _|done].
  - change (NoDup (Link.x_type <$> Link.put_extra d ty (Link.currentExtras l))). rewrite put_extra_types.
    case_bool_decide; [done|]. apply NoDup_app. split_and!; [done| |by apply NoDup_singleton].
    by intros x Hin ->%list_elem_of_singleton.
Qed.
Lemma link_enqueue ty d r tm l : zlen d ≤ 1048576 → link_ok l → wp (Link.enqueue_reliable ty d r tm) l (λ _, link_ok) (λ _ _, False) (λ _, False).
Proof.
  intros Hd [Ht Hq Hqd Hr Hx Hn Hh Hcc]. apply wp_modify. constructor; try done.
  2:{ apply Forall_app_2; [done|]. by apply Forall_singleton. }
  apply Forall_app_2; [done|]. apply Forall_singleton. split; [apply ctor_HistoricBuffer_wf; lia|done].
Qed.

(** Writing a header. *)
Lemma link_sent c sq l l' : link_ok l → sent c sq l = Ret tt l' → link_ok l'.
Proof.
  intros [Ht Hq Hqd Hr Hx Hn Hh Hcc]. unfold sent, Link.remember_sent, Link.GetCurrentTime, Link.extras_for_header.
  destruct (carries c); intros [= <-]; constructor; try done.
  - apply Forall_fmap. eapply Forall_impl; [exact Hx|]. intros x. simpl. by destruct (Link.firstContainingSeq x =? 0).
  - cbn. rewrite <- list_fmap_compose. erewrite list_fmap_ext; [exact Hn|]. intros i x _. simpl.
    by destruct (Link.firstContainingSeq x =? 0).
Qed.
Lemma link_packet c rand pkt l :
  link_ok l → zlen rand ≤ 1048576 → zlen (Wire.callID c) ≤ 1048576 → zlen (Link.p_data pkt) ≤ 1048576 →
  wp (Packet.packet c rand pkt) l (λ _, link_ok) (λ _ _, False) (λ _, False).
Proof.
  intros Hl Hr Hc Hd. destruct (packet_run c rand pkt l) as (l' & Hsent & E); [by apply link_sendable|done..|].
  unfold wp. rewrite E. by eapply link_sent.
Qed.

(** The window. *)
Definition link_safe {X} (m : M Link.t X) : Prop := ∀ l, link_ok l → wp m l (λ _, link_ok) (λ _ _, False) (λ _, False).
Lemma link_bind {X Y} (m : M Link.t X) (f : X → M Link.t Y) : link_safe m → (∀ x, link_safe (f x)) → link_safe (m ≫= f).
Proof. intros Hm Hf l Hl. apply wp_bind. eapply wp_mono; [by apply Hm|]. intros x l' ?. by apply Hf. Qed.
Lemma link_ret {X} (x : X) : link_safe (mret x).
Proof. by intros l ?. Qed.
Lemma link_GetCurrentTime : link_safe Link.GetCurrentTime.
Proof. by intros l []. Qed.
Lemma link_times f : (∀ ts, Datatypes.length ts = 32%nat → Datatypes.length (f ts) = 32%nat) →
  link_safe (modify (λ s, s <| Link.recvPacketTimes ::= f |>)).
Proof. intros Hf l [Ht Hq Hqd Hr Hx Hn Hh Hcc]. apply wp_modify. constructor; try done. by apply Hf. Qed.
Lemma link_receive_seq sq : is_u32 sq → link_safe (Link.receive_seq sq).
Proof.
  intros Hsq. unfold Link.receive_seq. apply link_bind; [by intros l []|intros _].
  intros l Hl. apply wp_bind, wp_get. destruct (seqgt _ _).
  - revert l Hl. cut (∀ d, is_u32 d → ∀ l, link_ok l →
      wp ((if 31 <? d then modify (λ s, s <| Link.recvPacketTimes := replicate 32 D.zero |>)
           else modify (λ s, s <| Link.recvPacketTimes ::= λ ts, overwrite ts (Z.to_nat d) (take (32 - Z.to_nat d) ts) |>);;
             (if 1 <? d then modify (λ s, s <| Link.recvPacketTimes ::= λ ts, overwrite ts 0 (replicate (Z.to_nat d) D.zero) |>)
              else mret tt);;
             now ← Link.GetCurrentTime;
             modify (λ s, s <| Link.recvPacketTimes ::= λ ts, <[0%nat := now]> ts |>));;
          modify (λ s, s <| Link.lastRemoteSeq := sq |>);; mret Link.Accepted) l (λ _, link_ok) (λ _ _, False) (λ _, False)).
    { intros Hc l Hl. apply Hc; [apply u32_range|done]. }
    intros d Hd. apply link_bind; [|intros _; apply link_bind; [by intros l []|intros _; apply link_ret]].
    destruct (Z.ltb_spec 31 d); [by apply (link_times (λ _, _))|].
    apply link_bind; [apply link_times; intros ts Hts; rewrite length_overwrite; [done|rewrite length_take; lia]|intros _].
    apply link_bind; [|intros _; apply link_bind; [apply link_GetCurrentTime|intros now]].
    + destruct (1 <? d); [|apply link_ret]. apply link_times. intros ts Hts. rewrite length_overwrite; [done|rewrite length_replicate; lia].
    + apply link_times. intros ts Hts. by rewrite length_insert.
  - destruct (Z.ltb_spec (u32 (Link.lastRemoteSeq l - sq)) 32) as [Hd|]; [|by apply wp_ret].
    pose proof (u32_range (Link.lastRemoteSeq l - sq)).
    destruct (lookup_lt_is_Some_2 (Link.recvPacketTimes l) (Z.to_nat (u32 (Link.lastRemoteSeq l - sq)))) as [tm Htm];
      [rewrite (lo_times l Hl); lia|].
    apply wp_bind. eapply wp_defined; [exact Htm|]. destruct (negb _); [by apply wp_ret|].
    apply wp_bind. eapply wp_mono; [by apply link_GetCurrentTime|].
    intros now l' Hl'. revert l' Hl'. apply link_bind; [|intros _; apply link_ret].
    apply link_times. intros ts Hts. by rewrite length_insert.
Qed.
Lemma conctl_acked sq now c : conctl_ok c → conctl_ok (CongestionControl.PacketAcknowledged sq now c).
Proof. intros (acc & ack & H). eexists _, _. by apply PacketAcknowledged_inv. Qed.
Lemma link_PacketAcknowledged sq : link_safe (Link.PacketAcknowledged sq).
Proof.
  apply link_bind; [apply link_GetCurrentTime|]. intros tm l []. apply wp_modify. constructor; try done. by apply conctl_acked.
Qed.
Lemma link_mapM {X Y} (f : X → M Link.t Y) l : (∀ x, link_safe (f x)) → link_safe (mapM f l).
Proof.
  intros Hf. induction l as [|x l IH]; [apply link_ret|]. simpl. apply link_bind; [apply Hf|intros y].
  apply link_bind; [exact IH|intros ys; apply link_ret].
Qed.
Lemma link_mark_bits a m bits : link_safe (Link.mark_bits a m bits).
Proof.
  induction bits as [|i bits IH]; [apply link_ret|]. cbn [Link.mark_bits]. apply link_bind; [by intros l ?|intros ps].
  apply link_bind; [|intros ps'; apply link_bind; [by intros l []|by intros _]].
  apply link_mapM. intros p. unfold Link.mark_one. destruct (negb _); [apply link_ret|].
  destruct (_ && _); [|apply link_ret]. apply link_bind; [apply link_GetCurrentTime|intros now].
  apply link_bind; [apply link_PacketAcknowledged|intros _; apply link_ret].
Qed.
Lemma filter_extras (P : Link.UnacknowledgedExtraData → Prop) `{!∀ x, Decision (P x)} l :
  link_ok l → link_ok (l <| Link.currentExtras ::= filter P |>).
Proof.
  intros [Ht Hq Hqd Hr Hx Hn Hh Hcc]. constructor; try done; cbn.
  - apply Forall_forall. intros x [_ Hin]%list_elem_of_filter. by eapply Forall_forall in Hx.
  - eapply sublist_NoDup; [exact Hn|]. apply fmap_sublist. clear. induction (Link.currentExtras l) as [|x xs IH]; [done|].
    rewrite filter_cons. case_decide; by constructor.
Qed.
Lemma link_receive_ack a m : link_safe (Link.receive_ack a m).
Proof.
  unfold Link.receive_ack. intros l Hl. apply wp_bind, wp_get. destruct (negb _); [by apply wp_ret|].
  revert l Hl. assert (∀ b rs : bool, link_safe ((if b then
    modify (λ s, s <| Link.rttHistory ::= HistoricBuffer.Reset (A := double) |> <| Link.waitingForAcks := false |>
                   <| Link.dontSendPackets := 10 |>) else mret tt);;
    modify (λ s, s <| Link.lastRemoteAckSeq := a |>);;
    Link.PacketAcknowledged a;;
    Link.mark_bits a m (List.seq 0 31);;
    s ← get;
    qs ← defined (Link.drop_acked a (Link.recentOutgoingPackets s) (Link.queuedPackets s));
    modify (λ s, s <| Link.queuedPackets := qs |>);;
    let gone := filter (λ x, Link.extra_acked a x = true) (Link.currentExtras s) in
    modify (λ s, s <| Link.currentExtras ::= filter (λ x, Link.extra_acked a x = false) |>);;
    mret (rs, gone))) as H.
  { intros b rs. apply link_bind; [|intros _].
    { destruct b; [|apply link_ret]. intros l [? ? ? ? ? ? [? ?] ?]. apply wp_modify. constructor; try done. cbn.
      split; [by apply HistoricBuffer_Reset_wf|by rewrite HistoricBuffer_Reset_size]. }
    apply link_bind; [by intros l []|intros _].
    apply link_bind; [apply link_PacketAcknowledged|intros _].
    apply link_bind; [apply link_mark_bits|intros _]. intros l Hl. apply wp_bind, wp_get, wp_bind.
    destruct (Link.drop_acked_total a (Link.recentOutgoingPackets l) (Link.queuedPackets l)) as (qs & E & Hqs); [by apply Hl|].
    eapply wp_defined; [exact E|]. apply wp_bind, wp_modify, wp_bind, wp_modify, wp_ret. apply filter_extras.
    destruct Hl as [Ht Hq Hqd Hr Hx Hn Hh Hcc]. constructor; try done; apply Forall_forall;
      intros qp [Hin _]%Hqs; [by eapply Forall_forall in Hq|by eapply Forall_forall in Hqd]. }
  intros l Hl. by apply H.
Qed.
End parts.

(** Changes of one endpoint, of all. *)
Section omap_forall.
Context {A : Type} (P : Z * A → Prop).
Lemma Forall_insert k a (m : OMap.t A) : Forall P m → P (k, a) → Forall P (OMap.insert k a m).
Proof.
  intros Hm Ha. induction Hm as [|[j b] m Hb Hm IH]; [by apply Forall_singleton|]. cbn [OMap.insert].
  destruct (j =? k); [by constructor|]. destruct (k <? j); by repeat constructor.
Qed.
Lemma Forall_update k f (m : OMap.t A) : Forall P m → (∀ a, OMap.find k m = Some a → P (k, a) → P (k, f a)) → Forall P (OMap.update k f m).
Proof.
  induction 1 as [|[j b] m Hb Hm IH]; intros Hf; [done|]. cbn [OMap.update OMap.find] in *.
  destruct (Z.eqb_spec j k) as [->|]; constructor; [by apply Hf|done..|by apply IH].
Qed.
Lemma Forall_erase k (m : OMap.t A) : Forall P m → Forall P (OMap.erase k m).
Proof. intros Hm. apply Forall_forall. intros p Hp. unfold OMap.erase in Hp. apply list_elem_of_In, filter_In in Hp as [Hp _].
  apply list_elem_of_In in Hp. by eapply Forall_forall in Hm. Qed.
Lemma find_forall k a (m : OMap.t A) : Forall P m → OMap.find k m = Some a → P (k, a).
Proof. intros Hm Hf%find_elem. by eapply Forall_forall in Hm. Qed.
End omap_forall.
Lemma find_update_Some {A} k j f (m : OMap.t A) : is_Some (OMap.find j m) → is_Some (OMap.find j (OMap.update k f m)).
Proof. intros [a Ha]. rewrite find_update, Ha. by eexists. Qed.
Lemma find_insert_Some {A} k j a (m : OMap.t A) : is_Some (OMap.find j m) → is_Some (OMap.find j (OMap.insert k a m)).
Proof. intros Hj. destruct (decide (k = j)) as [->|]; [rewrite find_insert_eq; by eexists|by rewrite find_insert_ne]. Qed.
Lemma find_erase_Some {A} k j (m : OMap.t A) : j ≠ k → is_Some (OMap.find j m) → is_Some (OMap.find j (OMap.erase k m)).
Proof. intros ?. by rewrite find_erase_ne. Qed.
Lemma find_map_Some {A} j f (m : OMap.t A) : is_Some (OMap.find j m) → is_Some (OMap.find j (OMap.map_values f m)).
Proof. rewrite find_map. by intros ?%(fmap_is_Some f). Qed.

Section routes.
Context (ids : list Z).
Implicit Types r : Endpoints.t.

Lemma endpoint_ok_find r i e : routes_ok ids r → OMap.find i (Endpoints.endpoints r) = Some e → Endpoint.id e = i ∧ endpoint_ok (Endpoints.sockets r) e.
Proof. intros [_ _ _ Ha] Hf. by destruct (find_forall _ _ _ _ Ha Hf) as [? ?]. Qed.

Lemma wp_at i r (Q : Endpoint.t → Endpoints.t → Prop) T D :
  (∀ e, OMap.find i (Endpoints.endpoints r) = Some e → Q e r) → (OMap.find i (Endpoints.endpoints r) = None → T OutOfRange r) → wp (Endpoints.at_ i) r Q T D.
Proof.
  intros Hq Ht. unfold Endpoints.at_. apply wp_bind, wp_get.
  destruct (OMap.find i (Endpoints.endpoints r)); [by apply Hq|by apply Ht].
Qed.
Lemma routes_at i : safe_routes ids (Endpoints.at_ i).
Proof. intros r Hr. by apply wp_at. Qed.

(** Changes that keep every endpoint. *)
Lemma routes_same_map r r' :
  Endpoints.endpoints r' = Endpoints.endpoints r → Endpoints.sockets r' = Endpoints.sockets r →
  Endpoints.currentEndpoint r' = Endpoints.currentEndpoint r → Endpoints.preferredRelay r' = Endpoints.preferredRelay r →
  routes_ok ids r → routes_ok ids r'.
Proof. intros He Hs Hc Hp []. constructor; rewrite ?He, ?Hs, ?Hc, ?Hp; done. Qed.
Lemma routes_set_current i r :
  is_Some (OMap.find i (Endpoints.endpoints r)) → routes_ok ids r → routes_ok ids (r <| Endpoints.currentEndpoint := i |>).
Proof. intros ? []. by constructor. Qed.
Lemma routes_to_preferred r : routes_ok ids r → routes_ok ids (r <| Endpoints.currentEndpoint := Endpoints.preferredRelay r |>).
Proof. intros Hr. apply routes_set_current; [apply Hr|done]. Qed.
Lemma routes_set_preferred i r : is_Some (OMap.find i (Endpoints.endpoints r)) → i ≠ lanID →
  routes_ok ids r → routes_ok ids (r <| Endpoints.preferredRelay := i |>).
Proof. intros ? ? []. by constructor. Qed.
Lemma routes_adopt i r : is_Some (OMap.find i (Endpoints.endpoints r)) → i ≠ lanID → routes_ok ids r →
  routes_ok ids (r <| Endpoints.currentEndpoint := i |> <| Endpoints.preferredRelay := i |>).
Proof. intros ? ? []. by constructor. Qed.

Lemma routes_set_endpoint e r :
  endpoint_ok (Endpoints.sockets r) e → routes_ok ids r →
  routes_ok ids (r <| Endpoints.endpoints ::= OMap.insert (Endpoint.id e) e |>).
Proof.
  intros He [Hi Hc [Hp Hl] Ha]. constructor.
  - eapply Forall_impl; [exact Hi|]. intros i. apply find_insert_Some.
  - by apply find_insert_Some.
  - split; [by apply find_insert_Some|done].
  - apply Forall_insert; [done|by split].
Qed.
Lemma routes_update i f r :
  (∀ e, OMap.find i (Endpoints.endpoints r) = Some e → Endpoint.id (f e) = Endpoint.id e ∧
     (endpoint_ok (Endpoints.sockets r) e → endpoint_ok (Endpoints.sockets r) (f e))) →
  routes_ok ids r → routes_ok ids (r <| Endpoints.endpoints ::= OMap.update i f |>).
Proof.
  intros Hf [Hi Hc [Hp Hl] Ha]. constructor.
  - eapply Forall_impl; [exact Hi|]. intros j. apply find_update_Some.
  - by apply find_update_Some.
  - split; [by apply find_update_Some|done].
  - apply Forall_update; [done|]. intros e He [Hid Hok]. destruct (Hf e He) as [E ?]. cbn in *. split; [congruence|auto].
Qed.
Lemma routes_for_each f r :
  (∀ e, Endpoint.id (f e) = Endpoint.id e ∧ (endpoint_ok (Endpoints.sockets r) e → endpoint_ok (Endpoints.sockets r) (f e))) →
  routes_ok ids r → routes_ok ids (r <| Endpoints.endpoints ::= OMap.map_values f |>).
Proof.
  intros Hf [Hi Hc [Hp Hl] Ha]. constructor.
  - eapply Forall_impl; [exact Hi|]. intros j. apply find_map_Some.
  - by apply find_map_Some.
  - split; [by apply find_map_Some|done].
  - apply Forall_fmap. eapply Forall_impl; [exact Ha|]. intros [j e] [Hj He]. destruct (Hf e) as [E ?]. cbn in *. split; [congruence|auto].
Qed.
Lemma routes_Reset : safe_routes ids Endpoints.ResetEndpointPingStats.
Proof.
  intros r Hr. apply wp_modify. apply routes_for_each; [|done]. intros e. split; [done|].
  intros [Hw Hs Hl Hrg]. constructor; [|done..]. by apply HistoricBuffer_Reset_wf.
Qed.

(** A deleted LAN endpoint is not the one in use. *)
Lemma routes_erase_lan r : ids = [] → Endpoints.currentEndpoint r ≠ lanID → routes_ok ids r →
  wp (Endpoints.erase_endpoint lanID) r (λ _, routes_ok ids) (λ _ _, False) (λ _, False).
Proof.
  intros Hids Hne Hr. unfold Endpoints.erase_endpoint. apply wp_bind, wp_get.
  destruct (OMap.find lanID (Endpoints.endpoints r)) as [e|] eqn:Hf; [|by apply wp_ret].
  destruct (endpoint_ok_find r lanID e) as [Hid [_ Hs Hl _]]; [by destruct Hr|done|].
  unfold Endpoints.destroy. destruct (Endpoint.socket e) as [p|] eqn:Ep.
  { exfalso. destruct (Hs p) as [Ht _]; [done|]. assert (Endpoint.is_relay e = false) as Hr' by (apply Hl; rewrite Hid; apply lanID_elem).
    unfold Endpoint.is_relay in Hr'.
    rewrite (bool_decide_eq_true_2 _ Ht), orb_true_r in Hr'. done. }
  apply wp_bind, wp_ret, wp_modify. destruct Hr as [Hi Hc [Hp Hpl] Ha].
  constructor; [by rewrite Hids| | |].
  - by apply find_erase_Some.
  - split; [by apply find_erase_Some|done].
  - by apply Forall_erase.
Qed.
End routes.

(* ------------------------------------------------------------------ *)
(** ** The controller *)

Section controller.
Context {CF : CryptoFunctions} {CL : CryptoLaws} {CK : Clock} {RD : Random} {SC : ServerConfig} {HO : Host}.
Context (A V U W : Prop) (n : nat) (b : bool) (ids : list Z).
Hypothesis (Hn : (n ≤ 100)%nat).
Import Controller.
#[local] Abbreviation C := Controller.t.
#[local] Abbreviation good := (ok U n b ids).
#[local] Abbreviation keeps := (keeps A V U W n b ids).
#[local] Abbreviation allowed := (allowed A V).
#[local] Abbreviation throws := (throws U W n b ids).
Implicit Types s : C.

Lemma keeps_at i : W → keeps (on_routes (Endpoints.at_ i)).
Proof. intros HT. apply keeps_routes, routes_at. exact HT. Qed.
Lemma keeps_routes_modify f : (∀ r, routes_ok ids r → routes_ok ids (f r)) → keeps (on_routes (modify f)).
Proof.
  intros Hf s Hs. apply wp_zoom, wp_modify. destruct Hs. constructor; try done. by apply Hf.
Qed.
Lemma keeps_link_safe {X} (m : M Link.t X) : link_safe m → keeps (on_link m).
Proof. apply keeps_link. Qed.

(** Sending uses the socket of a TCP relay only while it is alive. *)
Definition sock_ok (e : Endpoint.t) s : Prop :=
  ∀ p, Endpoint.type e = Endpoint.TCP_RELAY → Endpoint.socket e = Some p → is_Some (Endpoints.sockets (routes s) !! p).

Lemma wp_socket_at p s (Q : Endpoints.sock → C → Prop) T D :
  is_Some (Endpoints.sockets (routes s) !! p) → (∀ k, Q k s) → wp (on_routes (Endpoints.socket_at p)) s Q T D.
Proof.
  intros [k Hk] HQ. apply wp_zoom. unfold Endpoints.socket_at. apply wp_bind, wp_get. eapply wp_defined; [exact Hk|].
  destruct s. apply HQ.
Qed.
Lemma keeps_count_sent k : keeps (count_sent k).
Proof. apply keeps_modify. intros s Hs. exact Hs. Qed.
Lemma wp_rand_bytes k s (Q : bytes → C → Prop) T D :
  (∀ r i, zlen r ≤ Z.of_nat k → Q r (s <| draws := i |>)) → wp (rand_bytes k) s Q T D.
Proof.
  intros HQ. unfold rand_bytes. apply wp_bind, wp_gets, wp_bind, wp_modify, wp_ret. apply HQ.
  unfold zlen. rewrite length_take. lia.
Qed.
Lemma wp_ActuallySendPacket e d s : good s → sock_ok e s → wp (ActuallySendPacket e d) s (λ _, good) throws allowed.
Proof.
  intros Hs He. unfold ActuallySendPacket. apply wp_bind, wp_modify.
  case_bool_decide as Ht; [|by apply keeps_emit]. destruct (Endpoint.socket e) as [p|] eqn:Ep; [|by apply wp_ret].
  apply wp_bind, wp_socket_at; [by apply He|]. intros k. destruct (Endpoints.failed k); [by apply wp_ret|by apply keeps_emit].
Qed.
Lemma wp_SendPacket e d s : good s → sock_ok e s → wp (SendPacket e d) s (λ _, good) throws allowed.
Proof.
  intros Hs He. unfold SendPacket. apply wp_bind, wp_get. destruct (stopping s); [by apply wp_ret|].
  destruct (_ && _); [by apply wp_ret|]. apply wp_bind, wp_rand_bytes. intros r i _.
  apply wp_ActuallySendPacket; [exact Hs|exact He].
Qed.

Lemma wp_GetEndpointForPacket i s (Q : option Endpoint.t → C → Prop) T D :
  good s → (∀ e, OMap.find (if i =? 0 then Endpoints.currentEndpoint (routes s) else i) (Endpoints.endpoints (routes s)) = e → Q e s) →
  wp (on_routes (Endpoints.GetEndpointForPacket i)) s Q T D.
Proof.
  intros Hs HQ. apply wp_zoom. unfold Endpoints.GetEndpointForPacket. apply wp_bind, wp_get.
  assert (∀ e, OMap.find (if i =? 0 then Endpoints.currentEndpoint (routes s) else i) (Endpoints.endpoints (routes s)) = e →
    Q e (s <| routes := routes s |>)) as HQ' by (destruct s; exact HQ).
  destruct (i =? 0); [|by apply wp_ret, HQ'].
  assert (is_Some (OMap.find (Endpoints.currentEndpoint (routes s)) (Endpoints.endpoints (routes s)))) as [e He] by apply Hs.
  apply wp_fmap, wp_at; [|by intros E; rewrite E in He].
  intros e' He'. apply HQ', He'.
Qed.

Lemma endpoint_sock i e s : good s → OMap.find i (Endpoints.endpoints (routes s)) = Some e → sock_ok e s.
Proof. intros Hs Hf p _ Hp. destruct (endpoint_ok_find ids (routes s) i e) as [_ [_ Hk _ _]]; [apply Hs|done|]. by destruct (Hk p). Qed.

Lemma routes_connect e r : OMap.find (Endpoint.id e) (Endpoints.endpoints r) = Some e → Endpoint.type e = Endpoint.TCP_RELAY →
  routes_ok ids r →
  routes_ok ids (let p := Endpoints.nextSocket r in
    r <| Endpoints.nextSocket := p + 1 |> <| Endpoints.sockets ::= <[p := Endpoints.mksock false false]> |>
      <| Endpoints.endpoints ::= OMap.update (Endpoint.id e) (λ e, e <| Endpoint.socket := Some p |>) |>).
Proof.
  intros Hf Ht Hr. cbv zeta. apply routes_update.
  - intros e' He'. split; [done|]. intros [Hw Hs Hl Hrg]. constructor; [done| |done..].
    intros p [= <-]. assert (e' = e) as -> by (change (OMap.find (Endpoint.id e) (Endpoints.endpoints r) = Some e') in He'; congruence).
    split; [done|]. cbn. rewrite lookup_insert_eq. by eexists.
  - destruct Hr as [Hi Hc Hp Ha]. constructor; try done. eapply Forall_impl; [exact Ha|]. intros [j e'] [Hj [Hw Hs Hl Hrg]].
    split; [done|]. constructor; [done| |done..]. intros p Hp'. destruct (Hs p Hp') as [? Hsome]. split; [done|].
    cbn. destruct (decide (Endpoints.nextSocket r = p)) as [<-|]; [rewrite lookup_insert_eq; by eexists|by rewrite lookup_insert_ne].
Qed.
Lemma keeps_connect e s : good s → OMap.find (Endpoint.id e) (Endpoints.endpoints (routes s)) = Some e →
  Endpoint.type e = Endpoint.TCP_RELAY → wp (connect_socket e) s (λ _, good) throws allowed.
Proof.
  intros Hs Hf Ht. unfold connect_socket. apply wp_bind, wp_zoom, wp_modify, wp_bind.
  assert (∀ r, routes_ok ids r → good (s <| routes := r |>)) as Hr by (intros r ?; destruct Hs; by constructor).
  eapply wp_mono; [apply keeps_emit, Hr, routes_connect; [done..|apply Hs]|]. intros [] s' Hs'. by apply keeps_emit.
Qed.

(** Is the socket of an endpoint ready? *)
Definition can_send (e : Endpoint.t) : M C bool :=
  if negb (bool_decide (Endpoint.type e = Endpoint.TCP_RELAY)) then gets udpReady
  else
    match Endpoint.socket e with
    | None => connect_socket e;; mret false
    | Some p => k ← on_routes (Endpoints.socket_at p); mret (Endpoints.ready k && negb (Endpoints.failed k))
    end.
Lemma wp_can_send i e s : good s → OMap.find i (Endpoints.endpoints (routes s)) = Some e →
  wp (can_send e) s (λ c s', good s' ∧ (c = true → sock_ok e s')) throws allowed.
Proof.
  intros Hs Hf. pose proof (endpoint_sock i e s Hs Hf) as Hk.
  destruct (endpoint_ok_find ids (routes s) i e) as [<- _]; [apply Hs|done|].
  unfold can_send. case_bool_decide as Ht; [|by apply wp_gets].
  destruct (Endpoint.socket e) as [p|] eqn:Ep.
  - apply wp_bind, wp_socket_at; [by apply Hk|]. intros k. by apply wp_ret.
  - apply wp_bind. eapply wp_mono; [by apply keeps_connect|]. intros [] s' Hs'. by apply wp_ret.
Qed.

(** What [SendOrEnqueuePacket] does once there is an endpoint. *)
Lemma wp_SendOrEnqueuePacket pkt enq s :
  good s → zlen (Link.p_data pkt) ≤ 1048576 →
  is_Some (OMap.find (if Link.p_endpoint pkt =? 0 then Endpoints.currentEndpoint (routes s) else Link.p_endpoint pkt)
             (Endpoints.endpoints (routes s))) →
  wp (SendOrEnqueuePacket pkt enq) s (λ _, good) throws allowed.
Proof.
  intros Hs Hd [e He]. unfold SendOrEnqueuePacket. apply wp_bind, wp_GetEndpointForPacket; [done|]. intros e' E.
  rewrite He in E. destruct E. apply wp_bind.
  eapply wp_mono; [by eapply (wp_can_send _ e)|]. intros c s1 [H1 Hk]. destruct c; cbn [negb]; [specialize (Hk eq_refl)|].
  - apply wp_bind, wp_get, wp_bind. cut (∀ m : M C unit, wp m s1 (λ _, good) throws allowed → wp m s1 (λ _ s', wp (mret true) s' (λ _, good) throws allowed) throws allowed).
    2:{ intros m Hm. by eapply wp_mono. }
    intros Hc. apply Hc. clear Hc. destruct (_ || _); [|by apply wp_ret].
    apply wp_bind, wp_rand_bytes. intros r i Hr. apply wp_bind, wp_zoom.
    eapply wp_mono; [|intros plain l Hl].
    + eapply wp_weaken; [apply link_packet; [apply H1|lia|change (zlen (Wire.callID (wire s1)) ≤ 1048576); rewrite (po_call _ _ _ _ _ _ _ _ _ _ _ _ _ H1); lia|done]|done..].
    + assert (good (s1 <| draws := i |> <| link := l |>)) as Hg by (destruct H1; by constructor).
      apply wp_bind. eapply wp_mono; [apply wp_SendPacket; [exact Hg|exact Hk]|]. intros [] s2 H2.
      destruct (Link.p_type pkt =? Packet.PKT_STREAM_DATA); [apply wp_modify; exact H2|apply wp_ret; exact H2].
  - apply wp_bind. eapply wp_mono with (Q' := λ _ : unit, good); [|by intros [] s2 H2; apply wp_ret].
    destruct enq; [|by apply wp_ret]. apply wp_modify. destruct H1. constructor; try done.
    apply Forall_app_2; [done|by apply Forall_singleton].
Qed.
Lemma keeps_send_new ty d ep : zlen d ≤ 1048576 → ep = 0 ∨ ep ∈ ids → keeps (send_new ty d ep).
Proof.
  intros Hd Hep. unfold send_new. apply keeps_bind; [apply keeps_GenerateOutSeq|intros sq].
  intros s Hs. apply wp_bind. eapply wp_mono; [apply wp_SendOrEnqueuePacket; [done..|]|by intros ? s' Hs'; apply wp_ret].
  cbn [Link.p_endpoint]. destruct Hs as [_ _ [Hi Hc _ _]]. destruct (Z.eqb_spec ep 0); [done|].
  destruct Hep; [done|]. by eapply Forall_forall in Hi.
Qed.
Lemma keeps_SendPacketReliably ty d r tm : zlen d ≤ 1048576 → keeps (SendPacketReliably ty d r tm).
Proof.
  intros Hd. unfold SendPacketReliably. apply keeps_bind; [apply keeps_link_safe; intros l; by apply link_enqueue|intros _].
  keep. Qed.
Lemma keeps_SendExtra ty d : 1 ≤ ty ≤ 7 → zlen d ≤ 254 → keeps (SendExtra d ty).
Proof. intros Ht Hd. apply keeps_link_safe. intros l. by apply link_SendExtra. Qed.

Lemma keeps_each_endpoint f l : (∀ e, keeps (f e)) → keeps (each_endpoint f l).
Proof. intros Hf. induction l as [|e l IH]; cbn [each_endpoint]; [apply keeps_ret|]. by apply keeps_bind. Qed.
Lemma keeps_SendPublicEndpointsRequest : keeps SendPublicEndpointsRequest.
Proof.
  unfold SendPublicEndpointsRequest. keep.
  apply keeps_each_endpoint. intros e. unfold SendPublicEndpointsRequest_to. keep.
Qed.

Lemma keeps_enter_state st : keeps (enter_state st).
Proof. unfold enter_state. keep. Qed.
Lemma keeps_SetState st : keeps (SetState st).
Proof.
  unfold SetState. apply keeps_bind; [apply keeps_enter_state|intros _]. case_bool_decide; [|apply keeps_ret].
  intros s Hs. apply wp_bind, wp_get, wp_bind. unfold SetMicMute at 1. apply wp_bind, wp_get. rewrite eqb_reflx. apply wp_ret.
  revert s Hs. match goal with |- ∀ s, good s → wp ?m s _ _ _ => change (keeps m) end. keep.
Qed.
Lemma keeps_fail e : keeps (fail e).
Proof. unfold fail. apply keeps_bind; [|intros _; apply keeps_SetState]. keep. Qed.
Lemma keeps_UpdateDataSavingState : keeps UpdateDataSavingState.
Proof. unfold UpdateDataSavingState. keep. Qed.
Lemma keeps_audio_modify f : (∀ s, audio_ok (audio s) → audio_ok (audio (f s))) →
  (∀ s, link (f s) = link s ∧ wire (f s) = wire s ∧ routes (f s) = routes s ∧ outgoingStreams (f s) = outgoingStreams s ∧
     incomingStreams (f s) = incomingStreams s ∧ sendQueue (f s) = sendQueue s ∧ receivedInit (f s) = receivedInit s ∧
     receivedInitAck (f s) = receivedInitAck s) → keeps (modify f).
Proof.
  intros Ha Hf. apply keeps_modify. intros s [H1 H2 H3 H4 H5 H6 H7 H8 H9]. specialize (Ha s H4).
  destruct (Hf s) as (E1 & E2 & E3 & E5 & E6 & E7 & E8 & E9). unfold ok. rewrite E1, E2, E3, E5, E6, E7, E8, E9. by constructor.
Qed.
Lemma keeps_UpdateAudioBitrateLimit : keeps UpdateAudioBitrateLimit.
Proof.
  unfold UpdateAudioBitrateLimit. apply keeps_bind; [apply keeps_get|intros s0]. destruct (encoder (audio s0)); [|apply keeps_ret].
  cbv zeta. destruct (if dataSavingMode s0 || _ then _ else _) as [mx init].
  apply keeps_bind; [|intros _; keep]. apply keeps_audio_modify; [|done]. intros s []. constructor; [by eexists|done].
Qed.
Lemma keeps_UpdateAudioOutputState : keeps UpdateAudioOutputState.
Proof. unfold UpdateAudioOutputState. keep. apply keeps_audio. by intros a []. Qed.

Lemma keeps_StartAudio s : good s → (incomingStreams s = [] → V) → wp start_audio_once s (λ _, good) throws allowed.
Proof.
  intros Hs Hack. destruct (po_audio _ _ _ _ _ _ _ _ _ _ _ _ _ Hs) as [[e He] Hin].
  unfold start_audio_once, StartAudio. apply wp_bind, wp_bind, wp_get. rewrite He, Hin.
  destruct (incomingStreams s) as [|st l] eqn:Ein.
  { apply wp_crash. right. right. split; [done|]. by apply Hack. }
  apply wp_bind, wp_modify.
  assert (good (s <| incomingStreams := st <| decoder := true |> :: l |>)) as H1.
  { destruct Hs as [? ? ? ? ? Hi ? ? ?]. rewrite Ein in Hi. inversion Hi as [|? ? [Hj Hr] Hl]; subst.
    constructor; try done. by constructor. }
  eapply wp_mono with (Q' := λ _ : unit, good); [|intros [] s2 H2; apply wp_modify; exact H2].
  match goal with |- wp ?m _ _ _ _ => cut (keeps m); [intros Hk; apply Hk, H1|] end.
  keep; [by intros ? ?| |apply keeps_fail]. apply keeps_audio. intros a []. constructor; [by eexists|done].
Qed.
End controller.
