(* ===== verification/ReceiveSafety.v ===== *)
(** * Receiving is safe: every datagram

    Each handler of [Incoming] keeps the invariant of [CallSafety]; the
    theorem about [receive] for any datagram in any state of the invariant. *)

From Stdlib Require Import ZArith Lia SpecFloat List.
From stdpp Require Import base tactics list numbers option gmap strings.
From S2P Require Import Prelude Words Double History Memory Buffers Streams Seq Congestion Link Net Wire Packet.
From S2P Require Import Jitter Reassembler Endpoints Controller Incoming Setup CallSafety.
From stdpp Require Import list.
Open Scope Z_scope.

(* ------------------------------------------------------------------ *)
(** ** Messages that are built *)

Section writes.
Import BufferOutputStream.
(** At most [N] bytes are written. *)
Definition writes (N : Z) (m : M t unit) : Prop :=
  ∀ d o, grows d o → zlen d + N ≤ 1099511627776 →
    wp m o (λ _ o', ∃ d', grows d' o' ∧ zlen d' ≤ zlen d + N) (λ _ _, False) (λ _, False).
Lemma writes_bind N N' m m' : 0 ≤ N' → writes N m → writes N' m' → writes (N + N') (m;; m').
Proof.
  intros H0 Hm Hm' d o Hg Hl. apply wp_bind. eapply wp_mono; [apply (Hm d o Hg); lia|].
  intros _ o' (d' & Hg' & Hd'). eapply wp_mono; [apply (Hm' d' o' Hg'); lia|]. intros _ o2 (d2 & Hg2 & Hd2). exists d2. split; [done|lia].
Qed.
Lemma writes_ret N : 0 ≤ N → writes N (mret tt).
Proof. intros HN d o Hg _. apply wp_ret. exists d. split; [done|lia]. Qed.
Lemma writes_Byte b : writes 1 (WriteByte b).
Proof. intros d o Hg Hl. eapply wp_WriteByte; [done|lia|]. intros o' Hg'. eexists. split; [done|]. by rewrite zlen_app. Qed.
Lemma writes_Int16 b : writes 2 (WriteInt16 b).
Proof. intros d o Hg Hl. eapply wp_WriteInt16; [done|lia|]. intros o' Hg'. eexists. split; [done|]. rewrite zlen_app, zlen_le_bytes. lia. Qed.
Lemma writes_Int32 b : writes 4 (WriteInt32 b).
Proof. intros d o Hg Hl. eapply wp_WriteInt32; [done|lia|]. intros o' Hg'. eexists. split; [done|]. rewrite zlen_app, zlen_le_bytes. lia. Qed.
Lemma writes_Bytes l : writes (zlen l) (WriteBytes l).
Proof. intros d o Hg Hl. eapply wp_WriteBytes; [done|lia|]. intros o' Hg'. eexists. split; [done|]. rewrite zlen_app. lia. Qed.
Lemma writes_if (c : bool) N m m' : writes N m → writes N m' → writes N (if c then m else m').
Proof. by destruct c. Qed.
Lemma writes_le N N' m : N ≤ N' → writes N m → writes N' m.
Proof. intros HN Hm d o Hg Hl. eapply wp_mono; [apply Hm; [done|lia]|]. intros _ o' (d' & ? & ?). exists d'. split; [done|lia]. Qed.

Lemma wp_built {S} k N m (s : S) (Q : bytes → S → Prop) T D :
  0 ≤ k ≤ 65536 → 0 ≤ N ≤ 1048576 → writes N m → (∀ d, zlen d ≤ N → Q d s) → wp (built (ctor k) m) s Q T D.
Proof.
  intros Hk HN Hm HQ. unfold built. apply wp_with_stream, wp_bind, wp_on_stream.
  eapply wp_weaken; [apply (Hm [] _ (grows_ctor k Hk)); change (zlen (@nil Z)) with 0; lia| |done..].
  intros [] o (d & Hg & Hd). apply wp_on_stream, wp_gets. rewrite (grows_data _ _ Hg). by apply HQ.
Qed.
End writes.

(* ------------------------------------------------------------------ *)
(** ** Jitter buffers and reassemblers *)

Lemma SetMinPacketCount_inv c j : inv j → inv (JitterBuffer.SetMinPacketCount c j).
Proof. intros Hj. apply (run_safe (JitterOps.OpSetMinPacketCount c) j I Hj). Qed.

Lemma new_reassembler_ok ts kf : reassembler_ok (PacketReassembler.ctor ts kf).
Proof. constructor; [simpl; lia|done|]. apply Forall_replicate. by vm_compute. Qed.
Lemma AddFragment_ok d i cnt pts kf r :
  reassembler_ok r → zlen d ≤ 2047 → 0 ≤ i ≤ 255 → 0 ≤ cnt ≤ 255 →
  ∃ out r', PacketReassembler.AddFragment (Buffer.of_bytes d) i cnt pts kf r = Ret out r' ∧ reassembler_ok r'.
Proof.
  intros Hr Hd Hi Hc. unfold PacketReassembler.AddFragment.
  destruct (Z.ltb_spec 255 cnt); [lia|]. rewrite andb_false_r.
  set (r1 := if negb _ then _ else r). assert (reassembler_ok r1) as H1.
  { unfold r1. destruct (negb _); [|done]. destruct Hr. by constructor. }
  clearbody r1. clear Hr r. destruct (_ || _); [by eexists _, _|]. destruct H1 as [Hn Hp Hs].
  assert (∀ ps, zlen ps = 255 → Forall (λ b, zlen (Buffer.contents b) ≤ 2047) ps → ∀ a k m,
    reassembler_ok (PacketReassembler.mk a (PacketReassembler.currentPacketPartCount r1) ps k m)) as Hok by (by constructor).
  assert (∃ ps, (if i <? PacketReassembler.currentPacketPartCount r1 then zset (PacketReassembler.parts r1) i (Buffer.of_bytes d)
      else Some (PacketReassembler.parts r1)) = Some ps ∧ zlen ps = 255 ∧ Forall (λ b, zlen (Buffer.contents b) ≤ 2047) ps) as (ps & -> & Hps & Hf).
  { destruct (Z.ltb_spec i (PacketReassembler.currentPacketPartCount r1)); [|by eexists].
    rewrite zset_Some by lia. eexists. split; [done|]. split; [by rewrite zlen_insert|]. by apply Forall_insert. }
  cbn [PacketReassembler.currentTimestamp PacketReassembler.currentPacketPartCount PacketReassembler.parts
       PacketReassembler.currentIsKeyframe PacketReassembler.receivedPartCount].
  destruct (_ <? _); [eexists _, _; split; [done|by apply Hok]|].
  destruct (_ && _); [|eexists _, _; split; [done|by apply Hok]].
  unfold PacketReassembler.complete.
  cbn [PacketReassembler.currentTimestamp PacketReassembler.currentPacketPartCount PacketReassembler.parts
       PacketReassembler.currentIsKeyframe PacketReassembler.receivedPartCount].
  set (k := Z.to_nat (PacketReassembler.currentPacketPartCount r1)).
  assert (Forall (λ b, zlen (Buffer.contents b) ≤ 2047) (take k ps)) as Ht by by apply Forall_take.
  destruct (write_parts_ctor (take k ps)) as (out & -> & _).
  - assert (zsum (zlen ∘ Buffer.contents <$> take k ps) ≤ 2047 * zlen (take k ps)) as Hz.
    { induction Ht as [|b l Hb Hl IH]; [done|]. rewrite fmap_cons, zsum_cons, zlen_cons. cbn [compose]. lia. }
    assert (zlen (take k ps) ≤ 255) by (rewrite <- Hps; unfold zlen; rewrite length_take; lia). lia.
  - eexists _, _. split; [done|]. constructor; cbn; [lia| |].
    + unfold zlen in *. rewrite length_app, length_replicate, length_drop. unfold k. lia.
    + apply Forall_app_2; [|by apply Forall_drop]. apply Forall_replicate. by vm_compute.
Qed.

(* ------------------------------------------------------------------ *)
(** ** The handlers *)

(** The server's parameters leave room in the jitter buffer. *)
Definition server_ok {SC : ServerConfig} : Prop := JitterOps.config_ok (JitterBuffer.mkconfig GetInt GetDouble).

Section streams.
Context {CF : CryptoFunctions} {CL : CryptoLaws} {CK : Clock} {RD : Random} {SC : ServerConfig} {HO : Host}.
Context (A V U : Prop) (n : nat) (b : bool) (ids : list Z).
Hypothesis (Hn : (n ≤ 100)%nat).
Import Packet Controller Incoming.
#[local] Abbreviation I := BufferInputStream.t.
#[local] Abbreviation C := Controller.t.
#[local] Abbreviation good := (ok U n b ids).
#[local] Abbreviation keeps := (keeps A V U True n b ids).
#[local] Abbreviation keepsI := (keepsI A V U True n b ids).
#[local] Abbreviation allowed := (allowed A V).
#[local] Abbreviation throws := (throws U True n b ids).
Implicit Types s : C.

(** ** Streams *)

Lemma change_first_nil i f l : change_first i f l = [] → l = [].
Proof. destruct l as [|st l]; [done|]. cbn. by destruct (s_id st =? i). Qed.
Lemma change_first_ok i f l : (∀ st, stream_ok st → stream_ok (f st)) → Forall stream_ok l → Forall stream_ok (change_first i f l).
Proof. intros Hf Hl. induction Hl as [|st l Hst Hl IH]; [done|]. cbn. destruct (s_id st =? i); constructor; auto. Qed.
Lemma keeps_change_stream i f : (∀ st, stream_ok st → stream_ok (f st)) → keeps (change_stream i f).
Proof.
  intros Hf. apply keeps_modify. intros s [H1 H2 H3 H4 H5 Hi Hq H7 H8]. constructor; try done.
  - by apply change_first_ok.
  - intros Ha He%change_first_nil. by apply H8.
Qed.
Lemma stream_of_ok i st s : good s → stream_of i s = Some st → stream_ok st.
Proof. intros Hs Hf. apply find_some in Hf as [Hin _]. apply list_elem_of_In in Hin. pose proof (po_in _ _ _ _ _ _ _ _ _ _ _ _ _ Hs). by eapply Forall_forall in H. Qed.
Lemma keeps_HandleInput i d ts ec : is_u32 ts → keeps (HandleInput i d ts ec).
Proof.
  intros Hts. unfold HandleInput. apply keeps_bind; [apply keeps_GetCurrentTime|intros now].
  intros s Hs. apply wp_bind, wp_get. destruct (stream_of i s) as [st|] eqn:Est; cbn [mbind option_bind]; [|by apply wp_ret].
  destruct (jitterBuffer st) as [j|] eqn:Ej; [|by apply wp_ret].
  pose proof (stream_of_ok _ _ _ Hs Est) as [Hj _]. specialize (Hj j Ej).
  pose proof (run_safe (JitterOps.OpInput d ts ec now) j Hts Hj) as Hr. unfold wp in Hr. cbn [JitterOps.run] in Hr.
  destruct (JitterBuffer.HandleInput d ts ec now j) as [[] j'| |c]; [|done|by left].
  apply keeps_change_stream; [|done]. intros st' [_ Hr']. split; [by intros j2 [= <-]|done].
Qed.

End streams.

(** Calls of the controller. *)
Ltac keep_call :=
  lazymatch goal with
  | |- ∀ s, ok _ _ _ _ s → ok _ _ _ _ _ => let s := fresh "s" in intros s []; by constructor
  | |- CallSafety.keeps _ _ _ _ _ _ _ ?m =>
      lazymatch m with
      | Controller.SendPublicEndpointsRequest => apply keeps_SendPublicEndpointsRequest
      | Controller.fail _ => apply keeps_fail
      | Controller.SetState _ => apply keeps_SetState
      | Controller.UpdateDataSavingState => apply keeps_UpdateDataSavingState
      | Controller.UpdateAudioBitrateLimit => apply keeps_UpdateAudioBitrateLimit
      | Controller.UpdateAudioOutputState => apply keeps_UpdateAudioOutputState
      | Controller.SendPacketReliably _ _ _ _ => apply keeps_SendPacketReliably
      | Controller.on_routes (Endpoints.at_ _) => apply keeps_at; done
      | Controller.on_routes Endpoints.ResetEndpointPingStats => apply keeps_routes, routes_Reset; done
      | Incoming.to_preferred => apply keeps_routes_modify; intros ? ?; by apply routes_to_preferred
      | Incoming.change_stream _ _ => apply keeps_change_stream; intros ? [? ?]; split; assumption
      end
  end.
Ltac keeps_all := repeat (first [keep_step | keep_call]).

Section receiving.
Context {CF : CryptoFunctions} {CL : CryptoLaws} {CK : Clock} {RD : Random} {SC : ServerConfig} {HO : Host}.
Context (A V U : Prop) (n : nat) (b : bool) (ids : list Z).
Hypothesis (Hn : (n ≤ 100)%nat).
Import Packet Controller Incoming.
#[local] Abbreviation I := BufferInputStream.t.
#[local] Abbreviation C := Controller.t.
#[local] Abbreviation good := (ok U n b ids).
#[local] Abbreviation keeps := (keeps A V U True n b ids).
#[local] Abbreviation keepsI := (keepsI A V U True n b ids).
#[local] Abbreviation allowed := (allowed A V).
#[local] Abbreviation throws := (throws U True n b ids).
Implicit Types s : C.

(** ** Extra data *)

Lemma keepsI_read_csd i k : keepsI (read_csd i k).
Proof.
  induction k as [|k IH]; cbn [read_csd]; keeps_all. apply IH.
Qed.
Lemma keepsI_stream_flags : keepsI extra_stream_flags.
Proof.
  unfold extra_stream_flags. keeps_all.
  apply keeps_change_stream. intros st [Hj Hr]. cbv zeta. split.
  - assert (∀ c j, fmap (JitterBuffer.SetMinPacketCount c) (jitterBuffer st) = Some j → inv j) as Hm.
    { intros c j (j' & Ej & ->)%fmap_Some. by apply SetMinPacketCount_inv, Hj. }
    intros j. destruct (has _ _); destruct (extraECEnabled _); cbn; first [apply Hj|apply Hm].
  - intros r. destruct (has _ _); destruct (extraECEnabled _); apply Hr.
Qed.
Lemma keepsI_stream_csd : keepsI extra_stream_csd.
Proof. unfold extra_stream_csd. keeps_all. apply keepsI_read_csd. Qed.

Lemma new_endpoint_ok socks id port addr v6 ty tag :
  is_s64 id → ty = Endpoint.UDP_P2P_LAN ∨ ty = Endpoint.UDP_P2P_INET →
  endpoint_ok socks (Endpoint.ctor id port addr v6 ty tag).
Proof.
  intros Hid Hty. constructor; [apply ctor_HistoricBuffer_wf; lia|done| |done]. intros _.
  unfold Endpoint.is_relay, Endpoint.ctor. cbn. by destruct Hty as [-> | ->].
Qed.
Lemma keeps_add_lan a p : keeps (add_lan_endpoint a p).
Proof.
  unfold add_lan_endpoint. keeps_all. apply keeps_routes_modify. intros r Hr.
  apply (routes_set_endpoint ids (Endpoint.ctor lanID p _ _ _ _)); [|done]. apply new_endpoint_ok; [done|]. by left.
Qed.
Lemma keeps_peer_network_flags f : keeps (peer_network_flags f).
Proof. unfold peer_network_flags. keeps_all. Qed.
Lemma keepsI_lan_endpoint : keepsI extra_lan_endpoint.
Proof. unfold extra_lan_endpoint. keeps_all. apply keeps_add_lan. Qed.
Lemma keepsI_network_changed : keepsI extra_network_changed.
Proof. unfold extra_network_changed. keeps_all. apply keeps_peer_network_flags. Qed.
Lemma keepsI_group_call_key : keepsI extra_group_call_key.
Proof. unfold extra_group_call_key. keeps_all. Qed.
Lemma keepsI_request_group : keepsI extra_request_group.
Proof. unfold extra_request_group. keeps_all. Qed.
(** A new endpoint can become the current one. *)
Lemma keepsI_use_endpoint (e : Endpoint.t) (c : bool) :
  (∀ socks, endpoint_ok socks e) →
  keepsI (on_self (on_routes (Endpoints.set_endpoint e));; if c then on_self (set_current (Endpoint.id e)) else mret tt).
Proof.
  intros He i s Hi Hs. apply wp_bind, wp_on_self, wp_zoom, wp_modify.
  assert (good (s <| routes := routes s <| Endpoints.endpoints ::= OMap.insert (Endpoint.id e) e |> |>)) as H1.
  { destruct Hs. constructor; try done. by apply routes_set_endpoint. }
  destruct c; [|by apply wp_ret]. apply wp_on_self, wp_zoom, wp_modify. split; [done|].
  destruct H1. constructor; try done. apply routes_set_current; [|done].
  change (is_Some (OMap.find (Endpoint.id e) (OMap.insert (Endpoint.id e) e (Endpoints.endpoints (routes s))))).
  rewrite find_insert_eq. by eexists.
Qed.
Lemma keepsI_ipv6_endpoint : keepsI extra_ipv6_endpoint.
Proof.
  unfold extra_ipv6_endpoint. apply keepsI_bind; [keeps_all|intros s0]. destruct (negb _); [keeps_all|].
  apply keepsI_bind; [keeps_all|intros addr]. apply keepsI_bind; [keeps_all|intros prt].
  apply keepsI_bind; [keeps_all|intros _]. apply keepsI_use_endpoint.
  intros socks. constructor; [apply ctor_HistoricBuffer_wf; lia|done..].
Qed.

Lemma keeps_ProcessExtraData d : wf_bytes d → zlen d ≤ 4294967296 → keeps (ProcessExtraData d).
Proof.
  intros Hd Hl. unfold ProcessExtraData. apply keeps_with_stream; [split; [apply ctor_wf; [done|lia]|done]|].
  keeps_all; first [apply keepsI_stream_flags | apply keepsI_stream_csd | apply keepsI_lan_endpoint | apply keepsI_network_changed
    | apply keepsI_group_call_key | apply keepsI_request_group | apply keepsI_ipv6_endpoint].
Qed.

Lemma keeps_acknowledged_extras l : keeps (acknowledged_extras l).
Proof.
  induction l as [|x l IH]; cbn [acknowledged_extras]; [apply keeps_ret|]. apply keeps_bind; [|by intros _].
  unfold ProcessAcknowledgedOutgoingExtra. keeps_all.
Qed.

(** Reading bytes, building a message. *)
Lemma keepsI_bytes {X} k (f : bytes → M (I * C) X) :
  0 ≤ k → (∀ l, wf_bytes l → zlen l = k → keepsI (f l)) → keepsI (on_stream (BufferInputStream.ReadBytes k) ≫= f).
Proof.
  intros Hk Hf i s [Hi Hlen] Hs. apply wp_bind, wp_on_stream, wp_along; [apply along_ReadBytes|].
  apply wp_ReadBytes_any; [done..| |].
  - intros l i' Hi' Hw Hl E. apply Hf; [done..|split; [done|by rewrite E]|done].
  - intros i' _. by split_and!.
Qed.
Lemma keepsI_built {X} k N m (f : bytes → M (I * C) X) :
  0 ≤ k ≤ 65536 → 0 ≤ N ≤ 1048576 → writes N m → (∀ d, zlen d ≤ N → keepsI (f d)) →
  keepsI (on_self (built (BufferOutputStream.ctor k) m) ≫= f).
Proof.
  intros Hk HN Hm Hf i s Hi Hs. apply wp_bind, wp_on_self. eapply wp_built; [done..|]. intros d Hd. by apply Hf.
Qed.
Lemma keeps_built {X} k N m (f : bytes → M C X) :
  0 ≤ k ≤ 65536 → 0 ≤ N ≤ 1048576 → writes N m → (∀ d, zlen d ≤ N → keeps (f d)) →
  keeps (built (BufferOutputStream.ctor k) m ≫= f).
Proof. intros Hk HN Hm Hf s Hs. apply wp_bind. eapply wp_built; [done..|]. intros d Hd. by apply Hf. Qed.

(** ** Replies of relays *)

Lemma routes_update_same f i r :
  (∀ e, Endpoint.id (f e) = Endpoint.id e ∧ Endpoint.type (f e) = Endpoint.type e ∧ Endpoint.socket (f e) = Endpoint.socket e) →
  (∀ e, HistoricBuffer.wf (Endpoint.rtts e) → HistoricBuffer.wf (Endpoint.rtts (f e))) →
  routes_ok ids r → routes_ok ids (r <| Endpoints.endpoints ::= OMap.update i f |>).
Proof.
  intros Hf Hw. apply routes_update. intros e _. destruct (Hf e) as (Ei & Et & Ek). split; [done|].
  intros [H1 H2 H3]. constructor; unfold Endpoint.is_relay in *; rewrite ?Ei, ?Et, ?Ek; auto.
Qed.

Lemma keepsI_self_info src : keepsI (reflector_self_info src).
Proof.
  unfold reflector_self_info. apply keepsI_bind; [keeps_all|intros e]. apply keepsI_bind; [keeps_all|intros k].
  destruct (_ && _); [|keeps_all]. apply keepsI_bind; [keeps_all|intros _]. apply keepsI_bind; [keeps_all|intros _].
  apply keepsI_bytes; [lia|]. intros myIP _ Hip. apply keepsI_bind; [keeps_all|intros _].
  apply keepsI_bind; [|intros _].
  { keeps_all. apply keeps_routes_modify. intros r. by apply routes_update_same. }
  apply keepsI_bind; [keeps_all|intros s0]. destruct (_ && _); [|keeps_all]. apply keepsI_bind; [keeps_all|intros _].
  destruct (Endpoints.allowP2p _); [|keeps_all]. apply keepsI_bind; [keeps_all|intros _].
  apply (keepsI_built 18 (zlen myIP + 2)); [lia..|apply writes_bind; [lia|apply writes_Bytes|apply writes_Int16]|].
  intros d Hd. keeps_all. by apply keeps_SendExtra; [|lia].
Qed.

(** The deleted LAN endpoint is not in use. *)
Lemma keepsI_peer_info : ids = [] → keepsI reflector_peer_info.
Proof.
  intros Hids. unfold reflector_peer_info. apply keepsI_bind; [keeps_all|intros k]. destruct (16 <=? k); [|keeps_all].
  apply keepsI_bind; [keeps_all|intros myAddr]. apply keepsI_bind; [keeps_all|intros _].
  apply keepsI_bind; [keeps_all|intros peerAddr]. apply keepsI_bind; [keeps_all|intros peerPort].
  intros i s Hi Hs. apply wp_bind, wp_on_self, wp_get.
  set (cur := Endpoints.currentEndpoint (routes s)).
  apply wp_bind. apply wp_mono with (Q' := λ (_ : unit) (p : I * C), p.1 = i ∧ good p.2 ∧ Endpoints.currentEndpoint (routes p.2) ≠ lanID).
  { destruct (Z.eqb_spec cur p2pID) as [|H1]; [|destruct (Z.eqb_spec cur lanID) as [|H2]]; cbn [orb].
    3:{ by apply wp_ret. }
    all: apply wp_on_self, wp_zoom, wp_modify; destruct Hs as [? ? [Hri Hrc [Hp Hpl] Hra] ? ? ? ? ? ?]; split_and!; [done| |exact Hpl].
    all: constructor; try done; by apply routes_to_preferred. }
  intros [] [i' s1] (Ei & H1 & Hne). cbn [fst snd] in *. subst i'. apply wp_bind, wp_on_self, wp_zoom.
  eapply wp_weaken; [apply (routes_erase_lan ids _ Hids Hne), H1| |done..].
  intros [] r Hr. assert (good (s1 <| routes := r |>)) as H2 by (destruct H1; by constructor).
  match goal with |- wp ?m _ _ _ _ => cut (keepsI m); [intros Hk; by apply Hk|] end.
  destruct (waitingForRelayPeerInfo s); [|keeps_all]. apply keepsI_bind; [|intros _].
  { keeps_all. apply keeps_routes_modify. intros r' Hr'.
    apply (routes_set_endpoint ids (Endpoint.ctor p2pID _ _ _ _ _)); [|done]. apply new_endpoint_ok; [done|]. by right. }
  apply keepsI_bind; [|intros _; keeps_all]. destruct (_ =? _); [|keeps_all].
  apply (keepsI_built 8 (4 + 4)); [lia..|apply writes_bind; [lia|apply writes_Int32|apply writes_Int32]|].
  intros d Hd. destruct (_ <? _); keeps_all; [lia|by apply keeps_SendExtra; [|lia]].
Qed.
Lemma keepsI_relay_reply src : ids = [] → keepsI (relay_reply src).
Proof.
  intros Hids. unfold relay_reply. keeps_all; [apply keepsI_self_info|by apply keepsI_peer_info].
Qed.

(** ** Packets by type *)

Lemma keepsI_get {X} (f : C → M (I * C) X) : (∀ s, good s → keepsI (f s)) → keepsI (on_self get ≫= f).
Proof. intros Hf i s Hi Hs. apply wp_bind, wp_on_self, wp_get. by apply Hf. Qed.
Lemma keepsI_at {X} j (f : Endpoint.t → M (I * C) X) :
  (∀ e, HistoricBuffer.wf (Endpoint.rtts e) → (Endpoint.is_relay e = true → j ≠ lanID) → keepsI (f e)) →
  keepsI (on_self (on_routes (Endpoints.at_ j)) ≫= f).
Proof.
  intros Hf i s Hi Hs. apply wp_bind, wp_on_self, wp_zoom, wp_at.
  - intros e He. destruct (endpoint_ok_find ids (routes s) j e) as [<- [Hw _ Hl _]]; [apply Hs|done|].
    assert (good (s <| routes := routes s |>)) as Hg by (by destruct s).
    apply Hf; [done| |done..]. intros Hr E. rewrite Hl in Hr; [done|]. rewrite E. apply lanID_elem.
  - intros _. split_and!; [done..|]. by destruct s.
Qed.

Lemma keepsI_handle_ping src p : src ∈ ids → keepsI (handle_ping src p).
Proof.
  intros Hsrc. unfold handle_ping. apply keepsI_bind; [keeps_all|intros e]. apply keepsI_bind; [keeps_all|intros s0].
  destruct (_ && _); [keeps_all|]. apply (keepsI_built 128 4); [lia..|apply writes_Int32|].
  intros d Hd. keeps_all. eapply keeps_send_new; [lia..|by right].
Qed.
Lemma keepsI_handle_pong src h : keepsI (handle_pong src h).
Proof.
  unfold handle_pong. destruct (4 <=? _); [|keeps_all]. apply keepsI_bind; [keeps_all|intros pingSeq].
  apply keepsI_at. intros e He _. destruct (_ =? _); [|keeps_all]. apply keepsI_bind; [keeps_all|intros now]. cbv zeta.
  apply keepsI_bind; [|intros _; keeps_all]. apply keepsI_self, keeps_routes_modify. intros r.
  apply routes_update_same; [done|]. intros e' _. by apply Add_wf.
Qed.
Lemma keepsI_handle_stream_state : keepsI handle_stream_state.
Proof. unfold handle_stream_state. keeps_all. Qed.
Lemma keepsI_handle_lan_endpoint : keepsI handle_lan_endpoint.
Proof. unfold handle_lan_endpoint. keeps_all. apply keeps_add_lan. Qed.
Lemma keepsI_handle_network_changed cur : keepsI (handle_network_changed cur).
Proof. unfold handle_network_changed. keeps_all. apply keeps_peer_network_flags. Qed.

Lemma keepsI_read_fec i pts dur count j k : keepsI (read_fec i pts dur count j k).
Proof.
  revert j. induction k as [|k IH]; intros j; cbn [read_fec]; keeps_all; [|apply IH].
  apply keeps_HandleInput, u32_range.
Qed.
Lemma keepsI_handle_stream_ec : keepsI handle_stream_ec.
Proof. unfold handle_stream_ec. keeps_all. apply keepsI_read_fec. Qed.

(** The indices of a fragment are bytes. *)
Lemma keepsI_assoc {X Y Z'} (m : M (I * C) X) (f : X → M (I * C) Y) (g : Y → M (I * C) Z') :
  keepsI (m ≫= λ x, f x ≫= g) → keepsI ((m ≫= f) ≫= g).
Proof. intros Hm i s Hi Hs. unfold wp. rewrite bind_assoc. by apply Hm. Qed.
Lemma keepsI_fragment {X} (c : bool) (f : Z * Z → M (I * C) X) :
  (∀ i k, 0 ≤ i ≤ 255 → 0 ≤ k ≤ 255 → keepsI (f (i, k))) →
  keepsI ((if c then i ← on_stream BufferInputStream.ReadByte; k ← on_stream BufferInputStream.ReadByte; mret (i, k)
           else mret (0, 0)) ≫= f).
Proof.
  intros Hf. destruct c; [|by apply Hf]. apply keepsI_assoc, keepsI_byte; [done|]. intros x Hx.
  apply keepsI_assoc, keepsI_byte; [done|]. intros k Hk. apply Hf; lia.
Qed.

(** Data of a frame is inside the receive buffer. *)
Lemma keepsI_at_array {X} mem len sdlen (f : Z → bytes → M (I * C) X) (alt : M (I * C) X) :
  len ≤ zlen mem → zlen mem ≤ 4294967296 → 0 ≤ sdlen ≤ 2047 → keepsI alt → (∀ o d, zlen d ≤ 2047 → keepsI (f o d)) →
  keepsI (o ← on_stream (gets BufferInputStream.GetOffset);
    if len <? u64 (o + sdlen) then alt else d ← Wire.at_array mem o sdlen; f o d).
Proof.
  intros Hlen Hmem Hsd Halt Hf i s [Hi Hl] Hs. apply wp_bind, wp_on_stream, wp_gets.
  pose proof (BufferInputStream.wf_off i Hi). unfold BufferInputStream.GetOffset. rewrite u64_small by lia.
  destruct (Z.ltb_spec len (BufferInputStream.offset i + sdlen)); [by apply Halt|].
  apply wp_bind. unfold Wire.at_array, BufferInputStream.memcpy_from. rewrite decide_True by lia.
  eapply wp_defined; [done|]. apply Hf; [|done..]. unfold zlen. rewrite length_take. lia.
Qed.

Lemma keepsI_stream_data mem len last :
  len ≤ zlen mem → zlen mem ≤ 4294967296 → keepsI (stream_data mem len last).
Proof.
  intros Hlen Hmem. unfold stream_data. apply keepsI_bind; [keeps_all|intros sid]. cbv zeta.
  apply keepsI_bind; [keeps_all|intros l]. apply keepsI_bind; [keeps_all|intros pts].
  apply keepsI_bind; [keeps_all|intros _]. apply keepsI_get. intros s0 Hs0.
  apply keepsI_bind; [|intros _].
  { keeps_all. apply keeps_audio. by intros a []. }
  apply keepsI_fragment. intros fi fn Hfi Hfn. cbn [fst snd].
  assert (0 ≤ Z.land l 2047 ≤ 2047) as Hsd by (pose proof (Z.land_ones l 11 ltac:(lia)) as E; change (Z.ones 11) with 2047 in E; rewrite E; dlia).
  apply keepsI_at_array; [done..|keeps_all|]. intros o d Hd. apply keepsI_bind.
  - destruct (stream_of (Z.land sid 63) s0) as [stm|] eqn:Est; [|keeps_all]. destruct (stream_of_ok _ _ _ _ _ _ _ Hs0 Est) as [_ Hr].
    destruct (s_type stm =? STREAM_TYPE_AUDIO).
    + destruct (jitterBuffer stm); keeps_all; [apply keeps_HandleInput, u32_range|apply keepsI_read_fec].
    + destruct (s_type stm =? STREAM_TYPE_VIDEO); [|keeps_all].
      destruct (packetReassembler stm) as [r|] eqn:Er; [|keeps_all].
      destruct (AddFragment_ok d fi fn (u32 pts) (has l STREAM_DATA_XFLAG_KEYFRAME) r) as (out & r' & -> & Hr'); [by apply Hr|lia..|].
      apply keepsI_self, keeps_bind; [|intros _; keeps_all]. apply keeps_change_stream. intros st [Hj _]. split; [done|]. by intros ? [= <-].
  - intros _. keeps_all.
Qed.
Lemma keepsI_stream_datas mem len k :
  len ≤ zlen mem → zlen mem ≤ 4294967296 → keepsI (stream_datas mem len k).
Proof.
  intros Hlen Hmem. induction k as [|k IH]; cbn [stream_datas]; [keeps_all|]. apply keepsI_bind; [by apply keepsI_stream_data|].
  intros go. destruct go; [apply IH|keeps_all].
Qed.
Lemma keepsI_handle_stream_data src ty mem len :
  len ≤ zlen mem → zlen mem ≤ 4294967296 → keepsI (handle_stream_data src ty mem len).
Proof.
  intros Hlen Hmem. unfold handle_stream_data. keeps_all; [|by apply keepsI_stream_datas..].
  apply keeps_routes_modify. intros r. by apply routes_same_map.
Qed.

(** ** [PKT_INIT] *)

Lemma reads_skip_codecs v k : reads A (skip_codecs v k).
Proof. induction k as [|k IH]; cbn [skip_codecs]; [apply reads_ret|]. keep. apply IH. Qed.
Lemma keepsI_read_decoders k : keepsI (read_decoders k).
Proof. induction k as [|k IH]; cbn [read_decoders]; keeps_all. apply IH. Qed.

Lemma writes_ack_streams v l : writes (9 * zlen l) (ack_streams v l).
Proof.
  induction l as [|st l IH]; cbn [ack_streams]; [by apply writes_ret|]. rewrite zlen_cons.
  apply writes_le with (9 + 9 * zlen l); [lia|]. apply writes_bind; [pose proof (zlen_nonneg l); lia| |exact IH].
  unfold ack_stream. apply (writes_bind 1 (1 + (4 + (2 + 1)))); [lia|apply writes_Byte|].
  apply writes_bind; [lia|apply writes_Byte|]. apply writes_bind; [lia| |].
  - destruct (v <? 5); [|apply writes_Int32]. eapply writes_le; [|apply writes_Byte]. lia.
  - apply writes_bind; [lia|apply writes_Int16|apply writes_Byte].
Qed.
Lemma wp_init_ack s (Q : bytes → C → Prop) T D : good s → (∀ d, zlen d ≤ 2000 → Q d s) → wp init_ack s Q T D.
Proof.
  intros Hs HQ. unfold init_ack. apply wp_bind, wp_get. pose proof (po_out _ _ _ _ _ _ _ _ _ _ _ _ _ Hs) as Ho.
  pose proof (zlen_nonneg (outgoingStreams s)).
  apply (wp_built 1024 (4 + (4 + (1 + 9 * zlen (outgoingStreams s))))); [lia|unfold zlen in *; lia| |].
  - repeat (apply writes_bind; [lia|first [apply writes_Int32|apply writes_Byte]|]). apply writes_ack_streams.
  - intros d Hd. apply HQ. unfold zlen in *. lia.
Qed.

Lemma wp_answer_init src i s : src ∈ ids → (U → V) → reader_ok i → good s →
  wp (answer_init src) (i, s) (λ _ p, reader_ok p.1 ∧ ok U n true ids p.2) (λ _ _, False) allowed.
Proof.
  intros Hsrc HUV Hi Hs. unfold answer_init. apply wp_bind, wp_on_self, wp_init_ack; [done|]. intros d Hd.
  apply wp_bind, wp_on_self. eapply wp_weaken; [apply (keeps_send_new A V U False n b ids Hn); [lia|by left|done]| |by intros ? ? [[] _]|done].
  intros [] s1 H1. apply wp_bind, wp_on_self, wp_zoom.
  assert (is_Some (OMap.find src (Endpoints.endpoints (routes s1)))) as Hfind.
  { destruct H1 as [_ _ [Hids _ _ _] _ _ _ _ _ _]. by eapply Forall_forall in Hids. }
  apply wp_at; [|by intros E; rewrite E in Hfind; destruct Hfind].
  intros e He. destruct (endpoint_ok_find ids (routes s1) src e) as [Hid [_ _ Hlan _]]; [apply H1|done|].
  apply wp_bind, wp_on_self, wp_get, wp_bind.
  apply wp_mono with (Q' := λ (_ : unit) (p : I * C), p.1 = i ∧ ok U n true ids p.2 ∧
    receivedInitAck p.2 = receivedInitAck s1 ∧ incomingStreams p.2 = incomingStreams s1).
  - destruct H1 as [G1 G2 G3 G4 G5 G6 Gq G7 G8].
    change (receivedInit (s1 <| routes := routes s1 |>)) with (receivedInit s1).
    destruct (receivedInit s1) eqn:Er.
    { apply wp_ret. by split_and!. }
    apply wp_bind, wp_on_self, wp_modify. cbv zeta.
    assert (∀ r, routes_ok ids r → ok U n true ids (s1 <| routes := r |> <| receivedInit := true |>)) as G by (by constructor).
    set (udp := bool_decide (Endpoint.type e = Endpoint.UDP_RELAY)). set (tcp := bool_decide (Endpoint.type e = Endpoint.TCP_RELAY)).
    destruct (_ || tcp) eqn:Ec; [|apply wp_ret; split_and!; [done|by apply G|done..]].
    assert (src ≠ lanID) as Hne.
    { intros E. rewrite Hid, E in Hlan. specialize (Hlan lanID_elem). unfold Endpoint.is_relay in Hlan. fold udp tcp in Hlan.
      destruct udp, tcp; done. }
    pose proof (routes_set_current ids src _ Hfind G3) as G3'.
    apply wp_bind, wp_on_self, wp_zoom, wp_modify.
    destruct (udp || _); [|apply wp_ret; split_and!; [done|exact (G _ G3')|done..]].
    pose proof (G _ (routes_adopt ids src _ Hfind Hne G3)) as Gp.
    apply wp_on_self, wp_zoom, wp_modify. split_and!; [done|exact Gp|done..].
  - intros [] [i' s2] (Ei & H2 & Ea & Einc). cbn [fst snd] in *. subst i'.
    change (audioStarted (s1 <| routes := routes s1 |>)) with (audioStarted s1).
    change (receivedInitAck (s1 <| routes := routes s1 |>)) with (receivedInitAck s1).
    destruct (receivedInitAck s1) eqn:Eack; rewrite ?andb_false_r, ?andb_true_r; [|by apply wp_ret].
    destruct (negb _); [|by apply wp_ret]. apply wp_on_self.
    eapply wp_weaken; [apply (keeps_StartAudio A V U False n true ids); [done|]| |by intros ? ? [[] _]|done].
    + rewrite Einc. intros Enil. apply HUV. by apply (po_streams _ _ _ _ _ _ _ _ _ _ _ _ _ H1).
    + by intros [] s3 H3.
Qed.

(** Go on from a state of the invariant. *)
Lemma keepsI_then {X Y} (m : M (I * C) X) (f : X → M (I * C) Y) i s (Q : Y → I * C → Prop) :
  keepsI m → reader_ok i → good s →
  (∀ x i' s', reader_ok i' → good s' → wp (f x) (i', s') Q (λ e p, throws e p.2) allowed) →
  wp (m ≫= f) (i, s) Q (λ e p, throws e p.2) allowed.
Proof. intros Hm Hi Hs Hf. apply wp_bind. eapply wp_mono; [by apply Hm|]. intros x [i' s'] [? ?]. by apply Hf. Qed.
Lemma keepsI_done {X} (m : M (I * C) X) i s (P : C → Prop) :
  keepsI m → reader_ok i → good s → (∀ s', good s' → P s') →
  wp m (i, s) (λ _ p, P p.2) (λ e p, throws e p.2) allowed.
Proof. intros Hm Hi Hs HP. eapply wp_mono; [by apply Hm|]. intros x [i' s'] [? ?]. by apply HP. Qed.

(** At most one stream is added. *)
Lemma keeps_SetupOutgoingVideoStream s : good s → wp SetupOutgoingVideoStream s (λ _, ok U (S n) b ids) throws allowed.
Proof.
  intros Hs. unfold SetupOutgoingVideoStream. apply wp_bind, wp_get. cbv zeta.
  assert (ok U (S n) b ids s) as H0 by (destruct Hs; constructor; try done; lia).
  assert (∀ st, ok U (S n) b ids (s <| outgoingStreams ::= λ l, l ++ [st] |>)) as H1.
  { intros st. destruct Hs. constructor; try done. cbn. rewrite length_app. simpl. lia. }
  repeat (destruct (_ && _); [by apply wp_modify|]). by apply wp_ret.
Qed.

Lemma keepsI_cap (c : bool) x : keepsI (if c then on_self (modify (λ s, s <| peerCapabilities ::= λ p, Z.lor p x |>)) else mret tt).
Proof. destruct c; keeps_all. Qed.

(** After [PKT_INIT]: as before, or received, with one more stream at the
    first time. *)
Definition after_init s : Prop := ok U n b ids s ∨ ok U (if b then n else S n) true ids s.

End receiving.

Section init.
Context {CF : CryptoFunctions} {CL : CryptoLaws} {CK : Clock} {RD : Random} {SC : ServerConfig} {HO : Host}.
Context (A V U : Prop) (n : nat) (b : bool) (ids : list Z).
Hypothesis (Hn : (n < 100)%nat).
Import Packet Controller Incoming.
#[local] Abbreviation C := Controller.t.
#[local] Abbreviation good := (ok U n b ids).
#[local] Abbreviation keepsI := (keepsI A V U True n b ids).
#[local] Abbreviation allowed := (allowed A V).
#[local] Abbreviation throws := (throws U True n b ids).
Implicit Types s : C.

Lemma wp_handle_init src i s : src ∈ ids → (U → V) → reader_ok i → good s →
  wp (handle_init src) (i, s) (λ _ p, after_init U n b ids p.2) (λ e p, throws e p.2) allowed.
Proof.
  intros Hsrc HUV Hi Hs. unfold handle_init.
  apply keepsI_then; [keeps_all|done..|]. clear i s Hi Hs. intros ver i s Hi Hs.
  apply keepsI_then; [keeps_all|done..|]. clear i s Hi Hs. intros s0 i s Hi Hs.
  apply keepsI_then; [keeps_all|done..|]. clear i s Hi Hs. intros _ i s Hi Hs.
  apply keepsI_then; [keeps_all|done..|]. clear i s Hi Hs. intros minVer i s Hi Hs.
  apply wp_bind, wp_on_self, wp_get. assert (receivedInit s = b) as Eb by apply Hs. rewrite Eb.
  destruct (_ || _).
  { apply (keepsI_done A V U n b ids); [keeps_all|done..|]. by left. }
  set (s0' := s) in *. clearbody s0'.
  apply keepsI_then; [keeps_all|done..|]. clear i s Hi Hs Eb. intros flags i s Hi Hs. cbv zeta.
  apply keepsI_then; [|done..|].
  { destruct b; [keeps_all|]. apply keepsI_bind; [keeps_all|intros _]. repeat (apply keepsI_bind; [apply keepsI_cap|intros _]). apply keepsI_cap. }
  clear i s Hi Hs. intros _ i s Hi Hs.
  apply keepsI_then; [keeps_all|done..|]. clear i s Hi Hs. intros nc i s Hi Hs.
  apply keepsI_then; [apply keepsI_stream; [done|apply reads_skip_codecs]|done..|]. clear i s Hi Hs. intros _ i s Hi Hs.
  assert (∀ n', (n' ≤ 100)%nat → ∀ i s, reader_ok i → ok U n' b ids s →
    wp (answer_init src) (i, s) (λ _ p, ok U n' true ids p.2) (λ e p, throws e p.2) allowed) as Hans.
  { intros n' Hn' i' s' Hi' Hs'. eapply wp_weaken; [by apply (wp_answer_init A V U n' b ids Hn')| |done..]. by intros [] p []. }
  destruct (negb b && _) eqn:Eif.
  - destruct b; [done|].
    apply wp_bind. apply keepsI_then; [keeps_all|done..|]. clear i s Hi Hs. intros nd i s Hi Hs.
    apply keepsI_then; [apply keepsI_read_decoders|done..|]. clear i s Hi Hs. intros _ i s Hi Hs.
    apply keepsI_then; [keeps_all|done..|]. clear i s Hi Hs. intros r i s Hi Hs.
    apply wp_on_self, wp_bind, wp_modify.
    eapply wp_weaken; [apply (keeps_SetupOutgoingVideoStream A V U n false ids); [lia|exact Hs]| |done..].
    intros [] s1 H1. eapply wp_mono; [apply (Hans (S n)); [lia|done..]|]. intros [] p Hp. by right.
  - apply wp_bind, wp_ret. eapply wp_mono; [by apply (Hans n); [lia|..]|]. intros [] p Hp. right. destruct b; [done|].
    destruct Hp. constructor; try done. lia.
Qed.
End init.

(** ** [PKT_INIT_ACK] *)

Lemma ok_weaken (U U' : Prop) n b ids ids' s : (U → U') → (∀ i, i ∈ ids' → i ∈ ids) → ok U n b ids s → ok U' n b ids' s.
Proof.
  intros HU Hids [? ? [Hi ? ? ?] ? ? ? ? ? Hst]. constructor; try done.
  - constructor; try done. apply Forall_forall. intros i Hin. rewrite Forall_forall in Hi. auto.
  - auto.
Qed.

Section init_ack.
Context {CF : CryptoFunctions} {CL : CryptoLaws} {CK : Clock} {RD : Random} {SC : ServerConfig} {HO : Host}.
Context (A V : Prop) (n : nat) (b : bool) (ids : list Z).
Hypothesis (Hn : (n ≤ 100)%nat) (Hserver : server_ok).
Import Packet Controller Incoming.
#[local] Abbreviation C := Controller.t.
#[local] Abbreviation good := (ok True n b ids).
#[local] Abbreviation keepsI := (keepsI A V True True n b ids).
#[local] Abbreviation allowed := (allowed A V).
#[local] Abbreviation throws := (throws True True n b ids).
Implicit Types s : C.

Lemma keepsI_new_jitter_buffer {X} (f : JitterBuffer.t → M (BufferInputStream.t * C) X) :
  (∀ j, inv j → keepsI (f j)) → keepsI (on_self new_jitter_buffer ≫= f).
Proof.
  intros Hf i s Hi Hs. apply wp_bind, wp_on_self. unfold wp, new_jitter_buffer, JitterBuffer.ctor.
  destruct (JitterBuffer.ctor_fields _ _ _) as [j|] eqn:Ej.
  - pose proof (safe_Reset j (ctor_fields_inv _ _ _ _ Hserver Ej)) as Hr. unfold wp in Hr.
    destruct (JitterBuffer.Reset j) as [[] j'| |c]; [|done|by left]. destruct Hr as [Hj' _].
    apply Hf; [by apply SetMinPacketCount_inv|done..].
  - exfalso. unfold JitterBuffer.ctor_fields, BufferPool.ctor in Ej. by rewrite decide_True in Ej by done.
Qed.

Lemma keeps_add_stream st : stream_ok st → keeps A V True True n b ids (modify (λ s, s <| incomingStreams ::= λ l, l ++ [st] |>)).
Proof.
  intros Hst. apply keeps_modify. intros s []. constructor; try done. apply Forall_app_2; [done|by apply Forall_singleton].
Qed.
Lemma keepsI_read_streams k : keepsI (read_streams k).
Proof.
  induction k as [|k IH]; cbn [read_streams]; [keeps_all|].
  apply keepsI_bind; [keeps_all|intros i]. apply keepsI_bind; [keeps_all|intros ty]. apply keepsI_bind; [keeps_all|intros s0].
  apply keepsI_bind; [keeps_all|intros cdc]. apply keepsI_bind; [keeps_all|intros _]. apply keepsI_bind; [keeps_all|intros en].
  cbv zeta. apply keepsI_bind; [|intros _; apply IH]. destruct (ty =? STREAM_TYPE_AUDIO).
  - apply keepsI_new_jitter_buffer. intros j Hj. apply keepsI_self, keeps_add_stream. split; [by intros ? [= <-]|done].
  - destruct (ty =? STREAM_TYPE_VIDEO); [|keeps_all]. apply keepsI_self, keeps_add_stream. split; [done|].
    intros r [= <-]. apply new_reassembler_ok.
Qed.

(** The streams of the answer are there before audio starts. *)
Lemma wp_handle_init_ack U h i s0 : reader_ok i → ok U n b ids s0 →
  wp (handle_init_ack h) (i, s0) (λ _ p, good p.2) (λ e p, throws e p.2) allowed.
Proof.
  intros Hi Hs. assert (good s0) as Hg by (by apply (ok_weaken U True n b ids ids)).
  unfold handle_init_ack. apply wp_bind, wp_on_self, wp_get. destruct (receivedInitAck s0); [by apply wp_ret|].
  assert (good (s0 <| receivedInitAck := true |>)) as H0 by (destruct Hg; by constructor).
  apply wp_bind, wp_on_self, wp_modify. revert H0. set (s := s0 <| receivedInitAck := true |>). clearbody s.
  clear Hs Hg. intros Hs.
  apply keepsI_then; [keeps_all|done..|]. clear i s Hi Hs. intros _ i s Hi Hs.
  apply keepsI_then; [keeps_all|done..|]. clear i s Hi Hs. intros _ i s Hi Hs.
  apply keepsI_then; [keeps_all|done..|]. clear i s Hi Hs. intros c i s Hi Hs.
  destruct (negb c); [apply (keepsI_done A V True n b ids); [keeps_all|done..]|].
  apply keepsI_then; [keeps_all|done..|]. clear i s Hi Hs. intros k i s Hi Hs.
  destruct (k =? 0); [by apply wp_ret|].
  apply keepsI_then; [apply keepsI_read_streams|done..|]. clear i s Hi Hs. intros _ i s Hi Hs.
  apply wp_bind, wp_on_self, wp_get. cbv zeta. destruct (negb _) eqn:Enew; [by apply wp_ret|].
  assert (incomingStreams s ≠ []) as Hne by (intros E; by rewrite E, drop_nil in Enew).
  apply wp_bind. apply wp_mono with (Q' := λ (_ : unit) (p : BufferInputStream.t * C), p.1 = i ∧ good p.2 ∧ incomingStreams p.2 = incomingStreams s).
  { destruct (_ && _); [|by apply wp_ret]. apply wp_on_self, wp_modify. split_and!; [done|by destruct Hs; constructor|done]. }
  intros [] [i' s1] (E & H1 & Hinc). cbn [fst snd] in *. subst i'. apply wp_bind.
  apply wp_mono with (Q' := λ (_ : unit) (p : BufferInputStream.t * C), p.1 = i ∧ good p.2).
  { destruct (_ && _); [|by apply wp_ret]. apply wp_on_self.
    eapply wp_mono; [apply (keeps_StartAudio A V True True n b ids); [done|by rewrite Hinc]|]. by intros [] s2 H2. }
  intros [] [i' s2] (E & H2). cbn [fst snd] in *. subst i'.
  apply (keepsI_done A V True n b ids); [keeps_all|done..].
Qed.
End init_ack.

(* ------------------------------------------------------------------ *)
(** ** From the header on *)

(** The numbers of a header fit in 32 bits. *)
Lemma wp_any {S X} (m : M S X) s (Q : X → S → Prop) : (∀ x s', Q x s') → wp m s Q (λ _ _, True) (λ _, True).
Proof. intros HQ. unfold wp. by destruct (m s). Qed.
Lemma header_numbers c l i :
  wp (Packet.read_header c l) i (λ p _, match p with Packet.Header h => is_u32 (Packet.pseq h) | _ => True end) (λ _ _, True) (λ _, True).
Proof.
  unfold Packet.read_header.
  repeat match goal with
  | |- wp (mret _) _ _ _ _ => apply wp_ret; first [exact Logic.I|apply u32_range]
  | |- wp (if ?b then _ else _) _ _ _ _ => destruct b
  | |- wp (let _ := _ in _) _ _ _ _ => cbv zeta
  | |- wp (_ ≫= _) _ _ _ _ => apply wp_bind, wp_any; intros ? ?
  end.
Qed.
Lemma reads_header c l : reads (Wire.shortFormat c = false) (Packet.read_header c l).
Proof.
  unfold Packet.read_header. destruct (Wire.shortFormat c); [keep|].
  assert (reads (false = false) Packet.skip_string).
  { unfold Packet.skip_string. apply reads_bind; [by apply reads_ReadTlLength|intros k]. keep. }
  assert (reads (false = false) BufferInputStream.ReadTlLength) by by apply reads_ReadTlLength.
  repeat (first [keep_step | done | apply reads_bind; [|intros ?]]).
Qed.

Section packet.
Context {CF : CryptoFunctions} {CL : CryptoLaws} {CK : Clock} {RD : Random} {SC : ServerConfig} {HO : Host}.
Context (A V U : Prop) (n : nat) (b : bool) (src : Z).
Hypothesis (Hn : (n < 100)%nat) (HUV : U → V) (Hserver : server_ok).
Import Packet Controller Incoming.
#[local] Abbreviation C := Controller.t.
#[local] Abbreviation good := (ok U n b [src]).
#[local] Abbreviation keeps := (keeps A V U True n b [src]).
#[local] Abbreviation keepsI := (keepsI A V U True n b [src]).
#[local] Abbreviation allowed := (allowed A V).
Implicit Types s : C.

(** After a packet. *)
Definition settled s : Prop := ok True n b [] s ∨ ok True (if b then n else S n) true [] s.
Definition caught (e : exn) s : Prop := e = OutOfRange ∧ settled s.

Lemma settled_ok U' ids s : ok U' n b ids s → settled s.
Proof. intros Hs. left. eapply ok_weaken; [| |exact Hs]; [done|]. by intros i ?%elem_of_nil. Qed.
Lemma settled_after_init s : after_init U n b [src] s → settled s.
Proof.
  intros [Hs|Hs]; [by eapply settled_ok|]. right. eapply ok_weaken; [| |exact Hs]; [done|]. by intros i ?%elem_of_nil.
Qed.
Lemma caught_throws U' ids e s : throws U' True n b ids e s → caught e s.
Proof. intros (_ & -> & Hs). split; [done|]. by eapply settled_ok. Qed.
Lemma keepsI_settled {X} (m : M (BufferInputStream.t * C) X) i s : keepsI m → reader_ok i → good s →
  wp m (i, s) (λ _ p, settled p.2) (λ e p, caught e p.2) allowed.
Proof.
  intros Hm Hi Hs. eapply wp_weaken; [by apply Hm| | |done].
  - intros x p [_ Hp]. by eapply settled_ok.
  - intros e p. apply caught_throws.
Qed.

Lemma keepsI_settle {X} (m : M (BufferInputStream.t * C) X) (f : X → M (BufferInputStream.t * C) unit) i s :
  keepsI m → reader_ok i → good s →
  (∀ x i' s', reader_ok i' → good s' → wp (f x) (i', s') (λ _ p, settled p.2) (λ e p, caught e p.2) allowed) →
  wp (m ≫= f) (i, s) (λ _ p, settled p.2) (λ e p, caught e p.2) allowed.
Proof.
  intros Hm Hi Hs Hf. apply wp_bind. eapply wp_weaken; [by apply Hm| | |done].
  - intros x [i2 s2] [? ?]. by apply Hf.
  - intros e p. apply caught_throws.
Qed.

Lemma wp_dispatch cur mem len h i s :
  len ≤ zlen mem → zlen mem ≤ 4294967296 → reader_ok i → good s →
  wp (dispatch src cur mem len h) (i, s) (λ _ p, settled p.2) (λ e p, caught e p.2) allowed.
Proof.
  intros Hlen Hmem Hi Hs. unfold dispatch. destruct (type h =? PKT_INIT).
  { eapply wp_weaken; [apply (wp_handle_init A V U n b [src]); [done|set_solver|done..]| | |done].
    - intros [] p. apply settled_after_init.
    - intros e p. apply caught_throws. }
  destruct (type h =? PKT_INIT_ACK).
  { eapply wp_weaken; [apply (wp_handle_init_ack A V n b [src] Hserver U); done| | |done].
    - intros [] p. apply settled_ok.
    - intros e p. apply caught_throws. }
  apply keepsI_settled; [|done..].
  repeat match goal with |- CallSafety.keepsI _ _ _ _ _ _ _ (if ?t then _ else _) => destruct t end.
  - apply keepsI_handle_stream_data; lia.
  - apply keepsI_handle_ping; [lia|set_solver].
  - apply keepsI_handle_pong; lia.
  - apply keepsI_handle_stream_state; lia.
  - apply keepsI_handle_lan_endpoint; lia.
  - apply keepsI_handle_network_changed; lia.
  - apply keepsI_handle_stream_ec; lia.
  - apply keepsI_ret; lia.
Qed.

Lemma keeps_set_current i : i = src → keeps (set_current i).
Proof.
  intros ->. apply keeps_routes_modify. intros r Hr. apply routes_set_current; [|done].
  destruct Hr as [Hids _ _ _]. exact (proj1 (proj1 (Forall_cons _ _ _) Hids)).
Qed.
Lemma keeps_follow : keeps (follow src).
Proof. unfold follow. keeps_all. by apply keeps_set_current. Qed.
Lemma keeps_acknowledged a : keeps (acknowledged a).
Proof. unfold acknowledged. destruct a as [resume gone]. keeps_all. apply keeps_acknowledged_extras. Qed.
Lemma keeps_roam from port : keeps (roam src from port).
Proof.
  unfold roam. keeps_all. apply keeps_routes_modify. intros r. by apply routes_update_same.
Qed.
Lemma keepsI_read_extras h : keepsI (read_extras ProcessExtraData h).
Proof.
  unfold read_extras. destruct (has _ _); [|keeps_all]. apply keepsI_bind; [keeps_all|intros k].
  generalize (Z.to_nat k). clear k. intros k. induction k as [|k IH]; cbn [each_extra]; [keeps_all|].
  apply keepsI_byte; [done|]. intros len Hlen. apply keepsI_bytes; [lia|]. intros x Hw Hx.
  apply keepsI_bind; [|intros _; apply IH]. apply keepsI_self, keeps_ProcessExtraData; first [done|lia].
Qed.

Lemma wp_process_header mem len h i s :
  is_u32 (pseq h) → len ≤ zlen mem → zlen mem ≤ 4294967296 → reader_ok i → good s →
  wp (process_header src mem len h) (i, s) (λ _ p, settled p.2) (λ e p, caught e p.2) allowed.
Proof.
  intros Hseq Hlen Hmem Hi Hs. unfold process_header.
  apply keepsI_settle; [|done..|]. { apply keepsI_self, keeps_link_safe. by apply link_receive_seq. }
  clear i s Hi Hs. intros r i s Hi Hs. destruct r; try (apply wp_ret; by eapply settled_ok).
  apply keepsI_settle; [|done..|]. { apply keepsI_self, keeps_link_safe, link_receive_ack. }
  clear i s Hi Hs. intros a i s Hi Hs. apply keepsI_settle; [apply keepsI_self, keeps_acknowledged|done..|].
  clear i s Hi Hs. intros _ i s Hi Hs. apply keepsI_settle; [apply keepsI_self, keeps_follow|done..|].
  clear i s Hi Hs. intros cur i s Hi Hs. apply keepsI_settle; [apply keepsI_read_extras|done..|].
  clear i s Hi Hs. intros _ i s Hi Hs. by apply wp_dispatch.
Qed.

(** A datagram lies at the start of the receive buffer of 1500 bytes. *)
Record datagram_ok (p : NetworkPacket) : Prop := {
  do_bytes : wf_bytes (n_data p);
  do_buffer : zlen (n_data p) = 1500;
  do_length : 0 ≤ n_length p ≤ 1500;
}.

Lemma wp_ProcessIncomingPacket packet s :
  datagram_ok packet → (Wire.shortFormat (conf s) = false → A) → good s →
  wp (ProcessIncomingPacket packet src) s (λ _, settled) caught allowed.
Proof.
  intros [Hw Hbuf Hlen] HA Hs. unfold ProcessIncomingPacket. set (mem := n_data packet) in *.
  set (k := Z.to_nat (n_length packet)). assert (zlen (take k mem) = n_length packet) as Hk.
  { unfold zlen in *. rewrite length_take. lia. }
  apply wp_with_stream. rewrite <- Hk at 1. apply wp_bind, wp_on_self, wp_get, wp_bind, wp_on_self, wp_zoom.
  assert (good (s <| routes := routes s |>)) as Hs' by (by destruct s).
  apply wp_at; [|intros _; split; [done|by eapply settled_ok]]. intros e He.
  apply wp_bind, wp_on_stream. set (c := conf s) in *. clearbody c. set (s1 := s <| routes := routes s |>) in *. clearbody s1. clear Hs He.
  eapply wp_weaken with (Q' := λ o _, Wire.opened_ok (take k mem) o) (T' := λ e _, e = OutOfRange ∧ True);
    [apply wp_open_packet_ok; [done|unfold zlen in *; lia|lia|unfold zlen in *; lia|done..]| | |done].
  2:{ intros e' i' [-> _]. split; [done|]. by eapply settled_ok. }
  intros [|i|i innerLen upgrade] i0 Ho; [apply wp_ret; by eapply settled_ok| |]; destruct Ho as [Hi Hli];
    assert (reader_ok i) as Hr by (split; [done|]; rewrite (BufferInputStream.wf_mem i Hi); lia); apply wp_bind, wp_on_stream, wp_put.
  { assert (ok U n b [] s1) as H0 by (eapply ok_weaken; [| |exact Hs']; [done|by intros j ?%elem_of_nil]).
    eapply wp_weaken; [apply (keepsI_relay_reply A V U n b [] ltac:(lia) src); done| | |done].
    - intros [] p [_ Hp]. by eapply settled_ok.
    - intros e' p. apply caught_throws. }
  set (mem' := overwrite mem 0 (BufferInputStream.buffer i)). assert (zlen mem' = 1500) as Hmem'.
  { unfold mem'. rewrite zlen_overwrite; [done|]. unfold zlen in *. lia. }
  clearbody mem'. clear Hi Hli. revert i s1 Hr Hs'. intros i s1 Hi Hs1.
  apply keepsI_settle; [keeps_all|done..|]. clear i s1 Hi Hs1. intros _ i s1 Hi Hs1.
  apply keepsI_settle; [keeps_all|done..|]. clear i s1 Hi Hs1. intros now i s1 Hi Hs1.
  apply keepsI_settle; [keeps_all|done..|]. clear i s1 Hi Hs1. intros _ i s1 Hi Hs1.
  apply keepsI_settle; [keeps_all|done..|]. clear i s1 Hi Hs1. intros _ i s1 Hi Hs1.
  apply keepsI_settle; [apply keepsI_self, keeps_roam|done..|]. clear i s1 Hi Hs1. intros _ i s1 Hi Hs1.
  apply wp_bind, wp_on_stream. pose proof (reads_header c innerLen i Hi) as H1. pose proof (header_numbers c innerLen i) as H2.
  unfold wp at 1. unfold wp in H1, H2. destruct (read_header c innerLen i) as [p i'|e' i'|cr].
  - destruct p as [h| |err].
    + apply wp_process_header; [done|lia|lia|done..].
    + apply wp_ret. by eapply settled_ok.
    + apply keepsI_settled; [keeps_all|done..].
  - subst e'. split; [done|]. by eapply settled_ok.
  - destruct H1 as [-> H1]. right. left. auto.
Qed.
End packet.

(* ------------------------------------------------------------------ *)
(** ** Where a datagram comes from *)

Lemma known_endpoint ids r (f : Endpoint.t → bool) e :
  routes_ok ids r → List.find f (OMap.values (Endpoints.endpoints r)) = Some e →
  is_Some (OMap.find (Endpoint.id e) (Endpoints.endpoints r)) ∧ HistoricBuffer.wf (Endpoint.rtts e).
Proof.
  intros [_ _ _ Ha] Hf. apply find_some in Hf as [Hin _]. apply list_elem_of_In in Hin.
  unfold OMap.values in Hin. apply list_elem_of_fmap in Hin as ([k e'] & -> & Hin).
  pose proof Ha as Ha'. rewrite Forall_forall in Ha'. destruct (Ha' _ Hin) as [Hk [Hw _ _]]. cbn [fst snd] in *.
  split; [|done]. apply is_Some_find. unfold OMap.keys. rewrite <- Hk. apply list_elem_of_fmap. by exists (k, e').
Qed.

(** The source is 0 or an endpoint of the map. *)
Lemma wp_source_endpoint ids from port p r :
  routes_ok ids r →
  wp (Endpoints.source_endpoint from port p) r
    (λ i r', r' = r ∧ (i ≠ 0 → is_Some (OMap.find i (Endpoints.endpoints r)))) (λ _ _, False) (λ _, False).
Proof.
  intros Hr. unfold Endpoints.source_endpoint. apply wp_bind, wp_get. destruct from as [x|l].
  - destruct (List.find _ _) as [e|] eqn:Ef; [apply wp_ret; split; [done|intros _; by eapply known_endpoint]|].
    destruct (bool_decide _); [|by apply wp_ret].
    unfold Endpoints.GetEndpointByType, Endpoints.first_of. cbn [bool_decide].
    unfold wp, try_catch, mbind, M_bind, get. cbn [andb].
    rewrite bool_decide_eq_false_2 by done. cbn [andb].
    destruct (List.find (λ e, bool_decide (Endpoint.type e = Endpoint.UDP_P2P_INET)) _) as [e|] eqn:Ep; [|by split].
    destruct (known_endpoint _ _ _ _ Hr Ep) as [Hk Hw]. cbn [mret M_ret].
    destruct (index_is_Some (Endpoint.rtts e) 0 Hw) as [rtt ->]; [destruct Hw; lia|]. cbn [defined].
    destruct (D.eqb rtt D.zero); [|by split].
    destruct (NetworkAddress.PrefixMatches 24 (Endpoint.address e) (NetworkAddress.IPv4 x)) as [m|] eqn:Em.
    2:{ unfold NetworkAddress.PrefixMatches in Em. by destruct (Endpoint.address e). }
    cbn. destruct m; split; done.
  - apply wp_ret. split; [done|]. destruct (List.find _ _) as [e|] eqn:Ef; [|done]. intros _. by eapply known_endpoint.
Qed.

(* ------------------------------------------------------------------ *)
(** ** A call that is under way *)

(** How many outgoing streams there can be: the audio and video streams, and
    the group stream that a received [PKT_INIT] adds. *)
Definition bound (s : Controller.t) : nat := if Controller.receivedInit s then 3%nat else 2%nat.
Definition call_ok (s : Controller.t) : Prop := ok True (bound s) (Controller.receivedInit s) [] s.

Lemma call_ok_settled (b : bool) (s : Controller.t) : settled (if b then 3%nat else 2%nat) b s → call_ok s.
Proof.
  intros [Hs|Hs]; pose proof Hs as [_ _ _ _ _ _ _ Hb _]; unfold call_ok, bound; rewrite Hb; by destruct b.
Qed.

Lemma wp_try {S X} (m : M S X) (h : exn → M S X) (s : S) (Q : X → S → Prop) T D :
  wp m s Q (λ e s', wp (h e) s' Q T D) D → wp (try_catch m h) s Q T D.
Proof. unfold wp, try_catch. by destruct (m s). Qed.

(** Endpoints, links and the rest are as before when bytes are counted. *)
Lemma wp_count_received U n b ids k s :
  ok U n b ids s → wp (Controller.count_received k) s
    (λ _ s', ok U n b ids s' ∧ Controller.wire s' = Controller.wire s ∧ Controller.state s' = Controller.state s ∧
             Controller.receivedInitAck s' = Controller.receivedInitAck s ∧
             Controller.incomingStreams s' = Controller.incomingStreams s ∧
             Controller.receivedInit s' = Controller.receivedInit s ∧
             Controller.routes s' = Controller.routes s)
    (λ _ _, False) (λ _, False).
Proof. intros Hs. unfold Controller.count_received. apply wp_modify. split_and!; [by destruct Hs; constructor|by destruct s..]. Qed.

(** The acknowledgement of the peer arrived and brought no stream. *)
Definition no_streams (s : Controller.t) : Prop :=
  Controller.receivedInitAck s = true ∧ Controller.incomingStreams s = [].
(** Naming an endpoint that is there. *)
Lemma ok_source n b src s :
  is_Some (OMap.find src (Endpoints.endpoints (Controller.routes s))) →
  ok True n b [] s → ok (no_streams s) n b [src] s.
Proof.
  intros Hsrc Hs. pose proof Hs as [Hl Hc Hr Ha Ho Hi Hq Hb _].
  constructor; try done. destruct Hr as [H1 H2 H3 H4]. constructor; try done. by apply Forall_singleton.
Qed.

(** How the receive thread can go wrong: a statistic of a jitter buffer is
    converted to an integer it does not fit in; an assertion fails while the short header is not spoken; the
    start of audio when the peer acknowledged without a stream. *)
Definition receive_crash (s : Controller.t) (c : crash) : Prop :=
  c = BadCast ∨ c = AssertFailed ∧ Wire.shortFormat (Controller.conf s) = false ∨ c = UndefinedBehaviour ∧ no_streams s.

Section receive.
Context {CF : CryptoFunctions} {CL : CryptoLaws} {CK : Clock} {RD : Random} {SC : ServerConfig} {HO : Host}.
Lemma wp_receive packet s : server_ok → datagram_ok packet → call_ok s →
  wp (Incoming.receive packet) s (λ _ s', call_ok s') (λ _ _, False) (receive_crash s).
Proof.
  intros Hserver Hp Hs. unfold Incoming.receive.
  destruct (Incoming.n_length packet =? 0); [by apply wp_ret|].
  apply wp_bind, wp_zoom. eapply wp_weaken; [apply (wp_source_endpoint []); by destruct Hs| |done|done].
  intros src r [-> Hsrc]. destruct (Z.eqb_spec src 0) as [->|Hne]; [apply wp_ret; by destruct s|].
  specialize (Hsrc Hne). apply wp_bind.
  assert (s <| Controller.routes := Controller.routes s |> = s) as -> by by destruct s.
  eapply wp_weaken; [by apply (wp_count_received True (bound s) (Controller.receivedInit s) [])| |done|done].
  intros [] s1 (Hok & Hw & Hst & Ha & Hi & Hri & Hro).
  assert (Wire.shortFormat (Controller.conf s1) = Wire.shortFormat (Controller.conf s)) as Hsf
    by (unfold Controller.conf; by rewrite Hw, Hst).
  unfold receive_crash, no_streams. rewrite <- Hsf, <- Ha, <- Hi. apply wp_try.
  eapply wp_weaken; [apply (wp_ProcessIncomingPacket (Wire.shortFormat (Controller.conf s1) = false) (no_streams s1) (no_streams s1)
    (if Controller.receivedInit s then 3%nat else 2%nat) (Controller.receivedInit s) src); try done| | |].
  - destruct (Controller.receivedInit s); lia.
  - apply ok_source; [by rewrite Hro|exact Hok].
  - intros [] s2 Hs2. by eapply call_ok_settled.
  - intros e s2 [_ Hs2]. apply wp_ret. by eapply call_ok_settled.
  - intros c [->|[[-> HA]|[-> HV]]]; [by left|right; by left|right; by right].
Qed.
End receive.


(** A call with one relay, in the middle of its handshake. *)
Section example.
#[local] Instance example_random : Random := λ _ n, replicate n 7.
#[local] Instance example_server : ServerConfig := {
  GetInt _ d := d; GetDouble _ d := d; GetBoolean _ d := d;
}.
#[local] Instance example_host : Host := {
  localPort := 1024; localAddress := 0; videoEncoders := []; poolAddress := 4096; garbageTimestamp := 0; garbageKeyframe := false;
}.
#[local] Instance example_platform : Platform := {
  inputInitialized := true; outputInitialized := true; socketFailed := false; socketReady := true;
  uninitializedBytes n := replicate n 0; uninitializedInt := 0; uninitializedDouble := D.zero; uninitializedBool := false;
  uninitializedError := Packet.ERROR_UNKNOWN;
}.
#[local] Existing Instance Wire.toy_crypto.
#[local] Existing Instance Wire.toy_laws.
#[local] Existing Instance stopped.

Definition example_relay : Endpoint.t :=
  Endpoint.ctor 5 500 (NetworkAddress.IPv4 16909060) Endpoint.noIPv6 Endpoint.UDP_RELAY (replicate 16 3).
Definition example_call : Controller.t :=
  Setup.create <| Controller.routes := Endpoints.initial <| Endpoints.endpoints := [(5, example_relay)] |>
                                        <| Endpoints.currentEndpoint := 5 |> <| Endpoints.preferredRelay := 5 |> |>
    <| Controller.wire ::= Wire.SetEncryptionKey (replicate 256 7) true |>
    <| Controller.audio := Controller.mkaudio (Some Setup.new_encoder) true true true true true false |>
    <| Controller.state := Controller.STATE_WAIT_INIT_ACK |>.
Definition example_datagram : Incoming.NetworkPacket :=
  Incoming.mkpacket (replicate 1500 3) 120 (NetworkAddress.IPv4 16909060) 500 Endpoints.PROTO_UDP.
Lemma example_call_ok : call_ok example_call.
Proof.
  constructor; [|reflexivity| | |change (1 ≤ 1 ≤ 2)%nat; lia|by apply Forall_nil|by apply Forall_nil|reflexivity|done].
  - constructor; cbn; [done|by apply Forall_nil|by apply Forall_nil|split; lia|by apply Forall_nil|by apply NoDup_nil_2| |].
    + split; [by apply ctor_HistoricBuffer_wf; lia|done].
    + eexists _, _. apply congestion_ctor_inv.
  - constructor; cbn; [by apply Forall_nil|by eexists|split; [by eexists|done]|].
    apply Forall_singleton. split; [done|]. constructor; [by apply ctor_HistoricBuffer_wf; lia|done| |done].
    intros H. exfalso. revert H. change (5 ∉ lan_ids). by apply (bool_decide_unpack (5 ∉ lan_ids)).
  - constructor; [by eexists|done].
Qed.
Lemma example_server_ok : server_ok.
Proof. by intros k d ?. Qed.
End example.
