(* ===== verification/SetupSafety.v ===== *)
(** * Setting up is safe

    The calls the gateway makes on a new controller ([Setup.set_up]) leave a
    call that receiving keeps well formed ([call_ok] of [ReceiveSafety]). *)

From Stdlib Require Import ZArith Lia SpecFloat List.
From stdpp Require Import base tactics list numbers option gmap strings.
From S2P Require Import Prelude Words Double History Memory Buffers Streams Seq Congestion Link Net Wire Packet.
From S2P Require Import Jitter Reassembler Endpoints Controller Incoming Setup CallSafety ReceiveSafety.
From stdpp Require Import list.
Open Scope Z_scope.

(* ================================================================== *)
(** ** Endpoints of a new call *)

(** A relay as the program lists it: new, with a number that is not 0 and
    not confused with the endpoint of the local network. *)
Record remote_ok (e : Endpoint.t) : Prop := {
  rm_id : Endpoint.id e ≠ 0;
  rm_range : is_s64 (Endpoint.id e);
  rm_lan : Endpoint.id e ∉ lan_ids;
  rm_socket : Endpoint.socket e = None;
  rm_rtts : HistoricBuffer.wf (Endpoint.rtts e);
}.
Lemma remote_ctor `{ServerConfig} i p a a6 ty tag : i ≠ 0 → is_s64 i → i ∉ lan_ids → remote_ok (Endpoint.ctor i p a a6 ty tag).
Proof. intros Hi Hr Hl. by constructor. Qed.
Lemma remote_endpoint_ok socks e : remote_ok e → endpoint_ok socks e.
Proof. intros [Hi Hr Hl Hs Hw]. constructor; [done|by rewrite Hs|done..]. Qed.

Section routes.
Import Endpoints.
Implicit Types r : Endpoints.t.

(** The map is well formed; the current endpoint, once there is one, is in
    it. *)
Definition listed r : Prop :=
  Forall (λ p, p.1 = Endpoint.id p.2 ∧ endpoint_ok (sockets r) p.2) (endpoints r) ∧
  (currentEndpoint r ≠ 0 → is_Some (OMap.find (currentEndpoint r) (endpoints r)) ∧ currentEndpoint r ≠ lanID) ∧
  NetworkAddress.IsEmpty (myIPv6 r) = true.

Lemma listed_set e r : remote_ok e → listed r → listed (r <| endpoints ::= OMap.insert (Endpoint.id e) e |>).
Proof.
  intros He (Ha & Hc & Hm). split_and!; [|intros Hne|done].
  - apply CallSafety.Forall_insert; [done|]. split; [done|by apply remote_endpoint_ok].
  - destruct (Hc Hne). split; [by apply find_insert_Some|done].
Qed.

Lemma wp_add_remote l r : Forall remote_ok l → listed r → (l = [] → currentEndpoint r ≠ 0) →
  wp (add_remote l) r (λ _ r', listed r' ∧ currentEndpoint r' ≠ 0) (λ _ _, False) (λ _, False).
Proof.
  intros Hl. revert r. induction Hl as [|e l He Hl IH]; intros r Hr Hne; [apply wp_ret; auto|].
  cbn [add_remote]. apply wp_bind, wp_modify, wp_bind, wp_modify.
  set (r1 := r <| endpoints ::= OMap.insert (Endpoint.id e) e |>).
  assert (listed r1) as Hr1 by by apply listed_set.
  set (r2 := if currentEndpoint r1 =? 0 then _ else r1).
  assert (listed r2 ∧ currentEndpoint r2 ≠ 0) as [Hr2 Hc2].
  { subst r2. destruct (Z.eqb_spec (currentEndpoint r1) 0) as [E|]; [|done]. destruct Hr1 as (Ha & _ & Hm).
    split; [|apply He]. split_and!; [done|intros _|done]. cbn. split; [rewrite find_insert_eq; by eexists|].
    intros El. apply (rm_lan e He). rewrite El. apply lanID_elem. }
  clearbody r2. clear Hr Hne r Hr1 r1. assert (∀ g : bool, listed (if g then r2 <| didAddTcpRelays := true |> else r2) ∧
    listed (if g then r2 <| useTCP := false |> else r2)) as Hg by (intros []; split; exact Hr2).
  apply wp_bind. case_bool_decide; [apply wp_modify|apply wp_ret]; apply wp_bind; (case_bool_decide; [apply wp_modify|apply wp_ret]);
    apply IH; done.
Qed.

Lemma wp_SetRemoteEndpoints l p2p r :
  l ≠ [] → Forall remote_ok l → endpoints r = [] → currentEndpoint r = 0 → NetworkAddress.IsEmpty (myIPv6 r) = true →
  wp (SetRemoteEndpoints l p2p) r (λ _ r', routes_ok [] r') (λ _ _, False) (λ _, False).
Proof.
  intros Hne Hl He Hc Hm. unfold SetRemoteEndpoints. apply wp_bind, wp_modify, wp_bind, wp_get.
  change (endpoints (r <| preferredRelay := 0 |>)) with (endpoints r). rewrite He. apply wp_bind, wp_ret, wp_bind, wp_modify, wp_bind.
  eapply wp_mono; [apply wp_add_remote; [done| |done]|].
  - split_and!; [by apply Forall_nil|by intros ?|done].
  - intros [] r' [(Ha & Hc' & Hm') Hcur]. destruct (Hc' Hcur) as [Hf Hlan].
    apply wp_bind, wp_modify. unfold AddIPv6Relays. apply wp_bind, wp_get.
    change (myIPv6 (r' <| preferredRelay := currentEndpoint r' |> <| allowP2p := p2p |>)) with (myIPv6 r').
    rewrite Hm'. apply wp_ret. by constructor.
Qed.
End routes.

(* ------------------------------------------------------------------ *)
(** ** What sending leaves alone *)

Section same_state.
Context {CF : CryptoFunctions} {CK : Clock} {RD : Random}.
Import Controller.

(** A part of the state is as it was. *)
Definition same {S X} (f : S → X) (s s' : S) : Prop := f s' = f s.
#[export] Instance same_preorder {S X} (f : S → X) : PreOrder (same f).
Proof. split; [by intros ?|]. unfold same. intros x y z. congruence. Qed.
#[local] Abbreviation same_state := (same state).

Lemma along_gets {S X} (R : S → S → Prop) `{!PreOrder R} (f : S → X) : along R (gets f).
Proof. intros s. by apply wp_gets. Qed.
Lemma along_routes {X} (m : M Endpoints.t X) : along same_state (on_routes m).
Proof. by apply along_zoom. Qed.
Lemma along_link {X} (m : M Link.t X) : along same_state (on_link m).
Proof. by apply along_zoom. Qed.
Lemma along_ActuallySendPacket e d : along same_state (ActuallySendPacket e d).
Proof. unfold ActuallySendPacket, count_sent, emit. repeat first [along_step | apply along_routes | done]. Qed.
Lemma along_SendPacket e d : along same_state (SendPacket e d).
Proof.
  unfold SendPacket, rand_bytes. repeat first [along_step | apply along_gets; exact _ | apply along_ActuallySendPacket | done].
Qed.
Lemma along_SendOrEnqueuePacket pkt b : along same_state (SendOrEnqueuePacket pkt b).
Proof.
  unfold SendOrEnqueuePacket, connect_socket, emit, rand_bytes.
  repeat first [along_step | apply along_routes | apply along_link | apply along_gets; exact _ | apply along_SendPacket | done].
Qed.
End same_state.

(* ------------------------------------------------------------------ *)
(** ** [PKT_INIT] *)

(** What a run that ends well does, and what every run does. *)
Lemma wp_also {S X} (m : M S X) s (Q Q' : X → S → Prop) T D :
  wp m s Q T D → wp m s Q' (λ _ _, True) (λ _, True) → wp m s (λ x s', Q x s' ∧ Q' x s') T D.
Proof. unfold wp. by destruct (m s). Qed.
Lemma wp_same {S X Y} (f : S → Y) (m : M S X) s : along (same f) m → wp m s (λ _ s', f s' = f s) (λ _ _, True) (λ _, True).
Proof. intros Ha. specialize (Ha s). unfold wp in *. by destruct (m s). Qed.

Section sending.
Context {CF : CryptoFunctions} {CL : CryptoLaws} {CK : Clock} {RD : Random} {SC : ServerConfig} {HO : Host}.
Import Packet Controller Setup.
#[local] Abbreviation C := Controller.t.
Context (A V U W : Prop) (n : nat) (b : bool).
Hypothesis (Hn : (n ≤ 100)%nat).
Implicit Types s : C.

Lemma writes_body s : writes 64 (init_body s).
Proof.
  unfold init_body. apply (writes_bind 4 (4 + (4 + 52))); [lia|apply writes_Int32|].
  apply writes_bind; [lia|apply writes_Int32|]. apply writes_bind; [lia|apply writes_Int32|].
  unfold codecs. destruct (_ <? 74).
  - apply writes_le with (1 + (1 + (1 + (1 + (1 + (4 + (1 + 1))))))); [lia|].
    repeat (apply writes_bind; [lia|first [apply writes_Byte|apply writes_Int32]|]). apply writes_Byte.
  - assert ((if enableVideoReceive (config s) then GetAvailableDecoders else []) = []) as -> by by destruct (enableVideoReceive _).
    apply writes_le with (1 + (4 + (1 + (0 + 1)))); [lia|].
    repeat (apply writes_bind; [lia|first [apply writes_Byte|apply writes_Int32|by apply writes_ret]|]). apply writes_Byte.
Qed.


(** A loop over the endpoints that are in the map when it starts. *)
Lemma keeps_over_keys ids {X} (f : C → M C X) :
  (∀ s ids', ok U n b ids' s → Forall (λ k, k ∈ ids') (OMap.keys (Endpoints.endpoints (routes s))) →
     (∀ i, i ∈ ids → i ∈ ids') → keeps A V U W n b ids' (f s)) →
  keeps A V U W n b ids (get ≫= f).
Proof.
  intros Hf s Hs. apply wp_bind, wp_get. set (ids' := ids ++ OMap.keys (Endpoints.endpoints (routes s))).
  assert (ok U n b ids' s) as Hs'.
  { destruct Hs as [H1 H2 [G1 G2 G3 G4] H4 H5 H6 H7 H8 H9]. constructor; try done. constructor; try done.
    apply Forall_app_2; [done|]. apply Forall_forall. intros k Hk. by apply is_Some_find. }
  assert (∀ s', ok U n b ids' s' → ok U n b ids s') as Hw.
  { intros s' H'. apply (ok_weaken U U n b ids' ids); [done|intros i Hi; apply elem_of_app; by left|done]. }
  eapply wp_weaken; [apply (Hf s ids' Hs'), Hs'| | |done].
  - apply Forall_forall. intros k Hk. apply elem_of_app. by right.
  - intros i Hi. apply elem_of_app. by left.
  - intros x s'. apply Hw.
  - intros e s' (HW & He & H'). split_and!; [done..|by apply Hw].
Qed.
Lemma keeps_get_bind ids {X} (f : C → M C X) : (∀ s, ok U n b ids s → keeps A V U W n b ids (f s)) → keeps A V U W n b ids (get ≫= f).
Proof. intros Hf s Hs. apply wp_bind, wp_get. by apply Hf. Qed.
Lemma keeps_defined ids {X Y} (o : option X) (f : X → M C Y) :
  is_Some o → (∀ x, o = Some x → keeps A V U W n b ids (f x)) → keeps A V U W n b ids (defined o ≫= f).
Proof. intros [x Hx] Hf s Hs. apply wp_bind. eapply wp_defined; [exact Hx|]. by apply Hf. Qed.
Lemma keeps_writes ids k N m {X} (f : bytes → M C X) :
  0 ≤ k ≤ 65536 → 0 ≤ N ≤ 1048576 → writes N m → (∀ d, zlen d ≤ N → keeps A V U W n b ids (f d)) →
  keeps A V U W n b ids (built (BufferOutputStream.ctor k) m ≫= f).
Proof. intros Hk HN Hm Hf s Hs. apply wp_bind. eapply wp_built; [done..|]. intros d Hd. by apply Hf. Qed.
(** An endpoint that is known to exist. *)
Lemma ok_known ids k s : k ∈ ids → ok U n b ids s → is_Some (OMap.find k (Endpoints.endpoints (routes s))).
Proof. intros Hk [_ _ [Hids _ _ _] _ _ _ _ _ _]. by eapply Forall_forall in Hids. Qed.
Lemma ok_endpoint ids k e s : ok U n b ids s → OMap.find k (Endpoints.endpoints (routes s)) = Some e →
  Endpoint.id e = k ∧ endpoint_ok (Endpoints.sockets (routes s)) e.
Proof. intros Hs. apply (endpoint_ok_find ids), Hs. Qed.
Lemma keeps_SendOrEnqueuePacket ids pkt enq :
  zlen (Link.p_data pkt) ≤ 1048576 → Link.p_endpoint pkt = 0 ∨ Link.p_endpoint pkt ∈ ids →
  keeps A V U W n b ids (SendOrEnqueuePacket pkt enq).
Proof.
  intros Hd Hp s Hs. apply wp_SendOrEnqueuePacket; [done..|].
  destruct (Z.eqb_spec (Link.p_endpoint pkt) 0); [apply Hs|]. destruct Hp; [done|]. by eapply ok_known.
Qed.

Lemma keeps_send_inits ids sq ks : Forall (λ k, k ∈ ids) ks → keeps A V U W n b ids (send_inits sq ks).
Proof.
  induction 1 as [|k ks Hk Hks IH]; cbn [send_inits]; [by apply keeps_ret|].
  apply keeps_get_bind. intros s Hs. apply keeps_defined; [by eapply ok_known|]. intros e He.
  destruct (ok_endpoint ids k e s Hs He) as [Hid _]. apply keeps_bind; [|intros _; exact IH].
  destruct (_ && _); [apply keeps_ret|].
  apply (keeps_writes ids 1024 64); [lia..|apply writes_body|intros d Hd].
  apply keeps_bind; [|intros ?; apply keeps_ret]. apply keeps_SendOrEnqueuePacket; [cbn; lia|]. right. by rewrite Hid.
Qed.
Lemma keeps_SendInit ids : keeps A V U W n b ids SendInit.
Proof.
  unfold SendInit. apply keeps_bind; [apply keeps_GenerateOutSeq|intros sq]. apply keeps_over_keys. intros s0 ids' _ Hks _.
  apply keeps_bind; [by apply keeps_send_inits|intros _]. keep. apply keeps_SetState.
Qed.

Lemma same_send_inits sq ks : along (same state) (send_inits sq ks).
Proof.
  induction ks as [|k ks IH]; cbn [send_inits]; [by apply along_ret; exact _|].
  unfold built. repeat first [along_step | exact IH | apply along_SendOrEnqueuePacket].
  intros s. unfold wp, with_stream, on_stream, gets, mbind, M_bind, map_state. by destruct (init_body _ _).
Qed.
Lemma wp_SetState_state st s : st ≠ STATE_ESTABLISHED →
  wp (SetState st) s (λ _ s', state s' = st) (λ _ _, True) (λ _, True).
Proof.
  intros Hst. unfold SetState, enter_state. rewrite bool_decide_eq_false_2 by done.
  apply wp_bind, wp_bind, wp_modify. eapply wp_mono; [apply (wp_same state)|].
  - unfold GetCurrentTime, post, Post. repeat first [along_step | by apply along_zoom | apply along_gets; exact _ | done].
  - intros [] s' E. by apply wp_ret.
Qed.
(** The state after [SendInit]. *)
Lemma wp_SendInit_state s :
  wp SendInit s (λ _ s', state s' = if bool_decide (state s = STATE_WAIT_INIT) then STATE_WAIT_INIT_ACK else state s)
    (λ _ _, True) (λ _, True).
Proof.
  unfold SendInit. apply wp_bind. eapply wp_mono; [apply (wp_same state), along_link|]. intros sq s1 E1.
  apply wp_bind, wp_get, wp_bind. eapply wp_mono; [apply (wp_same state), same_send_inits|]. intros [] s2 E2.
  apply wp_bind, wp_get, wp_bind. rewrite E2, E1.
  case_bool_decide; [eapply wp_mono; [by apply wp_SetState_state|]|apply wp_ret].
  - intros [] s3 E3. apply wp_modify. exact E3.
  - apply wp_modify. cbn. by rewrite E2, E1.
Qed.
End sending.

(* ------------------------------------------------------------------ *)
(** ** A call that was set up *)

Section safety.
Context {CF : CryptoFunctions} {CL : CryptoLaws} {CK : Clock} {RD : Random} {SC : ServerConfig} {HO : Host} {PF : Platform}.
Import Packet Controller Setup.
#[local] Abbreviation C := Controller.t.
#[local] Abbreviation none := (λ _ _, False).
#[local] Abbreviation never := (λ _, False).
Implicit Types s : C.

Lemma link_ctor g w : link_ok (Link.ctor g w).
Proof.
  constructor; cbn; [done|by apply Forall_nil|by apply Forall_nil|split; lia|by apply Forall_nil|by apply NoDup_nil_2| |].
  - split; [by apply ctor_HistoricBuffer_wf; lia|done].
  - eexists _, _. apply congestion_ctor_inv.
Qed.

(** Before the audio objects exist. *)
Record fresh (st : State) s : Prop := {
  fr_link : link_ok (link s);
  fr_state : state s = st;
  fr_audio : audio s = mkaudio None false false false inputInitialized outputInitialized false;
  fr_out : outgoingStreams s = [audio_stream];
  fr_in : incomingStreams s = [];
  fr_queue : sendQueue s = [];
  fr_init : receivedInit s = false;
  fr_ack : receivedInitAck s = false;
}.
Lemma fresh_create : fresh STATE_WAIT_INIT create.
Proof. constructor; try done. apply link_ctor. Qed.
(** The key and the endpoints that are set. *)
Definition ready s : Prop := zlen (Wire.callID (wire s)) = 16 ∧ routes_ok [] (routes s).

Lemma wp_SetConfig cfg st s : fresh st s →
  wp (SetConfig cfg) s (λ _ s', fresh st s' ∧ routes s' = routes s) none never.
Proof.
  intros [H1 H2 H3 H4 H5 H6 H7 H8]. unfold SetConfig. apply wp_bind, wp_modify, wp_bind, wp_modify.
  unfold UpdateAudioBitrateLimit. apply wp_bind, wp_get.
  match goal with |- wp (match encoder (audio ?x) with _ => _ end) _ _ _ _ => change (audio x) with (audio s) end.
  rewrite H3. apply wp_ret. split; [|done]. by constructor.
Qed.
Lemma wp_SetEncryptionKey k out st s : fresh st s →
  wp (SetEncryptionKey k out) s (λ _ s', fresh st s' ∧ routes s' = routes s ∧ zlen (Wire.callID (wire s')) = 16) none never.
Proof.
  intros []. apply wp_modify. split_and!; [by constructor|done|]. cbn. unfold zlen.
  by rewrite length_drop, sha256_length.
Qed.
Lemma wp_Remote l p2p ml st s : l ≠ [] → Forall remote_ok l → routes s = Endpoints.initial → zlen (Wire.callID (wire s)) = 16 →
  fresh st s → wp (SetRemoteEndpoints l p2p ml) s (λ _ s', fresh st s' ∧ ready s') none never.
Proof.
  intros Hne Hl Hr Hc []. unfold SetRemoteEndpoints. apply wp_bind, wp_zoom. rewrite Hr.
  eapply wp_weaken; [by apply wp_SetRemoteEndpoints| |done|done]. intros [] r Hok. apply wp_modify.
  split; [by constructor|by split].
Qed.

Lemma fresh_time st s l : link_ok l → fresh st s → ready s → fresh st (s <| link := l |>) ∧ ready (s <| link := l |>).
Proof. intros Hl [] []. split; [by constructor|by split]. Qed.
Lemma wp_time st s (Q : double → C → Prop) T D : fresh st s → ready s → (∀ x s', fresh st s' → ready s' → Q x s') →
  wp GetCurrentTime s Q T D.
Proof.
  intros Hf Hr HQ. unfold GetCurrentTime. apply wp_zoom.
  assert (link_ok (link s)) as Hl by apply Hf. eapply wp_weaken; [by apply link_GetCurrentTime| |done|done].
  intros x l Hl'. destruct (fresh_time st s l); auto.
Qed.

Lemma wp_Start s : fresh STATE_WAIT_INIT s → ready s →
  wp Start s (λ b s', b = negb socketFailed ∧ fresh (if socketFailed then STATE_FAILED else STATE_WAIT_INIT) s' ∧ ready s') none never.
Proof.
  intros Hf Hr. unfold Start. destruct socketFailed; [|by apply wp_ret]. apply wp_bind. unfold SetState, enter_state.
  apply wp_bind, wp_bind, wp_modify, wp_bind. eapply (wp_time STATE_FAILED).
  - destruct Hf. by constructor.
  - exact Hr.
  - intros x s' Hf' Hr'. apply wp_bind, wp_modify. destruct Hf'. split; [done|]. split; [by constructor|exact Hr'].
Qed.
Lemma wp_receive_thread_starts st s : fresh st s → ready s →
  wp receive_thread_starts s (λ _ s', fresh st s' ∧ ready s') none never.
Proof. intros Hf Hr. split; [destruct Hf; by constructor|exact Hr]. Qed.

#[local] Abbreviation good := (ok True 2 false []).
#[local] Abbreviation cast := (λ c, c = BadCast).

Lemma wp_keeps {X} (m : M C X) s : keeps False False True False 2 false [] m → good s → wp m s (λ _, good) none cast.
Proof.
  intros Hm Hs. eapply wp_weaken; [by apply Hm|done|by intros e s' [[] _]|]. by intros c [->|[[_ []]|[_ []]]].
Qed.

(** From the audio objects on, the state is one of [call_ok]. *)
Lemma fresh_ok st s a : fresh st s → ready s → audio_ok a → good (s <| audio := a |>).
Proof.
  intros [H1 _ _ Ho Hi Hq Hr Ha] [Hc Hro] Hau. constructor; try done; cbn.
  - rewrite Ho. simpl. lia.
  - by rewrite Hi.
  - by rewrite Hq.
Qed.

Definition state_after (st : State) : State := if negb outputInitialized then STATE_FAILED else st.
Lemma wp_InitializeAudio st s : fresh st s → ready s →
  wp InitializeAudio s (λ _ s', good s' ∧ state s' = state_after st) none cast.
Proof.
  intros Hf Hr. unfold InitializeAudio, state_after. apply wp_bind. apply (wp_time st); [done..|]. clear s Hf Hr. intros _ s Hf Hr.
  apply wp_bind, wp_modify. set (s1 := s <| audio ::= _ |>).
  set (a := mkaudio (Some new_encoder) true true true inputInitialized outputInitialized false).
  assert (s1 = s <| audio := a |>) as -> by (destruct s; pose proof (fr_audio st _ Hf) as Ea; cbn in Ea; subst s1; cbn; by rewrite Ea).
  assert (good (s <| audio := a |>)) as Hg by (apply (fresh_ok st); [done..|by constructor; [by eexists|]]).
  apply wp_bind, wp_get. change (output_ok (audio (s <| audio := a |>))) with outputInitialized.
  apply wp_also.
  - apply wp_keeps; [|exact Hg]. destruct (negb _); [apply keeps_fail|]. keep. apply keeps_UpdateAudioBitrateLimit.
  - destruct outputInitialized; cbn [negb].
    + eapply wp_mono; [apply (wp_same state)|intros ? s' E; rewrite E; apply Hf].
      unfold UpdateAudioBitrateLimit, emit, GetCurrentTime. repeat first [along_step | by apply along_zoom | done].
    + unfold fail. apply wp_bind, wp_modify. by apply wp_SetState_state.
Qed.

Lemma wp_RunSendThread st s : fresh st s → ready s →
  wp RunSendThread s (λ _ s', good s' ∧
    state s' = if bool_decide (state_after st = STATE_WAIT_INIT) then STATE_WAIT_INIT_ACK else state_after st) none cast.
Proof.
  intros Hf Hr. unfold RunSendThread. apply wp_bind. eapply wp_mono; [by apply (wp_InitializeAudio st)|].
  clear s Hf Hr. intros [] s [Hg <-]. apply wp_also.
  - apply wp_keeps, Hg. unfold InitializeTimers. keep. apply keeps_SendInit; lia.
  - apply wp_bind. eapply wp_mono; [apply (wp_same state)|intros [] s' <-; apply wp_SendInit_state].
    unfold InitializeTimers, post, Post. repeat first [along_step | apply along_gets; exact _ | done].
Qed.

Lemma wp_Connect st s : fresh st s → ready s → st = STATE_WAIT_INIT ∨ st = STATE_FAILED →
  wp Connect s (λ _ s', good s' ∧
    state s' = if bool_decide (state_after st = STATE_WAIT_INIT) then STATE_WAIT_INIT_ACK else state_after st) none cast.
Proof.
  intros Hf Hr Hst. unfold Connect. apply wp_bind, wp_get, wp_bind. rewrite (fr_state st s Hf).
  rewrite bool_decide_eq_false_2 by (by destruct Hst as [-> | ->]). apply wp_bind. apply (wp_time st); [done..|].
  clear s Hf Hr. intros _ s Hf Hr. apply wp_bind, wp_get, wp_bind.
  destruct (D.eqb _ _).
  - apply wp_modify, wp_RunSendThread; [destruct Hf; by constructor|exact Hr].
  - by apply wp_ret, wp_RunSendThread.
Qed.

(** No acknowledgement arrived yet. *)
Lemma along_ack_SendOrEnqueuePacket pkt b : along (same receivedInitAck) (SendOrEnqueuePacket pkt b).
Proof.
  assert (∀ X (m : M Endpoints.t X), along (same receivedInitAck) (on_routes m)) as Hr by (intros; by apply along_zoom).
  assert (∀ X (m : M Link.t X), along (same receivedInitAck) (on_link m)) as Hl by (intros; by apply along_zoom).
  unfold SendOrEnqueuePacket, connect_socket, emit, rand_bytes, SendPacket, rand_bytes, ActuallySendPacket, count_sent, emit.
  repeat first [along_step | apply Hr | apply Hl | apply along_gets; exact _ | done].
Qed.
Lemma along_ack_set_up cfg key out l p2p ml : along (same receivedInitAck) (set_up cfg key out l p2p ml).
Proof.
  assert (∀ X (m : M Endpoints.t X), along (same receivedInitAck) (on_routes m)) as Hr by (intros; by apply along_zoom).
  assert (∀ X (m : M Link.t X), along (same receivedInitAck) (on_link m)) as Hl by (intros; by apply along_zoom).
  assert (∀ sq ks, along (same receivedInitAck) (send_inits sq ks)) as Hi.
  { intros sq ks. induction ks as [|k ks IH]; cbn [send_inits]; [by apply along_ret; exact _|].
    unfold built. repeat first [along_step | exact IH | apply along_ack_SendOrEnqueuePacket].
    intros s. unfold wp, with_stream, on_stream, gets, mbind, M_bind, map_state. by destruct (init_body _ _). }
  assert (along (same receivedInitAck) (SetState STATE_FAILED)) as Hs.
  { unfold SetState, enter_state, GetCurrentTime, post, Post. rewrite bool_decide_eq_false_2 by done.
    repeat first [along_step | apply Hl | apply along_gets; exact _ | done]. }
  assert (along (same receivedInitAck) (SetState STATE_WAIT_INIT_ACK)) as Ha.
  { unfold SetState, enter_state, GetCurrentTime, post, Post. rewrite bool_decide_eq_false_2 by done.
    repeat first [along_step | apply Hl | apply along_gets; exact _ | done]. }
  assert (along (same receivedInitAck) UpdateAudioBitrateLimit) as Hu by (unfold UpdateAudioBitrateLimit, emit; by repeat along_step).
  unfold set_up, SetConfig, UpdateDataSavingState, SetEncryptionKey, SetRemoteEndpoints, Start, receive_thread_starts, Connect,
    RunSendThread, InitializeAudio, InitializeTimers, SendInit, GetCurrentTime, post, Post, on_audio, fail.
  repeat first [along_step | apply Hr | apply Hl | apply Hi | apply Hs | apply Ha | apply Hu | apply along_gets; exact _ | done].
  intros s. unfold wp, assert_. by destruct (negb _).
Qed.
Lemma wp_set_up cfg key out l p2p ml :
  l ≠ [] → Forall remote_ok l →
  wp (Setup.set_up cfg key out l p2p ml) Setup.create
    (λ b s, b = negb socketFailed ∧ call_ok s ∧ Controller.receivedInitAck s = false ∧
       Controller.state s = if socketFailed || negb outputInitialized then Controller.STATE_FAILED else Controller.STATE_WAIT_INIT_ACK)
    (λ _ _, False) (λ c, c = BadCast).
Proof.
  intros Hne Hl. pose proof (along_ack_set_up cfg key out l p2p ml Setup.create) as Hack.
  cut (wp (Setup.set_up cfg key out l p2p ml) Setup.create
    (λ b s, b = negb socketFailed ∧ ok True 2 false [] s ∧
       Controller.state s = if socketFailed || negb outputInitialized then Controller.STATE_FAILED else Controller.STATE_WAIT_INIT_ACK)
    (λ _ _, False) (λ c, c = BadCast)).
  { unfold wp in *. destruct (Setup.set_up _ _ _ _ _ _ _) as [b s| |]; [|done..]. intros (-> & Hs & E).
    split_and!; [done| |exact Hack|done]. unfold call_ok, bound. by rewrite (po_init _ _ _ _ _ _ _ _ _ _ _ _ _ Hs). }
  clear Hack. unfold Setup.set_up. apply wp_bind. eapply wp_weaken; [apply wp_SetConfig, fresh_create| |done|done].
  intros [] s [Hf Hr]. apply wp_bind. eapply wp_weaken; [by apply wp_SetEncryptionKey| |done|done].
  intros [] s1 (Hf1 & Hr1 & Hc1). apply wp_bind. eapply wp_weaken; [apply wp_Remote; [done..| |done|done]; by rewrite Hr1, Hr| |done|done].
  intros [] s2 [Hf2 Hr2]. apply wp_bind. eapply wp_weaken; [by apply wp_Start| |done|done].
  intros b s3 (-> & Hf3 & Hr3). apply wp_bind.
  apply wp_mono with (Q' := λ _ s', fresh (if socketFailed then Controller.STATE_FAILED else Controller.STATE_WAIT_INIT) s' ∧ ready s').
  { destruct socketFailed; cbn [negb]; [by apply wp_ret|].
    eapply wp_weaken; [by apply wp_receive_thread_starts|done..]. }
  intros [] s4 [Hf4 Hr4]. apply wp_bind. eapply wp_mono; [by apply (wp_Connect _ _ Hf4 Hr4); destruct socketFailed; auto|].
  intros [] s5 [Hs5 E5]. apply wp_ret. split_and!; [done|done|]. rewrite E5. unfold state_after.
  by destruct socketFailed, outputInitialized.
Qed.
End safety.

(** A call that the gateway sets up: with at least one relay, the numbers of
    the relays not 0 and not those reserved for the endpoint in the local
    network, the calls it makes on a new controller return, throw nothing
    and leave a well-formed call that nobody answered yet; it waits for the
    answer, or has failed when the socket or the output device failed. *)
Theorem set_up_call_ok `{CryptoFunctions, !CryptoLaws, Clock, Random, ServerConfig, Host, Platform} cfg key out l p2p ml :
  l ≠ [] → Forall remote_ok l →
  wp (Setup.set_up cfg key out l p2p ml) Setup.create
    (λ b s, b = negb socketFailed ∧ call_ok s ∧ Controller.receivedInitAck s = false ∧
       Controller.state s = if socketFailed || negb outputInitialized then Controller.STATE_FAILED else Controller.STATE_WAIT_INIT_ACK)
    (λ _ _, False) (λ c, c = BadCast).
Proof. apply wp_set_up. Qed.

Section example.
#[local] Existing Instances example_random example_server example_host example_platform stopped Wire.toy_crypto Wire.toy_laws.

Lemma set_up_call_ok_witness :
  [example_relay] ≠ [] ∧ Forall remote_ok [example_relay] ∧
  wp (Setup.set_up Setup.default_config (replicate 256 7) true [example_relay] false 92) Setup.create
    (λ b s, b = negb socketFailed ∧ call_ok s ∧ Controller.receivedInitAck s = false ∧
       Controller.state s = if socketFailed || negb outputInitialized then Controller.STATE_FAILED else Controller.STATE_WAIT_INIT_ACK)
    (λ _ _, False) (λ c, c = BadCast).
Proof.
  assert (Forall remote_ok [example_relay]) as Hr.
  { apply Forall_singleton, remote_ctor; [done|done|]. by apply (bool_decide_unpack (5 ∉ lan_ids)). }
  split; [done|]. split; [done|]. by apply set_up_call_ok.
Defined.
End example.
