(* ===== verification/TimerSafety.v ===== *)
(** * Timers are safe

    What the message thread runs keeps the invariant of [CallSafety] and
    throws nothing: there is nobody to catch it.  With [SetupSafety] and
    [ReceiveSafety]: every interleaving of datagrams, timers, audio frames
    and requests of the program on a call that was set up. *)

From Stdlib Require Import ZArith Lia SpecFloat List.
From stdpp Require Import base tactics list numbers option gmap strings.
From S2P Require Import Prelude Words Double History Memory Buffers Streams Seq Congestion Link Net Wire Packet.
From S2P Require Import Jitter Reassembler Endpoints Controller Setup Incoming Timers Api CallSafety ReceiveSafety.
From S2P Require Import SetupSafety.
From stdpp Require Import list.
Open Scope Z_scope.

(* ------------------------------------------------------------------ *)
(** ** Relays by TCP *)

(** The copies of a relay are not confused with the endpoint in the local
    network. *)
Lemma lxor_small a b : 0 ≤ a < 9223372036854775808 → 0 ≤ b < 9223372036854775808 → 0 ≤ Z.lxor a b < 9223372036854775808.
Proof.
  intros Ha Hb. assert (0 ≤ Z.lxor a b) as H0 by (apply Z.lxor_nonneg; lia). split; [done|].
  destruct (Z.eq_dec (Z.lxor a b) 0) as [->|Hne]; [lia|]. change 9223372036854775808 with (2 ^ 63).
  assert (∀ z, 0 ≤ z < 9223372036854775808 → Z.log2 z < 63) as Hlog.
  { intros z Hz. destruct (Z.eq_dec z 0) as [->|]; [done|]. apply Z.log2_lt_pow2; [lia|]. change (2 ^ 63) with 9223372036854775808. lia. }
  apply Z.log2_lt_pow2; [lia|]. pose proof (Z.log2_lxor a b). pose proof (Hlog a Ha). pose proof (Hlog b Hb). lia.
Qed.
Lemma lxor_s64 x b : is_s64 x → 0 ≤ b < 9223372036854775808 → is_s64 (Z.lxor x b).
Proof.
  intros Hx Hb. destruct (Z_lt_ge_dec x 0).
  - assert (Z.lxor x b = Z.lnot (Z.lxor (Z.lnot x) b)) as ->.
    { rewrite <- (Z.lxor_m1_r (Z.lxor (Z.lnot x) b)), <- (Z.lxor_m1_r x), !Z.lxor_assoc, (Z.lxor_comm b), <- (Z.lxor_assoc (-1)), Z.lxor_nilpotent.
      by rewrite Z.lxor_0_l. }
    pose proof (lxor_small (Z.lnot x) b). unfold Z.lnot in *. lia.
  - pose proof (lxor_small x b). lia.
Qed.
Lemma lan_ids_tcp i : is_s64 i → s64 (Z.lxor i tcpBit) ∈ lan_ids → i ∈ lan_ids.
Proof.
  intros Hi. rewrite s64_small by (apply lxor_s64; [done|by vm_compute]).
  intros Hj.
  assert (Forall (λ j, Z.lxor j tcpBit ∈ lan_ids) lan_ids) as Ha by by apply (bool_decide_unpack _).
  rewrite Forall_forall in Ha. specialize (Ha _ Hj). by rewrite Z.lxor_assoc, Z.lxor_nilpotent, Z.lxor_0_r in Ha.
Qed.

Section tcp_relays.
Import Endpoints.
Context (ids : list Z).
Implicit Types r : Endpoints.t.
#[local] Abbreviation none := (λ _ _, False).
#[local] Abbreviation never := (λ _, False).
#[local] Abbreviation found r i := (is_Some (OMap.find i (endpoints r))).

(** [l] are copies that are about to be put into the map; the current
    endpoint may be one of them already. *)
Record pending (l : list Z) r : Prop := {
  pe_ids : Forall (λ i, found r i) ids;
  pe_current : found r (currentEndpoint r) ∨ currentEndpoint r ∈ l;
  pe_preferred : found r (preferredRelay r) ∨ preferredRelay r ∈ l;
  pe_lan : preferredRelay r ≠ lanID;
  pe_all : Forall (λ p, p.1 = Endpoint.id p.2 ∧ endpoint_ok (sockets r) p.2) (endpoints r);
  pe_flag : setCurrentEndpointToTCP r = true → found r (currentEndpoint r);
}.
Lemma pending_ok r : pending [] r ↔ routes_ok ids r.
Proof.
  split.
  - intros [H1 [H2|H2%elem_of_nil] [H3|H3%elem_of_nil] H4 H5 H6]; by constructor.
  - intros [H1 H2 [H3 H4] H5]. constructor; auto.
Qed.
Lemma pending_update l k f r :
  (∀ e, OMap.find k (endpoints r) = Some e →
     Endpoint.id (f e) = Endpoint.id e ∧ (endpoint_ok (sockets r) e → endpoint_ok (sockets r) (f e))) →
  pending l r → pending l (r <| endpoints ::= OMap.update k f |>).
Proof.
  intros Hf [H1 H2 H3 H4 H5 H6]. constructor; try done; cbn.
  - eapply Forall_impl; [exact H1|]. intros i. apply find_update_Some.
  - destruct H2; [left; by apply find_update_Some|by right].
  - destruct H3; [left; by apply find_update_Some|by right].
  - apply Forall_update; [done|]. intros e He [Hid Hok]. destruct (Hf e He) as [E ?]. cbn in *. split; [congruence|auto].
  - intros Hfl. by apply find_update_Some, H6.
Qed.

(** A copy of a relay. *)
Definition copy_ok (e : Endpoint.t) : Prop := ∀ socks, endpoint_ok socks e.
Lemma tcp_copy_ok socks e : endpoint_ok socks e → Endpoint.type e = Endpoint.UDP_RELAY → copy_ok (tcp_copy e).
Proof.
  intros [H1 H2 H3 H4] Ht socks'. constructor.
  - by apply HistoricBuffer_Reset_wf.
  - intros p Hp. destruct (H2 p Hp) as [Ht' _]. by rewrite Ht in Ht'.
  - intros Hlan%lan_ids_tcp; [|done]. specialize (H3 Hlan). unfold Endpoint.is_relay in H3. by rewrite Ht in H3.
  - apply s64_range.
Qed.

Lemma wp_set_all l r : Forall copy_ok l → pending (Endpoint.id <$> l) r →
  wp (set_all l) r (λ _ r', routes_ok ids r') none never.
Proof.
  intros Hl. revert r. induction Hl as [|e l He Hl IH]; intros r Hr; [apply wp_ret; by apply pending_ok|].
  cbn [set_all]. apply wp_bind, wp_modify. apply IH. destruct Hr as [H1 H2 H3 H4 H5 H6].
  assert (∀ i, found r i ∨ i ∈ Endpoint.id <$> e :: l →
    found (r <| endpoints ::= OMap.insert (Endpoint.id e) e |>) i ∨ i ∈ Endpoint.id <$> l) as Hs.
  { intros i [Hi|Hi]; [left; by apply find_insert_Some|]. cbn in Hi. apply elem_of_cons in Hi as [->|Hi]; [|by right].
    left. cbn. rewrite find_insert_eq. by eexists. }
  constructor; [|by apply Hs|by apply Hs|done| |].
  - eapply Forall_impl; [exact H1|]. intros i. apply find_insert_Some.
  - apply CallSafety.Forall_insert; [done|]. by split.
  - intros Hf. by apply find_insert_Some, H6.
Qed.

Lemma pending_more l l' r : pending l r → pending (l ++ l') r.
Proof. intros [H1 H2 H3 H4 H5 H6]. constructor; try done; rewrite elem_of_app; naive_solver. Qed.
Lemma forget_ok socks e : endpoint_ok socks e → endpoint_ok socks (Endpoint.forget_rtt e).
Proof. intros []. constructor; try done. by apply HistoricBuffer_Reset_wf. Qed.

Lemma wp_copy_relays w ks l r : Forall (λ k, found r k) ks → pending l r →
  wp (copy_relays w ks) r (λ relays r', pending (l ++ (Endpoint.id <$> relays)) r' ∧ Forall copy_ok relays) none never.
Proof.
  revert l r. induction ks as [|k ks IH]; intros l r Hks Hr; cbn [copy_relays].
  { apply wp_ret. split; [by rewrite app_nil_r|by apply Forall_nil]. }
  apply Forall_cons in Hks as [[e He] Hks]. apply wp_bind, wp_get, wp_bind. eapply wp_defined; [exact He|].
  destruct (find_forall _ _ _ _ (pe_all _ _ Hr) He) as [Hid Hok]. cbn [fst snd] in Hid, Hok.
  case_bool_decide as Ht; cbn [negb]; [|by apply IH]. cbv zeta.
  set (e' := if w && _ then _ else e).
  assert (Endpoint.id e' = k ∧ endpoint_ok (sockets r) e' ∧ Endpoint.type e' = Endpoint.UDP_RELAY) as (Hid' & Hok' & Ht').
  { subst e'. destruct (_ && _); [|done]. split_and!; [done| |done]. destruct (forget_ok _ _ Hok). by constructor. }
  clearbody e'. apply wp_bind, wp_modify. set (r1 := r <| endpoints ::= _ |>).
  assert (pending l r1) as Hr1.
  { apply pending_update; [|done]. intros e0 He0. rewrite He in He0. injection He0 as <-. split; [congruence|done]. }
  assert (Forall (λ k, found r1 k) ks) as Hks1 by (eapply Forall_impl; [exact Hks|]; intros i; apply find_update_Some).
  clearbody r1. pose proof (tcp_copy_ok _ _ Hok' Ht') as Hcopy. clear He Hok Hid Ht Hks Hr e Hok' Ht' r. apply wp_bind, wp_get, wp_bind.
  apply wp_mono with (Q' := λ (_ : unit) r2, pending (l ++ [Endpoint.id (tcp_copy e')]) r2 ∧ Forall (λ k, found r2 k) ks).
  - destruct (setCurrentEndpointToTCP r1) eqn:Ef; [|apply wp_ret; split; [by apply pending_more|done]].
    apply wp_bind, wp_at; [|intros E; pose proof (pe_flag _ _ Hr1 Ef) as [? E']; by rewrite E in E'].
    intros cur Hcur. case_bool_decide; [apply wp_ret; split; [by apply pending_more|done]|]. apply wp_modify. split; [|done].
    destruct Hr1 as [H1 H2 H3 H4 H5 H6].
    constructor; cbn [currentEndpoint preferredRelay endpoints]; try done.
    + right. apply elem_of_app. right. by apply list_elem_of_singleton.
    + right. apply elem_of_app. right. by apply list_elem_of_singleton.
    + intros E. assert (Endpoint.is_relay (tcp_copy e') = false) as Hrel; [|by vm_compute in Hrel].
      apply (eo_lan ∅); [apply Hcopy|]. change (Endpoint.id (tcp_copy e') = lanID) in E. rewrite E. apply lanID_elem.
  - intros [] r2 [Hr2 Hks2]. apply wp_bind. eapply wp_mono; [by apply (IH _ _ Hks2 Hr2)|].
    intros relays r3 [Hr3 Hrel]. apply wp_ret. rewrite <- app_assoc in Hr3. split; [exact Hr3|by constructor].
Qed.

Lemma wp_AddTCPRelays r : routes_ok ids r → wp AddTCPRelays r (λ _ r', routes_ok ids r') none never.
Proof.
  intros Hr%pending_ok. unfold AddTCPRelays. apply wp_bind, wp_get.
  destruct (didAddTcpRelays r); [apply wp_ret; by apply pending_ok|]. apply wp_bind.
  eapply wp_mono; [apply (wp_copy_relays _ _ []); [|done]|].
  - apply Forall_forall. intros k. by apply is_Some_find.
  - intros relays r1 [Hr1 Hrel]. apply wp_bind. eapply wp_mono; [by apply wp_set_all|]. intros [] r2 Hr2. apply wp_modify.
    by destruct Hr2.
Qed.
End tcp_relays.

(* ------------------------------------------------------------------ *)
(** ** The link *)

Section link.
Context {CK : Clock}.
Import Link.

Lemma link_update_queued qp l : link_ok l → HistoricBuffer.wf (q_seqs qp) ∧ HistoricBuffer.size (q_seqs qp) = 16 →
  zlen (q_data qp) ≤ 1048576 →
  wp (update_queued qp) l (λ r l', link_ok l' ∧
    (∀ q, r.1 = Some q → (HistoricBuffer.wf (q_seqs q) ∧ HistoricBuffer.size (q_seqs q) = 16) ∧ zlen (q_data q) ≤ 1048576) ∧
    (∀ p, r.2 = Some p → p_endpoint p.1 = 0 ∧ zlen (p_data p.1) ≤ 1048576)) (λ _ _, False) (λ _, False).
Proof.
  intros Hl [Hw Hs] Hd. unfold update_queued. apply wp_bind. eapply wp_mono; [by apply link_GetCurrentTime|].
  clear l Hl. intros now0 l Hl. destruct (_ && _); [by apply wp_ret|].
  apply wp_bind. eapply wp_mono; [by apply link_GetCurrentTime|]. clear l Hl. intros now1 l Hl.
  destruct (D.geb _ _); [|apply wp_ret; split_and!; [done|by intros q [= <-]|done]].
  apply wp_bind. eapply wp_mono with (Q' := λ _, link_ok).
  { apply wp_bind, wp_gets, wp_bind, wp_modify, wp_ret. by destruct Hl. }
  clear l Hl. intros sq l Hl. apply wp_bind. eapply wp_mono; [by apply link_GetCurrentTime|]. clear l Hl. intros now2 l Hl.
  cbv zeta. apply wp_ret.
  destruct (D.eqb _ D.zero); (split_and!; [done| |by intros p [= <-]]); intros q [= <-]; cbn;
    (split; [split; [by apply Add_wf|by rewrite Add_size]|done]).
Qed.

Lemma link_update_all qs l : link_ok l →
  Forall (λ q, (HistoricBuffer.wf (q_seqs q) ∧ HistoricBuffer.size (q_seqs q) = 16) ∧ zlen (q_data q) ≤ 1048576) qs →
  wp (mapM update_queued qs) l (λ rs l', link_ok l' ∧
    Forall (λ q, (HistoricBuffer.wf (q_seqs q) ∧ HistoricBuffer.size (q_seqs q) = 16) ∧ zlen (q_data q) ≤ 1048576) (omap fst rs) ∧
    Forall (λ p, p_endpoint p.1 = 0 ∧ zlen (p_data p.1) ≤ 1048576) (omap snd rs)) (λ _ _, False) (λ _, False).
Proof.
  intros Hl Hq. revert l Hl. induction Hq as [|q qs [Hw Hd] Hq IH]; intros l Hl; [apply wp_ret; split_and!; [done|by apply Forall_nil..]|].
  simpl. apply wp_bind. eapply wp_mono; [by apply link_update_queued|]. intros [o p] l1 (Hl1 & Ho & Hp). cbn [fst snd] in *.
  apply wp_bind. eapply wp_mono; [by apply IH|]. intros rs l2 (Hl2 & Hf & Hs). apply wp_ret. split_and!; [done| |].
  - cbn. destruct o as [q'|]; [|done]. constructor; [by apply Ho|done].
  - cbn. destruct p as [p|]; [|done]. constructor; [by apply Hp|done].
Qed.
Lemma link_update_queued_packets l : link_ok l →
  wp update_queued_packets l (λ ps l', link_ok l' ∧ Forall (λ p, p_endpoint p.1 = 0 ∧ zlen (p_data p.1) ≤ 1048576) ps)
    (λ _ _, False) (λ _, False).
Proof.
  intros Hl. unfold update_queued_packets. apply wp_bind, wp_gets, wp_bind.
  eapply wp_mono; [apply link_update_all; [done|]|].
  - destruct Hl as [_ Hq Hd _ _ _ _ _]. unfold queue_wf in Hq. rewrite Forall_forall in *. auto.
  - intros rs l' (Hl' & Hf & Hs). apply wp_bind, wp_modify, wp_ret. split; [|done].
    destruct Hl'. constructor; try done; eapply Forall_impl; try exact Hf; by intros q [? ?].
Qed.

Lemma link_rtt l x : link_ok l → link_ok (l <| rttHistory ::= HistoricBuffer.Add x |>).
Proof. intros [? ? ? ? ? ? [Hw Hs] ?]. constructor; try done. cbn. split; [by apply Add_wf|by rewrite Add_size]. Qed.
Lemma link_bandwidth : link_safe Call.bandwidth_action.
Proof.
  unfold Call.bandwidth_action. apply link_bind; [apply link_GetCurrentTime|intros now]. intros l Hl. apply wp_bind, wp_get.
  assert (∀ x y c, conctl_ok c → conctl_ok (CongestionControl.GetBandwidthControlAction x y c).2) as Hb.
  { intros x y c (acc & ack & [H1 H2 H3 H4]). exists acc, ack. unfold CongestionControl.GetBandwidthControlAction.
    by repeat match goal with |- CongestionControl.inv (if ?b then _ else _).2 _ _ => destruct b end. }
  destruct (CongestionControl.GetBandwidthControlAction _ _ _) as [a c']. revert l Hl.
  assert (link_safe (now2 ← GetCurrentTime; modify (λ l, l <| conctl ::= λ c, (CongestionControl.GetBandwidthControlAction now now2 c).2 |>);; mret a)) as H.
  { apply link_bind; [apply link_GetCurrentTime|intros now2]. apply link_bind; [|intros _; apply link_ret].
    intros l []. apply wp_modify. constructor; try done. by apply Hb. }
  destruct a; [intros l Hl; by apply wp_ret|exact H..].
Qed.
Lemma link_tick : link_safe Call.tick_conctl.
Proof.
  intros l Hl. unfold Call.tick_conctl. apply wp_bind, wp_gets, wp_modify. destruct Hl as [? ? ? ? ? ? ? (acc & ack & Hi)].
  constructor; try done. exists acc, ack. by apply Tick_inv.
Qed.
Lemma link_conctl_sent sq len : (∀ k, CongestionControl.positive (clock k) = true ∧ CongestionControl.finite_time (clock k) = true) →
  link_safe (Call.conctl_sent sq len).
Proof.
  intros Hc. unfold Call.conctl_sent. intros l Hl. apply wp_bind. unfold GetCurrentTime. apply wp_bind, wp_gets, wp_bind, wp_modify, wp_ret.
  apply wp_bind, wp_get. destruct Hl as [? ? ? ? ? ? ? (acc & ack & Hi)]. cbn [conctl].
  destruct (PacketSent_total (conctl l) acc ack sq len (clock (ticks l)) Hi) as [c Ec].
  change (conctl (l <| ticks := S (ticks l) |>)) with (conctl l). rewrite Ec. apply wp_put. constructor; try done.
  destruct (Hc (ticks l)). eexists _, _. by eapply PacketSent_inv.
Qed.
End link.

(* ------------------------------------------------------------------ *)
(** ** Timers of the controller *)

Section timers.
Context {CF : CryptoFunctions} {CL : CryptoLaws} {CK : Clock} {RD : Random} {SC : ServerConfig} {HO : Host}.
Context (A V U W : Prop) (n : nat) (b : bool).
Hypothesis (Hn : (n ≤ 100)%nat).
Import Packet Controller Call.
#[local] Abbreviation C := Controller.t.
#[local] Abbreviation keeps ids := (keeps A V U W n b ids).
#[local] Abbreviation good ids := (ok U n b ids).
#[local] Abbreviation allowed := (allowed A V).
#[local] Abbreviation throws ids := (throws U W n b ids).
Implicit Types s : C.

(** A result with a property. *)
Definition gives ids {X} (P : X → Prop) (m : M C X) : Prop := ∀ s, good ids s → wp m s (λ x s', P x ∧ good ids s') (throws ids) allowed.
Lemma keeps_gives ids {X Y} (P : X → Prop) (m : M C X) (f : X → M C Y) : gives ids P m → (∀ x, P x → keeps ids (f x)) → keeps ids (m ≫= f).
Proof. intros Hm Hf s Hs. apply wp_bind. eapply wp_mono; [by apply Hm|]. intros x s' [Hx Hs']. by apply Hf. Qed.
Lemma gives_bind ids {X Y} (P : Y → Prop) (m : M C X) (f : X → M C Y) : keeps ids m → (∀ x, gives ids P (f x)) → gives ids P (m ≫= f).
Proof. intros Hm Hf s Hs. apply wp_bind. eapply wp_mono; [by apply Hm|]. intros x s' Hs'. by apply Hf. Qed.
Lemma gives_ret ids {X} (P : X → Prop) (x : X) : P x → gives ids P (mret x).
Proof. intros HP s Hs. by apply wp_ret. Qed.

(** An endpoint that is there. *)
Lemma keeps_at_known ids k : k ∈ ids → keeps ids (on_routes (Endpoints.at_ k)).
Proof.
  intros Hk s Hs. destruct (ok_known U n b ids k s Hk Hs) as [e He]. apply wp_zoom, wp_at.
  - intros e' _. by destruct s.
  - intros E. by rewrite E in He.
Qed.
Lemma gives_at ids k : k ∈ ids → gives ids (λ e, Endpoint.id e = k ∧ (Endpoint.is_relay e = true → k ≠ lanID)) (on_routes (Endpoints.at_ k)).
Proof.
  intros Hk s Hs. destruct (ok_known U n b ids k s Hk Hs) as [e He]. apply wp_zoom, wp_at.
  - intros e' He'. destruct (ok_endpoint U n b ids k e' s Hs He') as [<- [_ _ Hl _]]. split; [|by destruct s]. split; [done|].
    intros Hr E. rewrite Hl in Hr; [done|]. rewrite E. apply lanID_elem.
  - intros E. by rewrite E in He.
Qed.
Lemma keeps_no_throw ids {X} (m : M Endpoints.t X) :
  (∀ r, routes_ok ids r → wp m r (λ _ r', routes_ok ids r') (λ _ _, False) (λ _, False)) → keeps ids (on_routes m).
Proof.
  intros Hm s Hs. apply wp_zoom. eapply wp_weaken; [apply Hm, Hs| |done|done]. intros x r Hr. destruct Hs. by constructor.
Qed.

Lemma keeps_SendUdpPing ids e : keeps ids (SendUdpPing e).
Proof. unfold SendUdpPing. keep. apply keeps_rand_bytes. Qed.
Lemma endpoint_pongs socks e k : endpoint_ok socks e → endpoint_ok socks (e <| Endpoint.udpPongCount := k |>).
Proof. intros []. by constructor. Qed.
Lemma keeps_for_each ids f :
  (∀ socks e, Endpoint.id (f e) = Endpoint.id e ∧ (endpoint_ok socks e → endpoint_ok socks (f e))) → keeps ids (on_routes (Endpoints.for_each f)).
Proof. intros Hf. apply keeps_routes_modify. intros r Hr. apply routes_for_each; [|done]. intros e. apply Hf. Qed.
Lemma keeps_ResetUdpAvailability ids : keeps ids ResetUdpAvailability.
Proof. unfold ResetUdpAvailability. keep. apply keeps_for_each. intros socks e. split; [done|]. apply endpoint_pongs. Qed.
Lemma keeps_set_needRate ids f : keeps ids (set_needRate f).
Proof. unfold set_needRate. apply keeps_modify. intros s Hs. by destruct (has _ _). Qed.
Lemma keeps_routes_flags ids f :
  (∀ r, Endpoints.endpoints (f r) = Endpoints.endpoints r ∧ Endpoints.sockets (f r) = Endpoints.sockets r ∧
        Endpoints.currentEndpoint (f r) = Endpoints.currentEndpoint r ∧ Endpoints.preferredRelay (f r) = Endpoints.preferredRelay r) →
  keeps ids (on_routes (modify f)).
Proof. intros Hf. apply keeps_routes_modify. intros r Hr. destruct (Hf r) as (E1 & E2 & E3 & E4). by eapply routes_same_map. Qed.
Lemma keeps_AddTCPRelays ids : keeps ids (on_routes Endpoints.AddTCPRelays).
Proof. apply keeps_no_throw. intros r. apply wp_AddTCPRelays. Qed.

(** The keys of the map at some point are known. *)
Lemma known_current ids s : good ids s → Forall (λ k, k ∈ ids) (OMap.keys (Endpoints.endpoints (routes s))) →
  Endpoints.currentEndpoint (routes s) ∈ ids ∧ Endpoints.preferredRelay (routes s) ∈ ids.
Proof.
  intros [_ _ [_ Hc [Hp _] _] _ _ _ _ _ _] Hk. rewrite Forall_forall in Hk. split; by apply Hk, is_Some_find.
Qed.

Definition evaluate_udp (avgPongs : double) : M C unit :=
  if GetBoolean "use_tcp" true then
    c ← get;
    if D.eqb avgPongs D.zero || (bool_decide (udpConnectivityState c = UDP_BAD) && D.ltb avgPongs (D.of_Z 7)) then
      set_needRate NEED_RATE_FLAG_UDP_NA;;
      modify (λ c, c <| udpConnectivityState := UDP_NOT_AVAILABLE |>);;
      on_routes (modify (λ r, r <| Endpoints.useTCP := true |> <| Endpoints.useUDP := D.gtb avgPongs (D.of_Z 1) |>));;
      cur ← on_routes (Endpoints.at_ (Endpoints.currentEndpoint (routes c)));
      (if bool_decide (Endpoint.type cur = Endpoint.TCP_RELAY) then mret tt
       else on_routes (modify (λ r, r <| Endpoints.setCurrentEndpointToTCP := true |>)));;
      on_routes Endpoints.AddTCPRelays;;
      modify (λ c, c <| waitingForRelayPeerInfo := false |>)
    else if D.ltb avgPongs (D.of_Z 3) then
      set_needRate NEED_RATE_FLAG_UDP_BAD;;
      modify (λ c, c <| udpConnectivityState := UDP_BAD |>);;
      on_routes (modify (λ r, r <| Endpoints.useTCP := true |> <| Endpoints.setCurrentEndpointToTCP := true |>));;
      on_routes Endpoints.AddTCPRelays;;
      i ← Post SendUdpPings_ (D.of_dec 5 1) (D.of_dec 5 1);
      modify (λ c, c <| udpPingTimeoutID := i |>)
    else modify (λ c, c <| udpPingTimeoutID := INVALID_ID |> <| udpConnectivityState := UDP_AVAILABLE |>)
  else modify (λ c, c <| udpPingTimeoutID := INVALID_ID |> <| udpConnectivityState := UDP_NOT_AVAILABLE |>).
Lemma keeps_evaluate_udp ids avg : keeps ids (evaluate_udp avg).
Proof.
  unfold evaluate_udp. destruct (GetBoolean _ _); [|keep]. apply keeps_over_keys. intros c ids' Hc Hk _.
  destruct (known_current ids' c Hc Hk) as [Hcur _]. destruct (_ || _).
  - apply keeps_bind; [apply keeps_set_needRate|intros _]. apply keeps_bind; [keep|intros _].
    apply keeps_bind; [by apply keeps_routes_flags|intros _]. apply keeps_bind; [by apply keeps_at_known|intros cur].
    apply keeps_bind; [destruct (bool_decide _); [apply keeps_ret|by apply keeps_routes_flags]|intros _].
    apply keeps_bind; [apply keeps_AddTCPRelays|intros _]. keep.
  - destruct (D.ltb _ _); [|keep]. apply keeps_bind; [apply keeps_set_needRate|intros _]. apply keeps_bind; [keep|intros _].
    apply keeps_bind; [by apply keeps_routes_flags|intros _]. apply keeps_bind; [apply keeps_AddTCPRelays|intros _]. keep.
Qed.

(** ** Choosing the endpoint *)

Lemma keeps_update ids k f :
  (∀ socks e, Endpoint.id (f e) = Endpoint.id e ∧ (endpoint_ok socks e → endpoint_ok socks (f e))) →
  keeps ids (on_routes (modify (λ r, r <| Endpoints.endpoints ::= OMap.update k f |>))).
Proof. intros Hf. apply keeps_routes_modify. intros r Hr. apply routes_update; [|done]. intros e _. apply Hf. Qed.
Lemma keeps_ping_if_due ids k : k ∈ ids → keeps ids (ping_if_due k).
Proof.
  intros Hk. unfold ping_if_due. apply keeps_get_bind. intros s Hs. apply keeps_defined; [by eapply ok_known|]. intros e He.
  destruct (ok_endpoint U n b ids k e s Hs He) as [Hid _]. apply keeps_bind; [apply keeps_GetCurrentTime|intros now].
  destruct (D.geb _ _); [|apply keeps_ret]. apply keeps_bind; [apply keeps_GenerateOutSeq|intros sq].
  apply keeps_bind; [apply keeps_update; intros socks e0; split; [done|]; intros []; by constructor|intros _].
  apply keeps_bind; [apply keeps_SendOrEnqueuePacket; [lia|done|right; cbn; by rewrite Hid]|intros _].
  apply keeps_bind; [apply keeps_GetCurrentTime|intros now2].
  apply keeps_update; intros socks e0; split; [done|]; intros []; by constructor.
Qed.
Lemma gives_ping_relays ids ks best : Forall (λ k, k ∈ ids) ks → best.2 ∈ ids → best.2 ≠ lanID →
  gives ids (λ x, x.2 ∈ ids ∧ x.2 ≠ lanID) (ping_relays ks best).
Proof.
  intros Hks. revert best. induction Hks as [|k ks Hk Hks IH]; intros best Hb Hne; cbn [ping_relays]; [by apply gives_ret|].
  intros s Hs. apply wp_bind, wp_get, wp_bind. destruct (ok_known U n b ids k s Hk Hs) as [e He].
  eapply wp_defined; [exact He|]. destruct (ok_endpoint U n b ids k e s Hs He) as [Hid [_ _ Hl _]]. cbv zeta.
  destruct (_ && _); [by apply IH|]. destruct (_ && _); [by apply IH|]. revert s Hs He.
  cut (∀ s0, gives ids (λ x : double * Z, x.2 ∈ ids ∧ x.2 ≠ lanID) (ping_if_due k;;
    let '(minPing, _) := best in
    let r := routes s0 in
    let udp := bool_decide (Endpoint.type e = Endpoint.UDP_RELAY) in
    let tcp := bool_decide (Endpoint.type e = Endpoint.TCP_RELAY) in
    let ping := D.mul (Endpoint.averageRTT e) (D.of_Z (if udp then 1 else 2)) in
    let better := ((Endpoints.useUDP r && udp) || (Endpoints.useTCP r && tcp)) &&
      D.gtb (Endpoint.averageRTT e) D.zero && D.ltb ping (D.mul minPing (relaySwitchThreshold (limits s0))) in
    ping_relays ks (if better then (ping, Endpoint.id e) else best))).
  { intros H s Hs _. exact (H s s Hs). }
  intros s0. apply gives_bind; [by apply keeps_ping_if_due|intros _]. destruct best as [minPing k0]. cbv zeta.
  destruct (_ && D.ltb _ _) eqn:Eb; [|by apply IH]. apply IH; cbn [snd]; rewrite Hid; [done|].
  intros E. assert (Endpoint.is_relay e = false) as Hr by (apply Hl; rewrite Hid, E; apply lanID_elem).
  unfold Endpoint.is_relay in Hr. apply orb_false_iff in Hr as [H1 H2]. by rewrite H1, H2, !andb_false_r in Eb.
Qed.

Lemma keeps_set_current_known ids k : k ∈ ids → keeps ids (set_current k).
Proof.
  intros Hk. apply keeps_routes_modify. intros r Hr. apply routes_set_current; [|done].
  destruct Hr as [Hi _ _ _]. by eapply Forall_forall in Hi.
Qed.
Lemma keeps_switch_endpoint ids p cur : cur ∈ ids → keeps ids (switch_endpoint p cur).
Proof.
  intros Hk. unfold switch_endpoint. apply keeps_over_keys. intros s ids' Hs Hkeys Hsub.
  apply keeps_defined; [apply (ok_known U n b ids' cur s); [by apply Hsub|done]|]. intros c Hc. cbv zeta.
  assert (∀ k, is_Some (average_of k (routes s)) → k ∈ ids') as Hav.
  { intros k (a & (e & He & ->)%fmap_Some). rewrite Forall_forall in Hkeys. apply Hkeys, is_Some_find. by eexists. }
  destruct (known_current ids' s Hs Hkeys) as [_ Hpref].
  destruct (_ && _).
  - destruct (average_of p2pID (routes s)) as [a|] eqn:Ep; [|apply keeps_ret].
    destruct (average_of lanID (routes s)) as [l|] eqn:El.
    + destruct (_ && _); [apply keeps_set_current_known, Hav; by rewrite El|].
      destruct (_ && _); [apply keeps_set_current_known, Hav; by rewrite Ep|apply keeps_ret].
    + destruct (_ && _); [apply keeps_set_current_known, Hav; by rewrite Ep|apply keeps_ret].
  - destruct (_ && _); [by apply keeps_set_current_known|apply keeps_ret].
Qed.
Lemma keeps_set_preferred ids k : k ∈ ids → k ≠ lanID → keeps ids (on_routes (modify (λ r, r <| Endpoints.preferredRelay := k |>))).
Proof.
  intros Hk Hl. apply keeps_routes_modify. intros r Hr. apply routes_set_preferred; [|done..].
  destruct Hr as [Hi _ _ _]. by eapply Forall_forall in Hi.
Qed.
Lemma keeps_SendRelayPings ids : keeps ids SendRelayPings.
Proof.
  unfold SendRelayPings. apply keeps_over_keys. intros s ids' Hs Hkeys _. destruct (_ && _); [|apply keeps_ret]. cbv zeta.
  destruct (known_current ids' s Hs Hkeys) as [Hc Hp]. destruct Hs as [_ _ [_ _ [_ Hlan] _] _ _ _ _ _ _].
  eapply keeps_gives; [by apply gives_at|]. intros p [Hpid _]. apply keeps_bind; [by apply keeps_at_known|intros c].
  eapply keeps_gives; [apply (gives_ping_relays ids'); [done|cbn; by rewrite Hpid..]|].
  intros [minPing best] [Hb Hbl]. cbn [snd] in Hb, Hbl.
  eapply (keeps_gives _ (λ k, k ∈ ids')); [|intros cur Hcur; by apply keeps_switch_endpoint].
  destruct (negb _); [|by apply gives_ret]. apply gives_bind; [by apply keeps_set_preferred|intros _].
  destruct (Endpoint.is_relay c); [|by apply gives_ret].
  apply gives_bind; [by apply keeps_set_current_known|intros _]. by apply gives_ret.
Qed.

(** ** The rest *)

Lemma keeps_post_updates ids l : keeps ids (post_updates l).
Proof. induction l as [|[p d] l IH]; cbn [post_updates]; [apply keeps_ret|]. keep. exact IH. Qed.
Lemma keeps_send_all ids l : Forall (λ p, Link.p_endpoint p.1 = 0 ∧ zlen (Link.p_data p.1) ≤ 1048576) l → keeps ids (send_all l).
Proof.
  induction 1 as [|[p d] l [He Hd] Hl IH]; cbn [send_all]; [apply keeps_ret|].
  apply keeps_bind; [apply keeps_SendOrEnqueuePacket; [lia|done|by left]|intros _; exact IH].
Qed.
Lemma keeps_UpdateQueuedPackets ids : keeps ids UpdateQueuedPackets.
Proof.
  unfold UpdateQueuedPackets. eapply (keeps_gives _ (Forall (λ p, Link.p_endpoint p.1 = 0 ∧ zlen (Link.p_data p.1) ≤ 1048576))).
  - intros s Hs. apply wp_zoom. eapply wp_weaken; [apply link_update_queued_packets, Hs| |done|done].
    intros ps l [Hl Hps]. split; [done|]. destruct Hs. by constructor.
  - intros l Hl. apply keeps_bind; [apply keeps_post_updates|intros _; by apply keeps_send_all].
Qed.
Lemma keeps_SendNopPacket ids : keeps ids SendNopPacket.
Proof.
  unfold SendNopPacket. keep; [apply keeps_GenerateOutSeq|apply keeps_link_modify; by intros l []|].
  apply keeps_SendOrEnqueuePacket; [lia|done|by left].
Qed.

Lemma keeps_encoder ids f : keeps ids (on_audio (λ a, a <| encoder ::= fmap f |>)).
Proof. apply keeps_audio. intros a [[e He] Hi]. constructor; [|done]. cbn. rewrite He. by eexists. Qed.
Lemma keeps_SendStreamFlags ids st : keeps ids (SendStreamFlags st).
Proof.
  unfold SendStreamFlags. cbv zeta. apply (keeps_writes A V U W n b ids 5 (1 + 4)); [lia..| |].
  - apply writes_bind; [lia|apply writes_Byte|apply writes_Int32].
  - intros d Hd. apply keeps_SendExtra; [done|lia].
Qed.
Lemma keeps_set_extra_ec ids x done l : (1 ≤ length (done ++ l) ≤ n)%nat → keeps ids (set_extra_ec x done l).
Proof.
  revert done. induction l as [|st l IH]; intros dn Hl; cbn [set_extra_ec]; [apply keeps_ret|].
  destruct (_ =? _).
  - apply keeps_bind; [|intros _; apply keeps_SendStreamFlags]. apply keeps_modify. intros s []. constructor; try done.
    cbn. rewrite !length_app in *. simpl in *. lia.
  - apply IH. by rewrite <- app_assoc.
Qed.
Lemma keeps_extra_ec ids x : keeps ids (extra_ec x).
Proof.
  unfold extra_ec. apply keeps_get_bind. intros s Hs. apply keeps_bind; [|intros _; apply keeps_encoder].
  apply keeps_set_extra_ec, Hs.
Qed.
Lemma keeps_SetPacketLoss ids k : keeps ids (SetPacketLoss k).
Proof. apply keeps_encoder. Qed.
Lemma keeps_SetBitrate ids k : keeps ids (SetBitrate k).
Proof. apply keeps_encoder. Qed.
Lemma keeps_send_network_changed ids : keeps ids send_network_changed.
Proof.
  unfold send_network_changed. apply keeps_bind; [apply keeps_get|intros s].
  apply (keeps_writes A V U W n b ids 4 4); [lia..|apply writes_Int32|]. intros d Hd. destruct (_ <? 6).
  - apply keeps_SendPacketReliably. lia.
  - apply keeps_SendExtra; [done|lia].
Qed.
Lemma keeps_receive_timeout ids time : keeps ids (receive_timeout time).
Proof.
  unfold receive_timeout. apply keeps_over_keys. intros s ids' Hs Hkeys _. destruct (known_current ids' s Hs Hkeys) as [Hc _].
  apply keeps_bind; [by apply keeps_at_known|intros cur]. destruct (negb _); [|apply keeps_fail].
  apply keeps_bind; [apply keeps_routes_modify; intros r; apply routes_to_preferred|intros _].
  apply keeps_bind; [|intros _].
  { apply keeps_for_each. intros socks e. destruct (Endpoint.is_relay e); [done|]. split; [done|]. apply forget_ok. }
  apply keeps_bind; [destruct (Endpoints.allowP2p _); [apply keeps_SendPublicEndpointsRequest|apply keeps_ret]|intros _].
  apply keeps_bind; [apply keeps_UpdateDataSavingState|intros _]. apply keeps_bind; [apply keeps_UpdateAudioBitrateLimit|intros _].
  apply keeps_bind; [apply keeps_send_network_changed|intros _]. keep.
Qed.

(** ** On the state of [Call] *)

Implicit Types c : Call.t.
(** The frames kept for error correction are short: the second encoder
    writes into 128 bytes. *)
Definition frames_ok (l : list bytes) : Prop := (length l ≤ 4)%nat ∧ Forall (λ d, zlen d ≤ 128) l.
Definition goodC c : Prop := good [] (base c) ∧ frames_ok (ecAudioPackets c).
Definition keepsC {X} (m : M Call.t X) : Prop :=
  ∀ c, goodC c → wp m c (λ _ c', goodC c') (λ e c', throws [] e (base c')) allowed.

Lemma keepsC_ret {X} (x : X) : keepsC (mret x).
Proof. by intros c ?. Qed.
Lemma keepsC_bind {X Y} (m : M Call.t X) (f : X → M Call.t Y) : keepsC m → (∀ x, keepsC (f x)) → keepsC (m ≫= f).
Proof. intros Hm Hf c Hc. apply wp_bind. eapply wp_mono; [by apply Hm|]. intros x c' ?. by apply Hf. Qed.
Lemma keepsC_get {X} (f : Call.t → M Call.t X) : (∀ c, goodC c → keepsC (f c)) → keepsC (get ≫= f).
Proof. intros Hf c Hc. apply wp_bind, wp_get. by apply Hf. Qed.
Lemma keepsC_the {X Y} (g : C → X) (f : X → M Call.t Y) : (∀ s, good [] s → keepsC (f (g s))) → keepsC (the g ≫= f).
Proof. intros Hf c Hc. apply wp_bind, wp_bind, wp_get, wp_ret. apply Hf; [apply Hc|done]. Qed.
Lemma keepsC_base {X} (m : M C X) : keeps [] m → keepsC (on_base m).
Proof. intros Hm c [Hc Hf]. apply wp_zoom. eapply wp_mono; [by apply Hm|]. intros x s Hs. by split. Qed.
Lemma keepsC_modify f : (∀ c, goodC c → goodC (f c)) → keepsC (modify f).
Proof. intros Hf c Hc. by apply wp_modify, Hf. Qed.
Lemma keepsC_defined {X Y} (o : option X) (f : X → M Call.t Y) :
  is_Some o → (∀ x, o = Some x → keepsC (f x)) → keepsC (defined o ≫= f).
Proof. intros [x Hx] Hf c Hc. apply wp_bind. eapply wp_defined; [exact Hx|]. by apply Hf. Qed.

Lemma keepsC_SendUdpPings : keepsC SendUdpPings.
Proof.
  unfold SendUdpPings. apply keepsC_the. intros s Hs. apply keepsC_bind; [apply keepsC_base|intros _].
  { apply keeps_each_endpoint. intros e. destruct (bool_decide _); [apply keeps_SendUdpPing|apply keeps_ret]. }
  apply keepsC_bind; [apply keepsC_base, keeps_modify; intros s0 H0; by destruct (_ || _)|intros _].
  apply keepsC_the. intros s1 _. destruct (_ || _); [|apply keepsC_ret].
  apply keepsC_bind; [by apply keepsC_modify|intros _]. apply keepsC_base. keep.
Qed.
Lemma keepsC_Evaluate : keepsC EvaluateUdpPingResults.
Proof.
  unfold EvaluateUdpPingResults. apply keepsC_the. intros s Hs. cbv zeta. apply keepsC_get. intros c Hc.
  destruct (_ && _).
  - apply keepsC_bind; [by apply keepsC_modify|intros _]. apply keepsC_base. keep. apply keeps_ResetUdpAvailability.
  - apply keepsC_base, keeps_evaluate_udp.
Qed.

(** Jitter buffers. *)
Lemma keepsC_jitter_buffers {X} (m : M JitterBuffer.t X) (f : X → M Call.t unit) dn l :
  (∀ j, inv j → wp m j (λ _, inv) (λ _ _, False) (λ x, x = BadCast)) → (∀ x, keepsC (f x)) →
  Forall stream_ok dn → Forall stream_ok l → keepsC (jitter_buffers m f dn l).
Proof.
  intros Hm Hf Hdn Hl. revert dn Hdn. induction Hl as [|st l [Hj Hr] Hl IH]; intros dn Hdn; cbn [jitter_buffers]; [apply keepsC_ret|].
  destruct (jitterBuffer st) as [j|] eqn:Ej.
  2:{ apply IH. apply Forall_app_2; [done|]. apply Forall_singleton. split; [|done]. intros j E. congruence. }
  specialize (Hm j (Hj j eq_refl)). unfold wp in Hm. destruct (m j) as [x j'|e j'|x]; [|done|].
  2:{ intros c _. subst x. by left. }
  assert (stream_ok (st <| jitterBuffer := Some j' |>)) as Hst by (split; [by intros ? [= <-]|done]).
  apply keepsC_bind; [|intros _; apply keepsC_bind; [apply Hf|intros _]].
  - apply keepsC_base, keeps_modify. intros s []. constructor; try done; cbn.
    + apply Forall_app_2; [done|]. by constructor.
    + intros _ E. by apply app_eq_nil in E as [_ ?].
  - apply IH. apply Forall_app_2; [done|]. by apply Forall_singleton.
Qed.
Lemma keepsC_each_jitter_buffer {X} (m : M JitterBuffer.t X) (f : X → M Call.t unit) :
  (∀ j, inv j → wp m j (λ _, inv) (λ _ _, False) (λ x, x = BadCast)) → (∀ x, keepsC (f x)) → keepsC (each_jitter_buffer m f).
Proof.
  intros Hm Hf. unfold each_jitter_buffer. apply keepsC_the. intros s Hs.
  apply keepsC_jitter_buffers; [done|done|by apply Forall_nil|apply Hs].
Qed.
Lemma keepsC_Tick : keepsC Tick.
Proof.
  unfold Tick. apply keepsC_bind; [|intros _; apply keepsC_base, keeps_link_safe, link_tick].
  apply keepsC_each_jitter_buffer; [|intros x; apply keepsC_ret]. intros j Hj. eapply wp_weaken; [by apply safe_Tick| |done|done].
  intros x j'. apply shrinks_inv.
Qed.

Lemma keepsC_UpdateRTT : keepsC UpdateRTT.
Proof.
  unfold UpdateRTT. apply keepsC_bind; [apply keepsC_base, keeps_link_modify; intros l; apply link_rtt|intros _].
  apply keepsC_the. intros s Hs. cbv zeta. change (id s) with s. destruct (po_link _ _ _ _ _ _ _ _ _ _ _ _ _ Hs) as [_ _ _ _ _ _ [Hw Hsz] _].
  apply keepsC_defined; [by apply index_is_Some; [|lia]|]. intros r0 _.
  apply keepsC_bind; [|intros r8; apply keepsC_bind; [apply keepsC_base, keeps_link_modify; by intros l []|intros _]].
  - destruct (D.gtb r0 _); [|apply keepsC_ret]. destruct (index_is_Some (Link.rttHistory (link s)) 8 Hw) as [x ->]; [lia|].
    intros c Hc. exact Hc.
  - apply keepsC_each_jitter_buffer; [intros j []; unfold wp, take_lost; cbn; by constructor|].
    intros lost. apply keepsC_modify. intros c Hc. by destruct (_ || _).
Qed.

Lemma packetsPerSec_some s : good [] s → is_Some (packetsPerSec s).
Proof. intros Hs. destruct (po_out _ _ _ _ _ _ _ _ _ _ _ _ _ Hs) as [H _]. unfold packetsPerSec. destruct (outgoingStreams s); [simpl in H; lia|]. by eexists. Qed.
Lemma keepsC_UpdateCongestion : keepsC UpdateCongestion.
Proof.
  unfold UpdateCongestion. apply keepsC_the. intros s Hs. change (id s) with s. destruct (encoder (audio s)) as [en|]; [|apply keepsC_ret].
  apply keepsC_bind; [by apply keepsC_modify|intros _]. apply keepsC_defined; [by apply packetsPerSec_some|]. intros per _.
  apply keepsC_get. intros c Hc. cbv zeta. apply keepsC_bind; [|intros _].
  { destruct (_ && _); [|apply keepsC_ret]. apply keepsC_bind; [by apply keepsC_modify|intros _].
    apply keepsC_bind; [|intros _; by apply keepsC_modify].
    apply keepsC_base, keeps_bind; [apply keeps_extra_ec|intros _; apply keeps_set_needRate]. }
  destruct (loss_level _) as [loss level]. apply keepsC_bind; [apply keepsC_base, keeps_SetPacketLoss|intros _].
  apply keepsC_bind; [destruct level; [by apply keepsC_modify|apply keepsC_ret]|intros _].
  apply keepsC_bind; [destruct (D.gtb _ _); [apply keepsC_base; keep|apply keepsC_ret]|intros _].
  apply keepsC_get. intros c1 Hc1. apply keepsC_bind; [|intros _; apply keepsC_modify; intros c2 H2; by destruct (_ && _)].
  destruct (_ && _); [|apply keepsC_ret]. apply keepsC_bind; [by apply keepsC_modify|intros _]. apply keepsC_base, keeps_extra_ec.
Qed.

Lemma keepsC_UpdateAudioBitrate : keepsC UpdateAudioBitrate.
Proof.
  unfold UpdateAudioBitrate. apply keepsC_the. intros s Hs. change (id s) with s. destruct (encoder (audio s)) as [en|]; [|apply keepsC_ret].
  apply keepsC_bind; [apply keepsC_base, keeps_GetCurrentTime|intros time]. cbv zeta.
  apply keepsC_bind; [destruct (_ || _); [apply keepsC_base, keeps_fail|apply keepsC_ret]|intros _].
  apply keepsC_bind; [apply keepsC_base, keeps_link_safe, link_bandwidth|intros act]. apply keepsC_get. intros c Hc.
  apply keepsC_bind; [|intros _].
  { apply keepsC_base, keeps_get_bind. intros s1 Hs1. apply keeps_defined; [apply Hs1|intros e _; apply keeps_SetBitrate]. }
  apply keepsC_the. intros s1 _. apply keepsC_bind; [|intros _].
  { destruct (_ && _); [|apply keepsC_ret]. apply keepsC_bind; [|intros _].
    - apply keepsC_base, keeps_bind; [apply keeps_SetState|intros _; apply keeps_set_needRate].
    - apply keepsC_bind; [by apply keepsC_modify|intros _; apply keepsC_base, keeps_ResetUdpAvailability]. }
  apply keepsC_the. intros s2 _. destruct (_ && _); [apply keepsC_base, keeps_receive_timeout|apply keepsC_ret].
Qed.

Lemma late_count_some j : inv j → is_Some (JitterBuffer.GetAverageLateCount j).
Proof.
  intros [_ _ [Hw Hs] _ _]. unfold JitterBuffer.GetAverageLateCount.
  assert (∀ k, (k ≤ 64)%nat → is_Some (HistoricBuffer.AverageN (A := double) (JitterBuffer.lateHistory j) k)) as H.
  { intros k Hk. unfold HistoricBuffer.AverageN.
    assert (is_Some (mapM (λ i : nat, HistoricBuffer.index (JitterBuffer.lateHistory j) (Z.of_nat i)) (List.seq 0 k))) as [l ->]; [|by eexists].
    apply mapM_is_Some. apply Forall_forall. intros i Hi. apply list_elem_of_In, in_seq in Hi. apply index_is_Some; [done|lia]. }
  destruct (H 32%nat) as [x ->]; [lia|]. destruct (H 16%nat) as [y ->]; [lia|]. by eexists.
Qed.
Lemma keepsC_all_late_bars k l : Forall stream_ok l → keepsC (all_late_bars k l).
Proof.
  intros Hl. revert k. induction Hl as [|st l [Hj _] Hl IH]; intros k; cbn [all_late_bars]; [apply keepsC_ret|].
  destruct (jitterBuffer st) as [j|]; [|apply IH]. apply keepsC_defined; [by apply late_count_some, Hj|intros late _; apply IH].
Qed.
Lemma wp_at_base k e c (Q : Endpoint.t → Call.t → Prop) T D : OMap.find k (Endpoints.endpoints (routes (base c))) = Some e →
  Q e c → wp (on_base (on_routes (Endpoints.at_ k))) c Q T D.
Proof.
  intros He HQ. apply wp_zoom, wp_zoom, wp_at; [|intros E; by rewrite E in He]. intros e' E. rewrite He in E. injection E as <-.
  assert (c <| base := base c <| routes := routes (base c) |> |> = c) as ->; [|done]. destruct c as [s]. by destruct s.
Qed.
Lemma keepsC_UpdateSignalBars : keepsC UpdateSignalBars.
Proof.
  intros c Hc. pose proof Hc as [Hb _]. unfold UpdateSignalBars. apply wp_bind, wp_get. cbv zeta. apply wp_bind.
  destruct (packetsPerSec_some (base c) Hb) as [per Hper]. eapply wp_defined; [exact Hper|]. apply wp_bind.
  pose proof Hb as [_ _ [_ [e He] _ _] _ _ Hin _ _ _]. eapply wp_at_base; [exact He|].
  match goal with |- wp ?m c _ _ _ => cut (keepsC m); [intros Hk; by apply Hk|] end.
  apply keepsC_bind; [by apply keepsC_all_late_bars|intros k]. apply keepsC_bind; [by apply keepsC_modify|intros _].
  apply keepsC_get. intros c1 _. destruct (negb _); [by apply keepsC_modify|apply keepsC_ret].
Qed.

(** ** The message thread *)

Lemma keepsC_perform f : keepsC (perform f).
Proof.
  destruct f; cbn [perform].
  - by apply keepsC_modify.
  - apply keepsC_UpdateRTT.
  - apply keepsC_UpdateAudioBitrate.
  - apply keepsC_UpdateCongestion.
  - apply keepsC_UpdateSignalBars.
  - apply keepsC_Tick.
  - apply keepsC_base, keeps_SendNopPacket.
  - apply keepsC_base, keeps_UpdateQueuedPackets.
  - apply keepsC_base. keep. by apply keeps_SendInit.
  - apply keepsC_base. keep. apply keeps_SendPublicEndpointsRequest.
  - apply keepsC_SendUdpPings.
  - apply keepsC_Evaluate.
  - apply keepsC_base, keeps_SendRelayPings.
  - apply keepsC_base, keeps_fail.
  - apply keepsC_base, keeps_link_modify. by intros l [].
  - apply keepsC_base. keep. apply keeps_SetState.
  - apply keepsC_base, keeps_SetState.
  - apply keepsC_ret.
  - apply keepsC_ret.
  - apply keepsC_ret.
Qed.
Lemma keepsC_run_message m : keepsC (run_message m).
Proof.
  unfold run_message. apply keepsC_bind; [apply keepsC_base; keep|intros _]. apply keepsC_bind; [by apply keepsC_modify|intros _].
  apply keepsC_bind; [apply keepsC_perform|intros _]. apply keepsC_get. intros c _.
  destruct (_ && _); [apply keepsC_base; keep|apply keepsC_ret].
Qed.

(** ** Audio input *)

Lemma frames_remember l d : frames_ok l → zlen d ≤ 128 → frames_ok (drop (length (l ++ [d]) - 4) (l ++ [d])).
Proof.
  intros [Hl Hf] Hd. split; [rewrite length_drop; lia|]. apply Forall_drop, Forall_app_2; [done|by apply Forall_singleton].
Qed.
Lemma keepsC_remember d : zlen d ≤ 128 → keepsC (remember_ec d).
Proof. intros Hd. apply keepsC_modify. intros c [Hb Hf]. split; [done|]. by apply frames_remember. Qed.
Lemma writes_frames l : Forall (λ d, zlen d ≤ 128) l → writes (129 * Z.of_nat (length l)) (write_frames l).
Proof.
  induction 1 as [|d l Hd Hl IH]; cbn [write_frames]; [by apply writes_ret|].
  apply writes_le with (1 + (zlen d + 129 * Z.of_nat (length l))); [cbn [length]; lia|]. pose proof (zlen_nonneg d).
  apply writes_bind; [lia|apply writes_Byte|]. apply writes_bind; [lia|apply writes_Bytes|exact IH].
Qed.
Lemma writes_ec c : frames_ok (ecAudioPackets c) → writes 600 (write_ec c).
Proof.
  intros [Hl Hf]. unfold write_ec. cbv zeta. set (l := drop _ _).
  assert (length l ≤ 4)%nat as Hl' by (subst l; rewrite length_drop; lia). assert (Forall (λ d, zlen d ≤ 128) l) as Hf' by by apply Forall_drop.
  apply writes_le with (1 + 129 * Z.of_nat (length l)); [lia|]. apply writes_bind; [lia|apply writes_Byte|]. by apply writes_frames.
Qed.
Lemma writes_audio_packet fec frame c : zlen frame ≤ 4096 → frames_ok (ecAudioPackets c) → writes 5000 (audio_packet fec frame c).
Proof.
  intros Hf Hc. pose proof (zlen_nonneg frame). unfold audio_packet. cbv zeta.
  apply writes_le with (1 + (2 + (4 + (zlen frame + 600)))); [lia|].
  apply writes_bind; [lia|apply writes_Byte|]. apply writes_bind; [lia| |].
  { destruct (_ || _); [apply writes_Int16|]. apply writes_le with 1; [lia|apply writes_Byte]. }
  apply writes_bind; [lia|apply writes_Int32|]. apply writes_bind; [lia|apply writes_Bytes|].
  destruct fec; [by apply writes_ec|by apply writes_ret].
Qed.
Lemma keepsC_writes {X} k N m (f : bytes → M Call.t X) :
  0 ≤ k ≤ 65536 → 0 ≤ N ≤ 1048576 → writes N m → (∀ d, zlen d ≤ N → keepsC (f d)) → keepsC (built (BufferOutputStream.ctor k) m ≫= f).
Proof. intros Hk HN Hm Hf c Hc. apply wp_bind. eapply wp_built; [done..|]. intros d Hd. by apply Hf. Qed.

Lemma keepsC_reset_stalled : keepsC reset_stalled.
Proof.
  unfold reset_stalled. apply keepsC_get. intros c Hc. apply keepsC_bind; [by apply keepsC_modify|intros _].
  apply keepsC_get. intros c1 H1. destruct (_ && _); [|apply keepsC_ret]. apply keepsC_modify. intros c2 [[] Hf].
  split; [|done]. by constructor.
Qed.
Lemma keepsC_HandleAudioInput frame secondary :
  (∀ k, CongestionControl.positive (clock k) = true ∧ CongestionControl.finite_time (clock k) = true) →
  zlen frame ≤ 4096 → zlen secondary ≤ 128 → keepsC (HandleAudioInput frame secondary).
Proof.
  intros Hclock Hf Hsec. unfold HandleAudioInput. apply keepsC_get. intros c0 _. destruct (stopping (base c0)); [apply keepsC_ret|].
  apply keepsC_bind; [apply keepsC_reset_stalled|intros _]. apply keepsC_get. intros c1 [Hb1 _]. cbv zeta.
  destruct (_ || _); [apply keepsC_ret|]. destruct (negb (receivedInitAck _)); [apply keepsC_ret|].
  set (fec := _ && shittyInternetMode c1). clearbody fec.
  apply keepsC_bind; [destruct fec; [by apply keepsC_remember|apply keepsC_ret]|intros _].
  apply keepsC_get. intros c2 [_ Hfr2].
  apply (keepsC_writes 1500 5000); [lia..|by apply writes_audio_packet|intros pkt Hpkt].
  apply keepsC_bind; [apply keepsC_base; keep|intros _]. apply keepsC_bind; [apply keepsC_base, keeps_GenerateOutSeq|intros sq].
  apply keepsC_bind; [by apply keepsC_base, keeps_link_safe, link_conctl_sent|intros _].
  apply keepsC_bind; [apply keepsC_base, keeps_SendOrEnqueuePacket; [lia|cbn; lia|by left]|intros _].
  apply keepsC_defined.
  { destruct (po_out _ _ _ _ _ _ _ _ _ _ _ _ _ Hb1) as [H _]. destruct (outgoingStreams (base c1)); [simpl in H; lia|by eexists]. }
  intros st _. apply keepsC_bind; [|intros _; by apply keepsC_modify]. destruct (_ && _); [|apply keepsC_ret].
  apply keepsC_bind; [by apply keepsC_remember|intros _]. apply keepsC_get. intros c3 [_ Hfr3].
  apply (keepsC_writes 1500 (1 + (4 + 600))); [lia..| |].
  - apply writes_bind; [lia|apply writes_Byte|]. apply writes_bind; [lia|apply writes_Int32|]. by apply writes_ec.
  - intros d Hd. apply keepsC_base. apply keeps_send_new; [lia|lia|by left].
Qed.
End timers.
