(* ===== verification/CallRun.v ===== *)
(** * A call while it lasts: every interleaving

    What can happen to a call that was set up: a datagram arrives, the
    message thread runs a message, the encoder hands over a frame of audio,
    the program asks for something.  One event is handled after the other;
    in which order they come is free.  [reachable] are the states they lead
    to. *)

From Stdlib Require Import ZArith Lia SpecFloat List.
From stdpp Require Import base tactics list numbers option gmap strings.
From S2P Require Import Prelude Words Double History Memory Buffers Streams Seq Congestion Link Net Wire Packet.
From S2P Require Import Jitter Reassembler Endpoints Controller Setup Incoming Timers Api CallSafety ReceiveSafety.
From S2P Require Import SetupSafety TimerSafety.
From stdpp Require Import list.
Open Scope Z_scope.

(* ------------------------------------------------------------------ *)
(** ** Requests of the program *)

Section requests.
Context {CF : CryptoFunctions} {CL : CryptoLaws} {CK : Clock} {RD : Random} {SC : ServerConfig} {HO : Host}.
Context (A V U W : Prop) (n : nat) (b : bool).
Hypothesis (Hn : (n ≤ 100)%nat).
Import Packet Controller Call Api.
#[local] Abbreviation C := Controller.t.
#[local] Abbreviation keeps := (keeps A V U W n b []).
#[local] Abbreviation gives := (gives A V U W n b []).

Lemma gives_mute_streams mute l : gives (λ l', length l' = length l) (mute_streams mute l).
Proof.
  induction l as [|st l IH]; cbn [mute_streams]; [by apply gives_ret|].
  apply gives_bind.
  { destruct (_ =? _); [|apply keeps_ret]. cbv zeta. apply keeps_get_bind. intros s Hs.
    apply keeps_bind; [|intros _; apply keeps_ret]. destruct (_ <? 6).
    - apply keeps_SendPacketReliably. unfold zlen; simpl; lia.
    - by apply keeps_SendStreamFlags. }
  intros st'. intros s Hs. apply wp_bind. eapply wp_mono; [by apply IH|]. intros l' s' [Hl Hs']. apply wp_ret. split; [|done].
  simpl. by rewrite Hl.
Qed.
Lemma keeps_SetMicMute mute : keeps (SetMicMute mute).
Proof.
  unfold SetMicMute. apply keeps_get_bind. intros s Hs. destruct (Bool.eqb _ _); [apply keeps_ret|].
  apply keeps_bind; [keep|intros _]. apply keeps_bind; [keep|intros _]. destruct (_ && _).
  { apply keeps_bind; [keep|intros _]. unfold enter_state. keep. }
  apply keeps_bind; [keep|intros _]. apply keeps_bind; [|intros _; keep].
  destruct (bool_decide _); [|apply keeps_ret].
  eapply keeps_gives; [apply gives_mute_streams|]. intros l Hl. apply keeps_modify. intros s1 []. constructor; try done.
  cbn. rewrite Hl. apply Hs.
Qed.
Lemma keeps_RequestCallUpgrade : keeps RequestCallUpgrade.
Proof. unfold RequestCallUpgrade. keep. by apply keeps_SendExtra. Qed.
Lemma keeps_DebugCtl request param : keeps (DebugCtl request param).
Proof.
  unfold DebugCtl. destruct (request =? 1); [keep; by apply keeps_SetBitrate|].
  destruct (request =? 2); [by apply keeps_SetPacketLoss|]. destruct (request =? 3); [|keep].
  apply keeps_bind; [by apply keeps_routes_flags|intros _]. apply keeps_bind; [apply keeps_get|intros s].
  apply (keeps_writes A V U W n b [] 4 4); [lia..|apply writes_Int32|]. intros d Hd. apply keeps_SendPacketReliably. lia.
Qed.
Lemma keeps_Stop : keeps Stop.
Proof. unfold Stop. keep. apply keeps_audio. by intros a []. Qed.
End requests.

(* ------------------------------------------------------------------ *)
(** ** Events *)

Module Run.
Import Controller.

Inductive request :=
  | Mute (mute : bool)                 (** [SetMicMute] *)
  | Upgrade                            (** [RequestCallUpgrade] *)
  | Debug (request param : Z)          (** [DebugCtl] *)
  | StopCall.                          (** [Stop] *)
Inductive event :=
  | Datagram (p : Incoming.NetworkPacket)           (** the receive thread *)
  | Timer (m : message)                             (** the message thread *)
  | Microphone (frame secondary : bytes)            (** the encoder thread *)
  | Request (r : request).

Section run.
Context `{CryptoFunctions, Clock, Random, ServerConfig, Host}.

Definition ask (r : request) : M Controller.t unit :=
  match r with
  | Mute mute => SetMicMute mute
  | Upgrade => Api.RequestCallUpgrade
  | Debug request param => Api.DebugCtl request param
  | StopCall => Api.Stop
  end.
Definition handle (e : event) : M Call.t unit :=
  match e with
  | Datagram p => Call.on_base (Incoming.receive p)
  | Timer m => Call.run_message m
  | Microphone frame secondary => Call.HandleAudioInput frame secondary
  | Request r => Call.on_base (ask r)
  end.

(** The receive buffer has 1500 bytes; the first encoder writes into 4096
    bytes, the second into 128. *)
Definition event_ok (e : event) : Prop :=
  match e with
  | Datagram p => datagram_ok p
  | Microphone frame secondary => zlen frame ≤ 4096 ∧ zlen secondary ≤ 128
  | _ => True
  end.
(** How an event can end the program: the receive thread as in
    [receive_crash], the others by the conversion of a statistic that does
    not fit in an integer. *)
Definition may_crash (e : event) (c : Call.t) (x : crash) : Prop :=
  match e with Datagram _ => receive_crash (Call.base c) x | _ => x = BadCast end.

Context `{Platform}.
(** Set up with these arguments, then any events. *)
Inductive reachable (cfg : Config) (key : bytes) (out : bool) (l : list Endpoint.t) (p2p : bool) (ml : Z) : Call.t → Prop :=
  | reach_set_up b s supports :
      Setup.set_up cfg key out l p2p ml Setup.create = Ret b s → reachable cfg key out l p2p ml (Call.create s supports)
  | reach_step c e c' :
      reachable cfg key out l p2p ml c → event_ok e → handle e c = Ret tt c' → reachable cfg key out l p2p ml c'.
End run.
End Run.

(** The state of a call and what [HandleAudioInput] keeps. *)
Definition run_ok (c : Call.t) : Prop := call_ok (Call.base c) ∧ frames_ok (Call.ecAudioPackets c).

Section run.
Context {CF : CryptoFunctions} {CL : CryptoLaws} {CK : Clock} {RD : Random} {SC : ServerConfig} {HO : Host}.
Import Run.
Hypothesis Hclock : ∀ k, CongestionControl.positive (clock k) = true ∧ CongestionControl.finite_time (clock k) = true.
Hypothesis Hserver : server_ok.

Lemma wp_steady (m : M Call.t unit) c :
  (∀ n b, (n ≤ 100)%nat → keepsC False False True False n b m) → run_ok c →
  wp m c (λ _, run_ok) (λ _ _, False) (λ x, x = BadCast).
Proof.
  intros Hm [Hc Hf]. eapply wp_weaken; [apply (Hm (bound (Call.base c)) (Controller.receivedInit (Call.base c)))| | |].
  - unfold bound. destruct (Controller.receivedInit _); lia.
  - by split.
  - intros [] c' [Hc' Hf']. split; [|done]. unfold call_ok, bound. rewrite (po_init _ _ _ _ _ _ _ _ _ _ _ _ _ Hc'). exact Hc'.
  - by intros e c' [[] _].
  - by intros x [->|[[_ []]|[_ []]]].
Qed.
Lemma wp_handle e c : event_ok e → run_ok c → wp (handle e) c (λ _, run_ok) (λ _ _, False) (may_crash e c).
Proof.
  intros He Hc. destruct e as [p|m|frame secondary|r]; cbn [handle may_crash event_ok] in *.
  - destruct Hc as [Hc Hf]. apply wp_zoom. eapply wp_weaken; [by apply wp_receive| |done|done]. by intros [] s Hs.
  - apply wp_steady; [|done]. intros n b Hn. by apply keepsC_run_message.
  - destruct He. apply wp_steady; [|done]. intros n b Hn. by apply keepsC_HandleAudioInput.
  - apply wp_steady; [|done]. intros n b Hn. apply keepsC_base. destruct r; cbn [ask].
    + by apply keeps_SetMicMute.
    + by apply keeps_RequestCallUpgrade.
    + by apply keeps_DebugCtl.
    + apply keeps_Stop.
Qed.
End run.


(** The call of the example is set up, is stopped at once and a datagram
    arrives. *)
Section example.
#[local] Existing Instances example_random example_server example_host example_platform stopped Wire.toy_crypto Wire.toy_laws.
#[local] Abbreviation setting f := (f Setup.default_config (replicate 256 7) true [example_relay] false 92).
Definition example_set_up : option Controller.t :=
  match setting Setup.set_up Setup.create with Ret _ s => Some s | _ => None end.

Lemma example_set_up_some : is_Some example_set_up.
Proof.
  assert (match example_set_up with Some _ => true | None => false end = true) as H by (vm_compute; reflexivity).
  destruct example_set_up; [by eexists|done].
Qed.
Lemma example_reachable s : example_set_up = Some s → setting Run.reachable (Call.create s true).
Proof.
  unfold example_set_up. intros Hs. destruct (setting Setup.set_up Setup.create) as [b s'| |] eqn:E; [|done..].
  injection Hs as ->. by eapply Run.reach_set_up.
Qed.
Lemma example_remote : Forall remote_ok [example_relay].
Proof. apply Forall_singleton, remote_ctor; [done|done|]. by apply (bool_decide_unpack (5 ∉ lan_ids)). Qed.

End example.
