(* ===== verification/CallTypes.v ===== *)
(** * The counters of a call keep their types

    What [Timers] keeps outside [Controller]: the integers stay in their
    machine types whatever happens, and the program is told one to four
    signal bars. *)

From Stdlib Require Import ZArith Lia SpecFloat List.
From stdpp Require Import base tactics list numbers option gmap strings.
From S2P Require Import Prelude Words Double History Memory Buffers Streams Seq Congestion Link Net Wire Packet.
From S2P Require Import Jitter Reassembler Endpoints Controller Setup Incoming Timers Api CallSafety ReceiveSafety.
From S2P Require Import SetupSafety TimerSafety CallRun.
From stdpp Require Import list.
Open Scope Z_scope.

(* ------------------------------------------------------------------ *)
(** ** Bars *)

Definition bars (n : Z) : Prop := 1 ≤ n ≤ 4.
(** The window of the last four counts, 0 where there is none yet. *)
Record window_ok (h : HistoricBuffer.t Z) : Prop := {
  wo_wf : HistoricBuffer.wf h;
  wo_size : HistoricBuffer.size h = 4;
  wo_bars : Forall (λ n, n = 0 ∨ bars n) (HistoricBuffer.data h);
}.

Lemma bars_of_bars r w tcp avg : bars (Call.bars_of r w tcp avg).
Proof. unfold bars, Call.bars_of. repeat case_match; lia. Qed.
Lemma late_bars_bars n late : bars n → bars (Call.late_bars n late).
Proof. unfold bars, Call.late_bars. repeat case_match; lia. Qed.

(** The average of counts that are all there. *)
Lemma sum_bars l a : Forall bars l → a + zlen l ≤ foldl (λ s i, s + i) a l ≤ a + 4 * zlen l.
Proof.
  intros Hl. revert a. induction Hl as [|n l Hn Hl IH]; intros a; [unfold zlen; simpl; lia|].
  cbn [foldl]. rewrite zlen_cons. specialize (IH (a + n)). unfold bars in Hn. lia.
Qed.
Lemma average_bars h : Forall (λ n, n = 0 ∨ bars n) (HistoricBuffer.data h) → Exists bars (HistoricBuffer.data h) →
  bars (HistoricBuffer.NonZeroAverage (H := uchar_int_ops) h).
Proof.
  intros Hf Hx. unfold HistoricBuffer.NonZeroAverage, HistoricBuffer.sum. cbv zeta.
  set (nz := filter _ _). assert (Forall bars nz) as Hnz.
  { apply Forall_forall. intros n [Hn Hin]%list_elem_of_filter. rewrite Forall_forall in Hf. cbn in Hn.
    destruct (Hf n Hin) as [->|]; [done|done]. }
  assert (nz ≠ []) as Hne.
  { intros E. apply Exists_exists in Hx as (n & Hin & Hn). assert (n ∈ nz) as H; [|rewrite E in H; by apply elem_of_nil in H].
    apply list_elem_of_filter. split; [|done]. cbn. unfold bars in Hn. destruct (Z.eqb_spec n 0); [lia|done]. }
  destruct nz as [|n nz'] eqn:E; [done|]. rewrite <- E in *. destruct (Nat.eqb_spec (length nz) 0) as [H0|H0]; [by rewrite E in H0|].
  cbn [a_div a_add a_zero uchar_int_ops]. pose proof (sum_bars nz 0 Hnz) as Hs. unfold zlen in Hs.
  unfold bars. rewrite Z.quot_div_nonneg by lia.
  split; [apply Z.div_le_lower_bound; lia|apply Z.lt_succ_r, Z.div_lt_upper_bound; lia].
Qed.
Lemma window_add n h : bars n → window_ok h →
  window_ok (HistoricBuffer.Add n h) ∧ Exists bars (HistoricBuffer.data (HistoricBuffer.Add n h)).
Proof.
  intros Hn [Hw Hs Hb]. pose proof (HistoricBuffer.wf_offset _ Hw) as Ho.
  assert (HistoricBuffer.data (HistoricBuffer.Add n h) =
    <[Z.to_nat (HistoricBuffer.offset h) := n]> (HistoricBuffer.data h)) as E.
  { unfold HistoricBuffer.Add. cbn [HistoricBuffer.data]. by rewrite zset_Some by exact Ho. }
  assert (HistoricBuffer.data (HistoricBuffer.Add n h) !! Z.to_nat (HistoricBuffer.offset h) = Some n) as El.
  { rewrite E. apply list_lookup_insert_eq. unfold HistoricBuffer.size, zlen in Ho. lia. }
  split; [constructor|].
  - by apply Add_wf.
  - by rewrite Add_size.
  - rewrite E. apply Forall_insert_same; [done|by right].
  - apply Exists_exists. exists n. split; [by eapply list_elem_of_lookup_2|done].
Qed.

(* ------------------------------------------------------------------ *)
(** ** The counters *)

Record typed (c : Call.t) : Prop := {
  ty_timestamp : is_u32 (Call.audioTimestampOut c);
  ty_lost : is_u32 (Call.recvLossCount c);
  ty_level : 0 ≤ Call.extraEcLevel c ≤ 4;
  ty_window : window_ok (Call.signalBarsHistory c);
  ty_told : Forall bars (Call.barsReported c);
}.
Definition keeps_typed (c c' : Call.t) : Prop := typed c → typed c'.
#[export] Instance keeps_typed_preorder : PreOrder keeps_typed.
Proof. split; [by intros ? ?|]. unfold keeps_typed. auto. Qed.
#[local] Abbreviation along := (along keeps_typed).

Section events.
Context {CF : CryptoFunctions} {CK : Clock} {RD : Random} {SC : ServerConfig} {HO : Host}.
Import Call.

Lemma typed_create s supports : typed (Call.create s supports).
Proof.
  constructor; cbn; [lia..| |by apply Forall_nil]. constructor; [by apply ctor_HistoricBuffer_wf; lia|done|].
  apply Forall_replicate. by left.
Qed.
Lemma typed_base {X} (m : M Controller.t X) : along (on_base m).
Proof. apply along_zoom. by intros s c []. Qed.
Lemma typed_the {X} (f : Controller.t → X) : along (the f).
Proof. intros c. by apply wp_bind, wp_get, wp_ret. Qed.
(** A change of other members. *)
Lemma typed_modify f : (∀ c, typed c → typed (f c)) → along (modify f).
Proof. intros Hf. apply along_modify. exact Hf. Qed.

#[local] Ltac types :=
  repeat first [apply typed_base | apply typed_the | along_step]; try solve [intros []; by constructor].

Lemma typed_SendUdpPings : along SendUdpPings.
Proof. unfold SendUdpPings. types. Qed.
Lemma typed_Evaluate : along EvaluateUdpPingResults.
Proof. unfold EvaluateUdpPingResults. types. Qed.
Lemma typed_jitter_buffers {X} (m : M JitterBuffer.t X) f dn l : (∀ x, along (f x)) → along (jitter_buffers m f dn l).
Proof.
  intros Hf. revert dn. induction l as [|st l IH]; intros dn; cbn [jitter_buffers]; [by apply along_ret; exact _|].
  destruct (Controller.jitterBuffer st) as [j|]; [|apply IH]. destruct (m j); [|intros c0; exact id|by apply along_crash].
  apply along_bind; [exact _|apply typed_base|intros _]. apply along_bind; [exact _|apply Hf|intros _; apply IH].
Qed.
Lemma typed_each_jitter_buffer {X} (m : M JitterBuffer.t X) f : (∀ x, along (f x)) → along (each_jitter_buffer m f).
Proof. intros Hf. unfold each_jitter_buffer. apply along_bind; [exact _|apply typed_the|intros l]. by apply typed_jitter_buffers. Qed.
Lemma typed_Tick : along Tick.
Proof.
  unfold Tick. apply along_bind; [exact _|apply typed_each_jitter_buffer; intros x; by apply along_ret; exact _|intros _; apply typed_base].
Qed.
Lemma typed_UpdateRTT : along UpdateRTT.
Proof.
  unfold UpdateRTT. repeat first [apply typed_base | apply typed_the | apply typed_each_jitter_buffer; intros lost | along_step].
  intros []. destruct (_ || _); constructor; try done. apply u32_range.
Qed.
Lemma loss_level_range avg l : (loss_level avg).2 = Some l → 0 ≤ l ≤ 4.
Proof. unfold loss_level. repeat case_match; cbn; intros [= <-]; lia. Qed.
Lemma typed_UpdateCongestion : along UpdateCongestion.
Proof.
  unfold UpdateCongestion. apply along_bind; [exact _|apply typed_the|intros c]. destruct (Controller.encoder _); [|by apply along_ret; exact _].
  apply along_bind; [exact _|by apply typed_modify; intros c' []|intros _]. apply along_bind; [exact _|by apply along_defined; exact _|intros per].
  apply along_bind; [exact _|by apply along_get; exact _|intros c1]. cbv zeta. apply along_bind; [exact _|types|intros _].
  pose proof (loss_level_range (avgSendLossCount c1 per)) as Hl. destruct (loss_level _) as [loss level]. cbn [snd] in Hl.
  apply along_bind; [exact _|apply typed_base|intros _]. apply along_bind; [exact _| |intros _].
  { destruct level as [l|]; [|by apply along_ret; exact _]. apply typed_modify. intros c' []. constructor; try done. by apply Hl. }
  types. intros []. by destruct (_ && _).
Qed.
Lemma typed_UpdateAudioBitrate : along UpdateAudioBitrate.
Proof. unfold UpdateAudioBitrate. types. Qed.

Lemma wp_all_late_bars l n c : bars n →
  wp (all_late_bars n l) c (λ k c', bars k ∧ c' = c) (λ _ _, False) (λ _, True).
Proof.
  revert n. induction l as [|st l IH]; intros n Hn; cbn [all_late_bars]; [by apply wp_ret|].
  destruct (Controller.jitterBuffer st) as [j|]; [|by apply IH]. apply wp_bind. unfold wp at 1, defined.
  destruct (JitterBuffer.GetAverageLateCount j) as [late|]; [|done]. apply IH. by apply late_bars_bars.
Qed.
Lemma typed_UpdateSignalBars : along UpdateSignalBars.
Proof.
  unfold UpdateSignalBars. apply along_bind; [exact _|by apply along_get; exact _|intros c0]. cbv zeta.
  apply along_bind; [exact _|by apply along_defined; exact _|intros per]. apply along_bind; [exact _|apply typed_base|intros cur].
  intros c. apply wp_bind. eapply wp_weaken; [apply wp_all_late_bars, bars_of_bars| |done|done].
  intros n c' [Hn ->]. apply wp_bind, wp_modify, wp_bind, wp_get.
  assert (u8 n = n) as -> by (apply u8_small; unfold bars in Hn; lia).
  match goal with |- context [GetSignalBarsCount ?x] => set (c1 := x) end.
  assert (typed c → typed c1 ∧ bars (GetSignalBarsCount c1)) as H.
  { intros [H1 H2 H3 H4 H5]. destruct (window_add n _ Hn H4) as [Hw Hx]. split; [by constructor|].
    apply average_bars; [apply Hw|exact Hx]. }
  clearbody c1. destruct (negb _); [apply wp_modify|apply wp_ret; intros Hc; by apply H].
  intros Hc. destruct (H Hc) as [[] Hb]. constructor; try done. by constructor.
Qed.

Lemma typed_run_message m : along (run_message m).
Proof.
  unfold run_message. apply along_bind; [exact _|apply typed_base|intros _]. apply along_bind; [exact _|by apply typed_modify; intros c []|intros _].
  apply along_bind; [exact _| |intros _; types].
  destruct (Controller.m_task m); cbn [perform]; first [apply typed_base | apply typed_UpdateRTT | apply typed_UpdateAudioBitrate | apply typed_UpdateCongestion
    | apply typed_UpdateSignalBars | apply typed_Tick | apply typed_SendUdpPings | apply typed_Evaluate | by apply along_ret; exact _
    | by apply typed_modify; intros c []].
Qed.
Lemma typed_built {X} o (m : M BufferOutputStream.t unit) (f : bytes → M Call.t X) : (∀ d, along (f d)) → along (built o m ≫= f).
Proof.
  intros Hf. apply along_bind; [exact _| |exact Hf]. intros c. unfold wp, built, with_stream, on_stream, gets, mbind, M_bind, map_state.
  by destruct (m o).
Qed.
Lemma typed_HandleAudioInput frame secondary : along (HandleAudioInput frame secondary).
Proof.
  unfold HandleAudioInput, reset_stalled, remember_ec.
  repeat first [apply typed_base | apply typed_the | apply typed_built; intros ? | along_step];
    intros []; constructor; try done; apply u32_range.
Qed.
Lemma typed_handle e : along (Run.handle e).
Proof.
  destruct e; cbn [Run.handle]; first [apply typed_base | apply typed_run_message | apply typed_HandleAudioInput].
Qed.
End events.

(** C5. From a call that was set up, whatever events follow: the counters
    stay in their machine types, the level of error correction in 0..4, every
    count in the window of signal bars in 1..4 (0 before there are four), and
    whenever the program is told a number of bars it is 1, 2, 3 or 4. *)
Theorem counters_are_typed `{CryptoFunctions, Clock, Random, ServerConfig, Host, Platform} cfg key out l p2p ml c :
  Run.reachable cfg key out l p2p ml c → typed c.
Proof.
  induction 1 as [b s supports E|c e c' Hr IH He E]; [apply typed_create|].
  pose proof (typed_handle e c) as Hh. unfold wp in Hh. rewrite E in Hh. by apply Hh.
Qed.

Section example.
#[local] Existing Instances example_random example_server example_host example_platform stopped Wire.toy_crypto Wire.toy_laws.
Lemma counters_are_typed_witness : ∃ s, example_set_up = Some s ∧ typed (Call.create s true).
Proof.
  destruct example_set_up_some as [s Hs]. exists s. split; [done|].
  apply (counters_are_typed Setup.default_config (replicate 256 7) true [example_relay] false 92). by apply example_reachable.
Defined.
End example.
