(* ===== verification/CallErrors.v ===== *)
(** * What a call does not survive

    The key of a group call: a request of the program that the protocol code
    cannot carry out. *)

From Stdlib Require Import ZArith Lia SpecFloat List.
From stdpp Require Import base tactics list numbers option gmap strings.
From S2P Require Import Prelude Words Double History Memory Buffers Streams Seq Congestion Link Net Wire Packet.
From S2P Require Import Jitter Reassembler Endpoints Controller Setup Incoming Timers Api CallSafety ReceiveSafety.
From S2P Require Import SetupSafety TimerSafety CallRun.
From stdpp Require Import list.
Open Scope Z_scope.

(* ------------------------------------------------------------------ *)
(** ** Headers with an extra that is too long *)

Section long.
Context {CK : Clock}.
Import Packet BufferOutputStream.
#[local] Abbreviation aborts := (λ c, c = AssertFailed).
Definition long (x : Link.UnacknowledgedExtraData) : Prop := 254 < zlen (Link.x_data x).
(** Of a size the memory can hold. *)
Definition extras_fit (xs : list Link.UnacknowledgedExtraData) : Prop :=
  Forall (λ x, zlen (Link.x_data x) ≤ 1048576) xs ∧ zlen xs ≤ 65536.

Lemma wp_write_extra_list_long xs d o (Q : unit → t → Prop) T :
  grows d o → Exists long xs → Forall (λ x, zlen (Link.x_data x) ≤ 1048576) xs → zlen d + 1048576 * zlen xs ≤ 549755813888 →
  wp (write_extra_list xs) o Q T aborts.
Proof.
  intros Hg Hx Hf. revert d o Hg. induction Hf as [|x xs Hd Hf IH]; intros d o Hg Hz; [by apply Exists_nil in Hx|].
  cbn [write_extra_list]. rewrite zlen_cons in Hz. pose proof (zlen_nonneg xs). pose proof (zlen_nonneg (Link.x_data x)). apply wp_bind. unfold wp at 1, assert_.
  destruct (Z.leb_spec (zlen (Link.x_data x)) 254) as [Hle|]; [|done].
  apply Exists_cons in Hx as [Hx|Hx]; [unfold long in Hx; lia|].
  apply wp_bind. eapply wp_WriteByte; [done|zl|intros o1 Hg1]. apply wp_bind. eapply wp_WriteByte; [done|zl|intros o2 Hg2].
  apply wp_bind. eapply wp_WriteBytes; [done|zl|intros o3 Hg3]. eapply IH; [done..|zl].
Qed.
Lemma wp_write_extras_long pseq d o l (Q : unit → t * Link.t → Prop) T :
  grows d o → Exists long (Link.currentExtras l) → extras_fit (Link.currentExtras l) → zlen d ≤ 2097152 →
  wp (write_extras pseq) (o, l) Q T aborts.
Proof.
  intros Hg Hx [Hf Hz] Hd. unfold write_extras. apply wp_bind, wp_on_self. unfold Link.extras_for_header.
  apply wp_bind, wp_gets, wp_bind, wp_modify, wp_ret. destruct (Link.currentExtras l) as [|x xs] eqn:E; [by apply Exists_nil in Hx|].
  apply wp_on_stream, wp_bind. eapply wp_WriteByte; [done|zl|intros o1 Hg1].
  apply wp_bind. eapply wp_WriteByte; [done|zl|intros o2 Hg2]. eapply wp_write_extra_list_long; [done..|]. zl.
Qed.

(** No packet can be made any more. *)
Lemma wp_packet_long c rand pkt l (Q : bytes → Link.t → Prop) T :
  carries c = true → zlen rand ≤ 1048576 → Exists long (Link.currentExtras l) → extras_fit (Link.currentExtras l) →
  wp (packet c rand pkt) l Q T aborts.
Proof.
  intros Hc Hr Hx Hf. unfold packet. apply wp_with_stream, wp_bind. unfold WritePacketHeader. pose proof (grows_ctor 1500 ltac:(lia)) as Hg.
  pose proof (zlen_nonneg rand) as H0. apply wp_bind, wp_on_self, wp_get, wp_bind. unfold carries in Hc. destruct (Wire.shortFormat c) eqn:Es.
  - apply wp_bind, wp_on_stream, wp_bind. eapply wp_WriteByte; [done|zl|intros o1 Hg1].
    eapply wp_write_numbers; [done|zl|intros o2 Hg2]. eapply wp_write_extras_long; [done..|].
    pose proof (zlen_numbers l (Link.p_seq pkt)). zl.
  - cbn [orb] in Hc. apply andb_true_iff in Hc as [Hw ->]. apply negb_true_iff in Hw. rewrite Hw.
    apply wp_bind, wp_on_stream, wp_bind. eapply wp_WriteInt32; [done|zl|intros o1 Hg1].
    apply wp_bind. eapply wp_write_random; [done|zl|intros o2 Hg2]. cbv zeta. apply wp_bind.
    set (n := u32 (u32 (Link.p_len pkt) + 13)). set (tl := if 0 <? n then tl_length_bytes n else []).
    eapply wp_mono with (Q' := λ _ o', grows (([] ++ le_bytes 4 (s32 TLID_SIMPLE_AUDIO_BLOCK)) ++ random_bytes rand ++ tl) o').
    { pose proof (zlen_random rand). subst tl. destruct (0 <? n).
      - eapply wp_write_tl_length; [done|zl|intros o3 Hg3]. by rewrite <- !app_assoc in *.
      - apply wp_ret. by rewrite app_nil_r. }
    assert (zlen tl ≤ 4) as Htl by (subst tl; destruct (0 <? n); [apply zlen_tl_length|zl]).
    pose proof (zlen_random rand). pose proof (zlen_numbers l (Link.p_seq pkt)).
    intros [] o3 Hg3. apply wp_bind. eapply wp_WriteByte; [done|zl|intros o4 Hg4].
    eapply wp_write_numbers; [done|zl|intros o5 Hg5]. eapply wp_write_extras_long; [done..|]. zl.
Qed.
End long.

(* ------------------------------------------------------------------ *)
(** ** Group keys *)

Section keys.
Context {CF : CryptoFunctions} {CL : CryptoLaws} {CK : Clock} {RD : Random} {SC : ServerConfig}.
Import Packet Controller.
Implicit Types s : Controller.t.

Lemma put_extra_long d ty l : 254 < zlen d → Exists long (Link.put_extra d ty l).
Proof.
  intros Hd. induction l as [|x l IH]; cbn [Link.put_extra]; [by apply Exists_cons; left|].
  destruct (_ =? _); apply Exists_cons; [by left|by right].
Qed.
Lemma length_put_extra d ty l : (length (Link.put_extra d ty l) ≤ S (length l))%nat.
Proof. induction l as [|x l IH]; cbn [Link.put_extra]; [done|]. destruct (_ =? _); simpl; lia. Qed.

(** The key is sent, then the next packet is made. *)
Definition key_then_packet (key rand : bytes) (pkt : Link.PendingOutgoingPacket) : M Controller.t bytes :=
  Api.SendGroupCallKey key;;
  s ← get;
  on_link (packet (conf s) rand pkt).

(** Both ends of the transfer. *)
Lemma sent_key_aborts key s rand pkt :
  link_ok (link s) → zlen key = 256 → has (peerCapabilities s) TGVOIP_PEER_CAP_GROUP_CALLS = true →
  didSendGroupCallKey s = false → Wire.isOutgoing (wire s) = true → carries (conf s) = true → zlen rand ≤ 1048576 →
  wp (key_then_packet key rand pkt) s (λ _ _, False) (λ _ _, False) (λ c, c = AssertFailed).
Proof.
  intros Hl Hk Hcap Hsent Hout Hc Hr. apply wp_bind. unfold Api.SendGroupCallKey. apply wp_bind, wp_get. rewrite Hcap, Hsent, Hout.
  cbn [negb]. apply wp_bind, wp_modify. unfold SendExtra. apply wp_zoom, wp_modify, wp_bind, wp_get, wp_zoom.
  assert (take 256 key = key) as -> by (apply take_ge; unfold zlen in Hk; lia).
  pose proof (sendable_count _ (link_sendable _ Hl)) as Hn. pose proof (length_put_extra key EXTRA_TYPE_GROUP_CALL_KEY (Link.currentExtras (link s))).
  apply wp_packet_long; [done|done|apply put_extra_long; lia|split].
  - apply put_extra_all; [|intros x _ _; cbn; lia|cbn; lia]. eapply Forall_impl; [exact (lo_extras _ Hl)|]. intros x [_ Hx]. lia.
  - unfold zlen in *. cbn. lia.
Qed.

Lemma key_never_received d s : wf_bytes d → zlen d ≤ 254 →
  wp (Incoming.ProcessExtraData (EXTRA_TYPE_GROUP_CALL_KEY :: d)) s
    (λ _ s', didReceiveGroupCallKey s' = didReceiveGroupCallKey s) (λ e s', e = OutOfRange ∧ didReceiveGroupCallKey s' = didReceiveGroupCallKey s)
    (λ _, False).
Proof.
  intros Hw Hd. unfold Incoming.ProcessExtraData. set (d' := EXTRA_TYPE_GROUP_CALL_KEY :: d).
  assert (BufferInputStream.rest (BufferInputStream.ctor d' (zlen d')) = d') as Hrest by done.
  assert (BufferInputStream.wf (BufferInputStream.ctor d' (zlen d'))) as Hwf by (apply ctor_wf; [by constructor|unfold d'; zl]).
  revert Hrest Hwf. generalize (BufferInputStream.ctor d' (zlen d')). intros i Hi Hwf. apply wp_with_stream, wp_bind, wp_on_stream.
  eapply wp_ReadByte; [done|exact Hi|]. clear i Hi Hwf. intros i Hwf Hi. cbv zeta.
  apply wp_bind, wp_on_self, wp_get. destruct (_ =? _); [by apply wp_ret|]. apply wp_bind, wp_on_self, wp_modify.
  cbn [Z.eqb Pos.eqb EXTRA_TYPE_GROUP_CALL_KEY EXTRA_TYPE_STREAM_FLAGS EXTRA_TYPE_STREAM_CSD EXTRA_TYPE_LAN_ENDPOINT EXTRA_TYPE_NETWORK_CHANGED].
  unfold Incoming.extra_group_call_key. apply wp_bind, wp_on_self, wp_get. destruct (_ || _); [by apply wp_ret|].
  apply wp_bind, wp_on_stream. unfold wp, BufferInputStream.ReadBytes. rewrite short_bind by (done || (rewrite Hi; lia)). by split.
Qed.
End keys.

(** C8. Group keys cannot be transferred.  Sending one in a call whose peer
    says it can take it puts an extra of 256 bytes in every header from then
    on, and making the next packet fails an assertion; an extra that arrives
    is read with a length of one byte, so at most 254 bytes follow its type,
    256 are asked for, and the key counts as never received. *)
Theorem group_key_is_never_transferred `{CryptoFunctions, Clock, ServerConfig} key (s : Controller.t) rand pkt d :
  link_ok (Controller.link s) → zlen key = 256 →
  Packet.has (Controller.peerCapabilities s) Controller.TGVOIP_PEER_CAP_GROUP_CALLS = true →
  Controller.didSendGroupCallKey s = false → Wire.isOutgoing (Controller.wire s) = true →
  Packet.carries (Controller.conf s) = true → zlen rand ≤ 1048576 → wf_bytes d → zlen d ≤ 254 →
  wp (key_then_packet key rand pkt) s
    (λ _ _, False) (λ _ _, False) (λ c, c = AssertFailed) ∧
  wp (Incoming.ProcessExtraData (Controller.EXTRA_TYPE_GROUP_CALL_KEY :: d)) s
    (λ _ s', Controller.didReceiveGroupCallKey s' = Controller.didReceiveGroupCallKey s)
    (λ e s', e = OutOfRange ∧ Controller.didReceiveGroupCallKey s' = Controller.didReceiveGroupCallKey s) (λ _, False).
Proof. intros. split; [by apply sent_key_aborts|by apply key_never_received]. Qed.

Section example.
#[local] Existing Instances example_random example_server stopped Wire.toy_crypto Wire.toy_laws.
Definition example_peer : Controller.t :=
  Controller.set_peerVersion 9 example_call <| Controller.peerCapabilities := Controller.TGVOIP_PEER_CAP_GROUP_CALLS |>.
Definition example_packet : Link.PendingOutgoingPacket := Link.mkpending 2 Packet.PKT_NOP 0 [] 0.

Lemma group_key_is_never_transferred_witness :
  wp (key_then_packet (replicate 256 1) (replicate 16 0) example_packet) example_peer (λ _ _, False) (λ _ _, False) (λ c, c = AssertFailed) ∧
  wp (Incoming.ProcessExtraData (Controller.EXTRA_TYPE_GROUP_CALL_KEY :: replicate 254 1)) example_peer
    (λ _ s', Controller.didReceiveGroupCallKey s' = Controller.didReceiveGroupCallKey example_peer)
    (λ e s', e = OutOfRange ∧ Controller.didReceiveGroupCallKey s' = Controller.didReceiveGroupCallKey example_peer) (λ _, False).
Proof.
  apply group_key_is_never_transferred; [|reflexivity..|done|apply Forall_replicate; lia|done].
  apply (po_link True 2 false [] _ _ _ _ _ _ _ _ _ example_call_ok).
Defined.
End example.
