(* ===== verification/TgClient.v ===== *)
(** * tg2sip/tg.h, tg.cpp: [tg::Client]

    Numbering of queries, the map of response handlers, the updates that are
    passed on, and the authorization dialogue.  A handler is either the
    authorization check, which only logs, or the completion of a promise
    made by [send_query_async].  What is handed to TDLib is recorded. *)

From Stdlib Require Import ZArith Lia String.
From stdpp Require Import base tactics numbers option strings gmap.
From S2P Require Import Prelude Words Settings Env Sip Machine Gateway.
From stdpp Require Import list.
Open Scope string_scope.
Open Scope list_scope.
Open Scope Z_scope.

Module TgClient.

Inductive auth_state :=
  | authorizationStateReady
  | authorizationStateWaitEncryptionKey
  | authorizationStateWaitTdlibParameters
  | authorizationStateOther.

Inductive proxy := addProxy (address : string) (port : Z) (user password : string) | disableProxy.

Record tdlibParameters := mkparams {
  p_api_id : Z; p_api_hash : string; p_database_directory : string;
  p_system_language_code : string; p_device_model : string; p_system_version : string;
  p_application_version : string; p_use_file_database : bool; p_use_chat_info_database : bool;
  p_use_message_database : bool; p_use_secret_chats : bool; p_enable_storage_optimizer : bool;
}.

(** A pointer that was moved out is null. *)
Inductive function :=
  | F_query (q : query)
  | F_checkDatabaseEncryptionKey
  | F_proxy (p : option proxy)
  | F_setTdlibParameters (p : option tdlibParameters).

Inductive object :=
  | O_response (r : response)
  | O_updateAuthorizationState (a : auth_state)
  | O_updateConnectionState
  | O_update (u : Gateway.tg_object)
  | O_other.

Inductive handler := H_auth | H_promise (p : nat).

Record client := mk {
  is_ready : option bool;                 (** the promise [is_ready_] *)
  current_query_id : Z;
  handlers : gmap Z handler;
  events : list Gateway.tg_object;
  lib_parameters : option tdlibParameters;
  set_proxy : option proxy;
  promises : gmap nat object;             (** promises that have a value *)
  next_promise : nat;
  sent : list (Z * function);             (** handed to TDLib, newest first *)
}.
#[export] Instance tgc_eta : Eta client := λ c,
  mk (is_ready c) (current_query_id c) (handlers c) (events c) (lib_parameters c) (set_proxy c)
     (promises c) (next_promise c) (sent c).

Definition init_lib_parameters (s : Settings.t) : tdlibParameters :=
  mkparams (Settings.api_id s) (Settings.api_hash s) (Settings.db_folder s)
    (Settings.sys_lang_code s) (Settings.device_model s) (Settings.system_version s)
    (Settings.app_version s) false true false false true.

Definition init_proxy (s : Settings.t) : proxy :=
  if Settings.proxy_enabled s
  then addProxy (Settings.proxy_address s) (Settings.proxy_port s)
                (Settings.proxy_username s) (Settings.proxy_password s)
  else disableProxy.

Definition ctor (s : Settings.t) : client :=
  mk None 0 ∅ [] (Some (init_lib_parameters s)) (Some (init_proxy s)) ∅ 0 [].

Definition next_query_id : M client Z := λ c,
  let n := u64 (current_query_id c + 1) in Ret n (c <| current_query_id := n |>).

(** [handlers.emplace] keeps an existing entry. *)
Definition emplace_handler (i : Z) (h : handler) (m : gmap Z handler) : gmap Z handler :=
  match m !! i with Some _ => m | None => <[i := h]> m end.

Definition send_query (f : function) (h : option handler) : M client unit :=
  query_id ← next_query_id;
  (match h with
   | Some h => modify (λ c, c <| handlers ::= emplace_handler query_id h |>)
   | None => mret tt
   end);;
  modify (λ c, c <| sent ::= cons (query_id, f) |>).

(** The promise's number stands for the future; from the client's own
    thread it rethrows with no exception in flight. *)
Definition send_query_async (own_thread : bool) (f : function) : M client nat :=
  if own_thread then crash_with UncaughtException
  else
    c ← get;
    let p := next_promise c in
    modify (λ c, c <| next_promise := S p |>);;
    send_query f (Some (H_promise p));;
    mret p.

(** [promise.set_value] throws when there is a value already; the async
    handler catches that. *)
Definition complete (p : nat) (o : object) (c : client) : client :=
  match promises c !! p with
  | Some _ => c
  | None => c <| promises ::= <[p := o]> |>
  end.
Definition set_ready (b : bool) : M client unit :=
  c ← get;
  match is_ready c with
  | Some _ => crash_with UncaughtException
  | None => modify (λ c, c <| is_ready := Some b |>)
  end.

Definition on_authorization_state_update (a : auth_state) : M client unit :=
  match a with
  | authorizationStateReady => set_ready true
  | authorizationStateWaitEncryptionKey =>
      send_query F_checkDatabaseEncryptionKey (Some H_auth);;
      c ← get;
      modify (λ c, c <| set_proxy := None |>);;
      send_query (F_proxy (set_proxy c)) (Some H_auth)
  | authorizationStateWaitTdlibParameters =>
      c ← get;
      modify (λ c, c <| lib_parameters := None |>);;
      send_query (F_setTdlibParameters (lib_parameters c)) (Some H_auth)
  | authorizationStateOther => set_ready false
  end.

Definition process_update (o : object) : M client unit :=
  match o with
  | O_updateAuthorizationState a => on_authorization_state_update a
  | O_updateConnectionState => mret tt
  | O_update u => modify (λ c, c <| events ::= λ l, l ++ [u] |>)
  | O_response _ | O_other => mret tt
  end.

(** [process_response(response)]; [None] is a null object. *)
Definition process_response (i : Z) (o : option object) : M client unit :=
  match o with
  | None => mret tt
  | Some o =>
      if i =? 0 then process_update o
      else
        c ← get;
        match handlers c !! i with
        | Some h =>
            modify (λ c, match h with H_auth => c | H_promise p => complete p o c end);;
            modify (λ c, c <| handlers ::= delete i |>)
        | None => mret tt
        end
  end.

End TgClient.

(* ================================================================== *)
Section tg.
Import TgClient.
Implicit Types (c : client).

(** A session: queries from other threads and responses from TDLib. *)
Inductive action := Ask (f : function) | Respond (i : Z) (o : option object).
Definition act_ (a : action) : M client unit :=
  match a with
  | Ask f => send_query_async false f;; mret tt
  | Respond i o => process_response i o
  end.

(** Promise [p] belongs to query [p + base]. *)
Record inv (base : Z) c : Prop := {
  inv_base : 0 ≤ base;
  inv_id : current_query_id c = base + Z.of_nat (next_promise c);
  inv_handlers : ∀ i p, handlers c !! i = Some (H_promise p) ↔
                 i = base + Z.of_nat p + 1 ∧ (p < next_promise c)%nat ∧ promises c !! p = None;
  inv_auth : ∀ i, handlers c !! i = Some H_auth → i ≤ base;
  inv_promises : ∀ p, (next_promise c ≤ p)%nat → promises c !! p = None;
}.

Lemma ask_inv base c f :
  inv base c → base + Z.of_nat (next_promise c) + 1 < 18446744073709551616 →
  ∃ c', send_query_async false f c = Ret (next_promise c) c' ∧ inv base c' ∧
    next_promise c' = S (next_promise c) ∧ promises c' = promises c ∧
    sent c' = (base + Z.of_nat (next_promise c) + 1, f) :: sent c.
Proof.
  intros [Hb Hid Hh Ha Hp] Hlt. unfold send_query_async, send_query, next_query_id.
  unfold mbind, M_bind, get, modify. cbn. rewrite Hid, u64_small by lia.
  set (q := base + Z.of_nat (next_promise c) + 1).
  assert (Hfree : handlers c !! q = None).
  { destruct (handlers c !! q) as [[|p]|] eqn:Hq; [apply Ha in Hq; lia|apply Hh in Hq; lia|done]. }
  eexists. split; [reflexivity|]. split; [|done].
  assert (He : emplace_handler q (H_promise (next_promise c)) (handlers c)
               = <[q := H_promise (next_promise c)]> (handlers c))
    by (unfold emplace_handler; by rewrite Hfree).
  constructor; cbn -[emplace_handler]; rewrite ?He; try done; try lia.
  - intros i p. destruct (decide (i = q)) as [->|Hne].
    + rewrite lookup_insert_eq. split; [intros [= <-]|intros (Heq & _ & _); f_equal; f_equal; lia].
      split_and!; [lia..|]. by apply Hp.
    + rewrite lookup_insert_ne by done. rewrite Hh. split; [|intros (? & ? & ?); split_and!; [done|lia|done]].
      intros (? & ? & ?). split_and!; [done|lia|done].
  - intros i. destruct (decide (i = q)) as [->|Hne]; [by rewrite lookup_insert_eq|].
    rewrite lookup_insert_ne by done. apply Ha.
  - intros p Hle. apply Hp. lia.
Qed.


(** A second authorization outcome stops the program: once [is_ready] has
    been resolved, a further [authorizationStateReady] or any state the
    client does not handle (logging out, closing, closed, ...) makes
    [set_value] throw in the client's thread, where nothing catches it. *)
Theorem second_authorization_result_terminates c b a :
  is_ready c = Some b →
  a = authorizationStateReady ∨ a = authorizationStateOther →
  process_response 0 (Some (O_updateAuthorizationState a)) c = Crash UncaughtException.
Proof.
  intros Hr [-> | ->]; unfold process_response, process_update, on_authorization_state_update, set_ready,
    mbind, M_bind, get; cbn; by rewrite Hr.
Qed.

Lemma second_authorization_result_terminates_witness :
  process_response 0 (Some (O_updateAuthorizationState authorizationStateOther))
    (ctor demo_settings <| is_ready := Some true |>) = Crash UncaughtException.
Proof.
  apply (second_authorization_result_terminates _ true); [reflexivity|by right].
Defined.

Lemma ctor_inv_tg s : inv 0 (ctor s).
Proof. constructor; try done. intros i p. simpl. rewrite lookup_empty. split; [done|lia]. Qed.

Definition asked : client :=
  match (send_query_async false (F_query (getUser 1));; send_query_async false (F_query (getUser 2)))
          (ctor demo_settings) with
  | Ret _ c => c
  | _ => ctor demo_settings
  end.

Lemma asked_inv : inv 0 asked.
Proof.
  destruct (ask_inv 0 (ctor demo_settings) (F_query (getUser 1)) (ctor_inv_tg _)) as (c1 & H1 & I1 & N1 & _);
    [simpl; lia|].
  destruct (ask_inv 0 c1 (F_query (getUser 2)) I1) as (c2 & H2 & I2 & _); [rewrite N1; simpl; lia|].
  unfold asked, mbind, M_bind. by rewrite H1, H2.
Qed.

End tg.
