(* ===== verification/Group.v ===== *)
(** * libtgvoip/VoIPGroupController.cpp: group calls

    A group call goes through one relay, the reflector, which signs what it
    delivers and tells from whom it is.  The controller of a group call is
    the controller of [Controller] with participants: their streams, an
    input of the mixer for each, and what was sent recently, to be
    acknowledged by the reflector.

    Streams are objects shared by a participant and the list of incoming
    streams: they live in a store, and lists of streams are lists of places
    in it.  The callback wrapper of a stream is named by its place.  AES in
    CBC mode is a parameter, and so are the functions of [Controller]. *)

From Stdlib Require Import ZArith Lia SpecFloat List.
From stdpp Require Import base tactics list numbers option gmap strings.
From S2P Require Import Prelude Words Double Single History Memory Buffers Streams Seq Congestion Link Net Wire Packet.
From S2P Require Import Jitter Samples Endpoints Controller Incoming Setup Timers.
From stdpp Require Import list.
Open Scope Z_scope.

(** [crypto.aes_cbc_encrypt] and [crypto.aes_cbc_decrypt]: a key of 32 bytes,
    an initial vector, the data. *)
Class CbcFunctions := {
  aes_cbc_encrypt : bytes → bytes → bytes → bytes;
  aes_cbc_decrypt : bytes → bytes → bytes → bytes;
}.
(** What is documented of them. *)
Class CbcLaws `{CbcFunctions} : Prop := {
  cbc_encrypt_length k v l : length (aes_cbc_encrypt k v l) = length l;
  cbc_encrypt_wf k v l : wf_bytes l → wf_bytes (aes_cbc_encrypt k v l);
  cbc_decrypt_length k v l : length (aes_cbc_decrypt k v l) = length l;
  cbc_decrypt_wf k v l : wf_bytes l → wf_bytes (aes_cbc_decrypt k v l);
}.

Module Group.
Import Packet Controller.
#[local] Abbreviation I := BufferInputStream.t.
#[local] Abbreviation C := Controller.t.

Definition PFLAG_HAS_SENDER_TAG_HASH : Z := 64.
Definition STREAM_FLAG_DTX : Z := 2.
Definition TLID_UDP_REFLECTOR_REQUEST_PACKETS_INFO : Z := 0x1a06fc96.
Definition TLID_UDP_REFLECTOR_LAST_PACKETS_INFO : Z := 0x0e107305.
Definition TLID_VECTOR : Z := 0x1cb5c415.

(** A stream with the members only group calls use. *)
Record GStream := mkstream { stream : Stream; owner : Z; callbackWrapper : option Z }.
#[global] Instance gstream_eta : Eta GStream := λ g, mkstream (stream g) (owner g) (callbackWrapper g).

(** [GroupCallParticipant]; [streams] are places in the store. *)
Record Participant := mkparticipant {
  userID : Z; memberTagHash : bytes; streams : list nat; levelMeter : AudioLevelMeter.t;
}.
#[global] Instance participant_eta : Eta Participant := λ p,
  mkparticipant (userID p) (memberTagHash p) (streams p) (levelMeter p).

(** [PacketIdMapping]. *)
Record PacketIdMapping := mkmapping { m_seq : Z; m_id : Z; m_ackTime : double }.
#[global] Instance mapping_eta : Eta PacketIdMapping := λ m, mkmapping (m_seq m) (m_id m) (m_ackTime m).

Record t := mk {
  base : C;
  store : list GStream;                     (** every stream that was made *)
  incoming : list nat;                      (** [incomingStreams] *)
  participants : list Participant;
  reflectorSelfTag : bytes;
  reflectorSelfSecret : bytes;
  reflectorSelfTagHash : bytes;             (** the 16 bytes that are set and used *)
  userSelfID : Z;
  groupReflector : Endpoint.t;
  inputs : AudioMixer.inputs;               (** of [audioMixer] *)
  mixing : bool;                            (** does the mixer run? *)
  encoderDTX : bool;
  selfLevelMeter : AudioLevelMeter.t;
  recentSentPackets : list PacketIdMapping;
  timeDifference : Z;
  wantsStreams : bool;                      (** is there a [groupCallbacks.updateStreams]? *)
  wantsAudioState : bool;                   (** [groupCallbacks.participantAudioStateChanged]? *)
  updates : list bytes;                     (** its calls, the last one first *)
  audioStates : list (Z * bool);
}.
#[global] Instance group_eta : Eta t := λ s,
  mk (base s) (store s) (incoming s) (participants s) (reflectorSelfTag s) (reflectorSelfSecret s) (reflectorSelfTagHash s)
     (userSelfID s) (groupReflector s) (inputs s) (mixing s) (encoderDTX s) (selfLevelMeter s) (recentSentPackets s)
     (timeDifference s) (wantsStreams s) (wantsAudioState s) (updates s) (audioStates s).

Definition on_base {X} : M C X → M t X := zoom base (λ c s, s <| base := c |>).

Section ops.
Context `{CryptoFunctions, CbcFunctions, Clock, Random, ServerConfig, Host, Platform, Libm}.

(** ** Setting up *)

(** The constructor around the controller's; [memset] clears the callbacks
    of the base class only, so those of the group are not initialised. *)
Definition create (difference : Z) : t := {|
  base := Setup.create; store := []; incoming := []; participants := [];
  reflectorSelfTag := uninitializedBytes 16; reflectorSelfSecret := uninitializedBytes 16;
  reflectorSelfTagHash := uninitializedBytes 16;
  userSelfID := 0;
  groupReflector := Endpoint.mk 0 0 Endpoint.noIPv4 Endpoint.noIPv6 Endpoint.UDP_P2P_INET (uninitializedBytes 16) D.zero 0
                      (HistoricBuffer.ctor 6) D.zero None 0;
  inputs := []; mixing := false; encoderDTX := false; selfLevelMeter := AudioLevelMeter.ctor;
  recentSentPackets := []; timeDifference := difference;
  wantsStreams := uninitializedBool; wantsAudioState := uninitializedBool; updates := []; audioStates := [];
|}.

Definition SetCallbacks (streams audioState : bool) : M t unit :=
  modify (λ s, s <| wantsStreams := streams |> <| wantsAudioState := audioState |>).

(** [SetGroupCallInfo]; the endpoint starts from a new one. *)
Definition SetGroupCallInfo (key groupTag selfTag selfSecret selfTagHash : bytes) (self : Z)
    (address v6 : NetworkAddress.t) (port : Z) : M t unit :=
  s ← get;
  let e := Endpoint.mk (FOURCC 71 82 80 82) port address v6 Endpoint.UDP_RELAY (take 16 groupTag) D.zero 0
             (HistoricBuffer.ctor 6) D.zero None 0 in
  on_base (on_routes (Endpoints.set_endpoint e));;
  modify (λ s, s <| groupReflector := e |>);;
  on_base (on_routes (modify (λ r, r <| Endpoints.currentEndpoint := Endpoint.id e |>)));;
  let digest := sha256 (take 256 key) in
  on_base (modify (λ c, let w := wire c in
    c <| wire := Wire.mkconfig (take 256 key) (take 8 (drop (Wire.SHA256_LENGTH - 16) digest)) (drop (Wire.SHA256_LENGTH - 16) digest)
           (Wire.isOutgoing w) (Wire.peerVersion w) (Wire.connectionMaxLayer w) (Wire.useMTProto2 w) (Wire.waiting w) |>));;
  modify (λ s, s <| reflectorSelfTag := take 16 selfTag |> <| reflectorSelfSecret := take 16 selfSecret |>
                 <| reflectorSelfTagHash := take 16 selfTagHash |> <| userSelfID := self |>).

(** ** Streams as bytes *)

(** One stream of a list that [DeserializeStreams] reads. *)
Definition read_stream : M I Stream :=
  len ← BufferInputStream.ReadInt16;
  inner ← BufferInputStream.GetPartBuffer (u16 len) true;
  with_stream inner (on_stream (
    i ← BufferInputStream.ReadByte;
    ty ← BufferInputStream.ReadByte;
    cdc ← BufferInputStream.ReadInt32;
    flags ← BufferInputStream.ReadInt32;
    duration ← BufferInputStream.ReadInt16;
    mret (new_stream <| s_id := i |> <| s_type := ty |> <| codec := u32 cdc |>
            <| enabled := has (u32 flags) STREAM_FLAG_ENABLED |> <| frameDuration := u16 duration |>))).
Fixpoint read_streams (n : nat) : M (I * list Stream) unit :=
  match n with
  | O => mret tt
  | S n' =>
      st ← on_stream read_stream;
      on_self (modify (λ l, l ++ [st]));;
      read_streams n'
  end.
(** The streams before the first error; [None] is undefined behaviour. *)
Definition DeserializeStreams (data : bytes) : option (list Stream) :=
  match (count ← on_stream BufferInputStream.ReadByte; read_streams (Z.to_nat count))
          (BufferInputStream.ctor data (zlen data), []) with
  | Ret _ (_, l) | Throw OutOfRange (_, l) => Some l
  | _ => None
  end.

Definition write_stream (st : Stream) : M BufferOutputStream.t unit :=
  BufferOutputStream.WriteByte (s_id st);;
  BufferOutputStream.WriteByte (s_type st);;
  BufferOutputStream.WriteInt32 (s32 (codec st));;
  BufferOutputStream.WriteInt32 (u8 (Z.lor (if enabled st then STREAM_FLAG_ENABLED else 0) STREAM_FLAG_DTX));;
  BufferOutputStream.WriteInt16 (s16 (frameDuration st)).
Fixpoint write_streams (l : list Stream) : M BufferOutputStream.t unit :=
  match l with
  | [] => mret tt
  | st :: l' =>
      o ← built (BufferOutputStream.ctor 128) (write_stream st);
      BufferOutputStream.WriteInt16 (s16 (zlen o));;
      BufferOutputStream.WriteBytes o;;
      write_streams l'
  end.
Definition SerializeStreams (l : list Stream) : M BufferOutputStream.t unit :=
  BufferOutputStream.WriteByte (u8 (zlen l));;
  write_streams l.
(** [SerializeAndUpdateOutgoingStreams]. *)
Definition SerializeAndUpdateOutgoingStreams : M t unit :=
  s ← get;
  out ← built (BufferOutputStream.ctor 1024) (SerializeStreams (outgoingStreams (base s)));
  if wantsStreams s then modify (λ s, s <| updates ::= cons out |>) else mret tt.

(** [GetInitialStreams(buf, size)], into a buffer of the caller. *)
Definition GetInitialStreams (size : Z) : M t bytes :=
  built (BufferOutputStream.ctor_provided size)
    (BufferOutputStream.WriteByte 1;;
     BufferOutputStream.WriteInt16 12;;
     BufferOutputStream.WriteByte 1;;
     BufferOutputStream.WriteByte STREAM_TYPE_AUDIO;;
     BufferOutputStream.WriteInt32 CODEC_OPUS;;
     BufferOutputStream.WriteInt32 (Z.lor STREAM_FLAG_ENABLED STREAM_FLAG_DTX);;
     BufferOutputStream.WriteInt16 60).

(** ** Participants *)

(** The packets a jitter buffer waits for at the start. *)
Definition initial_delay (frame : Z) : Z :=
  if 50 <? frame then u32 (GetInt "jitter_initial_delay_60"%string 2)
  else if 30 <? frame then u32 (GetInt "jitter_initial_delay_40"%string 4)
  else u32 (GetInt "jitter_initial_delay_20"%string 6).
Definition new_jitter_buffer (frame : Z) : M t JitterBuffer.t := λ s,
  match JitterBuffer.ctor (JitterBuffer.mkconfig GetInt GetDouble) poolAddress frame with
  | Ret _ j => Ret (JitterBuffer.SetMinPacketCount (initial_delay frame) j) s
  | Throw e _ => Throw e s
  | Crash c => Crash c
  end.

(** The loop over the streams of a new participant: the first usable one gets
    a decoder and an input of the mixer.  [audioStreamID] is the id of the
    one that did, [0] for none; the result are the places of the streams. *)
Fixpoint add_streams (user audioStreamID : Z) (l : list Stream) : M t (list nat) :=
  match l with
  | [] => mret []
  | st :: l' =>
      p ← gets (λ s, Datatypes.length (store s));
      let usable := (s_type st =? STREAM_TYPE_AUDIO) && (codec st =? CODEC_OPUS) && (audioStreamID =? 0) in
      g ← (if usable then
             j ← new_jitter_buffer (frameDuration st);
             modify (λ s, s <| inputs ::= AudioMixer.AddInput (Z.of_nat p) |>);;
             mret (mkstream (st <| jitterBuffer := Some j |> <| decoder := true |>) user (Some (Z.of_nat p)))
           else mret (mkstream st user None));
      modify (λ s, s <| store ::= λ m, m ++ [g] |> <| incoming ::= λ l, l ++ [p] |>);;
      ps ← add_streams user (if usable then s_id st else audioStreamID) l';
      mret (p :: ps)
  end.

(** [AddGroupCallParticipant(userID, memberTagHash, serializedStreams,
    streamsLength)]. *)
Definition AddGroupCallParticipant (user : Z) (tagHash serialized : bytes) : M t unit :=
  s ← get;
  if user =? userSelfID s then mret tt
  else if userSelfID s =? 0 then mret tt
  else if existsb (λ p, userID p =? user) (participants s) then crash_with AbortCalled
  else
    l ← defined (DeserializeStreams serialized);
    ps ← add_streams user 0 l;
    modify (λ s, s <| participants ::= λ m, m ++ [mkparticipant user (take 32 tagHash) ps AudioLevelMeter.ctor] |>).

(** The streams of a participant leave the list of incoming streams and the
    mixer; [decoder->Stop()] of a decoder without a thread does nothing. *)
Fixpoint remove_streams (user : Z) (l : list nat) : M t (list nat) :=
  match l with
  | [] => mret []
  | p :: l' =>
      s ← get;
      g ← defined (store s !! p);
      if owner g =? user then
        modify (λ s, s <| inputs ::= match callbackWrapper g with Some w => AudioMixer.RemoveInput w | None => id end |>);;
        if decoder (stream g) then remove_streams user l' else crash_with UndefinedBehaviour
      else l' ← remove_streams user l'; mret (p :: l')
  end.
Fixpoint erase_participant (user : Z) (l : list Participant) : list Participant :=
  match l with
  | [] => []
  | p :: l' => if userID p =? user then l' else p :: erase_participant user l'
  end.
Definition RemoveGroupCallParticipant (user : Z) : M t unit :=
  l ← gets incoming;
  l ← remove_streams user l;
  modify (λ s, s <| incoming := l |> <| participants ::= erase_participant user |>).

Definition find_participant (user : Z) (s : t) : option Participant :=
  List.find (λ p, userID p =? user) (participants s).
(** The first stream with an id among places. *)
Fixpoint place_of (i : Z) (m : list GStream) (l : list nat) : option nat :=
  match l with
  | [] => None
  | p :: l' => match m !! p with
               | Some g => if s_id (stream g) =? i then Some p else place_of i m l'
               | None => None
               end
  end.
Definition change (p : nat) (f : Stream → Stream) : M t unit :=
  modify (λ s, s <| store ::= alter (λ g, g <| stream ::= f |>) p |>).

(** [SetParticipantStreams]: the loop over the streams read. *)
Fixpoint set_enabled (user : Z) (places : list nat) (l : list Stream) : M t unit :=
  match l with
  | [] => mret tt
  | ns :: l' =>
      s ← get;
      match place_of (s_id ns) (store s) places with
      | Some p =>
          change p (λ st, st <| enabled := enabled ns |>);;
          if wantsAudioState s then modify (λ s, s <| audioStates ::= cons (user, enabled ns) |>) else mret tt
      | None => mret tt
      end;;
      set_enabled user places l'
  end.
Definition SetParticipantStreams (user : Z) (serialized : bytes) : M t unit :=
  s ← get;
  match find_participant user s with
  | None => mret tt
  | Some p =>
      l ← defined (DeserializeStreams serialized);
      set_enabled user (streams p) l
  end.

(** The volume in decibels for a factor between 0 and 2. *)
Definition volume_db (volume : float) : float :=
  if F.eqb volume F.zero then S754_infinity true
  else if F.ltb volume (F.of_Z 1) then F.mul (F.of_Z (-50)) (F.sub (F.of_Z 1) volume)
  else if F.ltb (F.of_Z 1) volume && F.leb volume (F.of_Z 2) then F.mul (F.of_Z 10) (F.sub volume (F.of_Z 1))
  else F.zero.
(** [SetParticipantVolume]: the first audio stream of the participant. *)
Definition SetParticipantVolume (user : Z) (volume : float) : M t unit :=
  s ← get;
  match find_participant user s with
  | None => mret tt
  | Some p =>
      gs ← defined (mapM (λ i, store s !! i) (streams p));
      match List.find (λ g, s_type (stream g) =? STREAM_TYPE_AUDIO) gs with
      | Some g =>
          if decoder (stream g) then
            modify (λ s, s <| inputs ::= match callbackWrapper g with
                                         | Some w => AudioMixer.SetInputVolume w (volume_db volume)
                                         | None => id
                                         end |>)
          else mret tt
      | None => mret tt
      end
  end.
Definition GetParticipantAudioLevel (user : Z) (s : t) : float :=
  if user =? userSelfID s then AudioLevelMeter.GetLevel (selfLevelMeter s)
  else match find_participant user s with
       | Some p => AudioLevelMeter.GetLevel (levelMeter p)
       | None => F.zero
       end.

(** ** State and audio *)

Definition OnAudioOutputReady : M t unit :=
  s ← get;
  if bool_decide (encoder (audio (base s)) = None) then crash_with UndefinedBehaviour
  else
    modify (λ s, s <| encoderDTX := true |> <| mixing := true |>);;
    if audioOutput (audio (base s)) then
      on_base (emit OutputStart;; on_audio (λ a, a <| playing := true |>);; modify (λ c, c <| audioOutStarted := true |>))
    else crash_with UndefinedBehaviour.

Definition SetMicMute (mute : bool) : M t unit :=
  on_base (modify (λ c, c <| micMuted := mute |>));;
  s ← get;
  let a := audio (base s) in
  (if audioInput a then on_base (emit (if mute then InputStop else InputStart)) else mret tt);;
  if audioInput a && negb (input_ok a) then on_base (fail ERROR_AUDIO_IO)
  else
    match outgoingStreams (base s) with
    | [] => crash_with UndefinedBehaviour
    | st :: l =>
        on_base (modify (λ c, c <| outgoingStreams := st <| enabled := negb mute |> :: l |>));;
        SerializeAndUpdateOutgoingStreams
    end.

(** [SetState] of the base class with the virtual [SetMicMute]. *)
Definition SetState (st : State) : M t unit :=
  on_base (enter_state st);;
  if bool_decide (st = STATE_ESTABLISHED) then
    s ← get;
    SetMicMute (micMuted (base s));;
    s ← get;
    if wasEstablished (base s) then mret tt
    else
      on_base (
        modify (λ c, c <| wasEstablished := true |>);;
        post UpdateRTT_ (D.of_dec 1 1) (D.of_dec 5 1);;
        post UpdateAudioBitrate_ D.zero (D.of_dec 3 1);;
        post UpdateCongestion_ D.zero (D.of_Z 1);;
        post UpdateSignalBars_ (D.of_Z 1) (D.of_Z 1);;
        post Tick_ D.zero (D.of_dec 1 1))
  else mret tt.

(** [SetNetworkType(type)] without a proxy; [active] is [activeNetItfName],
    [itf] the interface that is found, the result the one from now on. *)
Definition SetNetworkType (type : NetType) (active itf : string) : M t string :=
  on_base (modify (λ c, c <| networkType := type |>);; UpdateDataSavingState;; UpdateAudioBitrateLimit);;
  if String.eqb itf active then mret active
  else if String.eqb active EmptyString then mret itf
  else
    on_base (modify (λ c, c <| udpConnectivityState := UDP_UNKNOWN |> <| udpPingCount := 0 |>);; emit CancelSelect);;
    mret itf.

(** ** Sending *)

Definition is_stream_data (type : Z) : bool :=
  (type =? PKT_STREAM_DATA) || (type =? PKT_STREAM_DATA_X2) || (type =? PKT_STREAM_DATA_X3).

(** [WritePacketHeader(seq, s, type, length)]; [rand] are the random bytes. *)
Definition header_flags (type length : Z) : Z :=
  let pflags := Z.lor PFLAG_HAS_SEQ PFLAG_HAS_SENDER_TAG_HASH in
  let pflags := if 0 <? length then Z.lor pflags PFLAG_HAS_DATA else pflags in
  Z.lor pflags (Z.shiftl type 24).
Definition WritePacketHeader (selfTagHash rand : bytes) (sq type length : Z) : M (BufferOutputStream.t * Link.t) unit :=
  on_stream (
    BufferOutputStream.WriteInt32 (s32 TLID_DECRYPTED_AUDIO_BLOCK);;
    write_random rand;;
    BufferOutputStream.WriteInt32 (s32 (header_flags type length)));;
  (if is_stream_data type then on_self (Call.conctl_sent sq length) else mret tt);;
  on_stream (
    BufferOutputStream.WriteInt32 (s32 sq);;
    BufferOutputStream.WriteBytes selfTagHash;;
    (if 0 <? length then write_tl_length length else mret tt)).
(** The packet to encrypt: the header and the data. *)
Definition packet (selfTagHash rand : bytes) (pkt : Link.PendingOutgoingPacket) : M Link.t bytes :=
  with_stream (BufferOutputStream.ctor 1500)
    (WritePacketHeader selfTagHash rand (Link.p_seq pkt) (Link.p_type pkt) (u32 (Link.p_len pkt));;
     on_stream (BufferOutputStream.WriteBytes (Link.p_data pkt));;
     on_stream (gets BufferOutputStream.data)).

(** The padding of a packet: 12 to 27 bytes, up to a multiple of 16. *)
Definition pad_len (len : nat) : nat :=
  let padLen := (16 - len mod 16)%nat in
  if (padLen <? 12)%nat then (padLen + 16)%nat else padLen.
(** What follows the tag: fingerprint, message key and the encrypted packet. *)
Definition seal (w : Wire.config) (rand data : bytes) : bytes :=
  let inner := le_bytes 4 (zlen data) ++ data in
  let inner := inner ++ take (pad_len (Datatypes.length inner)) rand in
  let msgKey := Wire.msg_key (Wire.encryptionKey w) (drop 4 inner) 0 in
  let '(key, iv) := Wire.KDF2 (Wire.encryptionKey w) msgKey 0 in
  Wire.keyFingerprint w ++ msgKey ++ aes_ige_encrypt key iv inner.
(** The signature of the reflector's packets. *)
Definition signature (secret body : bytes) : bytes := take 16 (sha256 (body ++ secret)).

(** [SendPacket(data, len, ep, srcPacket)]; [data] is never empty, as it
    starts with a header, but the source asks. *)
Definition SendPacket (data : bytes) (e : Endpoint.t) (srcPacket : Link.PendingOutgoingPacket) : M t unit :=
  s ← get;
  let c := base s in
  if stopping c then mret tt
  else if bool_decide (Endpoint.type e = Endpoint.TCP_RELAY) && negb (Endpoints.useTCP (routes c)) then mret tt
  else
    sealed ← (if 0 <? zlen data then rand ← on_base (rand_bytes 28); mret (seal (wire c) rand data) else mret []);
    let body := reflectorSelfTag s ++ sealed in
    let digest := sha256 (body ++ reflectorSelfSecret s) in
    let out := body ++ take 16 digest in
    (if is_stream_data (Link.p_type srcPacket) then
       modify (λ s, s <| recentSentPackets ::= λ l,
         let l := l ++ [mkmapping (Link.p_seq srcPacket) (le_val (slice digest 14 2)) D.zero] in
         drop (Datatypes.length l - 64) l |>)
     else mret tt);;
    on_base (
      on_link (modify (λ l, l <| Link.lastSentSeq := Link.p_seq srcPacket |>));;
      count_sent (zlen out);;
      ActuallySendPacket e out).

(** [SendOrEnqueuePacket(pkt, enqueue)] of the base class with the virtual
    [WritePacketHeader] and [SendPacket]. *)
Definition SendOrEnqueuePacket (pkt : Link.PendingOutgoingPacket) (enqueue : bool) : M t bool :=
  endpoint ← on_base (on_routes (Endpoints.GetEndpointForPacket (Link.p_endpoint pkt)));
  match endpoint with
  | None => crash_with AbortCalled
  | Some e =>
      canSend ← on_base
        (if negb (bool_decide (Endpoint.type e = Endpoint.TCP_RELAY)) then gets udpReady
         else
           match Endpoint.socket e with
           | None => connect_socket e;; mret false
           | Some p => k ← on_routes (Endpoints.socket_at p); mret (Endpoints.ready k && negb (Endpoints.failed k))
           end);
      if negb canSend then
        (if enqueue then on_base (modify (λ c, c <| sendQueue ::= λ q, q ++ [pkt] |>)) else mret tt);;
        mret false
      else
        s ← get;
        let c := base s in
        (if (bool_decide (Endpoint.type e = Endpoint.TCP_RELAY) && Endpoints.useTCP (routes c)) ||
            (negb (bool_decide (Endpoint.type e = Endpoint.TCP_RELAY)) && Endpoints.useUDP (routes c)) then
           rand ← on_base (rand_bytes 15);
           plain ← on_base (on_link (packet (reflectorSelfTagHash s) rand pkt));
           SendPacket plain e pkt;;
           (if Link.p_type pkt =? PKT_STREAM_DATA
            then on_base (modify (λ c, c <| unsentStreamPackets := u32 (unsentStreamPackets c - 1) |>)) else mret tt)
         else mret tt);;
        mret true
  end.

(** [SendSpecialReflectorRequest(data, len)]: [buf] has 1500 bytes. *)
Definition SendSpecialReflectorRequest (data : bytes) : M t unit :=
  nonce ← on_base (rand_bytes 8);
  let out := nonce ++ le_bytes 4 (zlen data) ++ data in
  let rem := (Datatypes.length out mod 16)%nat in
  out ← (if (rem =? 0)%nat then mret out else pad ← on_base (rand_bytes (16 - rem)); mret (out ++ pad));
  iv ← on_base (rand_bytes 16);
  s ← get;
  let key := sha256 (reflectorSelfSecret s) in
  if 1500 <? zlen out then crash_with UndefinedBehaviour
  else
    let body := reflectorSelfTag s ++ iv ++ aes_cbc_encrypt key iv out in
    on_base (ActuallySendPacket (groupReflector s) (body ++ signature (reflectorSelfSecret s) body)).

(** [SendRecentPacketsRequest]; [now] is [time(NULL)]. *)
Definition GetCurrentUnixtime (now : Z) (s : t) : Z := s32 (now + timeDifference s).
Definition SendRecentPacketsRequest (now : Z) : M t unit :=
  s ← get;
  out ← built (BufferOutputStream.ctor 1024)
    (BufferOutputStream.WriteInt32 TLID_UDP_REFLECTOR_REQUEST_PACKETS_INFO;;
     BufferOutputStream.WriteInt32 (GetCurrentUnixtime now s);;
     BufferOutputStream.WriteInt64 0;;
     BufferOutputStream.WriteInt32 64;;
     BufferOutputStream.WriteInt32 0);
  SendSpecialReflectorRequest out.
Definition SendInit (now : Z) : M t unit := SendRecentPacketsRequest now.
Definition SendRelayPings (now : Z) : M t unit :=
  currentTime ← on_base GetCurrentTime;
  s ← get;
  if D.geb (D.sub currentTime (Endpoint.lastPingTime (groupReflector s))) (D.of_dec 25 2) then
    SendRecentPacketsRequest now;;
    modify (λ s, s <| groupReflector ::= λ e, e <| Endpoint.lastPingTime := currentTime |> |>)
  else mret tt.

(** ** Receiving *)

(** The loop over what was sent recently: the reflector has the packet with
    this id. *)
Fixpoint acknowledge (i : Z) (done l : list PacketIdMapping) : M t unit :=
  match l with
  | [] => mret tt
  | m :: l' =>
      if m_id m =? i then
        if D.eqb (m_ackTime m) D.zero then
          now ← on_base GetCurrentTime;
          modify (λ s, s <| recentSentPackets := done ++ m <| m_ackTime := now |> :: l' |>);;
          on_base (on_link (
            Link.PacketAcknowledged (m_seq m);;
            modify (λ k, if seqgt (m_seq m) (Link.lastRemoteAckSeq k) then k <| Link.lastRemoteAckSeq := m_seq m |> else k)))
        else mret tt
      else acknowledge i (done ++ [m]) l'
  end.

(** [n] integers are read; [f] is called for each.  The rounds are bounded by
    the bytes there are: every round takes four, or ends in an exception. *)
Fixpoint read_ints (f : Z → M t unit) (rounds : nat) (n : Z) : M (I * t) unit :=
  if n <=? 0 then mret tt
  else match rounds with
       | O => crash_with Diverged
       | S rounds' =>
           p ← on_stream BufferInputStream.ReadInt32;
           on_self (f p);;
           read_ints f rounds' (n - 1)
       end.
Definition read_vector (f : Z → M t unit) : M (I * t) bool :=
  vectorMagic ← on_stream BufferInputStream.ReadInt32;
  if negb (vectorMagic =? TLID_VECTOR) then mret false
  else
    count ← on_stream BufferInputStream.ReadInt32;
    i ← on_stream get;
    read_ints f (S (Z.to_nat (BufferInputStream.length i))) count;;
    mret true.

(** [udpReflector.lastPacketsInfo]. *)
Definition last_packets_info : M (I * t) unit :=
  on_stream (BufferInputStream.Seek 16);;
  _ ← on_stream BufferInputStream.ReadInt32;
  _ ← on_stream BufferInputStream.ReadInt64;
  ok ← read_vector (λ p, s ← get; acknowledge (Z.land (u32 p) 0xFFFF) [] (recentSentPackets s));
  if negb ok then mret tt
  else
    ok ← read_vector (λ _, mret tt);
    if negb ok then mret tt
    else on_self (
      on_base (modify (λ c, c <| udpConnectivityState := UDP_AVAILABLE |>));;
      s ← get;
      (if bool_decide (state (base s) = STATE_ESTABLISHED) then mret tt else SetState STATE_ESTABLISHED);;
      s ← get;
      if audioInput (audio (base s)) then mret tt else on_base Setup.InitializeAudio).

Definition catch_range {S} (m : M S unit) : M S unit :=
  try_catch m (λ e, match e with OutOfRange => mret tt | _ => throw e end).

(** A special response of the reflector: was the packet one? *)
Definition special_response (mem : bytes) (n : Z) : M t bool :=
  s ← get;
  tag ← Wire.at_array mem 0 16;
  if bool_decide (tag = reflectorSelfTagHash s) && (60 <? n) then
    iv ← Wire.at_array mem 16 16;
    b ← Wire.at_array mem 32 16;
    let key := sha256 (reflectorSelfSecret s) in
    let firstBlock := aes_cbc_decrypt key iv b in
    '(len, tlid) ← with_stream (BufferInputStream.ctor firstBlock 16) (on_stream (
      BufferInputStream.Seek 8;;
      len ← BufferInputStream.ReadInt32;
      tlid ← BufferInputStream.ReadInt32;
      mret (u64 len, tlid)));
    if (len mod 4 =? 0) && (u64 (len + 60) <=? n) && (n <=? 1500) then
      now ← on_base GetCurrentTime;
      on_base (modify (λ c, c <| lastRecvPacketTime := now |>));;
      enc ← Wire.at_array mem 32 (u64 (len + 16));
      let buf := aes_cbc_decrypt key iv enc in
      catch_range (if tlid =? TLID_UDP_REFLECTOR_LAST_PACKETS_INFO
                   then with_stream (BufferInputStream.ctor buf (u64 (len + 16))) last_packets_info else mret tt);;
      mret true
    else mret false
  else mret false.

(** One packet of stream data for the sender's streams; [decrypted] starts
    with the length.  The result tells whether to go on. *)
Definition HandleInput (p : nat) (d : bytes) (ts : Z) : M t unit :=
  s ← get;
  match store s !! p ≫= λ g, jitterBuffer (stream g) with
  | None => mret tt
  | Some j =>
      now ← on_base GetCurrentTime;
      match JitterBuffer.HandleInput d ts false now j with
      | Ret _ j' => change p (λ st, st <| jitterBuffer := Some j' |>)
      | Throw e _ => throw e
      | Crash c => crash_with c
      end
  end.
Definition stream_data (places : list nat) (decrypted : bytes) (last : bool) : M (I * t) bool :=
  streamID ← on_stream BufferInputStream.ReadByte;
  sdlen ← on_stream (if has (Z.land streamID 0xC0) STREAM_DATA_FLAG_LEN16
                     then l ← BufferInputStream.ReadInt16; mret (u16 l) else BufferInputStream.ReadByte);
  pts ← on_stream BufferInputStream.ReadInt32;
  let pts := u32 pts in
  on_self (on_base (modify (λ c, c <| audioTimestampIn := pts |>)));;
  i ← on_stream get;
  let o := BufferInputStream.offset i in
  if BufferInputStream.length i <? u64 (o + sdlen) then mret false
  else
    s ← on_self get;
    (match place_of streamID (store s) places with
     | Some p => d ← Wire.at_array decrypted (4 + o) sdlen; on_self (HandleInput p d pts)
     | None => mret tt
     end);;
    (if last then mret tt else on_stream (BufferInputStream.Seek (u64 (o + sdlen))));;
    mret true.
Fixpoint stream_datas (places : list nat) (decrypted : bytes) (n : nat) : M (I * t) unit :=
  match n with
  | O => mret tt
  | S n' =>
      go ← stream_data places decrypted (bool_decide (n' = O));
      if go : bool then stream_datas places decrypted n' else mret tt
  end.

(** The packet that was decrypted, from its header on. *)
Definition process_inner (sender : Participant) (decrypted : bytes) : M (I * t) unit :=
  tlid ← on_stream BufferInputStream.ReadInt32;
  if negb (u32 tlid =? TLID_DECRYPTED_AUDIO_BLOCK) then mret tt
  else
    o ← on_stream (gets BufferInputStream.GetOffset);
    on_stream (BufferInputStream.Seek (u64 (o + 16)));;
    flags ← on_stream BufferInputStream.ReadInt32;
    let flags := u32 flags in
    if negb (has flags PFLAG_HAS_SEQ && has flags PFLAG_HAS_SENDER_TAG_HASH) then mret tt
    else
      _ ← on_stream BufferInputStream.ReadInt32;
      senderTagHash ← on_stream (BufferInputStream.ReadBytes 16);
      if negb (bool_decide (senderTagHash = take 16 (memberTagHash sender))) then mret tt
      else
        _ ← on_stream (if has flags PFLAG_HAS_DATA then BufferInputStream.ReadTlLength else mret 0);
        let type := Z.land (Z.shiftr flags 24) 255 in
        now ← on_self (on_base GetCurrentTime);
        on_self (on_base (modify (λ c, c <| lastRecvPacketTime := now |>)));;
        if is_stream_data type then
          s ← on_self get;
          (if negb (bool_decide (state (base s) = STATE_ESTABLISHED)) && receivedInitAck (base s)
           then on_self (SetState STATE_ESTABLISHED) else mret tt);;
          let count := if type =? PKT_STREAM_DATA_X2 then 2%nat else if type =? PKT_STREAM_DATA_X3 then 3%nat else 1%nat in
          stream_datas (streams sender) decrypted count
        else mret tt.

(** What a participant sent; [mem] are the bytes, [n] their number. *)
Definition participant_packet (sender : Participant) (mem : bytes) (n : Z) : M (I * t) unit :=
  s ← on_self get;
  let key := Wire.encryptionKey (wire (base s)) in
  on_stream (BufferInputStream.Seek 24);;
  msgKey ← on_stream (BufferInputStream.ReadBytes 16);
  let '(aesKey, aesIv) := Wire.KDF2 key msgKey 0 in
  rem ← on_stream (gets BufferInputStream.Remaining);
  let decryptedLen := u64 (rem - 16) in
  if 1500 <? decryptedLen then mret tt
  else
    o ← on_stream (gets BufferInputStream.GetOffset);
    enc ← Wire.at_array mem o decryptedLen;
    let decrypted := aes_ige_decrypt aesKey aesIv enc in
    body ← Wire.at_array decrypted 4 (u64 (decryptedLen - 4));
    if negb (bool_decide (msgKey = Wire.msg_key key body 0)) then mret tt
    else
      innerLen ← on_self (with_stream (BufferInputStream.ctor decrypted decryptedLen) (on_stream BufferInputStream.ReadInt32));
      let innerLen := u32 innerLen in
      if u64 (decryptedLen - 4) <? innerLen then mret tt
      else if u64 (decryptedLen - innerLen) <? 12 then mret tt
      else
        on_self (with_stream (BufferInputStream.ctor (slice decrypted 4 (Z.to_nat innerLen)) innerLen)
                   (process_inner sender decrypted)).

(** [ProcessIncomingPacket(packet, srcEndpoint)]; [mem] starts with the
    packet, [n] is its length. *)
Definition ProcessIncomingPacket (mem : bytes) (n : Z) : M t unit :=
  if (n <? 17) || (2000 <? n) then mret tt
  else
    s ← get;
    body ← Wire.at_array mem 0 (n - 16);
    sig ← Wire.at_array mem (n - 16) 16;
    if negb (bool_decide (signature (reflectorSelfSecret s) body = sig)) then mret tt
    else
      special ← special_response mem n;
      if special : bool then mret tt
      else if n <? 32 then mret tt
      else
        tag ← Wire.at_array mem 0 16;
        s ← get;
        match List.find (λ p, bool_decide (tag = take 16 (memberTagHash p))) (participants s) with
        | None => mret tt
        | Some sender =>
            fingerprint ← Wire.at_array mem 16 8;
            if negb (bool_decide (fingerprint = Wire.keyFingerprint (wire (base s)))) then mret tt
            else with_stream (BufferInputStream.ctor (take (Z.to_nat (n - 16)) mem) (n - 16)) (participant_packet sender mem n)
        end.
(** The receive thread's call: exceptions of parsing are caught. *)
Definition receive (mem : bytes) (n : Z) : M t unit := catch_range (ProcessIncomingPacket mem n).
End ops.
End Group.
