(* ===== verification/GroupSafety.v ===== *)
(** * Group calls are safe

    The invariant of a group call: participants are distinct, the incoming
    streams are the streams of the participants in order, and the inputs of
    the mixer are the streams with a decoder.  Every operation keeps it, and
    the operations that end the process are exactly those of [doomed]. *)

From Stdlib Require Import ZArith Lia SpecFloat List.
From stdpp Require Import base tactics list numbers option gmap strings.
From S2P Require Import Prelude Words Double Single History Memory Buffers Streams Seq Congestion Link Net Wire Packet.
From S2P Require Import Jitter Samples Endpoints Controller Incoming Setup Timers Group CallSafety ReceiveSafety.
From stdpp Require Import list.
Open Scope Z_scope.

(* ------------------------------------------------------------------ *)
(** ** What the functions of the base class leave alone *)

Section calm.
Context {CF : CryptoFunctions} {CK : Clock} {RD : Random} {SC : ServerConfig} {PF : Platform}.
Import Controller.
#[local] Abbreviation C := Controller.t.

(** Neither an exception nor a crash, and as many outgoing streams. *)
Definition calm {A} (m : M C A) : Prop :=
  ∀ c, wp m c (λ _ c', outgoingStreams c' = outgoingStreams c) (λ _ _, False) (λ _, False).
Lemma calm_ret {A} (a : A) : calm (mret a).
Proof. by intros c. Qed.
Lemma calm_bind {A B} (m : M C A) (f : A → M C B) : calm m → (∀ a, calm (f a)) → calm (m ≫= f).
Proof.
  intros Hm Hf c. apply wp_bind. eapply wp_mono; [apply Hm|]. intros a c' E. eapply wp_mono; [apply Hf|].
  intros b c'' E'. congruence.
Qed.
Lemma calm_get : calm get.
Proof. by intros c. Qed.
Lemma calm_gets {A} (f : C → A) : calm (gets f).
Proof. by intros c. Qed.
Lemma calm_modify f : (∀ c, outgoingStreams (f c) = outgoingStreams c) → calm (modify f).
Proof. intros Hf c. apply wp_modify, Hf. Qed.
Lemma calm_if {A} (b : bool) (m m' : M C A) : calm m → calm m' → calm (if b then m else m').
Proof. by destruct b. Qed.
Lemma calm_link {A} (m : M Link.t A) : (∀ l, wp m l (λ _ _, True) (λ _ _, False) (λ _, False)) → calm (on_link m).
Proof. intros Hm c. apply wp_zoom. eapply wp_mono; [apply Hm|]. done. Qed.
Lemma calm_GetCurrentTime : calm GetCurrentTime.
Proof. by apply calm_link. Qed.
Lemma calm_rand_bytes k : calm (rand_bytes k).
Proof. by intros c. Qed.
Lemma calm_post f d i : calm (post f d i).
Proof. by intros c. Qed.

Ltac calm_step :=
  lazymatch goal with
  | |- calm (_ ≫= _) => apply calm_bind; [|intros ?]
  | |- calm (mret _) => apply calm_ret
  | |- calm get => apply calm_get
  | |- calm (gets _) => apply calm_gets
  | |- calm (modify _) => apply calm_modify; intros ?; try done
  | |- calm (emit _) => apply calm_modify; done
  | |- calm (on_audio _) => apply calm_modify; done
  | |- calm GetCurrentTime => apply calm_GetCurrentTime
  | |- calm (rand_bytes _) => apply calm_rand_bytes
  | |- calm (post _ _ _) => apply calm_post
  | |- calm (if _ then _ else _) => apply calm_if
  | |- calm (match ?x with _ => _ end) => destruct x
  | |- calm (let _ := _ in _) => cbv zeta
  end.
Ltac calm_all := repeat calm_step.

Lemma calm_enter_state st : calm (enter_state st).
Proof. unfold enter_state. calm_all. Qed.
Lemma calm_fail e : calm (fail e).
Proof.
  unfold fail, SetState. apply calm_bind; [by apply calm_modify|intros _].
  apply calm_bind; [apply calm_enter_state|intros _]. apply calm_ret.
Qed.
Lemma calm_data_saving : calm UpdateDataSavingState.
Proof. unfold UpdateDataSavingState. calm_all. Qed.
Lemma calm_bitrate_limit : calm UpdateAudioBitrateLimit.
Proof. unfold UpdateAudioBitrateLimit. calm_all. Qed.
Lemma calm_InitializeAudio : calm Setup.InitializeAudio.
Proof. unfold Setup.InitializeAudio. calm_all; [apply calm_fail|apply calm_bitrate_limit]. Qed.
(** To an endpoint that is not a relay by TCP. *)
Lemma calm_ActuallySendPacket e d : Endpoint.type e ≠ Endpoint.TCP_RELAY → calm (ActuallySendPacket e d).
Proof.
  intros He. unfold ActuallySendPacket, count_sent. rewrite bool_decide_eq_false_2 by done. calm_all.
Qed.
End calm.

(* ------------------------------------------------------------------ *)
(** ** The invariant *)

Section invariant.
Import Controller Group.
Implicit Types s : Group.t.

Definition owned (m : list GStream) (p : Participant) : Prop :=
  Forall (λ i, ∃ g, m !! i = Some g ∧ owner g = userID p) (streams p).
(** The input of the mixer a place has. *)
Definition input_of (m : list GStream) (i : nat) : option Z := m !! i ≫= callbackWrapper.

Record group_ok s : Prop := {
  go_out : (1 ≤ length (outgoingStreams (base s)) ≤ 100)%nat;
  go_reflector : Endpoint.type (groupReflector s) ≠ Endpoint.TCP_RELAY;
  go_store : Forall (λ g, stream_ok (stream g)) (store s);
  go_wrappers : ∀ i g, store s !! i = Some g →
    callbackWrapper g = if decoder (stream g) then Some (Z.of_nat i) else None;
  go_users : NoDup (userID <$> participants s);
  go_owned : Forall (owned (store s)) (participants s);
  go_incoming : incoming s = mjoin (streams <$> participants s);
  go_places : NoDup (incoming s);
  go_inputs : (inputs s).*1 = omap (input_of (store s)) (incoming s);
}.

Definition fatal (c : crash) : Prop := c = BadCast ∨ c = AssertFailed.
Definition fatal_or (P : Prop) (c : crash) : Prop := fatal c ∨ c = UndefinedBehaviour ∧ P.
Definition range (e : exn) s : Prop := e = OutOfRange ∧ group_ok s.
Definition kept {A} (m : M t A) : Prop := ∀ s, group_ok s → wp m s (λ _, group_ok) (λ _ _, False) fatal.
Definition throwing {A} (m : M t A) : Prop := ∀ s, group_ok s → wp m s (λ _, group_ok) range fatal.
(** The same with a stream of at most [L] bytes. *)
Definition short (L : Z) (i : BufferInputStream.t) : Prop := reader_ok i ∧ BufferInputStream.length i ≤ L.
Definition keptI (L : Z) {A} (m : M (BufferInputStream.t * t) A) : Prop :=
  ∀ i s, short L i → group_ok s →
    wp m (i, s) (λ _ p, short L p.1 ∧ group_ok p.2) (λ e p, range e p.2) fatal.

Lemma kept_ret {A} (a : A) : kept (mret a).
Proof. by intros s ?. Qed.
Lemma kept_bind {A B} (m : M t A) (f : A → M t B) : kept m → (∀ a, kept (f a)) → kept (m ≫= f).
Proof. intros Hm Hf s Hs. apply wp_bind. eapply wp_mono; [by apply Hm|]. intros a s' ?. by apply Hf. Qed.
Lemma kept_get : kept get.
Proof. by intros s ?. Qed.
Lemma kept_modify f : (∀ s, group_ok s → group_ok (f s)) → kept (modify f).
Proof. intros Hf s ?. by apply wp_modify, Hf. Qed.
Lemma kept_if {A} (b : bool) (m m' : M t A) : kept m → kept m' → kept (if b then m else m').
Proof. by destruct b. Qed.
Lemma kept_base {A} (m : M Controller.t A) : calm m → kept (on_base m).
Proof.
  intros Hm s Hs. apply wp_zoom. eapply wp_weaken; [apply Hm| |done..]. intros a c E. destruct Hs. constructor; try done.
  simpl. by rewrite E.
Qed.
Lemma throwing_if {A} (b : bool) (m m' : M t A) : throwing m → throwing m' → throwing (if b then m else m').
Proof. by destruct b. Qed.
Lemma kept_throwing {A} (m : M t A) : kept m → throwing m.
Proof. intros Hm s Hs. eapply wp_weaken; [by apply Hm|done..]. Qed.
Lemma kept_catch m : throwing m → kept (catch_range m).
Proof.
  intros Hm s Hs. specialize (Hm s Hs). unfold wp, catch_range, try_catch in *. destruct (m s) as [| |]; [done| |done].
  by destruct Hm as [-> ?].
Qed.

Lemma keptI_ret L {A} (a : A) : keptI L (mret a).
Proof. by intros i s ? ?. Qed.
Lemma keptI_bind L {A B} (m : M (BufferInputStream.t * t) A) (f : A → M (BufferInputStream.t * t) B) :
  keptI L m → (∀ a, keptI L (f a)) → keptI L (m ≫= f).
Proof. intros Hm Hf i s Hi Hs. apply wp_bind. eapply wp_mono; [by apply Hm|]. intros a [i' s'] [? ?]. by apply Hf. Qed.
Lemma keptI_if L {A} (b : bool) (m m' : M (BufferInputStream.t * t) A) : keptI L m → keptI L m' → keptI L (if b then m else m').
Proof. by destruct b. Qed.
Lemma keptI_self L {A} (m : M t A) : kept m → keptI L (on_self m).
Proof. intros Hm i s Hi Hs. apply wp_on_self. eapply wp_weaken; [by apply Hm|done..]. Qed.
Lemma keptI_stream L {A} (m : M BufferInputStream.t A) : along same_length m → reads True m → keptI L (on_stream m).
Proof.
  intros Ha Hm i s [Hi Hl] Hs. apply wp_on_stream, wp_along; [done|]. eapply wp_weaken; [by apply Hm| |by intros e i' ->|].
  - intros a i' Hi' E. split; [split; [done|cbn [fst]; by rewrite E]|done].
  - intros c [-> _]. by right.
Qed.
Lemma throwing_with_stream L {A} i (m : M (BufferInputStream.t * t) A) : short L i → keptI L m → throwing (with_stream i m).
Proof.
  intros Hi Hm s Hs. apply wp_with_stream. eapply wp_weaken; [by apply Hm| |done..]. by intros a [i' s'] [? ?].
Qed.
Lemma keptI_byte L {A} (f : Z → M (BufferInputStream.t * t) A) :
  (∀ x, is_u8 x → keptI L (f x)) → keptI L (on_stream BufferInputStream.ReadByte ≫= f).
Proof.
  intros Hf i s [[Hi Hl] HL] Hs. apply wp_bind, wp_on_stream, wp_along; [apply along_ReadByte|].
  apply wp_ReadByte_any; [done| |].
  - intros x i' Hi' Hx E. apply Hf; [done|unfold short, reader_ok; by rewrite E|done].
  - by intros i' _.
Qed.
Lemma keptI_get L {A} (f : BufferInputStream.t → M (BufferInputStream.t * t) A) :
  (∀ i, short L i → keptI L (f i)) → keptI L (on_stream get ≫= f).
Proof. intros Hf i s Hi Hs. apply wp_bind, wp_on_stream, wp_get. by apply Hf. Qed.
End invariant.

(** Split a program along its structure. *)
Ltac kept_step :=
  lazymatch goal with
  | |- kept (_ ≫= _) => apply kept_bind; [|intros ?]
  | |- kept (mret _) => apply kept_ret
  | |- kept get => apply kept_get
  | |- kept (Group.on_base _) => apply kept_base
  | |- kept (if _ then _ else _) => apply kept_if
  | |- kept (modify _) =>
      apply kept_modify; try (let s := fresh "s" in let H := fresh "Hs" in intros s H; destruct H; by constructor)
  | |- kept (match ?x with _ => _ end) => destruct x
  | |- kept (let _ := _ in _) => cbv zeta
  | |- keptI _ (on_stream BufferInputStream.ReadByte ≫= _) => apply keptI_byte; intros ? ?
  | |- keptI _ (on_stream get ≫= _) => apply keptI_get; intros ? ?
  | |- keptI _ (_ ≫= _) => apply keptI_bind; [|intros ?]
  | |- keptI _ (mret _) => apply keptI_ret
  | |- keptI _ (on_self _) => apply keptI_self
  | |- keptI _ (on_stream _) => apply keptI_stream
  | |- keptI _ (if _ then _ else _) => apply keptI_if
  | |- keptI _ (match ?x with _ => _ end) => destruct x
  | |- keptI _ (let _ := _ in _) => cbv zeta
  | |- calm (_ ≫= _) => apply calm_bind; [|intros ?]
  | |- calm (mret _) => apply calm_ret
  | |- calm get => apply calm_get
  | |- calm (gets _) => apply calm_gets
  | |- calm (modify _) => apply calm_modify; intros ?; try done
  | |- calm (Controller.emit _) => apply calm_modify; done
  | |- calm (Controller.on_audio _) => apply calm_modify; done
  | |- calm Controller.GetCurrentTime => apply calm_GetCurrentTime
  | |- calm (Controller.rand_bytes _) => apply calm_rand_bytes
  | |- calm (Controller.post _ _ _) => apply calm_post
  | |- calm (Controller.enter_state _) => apply calm_enter_state
  | |- calm (Controller.fail _) => apply calm_fail
  | |- calm (if _ then _ else _) => apply calm_if
  | |- calm (match ?x with _ => _ end) => destruct x
  | |- calm (let _ := _ in _) => cbv zeta
  | |- reads _ BufferInputStream.ReadTlLength => by apply reads_ReadTlLength
  | |- reads _ _ => progress keep
  | |- along _ BufferInputStream.ReadByte => apply along_ReadByte
  | |- along _ BufferInputStream.ReadInt16 => apply along_ReadInt16
  | |- along _ BufferInputStream.ReadInt32 => apply along_ReadInt32
  | |- along _ BufferInputStream.ReadInt64 => apply along_ReadInt64
  | |- along _ (BufferInputStream.ReadBytes _) => apply along_ReadBytes
  | |- along _ BufferInputStream.ReadTlLength => apply along_ReadTlLength
  | |- along _ (BufferInputStream.Seek _) => apply along_Seek
  | |- along _ (gets _) => let i := fresh "i" in intros i; apply wp_gets; reflexivity
  | |- along _ _ => along_step
  end.
Ltac kept_all := repeat kept_step.

(* ------------------------------------------------------------------ *)
(** ** The bytes of streams *)

Section streams.
Import Controller Group BufferOutputStream.

Definition stream_bytes (st : Stream) : bytes :=
  [s_id st; s_type st] ++ le_bytes 4 (s32 (codec st)) ++
  le_bytes 4 (u8 (Z.lor (if enabled st then STREAM_FLAG_ENABLED else 0) STREAM_FLAG_DTX)) ++ le_bytes 2 (s16 (frameDuration st)).
Lemma zlen_stream_bytes st : zlen (stream_bytes st) = 12.
Proof. done. Qed.
Definition item_bytes (st : Stream) : bytes := le_bytes 2 12 ++ stream_bytes st.
Definition streams_bytes (l : list Stream) : bytes := u8 (zlen l) :: mjoin (item_bytes <$> l).

Lemma wp_write_stream st d o (Q : unit → BufferOutputStream.t → Prop) T D :
  grows d o → zlen d ≤ 1000000 → (∀ o', grows (d ++ stream_bytes st) o' → Q tt o') → wp (write_stream st) o Q T D.
Proof.
  intros Hg Hd HQ. unfold write_stream.
  apply wp_bind. eapply wp_WriteByte; [done|lia|]. intros o1 G1.
  apply wp_bind. eapply wp_WriteByte; [done|rewrite !zlen_app; change (zlen [_]) with 1; lia|]. intros o2 G2.
  apply wp_bind. eapply wp_WriteInt32; [done|rewrite !zlen_app; change (zlen [_]) with 1; lia|]. intros o3 G3.
  apply wp_bind. eapply wp_WriteInt32; [done|rewrite !zlen_app, zlen_le_bytes; change (zlen [_]) with 1; lia|]. intros o4 G4.
  eapply wp_WriteInt16; [done|rewrite !zlen_app, !zlen_le_bytes; change (zlen [_]) with 1; lia|]. intros o5 G5.
  apply HQ. unfold stream_bytes. by rewrite <- !app_assoc in G5.
Qed.
Lemma zlen_items l : zlen (mjoin (item_bytes <$> l)) = 14 * zlen l.
Proof.
  induction l as [|st l IH]; [done|].
  change (mjoin (item_bytes <$> st :: l)) with (item_bytes st ++ mjoin (item_bytes <$> l)).
  rewrite zlen_app, IH, zlen_cons. change (zlen (item_bytes st)) with 14. lia.
Qed.
Lemma wp_write_streams l d o (Q : unit → BufferOutputStream.t → Prop) T D :
  grows d o → zlen d + 14 * zlen l ≤ 1000000 → (∀ o', grows (d ++ mjoin (item_bytes <$> l)) o' → Q tt o') →
  wp (write_streams l) o Q T D.
Proof.
  revert d o. induction l as [|st l IH]; intros d o Hg Hd HQ; cbn [write_streams].
  { apply wp_ret, HQ. by rewrite app_nil_r. }
  rewrite zlen_cons in Hd. pose proof (zlen_nonneg l). apply wp_bind. apply (wp_built_exact 128 _ (stream_bytes st)); [lia| |].
  { intros o1 G1. eapply (wp_write_stream st []); [done|by vm_compute|done]. }
  apply wp_bind. eapply wp_WriteInt16; [done|lia|]. intros o2 G2.
  change (s16 (zlen (stream_bytes st))) with 12 in G2.
  apply wp_bind. eapply wp_WriteBytes; [done|rewrite zlen_app, zlen_le_bytes, zlen_stream_bytes; lia|]. intros o3 G3.
  eapply IH; [done|rewrite !zlen_app, zlen_le_bytes, zlen_stream_bytes; lia|]. intros o4 G4. apply HQ.
  change (mjoin (item_bytes <$> st :: l)) with (item_bytes st ++ mjoin (item_bytes <$> l)).
  unfold item_bytes at 1. by rewrite <- app_assoc, app_assoc, app_assoc.
Qed.
Lemma wp_SerializeStreams l o (Q : unit → BufferOutputStream.t → Prop) T D :
  grows [] o → zlen l ≤ 10000 → (∀ o', grows (streams_bytes l) o' → Q tt o') → wp (SerializeStreams l) o Q T D.
Proof.
  intros Hg Hl HQ. unfold SerializeStreams. apply wp_bind. eapply wp_WriteByte; [done|by vm_compute|]. intros o1 G1.
  eapply wp_write_streams; [done|rewrite app_nil_l; change (zlen [_]) with 1; lia|]. done.
Qed.
End streams.

(* ------------------------------------------------------------------ *)
(** ** State, audio, streams *)

Section operations.
Context {CF : CryptoFunctions} {CL : CryptoLaws} {CB : CbcFunctions} {CBL : CbcLaws} {CK : Clock} {RD : Random}
  {SC : ServerConfig} {HO : Host} {PF : Platform} {LM : Libm}.
Hypothesis Hserver : server_ok.
Import Controller Group.
Implicit Types s : Group.t.

Lemma kept_update_streams : kept SerializeAndUpdateOutgoingStreams.
Proof.
  intros s Hs. apply wp_bind, wp_get. apply wp_bind. pose proof (go_out _ Hs) as Ho.
  apply (wp_built_exact 1024 _ (streams_bytes (outgoingStreams (base s)))); [lia| |].
  { intros o Hg. apply wp_SerializeStreams; [done|unfold zlen; lia|done]. }
  apply wp_if; intros _; [|by apply wp_ret]. apply wp_modify. destruct Hs; by constructor.
Qed.
Lemma group_ok_base s (c : Controller.t) :
  (1 ≤ length (outgoingStreams c) ≤ 100)%nat → group_ok s → group_ok (s <| base := c |>).
Proof. intros Hc []. by constructor. Qed.
(** What is captured from a good state can be used later. *)
Lemma kept_captured {A} (f : t → M t A) : (∀ s, group_ok s → kept (f s)) → kept (s ← get; f s).
Proof. intros Hf s Hs. apply wp_bind, wp_get. by apply Hf. Qed.
Lemma kept_set_outgoing l : (1 ≤ length l ≤ 100)%nat → kept (on_base (modify (λ c, c <| outgoingStreams := l |>))).
Proof. intros Hl s Hs. apply wp_zoom, wp_modify. by apply group_ok_base. Qed.
Lemma kept_SetMicMute b : kept (SetMicMute b).
Proof.
  unfold SetMicMute. apply kept_bind; [kept_all|intros _]. apply kept_captured. intros s Hs. cbv zeta.
  apply kept_bind; [kept_all|intros _]. apply kept_if; [kept_all|]. pose proof (go_out _ Hs) as Ho.
  destruct (outgoingStreams (base s)) as [|st l]; [simpl in Ho; lia|]. apply kept_bind; [|intros _; apply kept_update_streams].
  by apply kept_set_outgoing.
Qed.
Lemma kept_SetState st : kept (SetState st).
Proof. unfold SetState. kept_all. apply kept_SetMicMute. Qed.

Lemma omap_same {A B} (f g : A → option B) (l : list A) : (∀ x, x ∈ l → f x = g x) → omap f l = omap g l.
Proof.
  induction l as [|x l IH]; intros E; [done|]. cbn. rewrite (E x) by left. rewrite IH; [done|]. intros y Hy. apply E. by right.
Qed.
(** A change of a stream that keeps it good. *)
Lemma kept_change p f :
  (∀ st, stream_ok st → stream_ok (f st)) → (∀ st, decoder (f st) = decoder st) → kept (change p f).
Proof.
  intros Hf Hd s Hs. apply wp_modify. destruct Hs as [H1 H2 H3 H4 H5 H6 H7 H8 H9].
  assert (∀ i g, alter (λ g, g <| stream ::= f |>) p (store s) !! i = Some g →
            ∃ g', store s !! i = Some g' ∧ owner g = owner g' ∧ callbackWrapper g = callbackWrapper g' ∧
                  decoder (stream g) = decoder (stream g') ∧ (stream_ok (stream g') → stream_ok (stream g))) as Hst.
  { intros i g. destruct (decide (i = p)) as [->|Hne].
    - rewrite list_lookup_alter_eq. destruct (store s !! p) as [g'|]; [|done]. intros [= <-]. exists g'.
      split_and!; [done..|apply Hd|apply Hf].
    - rewrite list_lookup_alter_ne by done. intros E. by exists g. }
  assert (∀ i g', store s !! i = Some g' → ∃ g, alter (λ g, g <| stream ::= f |>) p (store s) !! i = Some g ∧
            owner g = owner g' ∧ callbackWrapper g = callbackWrapper g') as Hts.
  { intros i g' E. destruct (decide (i = p)) as [->|Hne].
    - rewrite list_lookup_alter_eq, E. by eexists.
    - rewrite list_lookup_alter_ne by done. by exists g'. }
  constructor; try done.
  - cbn. apply Forall_lookup. intros i g E. destruct (Hst _ _ E) as (g' & E' & _ & _ & _ & Hok). apply Hok.
    by apply (Forall_lookup_1 _ _ _ _ H3 E').
  - cbn. intros i g E. destruct (Hst _ _ E) as (g' & E' & _ & -> & -> & _). by apply H4.
  - cbn. eapply Forall_impl; [exact H6|]. intros q Hq. eapply Forall_impl; [exact Hq|]. intros i (g' & E' & Ho).
    destruct (Hts _ _ E') as (g & E & Ho' & _). exists g. split; [done|congruence].
  - cbn. rewrite H9. apply omap_same. intros i _.
    unfold input_of. destruct (store s !! i) as [g'|] eqn:Eg.
    + destruct (Hts _ _ Eg) as (g & -> & _ & Hw). cbn. by rewrite Hw.
    + destruct (alter _ _ _ !! i) as [g|] eqn:Ea; [|done]. destruct (Hst _ _ Ea) as (g' & E' & _). congruence.
Qed.
Lemma kept_HandleInput p d ts : is_u32 ts → kept (HandleInput p d ts).
Proof.
  intros Hts. unfold HandleInput. apply kept_captured. intros s Hs.
  destruct (store s !! p ≫= _) as [j|] eqn:Ej; [|kept_all]. apply bind_Some in Ej as (g & Eg & Ej).
  pose proof (Forall_lookup_1 _ _ _ _ (go_store _ Hs) Eg) as [Hj _]. specialize (Hj j Ej).
  apply kept_bind; [kept_all|intros now].
  pose proof (run_safe (JitterOps.OpInput d ts false now) j Hts Hj) as Hr. unfold wp in Hr. cbn [JitterOps.run] in Hr.
  destruct (JitterBuffer.HandleInput d ts false now j) as [[] j'| |c]; [|done|].
  - apply kept_change; [|done]. intros st [_ Hr']. split; [by intros j2 [= <-]|done].
  - intros s' _. by left.
Qed.

(** ** Packets of participants *)

(** The length of a block of stream data. *)
Lemma keptI_length L {A} (c : bool) (f : Z → M (BufferInputStream.t * t) A) :
  (∀ x, 0 ≤ x ≤ 65535 → keptI L (f x)) →
  keptI L (on_stream (if c then l ← BufferInputStream.ReadInt16; mret (u16 l) else BufferInputStream.ReadByte) ≫= f).
Proof.
  intros Hf. destruct c; [|apply keptI_byte; intros x Hx; apply Hf; lia].
  intros i s [Hi HL] Hs. apply wp_bind, wp_on_stream, wp_bind, wp_along; [apply along_ReadInt16|].
  eapply wp_weaken; [by apply (reads_ReadInt16 True)| |by intros e i' ->|intros c [-> _]; by right].
  intros l i' Hi' E. apply wp_ret. apply Hf; [pose proof (u16_range l); lia|split; [done|by rewrite E]|done].
Qed.
Lemma keptI_stream_data L places dec last :
  L + 4 ≤ zlen dec ≤ 4294967296 → keptI L (stream_data places dec last).
Proof.
  intros HL. unfold stream_data. apply keptI_byte. intros sid _. apply keptI_length. intros sdlen Hsd.
  apply keptI_bind; [kept_all|intros pts]. apply keptI_bind; [kept_all|intros _]. apply keptI_get. intros i [[Hi _] Hil].
  pose proof (BufferInputStream.wf_off i Hi). rewrite u64_small by lia. destruct (Z.ltb_spec (BufferInputStream.length i) (BufferInputStream.offset i + sdlen)); [kept_all|].
  apply keptI_bind; [kept_all|intros s]. apply keptI_bind.
  - destruct (place_of sid (store s) places) as [p|]; [|kept_all].
    intros i' s' Hi' Hs'. apply wp_bind, at_whole; [lia..|]. apply keptI_self; [|done..]. apply kept_HandleInput, u32_range.
  - intros _. apply keptI_bind; [|intros _; kept_all]. kept_all.
Qed.
Lemma keptI_stream_datas L places dec n : L + 4 ≤ zlen dec ≤ 4294967296 → keptI L (stream_datas places dec n).
Proof.
  intros HL. induction n as [|n IH]; cbn [stream_datas]; [kept_all|]. apply keptI_bind; [by apply keptI_stream_data|].
  intros []; [apply IH|kept_all].
Qed.
Lemma keptI_process_inner L sender dec : L + 4 ≤ zlen dec ≤ 4294967296 → keptI L (process_inner sender dec).
Proof.
  intros HL. unfold process_inner. kept_all; [apply kept_SetState|by apply keptI_stream_datas].
Qed.

(** The message key is at 24; what follows is from 40 on. *)
Lemma wp_message_key {A} mem n s (k : bytes → M (BufferInputStream.t * t) A) (Q : A → BufferInputStream.t * t → Prop)
    (T : exn → BufferInputStream.t * t → Prop) D :
  wf_bytes mem → 32 ≤ n ≤ zlen mem → zlen mem ≤ 4294967296 →
  (n < 56 → ∀ i, T OutOfRange (i, s)) →
  (56 ≤ n → wp (k (slice mem 24 16)) (BufferInputStream.mk (take (Z.to_nat (n - 16)) mem) (n - 16) 40, s) Q T D) →
  wp (on_stream (BufferInputStream.Seek 24);; msgKey ← on_stream (BufferInputStream.ReadBytes 16); k msgKey)
    (BufferInputStream.ctor (take (Z.to_nat (n - 16)) mem) (n - 16), s) Q T D.
Proof.
  intros Hmem Hn Hmax HT HQ. set (b := take (Z.to_nat (n - 16)) mem).
  assert (zlen b = n - 16) as Hb by (unfold b, zlen in *; rewrite length_take; lia).
  assert (wf_bytes b) as Hwb by by apply Forall_take.
  apply wp_bind, wp_on_stream. unfold wp at 1, BufferInputStream.Seek. cbn [BufferInputStream.ctor BufferInputStream.length].
  destruct (Z.ltb_spec (n - 16) 24); [apply HT; lia|]. apply wp_bind, wp_on_stream.
  set (i := BufferInputStream.with_offset 24 _).
  assert (BufferInputStream.wf i) as Hi by (constructor; cbn; [done|lia..|done]).
  assert (zlen (BufferInputStream.rest i) = n - 40) as Hr.
  { unfold BufferInputStream.rest, i, zlen in *. cbn. rewrite length_drop. lia. }
  destruct (Z.lt_ge_cases n 56).
  - unfold wp at 1, BufferInputStream.ReadBytes. rewrite short_bind by (done || lia). by apply HT.
  - eapply Wire.wp_ReadBytes_fits; [done|lia|]. intros _ _ _.
    replace (take (Z.to_nat 16) (BufferInputStream.rest i)) with (slice mem 24 16); [by apply HQ|].
    unfold BufferInputStream.rest, i, b, slice. cbn. rewrite skipn_firstn_comm, take_take. f_equal. lia.
Qed.

(** A length that wrapped is outside every array. *)
Lemma wp_at_outside {S} (mem : bytes) o n (s : S) (Q : bytes → S → Prop) T (D : crash → Prop) :
  zlen mem < o + n → D UndefinedBehaviour → wp (Wire.at_array mem o n) s Q T D.
Proof. intros Hn HD. unfold wp, Wire.at_array, BufferInputStream.memcpy_from, defined. by rewrite decide_False by lia. Qed.
Lemma wp_fatal_or {S A} (P : Prop) (m : M S A) (σ : S) (Q : A → S → Prop) (T : exn → S → Prop) :
  wp m σ Q T fatal → wp m σ Q T (fatal_or P).
Proof. intros Hm. eapply wp_weaken; [exact Hm|done|done|]. intros c ?. by left. Qed.

(** A packet of 72 to 75 bytes makes the length of what is hashed wrap. *)
Lemma wp_participant_packet sender mem n s :
  wf_bytes mem → 32 ≤ n ≤ zlen mem → zlen mem ≤ 4294967296 → group_ok s →
  wp (participant_packet sender mem n) (BufferInputStream.ctor (take (Z.to_nat (n - 16)) mem) (n - 16), s)
    (λ _ p, group_ok p.2) (λ e p, range e p.2) (fatal_or (72 ≤ n ≤ 75)).
Proof.
  intros Hmem Hn Hmax Hs. unfold participant_packet. apply wp_bind, wp_on_self, wp_get. cbv zeta.
  set (w := wire (base s)). apply wp_message_key; [done..| |].
  { by intros _ i. }
  intros Hn'. set (i := BufferInputStream.mk _ _ 40). set (msgKey := slice mem 24 16).
  destruct (Wire.KDF2 _ _ _) as [aesKey aesIv]. apply wp_bind, wp_on_stream, wp_gets.
  change (BufferInputStream.Remaining i) with (u64 (n - 16 - 40)).
  rewrite (u64_small (n - 16 - 40)) by lia. replace (n - 16 - 40 - 16) with (n - 72) by lia.
  destruct (Z.lt_ge_cases n 72) as [Hlt|Hge].
  { assert (u64 (n - 72) = n - 72 + 18446744073709551616) as -> by (unfold u64; rewrite mod_neg; lia).
    destruct (Z.ltb_spec 1500 (n - 72 + 18446744073709551616)); [by apply wp_ret|lia]. }
  rewrite (u64_small (n - 72)) by lia. destruct (Z.ltb_spec 1500 (n - 72)); [by apply wp_ret|].
  apply wp_bind, wp_on_stream, wp_gets. change (BufferInputStream.GetOffset i) with 40.
  apply wp_bind, at_whole; [lia..|]. set (enc := slice mem _ _).
  assert (zlen enc = n - 72) as He by (unfold enc, zlen in *; rewrite length_slice; lia).
  assert (wf_bytes enc) as Hwe by (apply Forall_take, Forall_drop, Hmem).
  set (dec := aes_ige_decrypt aesKey aesIv enc).
  assert (zlen dec = n - 72) as Hd by (unfold dec, zlen in *; by rewrite decrypt_length).
  assert (wf_bytes dec) as Hwd by by apply decrypt_wf.
  apply wp_bind. destruct (Z.lt_ge_cases n 76) as [H76|H76].
  { apply wp_at_outside; [|by right; split; [|lia]]. unfold u64. rewrite mod_neg; lia. }
  rewrite (u64_small (n - 72 - 4)) by lia. apply at_whole; [lia..|].
  destruct (negb _); [by apply wp_ret|]. apply wp_fatal_or.
  apply wp_bind, wp_on_self, wp_with_stream, wp_on_stream.
  eapply wp_weaken; [apply (reads_ReadInt32 True); split; [rewrite <- Hd; apply ctor_wf; [done|lia]|cbn; lia]| |by intros e i2 ->|intros c [-> _]; by right].
  intros innerLen i' _. cbn [snd]. destruct (Z.ltb_spec (n - 72 - 4) (u32 innerLen)); [by apply wp_ret|].
  destruct (_ <? 12); [by apply wp_ret|]. apply wp_on_self.
  pose proof (u32_range innerLen) as Hu. eapply wp_weaken; [apply (throwing_with_stream (u32 innerLen))| |done..]; [| |exact Hs|done].
  - assert (zlen (slice dec 4 (Z.to_nat (u32 innerLen))) = u32 innerLen) as Hz by (unfold zlen in *; rewrite length_slice; lia).
    split; [|cbn; lia]. split; [|cbn; lia]. rewrite <- Hz at 2. apply ctor_wf; [by apply Forall_take, Forall_drop|lia].
  - apply keptI_process_inner. lia.
Qed.

(** ** Responses of the reflector *)

(** Reading an integer takes four bytes, or there are fewer. *)
Lemma wp_ReadInt32_less i (Q : Z → BufferInputStream.t → Prop) (T : exn → BufferInputStream.t → Prop) D :
  BufferInputStream.wf i → T OutOfRange i →
  (∀ z i', BufferInputStream.wf i' → BufferInputStream.length i' = BufferInputStream.length i →
     zlen (BufferInputStream.rest i') + 4 = zlen (BufferInputStream.rest i) → Q z i') →
  wp BufferInputStream.ReadInt32 i Q T D.
Proof.
  intros Hi HT HQ. destruct (Z.lt_ge_cases (zlen (BufferInputStream.rest i)) 4).
  { unfold wp, BufferInputStream.ReadInt32. by rewrite short_bind. }
  destruct (rest_split i 4) as (l & tl & Hr & Hl & Hb); [lia|done|].
  rewrite <- (le_bytes_le_val l Hb), Hl in Hr. unfold wp. rewrite (ReadInt32_run i _ tl) by done.
  destruct (wf_advance i 4 Hi) as [Hi' Hr']; [lia|]. apply HQ; [done..|]. rewrite Hr', Hr. unfold zlen.
  rewrite length_drop, length_app, length_le_bytes. lia.
Qed.
Lemma keptI_read_ints L f rounds n :
  (∀ p, kept (f p)) →
  ∀ i s, short L i → group_ok s → (length (BufferInputStream.rest i) < rounds)%nat →
    wp (read_ints f rounds n) (i, s) (λ _ p, short L p.1 ∧ group_ok p.2) (λ e p, range e p.2) fatal.
Proof.
  intros Hf. revert n. induction rounds as [|rounds IH]; intros n i s Hi Hs Hlt; [lia|]. cbn [read_ints].
  destruct (n <=? 0); [by apply wp_ret|]. apply wp_bind, wp_on_stream. destruct Hi as [[Hi Hmax] HL].
  apply wp_ReadInt32_less; [done|done|]. intros p i' Hi' El Hr. apply wp_bind, wp_on_self.
  eapply wp_weaken; [by apply Hf| |done..]. intros [] s' Hs'. apply IH; [unfold short, reader_ok; by rewrite El|done|unfold zlen in Hr; lia].
Qed.
Lemma keptI_read_vector L f : (∀ p, kept (f p)) → keptI L (read_vector f).
Proof.
  intros Hf. unfold read_vector. apply keptI_bind; [kept_all|intros magic]. apply keptI_if; [kept_all|].
  apply keptI_bind; [kept_all|intros n]. intros i s Hi Hs. apply wp_bind, wp_on_stream, wp_get. apply wp_bind.
  eapply wp_mono; [apply (keptI_read_ints L); [done..|]|].
  - destruct Hi as [[Hi _] _]. unfold BufferInputStream.rest. rewrite length_drop. pose proof (BufferInputStream.wf_mem i Hi).
    pose proof (BufferInputStream.wf_off i Hi). unfold zlen in *. lia.
  - intros [] [i' s'] [? ?]. by apply wp_ret.
Qed.
Lemma kept_acknowledge k done l : kept (acknowledge k done l).
Proof.
  revert done. induction l as [|m l IH]; intros done; cbn [acknowledge]; kept_all; [|apply IH].
  by apply calm_link.
Qed.
Lemma keptI_last_packets_info L : keptI L last_packets_info.
Proof.
  unfold last_packets_info. kept_all; try apply keptI_read_vector; intros; kept_all.
  - apply kept_acknowledge.
  - apply kept_SetState.
  - apply calm_InitializeAudio.
Qed.

(** The length in the first block of a special response, and when it wraps:
    -60 to -20. *)
Definition announced (s : t) (mem : bytes) : Z :=
  s32 (le_val (slice (aes_cbc_decrypt (sha256 (reflectorSelfSecret s)) (slice mem 16 16) (slice mem 32 16)) 8 4)).
Definition bad_response (s : t) (mem : bytes) (n : Z) : Prop :=
  slice mem 0 16 = reflectorSelfTagHash s ∧ 60 < n ≤ 1500 ∧ -60 ≤ announced s mem ≤ -20 ∧ announced s mem mod 4 = 0.

(** The two integers of the first block. *)
Lemma wp_first_block {S} (first : bytes) (s : S) (Q : Z * Z → S → Prop) T D :
  wf_bytes first → zlen first = 16 →
  (∀ b, Q (u64 (s32 (le_val (slice first 8 4))), b) s) →
  wp (with_stream (BufferInputStream.ctor first 16) (on_stream (
      BufferInputStream.Seek 8;;
      len ← BufferInputStream.ReadInt32;
      tlid ← BufferInputStream.ReadInt32;
      mret (u64 len, tlid)))) s Q T D.
Proof.
  intros Hb Hz HQ. apply wp_with_stream, wp_on_stream, wp_bind. unfold wp at 1, BufferInputStream.Seek. cbn [BufferInputStream.ctor BufferInputStream.length].
  rewrite (proj2 (Z.ltb_ge 16 8)) by lia. set (i := BufferInputStream.with_offset 8 _).
  assert (BufferInputStream.wf i) as Hi by (constructor; cbn; [lia..|done]).
  assert (BufferInputStream.rest i = slice first 8 4 ++ slice first 12 4) as Hr.
  { change (BufferInputStream.rest i) with (drop 8 first). unfold slice.
    transitivity (take 4 (drop 8 first) ++ drop 4 (drop 8 first)); [by rewrite take_drop|]. f_equal.
    rewrite drop_drop. symmetry. apply take_ge. unfold zlen in Hz. rewrite length_drop. lia. }
  assert (∀ k, wf_bytes (slice first k 4)) as Hw by (intros; by apply Forall_take, Forall_drop).
  assert (∀ k, (k ≤ 12)%nat → slice first k 4 = le_bytes 4 (le_val (slice first k 4))) as Hle.
  { intros k Hk. rewrite <- (le_bytes_le_val (slice first k 4)) at 1 by apply Hw. f_equal. unfold zlen in Hz. rewrite length_slice; lia. }
  rewrite (Hle 8%nat), (Hle 12%nat) in Hr by lia. apply wp_bind. eapply wp_ReadInt32; [done|exact Hr|]. intros i1 Hi1 Hr1.
  apply wp_bind. eapply wp_ReadInt32; [done|by rewrite app_nil_r|]. intros i2 _ _. apply wp_ret, HQ.
Qed.
Lemma wp_special_response mem n s :
  wf_bytes mem → 17 ≤ n ≤ zlen mem → zlen mem ≤ 4294967296 → group_ok s →
  wp (special_response mem n) s (λ _, group_ok) (λ _ _, False) (fatal_or (bad_response s mem n)).
Proof.
  intros Hmem Hn Hmax Hs. unfold special_response. apply wp_bind, wp_get. apply wp_bind, at_whole; [lia..|].
  change (slice mem (Z.to_nat 0) (Z.to_nat 16)) with (slice mem 0 16).
  case_bool_decide as Htag; [|by apply wp_ret]. destruct (Z.ltb_spec 60 n) as [H60|]; [|by apply wp_ret].
  cbn [andb]. apply wp_bind, at_whole; [lia..|]. apply wp_bind, at_whole; [lia..|]. cbv zeta.
  change (slice mem (Z.to_nat 16) (Z.to_nat 16)) with (slice mem 16 16). change (slice mem (Z.to_nat 32) (Z.to_nat 16)) with (slice mem 32 16).
  assert (∀ a b, wf_bytes (slice mem a b)) as Hwm by (intros; by apply Forall_take, Forall_drop).
  apply wp_bind. apply wp_first_block.
  { by apply cbc_decrypt_wf. }
  { unfold zlen in *. rewrite cbc_decrypt_length, length_slice; lia. }
  intros tlid. fold (announced s mem). pose proof (s32_range (le_val (slice (aes_cbc_decrypt (sha256 (reflectorSelfSecret s)) (slice mem 16 16) (slice mem 32 16)) 8 4))) as Ha.
  fold (announced s mem) in Ha. set (a := announced s mem) in *. set (key := sha256 _).
  assert (u64 a mod 4 = a mod 4) as Hmod.
  { unfold u64. change 18446744073709551616 with (4611686018427387904 * 4). by rewrite Z.mul_comm, Z.rem_mul_r, Z.mul_comm, Z.mod_add, Z.mod_mod by lia. }
  rewrite Hmod, u64_add_l. destruct (Z.eqb_spec (a mod 4) 0) as [Ha4|]; [|by apply wp_ret].
  destruct (Z.leb_spec (u64 (a + 60)) n) as [Hw|]; [|by apply wp_ret].
  destruct (Z.leb_spec n 1500) as [H1500|]; [|by apply wp_ret].
  cbn [andb]. rewrite u64_add_l.
  assert (-60 ≤ a ∧ a + 60 ≤ n) as [Ha60 Han].
  { destruct (Z.lt_ge_cases a (-60)) as [Hl|Hl].
    - unfold u64 in Hw. rewrite mod_neg in Hw by lia. lia.
    - rewrite u64_small in Hw by lia. by split. }
  pose proof (λ A (m : M Controller.t A) σ (Hσ : group_ok σ) (Hm : calm m), wp_fatal_or (bad_response s mem n) _ σ _ _ (kept_base m Hm σ Hσ)) as Hbase.
  apply wp_bind. eapply wp_mono; [apply Hbase; [exact Hs|apply calm_GetCurrentTime]|]. intros now s1 Hs1.
  apply wp_bind. eapply wp_mono; [apply Hbase; [exact Hs1|kept_all]|]. intros u s2 Hs2. apply wp_bind.
  destruct (Z.le_gt_cases a (-20)) as [Hbad|Hbad].
  { apply wp_at_outside; [|right; split; [done|]; unfold bad_response; fold a; split_and!; lia || done]. unfold u64. rewrite mod_neg; lia. }
  assert (-16 ≤ a) as Ha16 by dlia. rewrite (u64_small (a + 16)) by lia. apply at_whole; [lia..|].
  apply wp_bind, wp_fatal_or. eapply wp_mono; [apply kept_catch; [|exact Hs2]|intros v s3 Hs3; by apply wp_ret].
  apply throwing_if; [|apply kept_throwing, kept_ret]. set (buf := aes_cbc_decrypt _ _ _).
  assert (zlen buf = a + 16) as Hz by (unfold buf, zlen in *; rewrite cbc_decrypt_length, length_slice; lia).
  apply (throwing_with_stream (a + 16)); [|apply keptI_last_packets_info]. split; [|cbn; lia]. split; [|cbn; lia].
  rewrite <- Hz. apply ctor_wf; [by apply cbc_decrypt_wf|lia].
Qed.

(** ** A packet *)

Lemma wp_receive_group mem n s :
  wf_bytes mem → n ≤ zlen mem → zlen mem ≤ 4294967296 → group_ok s →
  wp (Group.receive mem n) s (λ _, group_ok) (λ _ _, False) (fatal_or (bad_response s mem n ∨ 72 ≤ n ≤ 75)).
Proof.
  intros Hmem Hn Hmax Hs. unfold Group.receive, catch_range.
  cut (wp (ProcessIncomingPacket mem n) s (λ _, group_ok) range (fatal_or (bad_response s mem n ∨ 72 ≤ n ≤ 75))).
  { unfold wp, try_catch. destruct (ProcessIncomingPacket mem n s); [done| |done]. by intros [-> ?]. }
  unfold ProcessIncomingPacket. destruct (Z.ltb_spec n 17); [by apply wp_ret|]. destruct (2000 <? n); [by apply wp_ret|]. cbn [orb].
  apply wp_bind, wp_get. do 2 (apply wp_bind, at_whole; [lia..|]). destruct (negb _); [by apply wp_ret|].
  apply wp_bind. eapply wp_weaken; [apply wp_special_response; [done|lia|done..]| |done|].
  2: { intros c [?|[-> ?]]; [by left|right; split; [done|by left]]. }
  intros special s1 Hs1. cbv beta.
  destruct special; [by apply wp_ret|]. destruct (Z.ltb_spec n 32); [by apply wp_ret|].
  apply wp_bind, at_whole; [lia..|]. apply wp_bind, wp_get.
  destruct (List.find _ _) as [sender|]; [|by apply wp_ret]. apply wp_bind, at_whole; [lia..|].
  destruct (negb _); [by apply wp_ret|]. apply wp_with_stream.
  eapply wp_weaken; [by apply wp_participant_packet| |done|].
  - by intros [] [i s2].
  - intros c [?|[-> ?]]; [by left|right; split; [done|by right]].
Qed.

(** ** Participants *)

(** Reading streams ends, whatever the bytes. *)
Lemma wp_GetPartBuffer len adv i (Q : BufferInputStream.t → BufferInputStream.t → Prop) (T : exn → BufferInputStream.t → Prop) D :
  0 ≤ len → reader_ok i → T OutOfRange i → (∀ x i', reader_ok x → reader_ok i' → Q x i') →
  wp (BufferInputStream.GetPartBuffer len adv) i Q T D.
Proof.
  intros Hlen [Hi Hmax] HT HQ. unfold BufferInputStream.GetPartBuffer.
  destruct (Z.lt_ge_cases (zlen (BufferInputStream.rest i)) len).
  { unfold wp. by rewrite short_bind. }
  apply wp_bind. unfold wp at 1. rewrite ensure_ok by (done || lia). apply wp_bind, wp_get.
  assert (reader_ok (BufferInputStream.ctor (take (Z.to_nat len) (drop (Z.to_nat (BufferInputStream.offset i)) (BufferInputStream.buffer i))) len)) as Hx.
  { fold (BufferInputStream.rest i). assert (zlen (BufferInputStream.rest i) ≤ BufferInputStream.length i).
    { unfold BufferInputStream.rest, zlen. rewrite length_drop. pose proof (BufferInputStream.wf_mem i Hi). unfold zlen in *. lia. }
    assert (zlen (take (Z.to_nat len) (BufferInputStream.rest i)) = len) as Hz by (unfold zlen in *; rewrite length_take; lia).
    split; [|cbn; lia]. rewrite <- Hz at 2. apply ctor_wf; [apply Forall_take, Forall_drop, Hi|lia]. }
  destruct adv.
  - apply wp_bind. unfold wp at 1. rewrite advance_ok by (done || lia). destruct (wf_advance i len Hi) as [Hi' _]; [lia|].
    apply wp_ret, HQ; done.
  - apply wp_bind, wp_ret, wp_ret, HQ; done.
Qed.
Definition stream_like (st : Stream) : Prop := jitterBuffer st = None ∧ packetReassembler st = None ∧ decoder st = false.
Lemma wp_read_streams n i l :
  reader_ok i → Forall stream_like l →
  wp (read_streams n) (i, l) (λ _ p, Forall stream_like p.2) (λ e p, e = OutOfRange ∧ Forall stream_like p.2) (λ _, False).
Proof.
  revert i l. induction n as [|n IH]; intros i l Hi Hl; cbn [read_streams]; [by apply wp_ret|].
  apply wp_bind, wp_on_stream. unfold read_stream.
  assert (∀ {A} (m : M BufferInputStream.t A) (x : BufferInputStream.t) (Q : A → BufferInputStream.t → Prop) (T : exn → BufferInputStream.t → Prop),
    reads False m → reader_ok x → (∀ a x', reader_ok x' → Q a x') → (∀ x', T OutOfRange x') → wp m x Q T (λ _, False)) as Hread.
  { intros A m x Q T Hm Hx HQ HT. eapply wp_weaken; [by apply Hm|done|by intros e x' ->|by intros c []]. }
  apply wp_bind, Hread; [keep|done| |done]. intros len i1 H1.
  apply wp_bind, wp_GetPartBuffer; [pose proof (u16_range len); lia|done|done|]. intros inner i2 Hin H2.
  apply wp_with_stream, wp_on_stream.
  do 5 (apply wp_bind, Hread; [keep|done| |done]; intros ? ? ?). apply wp_ret. cbn [snd].
  apply wp_bind, wp_on_self, wp_modify. apply IH; [done|]. apply Forall_app_2; [done|]. by apply Forall_singleton.
Qed.
Lemma DeserializeStreams_total data :
  wf_bytes data → zlen data ≤ 4294967296 → ∃ l, DeserializeStreams data = Some l ∧ Forall stream_like l.
Proof.
  intros Hb Hl. unfold DeserializeStreams.
  enough (wp (count ← on_stream BufferInputStream.ReadByte; read_streams (Z.to_nat count)) (BufferInputStream.ctor data (zlen data), [])
            (λ _ p, Forall stream_like p.2) (λ e p, e = OutOfRange ∧ Forall stream_like p.2) (λ _, False)) as Hw.
  { unfold wp in Hw. destruct ((on_stream BufferInputStream.ReadByte ≫= _) _) as [[] [i l]|e [i l]|]; [by exists l| |done].
    destruct Hw as [-> ?]. by exists l. }
  assert (reader_ok (BufferInputStream.ctor data (zlen data))) as Hr by (split; [apply ctor_wf; [done|lia]|done]).
  apply wp_bind, wp_on_stream. eapply wp_weaken; [by apply (reads_ReadByte False)| |by intros e x' ->|by intros c []].
  intros count i Hi. by apply wp_read_streams.
Qed.

Lemma wp_new_jitter_buffer frame s (Q : JitterBuffer.t → t → Prop) T :
  (∀ j, inv j → Q j s) → wp (new_jitter_buffer frame) s Q T fatal.
Proof.
  intros HQ. unfold wp, new_jitter_buffer, JitterBuffer.ctor.
  destruct (JitterBuffer.ctor_fields _ _ _) as [j|] eqn:Ej.
  - pose proof (safe_Reset j (ctor_fields_inv _ _ _ _ Hserver Ej)) as Hr. unfold wp in Hr.
    destruct (JitterBuffer.Reset j) as [[] j'| |c]; [|done|by left]. destruct Hr as [Hj' _].
    by apply HQ, SetMinPacketCount_inv.
  - by right.
Qed.

(** What adding the streams of a participant adds: streams in the store, and
    their inputs. *)
Definition good_at (user : Z) (k : nat) (g : GStream) : Prop :=
  owner g = user ∧ stream_ok (stream g) ∧ callbackWrapper g = if decoder (stream g) then Some (Z.of_nat k) else None.
Definition extended (gs : list GStream) (inp : AudioMixer.inputs) (s s' : t) : Prop :=
  s' = s <| store := store s ++ gs |> <| incoming := incoming s ++ List.seq (length (store s)) (length gs) |>
         <| inputs := inputs s ++ inp |>.
Lemma wp_add_streams user aid l s (Q : list nat → t → Prop) T :
  Forall stream_like l →
  (∀ gs inp s', extended gs inp s s' → (∀ k g, gs !! k = Some g → good_at user (length (store s) + k) g) →
     inp.*1 = omap callbackWrapper gs → Q (List.seq (length (store s)) (length gs)) s') →
  wp (add_streams user aid l) s Q T fatal.
Proof.
  revert aid s Q. induction l as [|st l IH]; intros aid s Q Hl HQ; cbn [add_streams].
  { apply wp_ret. apply (HQ [] []); [|done|done]. unfold extended. cbn. rewrite !app_nil_r. by destruct s. }
  inversion Hl as [|? ? (Hj & Hp & Hd) Hl']; subst. apply wp_bind, wp_gets. cbv zeta. set (n := length (store s)).
  set (usable := _ && _ && _). clearbody usable. apply wp_bind.
  assert (∀ g inp, good_at user n g → inp.*1 = omap callbackWrapper [g] →
    wp (modify (λ s, s <| store ::= λ m, m ++ [g] |> <| incoming ::= λ l, l ++ [n] |>);;
        ps ← add_streams user (if usable then s_id st else aid) l; mret (n :: ps))
      (s <| inputs := inputs s ++ inp |>) Q T fatal) as Hnext.
  { intros g inp Hg Hinp. apply wp_bind, wp_modify. apply wp_bind. apply IH; [done|].
    intros gs inp' s' -> Hgs Hinp'. apply wp_ret. cbn [store incoming inputs] in *.
    assert (length (store s ++ [g]) = S n) as Hlen by (rewrite length_app; simpl; unfold n; lia).
    unfold extended in *. cbn in *. rewrite Hlen in *.
    apply (HQ (g :: gs) (inp ++ inp')).
    - unfold extended. cbn. rewrite <- !app_assoc. done.
    - intros [|k] g' E; cbn in E; [simplify_eq; by rewrite Nat.add_0_r|]. specialize (Hgs k g' E).
      by replace (length (store s) + S k)%nat with (S n + k)%nat by (unfold n; lia).
    - rewrite fmap_app, Hinp, Hinp'. cbn. by destruct (callbackWrapper g). }
  destruct usable.
  - apply wp_bind, wp_new_jitter_buffer. intros j Hjv. apply wp_bind, wp_modify, wp_ret.
    apply (Hnext _ [(Z.of_nat n, F.of_Z 1)]); [|done]. split_and!; [done| |done]. split; [by intros j2 [= <-]|]. cbn. by rewrite Hp.
  - apply wp_ret. pose proof (Hnext (mkstream st user None) []) as Hn. rewrite app_nil_r in Hn.
    assert (s <| inputs := inputs s |> = s) as Es by by destruct s. rewrite Es in Hn. apply Hn; [|done].
    split_and!; [done| |cbn; by rewrite Hd]. split; cbn; [by rewrite Hj|by rewrite Hp].
Qed.

Definition added (user : Z) (s : t) (ps : list nat) (s' : t) : Prop :=
  ∃ gs inp, extended gs inp s s' ∧ (∀ k g, gs !! k = Some g → good_at user (length (store s) + k) g) ∧
    inp.*1 = omap callbackWrapper gs ∧ ps = List.seq (length (store s)) (length gs).

Lemma owned_app m gs p : owned m p → owned (m ++ gs) p.
Proof. intros Hp. eapply Forall_impl; [exact Hp|]. intros i (g & E & Ho). exists g. split; [by apply lookup_app_l_Some|done]. Qed.
Lemma owned_places m p i : owned m p → i ∈ streams p → (i < length m)%nat.
Proof. intros Hp Hi. eapply Forall_forall in Hp as (g & E & _); [|exact Hi]. by apply lookup_lt_Some in E. Qed.
Lemma incoming_places s i : group_ok s → i ∈ incoming s → (i < length (store s))%nat.
Proof.
  intros Hs. rewrite (go_incoming _ Hs), list_elem_of_join. intros (l & Hi & Hl).
  apply list_elem_of_fmap in Hl as (p & -> & Hp).
  pose proof (go_owned _ Hs) as Ho. eapply Forall_forall in Ho; [|exact Hp]. by eapply owned_places.
Qed.

Lemma existsb_users user l : existsb (λ p, userID p =? user) l = true ↔ user ∈ userID <$> l.
Proof.
  rewrite existsb_exists, list_elem_of_fmap. split.
  - intros (p & Hp & E). exists p. split; [lia|by apply list_elem_of_In].
  - intros (p & -> & Hp). exists p. split; [by apply list_elem_of_In|lia].
Qed.
(** Adding aborts for a user who is there, and only then. *)
Definition already_there (user : Z) s : Prop := user ∈ userID <$> participants s ∧ user ≠ userSelfID s ∧ userSelfID s ≠ 0.
Lemma wp_AddGroupCallParticipant user tagHash data s :
  wf_bytes data → zlen data ≤ 4294967296 → group_ok s →
  wp (AddGroupCallParticipant user tagHash data) s (λ _, group_ok) (λ _ _, False) (λ c, fatal c ∨ c = AbortCalled ∧ already_there user s).
Proof.
  intros Hb Hl Hs. unfold AddGroupCallParticipant. apply wp_bind, wp_get.
  destruct (Z.eqb_spec user (userSelfID s)); [by apply wp_ret|]. destruct (Z.eqb_spec (userSelfID s) 0); [by apply wp_ret|].
  destruct (existsb _ _) eqn:Ex; [apply existsb_users in Ex; right; by split_and!|].
  assert (user ∉ userID <$> participants s) as Hno by (rewrite <- existsb_users, Ex; done).
  destruct (DeserializeStreams_total data Hb Hl) as (l & El & Hlike). rewrite El.
  apply wp_bind. eapply wp_defined; [done|]. apply wp_bind. eapply wp_weaken; [apply (wp_add_streams user 0 l s (added user s) (λ _ _, False) Hlike)| |done|by left].
  { intros gs inp s' Hex Hgs Hinp. by exists gs, inp. }
  intros ps s' (gs & inp & -> & Hgs & Hinp & ->). apply wp_modify. set (p := mkparticipant user _ _ _).
  pose proof (incoming_places s) as Hplaces. specialize (λ i, Hplaces i Hs).
  destruct Hs as [H1 H2 H3 H4 H5 H6 H7 H8 H9]. unfold extended in *. constructor; cbn.
  - done.
  - done.
  - apply Forall_app_2; [done|]. apply Forall_lookup. intros k g E. by apply Hgs in E as (_ & ? & _).
  - intros i g [E|[Hge E]]%lookup_app_Some; [by apply H4|]. apply Hgs in E as (_ & _ & ->). by rewrite Nat.add_comm, Nat.sub_add.
  - rewrite fmap_app. apply NoDup_app. split_and!; [done| |apply NoDup_singleton]. intros u Hu Hu'. apply list_elem_of_singleton in Hu' as ->. done.
  - apply Forall_app_2; [eapply Forall_impl; [exact H6|intros; by apply owned_app]|]. apply Forall_singleton. apply Forall_forall. intros i Hi.
    apply list_elem_of_In, in_seq in Hi. destruct (lookup_lt_is_Some_2 gs (i - length (store s))) as [g E]; [lia|].
    exists g. split; [rewrite lookup_app_r by lia; done|]. by apply Hgs in E as (-> & _).
  - rewrite H7, fmap_app, join_app. cbn. by rewrite app_nil_r.
  - apply NoDup_app. split_and!; [done| |apply NoDup_ListNoDup, seq_NoDup]. intros i Hi Hi'. apply list_elem_of_In, in_seq in Hi'.
    specialize (Hplaces i Hi). lia.
  - rewrite fmap_app, omap_app, H9, Hinp. f_equal.
    + apply omap_same. intros i Hi. unfold input_of. rewrite lookup_app_l by by apply Hplaces. done.
    + clear. revert gs. intros gs. assert (∀ m k, m = length k → omap callbackWrapper gs = omap (input_of (k ++ gs)) (List.seq m (length gs))) as Hg; [|by apply Hg].
      induction gs as [|g gs IH]; intros m k ->; [done|]. cbn [length List.seq omap list_omap].
      assert (input_of (k ++ g :: gs) (length k) = callbackWrapper g) as ->.
      { unfold input_of. rewrite lookup_app_r, Nat.sub_diag by done. done. }
      specialize (IH (S (length k)) (k ++ [g])). rewrite length_app, <- app_assoc in IH. cbn in IH. rewrite <- IH by lia. done.
Qed.

(** A user can be removed when every stream of theirs has a decoder. *)
Definition blocked (user : Z) (m : list GStream) (i : nat) : bool :=
  match m !! i with Some g => (owner g =? user) && negb (decoder (stream g)) | None => false end.
Definition removable (user : Z) s : Prop := Forall (λ i, blocked user (store s) i = false) (incoming s).
Definition of_others (user : Z) (m : list GStream) (i : nat) : bool :=
  match m !! i with Some g => negb (owner g =? user) | None => true end.

Lemma RemoveInput_fst w (a b : list Z) (l : AudioMixer.inputs) :
  l.*1 = a ++ w :: b → w ∉ a → (AudioMixer.RemoveInput w l).*1 = a ++ b.
Proof.
  revert a. induction l as [|[x k] l IH]; intros a E Ha; [by destruct a|]. cbn [AudioMixer.RemoveInput fst].
  destruct a as [|y a]; cbn in E; simplify_eq.
  - by rewrite Z.eqb_refl.
  - destruct (Z.eqb_spec y w) as [->|]; [destruct Ha; by left|]. cbn. f_equal. apply IH; [done|]. intros Hw. apply Ha. by right.
Qed.
Lemma wp_remove_streams user l s d (Q : list nat → t → Prop) T D :
  NoDup l → (∀ i, i ∈ l → Z.of_nat i ∉ d) →
  (∀ i, i ∈ l → ∃ g, store s !! i = Some g ∧ (owner g = user → decoder (stream g) = true) ∧
     callbackWrapper g = if decoder (stream g) then Some (Z.of_nat i) else None) →
  (inputs s).*1 = d ++ omap (input_of (store s)) l →
  (∀ inp, inp.*1 = d ++ omap (input_of (store s)) (List.filter (of_others user (store s)) l) →
     Q (List.filter (of_others user (store s)) l) (s <| inputs := inp |>)) →
  wp (remove_streams user l) s Q T D.
Proof.
  revert s d Q. induction l as [|p l IH]; intros s d Q Hnd Hd Hg Hin HQ; cbn [remove_streams].
  { apply wp_ret. assert (s <| inputs := inputs s |> = s) as <- by by destruct s. by apply HQ. }
  apply NoDup_cons in Hnd as [Hp Hnd]. destruct (Hg p ltac:(by left)) as (g & Eg & Hdec & Hw).
  assert (input_of (store s) p = callbackWrapper g) as Hip by (unfold input_of; by rewrite Eg).
  apply wp_bind, wp_get, wp_bind. eapply wp_defined; [exact Eg|].
  assert (of_others user (store s) p = negb (owner g =? user)) as Hof by (unfold of_others; by rewrite Eg).
  cbn [List.filter] in HQ. rewrite Hof in HQ. cbn [omap list_omap] in Hin. rewrite Hip in Hin.
  destruct (Z.eqb_spec (owner g) user) as [Eo|Eo]; cbn [negb] in HQ.
  - rewrite (Hdec Eo) in *. rewrite Hw in Hin. apply wp_bind, wp_modify. rewrite Hw.
    apply (IH _ d); cbn; [done|intros i Hi; apply Hd; by right|intros i Hi; apply Hg; by right| |].
    + eapply RemoveInput_fst; [exact Hin|apply Hd; by left].
    + intros inp Hinp. by apply HQ.
  - apply wp_bind. apply (IH _ (d ++ omap (input_of (store s)) [p])).
    + done.
    + cbn. rewrite Hip, Hw. intros i Hi. destruct (decoder (stream g)); rewrite ?app_nil_r; [|apply Hd; by right].
      rewrite not_elem_of_app, list_elem_of_singleton. split; [apply Hd; by right|]. intros ->%Nat2Z.inj. done.
    + intros i Hi. apply Hg. by right.
    + cbn. rewrite Hip, <- app_assoc, Hin. by destruct (callbackWrapper g).
    + intros inp Hinp. apply wp_ret, HQ. rewrite Hinp, <- app_assoc. f_equal. cbn. rewrite Hip. by destruct (callbackWrapper g).
Qed.

Lemma erase_participant_sublist user l : erase_participant user l `sublist_of` l.
Proof. induction l as [|p l IH]; cbn; [done|]. destruct (_ =? _); [by apply sublist_cons|by apply sublist_skip]. Qed.
Lemma streams_of_others user m l :
  NoDup (userID <$> l) → Forall (owned m) l →
  List.filter (of_others user m) (mjoin (streams <$> l)) = mjoin (streams <$> erase_participant user l).
Proof.
  assert (∀ p, owned m p → List.filter (of_others user m) (streams p) = if userID p =? user then [] else streams p) as Hone.
  { intros p. unfold owned. induction 1 as [|i l' (g & Eg & Eo) _ IH]; [by destruct (_ =? _)|]. cbn. unfold of_others at 1.
    rewrite Eg, Eo, IH. by destruct (userID p =? user). }
  induction l as [|p l IH]; intros Hnd Ho; [done|]. inversion Ho as [|? ? Hp Ho']; subst. cbn in Hnd. apply NoDup_cons in Hnd as [Hno Hnd].
  change (mjoin (streams <$> p :: l)) with (streams p ++ mjoin (streams <$> l)). rewrite List.filter_app, Hone by done. cbn [erase_participant].
  destruct (Z.eqb_spec (userID p) user) as [<-|]; [|change (mjoin (streams <$> p :: erase_participant user l)) with (streams p ++ mjoin (streams <$> erase_participant user l)); f_equal; by apply IH].
  rewrite IH by done. cbn [app]. f_equal. f_equal. clear -Hno. induction l as [|q l IH]; [done|]. cbn in *.
  apply not_elem_of_cons in Hno as [Hq Hno]. rewrite (proj2 (Z.eqb_neq _ _)) by congruence. f_equal. by apply IH.
Qed.
Lemma erase_participant_filter user l :
  NoDup (userID <$> l) → erase_participant user l = List.filter (λ p, negb (userID p =? user)) l.
Proof.
  induction l as [|p l IH]; [done|]. cbn. intros [Hp Hnd]%NoDup_cons. destruct (Z.eqb_spec (userID p) user) as [E|]; cbn; [|f_equal; by apply IH].
  clear IH Hnd. induction l as [|q l IH]; [done|]. cbn in *. apply not_elem_of_cons in Hp as [Hq Hp].
  rewrite (proj2 (Z.eqb_neq (userID q) user)) by congruence. cbn. f_equal. by apply IH.
Qed.
(** Exactly the user, their streams and their inputs are gone. *)
Definition without (user : Z) s s' : Prop :=
  participants s' = List.filter (λ p, negb (userID p =? user)) (participants s) ∧
  incoming s' = List.filter (of_others user (store s)) (incoming s) ∧ store s' = store s.
Lemma wp_RemoveGroupCallParticipant user s T D :
  group_ok s → removable user s → wp (RemoveGroupCallParticipant user) s (λ _ s', group_ok s' ∧ without user s s') T D.
Proof.
  intros Hs Hrem. apply wp_bind, wp_gets, wp_bind.
  assert (∀ i, i ∈ incoming s → ∃ g, store s !! i = Some g) as Hst.
  { intros i Hi. apply lookup_lt_is_Some_2. by apply incoming_places. }
  destruct Hs as [H1 H2 H3 H4 H5 H6 H7 H8 H9].
  apply (wp_remove_streams user (incoming s) s []); [done|by intros ? _ ?%elem_of_nil| |done|].
  - intros i Hi. destruct (Hst i Hi) as [g Eg]. exists g. split_and!; [done| |by apply H4]. intros Eo.
    unfold removable in Hrem. eapply Forall_forall in Hrem; [|exact Hi]. unfold blocked in Hrem. rewrite Eg, Eo, Z.eqb_refl in Hrem.
    by destruct (decoder (stream g)).
  - intros inp Hinp. apply wp_modify. pose proof (erase_participant_sublist user (participants s)) as Hsub.
    split; [|split_and!; [by apply erase_participant_filter|done..]].
    constructor; cbn; try done.
    + eapply sublist_NoDup; [exact H5|]. by apply fmap_sublist.
    + apply Forall_forall. intros p Hp. eapply Forall_forall in H6; [exact H6|]. by eapply elem_of_sublist.
    + rewrite H7. by apply streams_of_others.
    + apply NoDup_ListNoDup, List.NoDup_filter, NoDup_ListNoDup, H8.
Qed.

(** Otherwise the null pointer of the stream without a decoder is used. *)
Lemma remove_streams_crashes user l s :
  (∀ i, i ∈ l → is_Some (store s !! i)) → ¬ Forall (λ i, blocked user (store s) i = false) l →
  remove_streams user l s = Crash UndefinedBehaviour.
Proof.
  revert s. induction l as [|p l IH]; intros s Hst Hb; [by destruct Hb|]. cbn [remove_streams].
  destruct (Hst p ltac:(by left)) as [g Eg]. unfold mbind, M_bind, get. unfold defined at 1. rewrite Eg.
  rewrite Forall_cons in Hb. assert (blocked user (store s) p = (owner g =? user) && negb (decoder (stream g))) as Hp by (unfold blocked; by rewrite Eg).
  destruct (owner g =? user) eqn:Eo.
  - unfold modify. destruct (decoder (stream g)) eqn:Ed; [|done]. apply IH; cbn; [intros i Hi; apply Hst; by right|].
    intros Hl. by apply Hb.
  - assert (remove_streams user l s = Crash UndefinedBehaviour) as Hc; [|by rewrite Hc].
    apply IH; [intros i Hi; apply Hst; by right|]. intros Hl. by apply Hb.
Qed.
Lemma remove_crashes user s : group_ok s → ¬ removable user s → RemoveGroupCallParticipant user s = Crash UndefinedBehaviour.
Proof.
  intros Hs Hr. unfold RemoveGroupCallParticipant, mbind, M_bind, gets.
  assert (remove_streams user (incoming s) s = Crash UndefinedBehaviour) as Hc; [|by rewrite Hc].
  apply remove_streams_crashes; [|done]. intros i Hi. apply lookup_lt_is_Some_2. by apply incoming_places.
Qed.

Lemma calm_routes {A} (m : M Endpoints.t A) : (∀ r, wp m r (λ _ _, True) (λ _ _, False) (λ _, False)) → calm (on_routes m).
Proof. intros Hm c. apply wp_zoom. eapply wp_mono; [apply Hm|]. done. Qed.
Lemma kept_SetGroupCallInfo key gt st se sh self a v6 port : kept (SetGroupCallInfo key gt st se sh self a v6 port).
Proof. unfold SetGroupCallInfo. kept_all; by apply calm_routes. Qed.
Lemma kept_set_enabled user places l : kept (set_enabled user places l).
Proof.
  induction l as [|ns l IH]; cbn [set_enabled]; [kept_all|]. apply kept_captured. intros s Hs. apply kept_bind; [|intros _; exact IH].
  destruct (place_of _ _ _) as [p|]; [|kept_all]. apply kept_bind; [|intros _; kept_all].
  apply kept_change; [by intros st []|done].
Qed.
Lemma kept_SetParticipantStreams user data : wf_bytes data → zlen data ≤ 4294967296 → kept (SetParticipantStreams user data).
Proof.
  intros Hb Hl. unfold SetParticipantStreams. apply kept_captured. intros s Hs. destruct (find_participant _ _); [|kept_all].
  destruct (DeserializeStreams_total data Hb Hl) as (l & -> & _). apply kept_set_enabled.
Qed.
Lemma SetInputVolume_fst w db (l : AudioMixer.inputs) : (AudioMixer.SetInputVolume w db l).*1 = l.*1.
Proof. induction l as [|[x k] l IH]; cbn; [done|]. destruct (x =? w); cbn; [done|by rewrite IH]. Qed.
Lemma kept_SetParticipantVolume user v : kept (SetParticipantVolume user v).
Proof.
  unfold SetParticipantVolume. apply kept_captured. intros s Hs. destruct (find_participant user s) as [p|] eqn:Ep; [|kept_all].
  apply find_some in Ep as [Hp _]. apply list_elem_of_In in Hp. pose proof (go_owned _ Hs) as Ho.
  eapply Forall_forall in Ho; [|exact Hp].
  assert (∃ gs, mapM (λ i, store s !! i) (streams p) = Some gs) as [gs ->].
  { apply mapM_is_Some. eapply Forall_impl; [exact Ho|]. intros i (g & E & _). by exists g. }
  apply kept_bind; [by intros ?|intros gs']. destruct (List.find _ gs') as [g|]; [|kept_all].
  destruct (decoder (stream g)); [|kept_all]. apply kept_modify. intros s' []. constructor; try done.
  cbn. destruct (callbackWrapper g); [|done]. cbn. by rewrite SetInputVolume_fst.
Qed.
Lemma kept_SetNetworkType ty active itf : kept (Group.SetNetworkType ty active itf).
Proof. unfold Group.SetNetworkType. kept_all; [apply calm_data_saving|apply calm_bitrate_limit]. Qed.
Lemma kept_OnAudioOutputReady s :
  group_ok s → is_Some (encoder (audio (base s))) → audioOutput (audio (base s)) = true →
  wp OnAudioOutputReady s (λ _, group_ok) (λ _ _, False) fatal.
Proof.
  intros Hs [e He] Hout. unfold OnAudioOutputReady. apply wp_bind, wp_get. rewrite He, Hout, bool_decide_eq_false_2 by done.
  revert s Hs He Hout. intros s Hs _ _. revert s Hs. change (kept (modify (λ s, s <| encoderDTX := true |> <| mixing := true |>);;
    on_base (emit OutputStart;; on_audio (λ a, a <| playing := true |>);; modify (λ c, c <| audioOutStarted := true |>)))). kept_all.
Qed.

(** The request for acknowledgements fits its buffer. *)
Lemma kept_special_request data : zlen data ≤ 1000 → kept (SendSpecialReflectorRequest data).
Proof.
  intros Hd s Hs. unfold SendSpecialReflectorRequest.
  assert (∀ k s (Q : bytes → t → Prop), group_ok s → (∀ l s', zlen l ≤ Z.of_nat k → group_ok s' → Q l s') →
    wp (on_base (rand_bytes k)) s Q (λ _ _, False) fatal) as Hrand.
  { intros k s1 Q Hs1 HQ. apply wp_zoom. unfold wp, rand_bytes. cbn. apply HQ; [unfold zlen; rewrite length_take; lia|].
    destruct Hs1; by constructor. }
  apply wp_bind, Hrand; [done|]. intros nonce s1 Hn H1. cbv zeta. set (out := nonce ++ _).
  assert (zlen out ≤ 1012) as Hout by (unfold out; rewrite !zlen_app, zlen_le_bytes; lia).
  apply wp_bind.
  assert (∀ out' s', zlen out' ≤ 1028 → group_ok s' →
    wp (iv ← on_base (rand_bytes 16); s0 ← get;
        (if 1500 <? zlen out' then crash_with UndefinedBehaviour
         else on_base (ActuallySendPacket (groupReflector s0)
           ((reflectorSelfTag s0 ++ iv ++ aes_cbc_encrypt (sha256 (reflectorSelfSecret s0)) iv out') ++
            signature (reflectorSelfSecret s0) (reflectorSelfTag s0 ++ iv ++ aes_cbc_encrypt (sha256 (reflectorSelfSecret s0)) iv out')))))
      s' (λ _, group_ok) (λ _ _, False) fatal) as Hsend.
  { intros out' s' Ho Hs'. apply wp_bind, Hrand; [done|]. intros iv s2 _ H2. apply wp_bind, wp_get.
    rewrite (proj2 (Z.ltb_ge 1500 (zlen out'))) by lia. apply kept_base; [|done]. apply calm_ActuallySendPacket, H2. }
  destruct (length out mod 16 =? 0)%nat.
  - apply wp_ret. apply Hsend; [lia|done].
  - apply wp_bind, Hrand; [done|]. intros pad s2 Hp H2. apply wp_ret. apply Hsend; [|done]. rewrite zlen_app. lia.
Qed.
Lemma writes_Int64 z : writes 8 (BufferOutputStream.WriteInt64 z).
Proof. intros d o Hg Hl. eapply wp_WriteInt64; [done|lia|]. intros o' Hg'. eexists. split; [done|]. rewrite zlen_app, zlen_le_bytes. lia. Qed.
Lemma kept_recent_request now : kept (SendRecentPacketsRequest now).
Proof.
  unfold SendRecentPacketsRequest. apply kept_captured. intros s Hs s' Hs'. apply wp_bind.
  apply (wp_built 1024 24); [lia..| |].
  - apply (writes_bind 4 20); [lia|apply writes_Int32|]. apply (writes_bind 4 16); [lia|apply writes_Int32|].
    apply (writes_bind 8 8); [lia|apply writes_Int64|]. apply (writes_bind 4 4); [lia|apply writes_Int32..].
  - intros d Hd. apply kept_special_request; [lia|done].
Qed.

(* ------------------------------------------------------------------ *)
(** ** The whole *)

(** What the program and the network do with a group call. *)
Inductive op :=
| OpInfo (key groupTag selfTag selfSecret selfTagHash : bytes) (self : Z) (address v6 : NetworkAddress.t) (port : Z)
| OpInitializeAudio
| OpAdd (user : Z) (tagHash serialized : bytes)
| OpRemove (user : Z)
| OpStreams (user : Z) (serialized : bytes)
| OpVolume (user : Z) (volume : float)
| OpMute (mute : bool)
| OpNetwork (type : NetType) (active itf : string)
| OpPings (now : Z)
| OpPacket (mem : bytes) (n : Z).

Definition run (o : op) : M t unit :=
  match o with
  | OpInfo key gt st se sh self a v6 port => SetGroupCallInfo key gt st se sh self a v6 port
  | OpInitializeAudio => on_base Setup.InitializeAudio
  | OpAdd user tagHash data => AddGroupCallParticipant user tagHash data
  | OpRemove user => RemoveGroupCallParticipant user
  | OpStreams user data => SetParticipantStreams user data
  | OpVolume user v => SetParticipantVolume user v
  | OpMute b => SetMicMute b
  | OpNetwork ty active itf => _ ← Group.SetNetworkType ty active itf; mret tt
  | OpPings now => SendRelayPings now
  | OpPacket mem n => Group.receive mem n
  end.

(** Arguments that are real memory. *)
Definition memory (l : bytes) : Prop := wf_bytes l ∧ zlen l ≤ 4294967296.
Definition valid (o : op) : Prop :=
  match o with
  | OpAdd _ _ data | OpStreams _ data => memory data
  | OpPacket mem n => memory mem ∧ n ≤ zlen mem
  | _ => True
  end.

(** What can end the process: a user who is added twice, one who is removed
    while a stream of theirs has no decoder, a response with a length that
    wraps, a packet too short for its hash. *)
Definition doomed (o : op) (s : t) (c : crash) : Prop :=
  match o with
  | OpAdd user _ _ => c = AbortCalled ∧ already_there user s
  | OpRemove user => c = UndefinedBehaviour ∧ ¬ removable user s
  | OpPacket mem n => c = UndefinedBehaviour ∧ (bad_response s mem n ∨ 72 ≤ n ≤ 75)
  | _ => False
  end.

Lemma kept_SendRelayPings now : kept (SendRelayPings now).
Proof. unfold SendRelayPings. kept_all. apply kept_recent_request. Qed.
Lemma wp_run o s : valid o → group_ok s → wp (run o) s (λ _, group_ok) (λ _ _, False) (λ c, fatal c ∨ doomed o s c).
Proof.
  intros Hv Hs.
  assert (∀ m : M t unit, kept m → wp m s (λ _, group_ok) (λ _ _, False) (λ c, fatal c ∨ doomed o s c)) as Hkept.
  { intros m Hm. eapply wp_weaken; [by apply Hm|done..|by left]. }
  destruct o; cbn [run valid doomed] in *.
  - apply Hkept, kept_SetGroupCallInfo.
  - apply Hkept, kept_base, calm_InitializeAudio.
  - destruct Hv. by apply wp_AddGroupCallParticipant.
  - destruct (decide (removable user s)) as [Hr|Hr].
    + eapply wp_weaken; [by apply (wp_RemoveGroupCallParticipant user s (λ _ _, False) (λ _, False))|by intros ? ? []|done|done].
    + unfold wp. rewrite remove_crashes by done. by right.
  - destruct Hv. by apply Hkept, kept_SetParticipantStreams.
  - apply Hkept, kept_SetParticipantVolume.
  - apply Hkept, kept_SetMicMute.
  - apply Hkept, kept_bind; [apply kept_SetNetworkType|intros _; apply kept_ret].
  - apply Hkept, kept_SendRelayPings.
  - destruct Hv as [[? ?] ?]. by apply wp_receive_group.
Qed.

(** Reached from the constructor by operations that return. *)
Inductive step (s s' : t) : Prop := op_step o : valid o → run o s = Ret tt s' → step s s'.
Definition reachable (s : t) : Prop := ∃ difference, star step (create difference) s.

Lemma create_ok difference : group_ok (create difference).
Proof. constructor; cbn; try done; try apply NoDup_nil_2; try lia. Qed.
Lemma reachable_ok s : reachable s → group_ok s.
Proof.
  intros [d Hstar]. cut (group_ok (create d)); [|apply create_ok]. revert Hstar. apply (star_invariant step group_ok).
  intros a b [o Hv Ho] Ha. pose proof (wp_run o a Hv Ha) as Hr. unfold wp in Hr. by rewrite Ho in Hr.
Qed.


(** A user who has a stream without a decoder (not Opus, or a second
    one) cannot be removed: the null pointer is used.  Otherwise removing a
    user forgets exactly them, their streams and their inputs. *)
Theorem removing_a_user s user :
  reachable s →
  if decide (removable user s) then
    match RemoveGroupCallParticipant user s with
    | Ret _ s' => participants s' = List.filter (λ p, negb (userID p =? user)) (participants s) ∧
                  incoming s' = List.filter (of_others user (store s)) (incoming s) ∧
                  (inputs s').*1 = omap (input_of (store s)) (incoming s')
    | _ => False
    end
  else RemoveGroupCallParticipant user s = Crash UndefinedBehaviour.
Proof.
  intros Hr. pose proof (reachable_ok s Hr) as Hs. destruct (decide _) as [Hrem|Hrem]; [|by apply remove_crashes].
  pose proof (wp_RemoveGroupCallParticipant user s (λ _ _, False) (λ _, False) Hs Hrem) as Hw. unfold wp in Hw.
  destruct (RemoveGroupCallParticipant user s) as [[] s'| |]; [|done..]. destruct Hw as [Hs' (Hp & Hi & Est)].
  split_and!; [done..|]. rewrite <- Est. apply Hs'.
Qed.
End operations.

(* ------------------------------------------------------------------ *)
(** ** Examples *)

(** AES in CBC mode for examples: the data itself. *)
#[local] Instance toy_cbc : CbcFunctions := { aes_cbc_encrypt _ _ l := l; aes_cbc_decrypt _ _ l := l }.
#[local] Instance toy_cbc_laws : CbcLaws.
Proof. by split. Qed.
(** Functions in place of the exponential and the logarithm. *)
#[local] Instance toy_libm : Libm := { expf x := x; logf x := x }.

Section example.
#[local] Existing Instance example_random.
#[local] Existing Instance example_server.
#[local] Existing Instance example_host.
#[local] Existing Instance example_platform.
#[local] Existing Instance Wire.toy_crypto.
#[local] Existing Instance Wire.toy_laws.
#[local] Existing Instance stopped.
#[local] Existing Instance toy_libm.
Import Controller Group.

Definition after (o : op) (s : Group.t) : Group.t := match run o s with Ret _ s' => s' | _ => s end.
(** Two streams of a user: the second one is not played. *)
Definition two_streams : bytes :=
  [2] ++ flat_map (λ i, [12; 0; i; 1] ++ le_bytes 4 CODEC_OPUS ++ [1; 0; 0; 0; 60; 0]) [1; 2].
Definition one_stream : bytes := [1; 12; 0; 1; 1] ++ le_bytes 4 CODEC_OPUS ++ [1; 0; 0; 0; 60; 0].
Definition join_group (user : Z) (selfTag : bytes) : op :=
  OpInfo (replicate 256 7) (replicate 16 1) (replicate 16 2) (replicate 16 3) selfTag user (NetworkAddress.IPv4 16909060) Endpoint.noIPv6 500.
Definition example_group : Group.t := after (OpAdd 8 (replicate 32 8) one_stream) (after (join_group 5 (replicate 16 5)) (create 0)).
Definition unplayed_group : Group.t := after (OpAdd 9 (replicate 32 9) two_streams) example_group.

Lemma example_group_reachable : reachable example_group.
Proof.
  exists 0. eapply star_step; [|eapply star_step; [|constructor]].
  - apply (op_step _ _ (join_group 5 (replicate 16 5))); [done|]. by vm_compute.
  - apply (op_step _ _ (OpAdd 8 (replicate 32 8) one_stream)); [|by vm_compute].
    split; [|by vm_compute]. by repeat constructor.
Qed.

Lemma removing_a_user_witness :
  if decide (removable 8 example_group) then
    match RemoveGroupCallParticipant 8 example_group with
    | Ret _ s' => participants s' = List.filter (λ p, negb (userID p =? 8)) (participants example_group) ∧
                  incoming s' = List.filter (of_others 8 (store example_group)) (incoming example_group) ∧
                  (inputs s').*1 = omap (input_of (store example_group)) (incoming s')
    | _ => False
    end
  else RemoveGroupCallParticipant 8 example_group = Crash UndefinedBehaviour.
Proof. apply (removing_a_user example_server_ok example_group 8). exact example_group_reachable. Defined.
(** Both cases: the participant is removed; the one with two streams is not. *)
Example removed_and_not :
  (participants <$> match RemoveGroupCallParticipant 8 example_group with Ret _ s => Some s | _ => None end) = Some [] ∧
  RemoveGroupCallParticipant 9 unplayed_group = Crash UndefinedBehaviour.
Proof. by split; vm_compute. Qed.
End example.
