(* ===== verification/GroupBytes.v ===== *)
(** * The bytes of a group call

    Lists of streams are read back as they were written, a frame of audio
    that one participant sends reaches the jitter buffer of every other one,
    and packets of 72 bytes end the process. *)

From Stdlib Require Import ZArith Lia SpecFloat List.
From stdpp Require Import base tactics list numbers option gmap strings.
From S2P Require Import Prelude Words Double Single History Memory Buffers Streams Seq Congestion Link Net Wire Packet.
From S2P Require Import Cursor Jitter Samples Endpoints Controller Incoming Setup Timers Group CallSafety ReceiveSafety GroupSafety.
From stdpp Require Import list.
Open Scope Z_scope.

(* ------------------------------------------------------------------ *)
(** ** Lists of streams *)

Section streams.
Import Packet Controller Group.

(** The fields of a stream fit the bytes they are written to. *)
Definition fits (st : Stream) : Prop :=
  is_u8 (s_id st) ∧ is_u8 (s_type st) ∧ is_u32 (codec st) ∧ 0 ≤ frameDuration st < 65536.
(** What the list says of a stream. *)
Definition announced_stream (st : Stream) : Stream :=
  new_stream <| s_id := s_id st |> <| s_type := s_type st |> <| codec := codec st |>
             <| enabled := enabled st |> <| frameDuration := frameDuration st |>.

Import BufferInputStream.

Lemma stream_bytes_wf st : fits st → wf_bytes (stream_bytes st).
Proof. intros (? & ? & _). unfold stream_bytes. apply Forall_app_2; [repeat constructor; lia|]. do 2 (apply Forall_app_2; [apply le_bytes_wf|]). apply le_bytes_wf. Qed.
Lemma streams_bytes_wf l : Forall fits l → wf_bytes (streams_bytes l).
Proof.
  intros Hl. constructor; [apply u8_range|]. induction Hl as [|st l Hst _ IH]; [constructor|].
  apply Forall_app_2; [|exact IH]. apply Forall_app_2; [apply le_bytes_wf|by apply stream_bytes_wf].
Qed.

(** A part of the stream that is taken. *)
Lemma wp_GetPartBuffer_fits b tl x (Q : t → t → Prop) T C :
  wf x → rest x = b ++ tl → (∀ x', wf x' → rest x' = tl → Q (ctor b (zlen b)) x') → wp (GetPartBuffer (zlen b) true) x Q T C.
Proof.
  intros Hwf Hr HQ. pose proof (zlen_nonneg b). pose proof (zlen_rest_app x _ _ Hr). unfold GetPartBuffer.
  apply wp_bind. unfold wp at 1. rewrite ensure_ok by done. apply wp_bind, wp_get. apply wp_bind.
  unfold wp at 1. rewrite advance_ok by done. destruct (wf_advance x (zlen b) Hwf) as [Hwf' Hr']; [lia|]. apply wp_ret.
  fold (rest x). rewrite Hr in *. unfold zlen in *. rewrite Nat2Z.id in *. rewrite take_app_length. apply HQ; [done|].
  by rewrite Hr', drop_app_length.
Qed.
Lemma flag_of_stream (b : bool) : has (u32 (s32 (u8 (Z.lor (if b then STREAM_FLAG_ENABLED else 0) STREAM_FLAG_DTX)))) STREAM_FLAG_ENABLED = b.
Proof. by destruct b. Qed.
Lemma wp_read_stream st tl x (Q : Stream → t → Prop) T C :
  fits st → wf x → rest x = item_bytes st ++ tl → (∀ x', wf x' → rest x' = tl → Q (announced_stream st) x') →
  wp read_stream x Q T C.
Proof.
  intros Hf Hwf Hr HQ. unfold item_bytes in Hr. rewrite <- app_assoc in Hr. unfold read_stream.
  apply wp_bind. eapply wp_ReadInt16; [done..|]. intros x1 Hw1 Hr1. change (u16 (s16 12)) with (zlen (stream_bytes st)).
  apply wp_bind. eapply wp_GetPartBuffer_fits; [done..|]. intros x2 Hw2 Hr2.
  apply wp_with_stream, wp_on_stream.
  pose proof (ctor_wf (stream_bytes st) (stream_bytes_wf st Hf) ltac:(by vm_compute)) as Hi.
  pose proof (rest_ctor (stream_bytes st)) as Hri. set (i := ctor _ _) in *. clearbody i. unfold stream_bytes in Hri.
  apply wp_bind. eapply wp_ReadByte; [done..|]. intros i1 Wi1 Ri1.
  apply wp_bind. eapply wp_ReadByte; [done..|]. intros i2 Wi2 Ri2.
  apply wp_bind. eapply wp_ReadInt32; [done..|]. intros i3 Wi3 Ri3.
  apply wp_bind. eapply wp_ReadInt32; [done..|]. intros i4 Wi4 Ri4.
  apply wp_bind. eapply wp_ReadInt16; [done|by rewrite Ri4, app_nil_r|]. intros i5 _ _. apply wp_ret. cbn [snd].
  rewrite flag_of_stream. destruct Hf as (_ & _ & Hc & Hd).
  assert (u32 (s32 (s32 (codec st))) = codec st) as -> by word_lia.
  assert (u16 (s16 (s16 (frameDuration st))) = frameDuration st) as -> by word_lia.
  by apply HQ.
Qed.
Lemma wp_read_streams_written l more x done_ tl (Q : unit → t * list Stream → Prop) T C :
  Forall fits l → wf x → rest x = mjoin (item_bytes <$> l ++ more) ++ tl →
  (∀ x', Q tt (x', done_ ++ (announced_stream <$> l))) → wp (read_streams (List.length l)) (x, done_) Q T C.
Proof.
  intros Hl. revert x done_. induction Hl as [|st l Hst _ IH]; intros x done_ Hwf Hr HQ; cbn [List.length read_streams].
  { apply wp_ret. by rewrite app_nil_r in HQ. }
  change (mjoin (item_bytes <$> (st :: l) ++ more)) with (item_bytes st ++ mjoin (item_bytes <$> l ++ more)) in Hr. rewrite <- app_assoc in Hr.
  apply wp_bind, wp_on_stream. eapply wp_read_stream; [done..|]. intros x1 Hw1 Hr1.
  apply wp_bind, wp_on_self, wp_modify. apply IH; [done..|]. intros x'. rewrite <- app_assoc. apply HQ.
Qed.

(** What [SerializeStreams] writes of streams whose fields fit is read
    by [DeserializeStreams] as the same streams: all of them when there are
    at most 255.  The count is one byte, so of more only as many are read as
    their number modulo 256. *)
Theorem streams_roundtrip {S} (l : list Stream) (capacity : Z) (σ : S) :
  Forall fits l → 0 ≤ capacity ≤ 65536 → zlen l ≤ 10000 →
  ∃ out, built (BufferOutputStream.ctor capacity) (SerializeStreams l) σ = Ret out σ ∧
         DeserializeStreams out = Some (announced_stream <$> take (Z.to_nat (zlen l mod 256)) l).
Proof.
  intros Hl Hcap Hn. exists (streams_bytes l). split.
  - enough (wp (built (BufferOutputStream.ctor capacity) (SerializeStreams l)) σ (λ out σ', out = streams_bytes l ∧ σ' = σ) (λ _ _, False) (λ _, False)) as Hw.
    { unfold wp in Hw. destruct (built _ _ σ) as [out σ'| |]; [|done..]. by destruct Hw as [-> ->]. }
    apply (wp_built_exact _ _ (streams_bytes l)); [done| |done]. intros o Hg. by apply wp_SerializeStreams.
  - unfold DeserializeStreams. pose proof (streams_bytes_wf l Hl) as Hwf.
    assert (zlen (streams_bytes l) = 1 + 14 * zlen l) as Hz by (unfold streams_bytes; rewrite zlen_cons, zlen_items; lia).
    enough (wp (count ← on_stream ReadByte; read_streams (Z.to_nat count)) (ctor (streams_bytes l) (zlen (streams_bytes l)), [])
      (λ _ p, p.2 = announced_stream <$> take (Z.to_nat (zlen l mod 256)) l) (λ _ _, False) (λ _, False)) as Hw.
    { unfold wp in Hw. destruct ((on_stream ReadByte ≫= _) _) as [[] [i r]| |]; [|done..]. cbn in Hw. by subst. }
    apply wp_bind, wp_on_stream. eapply wp_ReadByte; [by apply ctor_wf; [|lia]|by rewrite rest_ctor|]. intros x Hw Hr.
    set (k := Z.to_nat (zlen l mod 256)).
    assert (Z.to_nat (u8 (zlen l)) = List.length (take k l)) as ->.
    { pose proof (zlen_nonneg l). pose proof (Z.mod_pos_bound (zlen l) 256). pose proof (Z.mod_le (zlen l) 256). unfold k, u8, zlen in *. rewrite length_take. lia. }
    apply (wp_read_streams_written _ (drop k l) _ _ []); [by apply Forall_take|done|by rewrite take_drop, app_nil_r|done].
Qed.
End streams.

(* ------------------------------------------------------------------ *)
(** ** A frame from one participant to another *)

Section frames.
Context {CF : CryptoFunctions} {CL : CryptoLaws} {CB : CbcFunctions} {CBL : CbcLaws} {CK : Clock} {RD : Random}
  {SC : ServerConfig} {HO : Host} {PF : Platform} {LM : Libm}.
Import Packet Controller Group.

(** What [random] documents: it fills the bytes it is asked for. *)
Definition random_fills : Prop := ∀ k n, length (random k n) = n ∧ wf_bytes (random k n).

(** The bytes of a packet of the group. *)
Definition plain_bytes (selfTagHash rand : bytes) (sq type len : Z) (data : bytes) : bytes :=
  le_bytes 4 (s32 TLID_DECRYPTED_AUDIO_BLOCK) ++ random_bytes rand ++ le_bytes 4 (s32 (header_flags type len)) ++
  le_bytes 4 (s32 sq) ++ selfTagHash ++ (if 0 <? len then tl_length_bytes len else []) ++ data.
(** The bytes of a frame of audio; long frames have a flag in the byte of
    the stream's id. *)
Definition frame_bytes (ts : Z) (frame : bytes) : bytes :=
  (if 255 <? zlen frame then [65] ++ le_bytes 2 (s16 (zlen frame)) else [1; u8 (zlen frame)]) ++ le_bytes 4 (s32 ts) ++ frame.
(** The id that the receiver looks for. *)
Definition id_of_frame (frame : bytes) : Z := if 255 <? zlen frame then 65 else 1.

Lemma zlen_random_bytes rand : length rand = 15%nat → zlen (random_bytes rand) = 16.
Proof. intros Hr. unfold random_bytes. rewrite !zlen_app, zlen_le_bytes. unfold slice, zlen. rewrite length_take, length_drop, Hr. done. Qed.
Lemma zlen_frame_bytes ts frame : zlen (frame_bytes ts frame) = 4 + zlen frame + (if 255 <? zlen frame then 3 else 2).
Proof. unfold frame_bytes. destruct (_ <? _); rewrite !zlen_app, ?zlen_le_bytes; change (zlen [65]) with 1; change (zlen [1; u8 (zlen frame)]) with 2; lia. Qed.
Lemma wf_frame_bytes ts frame : wf_bytes frame → wf_bytes (frame_bytes ts frame).
Proof.
  intros Hf. unfold frame_bytes. apply Forall_app_2; [|apply Forall_app_2; [apply le_bytes_wf|done]].
  destruct (_ <? _); [constructor; [lia|apply le_bytes_wf]|]. constructor; [lia|]. apply Forall_singleton, u8_range.
Qed.

Lemma built_frame {S} frame c (σ : S) :
  zlen frame ≤ 1000 →
  built (BufferOutputStream.ctor 1500) (Call.audio_packet false frame c) σ = Ret (frame_bytes (Call.audioTimestampOut c) frame) σ.
Proof.
  intros Hf. set (b := frame_bytes _ _).
  enough (wp (built (BufferOutputStream.ctor 1500) (Call.audio_packet false frame c)) σ (λ out σ', out = b ∧ σ' = σ) (λ _ _, False) (λ _, False)) as Hw.
  { unfold wp in Hw. destruct (built _ _ σ) as [out σ'| |]; [|done..]. by destruct Hw as [-> ->]. }
  apply (wp_built_exact _ _ b); [done| |done]. intros o Hg. unfold Call.audio_packet, b, frame_bytes. rewrite orb_false_r.
  pose proof (zlen_nonneg frame). destruct (255 <? zlen frame).
  all: apply wp_bind; eapply wp_WriteByte; [done|by vm_compute|intros o1 G1]; apply wp_bind;
    first [eapply wp_WriteInt16 | eapply wp_WriteByte]; [done|by vm_compute|intros o2 G2]; apply wp_bind;
    eapply wp_WriteInt32; [done|zl|intros o3 G3]; apply wp_bind;
    eapply wp_WriteBytes; [done|zl|intros o4 G4]; apply wp_ret;
    by rewrite <- !app_assoc in G4.
Qed.

Lemma wp_packet selfTagHash rand pkt l (Q : bytes → Link.t → Prop) T :
  length selfTagHash = 16%nat → length rand = 15%nat → zlen (Link.p_data pkt) ≤ 1400 →
  (∀ l', Q (plain_bytes selfTagHash rand (Link.p_seq pkt) (Link.p_type pkt) (u32 (Link.p_len pkt)) (Link.p_data pkt)) l') →
  wp (packet selfTagHash rand pkt) l Q T (λ c, c = AssertFailed).
Proof.
  intros Ht Hr Hd HQ. unfold packet. set (len := u32 (Link.p_len pkt)).
  pose proof (zlen_random_bytes rand Hr) as Hrb. pose proof (zlen_tl_length len) as Htl.
  assert (zlen selfTagHash = 16 ∧ zlen rand = 15) as [Hzt Hzr] by (unfold zlen; lia).
  pose proof (grows_ctor 1500 ltac:(lia)) as Hg. set (o := BufferOutputStream.ctor 1500) in *. clearbody o.
  apply wp_with_stream, wp_bind. unfold WritePacketHeader. apply wp_bind, wp_on_stream.
  apply wp_bind. eapply wp_WriteInt32; [done|by vm_compute|intros o1 G1].
  apply wp_bind. eapply wp_write_random; [done|rewrite ?zlen_app, ?zlen_le_bytes, Hzr; by vm_compute|intros o2 G2].
  eapply wp_WriteInt32; [done|rewrite ?zlen_app, ?zlen_le_bytes, Hrb; by vm_compute|intros o3 G3].
  apply wp_bind. apply wp_mono with (Q' := λ _ p, p.1 = o3).
  { destruct (is_stream_data _); [|by apply wp_ret]. apply wp_on_self. unfold Call.conctl_sent, Link.GetCurrentTime. apply wp_bind, wp_bind, wp_gets, wp_bind, wp_modify, wp_ret, wp_bind, wp_get.
    destruct (CongestionControl.PacketSent _ _ _ _); [by apply wp_modify|done]. }
  intros [] [o3' l1] E. cbn in E. subst o3'.
  apply wp_on_stream, wp_bind. eapply wp_WriteInt32; [done|rewrite ?zlen_app, ?zlen_le_bytes, Hrb; by vm_compute|intros o4 G4].
  apply wp_bind. eapply wp_WriteBytes; [done|rewrite ?zlen_app, ?zlen_le_bytes, Hrb, Hzt; by vm_compute|intros o5 G5].
  apply wp_mono with (Q' := λ _ o6, grows ([] ++ le_bytes 4 (s32 TLID_DECRYPTED_AUDIO_BLOCK) ++ random_bytes rand ++
    le_bytes 4 (s32 (header_flags (Link.p_type pkt) len)) ++ le_bytes 4 (s32 (Link.p_seq pkt)) ++ selfTagHash ++
    (if 0 <? len then tl_length_bytes len else [])) o6).
  { destruct (0 <? len).
    - eapply wp_write_tl_length; [done|rewrite ?zlen_app, ?zlen_le_bytes, Hrb, Hzt; by vm_compute|intros o6 G6]. by rewrite <- !app_assoc in G6.
    - apply wp_ret. rewrite app_nil_r. by rewrite <- !app_assoc in G5. }
  intros [] o6 G6. apply wp_bind, wp_on_stream. eapply wp_WriteBytes; [done| |intros o7 G7].
  { rewrite !zlen_app, !zlen_le_bytes, Hrb, Hzt. change (zlen []) with 0. destruct (0 <? len); [|change (zlen []) with 0]; lia. }
  apply wp_on_stream, wp_gets. cbn [snd]. rewrite (grows_data _ _ G7).
  replace (_ ++ Link.p_data pkt) with (plain_bytes selfTagHash rand (Link.p_seq pkt) (Link.p_type pkt) len (Link.p_data pkt)); [apply HQ|].
  unfold plain_bytes. by rewrite <- !app_assoc.
Qed.
(** ** Sealed packets *)

(** What is encrypted: the length, the packet, and padding up to a multiple
    of 16. *)
Definition inner_bytes (rand data : bytes) : bytes :=
  let inner := le_bytes 4 (zlen data) ++ data in inner ++ take (pad_len (length inner)) rand.
Lemma padded_multiple n : (12 ≤ Group.pad_len n ≤ 27 ∧ (n + Group.pad_len n) mod 16 = 0)%nat.
Proof.
  unfold Group.pad_len. pose proof (Nat.mod_upper_bound n 16 ltac:(lia)) as Hb. pose proof (Nat.div_mod_eq n 16) as En.
  destruct (Nat.ltb_spec (16 - n mod 16) 12).
  - split; [lia|]. replace (n + (16 - n mod 16 + 16))%nat with ((n / 16 + 2) * 16)%nat by lia. apply Nat.Div0.mod_mul.
  - split; [lia|]. replace (n + (16 - n mod 16))%nat with ((n / 16 + 1) * 16)%nat by lia. apply Nat.Div0.mod_mul.
Qed.
Lemma zlen_inner rand data :
  length rand = 28%nat → zlen (inner_bytes rand data) mod 16 = 0 ∧ zlen data + 16 ≤ zlen (inner_bytes rand data) ≤ zlen data + 31.
Proof.
  intros Hr. unfold inner_bytes. set (h := le_bytes 4 (zlen data) ++ data). destruct (padded_multiple (length h)) as [Hp Hm].
  assert (length h = 4 + length data)%nat as Hh by (unfold h; rewrite length_app, length_le_bytes; lia).
  assert (length (h ++ take (pad_len (length h)) rand) = length h + pad_len (length h))%nat as Hl by (rewrite length_app, length_take; lia).
  unfold zlen. rewrite Hl. change 16 with (Z.of_nat 16) at 1. rewrite <- (Nat2Z.inj_mod _ 16), Hm. lia.
Qed.
Lemma wf_inner rand data : wf_bytes rand → wf_bytes data → wf_bytes (inner_bytes rand data).
Proof. intros Hr Hd. apply Forall_app_2; [apply Forall_app_2; [apply le_bytes_wf|done]|by apply Forall_take]. Qed.

(** A packet that the reflector signs, and one as another participant gets
    it: the reflector puts the tag of the sender for its own tag. *)
Definition signed (secret body : bytes) : bytes := body ++ signature secret body.
Definition reflected (tag secret out : bytes) : bytes := signed secret (tag ++ drop 16 out).
Definition message_key (w : Wire.config) (rand data : bytes) : bytes :=
  Wire.msg_key (Wire.encryptionKey w) (drop 4 (inner_bytes rand data)) 0.
Definition encrypted (w : Wire.config) (rand data : bytes) : bytes :=
  let '(key, iv) := Wire.KDF2 (Wire.encryptionKey w) (message_key w rand data) 0 in aes_ige_encrypt key iv (inner_bytes rand data).
Lemma seal_parts w rand data : seal w rand data = Wire.keyFingerprint w ++ message_key w rand data ++ encrypted w rand data.
Proof. unfold seal, encrypted. fold (inner_bytes rand data). fold (message_key w rand data). by destruct (Wire.KDF2 _ _ _). Qed.
Lemma length_encrypted w rand data : length (encrypted w rand data) = length (inner_bytes rand data).
Proof. unfold encrypted. destruct (Wire.KDF2 _ _ _). apply encrypt_length. Qed.

(** [SendPacket] of a packet of audio: its bytes. *)
Lemma SendPacket_sends data e pkt (A : Group.t) :
  random_fills → data ≠ [] → stopping (base A) = false → Endpoint.type e ≠ Endpoint.TCP_RELAY →
  ∃ rand digest A', (SendPacket data e pkt A = Ret tt A') ∧ length rand = 28%nat ∧ wf_bytes rand ∧ length digest = 16%nat ∧ wf_bytes digest ∧
    trace (base A') = Datagram (Endpoint.id e) (reflectorSelfTag A ++ seal (wire (base A)) rand data ++ digest) :: trace (base A).
Proof.
  intros Hrand Hd Hstop He. set (rand := take 28 (random (draws (base A)) 28)).
  destruct (Hrand (draws (base A)) 28%nat) as [Hl Hw].
  assert (length rand = 28%nat ∧ wf_bytes rand) as [Hlr Hwr] by (split; [unfold rand; rewrite length_take; lia|by apply Forall_take]).
  exists rand, (take 16 (sha256 ((reflectorSelfTag A ++ seal (wire (base A)) rand data) ++ reflectorSelfSecret A))).
  enough (wp (SendPacket data e pkt) A (λ _ A', trace (base A') = Datagram (Endpoint.id e)
     (reflectorSelfTag A ++ seal (wire (base A)) rand data ++ take 16 (sha256 ((reflectorSelfTag A ++ seal (wire (base A)) rand data) ++ reflectorSelfSecret A))) :: trace (base A))
     (λ _ _, False) (λ _, False)) as Hwp.
  { unfold wp in Hwp. destruct (SendPacket data e pkt A) as [[] A'| |]; [|done..]. exists A'. split_and!; [done..| | |done].
    - rewrite length_take, sha256_length. done.
    - apply Forall_take, sha256_wf. }
  unfold SendPacket. apply wp_bind, wp_get. rewrite Hstop, bool_decide_eq_false_2 by done. cbn [andb].
  assert ((0 <? zlen data) = true) as -> by (destruct data; [done|rewrite zlen_cons; pose proof (zlen_nonneg data); apply Z.ltb_lt; lia]).
  apply wp_bind, wp_bind, wp_zoom. unfold rand_bytes. apply wp_bind, wp_gets, wp_bind, wp_modify, wp_ret, wp_ret. fold rand.
  apply wp_bind. apply wp_mono with (Q' := λ _ A', trace (base A') = trace (base A)).
  { destruct (is_stream_data _); [apply wp_modify|apply wp_ret]; done. }
  intros [] A' Etr. apply wp_zoom, wp_bind, wp_zoom, wp_modify. apply wp_bind, wp_modify. unfold ActuallySendPacket.
  apply wp_bind, wp_modify. rewrite bool_decide_eq_false_2 by done. apply wp_modify. cbn. by rewrite Etr, <- app_assoc.
Qed.

(** ** A packet is delivered *)

(** What the receiver does with a frame: the clock, the timestamp, the
    jitter buffer of the stream. *)
Definition deliver (p : Participant) (frame : bytes) (ts : Z) : M Group.t unit :=
  now ← on_base GetCurrentTime;
  on_base (modify (λ c, c <| lastRecvPacketTime := now |>));;
  on_base (modify (λ c, c <| audioTimestampIn := ts |>));;
  s ← get;
  match place_of (id_of_frame frame) (store s) (streams p) with
  | Some q => HandleInput q frame ts
  | None => mret tt
  end.

Lemma wp_stream_data places pre frame ts post0 i (s : Group.t) (Q : bool → BufferInputStream.t * Group.t → Prop) T C :
  zlen frame ≤ 1000 → zlen pre + zlen (frame_bytes ts frame) + zlen post0 ≤ 100000 →
  here (pre ++ frame_bytes ts frame) (frame_bytes ts frame) i →
  (let s' := s <| base ::= λ c, c <| audioTimestampIn := u32 ts |> |> in
   wp (match place_of (id_of_frame frame) (store s') places with Some q => HandleInput q frame (u32 ts) | None => mret tt end)
     s' (λ _ s'', ∀ i', Q true (i', s'')) (λ e s'', ∀ i', T e (i', s'')) C) →
  wp (stream_data places (le_bytes 4 (zlen pre + zlen (frame_bytes ts frame)) ++ (pre ++ frame_bytes ts frame) ++ post0) true) (i, s) Q T C.
Proof.
  intros Hf Hmax Hi HQ. pose proof (zlen_nonneg frame). pose proof (zlen_nonneg pre).
  set (fb := frame_bytes ts frame) in *. set (head := (if 255 <? zlen frame then [65] ++ le_bytes 2 (s16 (zlen frame)) else [1; u8 (zlen frame)]) ++ le_bytes 4 (s32 ts)).
  assert (fb = head ++ frame) as Efb by (unfold fb, frame_bytes, head; by rewrite <- app_assoc).
  unfold stream_data. apply wp_bind, wp_on_stream.
  assert (∀ (n : Z) (i' : BufferInputStream.t), n = zlen frame → here (pre ++ fb) (le_bytes 4 (s32 ts) ++ frame) i' →
    wp (pts ← on_stream BufferInputStream.ReadInt32;
        let pts := u32 pts in
        on_self (on_base (modify (λ c, c <| audioTimestampIn := pts |>)));;
        i ← on_stream get;
        let o := BufferInputStream.offset i in
        if BufferInputStream.length i <? u64 (o + n) then mret false
        else
          s ← on_self get;
          (match place_of (id_of_frame frame) (store s) places with
           | Some p => d ← Wire.at_array (le_bytes 4 (zlen pre + zlen fb) ++ (pre ++ fb) ++ post0) (4 + o) n; on_self (HandleInput p d pts)
           | None => mret tt
           end);;
          mret tt;; mret true) (i', s) Q T C) as Hrest.
  { intros n i' -> Hi'. apply wp_bind, wp_on_stream. eapply here_ReadInt32; [exact Hi'|]. intros i1 H1. cbv zeta.
    assert (u32 (s32 (s32 ts)) = u32 ts) as -> by word_lia.
    apply wp_bind, wp_on_self, wp_zoom, wp_modify. apply wp_bind, wp_on_stream, wp_get.
    destruct (here_offset _ _ _ H1) as [-> ->]. assert (zlen (pre ++ fb) = zlen pre + zlen head + zlen frame) as Hz by (rewrite Efb; zl).
    pose proof (zlen_nonneg head). assert (zlen fb = zlen head + zlen frame) as Hzf by (rewrite Efb; zl). pose proof (zlen_nonneg post0).
    rewrite u64_small by lia. destruct (Z.ltb_spec (zlen (pre ++ fb)) (zlen (pre ++ fb) - zlen frame + zlen frame)); [lia|].
    apply wp_bind, wp_on_self, wp_get. apply wp_bind. cbv zeta in HQ. cbn [store] in *. destruct (place_of _ _ _) as [q|].
    - apply wp_bind, Wire.at_whole; [lia..| |].
      { rewrite (zlen_app (le_bytes _ _)), zlen_le_bytes, (zlen_app (pre ++ fb)). lia. }
      assert (slice (le_bytes 4 (zlen pre + zlen fb) ++ (pre ++ fb) ++ post0) (Z.to_nat (4 + (zlen (pre ++ fb) - zlen frame))) (Z.to_nat (zlen frame)) = frame) as ->.
      { rewrite Efb, !app_assoc, <- (app_assoc _ frame post0).
        replace (Z.to_nat (4 + _)) with (length ((le_bytes 4 (zlen pre + zlen (head ++ frame)) ++ pre) ++ head)); [|].
        - replace (Z.to_nat (zlen frame)) with (length frame) by (unfold zlen; by rewrite Nat2Z.id). apply Wire.slice_mid.
        - rewrite !length_app, length_le_bytes. unfold zlen. rewrite !length_app. lia. }
      apply wp_on_self. eapply wp_weaken; [exact HQ| |done..]. intros [] s'' Hs''. apply wp_bind, wp_ret, wp_ret, Hs''.
    - apply wp_ret, wp_bind, wp_ret, wp_ret. exact (HQ _). }
  assert (here (pre ++ fb) ((if 255 <? zlen frame then [65] ++ le_bytes 2 (s16 (zlen frame)) else [1; u8 (zlen frame)]) ++ le_bytes 4 (s32 ts) ++ frame) i) as Hi2 by exact Hi.
  unfold id_of_frame in *. destruct (Z.ltb_spec 255 (zlen frame)).
  - eapply here_ReadByte; [exact Hi2|]. intros i1 Hi1. apply wp_bind.
    change (has (Z.land 65 192) STREAM_DATA_FLAG_LEN16) with true. cbv iota. apply wp_on_stream, wp_bind.
    eapply here_ReadInt16; [exact Hi1|]. intros i2 Hi3. apply wp_ret. apply Hrest; [|exact Hi3]. word_lia.
  - eapply here_ReadByte; [exact Hi2|]. intros i1 Hi1. apply wp_bind.
    change (has (Z.land 1 192) STREAM_DATA_FLAG_LEN16) with false. cbv iota. apply wp_on_stream.
    eapply here_ReadByte; [exact Hi1|]. intros i2 Hi3. apply Hrest; [|exact Hi3]. apply u8_small. lia.
Qed.

(** The header of a packet of audio. *)
Definition audio_header (tag rand : bytes) (sq len : Z) : bytes :=
  le_bytes 4 (s32 TLID_DECRYPTED_AUDIO_BLOCK) ++ random_bytes rand ++ le_bytes 4 (s32 (header_flags PKT_STREAM_DATA len)) ++
  le_bytes 4 (s32 sq) ++ tag ++ tl_length_bytes len.
Lemma plain_audio tag rand sq len data : 0 < len → plain_bytes tag rand sq PKT_STREAM_DATA len data = audio_header tag rand sq len ++ data.
Proof. intros Hl. unfold plain_bytes, audio_header. rewrite (proj2 (Z.ltb_lt 0 len)) by done. by rewrite <- !app_assoc. Qed.
Lemma zlen_audio_header tag rand sq len : length tag = 16%nat → length rand = 15%nat → 45 ≤ zlen (audio_header tag rand sq len) ≤ 48.
Proof.
  intros Ht Hr. unfold audio_header. rewrite !zlen_app, !zlen_le_bytes, zlen_random_bytes by done. assert (zlen tag = 16) as -> by (unfold zlen; lia).
  unfold tl_length_bytes. destruct (_ <=? _); [change (zlen [_]) with 1|change (zlen [_; _; _; _]) with 4]; lia.
Qed.

Lemma wf_audio_header tag rand sq len : wf_bytes tag → wf_bytes rand → wf_bytes (audio_header tag rand sq len).
Proof.
  intros Ht Hr. unfold audio_header, random_bytes. unfold wf_bytes in *. rewrite !Forall_app.
  assert (Forall (λ b, is_u8 b) (tl_length_bytes len)) as Hl.
  { unfold tl_length_bytes. destruct (_ <=? _); repeat apply Forall_cons_2; try apply Forall_nil_2; try apply u8_range; try lia;
      rewrite land_255; apply Z.mod_pos_bound; lia. }
  split_and!; try apply le_bytes_wf; try done; [by apply Forall_singleton|by apply Forall_take, Forall_drop].
Qed.

Lemma wp_process_inner sender rand sq frame ts pad i (s : Group.t) (Q : unit → BufferInputStream.t * Group.t → Prop) T C :
  let fb := frame_bytes ts frame in
  let pre := audio_header (take 16 (memberTagHash sender)) rand sq (zlen fb) in
  (16 ≤ length (memberTagHash sender))%nat → length rand = 15%nat → zlen frame ≤ 1000 → zlen pad ≤ 1000 →
  state (base s) = STATE_ESTABLISHED → here (pre ++ fb) (pre ++ fb) i →
  wp (deliver sender frame (u32 ts)) s (λ _ s', ∀ i', Q tt (i', s')) (λ e s', ∀ i', T e (i', s')) C →
  wp (process_inner sender (le_bytes 4 (zlen pre + zlen fb) ++ (pre ++ fb) ++ pad)) (i, s) Q T C.
Proof.
  intros fb pre Htag Hrand Hf Hpad Hst Hi HQ. set (tag := take 16 (memberTagHash sender)) in *.
  assert (length tag = 16%nat) as Htl by (unfold tag; rewrite length_take; lia).
  pose proof (zlen_audio_header tag rand sq (zlen fb) Htl Hrand) as Hpre. fold pre in Hpre.
  pose proof (zlen_frame_bytes ts frame) as Hfb. fold fb in Hfb. pose proof (zlen_nonneg frame).
  assert (0 < zlen fb ≤ 1007) as Hfb' by (destruct (255 <? zlen frame); lia). set (len := zlen fb) in *.
  set (r1 := le_bytes 4 (s32 (header_flags PKT_STREAM_DATA len)) ++ le_bytes 4 (s32 sq) ++ tag ++ tl_length_bytes len ++ fb).
  assert (pre ++ fb = (le_bytes 4 (s32 TLID_DECRYPTED_AUDIO_BLOCK) ++ random_bytes rand) ++ r1) as Edata.
  { unfold pre, audio_header, r1. by rewrite <- !app_assoc. }
  assert (here (pre ++ fb) (le_bytes 4 (s32 TLID_DECRYPTED_AUDIO_BLOCK) ++ random_bytes rand ++ r1) i) as Hi0.
  { rewrite Edata, <- app_assoc in Hi. by rewrite Edata, <- app_assoc. }
  unfold process_inner. apply wp_bind, wp_on_stream. eapply here_ReadInt32; [exact Hi0|]. intros i1 H1.
  change (u32 (s32 (s32 TLID_DECRYPTED_AUDIO_BLOCK)) =? TLID_DECRYPTED_AUDIO_BLOCK) with true. cbn [negb].
  apply wp_bind, wp_on_stream, wp_gets. unfold BufferInputStream.GetOffset. destruct (here_offset _ _ _ H1) as [-> _].
  apply wp_bind, wp_on_stream.
  eapply (here_Seek _ _ (le_bytes 4 (s32 TLID_DECRYPTED_AUDIO_BLOCK) ++ random_bytes rand) r1); [exact H1|done| |].
  { pose proof (zlen_nonneg r1). rewrite Edata. rewrite !zlen_app, zlen_le_bytes, (zlen_random_bytes rand Hrand). rewrite u64_small; lia. }
  intros i2 H2. apply wp_bind, wp_on_stream. eapply here_ReadInt32; [exact H2|]. intros i3 H3.
  assert (u32 (s32 (s32 (header_flags PKT_STREAM_DATA len))) = header_flags PKT_STREAM_DATA 1) as ->.
  { unfold header_flags. rewrite (proj2 (Z.ltb_lt 0 len)) by lia. by vm_compute. }
  change (has (header_flags PKT_STREAM_DATA 1) PFLAG_HAS_SEQ && has (header_flags PKT_STREAM_DATA 1) PFLAG_HAS_SENDER_TAG_HASH) with true.
  change (has (header_flags PKT_STREAM_DATA 1) PFLAG_HAS_DATA) with true. cbn [negb].
  apply wp_bind, wp_on_stream. eapply here_ReadInt32; [exact H3|]. intros i4 H4.
  apply wp_bind, wp_on_stream. eapply here_ReadBytes; [|exact H4|]; [unfold zlen; by rewrite Htl|]. intros i5 H5.
  rewrite bool_decide_eq_true_2 by done. cbn [negb].
  apply wp_bind, wp_on_stream. eapply here_ReadTlLength; [|exact H5|]; [lia|]. intros i6 H6. cbv zeta.
  change (Z.land (Z.shiftr (header_flags PKT_STREAM_DATA 1) 24) 255) with PKT_STREAM_DATA.
  change (is_stream_data PKT_STREAM_DATA) with true.
  change (PKT_STREAM_DATA =? PKT_STREAM_DATA_X2) with false. change (PKT_STREAM_DATA =? PKT_STREAM_DATA_X3) with false. cbv iota.
  apply wp_bind, wp_on_self, wp_zoom, wp_zoom, wp_bind, wp_gets, wp_bind, wp_modify, wp_ret.
  apply wp_bind, wp_on_self, wp_zoom, wp_modify. apply wp_bind, wp_on_self, wp_get. cbn [base state].
  rewrite bool_decide_eq_true_2 by exact Hst. cbn [negb andb]. apply wp_bind, wp_ret. cbn [stream_datas bool_decide].
  apply wp_bind. rewrite bool_decide_eq_true_2 by done. apply wp_stream_data; [done|fold fb; fold len; lia|exact H6|].
  cbv zeta. eapply wp_weaken; [exact HQ| |done..]. intros [] s' Hs' i'. by apply wp_ret.
Qed.

Lemma slice_part (a b d mem : bytes) (p n : nat) : mem = a ++ b ++ d → p = length a → n = length b → slice mem p n = b.
Proof. intros -> -> ->. apply Wire.slice_mid. Qed.

(** A sealed packet is opened, whatever the 16 bytes after it. *)
Lemma wp_participant_opens sender w rand data tag digest tail (s : Group.t) (Q : unit → BufferInputStream.t * Group.t → Prop) T C :
  let mem := tag ++ (seal w rand data ++ digest) ++ tail in
  let n := 72 + zlen (inner_bytes rand data) in
  length rand = 28%nat → wf_bytes rand → wf_bytes data → zlen data ≤ 1400 → length (Wire.keyFingerprint w) = 8%nat →
  length tag = 16%nat → length digest = 16%nat → (16 ≤ length tail)%nat → wf_bytes mem → zlen mem ≤ 4294967296 →
  Wire.encryptionKey (wire (base s)) = Wire.encryptionKey w →
  (∀ i, wp (with_stream (BufferInputStream.ctor data (zlen data)) (process_inner sender (inner_bytes rand data))) s
     (λ _ s', Q tt (i, s')) (λ e s', T e (i, s')) C) →
  wp (participant_packet sender mem n) (BufferInputStream.ctor (take (Z.to_nat (n - 16)) mem) (n - 16), s) Q T C.
Proof.
  intros mem n Hr Hwr Hwd Hd Hfp Ht Hdg Htl Hmem Hmax Hkey HQ. destruct (zlen_inner rand data Hr) as [Hmod Hin]. pose proof (zlen_nonneg data) as Hd0.
  pose proof (wf_inner rand data Hwr Hwd) as Hwi. pose proof (length_encrypted w rand data) as Hel.
  set (inner := inner_bytes rand data) in *. set (mk := message_key w rand data). set (enc := encrypted w rand data) in *.
  assert (length mk = 16%nat) as Hmk by apply Wire.length_msg_key.
  assert (mem = (tag ++ Wire.keyFingerprint w) ++ mk ++ (enc ++ digest ++ tail)) as E1.
  { unfold mem. rewrite seal_parts. fold mk enc. by rewrite <- !app_assoc. }
  assert (mem = (tag ++ Wire.keyFingerprint w ++ mk) ++ enc ++ (digest ++ tail)) as E2 by (rewrite E1; by rewrite <- !app_assoc).
  assert (n ≤ zlen mem) as Hn.
  { rewrite E2. unfold n, zlen. rewrite !length_app. unfold zlen in Hin. lia. }
  unfold participant_packet. apply wp_bind, wp_on_self, wp_get. cbv zeta. rewrite Hkey.
  apply wp_message_key; [done|lia|lia|intros; lia|]. intros _.
  rewrite (slice_part _ _ _ _ 24 16 E1) by (rewrite ?length_app; lia).
  unfold enc, encrypted in E2. fold mk in E2. destruct (Wire.KDF2 (Wire.encryptionKey w) mk 0) as [aesKey aesIv] eqn:Ek. fold inner in E2.
  set (i := BufferInputStream.mk _ _ 40). apply wp_bind, wp_on_stream, wp_gets.
  change (BufferInputStream.Remaining i) with (u64 (n - 16 - 40)). rewrite (u64_small (n - 16 - 40)) by lia.
  replace (n - 16 - 40 - 16) with (zlen inner) by lia. rewrite (u64_small (zlen inner)) by lia.
  destruct (Z.ltb_spec 1500 (zlen inner)); [lia|]. apply wp_bind, wp_on_stream, wp_gets. change (BufferInputStream.GetOffset i) with 40.
  apply wp_bind, Wire.at_whole; [lia..|].
  rewrite (slice_part _ _ _ _ (Z.to_nat 40) (Z.to_nat (zlen inner)) E2); [|rewrite !length_app; lia|unfold zlen; by rewrite Nat2Z.id, encrypt_length].
  rewrite decrypt_encrypt by done. apply wp_bind. rewrite (u64_small (zlen inner - 4)) by lia. apply Wire.at_whole; [lia..|].
  assert (slice inner (Z.to_nat 4) (Z.to_nat (zlen inner - 4)) = drop 4 inner) as ->.
  { unfold slice. apply take_ge. rewrite length_drop. unfold zlen. lia. }
  rewrite bool_decide_eq_true_2 by done. cbn [negb].
  assert (inner = le_bytes 4 (zlen data) ++ data ++ take (pad_len (length (le_bytes 4 (zlen data) ++ data))) rand) as Ei.
  { unfold inner, inner_bytes. by rewrite <- app_assoc. }
  apply wp_bind, wp_on_self, wp_with_stream, wp_on_stream.
  pose proof (here_ctor inner Hwi ltac:(lia)) as Hh. eapply here_ReadInt32; [rewrite <- Ei; exact Hh|]. intros i' _. cbn [snd].
  assert (u32 (s32 (zlen data)) = zlen data) as -> by (rewrite s32_small, u32_small; lia).
  destruct (Z.ltb_spec (zlen inner - 4) (zlen data)); [lia|]. rewrite u64_small by lia. destruct (Z.ltb_spec (zlen inner - zlen data) 12); [lia|].
  assert (slice inner 4 (Z.to_nat (zlen data)) = data) as ->.
  { apply (slice_part _ _ _ _ _ _ Ei); [by rewrite length_le_bytes|unfold zlen; by rewrite Nat2Z.id]. }
  apply wp_on_self. eapply wp_mono; [apply (HQ i)|]. by intros [].
Qed.

Lemma same_outcome {S A} (m m' : M S A) (σ : S) : (∀ Q T C, wp m' σ Q T C → wp m σ Q T C) → m σ = m' σ.
Proof.
  intros Hw. specialize (Hw (λ a σ', m' σ = Ret a σ') (λ e σ', m' σ = Throw e σ') (λ c, m' σ = Crash c)). unfold wp in Hw.
  destruct (m' σ); specialize (Hw eq_refl); by destruct (m σ).
Qed.

(** A packet of another participant is not taken for a response. *)
Lemma wp_other_sender tag sealed stale sender (s : Group.t) (Q : unit → Group.t → Prop) T C :
  let body := tag ++ sealed in
  let mem := (body ++ signature (reflectorSelfSecret s) body) ++ stale in
  let n := zlen body + 16 in
  length tag = 16%nat → (16 ≤ length sealed)%nat → n ≤ 2000 → take 8 sealed = Wire.keyFingerprint (wire (base s)) →
  List.find (λ p, bool_decide (tag = take 16 (memberTagHash p))) (participants s) = Some sender → tag ≠ reflectorSelfTagHash s →
  wp (with_stream (BufferInputStream.ctor (take (Z.to_nat (n - 16)) mem) (n - 16)) (participant_packet sender mem n)) s Q T C →
  wp (ProcessIncomingPacket mem n) s Q T C.
Proof.
  intros body mem n Ht Hs Hn Hfp Hfind Hself HQ. assert (zlen body = 16 + zlen sealed) as Hb by (unfold body, zlen; rewrite length_app; lia).
  set (sig := signature (reflectorSelfSecret s) body) in *.
  assert (length sig = 16%nat) as Hsig by (unfold sig, signature; rewrite length_take, sha256_length; done).
  assert (16 ≤ zlen sealed) as Hs' by (unfold zlen; lia). pose proof (zlen_nonneg stale).
  assert (zlen mem = n + zlen stale) as Hm by (unfold mem, n, zlen; rewrite !length_app; lia).
  unfold ProcessIncomingPacket. destruct (Z.ltb_spec n 17); [lia|]. destruct (Z.ltb_spec 2000 n); [lia|]. cbn [orb].
  apply wp_bind, wp_get. do 2 (apply wp_bind, Wire.at_whole; [lia..|]).
  assert (slice mem (Z.to_nat 0) (Z.to_nat (n - 16)) = body) as ->.
  { apply (slice_part [] body (sig ++ stale)); [unfold mem; by rewrite <- app_assoc|done|unfold n, zlen; lia]. }
  assert (slice mem (Z.to_nat (n - 16)) (Z.to_nat 16) = sig) as ->.
  { apply (slice_part body sig stale); [unfold mem; by rewrite <- app_assoc|unfold n, zlen; lia|done]. }
  rewrite bool_decide_eq_true_2 by done. cbn [negb].
  assert (slice mem (Z.to_nat 0) (Z.to_nat 16) = tag) as Htag.
  { apply (slice_part [] tag (sealed ++ sig ++ stale)); [unfold mem, body; by rewrite <- !app_assoc|done|by rewrite Ht]. }
  apply wp_bind. unfold special_response. apply wp_bind, wp_get, wp_bind, Wire.at_whole; [lia..|]. rewrite Htag.
  rewrite bool_decide_eq_false_2 by done. cbn [andb]. apply wp_ret. destruct (Z.ltb_spec n 32); [lia|].
  apply wp_bind, Wire.at_whole; [lia..|]. rewrite Htag. apply wp_bind, wp_get. rewrite Hfind.
  apply wp_bind, Wire.at_whole; [lia..|].
  assert (slice mem (Z.to_nat 16) (Z.to_nat 8) = take 8 sealed) as ->.
  { apply (slice_part tag (take 8 sealed) (drop 8 sealed ++ sig ++ stale)); [unfold mem, body|by rewrite Ht|rewrite length_take; lia].
    by rewrite (app_assoc (take 8 sealed)), take_drop, <- !app_assoc. }
  rewrite bool_decide_eq_true_2 by done. exact HQ.
Qed.

(** What [plain] is: the header of an audio packet and the frame. *)
Lemma plain_is tag rand sq frame call ep link plain link' :
  length tag = 16%nat → length rand = 15%nat → zlen frame ≤ 1000 →
  (d ← built (BufferOutputStream.ctor 1500) (Call.audio_packet false frame call);
   packet tag rand (Link.mkpending sq PKT_STREAM_DATA (zlen d) d ep)) link = Ret plain link' →
  let fb := frame_bytes (Call.audioTimestampOut call) frame in plain = audio_header tag rand sq (zlen fb) ++ fb.
Proof.
  intros Ht Hr Hf Hplain fb. rewrite (bind_Ret _ _ _ _ _ (built_frame frame call link Hf)) in Hplain. fold fb in Hplain.
  pose proof (zlen_frame_bytes (Call.audioTimestampOut call) frame) as Hzf. fold fb in Hzf. pose proof (zlen_nonneg frame) as Hf0.
  assert (0 < zlen fb ≤ 1007) as Hfb by (destruct (255 <? zlen frame); lia).
  set (pkt := Link.mkpending sq PKT_STREAM_DATA (zlen fb) fb ep) in *.
  pose proof (wp_packet tag rand pkt link (λ b _, b = audio_header tag rand sq (zlen fb) ++ fb) (λ _ _, True) Ht Hr ltac:(cbn; lia)) as Hw.
  unfold wp in Hw. rewrite Hplain in Hw. apply Hw. intros l'. cbn. rewrite (u32_small (zlen fb)) by lia. apply plain_audio. lia.
Qed.
Lemma seal_wf w rand data :
  wf_bytes (Wire.keyFingerprint w) → wf_bytes rand → wf_bytes data → wf_bytes (seal w rand data).
Proof.
  intros Hf Hr Hd. rewrite seal_parts. apply Forall_app_2; [done|]. apply Forall_app_2; [apply Wire.msg_key_wf|].
  unfold encrypted. destruct (Wire.KDF2 _ _ _). by apply encrypt_wf, wf_inner.
Qed.
Lemma zlen_seal w rand data : length (Wire.keyFingerprint w) = 8%nat → zlen (seal w rand data) = 24 + zlen (inner_bytes rand data).
Proof.
  intros Hf. rewrite seal_parts, !zlen_app. unfold zlen. rewrite Hf, length_encrypted. unfold message_key. rewrite Wire.length_msg_key. lia.
Qed.

(** The packet of a frame, opened and delivered. *)
Lemma wp_frame_packet sender w rand sq frame ts pad digest tail (s : Group.t) (Q : unit → Group.t → Prop) T C :
  let fb := frame_bytes ts frame in
  let tag := take 16 (memberTagHash sender) in
  let data := audio_header tag rand sq (zlen fb) ++ fb in
  let mem := tag ++ (seal w pad data ++ digest) ++ tail in
  let n := 72 + zlen (inner_bytes pad data) in
  wf_bytes frame → zlen frame ≤ 1000 → length rand = 15%nat → wf_bytes rand → length pad = 28%nat → wf_bytes pad →
  length tag = 16%nat → wf_bytes tag → length digest = 16%nat → (16 ≤ length tail)%nat → wf_bytes mem → zlen mem ≤ 4294967296 →
  length (Wire.keyFingerprint w) = 8%nat → Wire.encryptionKey (wire (base s)) = Wire.encryptionKey w → state (base s) = STATE_ESTABLISHED →
  wp (deliver sender frame (u32 ts)) s Q T C →
  wp (with_stream (BufferInputStream.ctor (take (Z.to_nat (n - 16)) mem) (n - 16)) (participant_packet sender mem n)) s Q T C.
Proof.
  intros fb tag data mem n Hwf Hf Hr Hwr Hpl Hpw Hth Hthw Hdl Htl Hmem Hmax Hfl Hkey Hst HQ.
  pose proof (zlen_frame_bytes ts frame) as Hzf. fold fb in Hzf. pose proof (zlen_nonneg frame) as Hf0.
  assert (0 < zlen fb ≤ 1007) as Hfb by (destruct (255 <? zlen frame); lia).
  pose proof (zlen_audio_header tag rand sq (zlen fb) Hth Hr) as Hhd.
  assert (wf_bytes data) as Hwp by (apply Forall_app_2; [by apply wf_audio_header|by apply wf_frame_bytes]).
  assert (zlen data = zlen (audio_header tag rand sq (zlen fb)) + zlen fb) as Hzd by apply zlen_app.
  apply wp_with_stream. apply (wp_participant_opens sender w pad data tag digest tail); [done..|lia|done|done|done|done|done|done|done|].
  intros i. cbn [snd]. apply wp_with_stream. unfold inner_bytes. rewrite <- app_assoc, Hzd. apply wp_process_inner; [|done|done| |done| |].
  - unfold tag in Hth. rewrite length_take in Hth. lia.
  - unfold zlen. rewrite length_take. lia.
  - fold fb tag data. rewrite <- Hzd. apply here_ctor; [done|lia].
  - eapply wp_weaken; [exact HQ| |done|done]. by intros [].
Qed.

(** C7. A frame of audio that one participant sends, sealed, signed for the
    reflector and signed again by it, reaches the jitter buffer of the
    stream of that participant at every other one, with its timestamp and
    byte by byte: receiving the packet is delivering the frame and nothing
    else.  A frame of more than 255 bytes is sent with a flag in the byte of
    the stream's id that the receiver does not remove: it is for the stream
    65, so for none. *)
Theorem frame_reaches_the_group (A B : Group.t) (call : Call.t) e ep sq frame rand link plain link' sender stale :
  random_fills → wf_bytes frame → zlen frame ≤ 1000 → length rand = 15%nat → wf_bytes rand →
  length (reflectorSelfTag A) = 16%nat → length (reflectorSelfTagHash A) = 16%nat → wf_bytes (reflectorSelfTagHash A) →
  stopping (base A) = false → Endpoint.type e ≠ Endpoint.TCP_RELAY →
  length (Wire.keyFingerprint (wire (base A))) = 8%nat → wf_bytes (Wire.keyFingerprint (wire (base A))) →
  Wire.encryptionKey (wire (base B)) = Wire.encryptionKey (wire (base A)) →
  Wire.keyFingerprint (wire (base B)) = Wire.keyFingerprint (wire (base A)) →
  List.find (λ p, bool_decide (reflectorSelfTagHash A = take 16 (memberTagHash p))) (participants B) = Some sender →
  reflectorSelfTagHash A ≠ reflectorSelfTagHash B → state (base B) = STATE_ESTABLISHED → wf_bytes stale → zlen stale ≤ 4294960000 →
  let pkt d := Link.mkpending sq PKT_STREAM_DATA (zlen d) d ep in
  (d ← built (BufferOutputStream.ctor 1500) (Call.audio_packet false frame call); packet (reflectorSelfTagHash A) rand (pkt d)) link = Ret plain link' →
  ∃ A' out d, SendPacket plain e (pkt d) A = Ret tt A' ∧ trace (base A') = Datagram (Endpoint.id e) out :: trace (base A) ∧
    let arrived := reflected (reflectorSelfTagHash A) (reflectorSelfSecret B) out in
    Group.receive (arrived ++ stale) (zlen arrived) B = catch_range (deliver sender frame (u32 (Call.audioTimestampOut call))) B.
Proof.
  intros Hrand Hwf Hf Hr Hwr Ht Hth Hthw Hstop He Hfl Hfw Hkey Hfp Hfind Hne Hst Hws Hsl pkt Hplain.
  set (ts := Call.audioTimestampOut call). set (fb := frame_bytes ts frame). set (hash := reflectorSelfTagHash A) in *.
  set (data := audio_header hash rand sq (zlen fb) ++ fb).
  pose proof (plain_is _ _ _ _ _ _ _ _ _ Hth Hr Hf Hplain) as ->. fold ts fb data.
  pose proof (zlen_audio_header hash rand sq (zlen fb) Hth Hr) as Hhd. pose proof (zlen_frame_bytes ts frame) as Hzf. fold fb in Hzf.
  assert (zlen data = zlen (audio_header hash rand sq (zlen fb)) + zlen fb) as Hzdata by apply zlen_app. pose proof (zlen_nonneg frame).
  assert (data ≠ []) as Hd by (intros E; apply (f_equal zlen) in E; rewrite zlen_nil in E; pose proof (zlen_nonneg fb); lia).
  destruct (SendPacket_sends data e (pkt fb) A Hrand Hd Hstop He) as (pad & digest & A' & HA & Hpl & Hpw & Hdl & Hdw & Htr).
  set (sealed := seal (wire (base A)) pad data ++ digest) in *. exists A', (reflectorSelfTag A ++ sealed), fb. split_and!; [done..|].
  intros arrived. set (body := hash ++ sealed). set (sig := signature (reflectorSelfSecret B) body).
  assert (arrived = body ++ sig) as -> by (unfold arrived, reflected, signed; by rewrite <- Ht, drop_app_length).
  assert (length sig = 16%nat) as Hsig by (unfold sig, signature; by rewrite length_take, sha256_length).
  assert (zlen hash = 16 ∧ zlen digest = 16 ∧ zlen sig = 16) as (Hzh & Hzd & Hzs) by (unfold zlen; lia).
  pose proof (zlen_seal (wire (base A)) pad data Hfl) as Hzseal. destruct (zlen_inner pad data Hpl) as [_ Hin].
  assert (zlen data ≤ 1055) as Hmax by (destruct (255 <? zlen frame); lia).
  assert (zlen sealed = 40 + zlen (inner_bytes pad data)) as Hzsealed by (unfold sealed; rewrite zlen_app; lia).
  assert (zlen body = 56 + zlen (inner_bytes pad data)) as Hzb by (unfold body; rewrite zlen_app; lia).
  rewrite (zlen_app body sig), Hzs. unfold Group.receive, catch_range, try_catch.
  enough (ProcessIncomingPacket ((body ++ sig) ++ stale) (zlen body + 16) B = deliver sender frame (u32 ts) B) as -> by done.
  apply same_outcome. intros Q T C HQ.
  apply (wp_other_sender hash sealed stale sender); [done|unfold zlen in *; lia|fold body; lia| |done|done|].
  { unfold sealed. rewrite seal_parts, Hfp, <- app_assoc, <- Hfl. apply take_app_length. }
  fold body sig. rewrite Hzb. replace (56 + zlen (inner_bytes pad data) + 16) with (72 + zlen (inner_bytes pad data)) by lia.
  unfold body, sealed. rewrite <- !(app_assoc hash), <- (app_assoc _ sig stale).
  apply find_some in Hfind as [_ Htag]. apply bool_decide_eq_true in Htag. fold hash in Htag. unfold data, fb in *. rewrite Htag in *.
  apply wp_frame_packet; try done.
  - rewrite length_app. lia.
  - apply Forall_app_2; [done|]. apply Forall_app_2; [apply Forall_app_2; [|done]|apply Forall_app_2; [apply Forall_take, sha256_wf|done]].
    apply seal_wf; [done..|]. apply Forall_app_2; [by apply wf_audio_header|by apply wf_frame_bytes].
  - fold sealed. rewrite !zlen_app in *. lia.
Qed.

(** A packet of 72 to 75 bytes with the tag of a participant and the
    fingerprint of the key, that the reflector signed, ends the process,
    whatever else is in it: the length of what is hashed wraps. *)
Theorem short_packet_ends_the_call (s : Group.t) sender tag x :
  List.find (λ p, bool_decide (tag = take 16 (memberTagHash p))) (participants s) = Some sender → tag ≠ reflectorSelfTagHash s →
  length tag = 16%nat → wf_bytes tag → length (Wire.keyFingerprint (wire (base s))) = 8%nat → wf_bytes (Wire.keyFingerprint (wire (base s))) →
  (32 ≤ length x ≤ 35)%nat → wf_bytes x →
  let body := tag ++ Wire.keyFingerprint (wire (base s)) ++ x in
  Group.receive (signed (reflectorSelfSecret s) body) (zlen body + 16) s = Crash UndefinedBehaviour.
Proof.
  intros Hfind Hne Ht Htw Hfl Hfw Hx Hxw body. set (fp := Wire.keyFingerprint (wire (base s))) in *.
  assert (zlen body = 24 + Z.of_nat (length x)) as Hb by (unfold body, zlen; rewrite !length_app, Ht, Hfl; lia).
  unfold signed. set (sig := signature (reflectorSelfSecret s) body).
  assert (zlen sig = 16) as Hsig by (unfold sig, signature, zlen; rewrite length_take, sha256_length; done).
  enough (wp (ProcessIncomingPacket (body ++ sig) (zlen body + 16)) s (λ _ _, False) (λ _ _, False) (λ c, c = UndefinedBehaviour)) as Hw.
  { unfold wp in Hw. unfold Group.receive, catch_range, try_catch. destruct (ProcessIncomingPacket _ _ s); [done..|by subst]. }
  rewrite <- (app_nil_r (body ++ sig)).
  apply (wp_other_sender tag (fp ++ x) [] sender); [done|rewrite length_app; lia|fold body; lia| |done|done|].
  { by rewrite <- Hfl, take_app_length. }
  fold body sig. rewrite app_nil_r. set (n := zlen body + 16) in *. apply wp_with_stream. unfold participant_packet.
  apply wp_bind, wp_on_self, wp_get. cbv zeta.
  assert (zlen (body ++ sig) = n) as Hn by (rewrite zlen_app; lia).
  apply wp_message_key; [|lia..|intros; lia|].
  { unfold body. apply Forall_app_2; [repeat apply Forall_app_2; done|apply Forall_take, sha256_wf]. }
  intros _. set (i := BufferInputStream.mk _ _ 40). destruct (Wire.KDF2 _ _ _) as [aesKey aesIv]. apply wp_bind, wp_on_stream, wp_gets.
  change (BufferInputStream.Remaining i) with (u64 (n - 16 - 40)). rewrite (u64_small (n - 16 - 40)), (u64_small (n - 16 - 40 - 16)) by lia.
  destruct (Z.ltb_spec 1500 (n - 16 - 40 - 16)); [lia|]. apply wp_bind, wp_on_stream, wp_gets. change (BufferInputStream.GetOffset i) with 40.
  apply wp_bind, Wire.at_whole; [lia..|]. apply wp_bind, wp_at_outside; [|done].
  unfold zlen at 1. rewrite decrypt_length. unfold slice. rewrite length_take. unfold u64. rewrite mod_neg by lia. lia.
Qed.
End frames.

(* ------------------------------------------------------------------ *)
(** ** Examples *)

Section example.
#[local] Existing Instance example_random.
#[local] Existing Instance example_server.
#[local] Existing Instance example_host.
#[local] Existing Instance example_platform.
#[local] Existing Instance Wire.toy_crypto.
#[local] Existing Instance Wire.toy_laws.
#[local] Existing Instance stopped.
#[local] Existing Instance toy_libm.
#[local] Existing Instance toy_cbc.
#[local] Existing Instance toy_cbc_laws.
Import Packet Controller Group.

Definition example_stream : Stream := new_stream <| s_id := 1 |> <| s_type := STREAM_TYPE_AUDIO |> <| codec := CODEC_OPUS |>
  <| enabled := true |> <| frameDuration := 60 |>.
Lemma streams_roundtrip_witness :
  ∃ out, built (BufferOutputStream.ctor 1024) (SerializeStreams [example_stream; example_stream]) tt = Ret out tt ∧
         DeserializeStreams out = Some (announced_stream <$> take (Z.to_nat (2 mod 256)) [example_stream; example_stream]).
Proof. apply (streams_roundtrip [example_stream; example_stream] 1024 tt); [by repeat constructor|lia|by vm_compute]. Defined.

(** User 8, who sends, and the group of user 5, where 8 is a participant. *)
Definition example_sender : Group.t := after (join_group 8 (replicate 16 8)) (create 0).
Definition listening : Group.t := example_group <| base ::= λ c, c <| Controller.state := STATE_ESTABLISHED |> |>.
Definition the_participant : Participant := mkparticipant 8 (replicate 32 8) [0%nat] AudioLevelMeter.ctor.
Definition example_call_out : Call.t := Call.create (base example_sender) false.
Definition example_pending (d : bytes) : Link.PendingOutgoingPacket := Link.mkpending 5 PKT_STREAM_DATA (zlen d) d 0.
Definition example_plain : outcome Link.t bytes :=
  (d ← built (BufferOutputStream.ctor 1500) (Call.audio_packet false [1; 2; 3] example_call_out);
   packet (reflectorSelfTagHash example_sender) (replicate 15 9) (example_pending d)) (link (base example_sender)).
Lemma frame_reaches_the_group_witness :
  match example_plain with
  | Ret plain _ =>
      ∃ A' out d, SendPacket plain (groupReflector example_sender) (example_pending d) example_sender = Ret tt A' ∧
        trace (base A') = Datagram (Endpoint.id (groupReflector example_sender)) out :: trace (base example_sender) ∧
        let arrived := reflected (reflectorSelfTagHash example_sender) (reflectorSelfSecret listening) out in
        Group.receive (arrived ++ replicate 500 0) (zlen arrived) listening =
        catch_range (deliver the_participant [1; 2; 3] (u32 (Call.audioTimestampOut example_call_out))) listening
  | _ => False
  end.
Proof.
  destruct example_plain as [plain link'| |] eqn:E; [|by vm_compute in E..].
  apply (frame_reaches_the_group example_sender listening example_call_out (groupReflector example_sender) 0 5 [1; 2; 3]
    (replicate 15 9) (link (base example_sender)) plain link' the_participant (replicate 500 0)).
  - intros k n. split; [apply length_replicate|]. apply Forall_replicate. lia.
  - by repeat constructor.
  - by vm_compute.
  - reflexivity.
  - by repeat constructor.
  - by vm_compute.
  - by vm_compute.
  - vm_compute. by repeat constructor.
  - by vm_compute.
  - by vm_compute.
  - by vm_compute.
  - vm_compute. by repeat constructor.
  - by vm_compute.
  - by vm_compute.
  - by vm_compute.
  - by vm_compute.
  - by vm_compute.
  - apply Forall_replicate. lia.
  - by vm_compute.
  - exact E.
Defined.

Lemma short_packet_ends_the_call_witness :
  let body := replicate 16 8 ++ Wire.keyFingerprint (wire (base listening)) ++ replicate 32 0 in
  Group.receive (signed (reflectorSelfSecret listening) body) (zlen body + 16) listening = Crash UndefinedBehaviour.
Proof.
  apply (short_packet_ends_the_call listening the_participant (replicate 16 8) (replicate 32 0)).
  - by vm_compute.
  - by vm_compute.
  - reflexivity.
  - by repeat constructor.
  - by vm_compute.
  - vm_compute. by repeat constructor.
  - by vm_compute; lia.
  - apply Forall_replicate. lia.
Defined.
End example.
