(* ===== verification/Video.v ===== *)
(** * libtgvoip/VoIPController.cpp: video

    [SetVideoSource], [SendVideoFrame] with the codec's data, what the
    acknowledgements say of the frames that were sent, and what is done with
    a frame that the reassembler delivers.  A frame is cut into segments of
    1024 bytes, each in a packet of its own.

    The source and the renderer are objects of the platform: the model has
    the members the code reads and the calls it makes. *)

From Stdlib Require Import ZArith Lia SpecFloat List.
From stdpp Require Import base tactics list numbers option gmap strings.
From S2P Require Import Prelude Words Double History Memory Buffers Streams Seq Congestion Link Net Wire Packet.
From S2P Require Import Cursor Jitter Reassembler Endpoints Controller Incoming Setup ReceiveSafety.
From stdpp Require Import list.
Open Scope Z_scope.

Module Video.
Import Packet Controller.
#[local] Abbreviation C := Controller.t.

Definition VIDEO_FRAME_FLAG_KEYFRAME : Z := 1.
Definition INIT_VIDEO_RES_1080 : Z := 5.

(** The calls of the source's and the renderer's methods. *)
Inductive call :=
| SourceStart | SourceStop | SourceCallback (set : bool)
| SourceReset (codec resolution : Z) | RequestKeyFrame
| RendererReset (codec width height : Z) (csd : list bytes)
| DecodeAndDisplay (frame : Buffer.t) (pts : Z).
(** [csd], [width] and [height] of [VideoSource]. *)
Record Source := mksource { csd : list bytes; frameWidth : Z; frameHeight : Z }.
Record SentVideoFrame := mkframe { num : Z; fragmentCount : Z; unacknowledgedPackets : list Z }.
#[global] Instance frame_eta : Eta SentVideoFrame := λ f, mkframe (num f) (fragmentCount f) (unacknowledgedPackets f).

Record t := mk {
  base : C;
  videoSource : option Source;
  videoRenderer : bool;                    (** is there one? *)
  firstVideoFrameTime : double;
  videoFrameCount : Z;
  lastReceivedVideoFrameNumber : Z;
  sentVideoFrames : list SentVideoFrame;
  videoKeyframeRequested : bool;
  calls : list call;                       (** the last one first *)
}.
#[global] Instance video_eta : Eta t := λ s,
  mk (base s) (videoSource s) (videoRenderer s) (firstVideoFrameTime s) (videoFrameCount s) (lastReceivedVideoFrameNumber s)
     (sentVideoFrames s) (videoKeyframeRequested s) (calls s).
(** The members a controller starts with. *)
Definition create (c : C) : t := mk c None false D.zero 0 4294967295 [] false [].

Definition on_base {A} : M C A → M t A := zoom base (λ c s, s <| base := c |>).
Definition make (x : call) : M t unit := modify (λ s, s <| calls ::= cons x |>).

(** [GetStreamByType(type, outgoing)], and a change of that stream. *)
Definition GetStreamByType (type : Z) (outgoing : bool) (c : C) : option Stream :=
  List.find (λ st, s_type st =? type) (if outgoing then outgoingStreams c else incomingStreams c).
Fixpoint change_typed (type : Z) (f : Stream → Stream) (l : list Stream) : list Stream :=
  match l with
  | [] => []
  | st :: l' => if s_type st =? type then f st :: l' else st :: change_typed type f l'
  end.
Definition change_outgoing (f : Stream → Stream) : M C unit :=
  modify (λ c, c <| outgoingStreams ::= change_typed STREAM_TYPE_VIDEO f |>).

Section ops.
Context `{CryptoFunctions, Clock, Random, ServerConfig}.

(** [SendStreamCSD(stream)]. *)
Fixpoint write_csd (l : list bytes) : M BufferOutputStream.t unit :=
  match l with
  | [] => mret tt
  | b :: l' =>
      if 255 <=? zlen b then crash_with AssertFailed
      else BufferOutputStream.WriteByte (u8 (zlen b));; BufferOutputStream.WriteBytes b;; write_csd l'
  end.
Definition SendStreamCSD (stream : Stream) : M C unit :=
  if negb (csdIsValid stream) then crash_with AssertFailed
  else
    buf ← built (BufferOutputStream.ctor 256) (
      BufferOutputStream.WriteByte (s_id stream);;
      BufferOutputStream.WriteInt16 (s16 (width stream));;
      BufferOutputStream.WriteInt16 (s16 (height stream));;
      BufferOutputStream.WriteByte (u8 (zlen (codecSpecificData stream)));;
      write_csd (codecSpecificData stream));
    SendExtra buf EXTRA_TYPE_STREAM_CSD.

(** [SetVideoSource(source)]; without an outgoing video stream the null
    pointer is used. *)
Definition SetVideoSource (source : option Source) : M t unit :=
  s ← get;
  (if bool_decide (is_Some (videoSource s)) then make SourceStop;; make (SourceCallback false) else mret tt);;
  modify (λ s, s <| videoSource := source |>);;
  match GetStreamByType STREAM_TYPE_VIDEO true (base s) with
  | None => crash_with UndefinedBehaviour
  | Some stm =>
      match source with
      | Some _ =>
          (if enabled stm then mret tt
           else on_base (change_outgoing (λ st, st <| enabled := true |>);; SendStreamFlags (stm <| enabled := true |>)));;
          make (SourceReset (codec stm) (Z.min (peerMaxVideoResolution (base s)) INIT_VIDEO_RES_1080));;
          make SourceStart;;
          make (SourceCallback true)
      | None =>
          if enabled stm then
            on_base (change_outgoing (λ st, st <| enabled := false |>);; SendStreamFlags (stm <| enabled := false |>))
          else mret tt
      end
  end.
Definition SetVideoRenderer (renderer : bool) : M t unit := modify (λ s, s <| videoRenderer := renderer |>).

(** [SetVideoCodecSpecificData(data)]: of the second outgoing stream. *)
Definition SetVideoCodecSpecificData (data : list bytes) : M t unit :=
  s ← get;
  match outgoingStreams (base s) with
  | st0 :: st :: l => on_base (modify (λ c, c <| outgoingStreams := st0 :: st <| codecSpecificData := data |> :: l |>))
  | _ => crash_with UndefinedBehaviour
  end.

(** ** Sending a frame *)

Definition segmentCount (length : Z) : Z := length / 1024 + (if 0 <? length mod 1024 then 1 else 0).
(** The packet of one segment: the id of the stream, the number of the
    frame, its flags. *)
Definition write_segment (i pts flags count : Z) (frame : bytes) (seg : Z) : M BufferOutputStream.t unit :=
  let offset := seg * 1024 in
  let len := Z.min 1024 (zlen frame - offset) in
  BufferOutputStream.WriteByte (u8 (Z.lor i STREAM_DATA_FLAG_LEN16));;
  let lengthAndFlags := Z.land len 0x7FF in
  let lengthAndFlags := if 1 <? count then Z.lor lengthAndFlags STREAM_DATA_XFLAG_FRAGMENTED else lengthAndFlags in
  let lengthAndFlags := if has flags VIDEO_FRAME_FLAG_KEYFRAME then Z.lor lengthAndFlags STREAM_DATA_XFLAG_KEYFRAME else lengthAndFlags in
  BufferOutputStream.WriteInt16 (s16 lengthAndFlags);;
  BufferOutputStream.WriteInt32 (s32 pts);;
  (if 1 <? count then BufferOutputStream.WriteByte (u8 seg);; BufferOutputStream.WriteByte (u8 count) else mret tt);;
  BufferOutputStream.WriteBytesRange frame offset len.
(** The loop over the segments; the result are the numbers of the packets. *)
Fixpoint send_segments (i pts flags count : Z) (frame : bytes) (segs : list nat) : M C (list Z) :=
  match segs with
  | [] => mret []
  | seg :: segs' =>
      pkt ← built (BufferOutputStream.ctor 1500) (write_segment i pts flags count frame (Z.of_nat seg));
      modify (λ c, c <| unsentStreamPackets := u32 (unsentStreamPackets c + 1) |>);;
      sq ← on_link Link.GenerateOutSeq;
      _ ← SendOrEnqueuePacket (Link.mkpending sq PKT_STREAM_DATA (zlen pkt) pkt 0) true;
      l ← send_segments i pts flags count frame segs';
      mret (sq :: l)
  end.

(** While a key frame is awaited other frames are dropped. *)
Definition admits (flags : Z) : M t bool :=
  s ← get;
  if videoKeyframeRequested s then
    if has flags VIDEO_FRAME_FLAG_KEYFRAME then
      modify (λ s, s <| sentVideoFrames := [] |> <| videoKeyframeRequested := false |>);; mret true
    else mret false
  else mret true.
(** The data of the codec, before the first frame. *)
Definition update_csd (stm : Stream) : M t unit :=
  if csdIsValid stm then mret tt
  else
    s ← get;
    match videoSource s with
    | None => crash_with UndefinedBehaviour
    | Some src =>
        let f st := st <| codecSpecificData := csd src |> <| csdIsValid := true |>
                       <| width := frameWidth src |> <| height := frameHeight src |> in
        on_base (change_outgoing f;; SendStreamCSD (f stm))
    end.
(** [SendVideoFrame(frame, flags)]. *)
Definition SendVideoFrame (frame : bytes) (flags : Z) : M t unit :=
  s ← get;
  match GetStreamByType STREAM_TYPE_VIDEO true (base s) with
  | None => mret tt
  | Some stm =>
      (if D.eqb (firstVideoFrameTime s) D.zero then
         now ← on_base GetCurrentTime; modify (λ s, s <| firstVideoFrameTime := now |>)
       else mret tt);;
      go ← admits flags;
      if negb go then mret tt
      else
        pts ← gets videoFrameCount;
        modify (λ s, s <| videoFrameCount := u32 (pts + 1) |>);;
        update_csd stm;;
        let count := segmentCount (zlen frame) in
        l ← on_base (send_segments (s_id stm) pts flags count frame (List.seq 0 (Z.to_nat count)));
        modify (λ s, s <| sentVideoFrames ::= λ fs, fs ++ [mkframe pts (u32 count) l] |>)
  end.

(** ** What acknowledgements say of the frames *)

(** The packets of a frame that are not acknowledged yet. *)
Definition forget_acknowledged (l : Link.t) (f : SentVideoFrame) : SentVideoFrame :=
  f <| unacknowledgedPackets ::= List.filter (λ sq, negb (Link.WasOutgoingPacketAcknowledged sq l)) |>.
(** The frames that stay, and is a key frame to be requested? *)
Fixpoint find_lost (first : bool) (l : list SentVideoFrame) : list SentVideoFrame * bool :=
  match l with
  | [] => ([], false)
  | f :: l' =>
      if bool_decide (unacknowledgedPackets f = []) then
        if first then find_lost true l' else (l, true)
      else if first then let '(k, b) := find_lost false l' in (f :: k, b)
      else if zlen (unacknowledgedPackets f) <? fragmentCount f then (l, true)
      else let '(k, b) := find_lost false l' in (f :: k, b)
  end.
(** The part of [ProcessIncomingPacket] about video, after the
    acknowledgements of a packet. *)
Definition check_sent_frames : M t unit :=
  s ← get;
  if bool_decide (videoSource s = None) || videoKeyframeRequested s then mret tt
  else
    let '(k, lost) := find_lost true (forget_acknowledged (link (base s)) <$> sentVideoFrames s) in
    modify (λ s, s <| sentVideoFrames := k |>);;
    if lost : bool then modify (λ s, s <| videoKeyframeRequested := true |>);; make RequestKeyFrame else mret tt.

(** ** A frame that arrived *)

(** [ProcessIncomingVideoFrame(frame, pts, keyframe)]. *)
Definition ProcessIncomingVideoFrame (d : PacketReassembler.delivery) : M t unit :=
  let '(frame, pts, keyframe) := d in
  s ← get;
  if negb (videoRenderer s) then mret tt
  else
    match GetStreamByType STREAM_TYPE_VIDEO false (base s) with
    | None => crash_with UndefinedBehaviour
    | Some stm =>
        (if csdIsValid stm then mret tt
         else
           make (RendererReset (codec stm) (width stm) (height stm) (codecSpecificData stm));;
           on_base (modify (λ c, c <| incomingStreams ::= change_typed STREAM_TYPE_VIDEO (λ st, st <| csdIsValid := true |>) |>)));;
        if (lastReceivedVideoFrameNumber s =? 4294967295) || (lastReceivedVideoFrameNumber s =? u32 (pts - 1)) || keyframe then
          modify (λ s, s <| lastReceivedVideoFrameNumber := pts |>);;
          make (DecodeAndDisplay frame pts)
        else mret tt
    end.
End ops.
End Video.

(* ------------------------------------------------------------------ *)
(** ** The bytes of a segment *)

Section segments.
Import Packet Controller Video.

Lemma land_above x n : 0 ≤ n → 0 ≤ x < 2 ^ n → Z.land x (Z.shiftl 1 n) = 0.
Proof.
  intros Hn Hx. apply Z.bits_inj'. intros k Hk. rewrite Z.land_spec, Z.shiftl_1_l, Z.bits_0, Z.pow2_bits_eqb by lia.
  destruct (Z.eqb_spec n k) as [<-|]; [|apply andb_false_r]. rewrite andb_true_r. apply Z.testbit_false; [lia|]. by rewrite Z.div_small.
Qed.
(** The byte of the stream's id, and the length with its flags. *)
Definition id_byte (i : Z) : Z := u8 (Z.lor i STREAM_DATA_FLAG_LEN16).
Definition length_flags (len : Z) (fragmented keyframe : bool) : Z :=
  let l := Z.land len 0x7FF in
  let l := if fragmented then Z.lor l STREAM_DATA_XFLAG_FRAGMENTED else l in
  if keyframe then Z.lor l STREAM_DATA_XFLAG_KEYFRAME else l.

Lemma id_byte_reads i : 0 ≤ i < 64 → has (Z.land (id_byte i) 0xC0) STREAM_DATA_FLAG_LEN16 = true ∧ Z.land (id_byte i) 0x3F = i.
Proof.
  intros Hi. assert (id_byte i = Z.lor i 64) as ->.
  { unfold id_byte. apply u8_small. split; [by apply Z.lor_nonneg; lia|].
    assert (Z.lor i 64 = i + 64) as ->; [|lia]. rewrite <- Z.lxor_lor, <- Z.add_nocarry_lxor; [done|by apply (land_above i 6)..]. }
  split.
  - unfold has. rewrite <- Z.land_assoc. change (Z.land 192 STREAM_DATA_FLAG_LEN16) with 64.
    assert (Z.land i 64 = 0) as E by (apply (land_above i 6); lia). by rewrite Z.land_lor_distr_l, E.
  - rewrite Z.land_lor_distr_l. change (Z.land 64 63) with 0. rewrite Z.lor_0_r. change 63 with (Z.ones 6).
    rewrite Z.land_ones by lia. by apply Z.mod_small.
Qed.
Lemma length_flags_reads len fragmented keyframe :
  0 ≤ len < 2048 →
  let l := length_flags len fragmented keyframe in
  u16 (s16 l) = l ∧ has l STREAM_DATA_XFLAG_FRAGMENTED = fragmented ∧ has l STREAM_DATA_XFLAG_EXTRA_FEC = false ∧
  has l STREAM_DATA_XFLAG_KEYFRAME = keyframe ∧ Z.land l 0x7FF = len.
Proof.
  intros Hl. assert (Z.land len 2047 = len) as E by (change 2047 with (Z.ones 11); rewrite Z.land_ones by lia; by apply Z.mod_small).
  unfold length_flags. rewrite E. cbv zeta.
  assert (Z.land len 16384 = 0 ∧ Z.land len 8192 = 0 ∧ Z.land len 32768 = 0) as (E1 & E2 & E3).
  { split_and!; [apply (land_above len 14)|apply (land_above len 13)|apply (land_above len 15)]; lia. }
  set (l := if keyframe then _ else _).
  assert (l = len + (if fragmented then 16384 else 0) + (if keyframe then 32768 else 0)) as Hsum.
  { assert (Z.lor len 16384 = len + 16384) as A1 by (rewrite <- Z.lxor_lor, <- Z.add_nocarry_lxor by done; done).
    assert (Z.lor len 32768 = len + 32768) as A2 by (rewrite <- Z.lxor_lor, <- Z.add_nocarry_lxor by done; done).
    unfold l. destruct fragmented, keyframe; change STREAM_DATA_XFLAG_FRAGMENTED with 16384; change STREAM_DATA_XFLAG_KEYFRAME with 32768; try lia.
    rewrite <- Z.lxor_lor, <- Z.add_nocarry_lxor; [lia|rewrite Z.land_lor_distr_l, E3; done..]. }
  split_and!.
  - rewrite Hsum. destruct fragmented, keyframe; word_lia.
  - unfold l, has. change STREAM_DATA_XFLAG_FRAGMENTED with 16384. change STREAM_DATA_XFLAG_KEYFRAME with 32768.
    destruct fragmented, keyframe; rewrite ?Z.land_lor_distr_l, E1; done.
  - unfold l, has. change STREAM_DATA_XFLAG_FRAGMENTED with 16384. change STREAM_DATA_XFLAG_KEYFRAME with 32768. change STREAM_DATA_XFLAG_EXTRA_FEC with 8192.
    destruct fragmented, keyframe; rewrite ?Z.land_lor_distr_l, E2; done.
  - unfold l, has. change STREAM_DATA_XFLAG_FRAGMENTED with 16384. change STREAM_DATA_XFLAG_KEYFRAME with 32768.
    destruct fragmented, keyframe; rewrite ?Z.land_lor_distr_l, E3; done.
  - unfold l. change STREAM_DATA_XFLAG_FRAGMENTED with 16384. change STREAM_DATA_XFLAG_KEYFRAME with 32768.
    destruct fragmented, keyframe; rewrite ?Z.land_lor_distr_l, E; change (Z.land 16384 2047) with 0; change (Z.land 32768 2047) with 0;
      rewrite ?Z.lor_0_r; done.
Qed.
(** The bytes of one segment. *)
Definition piece (frame : bytes) (k : nat) : bytes := slice frame (k * 1024) 1024.
Definition segment_bytes (i pts : Z) (keyframe : bool) (n : nat) (frame : bytes) (k : nat) : bytes :=
  [id_byte i] ++ le_bytes 2 (s16 (length_flags (zlen (piece frame k)) (1 <? Z.of_nat n) keyframe)) ++ le_bytes 4 (s32 pts) ++
  (if 1 <? Z.of_nat n then [u8 (Z.of_nat k); u8 (Z.of_nat n)] else []) ++ piece frame k.

Lemma segments_of_length n len : 0 ≤ len → segmentCount len = Z.of_nat n → (Z.of_nat n - 1) * 1024 < len ∨ len = 0 ∧ n = 0%nat.
Proof.
  unfold segmentCount. intros Hl E. pose proof (Z.div_mod len 1024 ltac:(lia)). pose proof (Z.mod_pos_bound len 1024 ltac:(lia)).
  destruct (Z.ltb_spec 0 (len mod 1024)); lia.
Qed.
Lemma segments_cover n len : segmentCount len = Z.of_nat n → len ≤ Z.of_nat n * 1024.
Proof.
  unfold segmentCount. pose proof (Z.div_mod len 1024 ltac:(lia)). pose proof (Z.mod_pos_bound len 1024 ltac:(lia)).
  destruct (Z.ltb_spec 0 (len mod 1024)); lia.
Qed.
Lemma zlen_piece frame k n :
  segmentCount (zlen frame) = Z.of_nat n → (k < n)%nat → zlen (piece frame k) = Z.min 1024 (zlen frame - Z.of_nat k * 1024) ∧ 1 ≤ zlen (piece frame k).
Proof.
  intros Hn Hk. destruct (segments_of_length n (zlen frame)) as [Hl|[]]; [apply zlen_nonneg|done| |lia].
  unfold piece, slice, zlen in *. rewrite length_take, length_drop. lia.
Qed.
Lemma pieces_join frame n : segmentCount (zlen frame) = Z.of_nat n → mjoin (piece frame <$> seq 0 n) = frame.
Proof.
  intros Hn. apply segments_cover in Hn. unfold zlen in Hn. assert (length frame ≤ n * 1024)%nat as Hl by lia. clear Hn.
  transitivity (take (n * 1024) frame); [|by apply take_ge]. clear Hl. induction n as [|n IH]; [done|].
  rewrite seq_S, fmap_app, join_app, IH. cbn. rewrite app_nil_r. unfold piece, slice.
  replace (1024 + n * 1024)%nat with (n * 1024 + 1024)%nat by lia. symmetry. rewrite <- (take_drop (n * 1024) frame) at 1.
  rewrite take_app, take_take, length_take. destruct (Nat.le_gt_cases (n * 1024) (length frame)).
  - f_equal; f_equal; lia.
  - rewrite drop_ge by lia. by rewrite !take_nil, !app_nil_r, Nat.min_r by lia.
Qed.

Lemma wp_write_segment i pts flags n frame k o (Q : unit → BufferOutputStream.t → Prop) T D :
  grows [] o → segmentCount (zlen frame) = Z.of_nat n → (k < n)%nat → zlen frame < 9223372036854775808 →
  (∀ o', grows (segment_bytes i pts (has flags VIDEO_FRAME_FLAG_KEYFRAME) n frame k) o' → Q tt o') →
  wp (write_segment i pts flags (Z.of_nat n) frame (Z.of_nat k)) o Q T D.
Proof.
  intros Hg Hn Hk Hmax HQ. destruct (zlen_piece frame k n Hn Hk) as [Hp Hp1].
  unfold write_segment. rewrite <- Hp. set (l := zlen (piece frame k)) in *. fold (id_byte i).
  fold (length_flags l (1 <? Z.of_nat n) (has flags VIDEO_FRAME_FLAG_KEYFRAME)). cbv zeta.
  assert (slice frame (k * 1024) (Z.to_nat l) = piece frame k) as Hs.
  { unfold l, zlen. rewrite Nat2Z.id. unfold piece, slice. rewrite length_take, <- take_take. by rewrite firstn_all. }
  apply wp_bind. eapply wp_WriteByte; [done|by vm_compute|intros o1 G1].
  apply wp_bind. eapply wp_WriteInt16; [done|by vm_compute|intros o2 G2].
  apply wp_bind. eapply wp_WriteInt32; [done|zl|intros o3 G3]. apply wp_bind.
  apply wp_mono with (Q' := λ _ o4, grows ((([] ++ [id_byte i]) ++ le_bytes 2 (s16 (length_flags l (1 <? Z.of_nat n) (has flags VIDEO_FRAME_FLAG_KEYFRAME)))) ++
    le_bytes 4 (s32 pts) ++ (if 1 <? Z.of_nat n then [u8 (Z.of_nat k); u8 (Z.of_nat n)] else [])) o4).
  { destruct (1 <? Z.of_nat n).
    - apply wp_bind. eapply wp_WriteByte; [done|zl|intros o4 G4]. eapply wp_WriteByte; [done|zl|intros o5 G5]. rewrite <- (app_assoc _ [_]) in G5. cbn [app] in G5. by rewrite <- (app_assoc _ (le_bytes 4 _)) in G5.
    - apply wp_ret. by rewrite app_nil_r. }
  intros [] o4 G4. unfold wp, BufferOutputStream.WriteBytesRange. rewrite u64_small by lia.
  destruct (Z.ltb_spec (zlen frame) (Z.of_nat k * 1024 + l)); [lia|].
  rewrite memcpy_from_ok by lia. unfold defined, mbind, M_bind. fold (wp (BufferOutputStream.WriteBytes (take (Z.to_nat l) (drop (Z.to_nat (Z.of_nat k * 1024)) frame))) o4 Q T D).
  replace (take _ _) with (piece frame k).
  2: { rewrite <- Hs. unfold slice. f_equal. f_equal. lia. }
  eapply wp_WriteBytes; [done| |intros o5 G5].
  { fold l. rewrite !zlen_app, !zlen_le_bytes. change (zlen []) with 0. change (zlen [id_byte i]) with 1. destruct (1 <? Z.of_nat n); [change (zlen [u8 (Z.of_nat k); u8 (Z.of_nat n)]) with 2|change (zlen []) with 0]; lia. }
  apply HQ. unfold segment_bytes. fold l. by rewrite <- !app_assoc in G5.
Qed.
End segments.

(* ------------------------------------------------------------------ *)
(** ** Receiving segments *)

Section receiving.
Context {CF : CryptoFunctions} {CK : Clock} {RD : Random} {SC : ServerConfig} {HO : Host}.
Import Packet Controller Video.

(** What [Incoming.handle_stream_data] runs after the header [hdr] of a
    packet. *)
Definition receive_segment (p : bytes * bytes) : M Controller.t unit :=
  let mem := p.1 ++ p.2 in
  with_stream (BufferInputStream.mk mem (zlen mem) (zlen p.1)) (Incoming.stream_datas mem (zlen mem) 1).
Fixpoint receive_segments (l : list (bytes * bytes)) : M Controller.t unit :=
  match l with
  | [] => mret tt
  | p :: l' => receive_segment p;; receive_segments l'
  end.

(** The stream [i] is a video stream whose reassembler is [r]; the audio
    output was started. *)
Definition watching (i : Z) (r : PacketReassembler.t) (c : Controller.t) : Prop :=
  audioOutStarted c = true ∧
  ∃ stm, Incoming.stream_of i c = Some stm ∧ s_type stm = STREAM_TYPE_VIDEO ∧ packetReassembler stm = Some r.
Lemma find_change_first i f l :
  (∀ st, s_id (f st) = s_id st) →
  List.find (λ st, s_id st =? i) (Incoming.change_first i f l) = f <$> List.find (λ st, s_id st =? i) l.
Proof.
  intros Hf. induction l as [|st l IH]; [done|]. cbn. destruct (s_id st =? i) eqn:E; cbn.
  - by rewrite Hf, E.
  - by rewrite E.
Qed.

Definition parts_of (n k : nat) : Z * Z := if 1 <? Z.of_nat n then (u8 (Z.of_nat k), u8 (Z.of_nat n)) else (0, 0).
Lemma wp_receive_segment i r c hdr pts kf n frame k out r' (Q : unit → Controller.t → Prop) T D :
  watching i r c → 0 ≤ i < 64 → segmentCount (zlen frame) = Z.of_nat n → (k < n)%nat → zlen hdr ≤ 100000 →
  wf_bytes hdr → wf_bytes frame →
  PacketReassembler.AddFragment (Buffer.of_bytes (piece frame k)) (parts_of n k).1 (parts_of n k).2 (u32 pts) kf r = Ret out r' →
  (∀ c', watching i r' c' → trace c' = rev (VideoFrame <$> out) ++ trace c → Q tt c') →
  wp (receive_segment (hdr, segment_bytes i pts kf n frame k)) c Q T D.
Proof.
  intros (Hout & stm & Hstm & Hty & Hr) Hi Hn Hk Hhdr Hwh Hwf Hadd HQ.
  destruct (zlen_piece frame k n Hn Hk) as [Hp Hp1]. set (pc := piece frame k) in *.
  assert (wf_bytes pc) as Hwp by by apply Forall_take, Forall_drop.
  destruct (id_byte_reads i Hi) as [Hl16 Hid]. destruct (length_flags_reads (zlen pc) (1 <? Z.of_nat n) kf ltac:(lia)) as (Hl & Hfr & Hfec & Hkf & Hlen).
  set (lf := length_flags _ _ _) in *. set (seg := segment_bytes i pts kf n frame k).
  assert (seg = [id_byte i] ++ le_bytes 2 (s16 lf) ++ le_bytes 4 (s32 pts) ++
    (if 1 <? Z.of_nat n then [u8 (Z.of_nat k); u8 (Z.of_nat n)] else []) ++ pc) as Eseg by done.
  unfold receive_segment. cbn [fst snd]. set (mem := hdr ++ seg).
  assert (zlen mem = zlen hdr + zlen seg) as Hzm by apply zlen_app.
  assert (zlen pc ≤ zlen seg ≤ 1033) as Hzs by (rewrite Eseg; destruct (1 <? Z.of_nat n); zl).
  pose proof (zlen_nonneg hdr) as Hh0.
  assert (here mem seg (BufferInputStream.mk mem (zlen mem) (zlen hdr))) as Hh.
  { pose proof (zlen_nonneg hdr). pose proof (zlen_nonneg seg). split; [constructor; cbn; [done|lia|lia|]|done|].
    - apply Forall_app_2; [done|]. rewrite Eseg. apply Forall_app_2; [apply Forall_singleton, u8_range|].
      do 2 (apply Forall_app_2; [apply le_bytes_wf|]). apply Forall_app_2; [|done].
      destruct (1 <? Z.of_nat n); [|constructor]. constructor; [apply u8_range|]. apply Forall_singleton, u8_range.
    - unfold BufferInputStream.rest, mem. cbn. unfold zlen. by rewrite Nat2Z.id, drop_app_length. }
  set (x := BufferInputStream.mk _ _ _) in *. clearbody x. rewrite Eseg in Hh. unfold Incoming.stream_datas.
  apply wp_with_stream, wp_bind. unfold Incoming.stream_data.
  apply wp_bind, wp_on_stream. eapply here_ReadByte; [exact Hh|]. intros x1 H1. rewrite Hl16, Hid.
  apply wp_bind, wp_bind, wp_on_stream. eapply here_ReadInt16; [exact H1|]. intros x2 H2. apply wp_ret.
  assert (u16 (s16 (s16 lf)) = lf) as -> by (rewrite <- Hl at 2; word_lia).
  apply wp_bind, wp_on_stream. eapply here_ReadInt32; [exact H2|]. intros x3 H3. cbv zeta.
  assert (u32 (s32 (s32 pts)) = u32 pts) as -> by word_lia.
  apply wp_bind, wp_on_self, wp_modify. apply wp_bind, wp_on_self, wp_get. change (audioOutStarted (c <| audioTimestampIn := u32 pts |>)) with (audioOutStarted c). rewrite Hout. cbn [negb andb].
  apply wp_bind, wp_ret. rewrite Hfr, Hfec, Hkf, Hlen. apply wp_bind.
  apply wp_mono with (Q' := λ fr p, fr = parts_of n k ∧ here mem pc p.1 ∧ p.2 = c <| audioTimestampIn := u32 pts |>).
  { unfold parts_of. destruct (1 <? Z.of_nat n).
    - apply wp_bind, wp_on_stream. eapply here_ReadByte; [exact H3|]. intros x4 H4.
      apply wp_bind, wp_on_stream. eapply here_ReadByte; [exact H4|]. intros x5 H5. by apply wp_ret.
    - by apply wp_ret. }
  intros frag [x4 c4] (-> & H4 & E4). cbn [fst snd] in H4, E4. subst c4. destruct (here_offset _ _ _ H4) as [Ho _].
  apply wp_bind, wp_on_stream, wp_gets. unfold BufferInputStream.GetOffset. rewrite Ho.
  rewrite u64_small by lia. destruct (Z.ltb_spec (zlen mem) (zlen mem - zlen pc + zlen pc)); [lia|].
  apply wp_bind, Wire.at_whole; [lia..|].
  assert (slice mem (Z.to_nat (zlen mem - zlen pc)) (Z.to_nat (zlen pc)) = pc) as ->.
  { pose proof (here_rest _ _ _ H4) as Hrest. unfold BufferInputStream.rest in Hrest. rewrite (here_buffer _ _ _ H4), Ho in Hrest.
    unfold slice. rewrite Hrest. apply take_ge. unfold zlen. lia. }
  assert (Incoming.stream_of i (c <| audioTimestampIn := u32 pts |>) = Some stm) as -> by exact Hstm.
  rewrite Hty. change (STREAM_TYPE_VIDEO =? STREAM_TYPE_AUDIO) with false. change (STREAM_TYPE_VIDEO =? STREAM_TYPE_VIDEO) with true. cbv iota.
  rewrite Hr, Hadd. apply wp_bind, wp_on_self, wp_bind, wp_modify, wp_modify. apply wp_bind.
  rewrite bool_decide_eq_true_2 by done. apply wp_ret, wp_ret, wp_ret. cbn [snd]. apply HQ; [|done].
  split; [done|]. eexists. split; [unfold Incoming.stream_of; cbn; rewrite find_change_first by done; by rewrite (Hstm : List.find _ _ = _)|done].
Qed.

Lemma wp_receive_segments i pts kf n frame order hdrs r c out r' :
  (2 ≤ n ≤ 255)%nat → 0 ≤ i < 64 → segmentCount (zlen frame) = Z.of_nat n → wf_bytes frame → Forall (λ k, k < n)%nat order →
  length hdrs = length order → Forall (λ h, wf_bytes h ∧ zlen h ≤ 100000) hdrs → watching i r c →
  PacketReassembler.feed ((λ k, PacketReassembler.Build_fragment k (piece frame k)) <$> order) (Z.of_nat n) (u32 pts) kf r = Ret out r' →
  wp (receive_segments (zip hdrs (segment_bytes i pts kf n frame <$> order))) c
    (λ _ c', watching i r' c' ∧ trace c' = rev (VideoFrame <$> out) ++ trace c) (λ _ _, False) (λ _, False).
Proof.
  intros Hn Hi Hcnt Hwf Hord. revert hdrs r c out. induction Hord as [|k order Hk _ IH]; intros hdrs r c out Hlen Hh Hw Hfeed.
  { destruct hdrs; [|done]. injection Hfeed as <- <-. apply wp_ret. by split. }
  destruct hdrs as [|h hdrs]; [done|]. apply Forall_cons in Hh as [[Hwh Hzh] Hh]. rewrite fmap_cons in Hfeed.
  cbn [PacketReassembler.feed PacketReassembler.f_index PacketReassembler.f_data] in Hfeed. cbn [fmap list_fmap zip zip_with receive_segments].
  destruct (PacketReassembler.AddFragment _ _ _ _ _ _) as [o r1| |] eqn:Ea; [|done..].
  destruct (PacketReassembler.feed _ _ _ _ r1) as [o' r2| |] eqn:Ef; [|done..]. injection Hfeed as <- <-.
  assert (parts_of n k = (Z.of_nat k, Z.of_nat n)) as Hparts.
  { unfold parts_of. rewrite (proj2 (Z.ltb_lt 1 (Z.of_nat n))) by lia. by rewrite !u8_small by lia. }
  apply wp_bind. eapply (wp_receive_segment i r c h pts kf n frame k o r1); [done..| |].
  { by rewrite Hparts. }
  intros c1 Hw1 Ht1. eapply wp_mono; [eapply IH; [cbn in Hlen; lia|done|exact Hw1|exact Ef]|].
  intros [] c2 [Hw2 Ht2]. split; [done|]. rewrite Ht2, Ht1, fmap_app, rev_app_distr. by rewrite app_assoc.
Qed.

(** All segments of a frame, in any order, give the frame. *)
Lemma wp_receive_frame i pts kf n frame order hdrs r c :
  (1 ≤ n ≤ 255)%nat → 0 ≤ i < 64 → segmentCount (zlen frame) = Z.of_nat n → wf_bytes frame → order ≡ₚ seq 0 n →
  length hdrs = length order → Forall (λ h, wf_bytes h ∧ zlen h ≤ 100000) hdrs →
  watching i r c → PacketReassembler.wf r → PacketReassembler.currentTimestamp r ≠ u32 pts →
  wp (receive_segments (zip hdrs (segment_bytes i pts kf n frame <$> order))) c
    (λ _ c', trace c' = VideoFrame (Buffer.of_bytes frame, u32 pts, kf) :: trace c) (λ _ _, False) (λ _, False).
Proof.
  intros Hn Hi Hcnt Hwf Hperm Hlen Hh Hw Hwr Hts.
  assert (Forall (λ k, k < n)%nat order) as Hord.
  { apply Forall_forall. intros k Hk. rewrite Hperm in Hk. apply elem_of_seq in Hk. lia. }
  destruct (decide (n = 1)%nat) as [->|Hn1].
  - assert (order = [0%nat]) as -> by by apply Permutation_singleton_r in Hperm.
    destruct hdrs as [|h [|? ?]]; [done| |done]. apply Forall_singleton in Hh as [Hwh Hzh].
    cbn [fmap list_fmap zip zip_with receive_segments]. apply wp_bind.
    assert (piece frame 0 = frame) as Hp by (rewrite <- (pieces_join frame 1 Hcnt) at 2; cbn; by rewrite app_nil_r).
    set (r' := PacketReassembler.mk (u32 pts) 0 (PacketReassembler.parts r) kf 0).
    eapply (wp_receive_segment i r c h pts kf 1 frame 0 [(Buffer.of_bytes frame, u32 pts, kf)] r'); [done..|lia|done|done|done| |].
    + rewrite Hp. unfold PacketReassembler.AddFragment. by destruct (Z.eqb_spec (u32 pts) (PacketReassembler.currentTimestamp r)); [congruence|].
    + intros c' _ Ht. by apply wp_ret.
  - destruct (feed_any_order (piece frame) n order (u32 pts) kf r) as (r' & Hf & _); [lia|done..| |].
    { intros k Hk. destruct (zlen_piece frame k n Hcnt Hk). split; [intros E|]; [rewrite E, zlen_nil in *|]; lia. }
    rewrite (pieces_join frame n Hcnt) in Hf. eapply wp_mono; [eapply wp_receive_segments; [lia|done..]|]. by intros [] c' [_ ->].
Qed.
End receiving.

(* ------------------------------------------------------------------ *)
(** ** Sending a frame *)

Section sending.
Context {CF : CryptoFunctions} {CK : Clock} {RD : Random} {SC : ServerConfig} {HO : Host}.
Import Packet Controller Video.

(** The current endpoint is there and is reached by UDP, whose socket is not
    ready: packets are put into the queue. *)
Definition queueing (c : Controller.t) : Prop :=
  udpReady c = false ∧
  ∃ e, OMap.find (Endpoints.currentEndpoint (routes c)) (Endpoints.endpoints (routes c)) = Some e ∧ Endpoint.type e ≠ Endpoint.TCP_RELAY.
Lemma wp_queue pkt c (Q : bool → Controller.t → Prop) T D :
  queueing c → Link.p_endpoint pkt = 0 → Q false (c <| sendQueue := sendQueue c ++ [pkt] |>) → wp (SendOrEnqueuePacket pkt true) c Q T D.
Proof.
  intros (Hr & e & He & Ht) H0 HQ. unfold SendOrEnqueuePacket. apply wp_bind, wp_zoom.
  unfold Endpoints.GetEndpointForPacket. apply wp_bind, wp_get. rewrite H0. cbn [Z.eqb].
  unfold wp at 1, fmap, M_fmap. unfold Endpoints.at_. unfold mbind, M_bind, get at 1. rewrite He. unfold defined, mret, M_ret.
  assert (c <| routes := routes c |> = c) as -> by by destruct c.
  rewrite bool_decide_eq_false_2 by done. cbn [negb]. apply wp_bind, wp_gets. rewrite Hr. cbn [negb].
  apply wp_bind, wp_modify, wp_ret. exact HQ.
Qed.
(** The packet of segment [k] when the first one has number [sq]. *)
Definition segment_packet (i pts : Z) (kf : bool) (n : nat) (frame : bytes) (sq : Z) (k : nat) : Link.PendingOutgoingPacket :=
  let d := segment_bytes i pts kf n frame k in Link.mkpending (u32 (sq + Z.of_nat k)) PKT_STREAM_DATA (zlen d) d 0.
Lemma wp_send_segments i pts flags n frame a m c sq (Q : list Z → Controller.t → Prop) T D :
  queueing c → segmentCount (zlen frame) = Z.of_nat n → (a + m <= n)%nat → zlen frame < 9223372036854775808 →
  u32 (Link.seq (link c)) = u32 (sq + Z.of_nat a) → is_u32 (Link.seq (link c)) →
  (∀ c', sendQueue c' = sendQueue c ++ (segment_packet i pts (has flags VIDEO_FRAME_FLAG_KEYFRAME) n frame sq <$> seq a m) →
         Q ((λ k, u32 (sq + Z.of_nat k)) <$> seq a m) c') →
  wp (send_segments i pts flags (Z.of_nat n) frame (seq a m)) c Q T D.
Proof.
  revert a c Q. induction m as [|m IH]; intros a c Q Hq Hn Hm Hmax Hsq Hu HQ; cbn [seq send_segments].
  { apply wp_ret, HQ. by rewrite app_nil_r. }
  set (kf := has flags VIDEO_FRAME_FLAG_KEYFRAME) in *. set (d := segment_bytes i pts kf n frame a).
  apply wp_bind. apply (wp_built_exact 1500 _ d); [lia|intros o Ho; eapply wp_write_segment; [done|done|lia|done|done]|].
  apply wp_bind, wp_modify. apply wp_bind, wp_zoom, wp_bind, wp_gets, wp_bind, wp_modify, wp_ret.
  rewrite (u32_small (Link.seq _)) in Hsq by done.
  assert (Link.mkpending (Link.seq (link c)) PKT_STREAM_DATA (zlen d) d 0 = segment_packet i pts kf n frame sq a) as Epkt.
  { unfold segment_packet. fold d. by rewrite Hsq. }
  apply wp_bind, wp_queue; [exact Hq|done|]. apply wp_bind. apply IH; [exact Hq|done|lia|done| |apply u32_range|].
  - change (u32 (u32 (Link.seq (link c) + 1)) = u32 (sq + Z.of_nat (S a))). rewrite Hsq, u32_add_l. unfold u32. rewrite Z.mod_mod by lia. f_equal. lia.
  - intros c' Hc'. apply wp_ret. specialize (HQ c'). cbn [seq fmap list_fmap] in HQ. rewrite <- Hsq in HQ. apply HQ. rewrite Hc', <- Epkt.
    change (sendQueue _) with (sendQueue c ++ [Link.mkpending (Link.seq (link c)) PKT_STREAM_DATA (zlen d) d 0]) at 1. by rewrite <- app_assoc.
Qed.

(** A frame that is admitted is queued, segment by segment, and remembered. *)
Lemma wp_SendVideoFrame s frame flags stm n (Q : unit → Video.t → Prop) T D :
  queueing (base s) → GetStreamByType STREAM_TYPE_VIDEO true (base s) = Some stm → csdIsValid stm = true →
  videoKeyframeRequested s = false ∨ has flags VIDEO_FRAME_FLAG_KEYFRAME = true →
  segmentCount (zlen frame) = Z.of_nat n → zlen frame < 1099511627776 → is_u32 (Link.seq (link (base s))) →
  (∀ s', videoFrameCount s' = u32 (videoFrameCount s + 1) → videoKeyframeRequested s' = false →
     sendQueue (base s') = sendQueue (base s) ++
       (segment_packet (s_id stm) (videoFrameCount s) (has flags VIDEO_FRAME_FLAG_KEYFRAME) n frame (Link.seq (link (base s))) <$> seq 0 n) →
     sentVideoFrames s' = (if videoKeyframeRequested s then [] else sentVideoFrames s) ++
       [mkframe (videoFrameCount s) (Z.of_nat n) ((λ k, u32 (Link.seq (link (base s)) + Z.of_nat k)) <$> seq 0 n)] → Q tt s') →
  wp (SendVideoFrame frame flags) s Q T D.
Proof.
  intros Hq Hstm Hcsd Hreq Hn Hmax Hu HQ. unfold SendVideoFrame. apply wp_bind, wp_get. rewrite Hstm. apply wp_bind.
  apply wp_mono with (Q' := λ _ s', queueing (base s') ∧ sendQueue (base s') = sendQueue (base s) ∧ Link.seq (link (base s')) = Link.seq (link (base s)) ∧
    videoFrameCount s' = videoFrameCount s ∧ videoKeyframeRequested s' = videoKeyframeRequested s ∧ sentVideoFrames s' = sentVideoFrames s).
  { destruct (D.eqb _ _); [|by apply wp_ret]. unfold GetCurrentTime, Link.GetCurrentTime.
    apply wp_bind, wp_zoom, wp_zoom, wp_bind, wp_gets, wp_bind, wp_modify, wp_ret, wp_modify. done. }
  intros [] s1 (Hq1 & E1 & E2 & E3 & E4 & E5). apply wp_bind.
  apply wp_mono with (Q' := λ go s', go = true ∧ base s' = base s1 ∧ videoFrameCount s' = videoFrameCount s ∧ videoKeyframeRequested s' = false ∧
    sentVideoFrames s' = (if videoKeyframeRequested s then [] else sentVideoFrames s)).
  { unfold admits. apply wp_bind, wp_get. rewrite E4. destruct (videoKeyframeRequested s) eqn:Er.
    - destruct Hreq as [?|E]; [done|rewrite E]. apply wp_bind, wp_modify, wp_ret. done.
    - apply wp_ret. split_and!; congruence. }
  intros go s2 (-> & Eb & Ec & Er & Es). cbn [negb]. apply wp_bind, wp_gets. rewrite Ec. apply wp_bind, wp_modify. apply wp_bind.
  unfold update_csd. rewrite Hcsd. apply wp_ret. rewrite Hn, Nat2Z.id. apply wp_bind, wp_zoom.
  lazymatch goal with |- wp _ (base ?x) _ _ _ => change (base x) with (base s2) end. rewrite Eb. assert (0 ≤ Z.of_nat n < 4294967296) as Hn32.
  { pose proof (zlen_nonneg frame). destruct (segments_of_length n (zlen frame)) as [|[_ ->]]; [done|done|lia|lia]. }
  apply (wp_send_segments _ _ flags n frame 0 n _ (Link.seq (link (base s)))); [exact Hq1|done|lia|lia|by rewrite E2, Z.add_0_r|by rewrite E2|].
  intros c' Hc'. apply wp_modify. apply HQ; cbn.
  - done.
  - exact Er.
  - by rewrite Hc', E1.
  - by rewrite Es, u32_small.
Qed.

(** C15. A frame of video of up to 255 KiB that is sent while the socket is
    not ready is in the queue as one packet for each 1024 bytes, with
    consecutive numbers; whatever the order in which the packets arrive, the
    peer's reassembler delivers exactly this frame, once, with its number
    and whether it is a key frame. *)
Theorem video_frame_arrives s frame flags stm :
  queueing (base s) → GetStreamByType STREAM_TYPE_VIDEO true (base s) = Some stm → csdIsValid stm = true → 0 ≤ s_id stm < 64 →
  videoKeyframeRequested s = false ∨ has flags VIDEO_FRAME_FLAG_KEYFRAME = true →
  1 ≤ zlen frame ≤ 261120 → wf_bytes frame → is_u32 (Link.seq (link (base s))) → is_u32 (videoFrameCount s) →
  ∃ s' pkts, SendVideoFrame frame flags s = Ret tt s' ∧ sendQueue (base s') = sendQueue (base s) ++ pkts ∧ zlen pkts = segmentCount (zlen frame) ∧
    ∀ arriving hdrs r c,
      arriving ≡ₚ pkts → length hdrs = length arriving → Forall (λ h, wf_bytes h ∧ zlen h ≤ 100000) hdrs →
      watching (s_id stm) r c → PacketReassembler.wf r → PacketReassembler.currentTimestamp r ≠ videoFrameCount s →
      ∃ c', receive_segments (zip hdrs (Link.p_data <$> arriving)) c = Ret tt c' ∧
        trace c' = VideoFrame (Buffer.of_bytes frame, videoFrameCount s, has flags VIDEO_FRAME_FLAG_KEYFRAME) :: trace c.
Proof.
  intros Hq Hstm Hcsd Hi Hreq Hlen Hwf Hu Hv. set (n := Z.to_nat (segmentCount (zlen frame))). set (kf := has flags VIDEO_FRAME_FLAG_KEYFRAME).
  assert (1 ≤ segmentCount (zlen frame) ≤ 255) as Hseg.
  { unfold segmentCount. pose proof (Z.div_mod (zlen frame) 1024 ltac:(lia)). pose proof (Z.mod_pos_bound (zlen frame) 1024 ltac:(lia)).
    destruct (Z.ltb_spec 0 (zlen frame mod 1024)); lia. }
  assert (segmentCount (zlen frame) = Z.of_nat n) as Hn by lia.
  pose proof (wp_SendVideoFrame s frame flags stm n (λ _ s', sendQueue (base s') = sendQueue (base s) ++
     (segment_packet (s_id stm) (videoFrameCount s) kf n frame (Link.seq (link (base s))) <$> seq 0 n)) (λ _ _, False) (λ _, False)
     Hq Hstm Hcsd Hreq Hn ltac:(lia) Hu (λ s' _ _ H _, H)) as Hw. unfold wp in Hw.
  destruct (SendVideoFrame frame flags s) as [[] s'| |]; [|done..]. eexists s', _. split_and!; [done|exact Hw|by rewrite zlen_fmap, zlen_seq|].
  intros arriving hdrs r c Hperm Hh Hhs Hwatch Hr Hts.
  apply Permutation_map_inv in Hperm as (order & -> & Hperm). rewrite length_fmap in Hh.
  pose proof (wp_receive_frame (s_id stm) (videoFrameCount s) kf n frame order hdrs r c ltac:(lia) Hi Hn Hwf (symmetry Hperm) Hh Hhs Hwatch Hr) as Hrec.
  rewrite u32_small in Hrec by done. specialize (Hrec Hts). unfold wp in Hrec.
  change (Link.p_data <$> (_ <$> order)) with (Link.p_data <$> (segment_packet (s_id stm) (videoFrameCount s) kf n frame (Link.seq (link (base s))) <$> order)).
  rewrite <- list_fmap_compose. change (Link.p_data ∘ _) with (segment_bytes (s_id stm) (videoFrameCount s) kf n frame).
  destruct (receive_segments _ c) as [[] c'| |]; [|done..]. by exists c'.
Qed.

(** A frame of 256 segments falls apart: their number is 0 in a byte, so
    that each segment is delivered as a frame of its own. *)
Theorem frame_of_256_segments_falls_apart i pts kf frame order hdrs r c :
  0 ≤ i < 64 → segmentCount (zlen frame) = 256 → wf_bytes frame → Forall (λ k, k < 256)%nat order →
  length hdrs = length order → Forall (λ h, wf_bytes h ∧ zlen h ≤ 100000) hdrs → watching i r c →
  ∃ c', receive_segments (zip hdrs (segment_bytes i pts kf 256 frame <$> order)) c = Ret tt c' ∧
    trace c' = rev ((λ k, VideoFrame (Buffer.of_bytes (piece frame k), u32 pts, kf)) <$> order) ++ trace c.
Proof.
  intros Hi Hcnt Hwf Hord Hlen Hh Hw.
  enough (wp (receive_segments (zip hdrs (segment_bytes i pts kf 256 frame <$> order))) c (λ _ c',
    trace c' = rev ((λ k, VideoFrame (Buffer.of_bytes (piece frame k), u32 pts, kf)) <$> order) ++ trace c) (λ _ _, False) (λ _, False)) as Hwp.
  { unfold wp in Hwp. destruct (receive_segments _ c) as [[] c'| |]; [by exists c'|done..]. }
  revert hdrs r c Hlen Hh Hw. induction Hord as [|k order Hk _ IH]; intros hdrs r c Hlen Hh Hw.
  { destruct hdrs; [|done]. by apply wp_ret. }
  destruct hdrs as [|h hdrs]; [done|]. apply Forall_cons in Hh as [[Hwh Hzh] Hh].
  cbn [fmap list_fmap zip zip_with receive_segments]. apply wp_bind.
  destruct (PacketReassembler.AddFragment (Buffer.of_bytes (piece frame k)) (parts_of 256 k).1 (parts_of 256 k).2 (u32 pts) kf r) as [o r1| |] eqn:Ea.
  2, 3: revert Ea; unfold PacketReassembler.AddFragment, parts_of; cbn; by rewrite andb_false_r.
  assert (o = [(Buffer.of_bytes (piece frame k), u32 pts, kf)]) as ->.
  { revert Ea. unfold PacketReassembler.AddFragment, parts_of. cbn. rewrite andb_false_r. by intros [= <- _]. }
  eapply (wp_receive_segment i r c h pts kf 256 frame k); [done..|exact Ea|].
  intros c1 Hw1 Ht1. eapply wp_mono; [eapply IH; [cbn in Hlen; lia|done|exact Hw1]|].
  intros [] c2 Ht2. cbn beta in *. rewrite Ht2, Ht1. cbn. by rewrite <- app_assoc.
Qed.

(** While a key frame is awaited, other frames are dropped. *)
Theorem frames_wait_for_a_keyframe s frame flags :
  videoKeyframeRequested s = true → has flags VIDEO_FRAME_FLAG_KEYFRAME = false →
  ∃ s', SendVideoFrame frame flags s = Ret tt s' ∧ sendQueue (base s') = sendQueue (base s) ∧ trace (base s') = trace (base s) ∧
    videoKeyframeRequested s' = true ∧ videoFrameCount s' = videoFrameCount s ∧ sentVideoFrames s' = sentVideoFrames s.
Proof.
  intros Hr Hk. set (P s' := sendQueue (base s') = sendQueue (base s) ∧ trace (base s') = trace (base s) ∧
    videoKeyframeRequested s' = true ∧ videoFrameCount s' = videoFrameCount s ∧ sentVideoFrames s' = sentVideoFrames s).
  enough (wp (SendVideoFrame frame flags) s (λ _, P) (λ _ _, False) (λ _, False)) as Hw.
  { unfold wp in Hw. destruct (SendVideoFrame frame flags s) as [[] s'| |]; [by exists s'|done..]. }
  unfold SendVideoFrame. apply wp_bind, wp_get. destruct (GetStreamByType _ _ _); [|by apply wp_ret]. apply wp_bind.
  apply wp_mono with (Q' := λ _, P).
  { destruct (D.eqb _ _); [|by apply wp_ret]. unfold GetCurrentTime, Link.GetCurrentTime.
    by apply wp_bind, wp_zoom, wp_zoom, wp_bind, wp_gets, wp_bind, wp_modify, wp_ret, wp_modify. }
  intros [] s1 Hs1. assert (videoKeyframeRequested s1 = true) as Hr1 by apply Hs1.
  unfold admits. apply wp_bind, wp_bind, wp_get. rewrite Hr1, Hk. by apply wp_ret, wp_ret.
Qed.
End sending.

(* ------------------------------------------------------------------ *)
(** ** Frames that are lost *)

Section lost.
Import Controller Video.

(** Entirely acknowledged, and acknowledged in part. *)
Definition finished (f : SentVideoFrame) : bool := bool_decide (unacknowledgedPackets f = []).
Definition touched (f : SentVideoFrame) : bool := finished f || (zlen (unacknowledgedPackets f) <? fragmentCount f).

Lemma find_lost_after l :
  (find_lost false l).2 = existsb touched l ∧ ((find_lost false l).2 = false → (find_lost false l).1 = l).
Proof.
  induction l as [|f l [IH1 IH2]]; [done|]. cbn. unfold touched at 1. unfold finished. destruct (bool_decide _); [done|]. cbn.
  destruct (_ <? _); [done|]. cbn. destruct (find_lost false l) as [k b]. cbn in *. split; [done|]. intros Hb. f_equal. by apply IH2.
Qed.
(** What [find_lost] finds, without the loop. *)
Lemma find_lost_spec l :
  ((find_lost true l).2 = true ↔ ∃ i j f g, (i < j)%nat ∧ l !! i = Some f ∧ finished f = false ∧ l !! j = Some g ∧ touched g = true) ∧
  ((find_lost true l).2 = false → (find_lost true l).1 = List.filter (λ f, negb (finished f)) l).
Proof.
  induction l as [|f l [IH1 IH2]].
  { split; [|done]. split; [done|]. by intros (? & ? & ? & ? & ? & ? & _). }
  cbn [find_lost List.filter]. fold (finished f). destruct (finished f) eqn:Ef; cbn [negb].
  - split; [|done]. rewrite IH1. split.
    + intros (i & j & f1 & g & Hij & Hi & Hf & Hj & Hg). exists (S i), (S j), f1, g. split_and!; [lia|done..].
    + intros ([|i] & j & f1 & g & Hij & Hi & Hf & Hj & Hg); [cbn in Hi; congruence|]. destruct j as [|j]; [lia|].
      exists i, j, f1, g. split_and!; [lia|done..].
  - destruct (find_lost_after l) as [Hb Hk]. destruct (find_lost false l) as [k b]. cbn in *. subst b. split.
    + split.
      * intros (g & Hg & Ht)%existsb_exists. apply list_elem_of_In, list_elem_of_lookup in Hg as [j Hj].
        exists 0%nat, (S j), f, g. split_and!; [lia|done..].
      * intros (i & [|j] & f1 & g & Hij & Hi & Hf & Hj & Hg); [lia|]. apply existsb_exists. exists g. split; [|done].
        apply list_elem_of_In. by eapply list_elem_of_lookup_2.
    + intros Hb. rewrite (Hk Hb). f_equal. clear -Hb. induction l as [|g l IH]; [done|]. cbn in *. apply orb_false_elim in Hb as [Hg Hb].
      unfold touched in Hg. apply orb_false_elim in Hg as [-> _]. cbn. f_equal. by apply IH.
Qed.

(** C25. After acknowledgements a key frame is requested exactly when a
    packet of a frame was acknowledged and one of an earlier frame was not;
    otherwise exactly the frames of which every packet was acknowledged are
    forgotten. *)
Theorem lost_frames_request_a_keyframe s :
  videoSource s ≠ None → videoKeyframeRequested s = false →
  let l := forget_acknowledged (link (base s)) <$> sentVideoFrames s in
  ∃ s', check_sent_frames s = Ret tt s' ∧ base s' = base s ∧
    (videoKeyframeRequested s' = true ↔
       ∃ i j f g, (i < j)%nat ∧ l !! i = Some f ∧ finished f = false ∧ l !! j = Some g ∧ touched g = true) ∧
    (if videoKeyframeRequested s' then calls s' = RequestKeyFrame :: calls s
     else calls s' = calls s ∧ sentVideoFrames s' = List.filter (λ f, negb (finished f)) l).
Proof.
  intros Hsrc Hreq l. unfold check_sent_frames, mbind, M_bind, get. rewrite bool_decide_eq_false_2, Hreq by done. cbn [orb].
  fold l. destruct (find_lost_spec l) as [Hb Hk]. destruct (find_lost true l) as [k b]. cbn in Hb, Hk. destruct b.
  - eexists. split; [reflexivity|]. by split_and!.
  - eexists. split; [reflexivity|]. cbn. rewrite Hreq. split; [done|]. split; [exact Hb|]. split; [done|]. by rewrite Hk.
Qed.
End lost.

(* ------------------------------------------------------------------ *)
(** ** Examples *)

Section example.
#[local] Existing Instance example_random.
#[local] Existing Instance example_server.
#[local] Existing Instance example_host.
#[local] Existing Instance example_platform.
#[local] Existing Instance Wire.toy_crypto.
#[local] Existing Instance stopped.
Import Packet Controller Video.

(** A call with an outgoing video stream, whose socket is not ready. *)
Definition video_stream : Stream := new_stream <| s_id := 2 |> <| s_type := STREAM_TYPE_VIDEO |> <| csdIsValid := true |>.
Definition filming : Video.t :=
  let c := example_call <| outgoingStreams := [new_stream; video_stream] |> <| udpReady := false |> in
  create c <| videoSource := Some (mksource [] 640 480) |> <| videoFrameCount := 7 |>.
Definition example_frame : bytes := replicate 2000 5.
Lemma filming_queues : queueing (base filming).
Proof. split; [done|]. eexists. split; [by vm_compute|done]. Qed.
Lemma video_frame_arrives_witness :
  ∃ s' pkts, SendVideoFrame example_frame 1 filming = Ret tt s' ∧ sendQueue (base s') = sendQueue (base filming) ++ pkts ∧ zlen pkts = segmentCount 2000 ∧
    ∀ arriving hdrs r c,
      arriving ≡ₚ pkts → length hdrs = length arriving → Forall (λ h, wf_bytes h ∧ zlen h ≤ 100000) hdrs →
      watching 2 r c → PacketReassembler.wf r → PacketReassembler.currentTimestamp r ≠ 7 →
      ∃ c', receive_segments (zip hdrs (Link.p_data <$> arriving)) c = Ret tt c' ∧
        trace c' = VideoFrame (Buffer.of_bytes example_frame, 7, true) :: trace c.
Proof.
  apply (video_frame_arrives filming example_frame 1 video_stream).
  - exact filming_queues.
  - reflexivity.
  - reflexivity.
  - by vm_compute.
  - by right.
  - by vm_compute.
  - by apply Forall_replicate.
  - by vm_compute.
  - by vm_compute.
Defined.

(** The two packets of the frame arrive in the wrong order. *)
Definition receiving : Controller.t :=
  example_call <| audioOutStarted := true |>
    <| incomingStreams := [new_stream <| s_id := 2 |> <| s_type := STREAM_TYPE_VIDEO |> <| packetReassembler := Some (PacketReassembler.ctor 0 false) |>] |>.
Example the_frame_arrives :
  match SendVideoFrame example_frame 1 filming with
  | Ret _ s =>
      let arriving := rev (Link.p_data <$> drop (List.length (sendQueue (base filming))) (sendQueue (base s))) in
      match receive_segments (zip [[]; [1; 2; 3]] arriving) receiving with
      | Ret _ c => trace c = VideoFrame (Buffer.of_bytes example_frame, 7, true) :: trace receiving
      | _ => False
      end
  | _ => False
  end.
Proof. by vm_compute. Qed.

(** Of two frames the packet of the second one was acknowledged. *)
Definition losing : Video.t :=
  filming <| sentVideoFrames := [mkframe 7 1 [40]; mkframe 8 1 []] |>.
Lemma lost_frames_request_a_keyframe_witness :
  let l := forget_acknowledged (link (base losing)) <$> sentVideoFrames losing in
  ∃ s', check_sent_frames losing = Ret tt s' ∧ base s' = base losing ∧
    (videoKeyframeRequested s' = true ↔
       ∃ i j f g, (i < j)%nat ∧ l !! i = Some f ∧ finished f = false ∧ l !! j = Some g ∧ touched g = true) ∧
    (if videoKeyframeRequested s' then calls s' = RequestKeyFrame :: calls losing
     else calls s' = calls losing ∧ sentVideoFrames s' = List.filter (λ f, negb (finished f)) l).
Proof. by apply (lost_frames_request_a_keyframe losing). Defined.
Example keyframe_is_requested :
  (calls <$> match check_sent_frames losing with Ret _ s => Some s | _ => None end) = Some [RequestKeyFrame].
Proof. by vm_compute. Qed.

(** Video to a peer that has none: there is no outgoing video stream. *)
Example no_video_stream : SetVideoSource (Some (mksource [] 640 480)) (create example_call) = Crash UndefinedBehaviour.
Proof. by vm_compute. Qed.
End example.
